(* ===== verification/_CoqProject ===== *)
-Q . S2P
Prelude.v
CxxString.v
Lines.v
Purl.v
Clock.v
Doubles.v
DoubleBounds.v
Json.v
JsonObjects.v
JsonText.v
Attest.v
Numbers.v
Sca.v
A2aTypes.v
A2aTask.v
Worklist.v
CpgGraph.v
CpgCfg.v
CpgDdg.v
Finding.v
Slopsquat.v
Reach.v
Taint.v
AuditLog.v
CapToken.v
CredentialPool.v
Network.v
Router.v
Scan.v
Regex.v
Paths.v
Skills.v
Admission.v
RuleLoader.v
Ensemble.v
EnsembleHttp.v
Delegation.v
Swarm.v
SecurityPolicy.v
Sessions.v
AgentSession.v
Interaction.v
AgentLoop.v
Lifecycle.v
Validator.v
ToolManifest.v
RuntimeConfig.v
Streaming.v
Inference.v
LockFiles.v
SbomDocs.v
VulnDb.v
Identity.v
AttestDocs.v
Metrics.v
MetricsReport.v
ReportCheck.v
Crypto.v
Memory.v
Cache.v
ScanCache.v
JsonCache.v
ProviderRouter.v
AuthProfiles.v
CertGates.v
Certification.v
Verdict.v
Evidence.v
PlaybookPolicy.v
PlaybookPlan.v
McpBridge.v
ProviderExec.v
PlaybookRun.v
PlaybookSchedule.v
PlaybookEnds.v
PillarChecks.v
VerdictMath.v
VerdictEngine.v
PlaybookExamples.v
PlaybookCommand.v
