(* ===== verification/Prelude.v ===== *)
(** * Euxis: a verification of its core libraries

    Euxis is an agent framework with a built-in security scanner, written in
    C++23.  The libraries under [src/libs] carry most of its logic; of the
    applications under [src/apps] (command line, terminal interface, gateway,
    publisher) the command line has logic of its own: routing, credentials,
    readiness, and the playbooks that have agents judge a project.  This
    development models the parts below as Rocq functions, one definition per
    C++ function or loop, and proves what makes them correct.

    ** The parts of the program and where they are modelled

    The static analysis pipeline parses a file, projects its syntax tree into a
    code property graph, adds control-flow and data-dependency edges, and
    searches the graph:
    - [CpgGraph]: [libs/parse] (node ranges and text), [libs/cpg/src/types.cpp]
      ([classify]), [graph.cpp] (every operation of [Graph]) and [builder.cpp]
      ([build]).  A [Graph] is the vector of nodes, the vector of edges and the
      root; node ids are the 32-bit positions of the code.
    - [CpgCfg]: [cfg.cpp].  The builder's state (graph and statistics) is
      threaded through [descend], [process_block], [process_if] and
      [process_loop].
    - [CpgDdg]: [ddg.cpp], with the map of last definitions as a [gmap].
    - [Finding]: [libs/security/src/finding.cpp], the record all analyses emit.
    - [Reach]: [libs/reach/src/callgraph.cpp] and [reachability.cpp].
    - [Taint]: [libs/taint], the specs, [classify_all], [analyze] and
      [flows_to_findings].
    - [Worklist]: the breadth-first loop that [Reach] and [Taint] share.

    The supply-chain libraries:
    - [Purl]: [libs/sbom/src/purl.cpp], printing and parsing package URLs.
    - [Sca]: [libs/sca], the [Cargo.lock] and [go.sum] parsers and the assembly
      of the bill of materials ([to_sbom_document]).
    - [LockFiles]: [npm_lock.cpp], [pipfile_lock.cpp] and the directory walk of
      [scanner.cpp].  A directory is a tree of names and contents.
    - [SbomDocs]: the CycloneDX, SPDX and OpenVEX emitters of [libs/sbom].
    - [VulnDb]: [libs/vulndb], the OSV client with its retry loop and the
      enrichment of a bill of materials.
    - [Slopsquat]: [libs/slopsquatting], the corpus of invented package names
      and the check of scanned manifests; its buckets are [gset]s.
    - [Attest]: [libs/attest], base64, the DSSE pre-authentication encoding,
      statement validation, signing and verification of envelopes.
    - [AttestDocs]: the JSON of envelopes, Sigstore bundles and SLSA provenance.
    - [Identity]: [libs/identity], DID documents, credentials, attestations,
      agent cards and the registry.

    - [Scan], [RuleLoader]: [libs/scan], rules, their YAML and the rule engine;
      [Regex] is the part of [std::regex] the program uses.
    - [Ensemble], [EnsembleHttp]: [libs/ensemble], the response parser, the
      vote and the HTTP verifiers.

    Bridge, security and core:
    - [AuditLog]: [libs/bridge/src/audit.cpp], the hash-chained log.  The log
      file is its contents and [IoOutcome] lists how the system calls of
      [append] can end.
    - [CapToken]: [libs/bridge/src/policy.cpp], capability tokens and policies.
    - [Skills]: [skill.cpp], [parser.cpp], [importer.cpp], [provenance.cpp] and
      the parts of [executor.cpp] before and after the child process.
    - [Admission]: [static_analysis.cpp], [verification.cpp],
      [reputation.cpp] and [admission.cpp].
    - [SecurityPolicy]: [libs/security/src/policy.cpp] and [governance.cpp].
    - [A2aTypes], [A2aTask]: [libs/a2a-types] and [libs/a2a], messages, agent
      cards with their JSON and binary forms, the task state machine and the
      request handler.
    - [CredentialPool], [Router], [Delegation], [Swarm]: [libs/core], the
      credential pool, the router, the coordinator of subagents with its threads
      ([pstep]), and swarms and supervision.
    - [Network]: [libs/network/src/resilience.cpp], its header's
      [run_with_resilience], and [topology_grid.cpp].

    The agent runtime, [libs/runtime] and [libs/inference]:
    - [Sessions]: [session_store.cpp], the stores in memory and in files.
    - [AgentSession]: [agent_session.cpp] and [tool_registry.cpp].
    - [Interaction]: [interaction.cpp].
    - [AgentLoop]: [iteration_budget.hpp], [context_engine.cpp] and
      [agent_loop.cpp].
    - [Lifecycle], [Validator]: [lifecycle.cpp] and [validator.cpp], which read
      and write the same files.
    - [ToolManifest]: [tool_manifest.cpp] and [manifesto.cpp].
    - [RuntimeConfig]: [config.cpp].
    - [Streaming]: the three streaming providers of [libs/inference].
    - [Inference]: its quality gate, prompt-cache markers and model registry,
      one Module each.

    Storage, measurement and the command line:
    - [Crypto]: the checks and key derivation of [libs/crypto] around a cipher
      that is an argument.
    - [Memory]: [libs/memory], the encrypted store with its cached index over
      a file that is a list of lines.
    - [Cache], [ScanCache], [JsonCache]: [libs/cache], digests and keys, and the
      two caches over a table of the data base.
    - [Metrics]: [libs/metrics], cost summaries, the views of a grid, the event
      buffer and the evidence store, one Module each.
    - [MetricsReport]: the session collector and the analyzer of its files.
    - [ReportCheck]: the validation of reports.
    - [ProviderRouter]: [apps/cli/src/provider_router.cpp], the configuration
      files and the routing of tasks, over [Router].
    - [CertGates], [Certification]: [apps/cli/src/certification.cpp], the gates
      over the files and programs of a target, and the assessment over them.
    - [AuthProfiles]: [apps/cli/src/auth_profile_store.cpp], the profiles of
      credentials, their cooldowns, and the choice of one.
    - [ProviderExec], [McpBridge]: [apps/cli/src/provider_executor.cpp] and
      [mcp_provider.cpp], one question to a provider, over the programs that
      are run; [track] ties the answer to the circuit breaker of [Network] and
      to [AuthProfiles].

    Playbooks, [apps/cli/src/cmd/fleet.cpp] and what it uses:
    - [PlaybookPlan]: the schema of a playbook and [build_step_plan].
    - [PlaybookRun]: the collection of evidence of [cmd_playbook].  A [Run] is
      what the main loop and the worker threads share; an [Event] is one
      critical section of one of them, and [run_step] relates the states before
      and after.  [PlaybookSchedule] and [PlaybookEnds] hold the invariants and
      the proof that a run can end.
    - [Evidence]: what is read from an answer, and [agent_mcp_context.cpp].
    - [PillarChecks]: the verifiers of a project and the checks the run makes
      itself, over the programs and files of [CertGates].
    - [VerdictMath]: the tally, the confidence, the verdict and the exit code.
      [VerdictEngine]: the steps from the collected evidence to the artifact
      ([conclude], [finish_run]).
    - [Verdict]: the states of [verdict.hpp] and the rules and alerts of
      [playbook_verify.cpp].  [PlaybookPolicy]: policies and the history file.
    - [PlaybookCommand]: the arguments, [euxis ci], the comparison of two modes
      and the statistics.  [PlaybookExamples]: whole runs, evaluated.

    Shared foundations: this file (results, machine integers, step sequences,
    list lemmas, tactics and the hint database [euxis]); [CxxString] (byte
    strings and the [std::string] operations used); [Lines] ([std::getline]
    and trimming); [Clock] ([gmtime_r] and the ISO 8601 format); [Doubles]
    (IEEE 754 binary64) and [DoubleBounds] (how far its rounding goes);
    [Numbers] ([std::stoi], [std::stod]); [Paths]
    ([std::filesystem::path]); [Json] and [JsonText] (the interface of the JSON
    library, its values and its encodings); [JsonObjects] (objects written
    member by member and read back, and loaders that stop at the first exception).

    ** How the code is represented

    A [std::expected] is [expected]; an exception or undefined behaviour is
    [None].  Mutable objects are records passed and returned.  Unsigned
    arithmetic wraps with [u8], [u32] and [u64]; [double] arithmetic is the
    executable binary64 specification.  An [unordered_map] whose iteration
    order is observable is a list in any order and theorems quantify over it;
    otherwise maps are [gmap]s.  Clock readings, random bytes and the outcome
    of a system call are arguments.  Operations under a mutex are one step.

    Code outside the sources is a parameter: Ed25519 ([Attest]), SHA-256 and
    the JSON text format ([AuditLog]), HMAC-SHA256 ([CapToken]), JSON values
    ([Json]), [sodium_bin2hex] ([A2aTask]), as type classes whose laws are
    documented behaviour (a JSON text is read back as it was written only for
    values without NaN or infinity, [json_exact], and [dump] may throw), as are the YAML library ([RuleLoader]), the directory
    listing ([Paths]), MessagePack and JSON text ([JsonText]).  Each has an
    instance in the development.  Providers, tools, HTTP clients and the files
    of a directory are plain arguments.

    Loops that are not structural take fuel, and the theorems say how much is
    enough: one more than the number of nodes for the graph walks, since AST
    edges go from a smaller to a larger node id ([graph_wf]); the number of
    nodes and call edges for the searches, since a node is queued once.  With
    that much fuel the functions return a result; nothing is proved only under
    the condition that they do.

    ** What the theorems show

    - Analysis: the projection rebuilds the syntax tree and is well formed; the
      control-flow and data-dependency passes terminate, keep the AST and add
      exactly the specified edges ([build_cfg_refines],
      [build_ddg_last_definition]); the call graph and the reachable set are
      exactly the declared relations and their closure; the taint analysis
      reports a flow exactly when tainted data reaches a sink, with a genuine
      path as evidence ([analyze_exact], [analyze_paths]).
    - Formats: round trips of purls, base64, cards, messages, bundles,
      [Cargo.lock] and npm locks; a CycloneDX document is read back with every
      member of its components ([cyclonedx_roundtrip]); injectivity of the signed encodings; rejection
      of truncated binary cards.
    - Supply chain: the scanner finds exactly the lock files outside ignored
      directories ([scan_directory_exact]); the OSV client stops after its
      attempts with the right error ([post_with_retry_spec]) and the enricher
      reports exactly what it asked about ([enrich_exact]).
    - Integrity: signed envelopes verify and what verifies was signed; the
      audit chain verifies, survives reopening and is tamper evident up to hash
      collisions; tokens verify for one hour; the proof of a credential binds
      its contents ([credential_binding]).
    - State: task life cycles, the request handler against a table of statuses,
      the least-recently-used session table, the circuit breaker, the retry
      loop, the credential ring and the topology index.
    - Scanning and policy: the rule engine reports exactly the matching nodes
      ([apply_rules_exact]), loaded rules are well formed, an admitted skill is
      signed, a session audit reports exactly what the policy names.
    - Concurrency: parallel delegation joins its threads and returns each answer
      in its place, and what a subagent that throws or hangs does to it
      ([delegate_parallel_ends], [delegate_parallel_completes]); the iteration
      budget hands out exactly its iterations under any interleaving
      ([budget_exact]).
    - Runtime: the file store answers as the memory store
      ([file_store_agrees]); sessions and lifecycles survive the disk; what the
      lifecycle manager writes the validator accepts
      ([lifecycle_output_validates]); the retry gate stops in time; event
      streams do not depend on how they are cut ([sse_chunks]).
    - Storage: the cached memory store answers as one that reads its file each
      time ([memory_cache_transparent]) and gives back what was stored; the
      document cache answers as parsing the file or reports a failed statement,
      up to digest collisions ([json_cache_transparent]).
    - Measurement: summaries are sums over the records of their session
      ([aggregate_exact]); a report over the collected files is one over the
      completed tasks ([collected_sessions_analyzed]).
    - Command line: strategy routing takes the first provider that can be used
      ([strategy_provider_exact]); a reload gives the configuration of a new
      router or changes nothing ([reload_matches_construction]); a readiness
      assessment always returns ([assessment_returns]), succeeds exactly under
      the stated conditions ([readiness_exact]), and what it then rests on
      ([ready_is_backed]); credentials are resolved to the first provider of
      the chain that has one ([resolution_exact]); the frames a server wrote are
      read ([frames_read]).
    - Playbooks: under any interleaving the slots add up and no step starts
      before its dependencies ([slots_and_dependencies]); from every state a
      flash run, or a run whose dependencies are ordered, can end
      ([run_can_finish]); the confidence is a percentage; what a run that exits
      with 0 has passed ([passing_run_is_sound]), and what TRUSTED means
      ([trusted_is_unanimous]); what is recorded is read back
      ([verdict_history_reloads]).
    - Boundaries: where the code falls short of its documentation, a lemma
      exhibits it (for instance [capability_token_confusion],
      [audit_fsync_failure_breaks_chain], [build_ddg_loses_copy],
      [build_cfg_double_descent], [base64_decode_truncates],
      [bare_line_is_generic], [crashed_agents_pass], [skipped_agents_trusted],
      [nothing_run_is_ready], [build_cfg_misses_nested_block],
      [escalation_is_a_race]).

    ** What is not modelled

    The windows and terminal pages, network clients and transports, the
    creation of processes, the statements of the data base, the tree-sitter
    grammars and local inference back ends are input and output: what they
    deliver is an argument here.  Errors of the file system are modelled where
    the code looks at them; a directory listing that fails half way
    ([LockFiles]) and a query that throws ([CertGates]) are not.  The remaining
    commands of the command line
    print what the modelled parts compute, or pass a question to a provider.
    Of the playbook command the text on the terminal is left out, and of the
    providers the callbacks that show an answer while it arrives. *)

From Stdlib Require Import ZArith Ascii String Lia.
From stdpp Require Import base list gmap strings.

(** ** Results *)

(** [std::expected<A, E>]: a value or an error. *)
Inductive expected (A E : Type) : Type :=
| Ok (a : A)
| Unexpected (e : E).
Arguments Ok {A E} _.
Arguments Unexpected {A E} _.

Declare Scope euxis_scope.
Delimit Scope euxis_scope with euxis.
Open Scope euxis_scope.

(** Monadic binding for code that returns early on an error. *)
Notation "'let?' x := c 'in' k" :=
  (match c with Ok x => k | Unexpected e => Unexpected e end)
  (at level 200, x name, c at level 200, k at level 200) : euxis_scope.

#[export] Instance expected_eq_dec {A E} `{EqDecision A, EqDecision E} :
  EqDecision (expected A E).
Proof. solve_decision. Defined.

(** [if (e)] on a [std::expected]: does it hold a value? *)
Definition has_value {A E} (r : expected A E) : bool :=
  match r with Ok _ => true | Unexpected _ => false end.

(** ** Fixed-width unsigned integers

    A w-bit unsigned integer is a [Z]; the wrap-around of its arithmetic is
    written out with [u8], [u32] and [u64]. *)
Definition u8 (z : Z) : Z := (z mod 2 ^ 8)%Z.
Definition u32 (z : Z) : Z := (z mod 2 ^ 32)%Z.
Definition u64 (z : Z) : Z := (z mod 2 ^ 64)%Z.

(** *** Signed integers: an overflow is undefined, [None] *)

(** Values of the C++ type [int]. *)
Definition int32 (z : Z) : Prop := (- 2 ^ 31 <= z < 2 ^ 31)%Z.
#[export] Instance int32_dec z : Decision (int32 z).
Proof. unfold int32. apply _. Defined.

(** Values of the C++ type [std::int64_t]. *)
Definition int64 (z : Z) : Prop := (- 2 ^ 63 <= z < 2 ^ 63)%Z.
#[export] Instance int64_dec z : Decision (int64 z).
Proof. unfold int64. apply _. Defined.

Definition int_range (z : Z) : option Z := if bool_decide (int32 z) then Some z else None.
Definition int64_range (z : Z) : option Z := if bool_decide (int64 z) then Some z else None.

Lemma int_range_some z w : int_range z = Some w <-> w = z /\ int32 z.
Proof. unfold int_range. case_bool_decide; naive_solver. Qed.

Lemma u64_range z : (0 <= u64 z < 2 ^ 64)%Z.
Proof. apply Z.mod_pos_bound. lia. Qed.

Lemma u32_range z : (0 <= u32 z < 2 ^ 32)%Z.
Proof. apply Z.mod_pos_bound. lia. Qed.

Lemma u64_small z : (0 <= z < 2 ^ 64)%Z -> u64 z = z.
Proof. apply Z.mod_small. Qed.

(** [hi << k | lo] is a sum when [lo] fits below bit [k]. *)
Lemma lor_shiftl_add hi lo k :
  (0 <= k -> 0 <= lo < 2 ^ k -> Z.lor (Z.shiftl hi k) lo = hi * 2 ^ k + lo)%Z.
Proof.
  intros Hk Hlo. rewrite <- (Z.shiftl_mul_pow2 hi k Hk), <- Z.add_lor_land.
  assert (Z.land (Z.shiftl hi k) lo = 0%Z) as ->; [|lia].
  apply Z.bits_inj'. intros n Hn. rewrite Z.land_spec, Z.bits_0.
  destruct (Z.lt_ge_cases n k) as [Hlt|Hge].
  - by rewrite Z.shiftl_spec_low.
  - rewrite <- (Z.mod_small lo (2 ^ k)) by lia.
    rewrite Z.mod_pow2_bits_high by lia. apply andb_false_r.
Qed.

Lemma mod_mul_div a b c : (0 < b -> 0 < c -> (a / b) mod c = (a mod (b * c)) / b)%Z.
Proof.
  intros Hb Hc. rewrite Z.rem_mul_r, Z.add_comm, Z.mul_comm, Z.div_add_l by lia.
  rewrite (Z.div_small (a mod b)); [lia|]. by apply Z.mod_pos_bound.
Qed.

Lemma mod_mul_mod a b c : (0 < b -> 0 < c -> (a mod (b * c)) mod b = a mod b)%Z.
Proof.
  intros Hb Hc. rewrite Z.rem_mul_r, Z.mul_comm, Z_mod_plus_full by lia.
  apply Z.mod_mod. lia.
Qed.

(** ** Sequences of steps *)

(** Reflexive-transitive closure of a step relation. *)
Inductive steps {A : Type} (R : A -> A -> Prop) : A -> A -> Prop :=
| steps_nil a : steps R a a
| steps_cons a b c : R a b -> steps R b c -> steps R a c.

Lemma steps_one {A} (R : A -> A -> Prop) a b : R a b -> steps R a b.
Proof. eauto using steps. Qed.

Lemma steps_app {A} (R : A -> A -> Prop) a b c :
  steps R a b -> steps R b c -> steps R a c.
Proof. induction 1; eauto using steps. Qed.

Lemma steps_snoc {A} (R : A -> A -> Prop) a b c :
  steps R a b -> R b c -> steps R a c.
Proof. eauto using steps_app, steps_one. Qed.

(** An invariant of every step is an invariant of every run. *)
Lemma steps_invariant {A} (R : A -> A -> Prop) (I : A -> Prop) :
  (forall a b, I a -> R a b -> I b) -> forall a b, steps R a b -> I a -> I b.
Proof. intros Hstep a b Hs. induction Hs; eauto. Qed.

(** ** Lists *)

(** [std::find_if]-style search for the first index satisfying [p]. *)
Fixpoint find_index {A} (p : A -> bool) (l : list A) : option nat :=
  match l with
  | [] => None
  | x :: l => if p x then Some 0 else S <$> find_index p l
  end.

Lemma find_index_None {A} (p : A -> bool) l :
  find_index p l = None <-> Forall (fun x => p x = false) l.
Proof.
  induction l as [|x l IH]; simpl; [by split|].
  rewrite Forall_cons. destruct (p x).
  - split; [done | intros [? _]; done].
  - rewrite <- IH. destruct (find_index p l); naive_solver.
Qed.

Lemma find_index_Some {A} (p : A -> bool) l i :
  find_index p l = Some i ->
  exists x, l !! i = Some x /\ p x = true /\ Forall (fun y => p y = false) (take i l).
Proof.
  revert i; induction l as [|x l IH]; intros i; simpl; [done|].
  destruct (p x) eqn:Hp.
  - intros [= <-]. exists x. by repeat split.
  - destruct (find_index p l) as [j|] eqn:Hj; [|done].
    intros [= <-]. destruct (IH j eq_refl) as (y & ? & ? & ?).
    exists y. simpl. repeat split; auto.
Qed.

Lemma find_index_app_hit {A} (p : A -> bool) l1 x l2 :
  Forall (fun y => p y = false) l1 -> p x = true ->
  find_index p (l1 ++ x :: l2) = Some (length l1).
Proof. induction 1 as [|y l1 Hy H IH]; intros Hx; simpl; [by rewrite Hx|]. by rewrite Hy, IH. Qed.

Lemma elem_of_flat_map {A B} (f : A -> list B) l y :
  y ∈ flat_map f l <-> exists x, x ∈ l /\ y ∈ f x.
Proof. setoid_rewrite list_elem_of_In. apply in_flat_map. Qed.

Lemma Forall_flat_map {A B} (P : B -> Prop) (f : A -> list B) l :
  (forall x, x ∈ l -> Forall P (f x)) -> Forall P (flat_map f l).
Proof.
  induction l as [|x l IH]; intros H; simpl; [constructor|].
  apply Forall_app. split; [apply H; by left|]. apply IH. intros y Hy. apply H. by right.
Qed.

Lemma take_length_app {A} (l1 l2 : list A) : take (length l1) (l1 ++ l2) = l1.
Proof. by rewrite take_app_length. Qed.

Lemma drop_S_length_app {A} (l1 : list A) x l2 :
  drop (S (length l1)) (l1 ++ x :: l2) = l2.
Proof. induction l1; simpl; auto. Qed.

(** Sums over the positions of a list. *)
Definition sumz (l : list Z) : Z := foldr Z.add 0%Z l.

Lemma sumz_imap_insert {A} (f : nat -> A -> Z) ws i w w' :
  ws !! i = Some w ->
  sumz (imap f (<[i := w']> ws)) = (sumz (imap f ws) - f i w + f i w')%Z.
Proof.
  revert f i. induction ws as [|x ws IH]; intros f i; [done|].
  destruct i as [|i].
  - intros [= ->]. change (<[0%nat:=w']> (w :: ws)) with (w' :: ws). rewrite !imap_cons.
    unfold sumz. cbn [foldr]. lia.
  - intros Hi. change (<[S i:=w']> (x :: ws)) with (x :: <[i:=w']> ws). rewrite !imap_cons.
    pose proof (IH (f ∘ S) i Hi) as E. unfold sumz in *. cbn [foldr]. rewrite E.
    unfold compose. lia.
Qed.

Lemma sumz_imap_zero {A} (f : nat -> A -> Z) ws :
  (forall i w, ws !! i = Some w -> f i w = 0%Z) -> sumz (imap f ws) = 0%Z.
Proof.
  revert f. induction ws as [|w ws IH]; intros f Hf; [done|]. rewrite imap_cons.
  unfold sumz in *. cbn [foldr]. rewrite (IH (f ∘ S)); [|intros i x Hx; exact (Hf (S i) x Hx)].
  by rewrite (Hf 0%nat w eq_refl).
Qed.

(** ** Automation *)

(** Case analysis on the conditionals of the goal and hypotheses. *)
Ltac case_ifs :=
  repeat match goal with
  | |- context [if ?b then _ else _] => destruct b eqn:?
  | H : context [if ?b then _ else _] |- _ => destruct b eqn:?
  end; simplify_eq/=.

(** Turn boolean tests into propositions. *)
Ltac bool_to_prop :=
  repeat match goal with
  | H : (_ =? _)%Z = true |- _ => apply Z.eqb_eq in H
  | H : (_ =? _)%Z = false |- _ => apply Z.eqb_neq in H
  | H : (_ <=? _)%Z = true |- _ => apply Z.leb_le in H
  | H : (_ <=? _)%Z = false |- _ => apply Z.leb_gt in H
  | H : (_ <? _)%Z = true |- _ => apply Z.ltb_lt in H
  | H : (_ <? _)%Z = false |- _ => apply Z.ltb_ge in H
  | H : (_ =? _)%nat = true |- _ => apply Nat.eqb_eq in H
  | H : (_ =? _)%nat = false |- _ => apply Nat.eqb_neq in H
  | H : (_ <=? _)%nat = true |- _ => apply Nat.leb_le in H
  | H : (_ <=? _)%nat = false |- _ => apply Nat.leb_gt in H
  | H : (_ <? _)%nat = true |- _ => apply Nat.ltb_lt in H
  | H : (_ <? _)%nat = false |- _ => apply Nat.ltb_ge in H
  | H : _ && _ = true |- _ => apply andb_true_iff in H; destruct H
  | H : _ || _ = false |- _ => apply orb_false_iff in H; destruct H
  | H : negb _ = true |- _ => apply negb_true_iff in H
  | H : negb _ = false |- _ => apply negb_false_iff in H
  | H : bool_decide _ = true |- _ => apply bool_decide_eq_true in H
  | H : bool_decide _ = false |- _ => apply bool_decide_eq_false in H
  end.

Create HintDb euxis discriminated.
#[export] Hint Constructors steps : euxis.
#[export] Hint Resolve steps_one steps_snoc u64_range u32_range : euxis.
