(* ===== verification/CxxString.v ===== *)
(** * The C++ string operations the sources use

    A [std::string] is a sequence of bytes: [str := list ascii].  The file
    models the operations of [std::string] / [std::string_view] and of
    [<cctype>] (in the "C" locale, which the program never changes) that the
    components call, with the lemmas their proofs share: [find], [rfind],
    [substr], [starts_with], substring search, [tolower], [isalnum],
    [isspace], [std::to_string] and the byte order of [std::map] keys. *)

From Stdlib Require Import ZArith Ascii String Lia.
From stdpp Require Import base list gmap sorting strings pretty.
From S2P Require Import Prelude.

Abbreviation str := (list ascii).

(** A string literal of the source. *)
Definition lit (s : string) : str := list_ascii_of_string s.

(** [static_cast<unsigned char>(c)] and its inverse [static_cast<char>]. *)
Definition code (c : ascii) : Z := Z.of_N (N_of_ascii c).
Definition chr (z : Z) : ascii := ascii_of_N (Z.to_N (u8 z)).

Lemma code_range c : (0 <= code c < 256)%Z.
Proof. unfold code. pose proof (N_ascii_bounded c). lia. Qed.

Lemma chr_code c : chr (code c) = c.
Proof.
  unfold chr, u8. rewrite Z.mod_small by (pose proof (code_range c); lia).
  unfold code. rewrite N2Z.id. apply ascii_N_embedding.
Qed.

Lemma code_chr z : (0 <= z < 256)%Z -> code (chr z) = z.
Proof.
  intros Hz. unfold chr, u8, code. rewrite Z.mod_small by lia.
  rewrite N_ascii_embedding by lia. lia.
Qed.

Lemma code_inj c d : code c = code d -> c = d.
Proof. intros H. rewrite <- (chr_code c), <- (chr_code d). by rewrite H. Qed.

(** A property of a byte holds when it holds of all 256 of them. *)
Definition all_bytes : list ascii := (fun n => ascii_of_nat n) <$> seq 0 256.

Lemma all_bytes_complete c : c ∈ all_bytes.
Proof.
  unfold all_bytes. apply list_elem_of_fmap. exists (nat_of_ascii c).
  split; [symmetry; apply ascii_nat_embedding|].
  apply elem_of_seq. pose proof (nat_ascii_bounded c). lia.
Qed.

Lemma byte_case (P : ascii -> bool) : forallb P all_bytes = true -> forall c, P c = true.
Proof.
  intros H c. rewrite forallb_forall in H. apply H.
  apply list_elem_of_In, all_bytes_complete.
Qed.

(** ** <cctype>, "C" locale *)

Definition between (a c b : ascii) : bool := ((code a <=? code c) && (code c <=? code b))%Z.

Definition isdigit (c : ascii) : bool := between "0" c "9".
Definition isupper (c : ascii) : bool := between "A" c "Z".
Definition islower (c : ascii) : bool := between "a" c "z".
Definition isalpha (c : ascii) : bool := isupper c || islower c.
Definition isalnum (c : ascii) : bool := isalpha c || isdigit c.
Definition isspace (c : ascii) : bool :=
  ((code c =? 32) || ((9 <=? code c) && (code c <=? 13)))%Z.
Definition tolower (c : ascii) : ascii := if isupper c then chr (code c + 32) else c.

Definition lower (s : str) : str := tolower <$> s.
Definition toupper (c : ascii) : ascii := if islower c then chr (code c - 32) else c.
Definition upper (s : str) : str := toupper <$> s.

Lemma tolower_idemp c : tolower (tolower c) = tolower c.
Proof.
  apply (bool_decide_eq_true_1 _).
  revert c. apply byte_case. by vm_compute.
Qed.

Lemma lower_idemp s : lower (lower s) = lower s.
Proof.
  unfold lower. rewrite <- list_fmap_compose. apply list_fmap_ext.
  intros. apply tolower_idemp.
Qed.

Lemma lower_app a b : lower (a ++ b) = lower a ++ lower b.
Proof. apply fmap_app. Qed.

Lemma length_lower s : length (lower s) = length s.
Proof. apply length_fmap. Qed.

(** ** Searching *)

Definition char_is (c d : ascii) : bool := bool_decide (d = c).

(** [s.find(c)]: index of the first occurrence, [None] for [npos]. *)
Definition find_char (c : ascii) (s : str) : option nat := find_index (char_is c) s.

(** [s.rfind(c)]: index of the last occurrence. *)
Fixpoint rfind_char (c : ascii) (s : str) : option nat :=
  match s with
  | [] => None
  | d :: s' =>
      match rfind_char c s' with
      | Some i => Some (S i)
      | None => if char_is c d then Some 0 else None
      end
  end.

(** [s.substr(pos, n)] and [s.substr(pos)]. *)
Definition substr (s : str) (pos n : nat) : str := take n (drop pos s).

(** [s.starts_with(p)]. *)
Fixpoint starts_with (p s : str) : bool :=
  match p, s with
  | [], _ => true
  | c :: p, d :: s => bool_decide (d = c) && starts_with p s
  | _ :: _, [] => false
  end.

(** [s.find(p)]: index of the first occurrence of the substring [p]. *)
Fixpoint find_sub (p s : str) : option nat :=
  if starts_with p s then Some 0
  else match s with
       | [] => None
       | _ :: s => S <$> find_sub p s
       end.

(** [s.find(p) != npos]. *)
Definition contains_sub (p s : str) : bool :=
  match find_sub p s with Some _ => true | None => false end.

(** A byte that does not occur in a string. *)
Definition free_of (c : ascii) (s : str) : Prop := c ∉ s.

Lemma char_is_true c d : char_is c d = true <-> d = c.
Proof. apply bool_decide_eq_true. Qed.

Lemma free_of_Forall c s : free_of c s <-> Forall (fun d => char_is c d = false) s.
Proof.
  unfold free_of. rewrite Forall_forall. split.
  - intros H d Hd. apply bool_decide_eq_false. intros ->. done.
  - intros H Hc. specialize (H c Hc). by apply bool_decide_eq_false in H.
Qed.

Lemma find_char_None c s : find_char c s = None <-> free_of c s.
Proof. rewrite free_of_Forall. apply find_index_None. Qed.

Lemma find_char_hit c a b :
  free_of c a -> find_char c (a ++ c :: b) = Some (length a).
Proof.
  intros Ha. apply find_index_app_hit; [by apply free_of_Forall|].
  by apply char_is_true.
Qed.

Lemma rfind_char_None c s : rfind_char c s = None <-> free_of c s.
Proof.
  unfold free_of. induction s as [|d s IH]; simpl; [set_solver|].
  rewrite not_elem_of_cons, <- IH.
  destruct (rfind_char c s); [naive_solver|].
  destruct (char_is c d) eqn:E.
  - apply char_is_true in E. naive_solver.
  - apply bool_decide_eq_false in E. naive_solver.
Qed.

Lemma rfind_char_hit c a b :
  free_of c b -> rfind_char c (a ++ c :: b) = Some (length a).
Proof.
  intros Hb. induction a as [|d a IH]; simpl.
  - rewrite (proj2 (rfind_char_None c b) Hb). unfold char_is. by rewrite bool_decide_true.
  - by rewrite IH.
Qed.

Lemma rfind_char_Some c s i :
  rfind_char c s = Some i -> exists a b, s = a ++ c :: b /\ length a = i /\ free_of c b.
Proof.
  revert i. induction s as [|d s IH]; intros i; simpl; [done|].
  destruct (rfind_char c s) as [j|] eqn:Hj.
  - intros [= <-]. destruct (IH j eq_refl) as (a & b & -> & <- & ?).
    by exists (d :: a), b.
  - destruct (char_is c d) eqn:E; [|done]. intros [= <-].
    apply char_is_true in E as ->. exists [], s.
    by repeat split; apply rfind_char_None.
Qed.

Lemma find_char_Some c s i :
  find_char c s = Some i -> exists a b, s = a ++ c :: b /\ length a = i /\ free_of c a.
Proof.
  intros H. destruct (find_index_Some _ _ _ H) as (x & Hx & Hp & Hf).
  apply char_is_true in Hp as ->.
  exists (take i s), (drop (S i) s). split; [by rewrite take_drop_middle|].
  split; [|by apply free_of_Forall].
  apply length_take_le. apply lookup_lt_Some in Hx. lia.
Qed.

Lemma starts_with_spec p s : starts_with p s = true <-> exists t, s = p ++ t.
Proof.
  revert s. induction p as [|c p IH]; intros s; simpl; [naive_solver|].
  destruct s as [|d s]; [naive_solver|].
  rewrite andb_true_iff, bool_decide_eq_true, IH. naive_solver.
Qed.

Lemma starts_with_app p s : starts_with p (p ++ s) = true.
Proof. apply starts_with_spec. by exists s. Qed.

(** [contains_sub p s] holds exactly when [p] occurs in [s]. *)
Lemma contains_sub_spec p s :
  contains_sub p s = true <-> exists a b, s = a ++ p ++ b.
Proof.
  unfold contains_sub. induction s as [|d s IH]; simpl.
  - destruct (starts_with p []) eqn:E.
    + apply starts_with_spec in E as [t ->]. split; [|done]. by exists [], t.
    + split; [done|]. intros (a & b & H). symmetry in H.
      apply app_eq_nil in H as [-> H]. apply app_eq_nil in H as [-> ->]. done.
  - destruct (starts_with p (d :: s)) eqn:E.
    + apply starts_with_spec in E as [t ->]. split; [|done]. by exists [], t.
    + destruct (find_sub p s); simpl.
      * split; [|done]. intros _. destruct (proj1 IH eq_refl) as (a & b & ->).
        by exists (d :: a), b.
      * split; [done|]. intros (a & b & H). destruct a as [|x a]; simplify_eq/=.
        -- rewrite H, starts_with_app in E. done.
        -- apply IH. by exists a, b.
Qed.

(** ** Splitting at a separator

    [split_on c s] is the list of the pieces of [s] between the occurrences of
    [c]: what the index loops [for (i = 0; i <= s.size(); ++i)] of the sources
    cut out one after the other. *)
Fixpoint split_on (c : ascii) (s : str) : list str :=
  match s with
  | [] => [[]]
  | d :: s' =>
      if char_is c d then [] :: split_on c s'
      else match split_on c s' with
           | [] => [[d]]
           | w :: ws => (d :: w) :: ws
           end
  end.

(** Pieces put back together with the separator between them. *)
Fixpoint join_with (c : ascii) (ws : list str) : str :=
  match ws with
  | [] => []
  | [w] => w
  | w :: ws => w ++ c :: join_with c ws
  end.

Lemma join_with_cons2 c w w' ws :
  join_with c (w :: w' :: ws) = w ++ c :: join_with c (w' :: ws).
Proof. done. Qed.

Lemma split_on_ne c s : split_on c s <> [].
Proof. destruct s as [|d s]; simpl; [done|]. destruct (char_is c d), (split_on c s); done. Qed.

Lemma join_split c s : join_with c (split_on c s) = s.
Proof.
  induction s as [|d s IH]; [done|]. simpl.
  pose proof (split_on_ne c s) as Hne.
  destruct (char_is c d) eqn:E.
  - apply char_is_true in E as ->. destruct (split_on c s) as [|w ws]; [done|].
    rewrite join_with_cons2, IH. done.
  - destruct (split_on c s) as [|w [|w' ws]]; [done|..].
    + simpl in *. by rewrite IH.
    + rewrite join_with_cons2 in *. by rewrite <- app_comm_cons, IH.
Qed.

Lemma split_on_free c s : Forall (free_of c) (split_on c s).
Proof.
  unfold free_of. induction s as [|d s IH]; simpl; [apply Forall_singleton; set_solver|].
  destruct (char_is c d) eqn:E; [apply Forall_cons; split; [set_solver|done]|].
  apply bool_decide_eq_false in E.
  destruct (split_on c s) as [|w ws]; [apply Forall_singleton; set_solver|].
  rewrite Forall_cons in *. set_solver.
Qed.

Lemma split_on_app c a b :
  free_of c a -> split_on c (a ++ c :: b) = a :: split_on c b.
Proof.
  unfold free_of. induction a as [|d a IH]; intros Ha; simpl.
  - unfold char_is. by rewrite bool_decide_true.
  - rewrite IH by set_solver.
    destruct (char_is c d) eqn:E; [|done]. apply char_is_true in E. set_solver.
Qed.

Lemma split_on_free_id c a : free_of c a -> split_on c a = [a].
Proof.
  unfold free_of. induction a as [|d a IH]; intros Ha; simpl; [done|].
  rewrite IH by set_solver.
  destruct (char_is c d) eqn:E; [|done]. apply char_is_true in E. set_solver.
Qed.

(** Splitting a join of separator-free pieces gives the pieces back. *)
Lemma split_join c ws :
  ws <> [] -> Forall (free_of c) ws -> split_on c (join_with c ws) = ws.
Proof.
  intros Hne H. induction H as [|w ws Hw H IH]; [done|].
  destruct ws as [|w' ws]; [by apply split_on_free_id|].
  rewrite join_with_cons2, split_on_app by done. by rewrite IH.
Qed.

(** ** Words: [while (stream >> token)] *)

Fixpoint words_from (w : str) (s : str) : list str :=
  match s with
  | [] => if bool_decide (w = []) then [] else [rev w]
  | c :: s => if isspace c then (if bool_decide (w = []) then [] else [rev w]) ++ words_from [] s else words_from (c :: w) s
  end.
Definition words (s : str) : list str := words_from [] s.

(** ** [std::to_string] on integers *)

Definition to_string_nat (n : nat) : str := lit (pretty (N.of_nat n)).
Definition to_string_Z (z : Z) : str := lit (pretty z).

Lemma lit_inj s t : lit s = lit t -> s = t.
Proof.
  intros H. rewrite <- (string_of_list_ascii_of_string s).
  rewrite <- (string_of_list_ascii_of_string t). unfold lit in H. by rewrite H.
Qed.

Lemma lit_app s t : lit (s +:+ t) = lit s ++ lit t.
Proof. unfold lit. induction s as [|c s IH]; simpl; [done|]. by rewrite IH. Qed.

Lemma to_string_nat_inj n m : to_string_nat n = to_string_nat m -> n = m.
Proof. intros H%lit_inj%(inj pretty). lia. Qed.

Lemma pretty_N_char_digit x : (x < 10)%N -> isdigit (pretty_N_char x) = true.
Proof.
  intros H. assert (x = 0 \/ x = 1 \/ x = 2 \/ x = 3 \/ x = 4 \/ x = 5 \/ x = 6
    \/ x = 7 \/ x = 8 \/ x = 9)%N as Hx by lia.
  by repeat (destruct Hx as [->|Hx]; [done|]); subst.
Qed.

Lemma pretty_N_go_digits x s :
  Forall (fun c => isdigit c = true) (lit s) ->
  Forall (fun c => isdigit c = true) (lit (pretty_N_go x s)).
Proof.
  revert s. induction (N.lt_wf_0 x) as [x _ IH]; intros s Hs.
  destruct (decide (x = 0)%N) as [->|Hx]; [by rewrite pretty_N_go_0|].
  rewrite pretty_N_go_step by lia. apply IH; [apply N.div_lt; lia|].
  constructor; [|done]. apply pretty_N_char_digit. apply N.mod_lt. lia.
Qed.

Lemma to_string_nat_digits n :
  Forall (fun c => isdigit c = true) (to_string_nat n).
Proof.
  unfold to_string_nat, pretty, pretty_N. case_decide; [repeat constructor|].
  apply pretty_N_go_digits. constructor.
Qed.

Lemma to_string_nat_free c n : isdigit c = false -> free_of c (to_string_nat n).
Proof.
  intros Hc Hin. pose proof (to_string_nat_digits n) as Hd.
  rewrite Forall_forall in Hd. rewrite (Hd c Hin) in Hc. done.
Qed.

(** ** Byte order of strings: [operator<] of [std::string] *)

Fixpoint str_ltb (a b : str) : bool :=
  match a, b with
  | [], _ :: _ => true
  | c :: a, d :: b =>
      if (code c <? code d)%Z then true
      else if (code d <? code c)%Z then false else str_ltb a b
  | _, [] => false
  end.

Lemma str_ltb_irrefl a : str_ltb a a = false.
Proof. induction a as [|c a IH]; simpl; [done|]. by rewrite Z.ltb_irrefl. Qed.

Lemma str_ltb_trans a b c : str_ltb a b = true -> str_ltb b c = true -> str_ltb a c = true.
Proof.
  revert b c. induction a as [|x a IH]; intros [|y b] [|z c]; simpl; try done.
  intros H1 H2. case_ifs; bool_to_prop; try lia; try done. eauto.
Qed.

Lemma str_ltb_total a b : str_ltb a b = false -> str_ltb b a = false -> a = b.
Proof.
  revert b. induction a as [|x a IH]; intros [|y b]; simpl; try done.
  intros H1 H2. case_ifs; bool_to_prop; try done.
  f_equal; [|by apply IH]. apply code_inj. lia.
Qed.

Lemma str_ltb_asym a b : str_ltb a b = true -> str_ltb b a = false.
Proof.
  intros H. destruct (str_ltb b a) eqn:E; [|done].
  rewrite <- (str_ltb_irrefl a). symmetry. by eapply str_ltb_trans.
Qed.

(** The order of [std::map] keys and of sorted text. *)
Definition str_le (a b : str) : Prop := str_ltb b a = false.
#[export] Instance str_le_dec a b : Decision (str_le a b).
Proof. unfold str_le. apply _. Defined.

#[export] Instance str_le_total : Total str_le.
Proof. intros a b. unfold str_le. destruct (str_ltb b a) eqn:E; [|by left]. right. by apply str_ltb_asym. Qed.
#[export] Instance str_le_antisymm : AntiSymm (=) str_le.
Proof. intros a b Hab Hba. by apply str_ltb_total. Qed.
#[export] Instance str_le_trans : Transitive str_le.
Proof.
  intros a b c Hab Hbc. unfold str_le in *. destruct (str_ltb c a) eqn:E; [|done]. exfalso.
  destruct (str_ltb a b) eqn:Eab.
  - by rewrite (str_ltb_trans c a b) in Hbc.
  - apply str_ltb_total in Eab as ->; [|done]. by rewrite E in Hbc.
Qed.

(** Iterating over a [std::map], or over the members of a JSON object, goes
    through the keys in their order. *)
Definition key_order {A} (a b : str * A) : Prop := str_le a.1 b.1.
#[export] Instance key_order_dec {A} (a b : str * A) : Decision (key_order a b).
Proof. unfold key_order. apply _. Defined.
Definition sorted_items {A} (m : gmap str A) : list (str * A) := merge_sort key_order (map_to_list m).

Lemma sorted_items_perm {A} (m : gmap str A) : sorted_items m ≡ₚ map_to_list m.
Proof. apply merge_sort_Permutation. Qed.

Lemma elem_of_sorted_items {A} (m : gmap str A) k a : (k, a) ∈ sorted_items m <-> m !! k = Some a.
Proof. rewrite sorted_items_perm. apply elem_of_map_to_list. Qed.

Lemma sorted_keys {A} (m : gmap str A) k : k ∈ (sorted_items m).*1 <-> is_Some (m !! k).
Proof.
  rewrite list_elem_of_fmap. split.
  - intros ([k' v] & -> & Hin%elem_of_sorted_items). by exists v.
  - intros [v Hv]. exists (k, v). split; [done|]. by apply elem_of_sorted_items.
Qed.

#[export] Hint Resolve code_range str_ltb_trans to_string_nat_free : euxis.
