(* ===== verification/Lines.v ===== *)
(** * Reading text line by line

    What the lock-file and corpus parsers share: [std::getline] over a string
    stream, the local [trim] helpers (the same body in [cargo_lock.cpp],
    [go_sum.cpp] and [guard.cpp]) and the comma loop of single-line arrays. *)

From Stdlib Require Import ZArith Ascii String Lia.
From stdpp Require Import base list strings.
From S2P Require Import Prelude CxxString.

Definition eol : ascii := "010"%char.
Definition quote : ascii := "034"%char.

(** The pieces before each separator, and what follows the last one unless it
    is empty. *)
Definition fields (c : ascii) (s : str) : list str :=
  let ws := split_on c s in
  if bool_decide (last ws = Some []) then removelast ws else ws.

(** [while (std::getline(stream, line))] *)
Definition getlines (s : str) : list str := fields eol s.

Definition front_blank (c : ascii) : bool := char_is " " c || char_is "009" c.
Definition back_blank (c : ascii) : bool := front_blank c || char_is "013" c || char_is "010" c.

Fixpoint skip (p : ascii -> bool) (s : str) : str :=
  match s with c :: t => if p c then skip p t else s | [] => [] end.

Definition trim (s : str) : str := rev (skip back_blank (rev (skip front_blank s))).

(** The white space of JSON: blank, tab, carriage return and newline. *)
Definition trim_ws (c : ascii) : bool :=
  char_is " " c || char_is "009" c || char_is "013" c || char_is "010" c.

(** [s.back()], of a string that is not empty. *)
Definition back_is (c : ascii) (s : str) : bool := bool_decide (last s = Some c).
Definition front_is (c : ascii) (s : str) : bool := bool_decide (head s = Some c).

(** ** Lemmas *)

Lemma split_on_render c ls :
  Forall (free_of c) ls -> split_on c (flat_map (fun l => l ++ [c]) ls) = ls ++ [[]].
Proof.
  induction 1 as [|l ls Hl H IH]; simpl; [done|].
  rewrite <-app_assoc. simpl. by rewrite (split_on_app c l), IH.
Qed.

(** Reading back lines that were written one by one. *)
Lemma fields_render c ls :
  Forall (free_of c) ls -> fields c (flat_map (fun l => l ++ [c]) ls) = ls.
Proof.
  intros H. unfold fields. rewrite split_on_render by done.
  rewrite last_snoc, bool_decide_true by done. by rewrite removelast_last.
Qed.

(** The lines of a file that are not empty; [None] is a file that does not exist. *)
Definition text_lines (file : option str) : list str :=
  match file with None => [] | Some text => List.filter (fun l => negb (bool_decide (l = []))) (getlines text) end.

Lemma text_lines_render file ls : Forall (fun l => l <> [] /\ free_of eol l) ls ->
  default [] file = flat_map (fun l => l ++ [eol]) ls -> text_lines file = ls.
Proof.
  intros Hok Hd. destruct file as [text|]; unfold default, id in Hd; cbn [from_option] in Hd; cbn [text_lines].
  - rewrite Hd. unfold getlines. rewrite fields_render by (eapply Forall_impl; [exact Hok|naive_solver]).
    clear -Hok. induction Hok as [|l ls [Hne _] Hls IH]; [done|]. cbn [List.filter]. rewrite bool_decide_false by done.
    cbn [negb]. by rewrite IH.
  - destruct ls as [|l ls]; [done|]. cbn in Hd. symmetry in Hd. apply app_eq_nil in Hd as [Hd _].
    by apply app_eq_nil in Hd as [_ ?].
Qed.

Lemma fields_free c s : Forall (free_of c) (fields c s).
Proof.
  unfold fields. pose proof (split_on_free c s) as H. case_bool_decide as Hl; [|done].
  apply last_Some in Hl as [ws Hws]. rewrite Hws in *. rewrite removelast_last.
  by apply Forall_app in H as [H _].
Qed.

Lemma skip_stop p c s : p c = false -> skip p (c :: s) = c :: s.
Proof. intros H. simpl. by rewrite H. Qed.

Lemma skip_app_false p s t : (exists c, head s = Some c /\ p c = false) -> skip p (s ++ t) = s ++ t.
Proof. destruct s as [|c s]; intros (d & [= <-] & H). by apply skip_stop. Qed.

(** Text that neither starts nor ends with a blank is its own trimming. *)
Lemma trim_id c s d :
  front_blank c = false -> last (c :: s) = Some d -> back_blank d = false -> trim (c :: s) = c :: s.
Proof.
  intros Hc Hl Hd. unfold trim. rewrite skip_stop by done. apply last_Some in Hl as [l Hl].
  rewrite Hl, rev_app_distr. change (rev [d]) with [d]. cbn [app]. rewrite skip_stop by done.
  change (d :: rev l) with ([d] ++ rev l). by rewrite rev_app_distr, rev_involutive.
Qed.

Lemma trim_blank_front c s : front_blank c = true -> trim (c :: s) = trim s.
Proof. intros H. unfold trim. simpl. by rewrite H. Qed.

Lemma trim_blank_back c s : back_blank c = true -> skip front_blank s <> [] -> trim (s ++ [c]) = trim s.
Proof.
  intros Hc Hs. unfold trim.
  assert (skip front_blank (s ++ [c]) = skip front_blank s ++ [c]) as ->.
  { induction s as [|d s IH]; [done|]. simpl in *. destruct (front_blank d); auto. }
  rewrite rev_app_distr. simpl. by rewrite Hc.
Qed.

(** ** Reading a file in blocks *)

(** The reads of a file: full buffers, then what is left. *)
Fixpoint read_chunks (fuel buf_size : nat) (content : str) : list str :=
  match fuel with
  | O => []
  | S fuel =>
      if (length content <? buf_size)%nat then
        if bool_decide (content = []) then [] else [content]
      else take buf_size content :: read_chunks fuel buf_size (drop buf_size content)
  end.

Lemma read_chunks_join fuel n content : (0 < n)%nat -> (length content < fuel)%nat ->
  mjoin (read_chunks fuel n content) = content.
Proof.
  intros Hn. revert content. induction fuel as [|fuel IH]; intros content Hf; [lia|]. cbn [read_chunks].
  destruct (Nat.ltb_spec (length content) n) as [Hl|Hl].
  - case_bool_decide as E; [by rewrite E|]. cbn. apply app_nil_r.
  - cbn [mjoin list_join]. change (take n content ++ mjoin (read_chunks fuel n (drop n content)) = content).
    rewrite IH, take_drop; [done|]. rewrite length_drop. lia.
Qed.
