(* ===== verification/Purl.v ===== *)
(** * Package URLs: [libs/sbom/src/purl.cpp]

    The purl type table, percent encoding, [Purl::to_string], [Purl::build]
    and [parse_purl].  [to_string] walks an [std::unordered_map] of
    qualifiers, so it is modelled against an arbitrary iteration order of the
    map ([qs], a permutation of its bindings); the theorems hold for every
    such order.  The main results: percent decoding inverts percent encoding,
    the index loops over [/] compute the piecewise image of the string, the
    qualifiers come out sorted, and parsing a printed well-formed purl gives
    the purl back whatever the iteration order was. *)

From Stdlib Require Import ZArith Ascii String Lia.
From stdpp Require Import base list gmap strings sorting.
From S2P Require Import Prelude CxxString.

(** ** Data *)

Inductive PurlType : Type :=
| Npm | Pypi | Cargo | Golang | Maven | Gem | Nuget | Composer | Hex
| Conan | Conda | Github | Generic.

#[export] Instance PurlType_eq_dec : EqDecision PurlType.
Proof. solve_decision. Defined.

Record Purl : Type := mkPurl {
  p_type : str;
  p_ns : str;
  p_name : str;
  p_version : str;
  p_qualifiers : gmap str str;
  p_subpath : str;
}.

Record PurlError : Type := mkPurlError { e_message : str; e_position : nat }.

Definition kScheme : str := lit "pkg:".

(** ** Character classes and helpers *)

Definition is_unreserved (c : ascii) : bool :=
  isalnum c || bool_decide (c = "-"%char) || bool_decide (c = "."%char)
  || bool_decide (c = "_"%char) || bool_decide (c = "~"%char).

Definition hex_char (v : Z) : ascii :=
  if (v <? 10)%Z then chr (code "0" + v) else chr (code "A" + (v - 10)).

Definition from_hex (c : ascii) : Z :=
  if between "0" c "9" then (code c - code "0")%Z
  else if between "a" c "f" then (10 + (code c - code "a"))%Z
  else if between "A" c "F" then (10 + (code c - code "A"))%Z
  else (-1)%Z.

Definition ascii_lower (s : str) : str := lower s.

Definition purl_type_str (t : PurlType) : str :=
  match t with
  | Npm => lit "npm"
  | Pypi => lit "pypi"
  | Cargo => lit "cargo"
  | Golang => lit "golang"
  | Maven => lit "maven"
  | Gem => lit "gem"
  | Nuget => lit "nuget"
  | Composer => lit "composer"
  | Hex => lit "hex"
  | Conan => lit "conan"
  | Conda => lit "conda"
  | Github => lit "github"
  | Generic => lit "generic"
  end.

(** ** Percent encoding *)

Fixpoint percent_encode_segment (s : str) : str :=
  match s with
  | [] => []
  | c :: s =>
      if is_unreserved c then c :: percent_encode_segment s
      else "%"%char :: hex_char (Z.land (Z.shiftr (code c) 4) 15)
             :: hex_char (Z.land (code c) 15) :: percent_encode_segment s
  end.

(** The loop reads [s[i]], [s[i+1]], [s[i+2]] and advances by one or three. *)
Fixpoint percent_decode_segment (s : str) : str :=
  match s with
  | [] => []
  | c :: s' =>
      match s' with
      | h :: l :: s'' =>
          if bool_decide (c = "%"%char)
             && ((0 <=? from_hex h) && (0 <=? from_hex l))%Z
          then chr (Z.lor (Z.shiftl (from_hex h) 4) (from_hex l))
                 :: percent_decode_segment s''
          else c :: percent_decode_segment s'
      | _ => c :: percent_decode_segment s'
      end
  end.

(** ** [Purl::to_string] *)

(** [for (i = 0; i <= s.size(); ++i)] with the segment start [start]: each
    piece between slashes goes through [f]; with [guard], only when it is not
    empty ([if (i > start)]).  [n] counts the iterations left. *)
Fixpoint path_loop (f : str -> str) (guard : bool) (s : str)
    (n i start : nat) (out : str) : str :=
  match n with
  | 0 => out
  | S n =>
      if (i =? length s) || bool_decide (s !! i = Some "/"%char) then
        let out := if negb guard || (start <? i)
                   then out ++ f (substr s start (i - start)) else out in
        let out := if i <? length s then out ++ ["/"%char] else out in
        path_loop f guard s n (S i) (S i) out
      else path_loop f guard s n (S i) start out
  end.

Definition path_map (f : str -> str) (guard : bool) (s : str) (out : str) : str :=
  path_loop f guard s (S (length s)) 0 0 out.

(** [std::map::emplace] on a map kept as its sorted list of bindings: inserts
    unless the key is present. *)
Fixpoint emplace (k v : str) (m : list (str * str)) : list (str * str) :=
  match m with
  | [] => [(k, v)]
  | (k', v') :: m' =>
      if str_ltb k k' then (k, v) :: m
      else if str_ltb k' k then (k', v') :: emplace k v m'
      else m
  end.

(** The qualifiers sorted by lower-cased key, empty keys and values dropped. *)
Fixpoint sorted_qualifiers (qs : list (str * str)) (acc : list (str * str)) :
    list (str * str) :=
  match qs with
  | [] => acc
  | (k, v) :: qs =>
      if bool_decide (k = []) || bool_decide (v = []) then sorted_qualifiers qs acc
      else sorted_qualifiers qs (emplace (ascii_lower k) v acc)
  end.

Fixpoint append_qualifiers (m : list (str * str)) (first : bool) (out : str) : str :=
  match m with
  | [] => out
  | (k, v) :: m =>
      let out := if negb first then out ++ ["&"%char] else out in
      append_qualifiers m false (out ++ k ++ ["="%char] ++ percent_encode_segment v)
  end.

(** [to_string] with the qualifiers visited in the order [qs]. *)
Definition to_string_ord (qs : list (str * str)) (p : Purl) : str :=
  let out := kScheme ++ ascii_lower (p_type p) ++ ["/"%char] in
  let out :=
    if bool_decide (p_ns p = []) then out
    else path_map percent_encode_segment true (p_ns p) out ++ ["/"%char] in
  let out := out ++ percent_encode_segment (p_name p) in
  let out :=
    if bool_decide (p_version p = []) then out
    else out ++ ["@"%char] ++ percent_encode_segment (p_version p) in
  let out :=
    match qs with
    | [] => out
    | _ =>
        match sorted_qualifiers qs [] with
        | [] => out
        | m => append_qualifiers m true (out ++ ["?"%char])
        end
    end in
  if bool_decide (p_subpath p = []) then out
  else path_map percent_encode_segment true (p_subpath p) (out ++ ["#"%char]).

Definition to_string (p : Purl) : str := to_string_ord (map_to_list (p_qualifiers p)) p.

Definition build (t : PurlType) (name version ns : str) : Purl :=
  mkPurl (purl_type_str t) ns name version ∅ [].

(** ** [parse_purl] *)

(** [while (!rest.empty() && rest.front() == '/') rest.erase(0, 1)] *)
Fixpoint strip_slashes (s : str) : str :=
  match s with
  | c :: s' => if bool_decide (c = "/"%char) then strip_slashes s' else s
  | [] => []
  end.

Definition store_qualifier (kv : str) (m : gmap str str) : gmap str str :=
  match find_char "=" kv with
  | Some eq => <[ascii_lower (take eq kv) := percent_decode_segment (drop (S eq) kv)]> m
  | None => m
  end.

(** The [while (start < size)] loop over the [&]-separated pairs; [rest] is
    the string from [start] on. Every iteration consumes at least one byte, so
    the length of the string bounds their number. *)
Fixpoint parse_qualifiers (fuel : nat) (rest : str) (m : gmap str str) : gmap str str :=
  match fuel, rest with
  | _, [] => m
  | 0, _ => m
  | S fuel, _ =>
      match find_char "&" rest with
      | None => store_qualifier rest m
      | Some amp => parse_qualifiers fuel (drop (S amp) rest) (store_qualifier (take amp rest) m)
      end
  end.

Definition parse_purl (s : str) : expected Purl PurlError :=
  if negb (starts_with kScheme s) then
    Unexpected (mkPurlError (lit "Missing 'pkg:' scheme") 0)
  else
  let rest := strip_slashes (drop (length kScheme) s) in
  match find_char "/" rest with
  | None => Unexpected (mkPurlError (lit "purl missing type/name separator") (length kScheme))
  | Some slash =>
    let type := ascii_lower (take slash rest) in
    let rest := drop (S slash) rest in
    let '(subpath, rest) :=
      match find_char "#" rest with
      | Some hash => (drop (S hash) rest, take hash rest)
      | None => ([], rest)
      end in
    let '(qualifiers_str, rest) :=
      match find_char "?" rest with
      | Some q => (drop (S q) rest, take q rest)
      | None => ([], rest)
      end in
    let '(version, rest) :=
      match rfind_char "@" rest with
      | Some at_ => (percent_decode_segment (drop (S at_) rest), take at_ rest)
      | None => ([], rest)
      end in
    let '(ns, name) :=
      match rfind_char "/" rest with
      | None => ([], percent_decode_segment rest)
      | Some last_slash =>
          (path_map percent_decode_segment false (take last_slash rest) [],
           percent_decode_segment (drop (S last_slash) rest))
      end in
    let qualifiers := parse_qualifiers (length qualifiers_str) qualifiers_str ∅ in
    let subpath := if bool_decide (subpath = []) then [] else percent_decode_segment subpath in
    if bool_decide (type = []) || bool_decide (name = []) then
      Unexpected (mkPurlError (lit "purl type and name must be non-empty") 0)
    else Ok (mkPurl type ns name version qualifiers subpath)
  end.

(** ** Printable purls: the values [to_string] can carry *)

Definition wf_key (k : str) : Prop :=
  ascii_lower k = k /\ free_of "&" k /\ free_of "=" k /\ free_of "#" k.

Record printable (p : Purl) : Prop := {
  pr_type_ne : p_type p <> [];
  pr_type_lower : ascii_lower (p_type p) = p_type p;
  pr_type_slash : free_of "/" (p_type p);
  pr_name : p_name p <> [];
  pr_quals : forall k v, p_qualifiers p !! k = Some v -> wf_key k;
}.

(** A qualifier [to_string] keeps: neither key nor value is empty. *)
Definition keep (kv : str * str) : Prop := kv.1 <> [] /\ kv.2 <> [].

#[export] Instance keep_dec kv : Decision (keep kv).
Proof. unfold keep. apply _. Defined.

Definition norm_qual (kv : str * str) : str * str := (ascii_lower kv.1, kv.2).

(** The purl a printed purl stands for: blank qualifiers are dropped. *)
Definition canon (p : Purl) : Purl :=
  mkPurl (p_type p) (p_ns p) (p_name p) (p_version p)
         (filter keep (p_qualifiers p)) (p_subpath p).

(** ** Percent encoding: lemmas *)

Definition enc_char (c : ascii) : bool := is_unreserved c || bool_decide (c = "%"%char).

Lemma hex_pair_range c :
  (0 <=? from_hex (hex_char (Z.land (Z.shiftr (code c) 4) 15)))%Z
  && (0 <=? from_hex (hex_char (Z.land (code c) 15)))%Z = true.
Proof. revert c. apply byte_case. by vm_compute. Qed.

Lemma hex_pair_value c :
  chr (Z.lor (Z.shiftl (from_hex (hex_char (Z.land (Z.shiftr (code c) 4) 15))) 4)
             (from_hex (hex_char (Z.land (code c) 15)))) = c.
Proof. apply (bool_decide_eq_true_1 _). revert c. apply byte_case. by vm_compute. Qed.

Lemma hex_pair_enc c :
  enc_char (hex_char (Z.land (Z.shiftr (code c) 4) 15))
  && enc_char (hex_char (Z.land (code c) 15)) = true.
Proof. revert c. apply byte_case. by vm_compute. Qed.

Lemma unreserved_not_percent c : is_unreserved c = true -> c <> "%"%char.
Proof. by intros H ->. Qed.

Lemma decode_plain c s :
  c <> "%"%char -> percent_decode_segment (c :: s) = c :: percent_decode_segment s.
Proof. intros H. destruct s as [|h [|l s]]; simpl; [done..|]. by rewrite bool_decide_false. Qed.

Lemma encode_cons_free c s :
  percent_decode_segment (percent_encode_segment [c] ++ s) = c :: percent_decode_segment s.
Proof.
  cbn [percent_encode_segment]. destruct (is_unreserved c) eqn:E.
  - apply decode_plain, unreserved_not_percent, E.
  - cbn [app percent_decode_segment]. rewrite bool_decide_true by done.
    rewrite andb_true_l, hex_pair_range. by rewrite hex_pair_value.
Qed.

Lemma encode_app a b :
  percent_encode_segment (a ++ b) = percent_encode_segment a ++ percent_encode_segment b.
Proof. induction a as [|c a IH]; simpl; [done|]. by destruct (is_unreserved c); simpl; rewrite IH. Qed.

(** Decoding an encoded prefix gives the prefix and goes on with the rest. *)
Lemma decode_encode_app a s :
  percent_decode_segment (percent_encode_segment a ++ s) = a ++ percent_decode_segment s.
Proof.
  induction a as [|c a IH]; [done|].
  change (c :: a) with ([c] ++ a). rewrite encode_app, <- app_assoc, encode_cons_free, IH. done.
Qed.

Lemma decode_encode a : percent_decode_segment (percent_encode_segment a) = a.
Proof.
  rewrite <- (app_nil_r (percent_encode_segment a)), decode_encode_app. simpl. apply app_nil_r.
Qed.

Lemma encode_chars a : Forall (fun c => enc_char c = true) (percent_encode_segment a).
Proof.
  induction a as [|c a IH]; simpl; [constructor|].
  destruct (is_unreserved c) eqn:E.
  - constructor; [|done]. unfold enc_char. by rewrite E.
  - pose proof (hex_pair_enc c) as H. apply andb_true_iff in H as [? ?].
    by repeat constructor.
Qed.

Lemma encode_free c a : enc_char c = false -> free_of c (percent_encode_segment a).
Proof.
  intros Hc Hin. pose proof (encode_chars a) as H. rewrite Forall_forall in H.
  rewrite (H c Hin) in Hc. done.
Qed.

Lemma encode_nil_inv a : percent_encode_segment a = [] -> a = [].
Proof. intros H. by rewrite <- (decode_encode a), H. Qed.

(** ** The slash loops *)

Definition path_spec (f : str -> str) (s : str) : str :=
  join_with "/" (f <$> split_on "/" s).

Lemma substr_middle (a w b : str) : substr (a ++ w ++ b) (length a) (length w) = w.
Proof. unfold substr. by rewrite drop_app_length, take_app_length. Qed.

Lemma join_with_fmap_cons (f : str -> str) (w : str) (ws : list str) :
  ws <> [] -> join_with "/" (f <$> (w :: ws)) = f w ++ "/"%char :: join_with "/" (f <$> ws).
Proof. destruct ws; [done|]. intros _. apply join_with_cons2. Qed.

Lemma path_loop_spec f guard pre w rest out :
  f [] = [] -> free_of "/" w ->
  path_loop f guard (pre ++ w ++ rest) (S (length rest)) (length (pre ++ w)) (length pre) out
  = out ++ path_spec f (w ++ rest).
Proof.
  intros Hf. revert pre w out. induction rest as [|c rest IH]; intros pre w out Hw;
    remember (pre ++ w ++ _) as s eqn:Hs; cbn [path_loop].
  - assert (length (pre ++ w) = length s) as Hlen by (subst s; by rewrite app_nil_r).
    rewrite Hlen, Nat.eqb_refl, Nat.ltb_irrefl. cbn [orb].
    replace (length s - length pre) with (length w)
      by (subst s; rewrite !length_app; simpl; lia).
    assert (substr s (length pre) (length w) = w) as -> by (subst s; apply substr_middle).
    unfold path_spec. rewrite app_nil_r, split_on_free_id by done. simpl.
    destruct (negb guard || (length pre <? length s)) eqn:E; [done|].
    apply orb_false_iff in E as [_ E%Nat.ltb_ge].
    assert (length w = 0) as ->%length_zero_iff_nil
      by (subst s; rewrite !length_app in *; simpl in *; lia).
    by rewrite Hf, app_nil_r.
  - assert (s !! length (pre ++ w) = Some c) as Hc
      by (subst s; rewrite app_assoc; apply list_lookup_middle; done).
    assert (length (pre ++ w) < length s) as Hlt by (by apply lookup_lt_Some in Hc).
    rewrite (proj2 (Nat.eqb_neq _ _)) by lia. rewrite Hc. cbn [orb].
    case_bool_decide as Hcs.
    + injection Hcs as ->.
      rewrite (proj2 (Nat.ltb_lt _ _) Hlt).
      replace (length (pre ++ w) - length pre) with (length w)
        by (rewrite !length_app; simpl; lia).
      assert (substr s (length pre) (length w) = w) as -> by (subst s; apply substr_middle).
      assert (s = (pre ++ w ++ ["/"%char]) ++ [] ++ rest) as Hs'
        by (subst s; simpl; by rewrite <- !app_assoc).
      assert (S (length (pre ++ w)) = length (pre ++ w ++ ["/"%char])) as ->
        by (rewrite !length_app; simpl; lia).
      rewrite Hs'. rewrite <- (app_nil_r (pre ++ w ++ ["/"%char])) at 2.
      rewrite IH by (unfold free_of; set_solver).
      unfold path_spec. rewrite (split_on_app _ w rest) by done.
      rewrite join_with_fmap_cons by apply split_on_ne. simpl.
      destruct (negb guard || _) eqn:E.
      * by rewrite <- !app_assoc.
      * apply orb_false_iff in E as [_ E%Nat.ltb_ge].
        assert (length w = 0) as ->%length_zero_iff_nil by (rewrite !length_app in *; lia).
        by rewrite Hf, <- !app_assoc.
    + assert (s = pre ++ (w ++ [c]) ++ rest) as Hs' by (subst s; by rewrite <- !app_assoc).
      assert (S (length (pre ++ w)) = length (pre ++ w ++ [c])) as ->
        by (rewrite !length_app; simpl; lia).
      rewrite Hs', IH; [by rewrite <- app_assoc|].
      unfold free_of in *. rewrite not_elem_of_app, list_elem_of_singleton. naive_solver.
Qed.

(** The index loop over the slashes is the piecewise image of the string. *)
Lemma path_map_spec f guard s out :
  f [] = [] -> path_map f guard s out = out ++ path_spec f s.
Proof.
  intros Hf. unfold path_map.
  apply (path_loop_spec f guard [] [] s out Hf). unfold free_of. set_solver.
Qed.

Lemma path_spec_pieces s :
  split_on "/" (path_spec percent_encode_segment s) = percent_encode_segment <$> split_on "/" s.
Proof.
  apply split_join.
  - pose proof (split_on_ne "/" s). by destruct (split_on "/" s).
  - apply Forall_fmap, Forall_true. intros w. by apply encode_free.
Qed.

(** Decoding segment by segment undoes encoding segment by segment. *)
Lemma path_spec_decode_encode s :
  path_spec percent_decode_segment (path_spec percent_encode_segment s) = s.
Proof.
  unfold path_spec at 1. rewrite path_spec_pieces, <- list_fmap_compose.
  rewrite <- (join_split "/" s) at 2. f_equal.
  rewrite <- (list_fmap_id (split_on "/" s)) at 2.
  apply list_fmap_ext. intros i w _. apply decode_encode.
Qed.

(** Decoding the whole string at once does too: the separators are not [%]. *)
Lemma decode_path_spec s : percent_decode_segment (path_spec percent_encode_segment s) = s.
Proof.
  unfold path_spec. rewrite <- (join_split "/" s) at 2.
  induction (split_on "/" s) as [|w ws IH]; [done|].
  destruct ws as [|w' ws]; [apply decode_encode|].
  rewrite join_with_fmap_cons by done.
  rewrite decode_encode_app, decode_plain by done. by rewrite IH.
Qed.

Lemma path_spec_free c s :
  enc_char c = false -> c <> "/"%char -> free_of c (path_spec percent_encode_segment s).
Proof.
  intros Hc Hs. unfold path_spec, free_of.
  induction (split_on "/" s) as [|w ws IH]; [set_solver|].
  pose proof (encode_free c w Hc) as Hw. unfold free_of in Hw.
  destruct ws as [|w' ws]; [done|].
  rewrite join_with_fmap_cons by done. set_solver.
Qed.

(** ** Qualifiers: lemmas *)

Definition key_lt (a b : str * str) : Prop := str_ltb a.1 b.1 = true.

Lemma emplace_Forall (P : str * str -> Prop) k v m :
  P (k, v) -> Forall P m -> Forall P (emplace k v m).
Proof.
  intros Hkv. induction 1 as [|[k' v'] m Hh Ht IH]; simpl; [by repeat constructor|].
  case_ifs; by repeat constructor.
Qed.

Lemma emplace_sorted k v m :
  StronglySorted key_lt m -> StronglySorted key_lt (emplace k v m).
Proof.
  induction 1 as [|[k' v'] m Hs IH Hf]; simpl; [by repeat constructor|].
  destruct (str_ltb k k') eqn:E1; [|destruct (str_ltb k' k) eqn:E2].
  - constructor; [by constructor|]. constructor; [done|].
    eapply Forall_impl; [exact Hf|]. intros [k'' v''] H. by eapply str_ltb_trans.
  - constructor; [done|]. by apply emplace_Forall.
  - by constructor.
Qed.

Lemma emplace_fresh k v m : k ∉ m.*1 -> emplace k v m ≡ₚ (k, v) :: m.
Proof.
  induction m as [|[k' v'] m IH]; simpl; [done|]. intros Hk.
  destruct (str_ltb k k') eqn:E1; [done|]. destruct (str_ltb k' k) eqn:E2.
  - rewrite IH by set_solver. constructor.
  - assert (k = k') by by apply str_ltb_total. set_solver.
Qed.

(** The visiting order does not matter: the result is sorted by key. *)
Lemma sorted_qualifiers_sorted qs acc :
  StronglySorted key_lt acc -> StronglySorted key_lt (sorted_qualifiers qs acc).
Proof.
  revert acc. induction qs as [|[k v] qs IH]; intros acc H; simpl; [done|].
  case_ifs; apply IH; auto using emplace_sorted.
Qed.

Lemma sorted_qualifiers_perm qs acc :
  NoDup (((norm_qual <$> filter keep qs) ++ acc).*1) ->
  sorted_qualifiers qs acc ≡ₚ (norm_qual <$> filter keep qs) ++ acc.
Proof.
  revert acc. induction qs as [|[k v] qs IH]; intros acc Hnd; simpl; [done|].
  rewrite filter_cons in *. destruct (decide (keep (k, v))) as [[Hk Hv]|Hno]; simpl in *.
  - rewrite !bool_decide_false by done. simpl.
    apply NoDup_cons in Hnd as [Hfresh Hnd]. rewrite fmap_app in Hfresh.
    assert (emplace (ascii_lower k) v acc ≡ₚ (ascii_lower k, v) :: acc) as Hp
      by (apply emplace_fresh; set_solver).
    rewrite IH, Hp; [by rewrite Permutation_middle|].
    rewrite Hp, fmap_app, fmap_cons, <- Permutation_middle. simpl.
    constructor; [done|]. by rewrite <- fmap_app.
  - assert (bool_decide (k = []) || bool_decide (v = []) = true) as ->; [|by apply IH].
    unfold keep in Hno. simpl in Hno.
    destruct k; [done|]. destruct v; [done|]. by destruct Hno.
Qed.

Definition render_qualifier (kv : str * str) : str :=
  kv.1 ++ "="%char :: percent_encode_segment kv.2.

Lemma append_qualifiers_false m out :
  append_qualifiers m false out
  = out ++ concat ((fun kv => "&"%char :: render_qualifier kv) <$> m).
Proof.
  revert out. induction m as [|[k v] m IH]; intros out; simpl; [by rewrite app_nil_r|].
  rewrite IH. unfold render_qualifier at 2. simpl. by rewrite <- !app_assoc.
Qed.

Lemma join_with_concat c w ws : join_with c (w :: ws) = w ++ concat ((cons c) <$> ws).
Proof.
  revert w. induction ws as [|w' ws IH]; intros w; [by rewrite app_nil_r|].
  rewrite join_with_cons2, IH. done.
Qed.

Lemma append_qualifiers_join m out :
  append_qualifiers m true out = out ++ join_with "&" (render_qualifier <$> m).
Proof.
  destruct m as [|kv m]; [by rewrite app_nil_r|].
  rewrite fmap_cons, join_with_concat, <- list_fmap_compose.
  destruct kv as [k v]. cbn [append_qualifiers negb]. rewrite append_qualifiers_false.
  unfold render_qualifier at 2. cbn [fst snd]. by rewrite <- !app_assoc.
Qed.

Lemma parse_qualifiers_split fuel s m :
  length s <= fuel ->
  parse_qualifiers fuel s m = foldl (fun m kv => store_qualifier kv m) m (split_on "&" s).
Proof.
  revert s m. induction fuel as [|fuel IH]; intros s m Hlen.
  - destruct s; simpl in *; [done|lia].
  - destruct s as [|c s]; [done|]. cbn [parse_qualifiers]. remember (c :: s) as t eqn:Ht in *.
    destruct (find_char "&" t) as [i|] eqn:E.
    + apply find_char_Some in E as (a & b & Hab & <- & Ha).
      rewrite Hab, take_length_app, drop_S_length_app, split_on_app by done. simpl.
      apply IH. apply (f_equal length) in Hab. rewrite length_app in Hab.
      simpl in *. lia.
    + apply find_char_None in E. by rewrite split_on_free_id.
Qed.

Lemma store_rendered kv m :
  wf_key kv.1 -> store_qualifier (render_qualifier kv) m = <[kv.1 := kv.2]> m.
Proof.
  intros (Hl & _ & Heq & _). unfold store_qualifier, render_qualifier.
  rewrite find_char_hit, take_length_app, drop_S_length_app, decode_encode by done. by rewrite Hl.
Qed.

Lemma foldl_insert_map (l : list (str * str)) (m : gmap str str) :
  NoDup l.*1 -> foldl (fun m kv => <[kv.1 := kv.2]> m) m l = list_to_map l ∪ m.
Proof.
  revert m. induction l as [|[k v] l IH]; intros m Hnd; simpl; [by rewrite (left_id_L ∅ (∪))|].
  apply NoDup_cons in Hnd as [Hk Hnd]. rewrite IH by done. simpl.
  rewrite <- insert_union_l, insert_union_r; [done|].
  by apply not_elem_of_list_to_map.
Qed.

(** Parsing the rendered pairs of a permutation of a map gives the map. *)
Lemma parse_rendered (q : gmap str str) m :
  m <> [] -> m ≡ₚ map_to_list q -> Forall (fun kv => wf_key kv.1) m ->
  let s := join_with "&" (render_qualifier <$> m) in
  parse_qualifiers (length s) s ∅ = q.
Proof.
  intros Hne Hperm Hwf s. rewrite parse_qualifiers_split by done. subst s.
  rewrite split_join.
  2: { by destruct m. }
  2: { apply Forall_fmap. eapply Forall_impl; [exact Hwf|].
       intros [k v] (_ & Hamp & _). unfold render_qualifier, free_of in *. simpl in *.
       pose proof (encode_free "&" v eq_refl) as Hv. unfold free_of in Hv. set_solver. }
  transitivity (foldl (fun m kv => <[kv.1 := kv.2]> m) (∅ : gmap str str) m).
  { clear Hperm Hne. generalize (∅ : gmap str str). induction Hwf as [|kv m Hkv Hwf IH]; intros acc; [done|].
    simpl. by rewrite store_rendered, IH. }
  assert (NoDup m.*1) as Hnd by (rewrite Hperm; apply NoDup_fst_map_to_list).
  rewrite foldl_insert_map, (right_id_L ∅ (∪)) by done.
  rewrite (list_to_map_proper _ _ Hnd Hperm). apply list_to_map_to_list.
Qed.

(** ** The printed form and its parse *)

(** An optional trailing part introduced by the separator [c]. *)
Inductive opt_part (c : ascii) : str -> Prop :=
| opt_none : opt_part c []
| opt_some t : opt_part c (c :: t).

Lemma cut_first c a o :
  free_of c a -> opt_part c o ->
  match find_char c (a ++ o) with
  | Some h => (drop (S h) (a ++ o), take h (a ++ o))
  | None => ([], a ++ o)
  end = (tail o, a).
Proof.
  intros Ha [|t]; simpl.
  - rewrite app_nil_r. by rewrite (proj2 (find_char_None c a) Ha).
  - by rewrite find_char_hit, take_length_app, drop_S_length_app.
Qed.

Lemma cut_last (f : str -> str) c a o :
  free_of c a -> opt_part c o -> free_of c (tail o) -> f [] = [] ->
  match rfind_char c (a ++ o) with
  | Some h => (f (drop (S h) (a ++ o)), take h (a ++ o))
  | None => ([], a ++ o)
  end = (f (tail o), a).
Proof.
  intros Ha [|t] Ht Hf; simpl in *.
  - rewrite app_nil_r, Hf. by rewrite (proj2 (rfind_char_None c a) Ha).
  - by rewrite rfind_char_hit, take_length_app, drop_S_length_app.
Qed.

Definition ns_part (ns : str) : str :=
  if bool_decide (ns = []) then [] else path_spec percent_encode_segment ns ++ ["/"%char].
Definition version_part (v : str) : str :=
  if bool_decide (v = []) then [] else "@"%char :: percent_encode_segment v.
Definition qual_part (qs : list (str * str)) : str :=
  match sorted_qualifiers qs [] with
  | [] => []
  | m => "?"%char :: join_with "&" (render_qualifier <$> m)
  end.
Definition sub_part (s : str) : str :=
  if bool_decide (s = []) then [] else "#"%char :: path_spec percent_encode_segment s.

Lemma to_string_parts qs p :
  to_string_ord qs p =
  kScheme ++ ascii_lower (p_type p) ++ "/"%char ::
    (((ns_part (p_ns p) ++ percent_encode_segment (p_name p)) ++ version_part (p_version p))
      ++ qual_part qs) ++ sub_part (p_subpath p).
Proof.
  unfold to_string_ord, ns_part, version_part, sub_part.
  rewrite !path_map_spec by done.
  assert (forall out, match qs with
    | [] => out
    | _ => match sorted_qualifiers qs [] with
           | [] => out
           | m => append_qualifiers m true (out ++ ["?"%char]) end
    end = out ++ qual_part qs) as ->.
  { intros out. unfold qual_part. destruct qs as [|q qs]; [by rewrite app_nil_r|].
    destruct (sorted_qualifiers (q :: qs) []); [by rewrite app_nil_r|].
    rewrite append_qualifiers_join. by rewrite <- app_assoc. }
  repeat case_bool_decide; rewrite ?app_nil_r; simpl; rewrite <- ?app_assoc; simpl;
    rewrite <- ?app_assoc; done.
Qed.

(** Reading a namespace and a name back. *)
Lemma parse_ns_name ns name :
  match rfind_char "/" (ns_part ns ++ percent_encode_segment name) with
  | None => ([], percent_decode_segment (ns_part ns ++ percent_encode_segment name))
  | Some i =>
      (path_map percent_decode_segment false
         (take i (ns_part ns ++ percent_encode_segment name)) [],
       percent_decode_segment (drop (S i) (ns_part ns ++ percent_encode_segment name)))
  end = (ns, name).
Proof.
  pose proof (encode_free "/" name eq_refl) as Hn. unfold ns_part. case_bool_decide as E.
  - subst. simpl. rewrite (proj2 (rfind_char_None _ _) Hn). by rewrite decode_encode.
  - rewrite <- app_assoc. simpl.
    rewrite rfind_char_hit, take_length_app, drop_S_length_app, decode_encode by done.
    rewrite path_map_spec by done. simpl. by rewrite path_spec_decode_encode.
Qed.

Lemma ns_part_free c ns : enc_char c = false -> c <> "/"%char -> free_of c (ns_part ns).
Proof.
  intros Hc Hs. unfold ns_part. case_bool_decide; [unfold free_of; set_solver|].
  pose proof (path_spec_free c ns Hc Hs). unfold free_of in *. set_solver.
Qed.

Lemma version_part_free c v : enc_char c = false -> c <> "@"%char -> free_of c (version_part v).
Proof.
  intros Hc Hs. unfold version_part. pose proof (encode_free c v Hc).
  unfold free_of in *. case_bool_decide; set_solver.
Qed.

Lemma render_free_hash kv : wf_key kv.1 -> free_of "#" (render_qualifier kv).
Proof.
  intros (_ & _ & _ & Hh). unfold render_qualifier, free_of in *.
  pose proof (encode_free "#" kv.2 eq_refl) as Hv. unfold free_of in Hv. set_solver.
Qed.

Lemma join_with_free c d ws :
  c <> d -> Forall (free_of c) ws -> free_of c (join_with d ws).
Proof.
  intros Hcd H. unfold free_of in *. induction H as [|w ws Hw H IH]; [set_solver|].
  destruct ws; [done|]. rewrite join_with_cons2. set_solver.
Qed.

(** The sorted qualifiers of a printable purl are its non-blank bindings. *)
Lemma norm_printable qs p :
  printable p -> qs ≡ₚ map_to_list (p_qualifiers p) ->
  norm_qual <$> filter keep qs = filter keep qs.
Proof.
  intros Hpr Hperm. rewrite <- (list_fmap_id (filter keep qs)) at 2.
  apply list_fmap_ext. intros i [k v] Hin%list_elem_of_lookup_2.
  apply list_elem_of_filter in Hin as [_ Hin]. rewrite Hperm in Hin.
  apply elem_of_map_to_list in Hin. destruct (pr_quals p Hpr k v Hin) as [Hl _].
  unfold norm_qual. simpl. by rewrite Hl.
Qed.

Lemma sorted_printable qs p :
  printable p -> qs ≡ₚ map_to_list (p_qualifiers p) ->
  sorted_qualifiers qs [] ≡ₚ map_to_list (p_qualifiers (canon p))
  /\ Forall (fun kv => wf_key kv.1) (sorted_qualifiers qs []).
Proof.
  intros Hpr Hperm.
  assert (NoDup ((filter keep (map_to_list (p_qualifiers p))).*1)) as Hnd.
  { eapply sublist_NoDup; [exact (NoDup_fst_map_to_list (p_qualifiers p))|].
    apply fmap_sublist, sublist_filter. }
  assert (sorted_qualifiers qs [] ≡ₚ map_to_list (p_qualifiers (canon p))) as Hs.
  { rewrite sorted_qualifiers_perm; rewrite app_nil_r, (norm_printable qs p) by done.
    - simpl. rewrite map_filter_alt, map_to_list_to_map by done. by rewrite Hperm.
    - by rewrite Hperm. }
  split; [done|]. rewrite Hs. apply Forall_forall. intros [k v] Hin%elem_of_map_to_list.
  simpl in Hin. apply map_lookup_filter_Some in Hin as [Hin _].
  by apply (pr_quals p Hpr k v).
Qed.

Lemma qual_part_free qs p :
  printable p -> qs ≡ₚ map_to_list (p_qualifiers p) -> free_of "#" (qual_part qs).
Proof.
  intros Hwf Hperm. destruct (sorted_printable qs p Hwf Hperm) as [_ Hf]. unfold qual_part.
  destruct (sorted_qualifiers qs []) as [|kv m] eqn:E; [unfold free_of; set_solver|].
  assert (free_of "#" (join_with "&" (render_qualifier <$> (kv :: m)))) as H.
  { apply join_with_free; [done|]. apply Forall_fmap.
    eapply Forall_impl; [exact Hf|]. intros. by apply render_free_hash. }
  unfold free_of in *. set_solver.
Qed.

Lemma qual_part_parse qs p :
  printable p -> qs ≡ₚ map_to_list (p_qualifiers p) ->
  parse_qualifiers (length (tail (qual_part qs))) (tail (qual_part qs)) ∅ = p_qualifiers (canon p).
Proof.
  intros Hwf Hperm. destruct (sorted_printable qs p Hwf Hperm) as [Hs Hf]. unfold qual_part.
  destruct (sorted_qualifiers qs []) as [|kv m] eqn:E.
  - simpl. symmetry. apply map_to_list_empty_iff. by apply Permutation_nil.
  - by apply parse_rendered.
Qed.

Lemma sub_part_parse s :
  (if bool_decide (tail (sub_part s) = []) then [] else percent_decode_segment (tail (sub_part s)))
  = s.
Proof.
  destruct (decide (s = [])) as [->|E]; [done|].
  unfold sub_part. rewrite (bool_decide_false _ E). simpl.
  pose proof (decode_path_spec s) as Hd. case_bool_decide as E'; [|done].
  by rewrite E' in Hd.
Qed.

Lemma strip_slashes_id c s : c <> "/"%char -> strip_slashes (c :: s) = c :: s.
Proof. intros H. simpl. by rewrite bool_decide_false. Qed.

(** ** Theorems *)

(** Parsing a printed purl gives its canonical form. *)
Lemma parse_to_string p qs :
  printable p -> qs ≡ₚ map_to_list (p_qualifiers p) ->
  parse_purl (to_string_ord qs p) = Ok (canon p).
Proof.
  intros Hwf Hperm. rewrite to_string_parts. unfold parse_purl.
  rewrite starts_with_app, drop_app_length. cbn [negb].
  rewrite (pr_type_lower p Hwf).
  pose proof (pr_type_slash p Hwf) as Hslash. pose proof (pr_type_ne p Hwf) as Hne.
  assert (forall t, strip_slashes (p_type p ++ t) = p_type p ++ t) as ->.
  { intros t. destruct (p_type p) as [|c ty]; [done|]. apply strip_slashes_id.
    unfold free_of in Hslash. set_solver. }
  rewrite find_char_hit, take_length_app, drop_S_length_app by done.
  rewrite cut_first.
  2: { pose proof (qual_part_free qs p Hwf Hperm).
       pose proof (ns_part_free "#" (p_ns p) eq_refl ltac:(done)).
       pose proof (version_part_free "#" (p_version p) eq_refl ltac:(done)).
       pose proof (encode_free "#" (p_name p) eq_refl).
       unfold free_of in *. set_solver. }
  2: { unfold sub_part. case_bool_decide; constructor. }
  rewrite cut_first.
  2: { pose proof (ns_part_free "?" (p_ns p) eq_refl ltac:(done)).
       pose proof (version_part_free "?" (p_version p) eq_refl ltac:(done)).
       pose proof (encode_free "?" (p_name p) eq_refl).
       unfold free_of in *. set_solver. }
  2: { unfold qual_part. destruct (sorted_qualifiers qs []); constructor. }
  rewrite (cut_last percent_decode_segment).
  2: { pose proof (ns_part_free "@" (p_ns p) eq_refl ltac:(done)).
       pose proof (encode_free "@" (p_name p) eq_refl).
       unfold free_of in *. set_solver. }
  2: { unfold version_part. case_bool_decide; constructor. }
  2: { unfold version_part. case_bool_decide; simpl;
         [unfold free_of; set_solver|by apply encode_free]. }
  2: done.
  rewrite parse_ns_name, (qual_part_parse qs p Hwf Hperm), sub_part_parse.
  rewrite (pr_type_lower p Hwf), !bool_decide_false by (done || apply (pr_name p Hwf)).
  assert (percent_decode_segment (tail (version_part (p_version p))) = p_version p) as ->.
  { unfold version_part. case_bool_decide as E; simpl; [done|]. apply decode_encode. }
  by destruct p.
Qed.

(** ** What [parse_purl] returns is printable *)

Lemma lower_free c s :
  forallb (fun d => negb (char_is c (tolower d)) || char_is c d) all_bytes = true ->
  free_of c s -> free_of c (lower s).
Proof.
  intros Hall Hs Hin. apply Hs. unfold lower in Hin.
  apply list_elem_of_fmap in Hin as (d & -> & Hd).
  pose proof (byte_case _ Hall d) as H. unfold char_is in H.
  rewrite bool_decide_true in H by done. simpl in H. by apply bool_decide_eq_true in H as <-.
Qed.

Lemma store_qualifier_keys kv m :
  free_of "&" kv -> free_of "#" kv ->
  (forall k v, m !! k = Some v -> wf_key k) ->
  forall k v, store_qualifier kv m !! k = Some v -> wf_key k.
Proof.
  intros Hamp Hhash Hm k v. unfold store_qualifier.
  destruct (find_char "=" kv) as [i|] eqn:E; [|by apply Hm].
  apply find_char_Some in E as (a & b & -> & <- & Ha).
  rewrite take_length_app, lookup_insert. case_decide as Ek; [|by apply Hm].
  intros _. subst k. unfold ascii_lower, wf_key, ascii_lower. rewrite lower_idemp.
  unfold free_of in *. repeat split; apply lower_free; unfold free_of; (by vm_compute) || set_solver.
Qed.

Lemma parse_qualifiers_keys s :
  free_of "#" s ->
  forall k v, parse_qualifiers (length s) s ∅ !! k = Some v -> wf_key k.
Proof.
  intros Hh. rewrite parse_qualifiers_split by done.
  assert (Forall (fun w => free_of "&" w /\ free_of "#" w) (split_on "&" s)) as Hw.
  { apply Forall_forall. intros w Hw. pose proof (split_on_free "&" s) as Hf.
    rewrite Forall_forall in Hf. split; [by apply Hf|]. intros Hin. apply Hh.
    rewrite <- (join_split "&" s). clear Hh Hf. revert Hw.
    induction (split_on "&" s) as [|w' ws IH]; [set_solver|]. intros Hw.
    destruct ws as [|w'' ws]; [set_solver|]. rewrite join_with_cons2. set_solver. }
  assert (forall k v, (∅ : gmap str str) !! k = Some v -> wf_key k) as H0 by done.
  revert H0. generalize (∅ : gmap str str).
  induction Hw as [|w ws [Ha Hb] Hw IH]; intros m Hm; [done|].
  simpl. apply IH. by apply store_qualifier_keys.
Qed.

Lemma free_of_sub c a b : free_of c (a ++ b) -> free_of c a /\ free_of c b.
Proof. unfold free_of. set_solver. Qed.

(** The two-way cut at the first occurrence of a separator. *)
Lemma cut_first_inv c s x y :
  match find_char c s with
  | Some h => (drop (S h) s, take h s)
  | None => ([], s)
  end = (x, y) -> free_of c y /\ (s = y /\ x = [] \/ s = y ++ c :: x).
Proof.
  destruct (find_char c s) as [i|] eqn:E; intros H.
  - apply find_char_Some in E as (a & b & -> & <- & Ha).
    rewrite take_length_app, drop_S_length_app in H. simplify_eq. auto.
  - simplify_eq. split; [by apply find_char_None|auto].
Qed.

Lemma parse_printable s p : parse_purl s = Ok p -> printable p.
Proof.
  unfold parse_purl. destruct (negb (starts_with kScheme s)); [done|].
  destruct (find_char "/" _) as [i|] eqn:Hslash; [|done].
  apply find_char_Some in Hslash as (ty & rest & -> & <- & Hty).
  rewrite take_length_app, drop_S_length_app.
  destruct (match find_char "#" rest with Some _ => _ | None => _ end) as [sub r1] eqn:E1.
  apply cut_first_inv in E1 as [Hhash _].
  destruct (match find_char "?" r1 with Some _ => _ | None => _ end) as [qs r2] eqn:E2.
  apply cut_first_inv in E2 as [_ Hr1].
  assert (free_of "#" qs) as Hqs.
  { destruct Hr1 as [[-> ->] | ->]; unfold free_of in *; set_solver. }
  destruct (match rfind_char "@" r2 with Some _ => _ | None => _ end) as [ver r3].
  destruct (match rfind_char "/" r3 with Some _ => _ | None => _ end) as [ns name].
  destruct (bool_decide (ascii_lower ty = []) || bool_decide (name = [])) eqn:Hne; [done|].
  intros [= <-]. bool_to_prop. split; simpl; auto.
  - unfold ascii_lower. apply lower_idemp.
  - by apply lower_free; [vm_compute|].
  - by apply parse_qualifiers_keys.
Qed.

(** ** Theorems *)

(** C28: parsing the printed form of a printable purl without blank qualifiers
    gives the purl back, for every iteration order [qs] of its qualifiers. *)
Theorem purl_roundtrip p qs :
  printable p -> (forall k v, p_qualifiers p !! k = Some v -> k <> [] /\ v <> []) ->
  qs ≡ₚ map_to_list (p_qualifiers p) ->
  parse_purl (to_string_ord qs p) = Ok p.
Proof.
  intros Hpr Hq Hperm. rewrite parse_to_string by done. f_equal. unfold canon.
  rewrite map_filter_id; [by destruct p|]. intros k v Hkv. by apply Hq.
Qed.

Definition sample_purl : Purl :=
  mkPurl (lit "npm") (lit "@acme/tools") (lit "left pad") (lit "1.0+x")
    {[ lit "arch" := lit "x86_64"; lit "repo" := lit "a&b=c" ]} (lit "src/#1").

Lemma purl_roundtrip_witness :
  parse_purl (to_string sample_purl) = Ok sample_purl.
Proof.
  apply (purl_roundtrip sample_purl (map_to_list (p_qualifiers sample_purl))).
  - split; try done.
    + unfold free_of. apply (bool_decide_unpack _). by vm_compute.
    + intros k v Hin. unfold sample_purl in Hin. simpl in Hin.
      rewrite lookup_insert_Some, lookup_singleton_Some in Hin.
      unfold wf_key, free_of.
      destruct Hin as [[<- _]|[_ [<- _]]]; repeat split;
        apply (bool_decide_unpack _); by vm_compute.
  - intros k v Hin. unfold sample_purl in Hin. simpl in Hin.
    rewrite lookup_insert_Some, lookup_singleton_Some in Hin.
    by destruct Hin as [[<- <-]|[_ [<- <-]]].
  - done.
Defined.

(** Printing is a canonicalisation: what [parse_purl] accepts prints, in
    any iteration order, to a string that parses back to the same purl with
    its blank qualifiers dropped. *)
Lemma purl_canonical s p qs :
  parse_purl s = Ok p -> qs ≡ₚ map_to_list (p_qualifiers p) ->
  parse_purl (to_string_ord qs p) = Ok (canon p).
Proof. intros Hp Hperm. apply parse_to_string; [by eapply parse_printable|done]. Qed.

Lemma purl_canonical_witness :
  let s := lit "pkg:NPM/%40acme/left-pad@1.0?Arch=x&os=#src" in
  let p := mkPurl (lit "npm") (lit "@acme") (lit "left-pad") (lit "1.0")
             {[ lit "arch" := lit "x"; lit "os" := [] ]} (lit "src") in
  parse_purl s = Ok p /\ parse_purl (to_string p) = Ok (canon p).
Proof.
  intros s p. assert (parse_purl s = Ok p) as H by by vm_compute.
  split; [done|]. by apply (purl_canonical s p (map_to_list (p_qualifiers p))).
Defined.

(** The printed purl does not depend on the iteration order of the
    unordered qualifier map when no two kept keys collide after lower-casing. *)
Lemma to_string_order_independent p qs qs' :
  NoDup ((norm_qual <$> filter keep qs).*1) -> qs ≡ₚ qs' ->
  to_string_ord qs p = to_string_ord qs' p.
Proof.
  intros Hnd Hp. rewrite !to_string_parts. unfold qual_part.
  assert (sorted_qualifiers qs [] = sorted_qualifiers qs' []) as ->; [|done].
  apply (StronglySorted_unique_strong key_lt).
  - intros [k v] [k' v'] _ _ H1 H2. unfold key_lt in *. simpl in *.
    by rewrite (str_ltb_asym _ _ H1) in H2.
  - apply sorted_qualifiers_sorted. constructor.
  - apply sorted_qualifiers_sorted. constructor.
  - rewrite !sorted_qualifiers_perm, !app_nil_r; [by rewrite Hp| |]; rewrite app_nil_r; [|done].
    by rewrite <- Hp.
Qed.

Lemma to_string_order_independent_witness :
  let qs := [(lit "os", lit "linux"); (lit "Arch", lit "x")] in
  to_string_ord qs sample_purl = to_string_ord (rev qs) sample_purl.
Proof.
  intros qs. apply (to_string_order_independent sample_purl qs (rev qs)).
  - apply (bool_decide_unpack _). by vm_compute.
  - apply (bool_decide_unpack _). by vm_compute.
Defined.

(** Without that condition the printed purl is not determined by the
    purl: two iteration orders of one map print differently. *)
Lemma to_string_order_dependent :
  exists (p : Purl) qs qs',
    qs ≡ₚ map_to_list (p_qualifiers p) /\ qs' ≡ₚ map_to_list (p_qualifiers p)
    /\ to_string_ord qs p <> to_string_ord qs' p.
Proof.
  exists (mkPurl (lit "npm") [] (lit "x") [] {[ lit "a" := lit "1"; lit "A" := lit "2" ]} []),
    [(lit "a", lit "1"); (lit "A", lit "2")], [(lit "A", lit "2"); (lit "a", lit "1")].
  split; [|split]; apply (bool_decide_unpack _); by vm_compute.
Qed.
