(* ===== verification/Clock.v ===== *)
(** * UTC timestamps

    Several components stamp records with [gmtime_r] and the format
    [%Y-%m-%dT%H:%M:%SZ] and later compare those strings lexicographically.
    [iso8601] models both library calls for a time in seconds since the epoch:
    the date is found by walking the months from January 1970.  The result of
    this file is that for instants from the epoch to the end of the year 9999
    the string order is the order of the instants. *)

From Stdlib Require Import ZArith Ascii String Lia.
From stdpp Require Import base list strings pretty.
From S2P Require Import Prelude CxxString.
Local Open Scope Z_scope.

(** ** The calendar *)

Definition leap_year (y : Z) : bool :=
  (y mod 4 =? 0) && (negb (y mod 100 =? 0) || (y mod 400 =? 0)).

(** Months are counted from January of year 0. *)
Definition month_len (m : Z) : Z :=
  match m mod 12 with
  | 1 => if leap_year (m / 12) then 29 else 28
  | 3 | 5 | 8 | 10 => 30
  | _ => 31
  end.

(** Month and day of the month of the day [d] days after the first of [m];
    [n] bounds the months walked. *)
Fixpoint month_day (n : nat) (m d : Z) : Z * Z :=
  match n with
  | O => (m, d + 1)
  | S n => if d <? month_len m then (m, d + 1) else month_day n (m + 1) (d - month_len m)
  end.

Record Tm : Type := mkTm {
  tm_year : Z; tm_mon : Z; tm_mday : Z; tm_hour : Z; tm_min : Z; tm_sec : Z;
}.

(** [gmtime_r], with the month in 1..12 and the full year. *)
Definition gmtime (t : Z) : Tm :=
  let days := t / 86400 in
  let s := t mod 86400 in
  let '(m, d) := month_day (Z.to_nat (days / 28 + 1)) (1970 * 12) days in
  mkTm (m / 12) (m mod 12 + 1) d (s / 3600) (s / 60 mod 60) (s mod 60).

Definition dec_digit (n : Z) : ascii := chr (48 + n).
Definition pad2 (n : Z) : str := [dec_digit (n / 10); dec_digit (n mod 10)].

(** [strftime]/[put_time] with [%Y-%m-%dT%H:%M:%SZ]. *)
Definition iso8601 (t : Z) : str :=
  let tm := gmtime t in
  to_string_Z (tm_year tm) ++ lit "-" ++ pad2 (tm_mon tm) ++ lit "-" ++ pad2 (tm_mday tm)
  ++ lit "T" ++ pad2 (tm_hour tm) ++ lit ":" ++ pad2 (tm_min tm) ++ lit ":" ++ pad2 (tm_sec tm)
  ++ lit "Z".

(** Instants from the epoch to the end of the year 9999. *)
Definition clock_range (t : Z) : Prop := 0 <= t /\ tm_year (gmtime t) <= 9999.

(** ** The calendar is increasing *)

Lemma month_len_range m : 28 <= month_len m <= 31.
Proof. unfold month_len. repeat case_match; lia. Qed.

Lemma month_day_fuel n n' m d :
  0 <= d -> d < 28 * Z.of_nat n -> d < 28 * Z.of_nat n' -> month_day n m d = month_day n' m d.
Proof.
  revert n' m d. induction n as [|n IH]; intros [|n'] m d Hd Hn Hn'; [lia..|]. cbn [month_day].
  pose proof (month_len_range m). destruct (d <? month_len m) eqn:E; [done|].
  apply Z.ltb_ge in E. apply IH; lia.
Qed.

Lemma month_day_bounds n m d :
  0 <= d -> d < 28 * Z.of_nat n ->
  m <= fst (month_day n m d) /\ 1 <= snd (month_day n m d) <= 31.
Proof.
  revert m d. induction n as [|n IH]; intros m d Hd Hn; [lia|]. cbn [month_day].
  pose proof (month_len_range m). destruct (d <? month_len m) eqn:E; bool_to_prop.
  - apply Z.ltb_lt in E. simpl. lia.
  - apply Z.ltb_ge in E. destruct (IH (m + 1) (d - month_len m)) as [H1 H2]; [lia..|]. lia.
Qed.

Definition lex_lt (p q : Z * Z) : Prop := fst p < fst q \/ (fst p = fst q /\ snd p < snd q).

Lemma month_day_mono n m d d' :
  0 <= d < d' -> d' < 28 * Z.of_nat n -> lex_lt (month_day n m d) (month_day n m d').
Proof.
  revert m d d'. induction n as [|n IH]; intros m d d' Hd Hn; [lia|]. cbn [month_day].
  pose proof (month_len_range m).
  destruct (d <? month_len m) eqn:E, (d' <? month_len m) eqn:E';
    rewrite ?Z.ltb_lt, ?Z.ltb_ge in *; [right; simpl; lia| |lia|apply IH; lia].
  left. destruct (month_day_bounds n (m + 1) (d' - month_len m)) as [H1 _]; [lia..|]. simpl. lia.
Qed.

(** ** The string order *)

Lemma str_ltb_app a b x y :
  length a = length b ->
  str_ltb (a ++ x) (b ++ y) = str_ltb a b || (bool_decide (a = b) && str_ltb x y).
Proof.
  revert b. induction a as [|c a IH]; intros [|d b] Hl; simpl in *; try lia; [done|].
  destruct (code c <? code d) eqn:E1; [done|]. destruct (code d <? code c) eqn:E2.
  - rewrite bool_decide_false; [done|]. intros [= -> ->]. lia.
  - assert (c = d) as -> by (apply code_inj; lia). rewrite IH by lia. f_equal. f_equal.
    apply bool_decide_ext. naive_solver.
Qed.

Lemma str_ltb_app_same a x y : str_ltb (a ++ x) (a ++ y) = str_ltb x y.
Proof. rewrite str_ltb_app by done. rewrite str_ltb_irrefl, bool_decide_true by done. done. Qed.

Lemma code_dec_digit n : 0 <= n < 10 -> code (dec_digit n) = 48 + n.
Proof. intros H. unfold dec_digit. apply code_chr. lia. Qed.

Lemma pad2_ltb i j x y :
  0 <= i < 100 -> 0 <= j < 100 ->
  str_ltb (pad2 i ++ x) (pad2 j ++ y) = (i <? j) || ((i =? j) && str_ltb x y).
Proof.
  intros Hi Hj. pose proof (Z.mod_pos_bound i 10 ltac:(lia)). pose proof (Z.mod_pos_bound j 10 ltac:(lia)).
  pose proof (Z_div_mod_eq_full i 10). pose proof (Z_div_mod_eq_full j 10).
  cbn [pad2 app str_ltb]. rewrite !code_dec_digit by lia.
  repeat match goal with |- context [if ?b then _ else _] => destruct b eqn:? end;
    rewrite ?Z.ltb_lt, ?Z.ltb_ge in *; symmetry.
  - apply orb_true_iff. left. lia.
  - apply orb_false_iff. split; [lia|]. apply andb_false_iff. left. lia.
  - apply orb_true_iff. left. lia.
  - apply orb_false_iff. split; [lia|]. apply andb_false_iff. left. lia.
  - assert (i = j) as -> by lia. rewrite Z.ltb_irrefl, Z.eqb_refl. done.
Qed.

Lemma pretty_char_dec n : (n < 10)%N -> pretty_N_char n = dec_digit (Z.of_N n).
Proof.
  intros H. destruct n as [|p]; [reflexivity|].
  by do 4 (try (destruct p as [p|p|]; try lia; try reflexivity)).
Qed.

(** A four-digit number is printed as two pairs of digits. *)
Lemma to_string_year y : 1000 <= y <= 9999 -> to_string_Z y = pad2 (y / 100) ++ pad2 (y mod 100).
Proof.
  intros Hy. destruct y as [|p|p]; [lia| |lia]. unfold to_string_Z.
  change (pretty (Z.pos p)) with (pretty (N.pos p)). unfold pretty, pretty_N.
  rewrite decide_False by lia. set (n := N.pos p).
  assert (Z.pos p = Z.of_N n) as -> by done. assert (1000 <= n <= 9999)%N as Hn by lia.
  clearbody n. clear Hy p.
  pose proof (N.div_le_lower_bound n 10 100 ltac:(lia) ltac:(lia)) as H1.
  pose proof (N.div_lt_upper_bound n 10 1000 ltac:(lia) ltac:(lia)) as H1'.
  pose proof (N.div_le_lower_bound (n / 10) 10 10 ltac:(lia) ltac:(lia)) as H2.
  pose proof (N.div_lt_upper_bound (n / 10) 10 100 ltac:(lia) ltac:(lia)) as H2'.
  pose proof (N.div_le_lower_bound (n / 10 / 10) 10 1 ltac:(lia) ltac:(lia)) as H3.
  pose proof (N.div_lt_upper_bound (n / 10 / 10) 10 10 ltac:(lia) ltac:(lia)) as H3'.
  rewrite !pretty_N_go_step by lia.
  rewrite (N.div_small (n / 10 / 10 / 10)) by lia. rewrite pretty_N_go_0.
  rewrite !pretty_char_dec by (apply N.mod_lt; lia). unfold lit, pad2. cbn [list_ascii_of_string app].
  rewrite (N.mod_small (n / 10 / 10 / 10)) by lia.
  repeat f_equal; rewrite ?N2Z.inj_mod, ?N2Z.inj_div; simpl Z.of_N;
    Z.to_euclidean_division_equations; lia.
Qed.

Lemma gmtime_fields t :
  0 <= t ->
  let tm := gmtime t in
  1970 <= tm_year tm /\ 1 <= tm_mon tm <= 12 /\ 1 <= tm_mday tm <= 31 /\
  0 <= tm_hour tm < 24 /\ 0 <= tm_min tm < 60 /\ 0 <= tm_sec tm < 60.
Proof.
  intros Ht. unfold gmtime. pose proof (Z.div_pos t 86400 Ht ltac:(lia)) as Hd.
  assert (t / 86400 < 28 * Z.of_nat (Z.to_nat (t / 86400 / 28 + 1))) as Hf.
  { pose proof (Z.div_pos (t / 86400) 28 Hd ltac:(lia)).
    pose proof (Z.mod_pos_bound (t / 86400) 28 ltac:(lia)).
    pose proof (Z_div_mod_eq_full (t / 86400) 28). lia. }
  pose proof (month_day_bounds _ (1970 * 12) _ Hd Hf) as [H1 H2].
  destruct (month_day _ _ _) as [m d]. simpl in *.
  pose proof (Z.mod_pos_bound m 12 ltac:(lia)). pose proof (Z.div_le_lower_bound m 12 1970 ltac:(lia) ltac:(lia)).
  pose proof (Z.mod_pos_bound t 86400 ltac:(lia)) as Hs. generalize dependent (t mod 86400). intros s Hs.
  pose proof (Z.mod_pos_bound (s / 60) 60 ltac:(lia)). pose proof (Z.mod_pos_bound s 60 ltac:(lia)).
  pose proof (Z.div_pos s 3600 ltac:(lia) ltac:(lia)).
  pose proof (Z.div_lt_upper_bound s 3600 24 ltac:(lia) ltac:(lia)). lia.
Qed.

Ltac cmp_iff :=
  repeat first [rewrite orb_true_iff | rewrite andb_true_iff | rewrite Z.ltb_lt | rewrite Z.eqb_eq].
Ltac cmp_iff_in H :=
  repeat first [rewrite orb_true_iff in H | rewrite andb_true_iff in H
               | rewrite Z.ltb_lt in H | rewrite Z.eqb_eq in H].

(** Comparison field by field, most significant first. *)
Fixpoint fields_ltb (a b : list Z) : bool :=
  match a, b with
  | x :: a, y :: b => (x <? y) || ((x =? y) && fields_ltb a b)
  | _, _ => false
  end.

Definition tm_fields (tm : Tm) : list Z :=
  [tm_year tm; tm_mon tm; tm_mday tm; tm_hour tm; tm_min tm; tm_sec tm].

Lemma fields_ltb_mono t t' : 0 <= t < t' -> fields_ltb (tm_fields (gmtime t)) (tm_fields (gmtime t')) = true.
Proof.
  intros Ht. unfold gmtime.
  pose proof (Z_div_mod_eq_full t 86400). pose proof (Z_div_mod_eq_full t' 86400).
  pose proof (Z.mod_pos_bound t 86400 ltac:(lia)). pose proof (Z.mod_pos_bound t' 86400 ltac:(lia)).
  generalize dependent (t mod 86400). intros s Hs Hs0. generalize dependent (t' mod 86400). intros s' Hs' Hs0'.
  set (d := t / 86400) in *. set (d' := t' / 86400) in *.
  assert (0 <= d) as Hd by lia. assert (d <= d') as Hdd by lia.
  set (n := Z.to_nat (d' / 28 + 1)).
  assert (d' < 28 * Z.of_nat n) as Hn.
  { unfold n. pose proof (Z.div_pos d' 28 ltac:(lia) ltac:(lia)).
    pose proof (Z.mod_pos_bound d' 28 ltac:(lia)). pose proof (Z_div_mod_eq_full d' 28). lia. }
  rewrite (month_day_fuel (Z.to_nat (d / 28 + 1)) n).
  2, 4: lia.
  2: { pose proof (Z.div_pos d 28 ltac:(lia) ltac:(lia)).
       pose proof (Z.mod_pos_bound d 28 ltac:(lia)). pose proof (Z_div_mod_eq_full d 28). lia. }
  destruct (decide (d = d')) as [E|E].
  - rewrite E. destruct (month_day n _ d') as [m k]. unfold tm_fields. cbn [fields_ltb tm_year tm_mon tm_mday tm_hour tm_min tm_sec].
    rewrite !Z.ltb_irrefl, !Z.eqb_refl. cbn [orb andb].
    assert (s < s') as Hss by lia. cmp_iff.
    clear - Hss Hs0 Hs0'. Z.to_euclidean_division_equations; lia.
  - pose proof (month_day_mono n (1970 * 12) d d' ltac:(lia) Hn) as Hlex.
    destruct (month_day n _ d) as [m k], (month_day n _ d') as [m' k'].
    unfold tm_fields. cbn [fields_ltb tm_year tm_mon tm_mday tm_hour tm_min tm_sec].
    cmp_iff.
    unfold lex_lt in Hlex. simpl in Hlex. clear - Hlex.
    destruct Hlex as [Hm|[-> Hk]]; [|auto 10].
    pose proof (Z_div_mod_eq_full m 12). pose proof (Z_div_mod_eq_full m' 12).
    pose proof (Z.mod_pos_bound m 12 ltac:(lia)). pose proof (Z.mod_pos_bound m' 12 ltac:(lia)).
    destruct (decide (m / 12 = m' / 12)); [right; split; [done|]; left; lia|left; lia].
Qed.

(** The string order is the order of the instants. *)
Lemma iso8601_mono t t' :
  0 <= t < t' -> clock_range t' -> str_ltb (iso8601 t) (iso8601 t') = true.
Proof.
  intros Ht [_ Hy']. pose proof (fields_ltb_mono t t' Ht) as Hf.
  destruct (gmtime_fields t) as (Y & M & D & H & I & S); [lia|].
  destruct (gmtime_fields t') as (Y' & M' & D' & H' & I' & S'); [lia|].
  unfold iso8601. unfold tm_fields in Hf. cbn [fields_ltb] in Hf.
  assert (tm_year (gmtime t) <= 9999) as Hy.
  { destruct (tm_year (gmtime t) <? tm_year (gmtime t')) eqn:E; [lia|].
    simpl in Hf. apply andb_true_iff in Hf as [Hf _]. lia. }
  rewrite !to_string_year by lia. rewrite <-!app_assoc.
  repeat first [rewrite pad2_ltb by (Z.to_euclidean_division_equations; lia) | rewrite str_ltb_app_same].
  rewrite str_ltb_irrefl.
  cmp_iff. cmp_iff_in Hf.
  destruct Hf as [Hf|[E Hf]].
  - pose proof (Z_div_mod_eq_full (tm_year (gmtime t)) 100).
    pose proof (Z_div_mod_eq_full (tm_year (gmtime t')) 100).
    pose proof (Z.mod_pos_bound (tm_year (gmtime t)) 100 ltac:(lia)).
    pose proof (Z.mod_pos_bound (tm_year (gmtime t')) 100 ltac:(lia)).
    destruct (decide (tm_year (gmtime t) / 100 = tm_year (gmtime t') / 100)); [|left; lia].
    right. split; [done|]. left. lia.
  - rewrite E. right. split; [done|]. right. split; [done|]. exact Hf.
Qed.

Lemma iso8601_ne t : iso8601 t <> [].
Proof. unfold iso8601. intros E. apply (f_equal length) in E. rewrite !length_app in E. simpl in E. lia. Qed.
