(* ===== verification/Doubles.v ===== *)
(** * IEEE 754 binary64 numbers

    [double] is the Standard Library's executable specification of binary
    floating point at precision 53 and maximal exponent 1024, rounding to
    nearest, ties to even.  A decimal literal of the sources is the correctly
    rounded quotient of two exactly representable integers. *)

From Stdlib Require Import ZArith SpecFloat Lia.
From stdpp Require Import base tactics sorting.

Abbreviation double := spec_float.

Definition d_of_Z (z : Z) : double := binary_normalize 53 1024 z 0 false.
Definition d_add : double -> double -> double := SFadd 53 1024.
Definition d_sub : double -> double -> double := SFsub 53 1024.
Definition d_mul : double -> double -> double := SFmul 53 1024.
Definition d_div : double -> double -> double := SFdiv 53 1024.
Definition d_lt : double -> double -> bool := SFltb.
Definition d_le : double -> double -> bool := SFleb.

(** The literal [n/d]. *)
Definition d_lit (n d : Z) : double := d_div (d_of_Z n) (d_of_Z d).
Definition d_zero : double := S754_zero false.

(** [std::sqrt], [std::abs] and [std::max] *)
Definition d_sqrt : double -> double := SFsqrt 53 1024.
Definition d_abs : double -> double := SFabs.
Definition d_max (a b : double) : double := if d_lt a b then b else a.

(** [==] *)
Definition d_eqb : double -> double -> bool := SFeqb.

(** *** Sorting *)

Definition d_leb (a b : double) : Prop := d_le a b = true.
#[export] Instance d_leb_dec a b : Decision (d_leb a b).
Proof. unfold d_leb. apply _. Defined.
(** [std::ranges::sort] of numbers: equal ones cannot be told apart. *)
Definition sort_doubles (v : list double) : list double := merge_sort d_leb v.

(** [float]: binary32.  [static_cast<float>(d)] rounds to precision 24. *)
Abbreviation float32 := spec_float.
Definition d_to_float (d : double) : float32 :=
  match d with
  | S754_finite s m e => binary_normalize 24 128 (if s then Z.neg m else Z.pos m) e s
  | _ => d
  end.
Definition f_lit (n d : Z) : float32 := d_to_float (d_lit n d).

Definition is_nan (d : double) : bool := match d with S754_nan => true | _ => false end.

(** [std::floor], [std::ceil] and truncation, as the integer they give; [None]
    for an infinity or a NaN. *)
Definition d_floor (d : double) : option Z :=
  match d with
  | S754_zero _ => Some 0%Z
  | S754_finite s m e => Some (Z.shiftl (if s then Z.neg m else Z.pos m) e)
  | _ => None
  end.
Definition d_ceil (d : double) : option Z :=
  match d with
  | S754_zero _ => Some 0%Z
  | S754_finite s m e => Some (- Z.shiftl (if s then Z.pos m else Z.neg m) e)%Z
  | _ => None
  end.
Definition d_trunc (d : double) : option Z := if d_lt d d_zero then d_ceil d else d_floor d.

(** The order is total apart from NaN. *)
Lemma d_le_of_not_lt x y :
  is_nan x = false -> is_nan y = false -> d_lt x y = false -> d_le y x = true.
Proof.
  unfold d_lt, d_le, SFltb, SFleb, SFcompare.
  destruct x as [[]|[]| |[] m e], y as [[]|[]| |[] m' e']; try done;
    intros _ _; rewrite (Z.compare_antisym e e'); destruct (Z.compare e e') eqn:Ee; cbn; try done;
    pose proof (Pos.compare_cont_antisym m m' Eq) as Hs; cbn [CompOpp] in Hs; rewrite <-Hs;
    clear Hs; by destruct (Pos.compare_cont Eq m m').
Qed.
