(* ===== verification/DoubleBounds.v ===== *)
(** * Bounds of floating-point results

    How far rounding can take a value: a result whose exact value is not
    negative and at most a power of two stays so after rounding.  The exponents
    are far from the limits of the format, so nothing overflows. *)

From Stdlib Require Import ZArith Lia SpecFloat.
From stdpp Require Import base list.
From S2P Require Import Prelude Doubles.
Local Open Scope Z_scope.

(** [m * 2 ^ e] is at most [2 ^ k]. *)
Definition upto (k m e : Z) : Prop := e <= k /\ m <= 2 ^ (k - e).
(** Not negative and at most [2 ^ k]. *)
Definition pos_le (k : Z) (d : double) : Prop :=
  match d with S754_zero false => True | S754_finite false m e => upto k (Zpos m) e | _ => False end.
Definition small (k : Z) : Prop := -1074 <= k <= 971.

Lemma pos_le_weaken k k' d : k <= k' -> pos_le k d -> pos_le k' d.
Proof.
  intros Hk. destruct d as [[]|[]| |[] m e]; cbn; try done. intros [He Hm]. split; [lia|].
  etransitivity; [exact Hm|]. apply Z.pow_le_mono_r; lia.
Qed.

(** ** Shifts *)

Lemma iter_pos_nat {A} (f : A -> A) p x : SpecFloat.iter_pos f p x = Nat.iter (Pos.to_nat p) f x.
Proof.
  revert x. induction p as [p IH|p IH|]; intros x; cbn [SpecFloat.iter_pos]; [| |done]; rewrite !IH, <-Nat.iter_add.
  - rewrite <-Nat.iter_succ_r. f_equal. lia.
  - f_equal. lia.
Qed.

Lemma shr_1_spec m r s : 0 <= m ->
  exists r' s', shr_1 (Build_shr_record m r s) = Build_shr_record (m / 2) r' s' /\
    (r' || s' = false <-> m mod 2 = 0 /\ r || s = false).
Proof.
  intros Hm. destruct m as [|p|p]; [|destruct p as [p|p|]|lia]; cbn [shr_1]; eexists _, _; (split; [reflexivity || f_equal|]).
  - rewrite orb_false_l. destruct r, s; naive_solver.
  - rewrite (Pos2Z.inj_xI p). apply Z.div_unique with 1; lia.
  - rewrite (Pos2Z.inj_xI p), Z.add_comm, Z.mul_comm, Z.mod_add by lia. destruct r, s; naive_solver.
  - rewrite (Pos2Z.inj_xO p), Z.mul_comm. by rewrite Z.div_mul by lia.
  - rewrite (Pos2Z.inj_xO p), Z.mul_comm, Z.mod_mul by lia. destruct r, s; naive_solver.
  - destruct r, s; naive_solver.
Qed.

Lemma shr_iter m r s n : 0 <= m ->
  exists r' s', Nat.iter n shr_1 (Build_shr_record m r s) = Build_shr_record (m / 2 ^ Z.of_nat n) r' s' /\
    (r' || s' = false <-> m mod 2 ^ Z.of_nat n = 0 /\ r || s = false).
Proof.
  intros Hm. induction n as [|n (r1 & s1 & E & IH)].
  { exists r, s. cbn [Nat.iter nat_rect]. change (2 ^ Z.of_nat 0) with 1. rewrite Z.div_1_r, Z.mod_1_r. split; [done|naive_solver]. }
  cbn [Nat.iter nat_rect]. change (nat_rect _ _ _ n) with (Nat.iter n shr_1 (Build_shr_record m r s)). rewrite E.
  destruct (shr_1_spec (m / 2 ^ Z.of_nat n) r1 s1) as (r2 & s2 & E2 & H2); [apply Z.div_pos; lia|].
  exists r2, s2. rewrite E2. rewrite Nat2Z.inj_succ, Z.pow_succ_r by lia. split.
  - f_equal. rewrite Z.div_div by lia. f_equal. lia.
  - rewrite H2, IH, (Z.mul_comm 2), Z.rem_mul_r by lia.
    pose proof (Z.mod_pos_bound m (2 ^ Z.of_nat n)). pose proof (Z.mod_pos_bound (m / 2 ^ Z.of_nat n) 2). naive_solver nia.
Qed.

Lemma digits_log p : Zpos (digits2_pos p) = Z.log2 (Zpos p) + 1.
Proof.
  induction p as [p IH|p IH|]; [| |done]; cbn [digits2_pos]; rewrite Pos2Z.inj_succ, IH.
  - rewrite (Pos2Z.inj_xI p), Z.log2_succ_double by lia. lia.
  - rewrite (Pos2Z.inj_xO p), Z.log2_double by lia. lia.
Qed.

Lemma digits_upto k m e : 0 < m -> upto k m e -> Zdigits2 m + e <= k + 1.
Proof.
  intros Hm [He Hk]. destruct m as [|p|p]; [lia| |lia]. cbn [Zdigits2]. rewrite digits_log.
  assert (Z.log2 (Zpos p) <= k - e); [|lia]. rewrite <-(Z.log2_pow2 (k - e)) by lia. by apply Z.log2_le_mono.
Qed.

(** ** Rounding *)

(** The exact value lies between [m] and [m + 1] at exponent [e]. *)
Definition near (k m e : Z) (l : location) : Prop :=
  0 <= m /\ e <= k /\ match l with loc_Exact => m <= 2 ^ (k - e) | _ => m < 2 ^ (k - e) end.

Lemma fexp_le k m e : small k -> 0 <= m -> upto k m e -> fexp 53 1024 (Zdigits2 m + e) <= k.
Proof.
  intros Hk Hm H. unfold fexp, emin, small in *. destruct (Z.eq_dec m 0) as [->|Hne].
  - cbn [Zdigits2]. destruct H. lia.
  - pose proof (digits_upto k m e ltac:(lia) H). lia.
Qed.

Lemma shr_near k m e l : small k -> near k m e l ->
  exists m' e' r s, shr_fexp 53 1024 m e l = (Build_shr_record m' r s, e') /\ near k m' e' (loc_of_shr_record (Build_shr_record m' r s)).
Proof.
  intros Hk (Hm & He & Hl). assert (upto k m e) as Hu by (split; [done|]; destruct l; lia).
  pose proof (fexp_le k m e Hk Hm Hu) as Hf. unfold shr_fexp, shr.
  destruct (fexp 53 1024 (Zdigits2 m + e) - e) as [|n|n] eqn:En.
  1, 3: exists m, e; destruct l as [|[]]; eexists _, _; (split; [reflexivity|done]).
  assert (exists r0 s0, shr_record_of_loc m l = Build_shr_record m r0 s0 /\ (r0 || s0 = false <-> l = loc_Exact)) as (r0 & s0 & E0 & H0).
  { destruct l as [|[]]; eexists _, _; (split; [reflexivity|done]). }
  rewrite E0, iter_pos_nat. destruct (shr_iter m r0 s0 (Pos.to_nat n) Hm) as (r & s & E & Hrs). rewrite E.
  rewrite positive_nat_Z in *. eexists _, _, r, s. split; [reflexivity|].
  assert (2 ^ (k - e) = 2 ^ Zpos n * 2 ^ (k - (e + Zpos n))) as Ep.
  { rewrite <-Z.pow_add_r by lia. f_equal. lia. }
  pose proof (Z.div_mod m (2 ^ Zpos n) ltac:(lia)) as Hdm. pose proof (Z.mod_pos_bound m (2 ^ Zpos n) ltac:(lia)) as Hb.
  split; [apply Z.div_pos; lia|]. split; [lia|].
  destruct (r || s) eqn:Ers.
  - assert (m / 2 ^ Zpos n < 2 ^ (k - (e + Zpos n))) as Hlt.
    { destruct l as [|c]; [|apply Z.div_lt_upper_bound; lia].
      assert (m mod 2 ^ Zpos n <> 0) by naive_solver. nia. }
    destruct r, s; try done; cbn; lia.
  - destruct r, s; try done. cbn. destruct (proj1 Hrs eq_refl) as [Hmod ->%H0]. nia.
Qed.

(** One rounding step: the rounded mantissa is exact from here on. *)
Lemma round_near k m e l : near k m e l -> near k (round_nearest_even m l) e loc_Exact.
Proof.
  intros (Hm & He & Hl). unfold near, round_nearest_even. destruct l as [|[]]; try (destruct (Z.even m)); lia.
Qed.

Lemma round_aux_le k m e l : small k -> near k m e l -> pos_le k (binary_round_aux 53 1024 false m e l).
Proof.
  intros Hk Hn. unfold binary_round_aux. destruct (shr_near k m e l Hk Hn) as (m1 & e1 & r & s & -> & H1).
  apply round_near in H1. cbn [shr_m]. set (m2 := round_nearest_even m1 _) in *.
  destruct (shr_near k m2 e1 loc_Exact Hk H1) as (m3 & e3 & r3 & s3 & -> & Hm3 & He3 & H3). cbn [shr_m].
  assert (m3 <= 2 ^ (k - e3)) as Hle by (destruct r3, s3; cbn in H3; lia).
  destruct m3 as [|p|p]; [done| |lia]. unfold small in Hk. rewrite (proj2 (Z.leb_le _ _)) by lia. by split.
Qed.

Lemma pow_shift m d : Pos.iter xO m d = (m * 2 ^ d)%positive.
Proof.
  induction d as [|d IH] using Pos.peano_ind; [cbn; lia|]. rewrite Pos.iter_succ, IH, Pos.pow_succ_r. lia.
Qed.

Lemma normalize_le k m e : small k -> 0 <= m -> upto k m e -> pos_le k (binary_normalize 53 1024 m e false).
Proof.
  intros Hk Hm [He Hu]. destruct m as [|p|p]; [done| |lia]. cbn [binary_normalize]. unfold binary_round, shl_align.
  set (x := fexp _ _ _). destruct (x - e) as [|d|d] eqn:Ed; (apply round_aux_le; [done|]); try done.
  rewrite pow_shift. split; [done|]. split; [lia|]. rewrite Pos2Z.inj_mul, Pos2Z.inj_pow.
  replace (k - x) with ((k - e) + Zpos d) by lia. rewrite Z.pow_add_r by lia. apply Z.mul_le_mono_nonneg_r; lia.
Qed.

(** ** Operations *)

Lemma upto_align k m e z : z <= e -> upto k (Zpos m) e -> upto k (Zpos (fst (shl_align m e z))) z.
Proof.
  intros Hz [He Hu]. unfold shl_align. destruct (z - e) as [|d|d] eqn:Ed; cbn [fst]; [|lia|].
  - replace z with e by lia. done.
  - split; [lia|]. rewrite pow_shift, Pos2Z.inj_mul, Pos2Z.inj_pow.
    replace (k - z) with ((k - e) + Zpos d) by lia. rewrite Z.pow_add_r by lia. apply Z.mul_le_mono_nonneg_r; lia.
Qed.

Lemma add_le k x y : small (k + 1) -> pos_le k x -> pos_le k y -> pos_le (k + 1) (d_add x y).
Proof.
  intros Hk Hx Hy. destruct x as [[]|[]| |[] m e]; try done; destruct y as [[]|[]| |[] m' e']; try done;
    try (by apply (pos_le_weaken k); [lia|]).
  cbn [d_add SFadd cond_Zopp]. unfold d_add, SFadd, cond_Zopp. apply normalize_le; [done|lia|].
  pose proof (upto_align k m e (Z.min e e') ltac:(lia) Hx) as [Ha1 Ha2].
  pose proof (upto_align k m' e' (Z.min e e') ltac:(lia) Hy) as [Hb1 Hb2].
  split; [lia|]. replace (k + 1 - Z.min e e') with (1 + (k - Z.min e e')) by lia. rewrite Z.pow_add_r by lia. lia.
Qed.

Lemma mul_le k j x y : small (k + j) -> pos_le k x -> pos_le j y -> pos_le (k + j) (d_mul x y).
Proof.
  intros Hk Hx Hy. destruct x as [[]|[]| |[] m e]; try done; destruct y as [[]|[]| |[] m' e']; try done.
  unfold d_mul, SFmul. apply round_aux_le; [done|]. destruct Hx as [He Hm], Hy as [He' Hm'].
  split; [lia|]. split; [lia|]. replace (k + j - (e + e')) with ((k - e) + (j - e')) by lia.
  rewrite Z.pow_add_r, Pos2Z.inj_mul by lia. apply Z.mul_le_mono_nonneg; lia.
Qed.

(** At least one, with an exponent that is not positive. *)
Definition at_least_one (d : double) : Prop :=
  match d with S754_finite false m e => e <= 0 /\ 2 ^ (- e) <= Zpos m | _ => False end.

Lemma location_exact m r : new_location m r = loc_Exact <-> r = 0.
Proof.
  unfold new_location, new_location_even, new_location_odd. destruct (Z.even m), (Z.eqb_spec r 0); naive_solver.
Qed.

(** A quotient, from a bound of its exponent and of the exact value. *)
Lemma div_upto k m1 e1 m2 e2 : small k ->
  (Z.log2 (Zpos m1) + e1) - (Z.log2 (Zpos m2) + e2) <= k ->
  (forall e', e' <= k -> e' <= e1 - e2 -> Zpos m1 * 2 ^ (e1 - e2 - e') <= Zpos m2 * 2 ^ (k - e')) ->
  pos_le k (d_div (S754_finite false m1 e1) (S754_finite false m2 e2)).
Proof.
  intros Hk Hexp Hval. unfold d_div, SFdiv, SFdiv_core_binary.
  set (e' := Z.min _ _). assert (e' <= e1 - e2) as Hs by (unfold e'; lia).
  assert (e' <= k) as Hek by (unfold e', fexp, emin, small in *; cbn [Zdigits2]; rewrite !digits_log; lia).
  set (m' := match e1 - e2 - e' with Z0 => _ | _ => _ end).
  assert (m' = Zpos m1 * 2 ^ (e1 - e2 - e')) as Em.
  { unfold m'. destruct (e1 - e2 - e') eqn:E; [lia| |lia]. by rewrite Z.shiftl_mul_pow2 by lia. }
  clearbody m'. pose proof (Hval e' Hek Hs) as Hle. rewrite <-Em in Hle.
  destruct (Z.div_eucl m' (Zpos m2)) as [q r] eqn:Ed. pose proof (Z_div_mod m' (Zpos m2) ltac:(lia)) as Hd. rewrite Ed in Hd.
  destruct Hd as [Hd Hr]. assert (0 <= m') by (rewrite Em; lia).
  apply round_aux_le; [done|]. split; [nia|]. split; [done|].
  pose proof (location_exact (Zpos m2) r) as Hl. destruct (new_location (Zpos m2) r); [nia|].
  assert (r <> 0) by naive_solver. nia.
Qed.

Lemma div_le k x y : small k -> pos_le k x -> at_least_one y -> pos_le k (d_div x y).
Proof.
  intros Hk Hx Hy. destruct y as [[]|[]| |[] m2 e2]; try done. destruct x as [[]|[]| |[] m1 e1]; try done.
  destruct Hy as [He2 Hy]. pose proof (digits_upto k (Zpos m1) e1 ltac:(lia) Hx) as Hd. cbn [Zdigits2] in Hd. rewrite digits_log in Hd.
  assert (- e2 <= Z.log2 (Zpos m2)) by (rewrite <-(Z.log2_pow2 (- e2)) by lia; by apply Z.log2_le_mono).
  destruct Hx as [He1 Hx]. apply div_upto; [done|lia|]. intros e' Hek Hs.
  transitivity (2 ^ (k - e1) * 2 ^ (e1 - e2 - e')); [by apply Z.mul_le_mono_nonneg_r; [lia|]|].
  rewrite <-Z.pow_add_r by lia. replace (k - e1 + (e1 - e2 - e')) with (- e2 + (k - e')) by lia.
  rewrite Z.pow_add_r by lia. apply Z.mul_le_mono_nonneg_r; lia.
Qed.

(** What remains to one *)
Lemma one_minus_le y : pos_le 0 y -> pos_le 0 (d_sub (d_of_Z 1) y).
Proof.
  intros Hy. change (d_of_Z 1) with (S754_finite false 4503599627370496 (-52)).
  destruct y as [[]|[]| |[] m e]; try done. unfold d_sub, SFsub, cond_Zopp. set (z := Z.min (-52) e).
  pose proof (upto_align 0 m e z ltac:(lia) Hy) as [Hz Hb]. set (b := fst (shl_align m e z)) in *. clearbody b.
  assert (Zpos (fst (shl_align 4503599627370496 (-52) z)) = 2 ^ (0 - z)) as ->.
  { unfold shl_align. destruct (z - -52) as [|d|d] eqn:Ed; cbn [fst]; [|lia|].
    - replace z with (-52) by lia. done.
    - rewrite pow_shift, Pos2Z.inj_mul, Pos2Z.inj_pow. replace (0 - z) with (52 + Zpos d) by lia. rewrite Z.pow_add_r by lia. done. }
  apply normalize_le; [unfold small; lia|lia|]. split; lia.
Qed.

Lemma of_Z_le k n : small k -> 0 <= k -> 0 <= n <= 2 ^ k -> pos_le k (d_of_Z n).
Proof. intros Hk H0 Hn. apply normalize_le; [done|lia|]. split; [lia|]. replace (k - 0) with k by lia. lia. Qed.

(** Integers below [2 ^ 53] are converted exactly. *)
Lemma of_Z_exact n : 0 < n < 2 ^ 53 ->
  exists m e, d_of_Z n = S754_finite false m e /\ e <= 0 /\ Zpos m = n * 2 ^ (- e) /\ Z.log2 (Zpos m) = 52.
Proof.
  intros [H0 Hn]. destruct n as [|p|p]; [lia| |lia]. unfold d_of_Z, binary_normalize, binary_round.
  pose proof (digits_log p) as Hd. set (d := Zpos (digits2_pos p)) in *.
  assert (Z.log2 (Zpos p) < 53) as Hlog by (apply Z.log2_lt_pow2; lia). pose proof (Z.log2_spec (Zpos p) ltac:(lia)) as Hs.
  pose proof (Z.log2_nonneg (Zpos p)).
  assert (fexp 53 1024 (d + 0) = d - 53) as -> by (unfold fexp, emin; lia).
  assert (exists q, shl_align p 0 (d - 53) = (q, d - 53) /\ Zpos q = Zpos p * 2 ^ (53 - d)) as (q & -> & Eq).
  { unfold shl_align. destruct (d - 53 - 0) as [|x|x] eqn:E; [| lia |].
    - exists p. replace d with 53 by lia. split; [done|]. cbn. lia.
    - eexists. split; [done|]. rewrite pow_shift, Pos2Z.inj_mul, Pos2Z.inj_pow. do 2 f_equal. lia. }
  assert (Z.log2 (Zpos q) = 52) as Hq.
  { rewrite Eq, Z.log2_mul_pow2 by lia. clear -Hd. lia. }
  unfold binary_round_aux, shr_fexp, shr_record_of_loc. cbn [Zdigits2]. rewrite digits_log, Hq.
  assert (fexp 53 1024 (52 + 1 + (d - 53)) - (d - 53) = 0) as -> by (unfold fexp, emin; lia).
  cbn [shr shr_m loc_of_shr_record round_nearest_even Zdigits2]. rewrite digits_log, Hq.
  assert (fexp 53 1024 (52 + 1 + (d - 53)) - (d - 53) = 0) as -> by (unfold fexp, emin; lia).
  cbn [shr shr_m]. rewrite (proj2 (Z.leb_le _ _)) by lia. exists q, (d - 53). split; [done|]. split; [lia|].
  replace (- (d - 53)) with (53 - d) by lia. done.
Qed.

Lemma of_Z_ge_one n : 0 < n < 2 ^ 53 -> at_least_one (d_of_Z n).
Proof. intros Hn. destruct (of_Z_exact n Hn) as (m & e & -> & He & Em & _). cbn. split; [done|]. nia. Qed.

Lemma ratio_le k a b : small k -> 0 <= k -> 0 <= a <= 2 ^ k -> 0 < b < 2 ^ 53 -> pos_le k (d_div (d_of_Z a) (d_of_Z b)).
Proof. intros. apply div_le; [done|by apply of_Z_le|by apply of_Z_ge_one]. Qed.

(** A share of a whole *)
Lemma share_le a b : 0 <= a <= b -> 0 < b < 2 ^ 53 -> pos_le 0 (d_div (d_of_Z a) (d_of_Z b)).
Proof.
  intros Ha Hb. destruct (of_Z_exact b Hb) as (m2 & e2 & -> & He2 & E2 & L2).
  destruct (Z.eq_dec a 0) as [->|]; [done|]. destruct (of_Z_exact a ltac:(lia)) as (m1 & e1 & -> & He1 & E1 & L1).
  assert (e1 <= e2) as Hle.
  { pose proof (Z.log2_mul_pow2 a (- e1) ltac:(lia) ltac:(lia)) as H1. rewrite <-E1, L1 in H1.
    pose proof (Z.log2_mul_pow2 b (- e2) ltac:(lia) ltac:(lia)) as H2. rewrite <-E2, L2 in H2.
    pose proof (Z.log2_le_mono a b ltac:(lia)). lia. }
  apply div_upto; [unfold small; lia|lia|]. intros e' Hk Hs. rewrite E1, E2, <-!Z.mul_assoc, <-!Z.pow_add_r by lia.
  replace (- e1 + (e1 - e2 - e')) with (- e2 + (0 - e')) by lia. apply Z.mul_le_mono_nonneg_r; lia.
Qed.

(** A sum of [n] values is at most [n] times their bound. *)
Lemma sum_le k n x l : small k -> small (k + Z.of_nat n) -> (length l <= n)%nat -> pos_le k x -> Forall (pos_le k) l ->
  pos_le (k + Z.of_nat n) (foldl d_add x l).
Proof.
  revert k n x. induction l as [|y l IH]; intros k n x H0 Hk Hn Hx Hl; cbn [foldl].
  - apply (pos_le_weaken k); [lia|done].
  - destruct n as [|n]; [simpl in Hn; lia|]. apply Forall_cons in Hl as [Hy Hl]. unfold small in *.
    replace (k + Z.of_nat (S n)) with (k + 1 + Z.of_nat n) by lia. apply IH; [lia|lia|simpl in Hn; lia| |].
    + apply add_le; [unfold small; lia|done|done].
    + eapply Forall_impl; [exact Hl|]. intros z Hz. by apply (pos_le_weaken k); [lia|].
Qed.

Lemma trunc_le k d : 0 <= k -> pos_le k d -> exists z, d_trunc d = Some z /\ 0 <= z <= 2 ^ k.
Proof.
  intros Hk Hd. destruct d as [[]|[]| |[] m e]; try done.
  - exists 0. split; [done|lia].
  - exists (Z.shiftl (Zpos m) e). split; [done|]. destruct Hd as [He Hm]. split; [by apply Z.shiftl_nonneg|].
    destruct (Z_le_dec 0 e).
    + rewrite Z.shiftl_mul_pow2 by lia. replace k with ((k - e) + e) by lia. rewrite Z.pow_add_r by lia.
      apply Z.mul_le_mono_nonneg_r; lia.
    + replace e with (- (- e)) by lia. rewrite Z.shiftl_opp_r, Z.shiftr_div_pow2 by lia.
      apply Z.div_le_upper_bound; [lia|]. rewrite <-Z.pow_add_r by lia. replace (- e + k) with (k - e) by lia. lia.
Qed.
