(* ===== verification/Json.v ===== *)
(** * JSON values

    [nlohmann::json] is a library outside the sources.  [Json] is its
    interface as far as the modelled components use it: values are built from
    scalars, arrays and objects and are read back with [contains], [at],
    [value], [get<T>] and range-for.  [JsonOk] states the documented behaviour
    they rely on: reading a value of a type gives back what it was built from.
    A reader returns [None] where the library throws. *)

From Stdlib Require Import ZArith Ascii String Lia.
From stdpp Require Import base list gmap strings.
From S2P Require Import Prelude CxxString Doubles.

Class Json : Type := {
  jv : Type;
  jnull : jv;
  jbool : bool -> jv;
  jint : Z -> jv;
  jdouble : double -> jv;
  jstr : str -> jv;
  jarr : list jv -> jv;
  jobj : gmap str jv -> jv;
  (** [is_null] *)
  is_null : jv -> bool;
  (** [is_number], [is_array] *)
  is_number : jv -> bool;
  is_array : jv -> bool;
  (** the members of an object, [None] for any other value *)
  members : jv -> option (gmap str jv);
  (** the values a range-for visits *)
  items : jv -> list jv;
  (** [get<std::string>], [get<bool>], [get<int>], [get<std::int64_t>], [get<double>] *)
  get_string : jv -> option str;
  get_bool : jv -> option bool;
  get_int : jv -> option Z;
  get_int64 : jv -> option Z;
  get_double : jv -> option double;
}.

Class JsonOk `{Json} : Prop := {
  null_is_null j : is_null j = true <-> j = jnull;
  null_obj m : is_null (jobj m) = false;
  number_null : is_number jnull = false;
  string_null : get_string jnull = None;
  number_int z : is_number (jint z) = true;
  number_double d : is_number (jdouble d) = true;
  number_str s : is_number (jstr s) = false;
  number_bool b : is_number (jbool b) = false;
  array_arr l : is_array (jarr l) = true;
  array_obj m : is_array (jobj m) = false;
  string_number j : is_number j = true -> get_string j = None;
  bool_number j : is_number j = true -> get_bool j = None;
  bool_string s : get_bool (jstr s) = None;
  string_bool b : get_string (jbool b) = None;
  members_null : members jnull = None;
  members_obj m : members (jobj m) = Some m;
  items_arr l : items (jarr l) = l;
  get_string_str s : get_string (jstr s) = Some s;
  get_bool_bool b : get_bool (jbool b) = Some b;
  get_int_int z : int32 z -> get_int (jint z) = Some z;
  get_int64_int z : int64 z -> get_int64 (jint z) = Some z;
  get_double_double d : get_double (jdouble d) = Some d;
  get_double_int z : int32 z -> get_double (jint z) = Some (d_of_Z z);
}.

(** Reading a member of a listed object, computed by comparing the keys. *)
Fixpoint key_eqb (a b : str) : bool :=
  match a, b with
  | [], [] => true
  | c :: a, d :: b => Ascii.eqb c d && key_eqb a b
  | _, _ => false
  end.

Fixpoint assoc {A} (k : str) (kvs : list (str * A)) : option A :=
  match kvs with
  | [] => None
  | kv :: kvs => if key_eqb (fst kv) k then Some (snd kv) else assoc k kvs
  end.

Lemma key_eqb_true a b : key_eqb a b = true <-> a = b.
Proof.
  revert b. induction a as [|c a IH]; intros [|d b]; simpl; try done.
  rewrite andb_true_iff, IH, Ascii.eqb_eq. naive_solver.
Qed.

Lemma lookup_assoc {A} (kvs : list (str * A)) k : (list_to_map kvs : gmap str A) !! k = assoc k kvs.
Proof.
  induction kvs as [|[k' v] kvs IH]; [done|]. cbn [assoc fst snd list_to_map foldr uncurry].
  destruct (key_eqb k' k) eqn:E.
  - apply key_eqb_true in E as ->. apply lookup_insert_eq.
  - rewrite lookup_insert_ne; [done|]. intros ->. by rewrite (proj2 (key_eqb_true k k) eq_refl) in E.
Qed.

Section access.
Context `{Json}.

(** An object with the given members; no key is listed twice. *)
Definition object (kvs : list (str * jv)) : jv := jobj (list_to_map kvs).

(** [if (o) j[k] = *o] *)
Definition opt_member {A} (k : string) (f : A -> jv) (o : option A) : list (str * jv) :=
  match o with Some a => [(lit k, f a)] | None => [] end.

(** [j.at(k)] *)
Definition at_key (j : jv) (k : string) : option jv := m ← members j; m !! lit k.

(** [j.contains(k)]: false for a value that is not an object *)
Definition contains (j : jv) (k : string) : bool :=
  match at_key j k with Some _ => true | None => false end.

(** [j.at(k).get<T>()] *)
Definition at_get {A} (get : jv -> option A) (j : jv) (k : string) : option A := v ← at_key j k; get v.

(** [if (j.contains(k)) x = j.at(k).get<T>()] for an optional [x] *)
Definition opt_get {A} (get : jv -> option A) (j : jv) (k : string) : option (option A) :=
  if contains j k then v ← at_get get j k; Some (Some v) else Some None.

(** [j.value(k, d)] *)
Definition value {A} (get : jv -> option A) (j : jv) (k : string) (d : A) : option A :=
  m ← members j; match m !! lit k with Some v => get v | None => Some d end.

(** [get<std::vector<std::string>>] *)
Definition get_strings (j : jv) : option (list str) :=
  if is_array j then mapM get_string (items j) else None.
Definition jstrs (l : list str) : jv := jarr (jstr <$> l).

Context `{!JsonOk}.

Lemma at_object kvs k : at_key (object kvs) k = (list_to_map kvs : gmap str jv) !! lit k.
Proof. unfold at_key, object. by rewrite members_obj. Qed.

Lemma value_object {A} (get : jv -> option A) kvs k d :
  value get (object kvs) k d =
  match (list_to_map kvs : gmap str jv) !! lit k with Some v => get v | None => Some d end.
Proof. unfold value, object. by rewrite members_obj. Qed.

Lemma mapM_roundtrip {A B} (f : A -> B) (g : B -> option A) l :
  (forall a, a ∈ l -> g (f a) = Some a) -> mapM g (f <$> l) = Some l.
Proof.
  intros Hg. apply mapM_Some. apply Forall2_fmap_l, Forall_Forall2_diag, Forall_forall. auto.
Qed.

Lemma get_strings_jstrs l : get_strings (jstrs l) = Some l.
Proof.
  unfold get_strings, jstrs. rewrite array_arr, items_arr. apply mapM_roundtrip.
  intros. apply get_string_str.
Qed.
End access.

(** Evaluate the readers of an object that was built here; the keys are
    compared by computation. *)
Ltac read_fields :=
  unfold opt_get, at_get, contains; rewrite ?at_object, ?value_object;
  repeat (rewrite lookup_assoc);
  cbn [assoc key_eqb fst snd lit list_ascii_of_string Ascii.eqb Bool.eqb andb app mbind option_bind];
  rewrite ?get_string_str, ?get_bool_bool, ?get_double_double, ?get_strings_jstrs, ?items_arr;
  cbn [mbind option_bind].

(** The same for nested objects, simplifying in between. *)
Ltac read_object :=
  repeat (progress (read_fields; simpl)).

(** ** A model of the interface *)

Module SampleJson.
Inductive value : Type :=
| Null | Bool (b : bool) | Int (z : Z) | Num (d : double) | Str (s : str)
| Arr (l : list value) | Obj (m : gmap str value).

Definition members_of (v : value) : option (gmap str value) :=
  match v with Obj m => Some m | _ => None end.
Definition items_of (v : value) : list value :=
  match v with Null => [] | Arr l => l | Obj m => snd <$> map_to_list m | v => [v] end.

Definition json : Json := {|
  jv := value; jnull := Null; jbool := Bool; jint := Int; jdouble := Num; jstr := Str; jarr := Arr;
  jobj := Obj;
  is_null v := match v with Null => true | _ => false end;
  is_number v := match v with Int _ | Num _ => true | _ => false end;
  is_array v := match v with Arr _ => true | _ => false end;
  members := members_of; items := items_of;
  get_string v := match v with Str s => Some s | _ => None end;
  get_bool v := match v with Bool b => Some b | _ => None end;
  get_int v := match v with Int z => Some z | _ => None end;
  get_int64 v := match v with Int z => Some z | _ => None end;
  get_double v := match v with Num d => Some d | Int z => Some (d_of_Z z) | _ => None end;
|}.

Lemma json_ok : @JsonOk json.
Proof. split; try done; intros []; naive_solver. Qed.
End SampleJson.
