(* ===== verification/JsonObjects.v ===== *)
(** * Objects with conditional members, and loaders

    What the emitters share: an object is written member by member, some of
    them only when there is something to write, and read back by key.  The
    tactics find a member in such an object and read the ones always written.
    A loader of a configuration file reads the members of a document one after
    the other into the state of its object and stops at the first exception;
    what it did before stays.  It is a sequence of [Step]s. *)

From Stdlib Require Import ZArith Ascii String Lia.
From stdpp Require Import base list gmap strings.
From S2P Require Import Prelude CxxString Json.

Section write.
Context `{Json}.

(** A member that is written when a condition holds. *)
Definition when (b : bool) (k : string) (v : jv) : list (str * jv) := if b then [(lit k, v)] else [].
Definition when_text (k : string) (s : str) : list (str * jv) := when (negb (bool_decide (s = []))) k (jstr s).
Definition when_list {A} (k : string) (f : A -> jv) (l : list A) : list (str * jv) :=
  when (match l with [] => false | _ => true end) k (jarr (f <$> l)).
Definition always (k : string) (v : jv) : list (str * jv) := when true k v.

End write.

Section read.
Context `{Json}.

Definition read_list {A} (read : jv -> option A) (j : jv) (k : string) : option (list A) :=
  match at_key j k with None => Some [] | Some a => mapM read (items a) end.

(** A member that is present and not null *)
Definition present {A} (get : jv -> option A) (j : jv) (k : string) : option (option A) :=
  match at_key j k with
  | None => Some None
  | Some v => if is_null v then Some None else a ← get v; Some (Some a)
  end.

Context `{!JsonOk}.

Lemma assoc_app {A} k (a b : list (str * A)) :
  assoc k (a ++ b) = match assoc k a with Some v => Some v | None => assoc k b end.
Proof. induction a as [|kv a IH]; [done|]. cbn. by destruct (key_eqb (fst kv) k). Qed.

Lemma assoc_when b k k' v : assoc (lit k) (when b k' v) = if key_eqb (lit k') (lit k) then if b then Some v else None else None.
Proof. destruct b; cbn; by destruct (key_eqb (lit k') (lit k)). Qed.

Lemma read_text kvs k s : assoc (lit k) kvs = (if negb (bool_decide (s = [])) then Some (jstr s) else None) ->
  value get_string (object kvs) k [] = Some s.
Proof.
  intros E. rewrite value_object, lookup_assoc, E. case_bool_decide; cbn; [by subst|]. apply get_string_str.
Qed.

Lemma read_member {A} (get : jv -> option A) kvs k v : assoc (lit k) kvs = Some v -> at_get get (object kvs) k = get v.
Proof. intros E. unfold at_get. by rewrite at_object, lookup_assoc, E. Qed.

Lemma read_named kvs k s :
  assoc (lit k) kvs = (if negb (bool_decide (s = [])) then Some (object (always "name" (jstr s))) else None) ->
  match at_key (object kvs) k with None => Some [] | Some o => at_get get_string o "name" end = Some s.
Proof.
  intros E. rewrite at_object, lookup_assoc, E. case_bool_decide; cbn [negb]; [by subst|].
  by erewrite read_member, get_string_str.
Qed.

Lemma read_members {A} (read : jv -> option A) (f : A -> jv) kvs k l :
  assoc (lit k) kvs = (if match l with [] => false | _ => true end then Some (jarr (f <$> l)) else None) ->
  (forall a, a ∈ l -> read (f a) = Some a) -> read_list read (object kvs) k = Some l.
Proof.
  intros E Hr. unfold read_list. rewrite at_object, lookup_assoc, E. destruct l as [|a l]; [done|].
  rewrite items_arr. by apply mapM_roundtrip.
Qed.
Lemma value_member {A} (get : jv -> option A) kvs k v d :
  assoc (lit k) kvs = Some v -> value get (object kvs) k d = get v.
Proof. intros E. by rewrite value_object, lookup_assoc, E. Qed.

Lemma key_member kvs k : at_key (object kvs) k = assoc (lit k) kvs.
Proof. by rewrite at_object, lookup_assoc. Qed.

Lemma int_not_null z : is_null (jint z) = false.
Proof.
  destruct (is_null (jint z)) eqn:E; [|done]. apply null_is_null in E. pose proof (number_int z) as Hn.
  by rewrite E, number_null in Hn.
Qed.

Lemma str_not_null s : is_null (jstr s) = false.
Proof.
  destruct (is_null (jstr s)) eqn:E; [|done]. apply null_is_null in E. pose proof (get_string_str s) as Hs.
  by rewrite E, string_null in Hs.
Qed.
End read.

(** Find a member in an object of conditional members. *)
Ltac find_member :=
  unfold when_text, when_list, always; rewrite ?assoc_app, ?assoc_when;
  repeat match goal with |- context [key_eqb (lit ?a) (lit ?b)] =>
    let r := eval vm_compute in (key_eqb (lit a) (lit b)) in change (key_eqb (lit a) (lit b)) with r end;
  cbn match beta; try reflexivity;
  repeat match goal with |- context [if ?b then _ else _] => destruct b end; try reflexivity.

(** Read every member that is always written. *)
Ltac read_all :=
  repeat (erewrite read_member by (find_member; done)); rewrite ?get_string_str; cbn [mbind option_bind].

(** ** Loaders of configuration files *)

Section steps.
Context `{Json}.

(** What [items()] visits: the members of an object in order, the positions of
    an array, a scalar once, null not at all. *)
Definition entries_of (j : jv) : list (str * jv) :=
  match members j with
  | Some m => sorted_items m
  | None => if is_array j then imap (fun i v => (to_string_nat i, v)) (items j) else (fun v => ([], v)) <$> items j
  end.

(** A step of a loader: did it end without an exception, and what it leaves. *)
Definition Step (A : Type) : Type := A -> bool * A.
Definition seq_step {A} (f g : Step A) : Step A := fun a => let '(ok, a) := f a in if ok then g a else (false, a).
Fixpoint for_each {A B} (f : B -> Step A) (bs : list B) : Step A :=
  match bs with [] => fun a => (true, a) | b :: bs => seq_step (f b) (for_each f bs) end.
Definition if_member {A} (j : jv) (k : string) (f : jv -> Step A) : Step A :=
  match at_key j k with Some v => f v | None => fun a => (true, a) end.
(** A value that is read, or an exception *)
Definition with_value {A B} (o : option B) (f : B -> A -> A) : Step A :=
  fun a => match o with Some b => (true, f b a) | None => (false, a) end.

(** *** A map that is read member by member *)

Lemma sorted_keys_nodup {A} (m : gmap str A) : NoDup (sorted_items m).*1.
Proof. rewrite sorted_items_perm. apply NoDup_fst_map_to_list. Qed.

Lemma sorted_items_map {A} (m : gmap str A) : list_to_map (sorted_items m) = m.
Proof.
  rewrite <-(list_to_map_to_list m) at 2. apply list_to_map_proper; [apply sorted_keys_nodup|apply sorted_items_perm].
Qed.

Definition read_entries {B} (read : jv -> option B) (kvs : list (str * jv)) : Step (gmap str B) :=
  for_each (fun kv => with_value (read kv.2) (fun b => <[kv.1 := b]>)) kvs.

(** When every value reads, each key has what was read for it, or what it had. *)
Lemma read_entries_spec {B} (read : jv -> option B) (kvs : list (str * jv)) (m : gmap str B) :
  NoDup kvs.*1 -> (forall kv, kv ∈ kvs -> is_Some (read kv.2)) ->
  exists m', read_entries read kvs m = (true, m') /\
    forall k, m' !! k = match (list_to_map kvs : gmap str jv) !! k with Some v => read v | None => m !! k end.
Proof.
  revert m. induction kvs as [|[k v] kvs IH]; intros m Hnd Hr; [by exists m|].
  apply NoDup_cons in Hnd as [Hk Hnd]. destruct (Hr (k, v)) as [b Hb]; [by left|]. cbn [snd] in Hb.
  destruct (IH (<[k := b]> m)) as (m' & E & Hm'); [done|intros kv Hin; apply Hr; by right|].
  exists m'. split.
  - unfold read_entries. cbn [for_each fst snd]. unfold seq_step at 1, with_value at 1. rewrite Hb. exact E.
  - intros k'. rewrite Hm', list_to_map_cons. destruct (decide (k = k')) as [<-|Hne].
    + rewrite lookup_insert_eq, (not_elem_of_list_to_map_1 kvs k) by done. by rewrite lookup_insert_eq.
    + by rewrite !lookup_insert_ne.
Qed.

(** Reading a map back that was written value by value. *)
Lemma read_map_back {A B} (f : A -> jv) (read : jv -> option B) (g : A -> B) (m : gmap str A) (m0 : gmap str B) :
  (forall k a, m !! k = Some a -> read (f a) = Some (g a)) ->
  exists m', read_entries read (sorted_items (f <$> m)) m0 = (true, m') /\ m' = (g <$> m) ∪ m0.
Proof.
  intros Hr. destruct (read_entries_spec read (sorted_items (f <$> m)) m0) as (m' & E & Hm').
  - apply sorted_keys_nodup.
  - intros [k v] Hin. apply elem_of_sorted_items in Hin. rewrite lookup_fmap in Hin.
    apply fmap_Some in Hin as (a & Ha & ->). cbn. rewrite (Hr k a Ha). by eexists.
  - exists m'. split; [done|]. apply map_eq. intros k. rewrite Hm', sorted_items_map, lookup_union, !lookup_fmap.
    destruct (m !! k) as [a|] eqn:Ha; cbn; [|by destruct (m0 !! k)]. rewrite (Hr k a Ha). by destruct (m0 !! k).
Qed.
End steps.
