(* ===== verification/JsonText.v ===== *)
(** * Encodings of JSON values

    The writers and readers of the JSON library: [dump] and [parse] for text,
    [to_msgpack] and [from_msgpack] for MessagePack.  Their documented
    behaviour is that a reader inverts its writer, that blank text does not
    parse, and that text written without indentation is one line.  Text has no
    notation for infinities and NaN, which are written as [null]: [json_exact]
    are the values whose text stands for them.  [dump] throws on a string that
    is not UTF-8; [None] stands for that, and for a document that does not
    parse. *)

From Stdlib Require Import ZArith Ascii String Lia SpecFloat.
From stdpp Require Import base list gmap countable strings.
From S2P Require Import Prelude CxxString Lines Doubles Json JsonObjects.

Class MsgPack `{Json} : Type := {
  to_msgpack : jv -> str;
  from_msgpack : str -> option jv;
}.
Class MsgPackOk `{MsgPack} : Prop := from_to_msgpack j : from_msgpack (to_msgpack j) = Some j.

(** The doubles that have a notation, and the integers of the library *)
Definition finite_double (d : double) : bool :=
  match d with
  | S754_zero _ => true
  | S754_finite _ m e => bounded 53 1024 m e
  | S754_infinity _ | S754_nan => false
  end.
Definition json_int (z : Z) : Prop := (- 2 ^ 63 <= z < 2 ^ 64)%Z.

Class JsonText `{Json} : Type := {
  json_dump : jv -> option str;
  json_parse : str -> option jv;
  (** the value holds no infinity and no NaN *)
  json_exact : jv -> Prop;
}.
Class JsonTextOk `{JsonText} : Prop := {
  exact_null : json_exact jnull;
  exact_bool b : json_exact (jbool b);
  exact_str s : json_exact (jstr s);
  exact_int z : json_int z -> json_exact (jint z);
  exact_double d : finite_double d = true -> json_exact (jdouble d);
  exact_arr l : Forall json_exact l -> json_exact (jarr l);
  exact_obj m : map_Forall (fun _ => json_exact) m -> json_exact (jobj m);
  parse_dump j s : json_exact j -> json_dump j = Some s -> json_parse s = Some j;
  parse_blank s : forallb trim_ws s = true -> json_parse s = None;
  dump_one_line j s : json_dump j = Some s -> s <> [] /\ free_of eol s;
}.

Section exact.
Context `{JsonTextOk}.

Lemma exact_object kvs : Forall (fun kv : str * jv => json_exact kv.2) kvs -> json_exact (object kvs).
Proof.
  intros Hf. apply exact_obj. intros k v Hk. apply elem_of_list_to_map_2 in Hk.
  rewrite Forall_forall in Hf. exact (Hf _ Hk).
Qed.

Lemma exact_jstrs l : json_exact (jstrs l).
Proof. apply exact_arr, Forall_fmap, Forall_forall. intros s _. apply exact_str. Qed.

Lemma exact_list {A} (f : A -> jv) l : (forall a, a ∈ l -> json_exact (f a)) -> json_exact (jarr (f <$> l)).
Proof. intros Hf. by apply exact_arr, Forall_fmap, Forall_forall. Qed.

Lemma exact_members kvs k j : json_exact j -> Forall (fun kv : str * jv => json_exact kv.2) kvs ->
  Forall (fun kv : str * jv => json_exact kv.2) ((k, j) :: kvs).
Proof. by constructor. Qed.

Lemma exact_when b k j : json_exact j -> Forall (fun kv : str * jv => json_exact kv.2) (when b k j).
Proof. destruct b; [by constructor|constructor]. Qed.

Lemma exact_opt {A} k (f : A -> jv) o : (forall a, o = Some a -> json_exact (f a)) ->
  Forall (fun kv : str * jv => json_exact kv.2) (opt_member k f o).
Proof. destruct o as [a|]; intros Hf; constructor; [by apply Hf|constructor]. Qed.

Lemma exact_app kvs kvs' : Forall (fun kv : str * jv => json_exact kv.2) kvs -> Forall (fun kv : str * jv => json_exact kv.2) kvs' ->
  Forall (fun kv : str * jv => json_exact kv.2) (kvs ++ kvs').
Proof. intros. by apply Forall_app. Qed.
End exact.

Lemma int32_json z : int32 z -> json_int z.
Proof. unfold int32, json_int. lia. Qed.
Lemma int64_json z : int64 z -> json_int z.
Proof. unfold int64, json_int. lia. Qed.

(** An object that was built here holds no infinity and no NaN, but for the
    values that are left over. *)
Ltac exact_json :=
  repeat first
    [ apply exact_object | apply exact_members | apply exact_app | apply exact_when | apply exact_str | apply exact_bool
    | apply exact_null | apply exact_jstrs | apply Forall_nil_2 | apply exact_int; first [done|apply int32_json; done|apply int64_json; done]
    | apply exact_double; done ].

(** ** A model: values as trees, encoded as binary numbers *)

Module TreeJson.

#[export] Instance spec_float_eq_dec : EqDecision spec_float.
Proof. solve_decision. Defined.

Definition double_sum (d : double) : (bool + bool) + (unit + bool * positive * Z) :=
  match d with
  | S754_zero b => inl (inl b)
  | S754_infinity b => inl (inr b)
  | S754_nan => inr (inl tt)
  | S754_finite b m e => inr (inr (b, m, e))
  end.
Definition sum_double (s : (bool + bool) + (unit + bool * positive * Z)) : double :=
  match s with
  | inl (inl b) => S754_zero b
  | inl (inr b) => S754_infinity b
  | inr (inl _) => S754_nan
  | inr (inr (b, m, e)) => S754_finite b m e
  end.
#[export] Instance double_countable : Countable spec_float.
Proof. refine (inj_countable' double_sum sum_double _). by intros []. Defined.

Abbreviation leaf := (bool + Z + (double + str))%type.
Abbreviation value := (gen_tree leaf).

Fixpoint flatten (l : list (str * value)) : list value :=
  match l with [] => [] | (k, v) :: l => GenLeaf (inr (inr k)) :: v :: flatten l end.
Fixpoint pairs (l : list value) : list (str * value) :=
  match l with
  | GenLeaf (inr (inr k)) :: v :: l => (k, v) :: pairs l
  | _ => []
  end.

Lemma pairs_flatten l : pairs (flatten l) = l.
Proof. induction l as [|[k v] l IH]; cbn; [done|]. by rewrite IH. Qed.

Definition get_double_of (v : value) : option double :=
  match v with GenLeaf (inr (inl d)) => Some d | GenLeaf (inl (inr z)) => Some (d_of_Z z) | _ => None end.

Definition json : Json := {|
  jv := value; jnull := GenNode 0 []; jbool b := GenLeaf (inl (inl b)); jint z := GenLeaf (inl (inr z));
  jdouble d := GenLeaf (inr (inl d)); jstr s := GenLeaf (inr (inr s)); jarr l := GenNode 1 l;
  jobj m := GenNode 2 (flatten (map_to_list m));
  is_null v := match v with GenNode 0 [] => true | _ => false end;
  is_number v := match v with GenLeaf (inl (inr _)) | GenLeaf (inr (inl _)) => true | _ => false end;
  is_array v := match v with GenNode 1 _ => true | _ => false end;
  members v := match v with GenNode 2 l => Some (list_to_map (pairs l)) | _ => None end;
  items v := match v with GenNode 1 l => l | GenNode 2 l => snd <$> pairs l | GenLeaf _ => [v] | _ => [] end;
  get_string v := match v with GenLeaf (inr (inr s)) => Some s | _ => None end;
  get_bool v := match v with GenLeaf (inl (inl b)) => Some b | _ => None end;
  get_int v := match v with GenLeaf (inl (inr z)) => Some z | _ => None end;
  get_int64 v := match v with GenLeaf (inl (inr z)) => Some z | _ => None end;
  get_double := get_double_of;
|}.

Lemma tree_json_ok : @JsonOk json.
Proof.
  split; try done; cbn.
  - intros j. destruct j as [|[|?] [|]]; naive_solver.
  - intros [[[]|[]]|]; naive_solver.
  - intros [[[]|[]]|]; naive_solver.
  - intros m. by rewrite pairs_flatten, list_to_map_to_list.
Qed.

(** A positive number as its bits, lowest first. *)
Fixpoint bits (p : positive) : str :=
  match p with xH => ["1"%char] | xO p => "0"%char :: bits p | xI p => "1"%char :: bits p end.
Fixpoint of_bits (s : str) : option positive :=
  match s with
  | [] => None
  | [c] => if bool_decide (c = "1"%char) then Some xH else None
  | c :: s => p ← of_bits s; Some (if bool_decide (c = "1"%char) then xI p else xO p)
  end.

Lemma bits_ne p : bits p <> [].
Proof. by destruct p. Qed.

Lemma of_bits_bits p : of_bits (bits p) = Some p.
Proof.
  induction p as [p IH|p IH|]; [| |done]; cbn [bits]; pose proof (bits_ne p);
    destruct (bits p) as [|c s] eqn:E; try done; cbn [of_bits];
    change (match s with [] => _ | _ => _ end) with (of_bits (c :: s)); by rewrite IH.
Qed.

Definition write (v : value) : str := bits (encode v).
Definition read (s : str) : option value := p ← of_bits s; decode p.

Lemma read_write v : read (write v) = Some v.
Proof. unfold read, write. rewrite of_bits_bits. apply decode_encode. Qed.

Lemma bits_line p : free_of eol (bits p).
Proof.
  unfold free_of. induction p; cbn; rewrite ?not_elem_of_cons; repeat split; try done; apply not_elem_of_nil.
Qed.

(** Blank text has no one in it. *)
Lemma read_blank s : forallb trim_ws s = true -> read s = None.
Proof.
  intros Hs. unfold read. assert (of_bits s = None) as ->; [|done].
  induction s as [|c s IH]; [done|]. cbn [forallb] in Hs. apply andb_true_iff in Hs as [Hc Hs].
  destruct s as [|d s].
  - cbn. case_bool_decide as E; [|done]. by subst.
  - cbn [of_bits]. change (match s with [] => _ | _ => _ end) with (of_bits (d :: s)). by rewrite (IH Hs).
Qed.

Definition msgpack : @MsgPack json := {| to_msgpack := write : @jv json -> str; from_msgpack := read |}.
Lemma msgpack_ok : @MsgPackOk json msgpack.
Proof. exact read_write. Qed.

(** Text: what has no notation becomes [null]. *)
Fixpoint scrub (v : value) : value :=
  match v with
  | GenLeaf (inr (inl d)) => if finite_double d then v else GenNode 0 []
  | GenLeaf _ => v
  | GenNode n l => GenNode n (List.map scrub l)
  end.

Lemma scrub_list l : Forall (fun v => scrub v = v) l -> List.map scrub l = l.
Proof. induction 1 as [|v l Hv _ IH]; [done|]. cbn. by rewrite Hv, IH. Qed.

Lemma scrub_flatten (l : list (str * value)) : Forall (fun kv => scrub kv.2 = kv.2) l -> List.map scrub (flatten l) = flatten l.
Proof. induction 1 as [|[k v] l Hv _ IH]; [done|]. cbn in *. by rewrite Hv, IH. Qed.

Definition text : @JsonText json :=
  {| json_dump := (fun v => Some (write (scrub v))) : @jv json -> _; json_parse := read;
     json_exact := (fun v => scrub v = v) : @jv json -> Prop |}.
Lemma text_ok : @JsonTextOk json text.
Proof.
  split; try done.
  - cbn. intros d Hd. by rewrite Hd.
  - cbn. intros l Hl. by rewrite scrub_list.
  - cbn. intros m Hm. rewrite scrub_flatten; [done|]. apply Forall_forall. intros [k v] Hk.
    apply elem_of_map_to_list in Hk. exact (Hm k v Hk).
  - intros j s Hj [= <-]. cbn in Hj. rewrite Hj. apply read_write.
  - apply read_blank.
  - intros j s [= <-]. split; [apply bits_ne|apply bits_line].
Qed.
End TreeJson.
