(* ===== verification/Attest.v ===== *)
(** * Evidence-pack signing: [libs/attest]

    - [dsse.cpp]: the base64 codec, the DSSE pre-authentication encoding
      ([pae]) and the envelope;
    - [statement.cpp]: [validate] of an in-toto Statement, its JSON and the
      text that is signed ([serialise_for_signing]);
    - [signing.cpp]: [sign_statement] and [verify_envelope].

    The JSON library and the Ed25519 primitives are outside the sources
    (nlohmann::json, libsodium): they are the classes of [Json] and [JsonText]
    and [Ed25519], with the documented law that a signature made with a key
    verifies under its public half.  Writing a statement throws on text that
    is not UTF-8, and then nothing is signed: [sign_statement] is [None].

    The theorems: decoding inverts encoding for every byte string; [pae] is
    injective, so a signature binds one payload type and one payload; a
    signed statement verifies and yields exactly the signed bytes, from which
    the statement can be read; what
    [verify_envelope] returns is authenticated by one of the signatures; the
    decoder ignores everything after the first padding or blank byte. *)

From Stdlib Require Import ZArith Ascii String Lia.
From stdpp Require Import base list gmap strings.
From S2P Require Import Prelude CxxString Json JsonObjects JsonText.
Local Open Scope Z_scope.

(** ** Base64 *)

Definition kBase64Alphabet : str :=
  lit "ABCDEFGHIJKLMNOPQRSTUVWXYZabcdefghijklmnopqrstuvwxyz0123456789+/".

(** [base64_index_table()]: all entries -1, then the index of each letter. *)
Definition base64_index_table : list Z :=
  foldl (fun table '(i, c) => <[Z.to_nat (code c) := Z.of_nat i]> table)
    (replicate 256 (-1)) (imap pair kBase64Alphabet).

Definition kBase64Lookup : list Z := Eval vm_compute in base64_index_table.

(** [kBase64Lookup[static_cast<unsigned char>(c)]] *)
Definition lookup64 (c : ascii) : Z := nth (Z.to_nat (code c)) kBase64Lookup (-1).

(** [kBase64Alphabet[i]] for an index already masked to six bits. *)
Definition letter (i : Z) : ascii := nth (Z.to_nat i) kBase64Alphabet "000"%char.

Fixpoint base64_encode (data : str) : str :=
  match data with
  | [] => []
  | [a] =>
      let v := Z.shiftl (code a) 16 in
      [letter (Z.land (Z.shiftr v 18) 63); letter (Z.land (Z.shiftr v 12) 63); "="%char; "="%char]
  | [a; b] =>
      let v := Z.lor (Z.shiftl (code a) 16) (Z.shiftl (code b) 8) in
      [letter (Z.land (Z.shiftr v 18) 63); letter (Z.land (Z.shiftr v 12) 63);
       letter (Z.land (Z.shiftr v 6) 63); "="%char]
  | a :: b :: c :: rest =>
      let v := Z.lor (Z.lor (Z.shiftl (code a) 16) (Z.shiftl (code b) 8)) (code c) in
      letter (Z.land (Z.shiftr v 18) 63) :: letter (Z.land (Z.shiftr v 12) 63)
        :: letter (Z.land (Z.shiftr v 6) 63) :: letter (Z.land v 63) :: base64_encode rest
  end.

Record DsseError : Type := mkDsseError { dsse_message : str }.

Definition stops_decoder (c : ascii) : bool :=
  bool_decide (c = "="%char) || bool_decide (c = "010"%char)
  || bool_decide (c = "013"%char) || bool_decide (c = " "%char).

(** The decoding loop: a 32-bit [buffer] holding [bits] unread bits. *)
Fixpoint decode_loop (encoded : str) (buffer bits : Z) (out : str) : expected str DsseError :=
  match encoded with
  | [] => Ok out
  | c :: rest =>
      if stops_decoder c then Ok out
      else
        let v := lookup64 c in
        if v <? 0 then Unexpected (mkDsseError (lit "base64: invalid character"))
        else
          let buffer := u32 (Z.lor (Z.shiftl buffer 6) v) in
          let bits := bits + 6 in
          if 8 <=? bits then
            let bits := bits - 8 in
            decode_loop rest buffer bits (out ++ [chr (Z.land (Z.shiftr buffer bits) 255)])
          else decode_loop rest buffer bits out
  end.

Definition base64_decode (encoded : str) : expected str DsseError := decode_loop encoded 0 0 [].

(** ** Pre-authentication encoding *)

Definition pae (payload_type payload : str) : str :=
  lit "DSSEv1" ++ [" "%char] ++ to_string_nat (length payload_type) ++ [" "%char]
  ++ payload_type ++ [" "%char] ++ to_string_nat (length payload) ++ [" "%char] ++ payload.

(** ** Envelopes and statements *)

Record Signature : Type := mkSignature { s_keyid : str; s_sig : str }.

Record Envelope : Type := mkEnvelope {
  env_payload_type : str;
  env_payload : str;
  env_signatures : list Signature;
}.

Definition kDsseInTotoPayloadType : str := lit "application/vnd.in-toto+json".

(** [digest] lists the bindings of the unordered map in iteration order. *)
Record Subject : Type := mkSubject { sub_name : str; sub_digest : list (str * str) }.

Record Statement (J : Type) : Type := mkStatement {
  st_subjects : list Subject;
  st_predicate_type : str;
  st_predicate : J;
}.
Arguments mkStatement {J} _ _ _.
Arguments st_subjects {J} _.
Arguments st_predicate_type {J} _.
Arguments st_predicate {J} _.

Record StatementError : Type := mkStatementError { st_message : str }.
Record SigningError : Type := mkSigningError { sign_message : str }.

Definition isxdigit (c : ascii) : bool := isdigit c || between "a" c "f" || between "A" c "F".

Fixpoint validate_digest (d : list (str * str)) : expected unit StatementError :=
  match d with
  | [] => Ok tt
  | (alg, value) :: d =>
      if bool_decide (alg = []) || bool_decide (value = []) then
        Unexpected (mkStatementError
          (lit "Subject digest algorithm and value must both be non-empty"))
      else if negb (forallb isxdigit value) then
        Unexpected (mkStatementError (lit "Subject digest value must be hex-encoded"))
      else validate_digest d
  end.

Fixpoint validate_subjects (subjects : list Subject) : expected unit StatementError :=
  match subjects with
  | [] => Ok tt
  | subj :: subjects =>
      if bool_decide (sub_name subj = []) then
        Unexpected (mkStatementError (lit "Subject `name` must be non-empty"))
      else if bool_decide (sub_digest subj = []) then
        Unexpected (mkStatementError (lit "Subject `digest` must contain at least one entry"))
      else let? _ := validate_digest (sub_digest subj) in validate_subjects subjects
  end.

Definition validate {J} (s : Statement J) : expected unit StatementError :=
  if bool_decide (st_subjects s = []) then
    Unexpected (mkStatementError (lit "Statement must contain at least one subject"))
  else
  let? _ := validate_subjects (st_subjects s) in
  if bool_decide (st_predicate_type s = []) then
    Unexpected (mkStatementError (lit "Statement.predicateType must be non-empty"))
  else if bool_decide (find_char ":" (st_predicate_type s) = None) then
    Unexpected (mkStatementError (lit "Statement.predicateType must be a URI"))
  else Ok tt.

(** ** Signing *)

(** Ed25519 as the sources use it ([euxis::crypto::sign] / [verify], thin
    wrappers of libsodium): 64-byte signatures that verify under the public
    key of the signing key. *)
Class Ed25519 (PK SK : Type) : Type := {
  ed_sign : SK -> str -> str;
  ed_verify : PK -> str -> str -> bool;
  ed_public : SK -> PK;
  ed_sign_length : forall sk m, length (ed_sign sk m) = 64%nat;
  ed_sign_verify : forall sk m, ed_verify (ed_public sk) m (ed_sign sk m) = true;
}.

Definition kStatementType : str := lit "https://in-toto.io/Statement/v1".

Section signing.
  Context `{JsonText} {PK SK : Type} `{Ed25519 PK SK}.

Definition digest_to_json (d : list (str * str)) : jv :=
  jobj (foldl (fun m kv => <[kv.1 := jstr kv.2]> m) ∅ d).
Definition subject_to_json (s : Subject) : jv :=
  object [(lit "name", jstr (sub_name s)); (lit "digest", digest_to_json (sub_digest s))].
Definition statement_to_json (s : Statement jv) : jv :=
  object [(lit "_type", jstr kStatementType); (lit "predicateType", jstr (st_predicate_type s));
          (lit "predicate", st_predicate s); (lit "subject", jarr (subject_to_json <$> st_subjects s))].
Definition serialise_for_signing (s : Statement jv) : option str := json_dump (statement_to_json s).

Definition sign_statement (statement : Statement jv) (secret_key : SK) (keyid : str) :
    option (expected Envelope SigningError) :=
  match validate statement with
  | Unexpected e =>
      Some (Unexpected (mkSigningError (lit "Statement validation: " ++ st_message e)))
  | Ok _ =>
      payload_str ← serialise_for_signing statement;
      let pae_bytes := pae kDsseInTotoPayloadType payload_str in
      let sig_bytes := ed_sign secret_key pae_bytes in
      Some (Ok (mkEnvelope kDsseInTotoPayloadType (base64_encode payload_str)
                  [mkSignature keyid (base64_encode sig_bytes)]))
  end.

(** One turn of the loop over the signatures: is this one valid? *)
Definition signature_ok (public_key : PK) (pae_bytes : str) (sig : Signature) : bool :=
  match base64_decode (s_sig sig) with
  | Unexpected _ => false
  | Ok sig_dec =>
      if negb (length sig_dec =? 64)%nat then false else ed_verify public_key pae_bytes sig_dec
  end.

Definition verify_envelope (envelope : Envelope) (public_key : PK) :
    expected str SigningError :=
  if bool_decide (env_signatures envelope = []) then
    Unexpected (mkSigningError (lit "Envelope has no signatures"))
  else
  match base64_decode (env_payload envelope) with
  | Unexpected e =>
      Unexpected (mkSigningError (lit "payload base64 decode: " ++ dsse_message e))
  | Ok payload_dec =>
      let pae_bytes := pae (env_payload_type envelope) payload_dec in
      if existsb (signature_ok public_key pae_bytes) (env_signatures envelope)
      then Ok payload_dec
      else Unexpected (mkSigningError
             (lit "No valid signature found for the supplied public key"))
  end.

End signing.

(** ** Base64: lemmas *)

Lemma lookup_letter i : 0 <= i < 64 -> lookup64 (letter i) = i.
Proof.
  intros Hi. assert (forallb (fun n => lookup64 (letter (Z.of_nat n)) =? Z.of_nat n)
    (seq 0 64) = true) as H by by vm_compute.
  rewrite forallb_forall in H. specialize (H (Z.to_nat i)).
  rewrite Z2Nat.id in H by lia. apply Z.eqb_eq, H.
  apply in_seq. lia.
Qed.

Lemma letter_not_stop i : 0 <= i < 64 -> stops_decoder (letter i) = false.
Proof.
  intros Hi. assert (forallb (fun n => negb (stops_decoder (letter (Z.of_nat n))))
    (seq 0 64) = true) as H by by vm_compute.
  rewrite forallb_forall in H. specialize (H (Z.to_nat i)).
  rewrite Z2Nat.id in H by lia. apply negb_true_iff, H. apply in_seq. lia.
Qed.

Lemma land_63 x : Z.land x 63 = x mod 64.
Proof. exact (Z.land_ones x 6 ltac:(lia)). Qed.

Lemma land_255 x : Z.land x 255 = x mod 256.
Proof. exact (Z.land_ones x 8 ltac:(lia)). Qed.

(** The decoder only depends on the [bits] unread bits of the buffer: the same
    loop on that residue, in plain arithmetic. *)
Fixpoint decode_abs (encoded : str) (r bits : Z) (out : str) : expected str DsseError :=
  match encoded with
  | [] => Ok out
  | c :: rest =>
      if stops_decoder c then Ok out
      else if lookup64 c <? 0 then Unexpected (mkDsseError (lit "base64: invalid character"))
      else
        let r := r * 64 + lookup64 c in
        if 8 <=? bits + 6 then
          decode_abs rest (r mod 2 ^ (bits - 2)) (bits - 2) (out ++ [chr (r / 2 ^ (bits - 2))])
        else decode_abs rest r (bits + 6) out
  end.

Lemma lookup64_range c : -1 <= lookup64 c < 64.
Proof.
  assert (((-1 <=? lookup64 c) && (lookup64 c <? 64)) = true) as H; [|bool_to_prop; lia].
  revert c. apply byte_case. by vm_compute.
Qed.

Lemma buffer_residue b v k :
  0 <= k <= 26 -> 0 <= v < 64 ->
  u32 (Z.lor (Z.shiftl b 6) v) mod 2 ^ (k + 6) = b mod 2 ^ k * 64 + v.
Proof.
  intros Hk Hv. rewrite lor_shiftl_add by lia. unfold u32.
  rewrite <- Znumtheory.Zmod_div_mod;
    [|apply Z.pow_pos_nonneg; lia|lia|
      exists (2 ^ (32 - (k + 6))); rewrite <- Z.pow_add_r by lia; f_equal; lia].
  pose proof (Z.pow_pos_nonneg 2 k ltac:(lia) ltac:(lia)) as Hp.
  rewrite Z.pow_add_r by lia. change (2 ^ 6) with 64.
  symmetry. apply (Z.mod_unique _ _ (b / 2 ^ k)).
  - left. pose proof (Z.mod_pos_bound b (2 ^ k) Hp). nia.
  - pose proof (Z.div_mod b (2 ^ k) ltac:(lia)). nia.
Qed.

Lemma decode_loop_abs encoded buffer bits out :
  0 <= bits < 8 ->
  decode_loop encoded buffer bits out = decode_abs encoded (buffer mod 2 ^ bits) bits out.
Proof.
  revert buffer bits out. induction encoded as [|c rest IH]; intros buffer bits out Hb; [done|].
  cbn [decode_loop decode_abs]. destruct (stops_decoder c); [done|].
  destruct (lookup64 c <? 0) eqn:Hv; [done|]. apply Z.ltb_ge in Hv.
  pose proof (lookup64_range c) as Hr.
  pose proof (buffer_residue buffer (lookup64 c) bits ltac:(lia) ltac:(lia)) as Hres.
  set (buf := u32 _) in *. destruct (8 <=? bits + 6) eqn:H8; bool_to_prop.
  - replace (bits + 6 - 8) with (bits - 2) by lia. rewrite IH by lia. rewrite <- Hres.
    replace (bits + 6) with ((bits - 2) + 8) by lia.
    pose proof (Z.pow_pos_nonneg 2 (bits - 2) ltac:(lia) ltac:(lia)) as Hp.
    rewrite land_255, Z.shiftr_div_pow2 by lia.
    rewrite Z.pow_add_r by lia. change (2 ^ 8) with 256.
    f_equal; [|do 3 f_equal; apply mod_mul_div; lia].
    symmetry. apply mod_mul_mod; lia.
  - rewrite IH by lia. by rewrite Hres.
Qed.

Lemma decode_abs_letter i rest r bits out :
  0 <= i < 64 ->
  decode_abs (letter i :: rest) r bits out =
  if 8 <=? bits + 6 then
    decode_abs rest ((r * 64 + i) mod 2 ^ (bits - 2)) (bits - 2)
      (out ++ [chr ((r * 64 + i) / 2 ^ (bits - 2))])
  else decode_abs rest (r * 64 + i) (bits + 6) out.
Proof.
  intros Hi. cbn [decode_abs]. rewrite letter_not_stop, lookup_letter by done.
  by rewrite (proj2 (Z.ltb_ge i 0)) by lia.
Qed.

(** A full group of four letters yields the three bytes it encodes. *)
Lemma decode_group a b c rest out :
  let v := Z.lor (Z.lor (Z.shiftl (code a) 16) (Z.shiftl (code b) 8)) (code c) in
  decode_abs
    (letter (Z.land (Z.shiftr v 18) 63) :: letter (Z.land (Z.shiftr v 12) 63)
     :: letter (Z.land (Z.shiftr v 6) 63) :: letter (Z.land v 63) :: rest) 0 0 out
  = decode_abs rest 0 0 (out ++ [a; b; c]).
Proof.
  pose proof (code_range a). pose proof (code_range b). pose proof (code_range c). intros v.
  assert (v = code a * 65536 + code b * 256 + code c) as ->.
  { subst v. rewrite (Z.shiftl_mul_pow2 (code b) 8), (lor_shiftl_add (code a)) by lia.
    change (2 ^ 16) with (2 ^ 8 * 2 ^ 8).
    replace (code a * (2 ^ 8 * 2 ^ 8) + code b * 2 ^ 8)
      with (Z.shiftl (code a * 256 + code b) 8) by (rewrite Z.shiftl_mul_pow2; lia).
    rewrite lor_shiftl_add; lia. }
  rewrite !land_63, !Z.shiftr_div_pow2 by lia.
  change (2 ^ 18) with 262144. change (2 ^ 12) with 4096. change (2 ^ 6) with 64.
  rewrite !decode_abs_letter by (apply Z.mod_pos_bound; lia). cbn -[Z.mul Z.add Z.div Z.modulo].
  assert (forall x y, x = code y -> chr x = y) as Hchr by (intros; subst; apply chr_code).
  rewrite <- !app_assoc. cbn [app].
  f_equal.
  - apply Z.mod_1_r.
  - f_equal. f_equal; [|f_equal; [|f_equal]]; apply Hchr; rewrite ?Z.div_1_r;
      Z.div_mod_to_equations; lia.
Qed.

Lemma decode_tail1 a out :
  decode_abs (base64_encode [a]) 0 0 out = Ok (out ++ [a]).
Proof.
  pose proof (code_range a). unfold base64_encode.
  rewrite (Z.shiftl_mul_pow2 (code a)), !land_63, !Z.shiftr_div_pow2 by lia.
  change (2 ^ 16) with 65536. change (2 ^ 18) with 262144. change (2 ^ 12) with 4096.
  rewrite !decode_abs_letter by (apply Z.mod_pos_bound; lia). cbn -[Z.mul Z.add Z.div Z.modulo].
  do 3 f_equal. rewrite <- (chr_code a) at 3. f_equal. Z.div_mod_to_equations; lia.
Qed.

Lemma decode_tail2 a b out :
  decode_abs (base64_encode [a; b]) 0 0 out = Ok (out ++ [a; b]).
Proof.
  pose proof (code_range a). pose proof (code_range b). unfold base64_encode.
  rewrite (Z.shiftl_mul_pow2 (code b)), lor_shiftl_add by lia.
  rewrite !land_63, !Z.shiftr_div_pow2 by lia.
  change (2 ^ 16) with 65536. change (2 ^ 18) with 262144. change (2 ^ 12) with 4096.
  change (2 ^ 8) with 256. change (2 ^ 6) with 64.
  rewrite !decode_abs_letter by (apply Z.mod_pos_bound; lia). cbn -[Z.mul Z.add Z.div Z.modulo].
  assert (forall x y, x = code y -> chr x = y) as Hchr by (intros; subst; apply chr_code).
  rewrite <- !app_assoc. cbn [app]. do 2 f_equal.
  f_equal; [|f_equal]; apply Hchr; Z.div_mod_to_equations; lia.
Qed.

(** Induction three bytes at a time, as the encoder's loop advances. *)
Lemma triples_ind (P : str -> Prop) :
  P [] -> (forall a, P [a]) -> (forall a b, P [a; b]) ->
  (forall a b c rest, P rest -> P (a :: b :: c :: rest)) -> forall d, P d.
Proof.
  intros H0 H1 H2 H3. fix IH 1. intros [|a [|b [|c rest]]];
    [apply H0|apply H1|apply H2|apply H3, IH].
Qed.

Lemma decode_abs_encode d out : decode_abs (base64_encode d) 0 0 out = Ok (out ++ d).
Proof.
  revert out. induction d as [|a|a b|a b c rest IH] using triples_ind; intros out.
  - by rewrite app_nil_r.
  - apply decode_tail1.
  - apply decode_tail2.
  - cbn [base64_encode]. rewrite decode_group, IH, <- app_assoc. done.
Qed.

Lemma decode_encode64 d : base64_decode (base64_encode d) = Ok d.
Proof. unfold base64_decode. rewrite decode_loop_abs by lia. apply decode_abs_encode. Qed.

(** ** Pre-authentication encoding: lemmas *)

Lemma split_at_space (a a' b b' : str) :
  free_of " " a -> free_of " " a' -> a ++ " "%char :: b = a' ++ " "%char :: b' -> a = a' /\ b = b'.
Proof.
  intros Ha Ha' Heq. pose proof (find_char_hit " " a b Ha) as H1.
  pose proof (find_char_hit " " a' b' Ha') as H2. rewrite Heq, H2 in H1.
  injection H1 as Hlen. apply app_inj_1 in Heq as [-> Hb]; [|done]. by injection Hb.
Qed.

Lemma pae_unfold t p :
  pae t p = lit "DSSEv1 " ++ to_string_nat (length t) ++ " "%char :: t
            ++ " "%char :: to_string_nat (length p) ++ " "%char :: p.
Proof. done. Qed.

Lemma pae_injective t p t' p' : pae t p = pae t' p' -> t = t' /\ p = p'.
Proof.
  rewrite !pae_unfold. intros H. apply app_inj_1 in H as [_ H]; [|done].
  apply split_at_space in H as [Hlen H]; [|by apply to_string_nat_free..].
  apply to_string_nat_inj in Hlen. apply app_inj_1 in H as [-> H]; [|done].
  injection H as H. apply split_at_space in H as [_ ->]; [done|by apply to_string_nat_free..].
Qed.

(** ** Theorems *)

(** Base64 decoding inverts base64 encoding on every byte string, padding
    and 32-bit buffer wrap-around included. *)
Lemma base64_roundtrip d : base64_decode (base64_encode d) = Ok d.
Proof. apply decode_encode64. Qed.

(** The pre-authentication encoding is injective in the payload type and
    the payload together. *)
Lemma pae_inj t p t' p' : pae t p = pae t' p' <-> (t, p) = (t', p').
Proof.
  split; [|by intros [= -> ->]]. intros H. by destruct (pae_injective _ _ _ _ H) as [-> ->].
Qed.

(** Decoding stops silently at the first padding, newline or blank byte:
    whatever follows it is neither decoded nor rejected. *)
Lemma base64_decode_truncates s c t :
  stops_decoder c = true -> base64_decode (s ++ c :: t) = base64_decode s.
Proof.
  intros Hc. unfold base64_decode. generalize 0 at 1 3. generalize 0. generalize (@nil ascii).
  induction s as [|d s IH]; intros out bits buffer; cbn [app decode_loop].
  - by rewrite Hc.
  - destruct (stops_decoder d); [done|]. destruct (lookup64 d <? 0); [done|].
    destruct (8 <=? bits + 6); apply IH.
Qed.

Lemma base64_decode_truncates_witness :
  base64_decode (lit "QUJD" ++ "010"%char :: lit "!!not base64!!") = Ok (lit "ABC").
Proof.
  rewrite (base64_decode_truncates (lit "QUJD") "010" (lit "!!not base64!!"));
    by vm_compute.
Defined.

Section signing_theorems.
  Context `{JsonTextOk} {PK SK : Type} `{Ed25519 PK SK}.

Lemma digest_exact d : json_exact (digest_to_json d).
Proof.
  unfold digest_to_json. assert (forall m : gmap str jv, map_Forall (fun _ => json_exact) m ->
    map_Forall (fun _ => json_exact) (foldl (fun m (kv : str * str) => <[kv.1 := jstr kv.2]> m) m d)) as Hf.
  { induction d as [|kv d IH]; intros m Hm; [done|]. apply IH. apply map_Forall_insert_2; [apply exact_str|done]. }
  apply exact_obj, Hf, map_Forall_empty.
Qed.

Lemma statement_exact st : json_exact (st_predicate st) -> json_exact (statement_to_json st).
Proof.
  intros Hp. unfold statement_to_json. exact_json; [done|]. apply exact_list. intros s _. unfold subject_to_json.
  exact_json. apply digest_exact.
Qed.

(** C8: a statement that validates is signed, unless its text cannot be
    written, in which case nothing is: the envelope verifies under the
    signer's public key and yields exactly the serialised statement, from
    which the statement can be read when its predicate has only finite
    numbers.  A statement that does not validate is refused. *)
Theorem sign_then_verify st sk keyid :
  match validate st, serialise_for_signing st with
  | Unexpected e, _ => sign_statement st sk keyid = Some (Unexpected (mkSigningError (lit "Statement validation: " ++ st_message e)))
  | Ok _, None => sign_statement st sk keyid = None
  | Ok _, Some payload =>
      exists env, sign_statement st sk keyid = Some (Ok env) /\ verify_envelope env (ed_public sk) = Ok payload /\
        (json_exact (st_predicate st) -> json_parse payload = Some (statement_to_json st))
  end.
Proof.
  unfold sign_statement. destruct (validate st) as [u|e]; [|done].
  destruct (serialise_for_signing st) as [payload|] eqn:Es; [|done]. eexists. split; [done|]. split.
  - unfold verify_envelope. cbn [env_signatures env_payload env_payload_type].
    rewrite bool_decide_false, decode_encode64 by done. cbn [existsb].
    unfold signature_ok. cbn [s_sig]. rewrite decode_encode64, ed_sign_length, ed_sign_verify. done.
  - intros Hp. exact (parse_dump _ _ (statement_exact st Hp) Es).
Qed.

(** C7: an accepted payload is the decoded payload of the envelope and is
    authenticated: some signature of the envelope decodes to 64 bytes that
    verify over the payload's pre-authentication encoding. *)
Theorem verify_authentic env (pk : PK) payload :
  verify_envelope env pk = Ok payload ->
  base64_decode (env_payload env) = Ok payload
  /\ exists sig bytes, sig ∈ env_signatures env /\ base64_decode (s_sig sig) = Ok bytes
       /\ length bytes = 64%nat /\ ed_verify pk (pae (env_payload_type env) payload) bytes = true.
Proof.
  unfold verify_envelope. case_bool_decide; [done|].
  destruct (base64_decode (env_payload env)) as [dec|]; [|done].
  destruct (existsb _ _) eqn:Hex; [|done]. intros [= <-]. split; [done|].
  apply existsb_exists in Hex as (sig & Hin & Hok). exists sig. unfold signature_ok in Hok.
  destruct (base64_decode (s_sig sig)) as [bytes|]; [|done]. exists bytes.
  destruct (length bytes =? 64)%nat eqn:E; [|done]. apply Nat.eqb_eq in E.
  by rewrite list_elem_of_In.
Qed.

(** The order of the signatures does not matter to the verifier. *)
Lemma verify_order_irrelevant env env' (pk : PK) :
  env_payload_type env = env_payload_type env' -> env_payload env = env_payload env' ->
  env_signatures env ≡ₚ env_signatures env' ->
  verify_envelope env pk = verify_envelope env' pk.
Proof.
  intros Ht Hp Hs. unfold verify_envelope. rewrite Ht, Hp.
  rewrite (bool_decide_ext _ (env_signatures env' = [])).
  2: { split; intros E; rewrite E in Hs; [by apply Permutation_nil|by apply Permutation_nil_r]. }
  destruct (base64_decode (env_payload env')) as [dec|]; [|done].
  assert (forall f, existsb f (env_signatures env) = existsb f (env_signatures env')) as ->;
    [|done].
  intros f. apply eq_iff_eq_true. rewrite !existsb_exists.
  by setoid_rewrite <- list_elem_of_In; setoid_rewrite Hs.
Qed.

End signing_theorems.

(** ** Witnesses

    A toy signature scheme: the signature is the padded first 64 bytes. *)

Definition toy_sign (m : str) : str := take 64 (m ++ replicate 64 "0"%char).

#[export] Program Instance toy_ed25519 : Ed25519 unit unit := {
  ed_sign _ m := toy_sign m;
  ed_verify _ m s := bool_decide (s = toy_sign m);
  ed_public sk := sk;
}.
Next Obligation.
  intros sk m. unfold toy_sign. rewrite length_take, length_app, length_replicate. lia.
Qed.
Next Obligation. intros sk m. by apply bool_decide_true. Qed.

Definition sample_statement : Statement (@jv TreeJson.json) :=
  mkStatement [mkSubject (lit "evidence.tar.gz") [(lit "sha256", lit "00ff")]]
    (lit "https://slsa.dev/provenance/v1") (@jint TreeJson.json 1).

Lemma sign_then_verify_witness :
  exists env payload, @sign_statement TreeJson.json TreeJson.text unit unit _ sample_statement tt (lit "k") = Some (Ok env) /\
    verify_envelope env (ed_public tt) = Ok payload /\
    @json_parse _ TreeJson.text payload = Some (@statement_to_json TreeJson.json sample_statement).
Proof.
  pose proof (@sign_then_verify TreeJson.json TreeJson.text TreeJson.text_ok unit unit _ sample_statement tt (lit "k")) as Hs.
  assert (validate sample_statement = Ok tt) as Hv by (vm_compute; reflexivity). rewrite Hv in Hs.
  destruct (@serialise_for_signing TreeJson.json TreeJson.text sample_statement) as [payload|] eqn:E; [|discriminate E].
  destruct Hs as (env & He & Hverify & Hread). exists env, payload. split; [exact He|]. split; [exact Hverify|].
  apply Hread. reflexivity.
Defined.

Definition sample_envelope : Envelope :=
  mkEnvelope kDsseInTotoPayloadType (base64_encode (lit "{}"))
    [mkSignature (lit "bad") (lit "AAAA");
     mkSignature (lit "good") (base64_encode (toy_sign (pae kDsseInTotoPayloadType (lit "{}"))))].

Lemma verify_authentic_witness :
  base64_decode (env_payload sample_envelope) = Ok (lit "{}")
  /\ exists sig bytes, sig ∈ env_signatures sample_envelope
       /\ base64_decode (s_sig sig) = Ok bytes /\ length bytes = 64%nat
       /\ ed_verify tt (pae (env_payload_type sample_envelope) (lit "{}")) bytes = true.
Proof. apply (verify_authentic sample_envelope tt (lit "{}")). by vm_compute. Defined.

Lemma verify_order_irrelevant_witness :
  verify_envelope sample_envelope tt
  = verify_envelope (mkEnvelope (env_payload_type sample_envelope) (env_payload sample_envelope)
      (rev (env_signatures sample_envelope))) tt.
Proof.
  apply verify_order_irrelevant; [done..|]. simpl. apply Permutation_swap.
Defined.
