(* ===== verification/Numbers.v ===== *)
(** * Numbers in text: [std::stoi] and [std::stod]

    The conversions of the standard library the sources use.  Both skip white
    space, read the longest prefix that is a number and ignore what follows;
    [None] stands for the exceptions [invalid_argument] and [out_of_range]. *)

From Stdlib Require Import ZArith Ascii String Lia SpecFloat.
From stdpp Require Import base list strings pretty.
From S2P Require Import Prelude CxxString Doubles Json.

Fixpoint skip_space (s : str) : str :=
  match s with c :: t => if isspace c then skip_space t else s | [] => [] end.

(** An optional sign. *)
Definition read_sign (s : str) : bool * str :=
  match s with
  | "-"%char :: s => (true, s)
  | "+"%char :: s => (false, s)
  | s => (false, s)
  end.

(** ** Integers *)

Fixpoint read_digits (s : str) (acc : Z) : Z :=
  match s with
  | c :: s => if isdigit c then read_digits s (acc * 10 + (code c - 48))%Z else acc
  | [] => acc
  end.

Definition stoi (s : str) : option Z :=
  let '(neg, s) := read_sign (skip_space s) in
  match s with
  | c :: _ =>
      if isdigit c then
        let v := if neg : bool then (- read_digits s 0)%Z else read_digits s 0 in
        if bool_decide (int32 v) then Some v else None
      else None
  | [] => None
  end.

(** ** Floating point *)

Definition digit_value (base : Z) (c : ascii) : option Z :=
  let v := if isdigit c then (code c - 48)%Z
           else if between "a" (tolower c) "f" then (code (tolower c) - 87)%Z
           else 255%Z in
  if (v <? base)%Z then Some v else None.

(** The digits at the front: their value, their number and what follows. *)
Fixpoint digits (base : Z) (s : str) (acc : Z) (n : nat) : Z * nat * str :=
  match s with
  | c :: t =>
      match digit_value base c with
      | Some v => digits base t (acc * base + v)%Z (S n)
      | None => (acc, n, s)
      end
  | [] => (acc, n, [])
  end.

(** The exponent after [mark], if digits follow it. *)
Definition read_exponent (mark : ascii) (s : str) : Z :=
  match s with
  | c :: s =>
      if bool_decide (tolower c = mark) then
        let '(neg, s) := read_sign s in
        let '(v, _, _) := digits 10 s 0 0 in
        if neg : bool then (- v)%Z else v
      else 0%Z
  | [] => 0%Z
  end.

(** The double nearest to [num / den], with ties to even. *)
Definition nearest (neg : bool) (num : Z) (den : positive) : double :=
  match num with
  | Z.pos p => SFdiv 53 1024 (S754_finite neg p 0) (S754_finite false den 0)
  | _ => S754_zero neg
  end.

(** Is the double [num / den] itself? *)
Definition exactly (d : double) (num : Z) (den : positive) : bool :=
  match d with
  | S754_zero _ => (num =? 0)%Z
  | S754_finite _ m e =>
      if (0 <=? e)%Z then (Z.pos m * 2 ^ e * Z.pos den =? num)%Z
      else (Z.pos m * Z.pos den =? num * 2 ^ (- e))%Z
  | _ => false
  end.

(** Below the normal numbers: their mantissas have fewer than 53 bits. *)
Definition is_tiny (d : double) : bool :=
  match d with
  | S754_zero _ => true
  | S754_finite _ m _ => (Z.pos m <? 2 ^ 52)%Z
  | _ => false
  end.

(** [strtod] reports a range error on overflow and on inexact underflow. *)
Definition in_range (neg : bool) (num : Z) (den : positive) : option double :=
  let d := nearest neg num den in
  match d with
  | S754_infinity _ => None
  | _ => if is_tiny d && negb (exactly d num den) then None else Some d
  end.

(** [m * scale ^ e] *)
Definition scaled (neg : bool) (m scale e : Z) : option double :=
  if (0 <=? e)%Z then in_range neg (m * scale ^ e) 1
  else in_range neg m (Z.to_pos (scale ^ (- e))).

(** A mantissa in the given base with an optional fraction, and its exponent:
    of ten for decimal digits, of two for hexadecimal ones. *)
Definition read_number (neg : bool) (base : Z) (mark : ascii) (s : str) : option (option double) :=
  let '(whole, n, s) := digits base s 0 0 in
  let '(m, k, s) :=
    match s with
    | "."%char :: t =>
        let '(m, k, t') := digits base t whole 0 in
        if (n + k =? 0)%nat then (whole, 0%nat, s) else (m, k, t')
    | _ => (whole, 0%nat, s)
    end in
  if (n + k =? 0)%nat then None
  else
    let e := read_exponent mark s in
    Some (if (base =? 10)%Z then scaled neg m 10 (e - Z.of_nat k)
          else scaled neg m 2 (e - 4 * Z.of_nat k)).

Definition stod (s : str) : option double :=
  let '(neg, s) := read_sign (skip_space s) in
  if starts_with (lit "inf") (lower s) then Some (S754_infinity neg)
  else if starts_with (lit "nan") (lower s) then Some S754_nan
  else
    let decimal := default None (read_number neg 10 "e" s) in
    if starts_with (lit "0x") (lower s) then
      match read_number neg 16 "p" (drop 2 s) with Some r => r | None => decimal end
    else decimal.

(** The text of a value with [n] decimals ([std::fixed] and [setprecision(n)]):
    the nearest decimal, ties to even. *)
Definition round_quotient (num den : Z) : Z :=
  let q := (num / den)%Z in
  match (2 * (num mod den) ?= den)%Z with Lt => q | Gt => (q + 1)%Z | Eq => if Z.even q then q else (q + 1)%Z end.
Definition fixed_digits (n : nat) (q : Z) : str :=
  let p := (10 ^ Z.of_nat n)%Z in
  to_string_Z (q / p) ++ match n with O => [] | _ => lit "." ++ drop 1 (to_string_Z (p + q mod p)) end.
Definition to_fixed (n : nat) (d : double) : str :=
  let sign (s : bool) := if s then lit "-" else [] in
  match d with
  | S754_zero s => sign s ++ fixed_digits n 0
  | S754_infinity s => sign s ++ lit "inf"
  | S754_nan => lit "nan"
  | S754_finite s m e =>
      let num := (Z.pos m * 10 ^ Z.of_nat n)%Z in
      sign s ++ fixed_digits n (if (0 <=? e)%Z then num * 2 ^ e else round_quotient num (2 ^ (- e)))%Z
  end.

(** ** Properties *)

(** Padding, a tie and a negative value that rounds to zero. *)
Lemma to_fixed_examples :
  to_fixed 2 (d_lit 3 4) = lit "0.75" /\ to_fixed 2 (d_lit 1 50) = lit "0.02" /\ to_fixed 2 (d_lit 1 8) = lit "0.12" /\
  to_fixed 1 (d_lit (-1) 100) = lit "-0.0" /\ to_fixed 0 (d_lit 5 2) = lit "2".
Proof. repeat split; reflexivity. Qed.

(** Signs, fractions, exponents, hexadecimal, trailing text and errors. *)
Lemma stod_examples :
  stod (lit " 0.1") = Some (d_lit 1 10) /\ stod (lit "-2.5e1x") = Some (d_of_Z (-25)) /\
  stod (lit "0x1.8p1") = Some (d_of_Z 3) /\ stod (lit ".75") = Some (d_lit 3 4) /\
  stod (lit "1e400") = None /\ stod (lit "score: 1") = None /\
  stod (lit "0x") = Some d_zero /\ stod (lit "-Infinity") = Some (S754_infinity true) /\
  stod (lit "1e") = Some (d_of_Z 1) /\ stod (lit ".") = None /\
  stod (lit "0.7") = Some (d_lit 7 10).
Proof. repeat split; vm_compute; reflexivity. Qed.

(** Decimal digits denote their value in both conversions. *)
Lemma digits_decimal s acc n :
  Forall (fun c => isdigit c = true) s ->
  digits 10 s acc n = (read_digits s acc, (n + length s)%nat, []).
Proof.
  intros Hs. revert acc n. induction Hs as [|c s Hc Hs IH]; intros acc n; cbn [digits read_digits length].
  - by rewrite Nat.add_0_r.
  - unfold digit_value. rewrite Hc.
    assert ((code c - 48 <? 10)%Z = true) as ->.
    { apply Z.ltb_lt. unfold isdigit, between in Hc. apply andb_true_iff in Hc as [_ Hc%Z.leb_le].
      change (code "9"%char) with 57%Z in Hc. lia. }
    rewrite IH. by rewrite Nat.add_succ_comm.
Qed.

(** ** Reading back what [std::to_string] writes *)

Lemma code_pretty_digit x : (x < 10)%N -> (code (pretty_N_char x) - 48)%Z = Z.of_N x.
Proof.
  intros Hx. assert (x ∈ [0; 1; 2; 3; 4; 5; 6; 7; 8; 9]%N) as Hin by (rewrite !elem_of_cons; lia).
  repeat (apply elem_of_cons in Hin as [->|Hin]; [reflexivity|]). by apply elem_of_nil in Hin.
Qed.

Lemma read_pretty_go x s t : (0 < x)%N -> read_digits (lit (pretty_N_go x s) ++ t) 0 = read_digits (lit s ++ t) (Z.of_N x).
Proof.
  revert s. induction (N.lt_wf_0 x) as [x _ IH]; intros s Hx. rewrite pretty_N_go_step by done.
  assert (forall a, read_digits (lit (String (pretty_N_char (x mod 10)) s) ++ t) a = read_digits (lit s ++ t) (a * 10 + Z.of_N (x mod 10))) as Hd.
  { intros a. cbn. rewrite pretty_N_char_digit by (apply N.mod_lt; lia). by rewrite code_pretty_digit by (apply N.mod_lt; lia). }
  pose proof (N.div_mod x 10 ltac:(lia)) as Hdm. destruct (decide (x / 10 = 0)%N) as [E|E].
  - rewrite E, pretty_N_go_0, Hd. f_equal. rewrite E in Hdm. lia.
  - assert (x / 10 < x)%N as Hlt by (apply N.div_lt; lia). assert (0 < x / 10)%N as Hpos by (apply N.neq_0_lt_0; exact E).
    rewrite (IH _ Hlt _ Hpos), Hd. f_equal. set (q := (x / 10)%N) in *. set (r := (x mod 10)%N) in *.
    clearbody q r. lia.
Qed.

Lemma read_to_string n c t : isdigit c = false -> read_digits (to_string_nat n ++ c :: t) 0 = Z.of_nat n.
Proof.
  intros Hc. assert (forall a, read_digits (c :: t) a = a) as Hstop by (intros a; cbn; by rewrite Hc).
  unfold to_string_nat, pretty, pretty_N. case_decide as E.
  - assert (n = 0%nat) as -> by lia. cbn [lit list_ascii_of_string app read_digits]. by rewrite Hc.
  - rewrite read_pretty_go by lia. cbn [lit list_ascii_of_string app]. rewrite Hstop. lia.
Qed.
