(* ===== verification/Sca.v ===== *)
(** * Lock-file analysis: [libs/sca]

    The manifest data, the parsers for [Cargo.lock] and [go.sum] and the
    assembly of scanned manifests into a bill of materials.  File paths are
    strings; a parser gets the contents its file wrapper reads. *)

From Stdlib Require Import ZArith Ascii String Lia.
From stdpp Require Import base list gmap strings.
From S2P Require Import Prelude CxxString Lines Purl.

(** ** Data *)

Inductive Ecosystem : Type :=
| EcoCargo | EcoNpm | EcoPypi | EcoGolang | EcoMaven | EcoGem | EcoComposer.
#[export] Instance Ecosystem_eq_dec : EqDecision Ecosystem.
Proof. solve_decision. Defined.

Definition ecosystem_str (e : Ecosystem) : str :=
  match e with
  | EcoCargo => lit "cargo" | EcoNpm => lit "npm" | EcoPypi => lit "pypi"
  | EcoGolang => lit "golang" | EcoMaven => lit "maven" | EcoGem => lit "gem"
  | EcoComposer => lit "composer"
  end.

Inductive HashAlgorithm : Type :=
| Md5 | Sha1 | Sha256 | Sha384 | Sha512 | Sha3_256 | Sha3_512 | Blake2b_256 | Blake2b_512 | Blake3.
#[export] Instance HashAlgorithm_eq_dec : EqDecision HashAlgorithm.
Proof. solve_decision. Defined.

Record Hash : Type := mkHash { h_algorithm : HashAlgorithm; h_value : str }.

Record ManifestEntry : Type := mkEntry {
  me_name : str; me_version : str; me_ns : str; me_hash : option Hash;
  me_direct : bool; me_dev : bool; me_source : str; me_depends : list str;
}.

Definition empty_entry : ManifestEntry := mkEntry [] [] [] None false false [] [].

Record ParsedManifest : Type := mkManifest {
  pm_ecosystem : Ecosystem; pm_source_file : str; pm_entries : list ManifestEntry;
  pm_root : option ManifestEntry;
}.

Record ParseError : Type := mkParseError { pe_message : str; pe_file : str; pe_line : Z }.

Definition purl_type_for (e : Ecosystem) : PurlType :=
  match e with
  | EcoCargo => Cargo | EcoNpm => Npm | EcoPypi => Pypi | EcoGolang => Golang
  | EcoMaven => Maven | EcoGem => Gem | EcoComposer => Composer
  end.

Definition to_purl (entry : ManifestEntry) (ecosystem : Ecosystem) : str :=
  to_string (Purl.build (purl_type_for ecosystem) (me_name entry) (me_version entry) (me_ns entry)).

(** ** [Cargo.lock] *)

Definition set_name (e : ManifestEntry) (v : str) : ManifestEntry :=
  mkEntry v (me_version e) (me_ns e) (me_hash e) (me_direct e) (me_dev e) (me_source e) (me_depends e).
Definition set_version (e : ManifestEntry) (v : str) : ManifestEntry :=
  mkEntry (me_name e) v (me_ns e) (me_hash e) (me_direct e) (me_dev e) (me_source e) (me_depends e).
Definition set_hash (e : ManifestEntry) (h : Hash) : ManifestEntry :=
  mkEntry (me_name e) (me_version e) (me_ns e) (Some h) (me_direct e) (me_dev e) (me_source e) (me_depends e).
Definition set_source (e : ManifestEntry) (v : str) : ManifestEntry :=
  mkEntry (me_name e) (me_version e) (me_ns e) (me_hash e) (me_direct e) (me_dev e) v (me_depends e).
Definition push_dep (e : ManifestEntry) (d : str) : ManifestEntry :=
  mkEntry (me_name e) (me_version e) (me_ns e) (me_hash e) (me_direct e) (me_dev e) (me_source e)
    (me_depends e ++ [d]).

Definition strip_quotes (s : str) : str :=
  if (2 <=? length s)%nat && (front_is quote s || front_is "'" s) && bool_decide (head s = last s)
  then substr s 1 (length s - 2) else s.

Definition extract_dep_name (s : str) : str :=
  let s := trim s in
  let s := if back_is "," s then removelast s else s in
  let stripped := strip_quotes (trim s) in
  match find_char " " stripped with Some sp => take sp stripped | None => stripped end.

Record CargoState : Type := mkCargo {
  in_package : bool; in_dependencies : bool; current : ManifestEntry; cargo_out : list ManifestEntry;
}.

Definition flush (st : CargoState) : CargoState :=
  mkCargo false false empty_entry
    (if in_package st && negb (bool_decide (me_name (current st) = []))
     then cargo_out st ++ [current st] else cargo_out st).

(** A comment starts at the first hash sign, unless an odd number of quotes
    stands before it. *)
Definition strip_comment (line : str) : str :=
  match find_char "#" line with
  | None => line
  | Some hash =>
    if Nat.even (length (List.filter (char_is quote) (take hash line))) then take hash line else line
  end.

Definition set_current (st : CargoState) (e : ManifestEntry) : CargoState :=
  mkCargo (in_package st) (in_dependencies st) e (cargo_out st).

Definition dependencies_value (st : CargoState) (value : str) : CargoState :=
  if bool_decide (value = lit "[]") then st
  else if starts_with (lit "[") value then
    match find_char "]" value with
    | Some close =>
      mkCargo (in_package st) false
        (foldl (fun e p => push_dep e (extract_dep_name p)) (current st)
           (fields "," (substr value 1 (close - 1)))) (cargo_out st)
    | None => mkCargo (in_package st) true (current st) (cargo_out st)
    end
  else st.

Definition key_value (st : CargoState) (key value : str) : CargoState :=
  let e := current st in
  if bool_decide (key = lit "name") then set_current st (set_name e (strip_quotes value))
  else if bool_decide (key = lit "version") then set_current st (set_version e (strip_quotes value))
  else if bool_decide (key = lit "source") then set_current st (set_source e (strip_quotes value))
  else if bool_decide (key = lit "checksum")
       then set_current st (set_hash e (mkHash Sha256 (strip_quotes value)))
  else if bool_decide (key = lit "dependencies") then dependencies_value st value
  else st.

Definition cargo_line (st : CargoState) (line : str) : CargoState :=
  let view := trim (strip_comment line) in
  if bool_decide (view = []) then st
  else if bool_decide (view = lit "[[package]]") then
    let st := flush st in mkCargo true (in_dependencies st) (current st) (cargo_out st)
  else if front_is "[" view && back_is "]" view then flush st
  else if in_dependencies st then
    if starts_with (lit "]") view then mkCargo (in_package st) false (current st) (cargo_out st)
    else set_current st (push_dep (current st) (extract_dep_name view))
  else if negb (in_package st) then st
  else
    match find_char "=" view with
    | None => st
    | Some eq => key_value st (trim (take eq view)) (trim (drop (S eq) view))
    end.

Definition parse_cargo_lock (contents source : str) : expected ParsedManifest ParseError :=
  let lines := getlines contents in
  let st := flush (foldl cargo_line (mkCargo false false empty_entry []) lines) in
  match cargo_out st with
  | [] => Unexpected (mkParseError (lit "No [[package]] blocks found in Cargo.lock") source
                        (Z.of_nat (length lines)))
  | es => Ok (mkManifest EcoCargo source es
                (List.find (fun e => bool_decide (me_source e = [])) es))
  end.

(** ** [go.sum] *)

Definition split_module (module_path : str) : str * str :=
  match rfind_char "/" module_path with
  | None => ([], module_path)
  | Some last => (take last module_path, drop (S last) module_path)
  end.

(** The maximal runs of characters that are neither space nor tab. *)
Fixpoint blank_tokens (cur : str) (s : str) : list str :=
  match s with
  | [] => match cur with [] => [] | _ => [cur] end
  | c :: s =>
    if front_blank c then match cur with [] => blank_tokens [] s | _ => cur :: blank_tokens [] s end
    else blank_tokens (cur ++ [c]) s
  end.

Definition go_mod_tail : str := lit "/go.mod".

Definition ends_with (t s : str) : bool :=
  (length t <=? length s)%nat && bool_decide (drop (length s - length t) s = t).

Definition h1_hash (hash_str : str) : option Hash :=
  if starts_with (lit "h1:") hash_str then Some (mkHash Sha256 (drop 3 hash_str)) else None.

Record GoState : Type := mkGo { go_order : list str; go_dedup : gmap str ManifestEntry }.

(** The fields of one line: module, version without the [/go.mod] marker,
    whether it had one, and the hash. *)
Definition go_line_fields (raw : str) : option (str * str * bool * str) :=
  let line := trim raw in
  if bool_decide (line = []) || front_is "#" line then None
  else
    match take 3 (blank_tokens [] line) with
    | [m; v; h] =>
      if ends_with go_mod_tail v
      then Some (m, take (length v - length go_mod_tail) v, true, h) else Some (m, v, false, h)
    | _ => None
    end.

Definition go_add (st : GoState) (l : str * str * bool * str) : GoState :=
  let '(m, v, is_go_mod, h) := l in
  let key := m ++ lit "@" ++ v in
  match go_dedup st !! key with
  | None =>
    let '(ns, name) := split_module m in
    let e := mkEntry name v ns (h1_hash h) false false [] [] in
    mkGo (go_order st ++ [key]) (<[key := e]> (go_dedup st))
  | Some e =>
    if is_go_mod then st
    else match h1_hash h with
         | Some hash => mkGo (go_order st) (<[key := set_hash e hash]> (go_dedup st))
         | None => st
         end
  end.

Definition go_line (st : GoState) (raw : str) : GoState :=
  match go_line_fields raw with Some l => go_add st l | None => st end.

Definition parse_go_sum (contents source : str) : expected ParsedManifest ParseError :=
  let lines := getlines contents in
  let st := foldl go_line (mkGo [] ∅) lines in
  match (fun k => default empty_entry (go_dedup st !! k)) <$> go_order st with
  | [] => Unexpected (mkParseError (lit "No module entries found in go.sum") source
                        (Z.of_nat (length lines)))
  | es => Ok (mkManifest EcoGolang source es None)
  end.

(** ** The bill of materials *)

Inductive ComponentType : Type :=
| CtApplication | CtFramework | CtLibrary | CtContainer | CtPlatform | CtOperatingSystem | CtDevice
| CtFirmware | CtFile | CtMachineLearningModel | CtData.

Inductive ExternalRefType : Type :=
| ErVcs | ErIssueTracker | ErWebsite | ErAdvisories | ErBom | ErMailingList | ErSocialMedia | ErChat
| ErDocumentation | ErSupport | ErDistribution | ErDistributionIntake | ErLicense | ErBuildMeta
| ErBuildSystem | ErReleaseNotes | ErOther.

Record License : Type := mkLicense { spdx_expression : str; license_url : option str }.
Record ExternalRef : Type := mkExternalRef { er_type : ExternalRefType; er_url : str; er_comment : str }.

Record Component : Type := mkComponent {
  c_bom_ref : str; c_purl : str; c_name : str; c_version : str; c_type : ComponentType;
  c_supplier : str; c_publisher : str; c_description : str; c_licenses : list License;
  c_hashes : list Hash; c_external_refs : list ExternalRef; c_cpe : str;
  c_properties : gmap str str;
}.

Record Dependency : Type := mkDependency { d_ref : str; d_depends : list str }.
Record Tool : Type := mkTool { tool_vendor : str; tool_name : str; tool_version : str }.

Record SbomDocument : Type := mkSbom {
  doc_namespace : str; doc_serial_number : str; doc_root : option Component;
  doc_components : list Component; doc_dependencies : list Dependency; doc_tools : list Tool;
  doc_created_at : Z; doc_properties : gmap str str;
}.

Record ScanResult : Type := mkScan { sr_manifests : list ParsedManifest; sr_errors : list ParseError }.

Definition to_component (entry : ManifestEntry) (ecosystem : Ecosystem) : Component :=
  let purl := to_purl entry ecosystem in
  let props : gmap str str := ∅ in
  let props := if me_direct entry then <[lit "euxis:direct" := lit "true"]> props else props in
  let props := if me_dev entry then <[lit "euxis:dev" := lit "true"]> props else props in
  let props := <[lit "euxis:ecosystem" := ecosystem_str ecosystem]> props in
  mkComponent purl purl (me_name entry) (me_version entry) CtLibrary (me_source entry)
    [] [] [] (match me_hash entry with Some h => [h] | None => [] end) [] [] props.

Record SbomState : Type := mkSbomState {
  ss_components : list Component; ss_dependencies : list Dependency; ss_index : gmap str nat;
}.

(** The per-manifest lookup; a later entry of the same name wins. *)
Definition local_names (m : ParsedManifest) : gmap str str :=
  foldl (fun acc e => <[me_name e := to_purl e (pm_ecosystem m)]> acc) ∅ (pm_entries m).

Definition add_component (st : SbomState) (comp : Component) : SbomState :=
  let idx := default 0 (ss_index st !! c_purl comp) in
  if (idx =? 0)%nat &&
     match ss_components st with [] => true | front :: _ => negb (bool_decide (c_purl front = c_purl comp)) end
  then
    let components := ss_components st ++ [comp] in
    mkSbomState components (ss_dependencies st) (<[c_purl comp := length components]> (ss_index st))
  else mkSbomState (ss_components st) (ss_dependencies st) (<[c_purl comp := idx]> (ss_index st)).

Definition add_edges (local : gmap str str) (e : ManifestEntry) (st : SbomState) : SbomState :=
  match me_depends e with
  | [] => st
  | deps =>
    match omap (fun dep_name => local !! dep_name) deps with
    | [] => st
    | ds => mkSbomState (ss_components st)
              (ss_dependencies st ++ [mkDependency (default [] (local !! me_name e)) ds]) (ss_index st)
    end
  end.

Definition add_entry (m : ParsedManifest) (local : gmap str str) (st : SbomState) (e : ManifestEntry) :
    SbomState :=
  add_edges local e (add_component st (to_component e (pm_ecosystem m))).

Definition add_manifest (st : SbomState) (m : ParsedManifest) : SbomState :=
  foldl (add_entry m (local_names m)) st (pm_entries m).

(** [root_string] and [root_filename] are the project path and its last
    element, [now] the creation time. *)
Definition to_sbom_document (now : Z) (scan : ScanResult) (root_string root_filename : str) :
    SbomDocument :=
  let root := mkComponent (lit "euxis:scan-root") []
                (match root_filename with [] => root_string | f => f end) [] CtApplication [] [] [] [] [] [] [] ∅ in
  let st := foldl add_manifest (mkSbomState [] [] ∅) (sr_manifests scan) in
  mkSbom (lit "https://euxis.co/sbom") [] (Some root) (ss_components st) (ss_dependencies st)
    [mkTool (lit "euxis.co") (lit "euxis-cli") (lit "0.1.0")] now
    (<[lit "euxis:manifest-count" := to_string_nat (length (sr_manifests scan))]>
       {[lit "euxis:scan-root" := root_string]}).

(** ** The assembled document *)

(** The first component of each purl. *)
Fixpoint keep_first (seen : list str) (cs : list Component) : list Component :=
  match cs with
  | [] => []
  | c :: cs => if bool_decide (c_purl c ∈ seen) then keep_first seen cs
               else c :: keep_first (seen ++ [c_purl c]) cs
  end.

Definition manifest_components (m : ParsedManifest) : list Component :=
  (fun e => to_component e (pm_ecosystem m)) <$> pm_entries m.

Lemma keep_first_app seen a b :
  keep_first seen (a ++ b) = keep_first seen a ++ keep_first (seen ++ (c_purl <$> keep_first seen a)) b.
Proof.
  revert seen. induction a as [|c a IH]; intros seen; simpl; [by rewrite app_nil_r|].
  case_bool_decide; [apply IH|]. simpl. by rewrite IH, <-app_assoc.
Qed.

Lemma keep_first_incl seen cs x : x ∈ keep_first seen cs -> x ∈ cs /\ c_purl x ∉ seen.
Proof.
  revert seen. induction cs as [|c cs IH]; intros seen; simpl; [set_solver|].
  case_bool_decide; [intros ?%IH; set_solver|]. intros [->|Hx]%elem_of_cons; [set_solver|].
  apply IH in Hx. set_solver.
Qed.

Lemma keep_first_purls seen cs p :
  p ∈ seen ++ (c_purl <$> keep_first seen cs) <-> p ∈ seen \/ p ∈ c_purl <$> cs.
Proof.
  revert seen. induction cs as [|c cs IH]; intros seen; simpl; [set_solver|].
  case_bool_decide as Hc.
  - rewrite IH. set_solver.
  - rewrite fmap_cons, cons_middle, app_assoc, IH. set_solver.
Qed.

Lemma keep_first_NoDup seen cs : NoDup (c_purl <$> keep_first seen cs).
Proof.
  revert seen. induction cs as [|c cs IH]; intros seen; simpl; [constructor|].
  case_bool_decide; [apply IH|]. rewrite fmap_cons. constructor; [|apply IH].
  intros (x & E & Hx)%list_elem_of_fmap. apply keep_first_incl in Hx as [_ Hx]. set_solver.
Qed.

(** The index maps exactly the purls of the components to a position. *)
Definition index_ok (st : SbomState) : Prop :=
  forall p, default 0 (ss_index st !! p) = 0 <-> p ∉ c_purl <$> ss_components st.

Lemma add_component_spec st c :
  index_ok st ->
  index_ok (add_component st c) /\ ss_dependencies (add_component st c) = ss_dependencies st /\
  ss_components (add_component st c) =
    ss_components st ++ keep_first (c_purl <$> ss_components st) [c].
Proof.
  intros Hix. unfold add_component. cbv zeta. simpl keep_first.
  destruct (decide (c_purl c ∈ c_purl <$> ss_components st)) as [Hin|Hin].
  - rewrite (bool_decide_true _ Hin), app_nil_r.
    destruct (default 0 (ss_index st !! c_purl c)) eqn:E; [by apply Hix in E|]. simpl.
    split_and!; [|done..]. intros p. simpl. destruct (decide (p = c_purl c)) as [->|Hp].
    + rewrite lookup_insert_eq. simpl. split; [done|]. intros H. by contradict H.
    + rewrite lookup_insert_ne by done. apply Hix.
  - rewrite (bool_decide_false _ Hin). pose proof (proj2 (Hix _) Hin) as ->. simpl.
    assert (match ss_components st with [] => true
      | front :: _ => negb (bool_decide (c_purl front = c_purl c)) end = true) as ->.
    { destruct (ss_components st); [done|]. rewrite bool_decide_false; set_solver. }
    split_and!; [|done..]. intros p. simpl. rewrite fmap_app, length_app. simpl.
    destruct (decide (p = c_purl c)) as [->|Hp].
    + rewrite lookup_insert_eq. simpl. split; [lia|set_solver].
    + rewrite lookup_insert_ne by done. rewrite (Hix p). set_solver.
Qed.

Definition edge_closed (purls : list str) (d : Dependency) : Prop :=
  d_ref d ∈ purls /\ d_depends d <> [] /\ Forall (fun p => p ∈ purls) (d_depends d).

Definition edge_local (local : gmap str str) (d : Dependency) : Prop :=
  (exists n, local !! n = Some (d_ref d)) /\ d_depends d <> [] /\
  Forall (fun p => exists n, local !! n = Some p) (d_depends d).

Lemma add_edges_spec local e st :
  is_Some (local !! me_name e) ->
  ss_components (add_edges local e st) = ss_components st /\
  ss_index (add_edges local e st) = ss_index st /\
  exists ds, ss_dependencies (add_edges local e st) = ss_dependencies st ++ ds /\
    Forall (edge_local local) ds.
Proof.
  intros [p Hp]. unfold add_edges. rewrite Hp.
  assert (exists ds, ss_dependencies st = ss_dependencies st ++ ds /\ Forall (edge_local local) ds)
    as Hnone by (exists []; by rewrite app_nil_r).
  destruct (me_depends e) as [|d deps]; [done|].
  destruct (omap _ (d :: deps)) as [|q qs] eqn:E; [done|]. split_and!; [done..|].
  eexists. split; [done|]. apply Forall_singleton. split_and!; [by eexists|done|].
  simpl. rewrite <-E. apply Forall_forall. intros x (n & _ & Hn)%list_elem_of_omap. by exists n.
Qed.

Lemma foldl_insert_lookup {A} (f g : A -> str) (l : list A) (m0 : gmap str str) :
  (forall n p, foldl (fun acc a => <[f a := g a]> acc) m0 l !! n = Some p ->
     m0 !! n = Some p \/ p ∈ g <$> l) /\
  (forall n, is_Some (m0 !! n) \/ n ∈ f <$> l ->
     is_Some (foldl (fun acc a => <[f a := g a]> acc) m0 l !! n)).
Proof.
  revert m0. induction l as [|a l IH]; intros m0; simpl; [set_solver|].
  destruct (IH (<[f a := g a]> m0)) as [H1 H2]. split.
  - intros n p [Hn|Hp]%H1; [|set_solver]. apply lookup_insert_Some in Hn as [[_ <-]|[_ Hn]]; set_solver.
  - intros n Hn. apply H2. rewrite lookup_insert_is_Some'. set_solver.
Qed.

Lemma local_names_purls m n p : local_names m !! n = Some p -> p ∈ c_purl <$> manifest_components m.
Proof.
  intros [Hn|Hp]%(proj1 (foldl_insert_lookup me_name (fun e => to_purl e (pm_ecosystem m)) _ _)).
  - by rewrite lookup_empty in Hn.
  - unfold manifest_components. by rewrite <-list_fmap_compose.
Qed.

Lemma local_names_total m e : e ∈ pm_entries m -> is_Some (local_names m !! me_name e).
Proof.
  intros He. apply (foldl_insert_lookup me_name (fun e => to_purl e (pm_ecosystem m))). right.
  by apply list_elem_of_fmap_2.
Qed.

Lemma add_entries_spec m local st es :
  index_ok st -> Forall (fun e => is_Some (local !! me_name e)) es ->
  let st' := foldl (add_entry m local) st es in
  index_ok st' /\
  ss_components st' = ss_components st ++ keep_first (c_purl <$> ss_components st)
    ((fun e => to_component e (pm_ecosystem m)) <$> es) /\
  exists ds, ss_dependencies st' = ss_dependencies st ++ ds /\ Forall (edge_local local) ds.
Proof.
  intros Hix Hes. revert st Hix. induction Hes as [|e es He Hes IH]; intros st Hix.
  { simpl. rewrite app_nil_r. split_and!; [done..|]. exists []. by rewrite app_nil_r. }
  cbn [foldl]. set (c := to_component e (pm_ecosystem m)).
  destruct (add_component_spec st c Hix) as (Hix1 & Hd1 & Hc1).
  destruct (add_edges_spec local e (add_component st c) He) as (Hc2 & Hi2 & ds1 & Hd2 & Hl2).
  destruct (IH (add_entry m local st e)) as (Hix3 & Hc3 & ds2 & Hd3 & Hl3).
  { unfold index_ok, add_entry. fold c. by rewrite Hc2, Hi2. }
  split; [done|]. unfold add_entry in Hc3, Hd3. fold c in Hc3, Hd3.
  rewrite Hc2 in Hc3. rewrite Hd2, Hd1 in Hd3. split.
  - unfold add_entry. fold c. rewrite Hc3, Hc1, fmap_app, <-app_assoc. f_equal.
    symmetry. apply (keep_first_app _ [c]).
  - exists (ds1 ++ ds2). unfold add_entry. fold c. rewrite Hd3, <-app_assoc. split; [done|].
    by apply Forall_app.
Qed.

Lemma edge_closed_mono ps qs d : (forall p, p ∈ ps -> p ∈ qs) -> edge_closed ps d -> edge_closed qs d.
Proof. intros H (H1 & H2 & H3). split_and!; [auto|done|]. eapply Forall_impl; [done|]. auto. Qed.

Lemma add_manifest_spec st m :
  index_ok st -> Forall (edge_closed (c_purl <$> ss_components st)) (ss_dependencies st) ->
  let st' := add_manifest st m in
  index_ok st' /\
  ss_components st' = ss_components st ++ keep_first (c_purl <$> ss_components st) (manifest_components m) /\
  Forall (edge_closed (c_purl <$> ss_components st')) (ss_dependencies st').
Proof.
  intros Hix Hcl. unfold add_manifest.
  destruct (add_entries_spec m (local_names m) st (pm_entries m)) as (H1 & H2 & ds & H3 & H4); [done| |].
  { apply Forall_forall. apply local_names_total. }
  fold (manifest_components m) in H2. split_and!; [done..|].
  rewrite H3. set (st' := foldl _ _ _) in *.
  assert (forall p, p ∈ c_purl <$> ss_components st \/ p ∈ c_purl <$> manifest_components m ->
    p ∈ c_purl <$> ss_components st') as Hp.
  { intros p Hp. rewrite H2, fmap_app. by apply keep_first_purls. }
  apply Forall_app. split.
  - eapply Forall_impl; [exact Hcl|]. intros d. apply edge_closed_mono. auto.
  - eapply Forall_impl; [exact H4|]. intros d ([n Hn] & Hne & Hds). split_and!; [|done|].
    + apply Hp. right. by eapply local_names_purls.
    + eapply Forall_impl; [exact Hds|]. intros p [n' Hn']. apply Hp. right. by eapply local_names_purls.
Qed.

Lemma add_manifests_spec st ms :
  index_ok st -> Forall (edge_closed (c_purl <$> ss_components st)) (ss_dependencies st) ->
  let st' := foldl add_manifest st ms in
  ss_components st' = ss_components st ++
    keep_first (c_purl <$> ss_components st) (flat_map manifest_components ms) /\
  Forall (edge_closed (c_purl <$> ss_components st')) (ss_dependencies st').
Proof.
  revert st. induction ms as [|m ms IH]; intros st Hix Hcl; simpl; [by rewrite app_nil_r|].
  destruct (add_manifest_spec st m Hix Hcl) as (H1 & H2 & H3).
  destruct (IH _ H1 H3) as [H4 H5]. split; [|done].
  by rewrite H4, H2, fmap_app, keep_first_app, <-app_assoc.
Qed.

(** ** Printing and parsing [Cargo.lock] *)

Definition quoted (v : str) : str := quote :: v ++ [quote].
Definition kv_line (k : string) (v : str) : str := lit k ++ lit " = " ++ quoted v.
Definition dep_line (d : str) : str := " "%char :: quoted d ++ lit ",".

(** The lines cargo writes for one package. *)
Definition package_lines (e : ManifestEntry) : list str :=
  [lit "[[package]]"; kv_line "name" (me_name e); kv_line "version" (me_version e)]
  ++ (if bool_decide (me_source e = []) then [] else [kv_line "source" (me_source e)])
  ++ (match me_hash e with Some h => [kv_line "checksum" (h_value h)] | None => [] end)
  ++ (if bool_decide (me_depends e = []) then []
      else [lit "dependencies = ["] ++ (dep_line <$> me_depends e) ++ [lit "]"])
  ++ [[]].

Definition print_cargo_lock (es : list ManifestEntry) : str :=
  flat_map (fun l => l ++ [eol]) (flat_map package_lines es).

Definition plain (v : str) : Prop := free_of quote v /\ free_of eol v.

(** Packages as cargo writes them. *)
Record cargo_ok (e : ManifestEntry) : Prop := {
  co_name : me_name e <> [] /\ plain (me_name e);
  co_version : plain (me_version e);
  co_source : plain (me_source e);
  co_hash : forall h, me_hash e = Some h -> h_algorithm h = Sha256 /\ plain (h_value h);
  co_depends : Forall (fun d => plain d /\ free_of " " d) (me_depends e);
  co_rest : me_ns e = [] /\ me_direct e = false /\ me_dev e = false;
}.

Lemma last_snoc_cons {A} (x : A) l y : last (x :: l ++ [y]) = Some y.
Proof. apply (last_snoc y (x :: l)). Qed.

Lemma filter_quote_free v : free_of quote v -> List.filter (char_is quote) v = [].
Proof.
  intros Hv. induction v as [|c v IH]; [done|]. unfold free_of in *. simpl.
  destruct (char_is quote c) eqn:E; [apply char_is_true in E; set_solver|]. apply IH. set_solver.
Qed.

(** A hash sign inside the quotes does not start a comment. *)
Lemma strip_comment_quoted pre v post :
  free_of "#" pre -> free_of quote pre -> free_of quote v -> free_of "#" post ->
  strip_comment (pre ++ quote :: v ++ post) = pre ++ quote :: v ++ post.
Proof.
  intros Hp Hq Hv Hpost. unfold strip_comment.
  destruct (find_char "#" v) as [i|] eqn:E.
  - apply find_char_Some in E as (v1 & v2 & -> & _ & Hv1).
    replace (pre ++ quote :: (v1 ++ "#"%char :: v2) ++ post)
      with ((pre ++ quote :: v1) ++ "#"%char :: v2 ++ post) by (by rewrite <-!app_assoc).
    rewrite find_char_hit by (unfold free_of in *; rewrite elem_of_app, elem_of_cons; naive_solver).
    rewrite take_app_length, List.filter_app. cbn [List.filter].
    rewrite !filter_quote_free by (unfold free_of in *; set_solver). done.
  - apply find_char_None in E.
    assert (find_char "#" (pre ++ quote :: v ++ post) = None) as ->; [|done].
    apply find_char_None. unfold free_of in *. rewrite elem_of_app, elem_of_cons, elem_of_app. naive_solver.
Qed.

Lemma strip_quotes_quoted v : strip_quotes (quoted v) = v.
Proof.
  unfold strip_quotes, quoted. rewrite last_snoc_cons. unfold front_is. cbn [head length].
  rewrite length_app. cbn [length]. rewrite (proj2 (Nat.leb_le _ _)) by lia.
  rewrite !(bool_decide_true (Some quote = Some quote)) by done. cbn [andb orb]. unfold substr. cbn [drop].
  replace (S (length v + 1) - 2) with (length v) by lia. apply take_app_length.
Qed.

Lemma trim_quoted v : trim (quoted v) = quoted v.
Proof. apply (trim_id quote (v ++ [quote]) quote); [done|apply last_snoc_cons|done]. Qed.

(** A literal prefix without special characters. *)
Ltac lit_free := apply (bool_decide_unpack _); by vm_compute.

Lemma strip_comment_kv k v :
  free_of quote v -> k ∈ ["name"; "version"; "source"; "checksum"] ->
  strip_comment (kv_line k v) = kv_line k v.
Proof.
  intros Hv Hk. unfold kv_line, quoted. rewrite app_assoc.
  apply strip_comment_quoted; [| |done|lit_free];
    repeat (apply elem_of_cons in Hk as [->|Hk]; [lit_free|]); set_solver.
Qed.

(** A key-value line reaches [key_value] with its key and its quoted value. *)
Lemma cargo_kv st k v :
  in_package st = true -> in_dependencies st = false -> free_of quote v ->
  k ∈ ["name"; "version"; "source"; "checksum"] ->
  cargo_line st (kv_line k v) = key_value st (lit k) (quoted v).
Proof.
  intros Hip Hid Hv Hk. unfold cargo_line. rewrite strip_comment_kv by done.
  assert (trim (kv_line k v) = kv_line k v) as ->.
  { unfold kv_line, quoted. rewrite app_assoc, app_comm_cons, app_assoc.
    repeat (apply elem_of_cons in Hk as [->|Hk]; [by eapply trim_id; [|apply last_snoc_cons|]|]).
    set_solver. }
  rewrite Hip, Hid. cbn [negb].
  assert (find_char "=" (kv_line k v) = Some (S (length (lit k))) /\
    take (S (length (lit k))) (kv_line k v) = lit k ++ lit " " /\
    drop (S (S (length (lit k)))) (kv_line k v) = " "%char :: quoted v /\
    trim (lit k ++ lit " ") = lit k /\
    bool_decide (kv_line k v = []) = false /\ bool_decide (kv_line k v = lit "[[package]]") = false /\
    front_is "[" (kv_line k v) = false) as (-> & -> & -> & -> & -> & -> & ->).
  { repeat (apply elem_of_cons in Hk as [->|Hk]; [by split_and!|]). set_solver. }
  cbn [andb]. by rewrite trim_blank_front, trim_quoted.
Qed.

Lemma cargo_dep st d :
  in_dependencies st = true -> free_of quote d -> free_of " " d ->
  cargo_line st (dep_line d) = set_current st (push_dep (current st) d).
Proof.
  intros Hid Hq Hs. unfold cargo_line.
  assert (strip_comment (dep_line d) = dep_line d) as ->.
  { unfold dep_line, quoted. cbn [app]. rewrite <-app_assoc.
    apply (strip_comment_quoted [" "%char] d (quote :: lit ",")); [lit_free|lit_free|done|lit_free]. }
  assert (trim (dep_line d) = quoted d ++ lit ",") as ->.
  { unfold dep_line. rewrite trim_blank_front by done.
    apply (trim_id quote ((d ++ [quote]) ++ lit ",") ","); [done|apply last_snoc_cons|done]. }
  rewrite Hid. rewrite !bool_decide_false by done.
  assert (front_is "[" (quoted d ++ lit ",") = false /\ starts_with (lit "]") (quoted d ++ lit ",") = false)
    as [-> ->] by done. cbn [andb]. f_equal. f_equal. unfold extract_dep_name. cbv zeta.
  assert (trim (quoted d ++ lit ",") = quoted d ++ lit ",") as ->.
  { apply (trim_id quote ((d ++ [quote]) ++ lit ",") ","); [done|apply last_snoc_cons|done]. }
  assert (back_is "," (quoted d ++ lit ",") = true) as ->.
  { unfold back_is. apply bool_decide_eq_true. apply last_snoc. }
  change (lit ",") with [","%char]. rewrite removelast_last, trim_quoted, strip_quotes_quoted.
  by rewrite (proj2 (find_char_None " " d)).
Qed.

Lemma cargo_deps st ds :
  in_dependencies st = true -> Forall (fun d => plain d /\ free_of " " d) ds ->
  foldl cargo_line st (dep_line <$> ds)
  = set_current st (foldl push_dep (current st) ds).
Proof.
  intros Hid Hds. revert st Hid. induction Hds as [|d ds [[Hq _] Hs] Hds IH]; intros st Hid.
  { by destruct st. }
  cbn [fmap list_fmap foldl]. rewrite cargo_dep by done. rewrite IH by done. done.
Qed.

Lemma foldl_push_dep e ds :
  foldl push_dep e ds = mkEntry (me_name e) (me_version e) (me_ns e) (me_hash e) (me_direct e)
    (me_dev e) (me_source e) (me_depends e ++ ds).
Proof.
  revert e. induction ds as [|d ds IH]; intros e; simpl; [rewrite app_nil_r; by destruct e|].
  rewrite IH. simpl. by rewrite <-app_assoc.
Qed.

Section open_package.
Context (e : ManifestEntry) (out : list ManifestEntry).
Let st := mkCargo true false e out.

Lemma cargo_name v : free_of quote v -> cargo_line st (kv_line "name" v) = mkCargo true false (set_name e v) out.
Proof.
  intros Hv. rewrite cargo_kv by (done || lit_free). unfold key_value. by rewrite strip_quotes_quoted.
Qed.

Lemma cargo_version v :
  free_of quote v -> cargo_line st (kv_line "version" v) = mkCargo true false (set_version e v) out.
Proof.
  intros Hv. rewrite cargo_kv by (done || lit_free). unfold key_value. by rewrite strip_quotes_quoted.
Qed.

Lemma cargo_source v :
  free_of quote v -> cargo_line st (kv_line "source" v) = mkCargo true false (set_source e v) out.
Proof.
  intros Hv. rewrite cargo_kv by (done || lit_free). unfold key_value. by rewrite strip_quotes_quoted.
Qed.

Lemma cargo_checksum v :
  free_of quote v ->
  cargo_line st (kv_line "checksum" v) = mkCargo true false (set_hash e (mkHash Sha256 v)) out.
Proof.
  intros Hv. rewrite cargo_kv by (done || lit_free). unfold key_value. by rewrite strip_quotes_quoted.
Qed.

(** A dependencies block appends its names. *)
Lemma cargo_block ds :
  Forall (fun d => plain d /\ free_of " " d) ds ->
  foldl cargo_line st ([lit "dependencies = ["] ++ (dep_line <$> ds) ++ [lit "]"])
  = mkCargo true false (foldl push_dep e ds) out.
Proof.
  intros Hds. rewrite !foldl_app. cbn [foldl].
  assert (cargo_line st (lit "dependencies = [") = mkCargo true true e out) as -> by done.
  by rewrite cargo_deps.
Qed.
End open_package.

(** A printed package is read into the current entry, after the entry that was
    open before has been stored. *)
Lemma cargo_package st e :
  cargo_ok e ->
  foldl cargo_line st (package_lines e) = mkCargo true false e (cargo_out (flush st)).
Proof.
  intros [[_ [Hn _]] [Hv _] [Hs _] Hh Hd (Hns & Hdir & Hdev)]. unfold package_lines.
  rewrite foldl_app. cbn [foldl]. set (out := cargo_out (flush st)).
  assert (cargo_line st (lit "[[package]]") = mkCargo true false empty_entry out) as -> by done.
  rewrite cargo_name, cargo_version by done.
  rewrite foldl_app.
  assert (forall e0, me_source e0 = [] -> foldl cargo_line (mkCargo true false e0 out)
      (if bool_decide (me_source e = []) then [] else [kv_line "source" (me_source e)])
    = mkCargo true false (set_source e0 (me_source e)) out) as ->; [| |done].
  { intros e0 He0. case_bool_decide as E; [|by apply cargo_source].
    rewrite E. destruct e0. simpl in *. by subst. }
  rewrite foldl_app.
  assert (forall e0, me_hash e0 = None -> foldl cargo_line (mkCargo true false e0 out)
      (match me_hash e with Some h => [kv_line "checksum" (h_value h)] | None => [] end)
    = mkCargo true false (match me_hash e with Some h => set_hash e0 h | None => e0 end) out)
    as ->; [| |done].
  { intros e0 He0. destruct (me_hash e) as [[alg hv]|]; [|done].
    destruct (Hh _ eq_refl) as [Ha [Hq _]]. simpl in *. subst. by apply cargo_checksum. }
  rewrite foldl_app. set (e1 := match me_hash e with Some _ => _ | None => _ end).
  assert (foldl cargo_line (mkCargo true false e1 out)
      (if bool_decide (me_depends e = []) then []
       else [lit "dependencies = ["] ++ (dep_line <$> me_depends e) ++ [lit "]"])
    = mkCargo true false (foldl push_dep e1 (me_depends e)) out) as ->.
  { case_bool_decide as E; [by rewrite E|by apply cargo_block]. }
  rewrite foldl_push_dep. cbn [foldl].
  assert (mkEntry (me_name e1) (me_version e1) (me_ns e1) (me_hash e1) (me_direct e1) (me_dev e1)
    (me_source e1) (me_depends e1 ++ me_depends e) = e) as ->; [|done].
  unfold e1. destruct e as [n v ns [h|] dir dev src ds]; simpl in *; by subst.
Qed.

Lemma cargo_packages st es :
  Forall cargo_ok es ->
  cargo_out (flush (foldl cargo_line st (flat_map package_lines es))) = cargo_out (flush st) ++ es.
Proof.
  intros Hes. revert st. induction Hes as [|e es He Hes IH]; intros st; cbn [flat_map]; [simpl; by rewrite app_nil_r|].
  rewrite foldl_app, cargo_package, IH by done. unfold flush at 1. cbn [in_package current cargo_out].
  rewrite bool_decide_false by apply He. simpl. by rewrite <-app_assoc.
Qed.

Lemma package_lines_free e : cargo_ok e -> Forall (free_of eol) (package_lines e).
Proof.
  intros [[_ [_ Hn]] [_ Hv] [_ Hs] Hh Hd _].
  assert (forall v, free_of eol v -> free_of eol (quoted v)) as Hq.
  { unfold free_of, quoted. intros v H [E|[H'|E]%elem_of_app]%elem_of_cons; [done|done|].
    by apply list_elem_of_singleton in E. }
  assert (forall k v, k ∈ ["name"; "version"; "source"; "checksum"] -> free_of eol v ->
    free_of eol (kv_line k v)) as Hkv.
  { intros k v Hk Hf. unfold kv_line. rewrite app_assoc. unfold free_of. rewrite elem_of_app.
    intros [H|H]; [|by eapply Hq]. revert H. change (free_of eol (lit k ++ lit " = ")).
    repeat (apply elem_of_cons in Hk as [->|Hk]; [lit_free|]). set_solver. }
  unfold package_lines. repeat (apply Forall_app; split).
  - repeat constructor; [lit_free|apply Hkv; [lit_free|done]..].
  - case_bool_decide; repeat constructor. apply Hkv; [lit_free|done].
  - destruct (me_hash e) as [h|]; repeat constructor. apply Hkv; [lit_free|by apply Hh].
  - case_bool_decide; [constructor|]. repeat (apply Forall_app; split); [repeat constructor; lit_free| |repeat constructor; lit_free].
    apply Forall_fmap. eapply Forall_impl; [exact Hd|]. intros d [[_ Hf] _].
    intros Hc. change (eol ∈ " "%char :: (quoted d ++ [","%char])) in Hc.
    rewrite elem_of_cons, elem_of_app in Hc. destruct Hc as [H1|[H2|H3]]; [done|by eapply Hq|].
    by apply list_elem_of_singleton in H3.
  - repeat constructor. unfold free_of. set_solver.
Qed.

(** ** The [go.sum] table *)

Abbreviation GoLine := (str * str * bool * str)%type.

Definition go_key (l : GoLine) : str := let '(m, v, _, _) := l in m ++ lit "@" ++ v.

(** The hash of a zip line, as opposed to a [go.mod] line. *)
Definition zip_hash (l : GoLine) : option Hash :=
  let '(_, _, is_go_mod, h) := l in if is_go_mod then None else h1_hash h.
Definition line_hash (l : GoLine) : option Hash := let '(_, _, _, h) := l in h1_hash h.

Definition line_entry (l : GoLine) (hash : option Hash) : ManifestEntry :=
  let '(m, v, _, _) := l in
  let '(ns, name) := split_module m in mkEntry name v ns hash false false [] [].

(** What [go.sum] says about one module version: the hash of its last zip
    line, and without one the hash of its first line. *)
Definition go_entry (ls : list GoLine) : option ManifestEntry :=
  match ls with
  | [] => None
  | l :: _ =>
    Some (line_entry l (match last (omap zip_hash ls) with Some h => Some h | None => line_hash l end))
  end.

Definition lines_of_key (k : str) (ls : list GoLine) : list GoLine :=
  List.filter (fun l => bool_decide (go_key l = k)) ls.

(** The keys in the order of their first line. *)
Definition first_keys (ls : list GoLine) : list str :=
  foldl (fun acc l => if bool_decide (go_key l ∈ acc) then acc else acc ++ [go_key l]) [] ls.

Definition go_inv (st : GoState) (ls : list GoLine) : Prop :=
  go_order st = first_keys ls /\ forall k, go_dedup st !! k = go_entry (lines_of_key k ls).

Lemma first_keys_snoc ls l :
  first_keys (ls ++ [l])
  = (if bool_decide (go_key l ∈ first_keys ls) then first_keys ls else first_keys ls ++ [go_key l]).
Proof. unfold first_keys at 1. rewrite foldl_app. done. Qed.

Lemma first_keys_spec ls :
  NoDup (first_keys ls) /\ forall k, k ∈ first_keys ls <-> lines_of_key k ls <> [].
Proof.
  induction ls as [|l ls [Hnd Hk]] using rev_ind.
  { split; [by constructor|]. intros k. split; [intros Hk; by apply elem_of_nil in Hk|done]. }
  rewrite first_keys_snoc. unfold lines_of_key in *. split.
  - case_bool_decide; [done|]. apply NoDup_app. split_and!; [done| |apply NoDup_singleton].
    intros x Hx ->%list_elem_of_singleton. done.
  - intros k. rewrite List.filter_app. cbn [List.filter].
    destruct (decide (go_key l = k)) as [<-|Hne].
    + rewrite (bool_decide_true (go_key l = go_key l)) by done.
      assert (List.filter (fun l' => bool_decide (go_key l' = go_key l)) ls ++ [l] <> []) as Hne
        by (by destruct (List.filter _ ls)).
      case_bool_decide as Hin; [done|]. split; [done|set_solver].
    + rewrite (bool_decide_false (go_key l = k)), app_nil_r, <-Hk by done. case_bool_decide; set_solver.
Qed.

Lemma go_entry_snoc l0 ls l :
  go_entry ((l0 :: ls) ++ [l]) =
  match zip_hash l with
  | Some h => (fun e => set_hash e h) <$> go_entry (l0 :: ls)
  | None => go_entry (l0 :: ls)
  end.
Proof.
  unfold go_entry. cbn [app]. rewrite app_comm_cons, omap_app. cbn [omap list_omap].
  destruct (zip_hash l) as [h|]; [|by rewrite app_nil_r].
  rewrite last_snoc. destruct l0 as [[[m v] g] h0]. unfold line_entry. cbn [fmap option_fmap option_map].
  by destruct (split_module m).
Qed.

Lemma go_add_inv st ls l : go_inv st ls -> go_inv (go_add st l) (ls ++ [l]).
Proof.
  intros [Ho Hd]. pose proof (first_keys_spec ls) as [_ Hk].
  assert (forall k, lines_of_key k (ls ++ [l])
    = lines_of_key k ls ++ (if bool_decide (go_key l = k) then [l] else [])) as Hl.
  { intros k. unfold lines_of_key. rewrite List.filter_app. simpl. by case_bool_decide. }
  unfold go_inv. setoid_rewrite Hl. rewrite first_keys_snoc.
  pose proof (Hd (go_key l)) as Hdl. specialize (Hk (go_key l)).
  destruct (lines_of_key (go_key l) ls) as [|l0 ls0] eqn:E.
  - rewrite bool_decide_false by naive_solver.
    destruct l as [[[m v] g] h]. unfold go_add. cbn [go_key go_entry] in *. rewrite Hdl.
    destruct (split_module m) as [ns name] eqn:Em. cbn [go_order go_dedup]. rewrite Ho. split; [done|].
    intros k. case_bool_decide as Hkk.
    + subst k. rewrite lookup_insert_eq, E. unfold go_entry, line_entry. simpl. rewrite Em.
      by destruct g, (h1_hash h).
    + rewrite lookup_insert_ne by done. by rewrite app_nil_r.
  - rewrite bool_decide_true by naive_solver.
    destruct l as [[[m v] g] h]. unfold go_add. cbn [go_key] in *. rewrite Hdl. cbn [go_entry].
    assert (forall k, go_entry (lines_of_key k ls ++ (if bool_decide (m ++ lit "@" ++ v = k) then [(m, v, g, h)] else []))
      = if bool_decide (m ++ lit "@" ++ v = k) then
          match zip_hash (m, v, g, h) with Some hh => (fun e => set_hash e hh) <$> go_entry (l0 :: ls0)
          | None => go_entry (l0 :: ls0) end
        else go_dedup st !! k) as Hgo.
    { intros k. rewrite Hd. case_bool_decide as Hkk; [subst k; by rewrite E, go_entry_snoc|by rewrite app_nil_r]. }
    setoid_rewrite Hgo. unfold zip_hash. destruct g.
    + split; [done|]. intros k. case_bool_decide as Hkk; [by subst k|done].
    + destruct (h1_hash h) as [hh|]; cbn [go_order go_dedup]; (split; [done|]); intros k;
        case_bool_decide as Hkk; try done; [subst k; by rewrite lookup_insert_eq|by rewrite lookup_insert_ne|by subst k].
Qed.

Lemma go_lines_inv raws : go_inv (foldl go_line (mkGo [] ∅) raws) (omap go_line_fields raws).
Proof.
  induction raws as [|r raws IH] using rev_ind.
  { split; [done|]. intros k. apply lookup_empty. }
  rewrite foldl_app, omap_app. cbn [foldl omap list_omap]. unfold go_line at 1.
  destruct (go_line_fields r); [by apply go_add_inv|by rewrite app_nil_r].
Qed.

(** ** Properties *)

(** Parsing the [Cargo.lock] text of any non-empty list of packages gives
    the packages back in order, with the first one without a source as root;
    hash signs inside quoted values do not start comments. *)
Lemma cargo_lock_roundtrip es source :
  Forall cargo_ok es -> es <> [] ->
  parse_cargo_lock (print_cargo_lock es) source =
  Ok (mkManifest EcoCargo source es (List.find (fun e => bool_decide (me_source e = [])) es)).
Proof.
  intros Hes Hne. unfold parse_cargo_lock, print_cargo_lock, getlines.
  rewrite fields_render.
  - rewrite cargo_packages by done. by destruct es.
  - apply Forall_flat_map. intros e He. apply package_lines_free. rewrite Forall_forall in Hes. auto.
Qed.

(** [go.sum] gives one entry per module version, in the order of the
    first lines, whose hash is that of the last zip line, or of the first line
    when only [go.mod] hashes are listed. *)
Lemma go_sum_entries contents source m :
  parse_go_sum contents source = Ok m ->
  let ls := omap go_line_fields (getlines contents) in
  pm_ecosystem m = EcoGolang /\ NoDup (first_keys ls) /\
  (forall k, k ∈ first_keys ls <-> exists l, l ∈ ls /\ go_key l = k) /\
  Some <$> pm_entries m = (fun k => go_entry (lines_of_key k ls)) <$> first_keys ls.
Proof.
  intros Hm ls. pose proof (go_lines_inv (getlines contents)) as [Ho Hd]. fold ls in Ho, Hd.
  destruct (first_keys_spec ls) as [Hnd Hk]. unfold parse_go_sum in Hm. rewrite Ho in Hm.
  set (es := (fun k => default empty_entry (go_dedup (foldl go_line (mkGo [] ∅) (getlines contents)) !! k))
             <$> first_keys ls) in *.
  assert (pm_entries m = es /\ pm_ecosystem m = EcoGolang) as [-> ->] by (destruct es; naive_solver).
  split_and!; [done..| |].
  - intros k. rewrite Hk. unfold lines_of_key. split.
    + intros Hf. destruct (List.filter _ ls) as [|l ?] eqn:E; [done|]. exists l.
      assert (In l (List.filter (fun l => bool_decide (go_key l = k)) ls)) as Hin by (rewrite E; by left).
      apply filter_In in Hin as [Hin Hb]. apply bool_decide_eq_true in Hb.
      by rewrite list_elem_of_In.
    + intros (l & Hl & Hkl) E. apply list_elem_of_In in Hl.
      assert (In l []) as []. rewrite <-E. apply filter_In. split; [done|]. by apply bool_decide_eq_true.
  - unfold es. rewrite <-list_fmap_compose. apply list_fmap_ext. intros i k Hi. unfold compose.
    assert (k ∈ first_keys ls) as Hin by (by eapply list_elem_of_lookup_2). apply Hk in Hin.
    rewrite Hd. by destruct (lines_of_key k ls).
Qed.

(** The assembled document lists every scanned package once, as its first
    occurrence, and its dependency graph is closed: the source and the targets
    of every edge are listed components. *)
Lemma sbom_document_closed now scan root_string root_filename :
  let doc := to_sbom_document now scan root_string root_filename in
  doc_components doc = keep_first [] (flat_map manifest_components (sr_manifests scan)) /\
  NoDup (c_purl <$> doc_components doc) /\
  (forall p, p ∈ c_purl <$> doc_components doc <->
     exists m e, m ∈ sr_manifests scan /\ e ∈ pm_entries m /\ p = to_purl e (pm_ecosystem m)) /\
  Forall (edge_closed (c_bom_ref <$> doc_components doc)) (doc_dependencies doc).
Proof.
  cbv zeta. unfold to_sbom_document. cbv zeta. cbn [doc_components doc_dependencies].
  destruct (add_manifests_spec (mkSbomState [] [] ∅) (sr_manifests scan)) as [H1 H2].
  { intros p. simpl. split; [intros _; apply not_elem_of_nil|done]. }
  { constructor. }
  cbn [ss_components fmap list_fmap app] in H1. rewrite H1 in H2 |- *.
  split_and!; [done|apply keep_first_NoDup| |].
  - intros p. pose proof (keep_first_purls [] (flat_map manifest_components (sr_manifests scan)) p) as Hp.
    cbn [app] in Hp. rewrite Hp, list_elem_of_fmap. setoid_rewrite elem_of_flat_map.
    unfold manifest_components. setoid_rewrite list_elem_of_fmap. split.
    + intros [Hn|(c & -> & m & Hm & e & -> & He)]; [by apply not_elem_of_nil in Hn|]. by exists m, e.
    + intros (m & e & Hm & He & ->). right. exists (to_component e (pm_ecosystem m)). split; [done|].
      exists m. split; [done|]. by exists e.
  - assert (c_bom_ref <$> keep_first [] (flat_map manifest_components (sr_manifests scan))
      = c_purl <$> keep_first [] (flat_map manifest_components (sr_manifests scan))) as ->; [|done].
    apply list_fmap_ext. intros i c Hc. apply list_elem_of_lookup_2, keep_first_incl in Hc as [Hc _].
    apply elem_of_flat_map in Hc as (m & _ & Hc). unfold manifest_components in Hc.
    by apply list_elem_of_fmap in Hc as (e & -> & _).
Qed.

(** ** Examples *)

Definition sample_crate : ManifestEntry :=
  mkEntry (lit "serde") (lit "1.0.197") [] (Some (mkHash Sha256 (lit "3fb1c8"))) false false
    (lit "git+https://example.org/serde#abc") [lit "serde_derive"; lit "log"].
Definition root_crate : ManifestEntry :=
  mkEntry (lit "app") (lit "0.1.0") [] None false false [] [lit "serde"].

Lemma cargo_lock_roundtrip_witness :
  parse_cargo_lock (print_cargo_lock [sample_crate; root_crate]) (lit "Cargo.lock")
  = Ok (mkManifest EcoCargo (lit "Cargo.lock") [sample_crate; root_crate] (Some root_crate)).
Proof.
  apply (cargo_lock_roundtrip [sample_crate; root_crate] (lit "Cargo.lock")); [|done].
  assert (cargo_ok sample_crate /\ cargo_ok root_crate) as [H1 H2].
  { split; split; unfold plain; try lit_free; [|done]. intros h [= <-]. lit_free. }
  by repeat (apply Forall_cons; split).
Defined.

Definition sample_go_sum : str :=
  lit "rsc.io/quote v1.5.2/go.mod h1:Lz=" ++ [eol] ++ lit "rsc.io/quote v1.5.2 h1:w5=" ++ [eol].

Lemma go_sum_entries_witness :
  let ls := omap go_line_fields (getlines sample_go_sum) in
  first_keys ls = [lit "rsc.io/quote@v1.5.2"] /\
  Some <$> [mkEntry (lit "quote") (lit "v1.5.2") (lit "rsc.io") (Some (mkHash Sha256 (lit "w5=")))
              false false [] []] = (fun k => go_entry (lines_of_key k ls)) <$> first_keys ls.
Proof.
  split; [by vm_compute|].
  apply (go_sum_entries sample_go_sum (lit "go.sum") (mkManifest EcoGolang (lit "go.sum")
    [mkEntry (lit "quote") (lit "v1.5.2") (lit "rsc.io") (Some (mkHash Sha256 (lit "w5=")))
       false false [] []] None)).
  by vm_compute.
Defined.
