(* ===== verification/A2aTypes.v ===== *)
(** * Agent-to-agent data: [libs/a2a-types/src/message.cpp] and
    [libs/a2a/src/agent_card.cpp]

    Messages, artifacts, bids and agent cards with their JSON conversions, and
    the binary form of a card.  [from_json] is [None] where the code throws.
    The binary writer fills a buffer of precomputed size through a raw
    pointer: [Cursor] keeps the bytes written and the room left, and a write
    past the end, undefined behaviour in C++, is [None]. *)

From Stdlib Require Import ZArith Ascii String Lia.
From stdpp Require Import base list gmap strings.
From S2P Require Import Prelude CxxString Doubles Json.

(** ** Messages *)

Record ContentPart : Type := mkPart { part_type : str; part_content : str; part_mime : option str }.
Record A2AMessage : Type := mkMessage {
  msg_role : str; msg_created_at : str; msg_parts : list ContentPart;
}.
Record Artifact : Type := mkArtifact { art_name : str; art_mime : str; art_data : str }.
Record BidRequest : Type := mkBidRequest {
  br_task_id : str; br_capability : str; br_max_latency : Z;
}.
Record BidResponse : Type := mkBidResponse {
  bs_task_id : str; bs_agent_id : str; bs_cost : double; bs_latency : Z; bs_accepted : bool;
}.

Section messages.
Context `{Json}.

Definition part_to_json (p : ContentPart) : jv :=
  object ([(lit "type", jstr (part_type p)); (lit "content", jstr (part_content p))]
          ++ opt_member "mimeType" jstr (part_mime p)).

Definition message_to_json (m : A2AMessage) : jv :=
  object [(lit "role", jstr (msg_role m)); (lit "createdAt", jstr (msg_created_at m));
          (lit "parts", jarr (part_to_json <$> msg_parts m))].

Definition part_from_json (p : jv) : option ContentPart :=
  type ← at_get get_string p "type";
  content ← at_get get_string p "content";
  mime ← opt_get get_string p "mimeType";
  Some (mkPart type content mime).

Definition message_from_json (j : jv) : option A2AMessage :=
  role ← at_get get_string j "role";
  created ← at_get get_string j "createdAt";
  parts ← (if contains j "parts" then ps ← at_key j "parts"; mapM part_from_json (items ps)
           else Some []);
  Some (mkMessage role created parts).

Definition artifact_to_json (a : Artifact) : jv :=
  object [(lit "name", jstr (art_name a)); (lit "mimeType", jstr (art_mime a));
          (lit "data", jstr (art_data a))].

Definition artifact_from_json (j : jv) : option Artifact :=
  name ← at_get get_string j "name";
  mime ← at_get get_string j "mimeType";
  data ← at_get get_string j "data";
  Some (mkArtifact name mime data).

Definition bid_request_to_json (r : BidRequest) : jv :=
  object [(lit "task_id", jstr (br_task_id r)); (lit "capability_required", jstr (br_capability r));
          (lit "max_latency_ms", jint (br_max_latency r))].

Definition bid_request_from_json (j : jv) : option BidRequest :=
  task ← value get_string j "task_id" [];
  cap ← value get_string j "capability_required" [];
  latency ← value get_int j "max_latency_ms" 5000%Z;
  Some (mkBidRequest task cap latency).

Definition bid_response_to_json (r : BidResponse) : jv :=
  object [(lit "task_id", jstr (bs_task_id r)); (lit "agent_id", jstr (bs_agent_id r));
          (lit "estimated_cost", jdouble (bs_cost r));
          (lit "estimated_latency_ms", jint (bs_latency r)); (lit "accepted", jbool (bs_accepted r))].

Definition bid_response_from_json (j : jv) : option BidResponse :=
  task ← value get_string j "task_id" [];
  agent ← value get_string j "agent_id" [];
  cost ← value get_double j "estimated_cost" d_zero;
  latency ← value get_int j "estimated_latency_ms" 0%Z;
  accepted ← value get_bool j "accepted" false;
  Some (mkBidResponse task agent cost latency accepted).

(** ** Agent cards *)

Record AuthSchema : Type := mkAuth { auth_type : str; auth_description : str }.
Record Capability : Type := mkCapability {
  cap_name : str; cap_description : str; cap_input : option jv; cap_output : option jv;
}.
Record AgentCard : Type := mkCard {
  card_name : str; card_description : str; card_url : str; card_version : str;
  card_capabilities : list Capability; card_auth : option AuthSchema;
  card_did : option str; card_metadata : jv;
}.

Definition capability_to_json (c : Capability) : jv :=
  object ([(lit "name", jstr (cap_name c)); (lit "description", jstr (cap_description c))]
          ++ opt_member "inputSchema" id (cap_input c) ++ opt_member "outputSchema" id (cap_output c)).

Definition auth_to_json (a : AuthSchema) : jv :=
  object [(lit "type", jstr (auth_type a)); (lit "description", jstr (auth_description a))].

Definition card_to_json (c : AgentCard) : jv :=
  object ([(lit "name", jstr (card_name c)); (lit "description", jstr (card_description c));
           (lit "url", jstr (card_url c)); (lit "version", jstr (card_version c));
           (lit "capabilities", jarr (capability_to_json <$> card_capabilities c))]
          ++ opt_member "auth" auth_to_json (card_auth c)
          ++ opt_member "identityDid" jstr (card_did c)
          ++ (if is_null (card_metadata c) then [] else [(lit "metadata", card_metadata c)])).

Definition capability_from_json (c : jv) : option Capability :=
  name ← at_get get_string c "name";
  description ← at_get get_string c "description";
  input ← opt_get Some c "inputSchema";
  output ← opt_get Some c "outputSchema";
  Some (mkCapability name description input output).

Definition auth_from_json (a : jv) : option AuthSchema :=
  type ← at_get get_string a "type";
  description ← at_get get_string a "description";
  Some (mkAuth type description).

Definition card_from_json (j : jv) : option AgentCard :=
  name ← at_get get_string j "name";
  description ← at_get get_string j "description";
  url ← at_get get_string j "url";
  version ← at_get get_string j "version";
  caps ← (if contains j "capabilities"
          then cs ← at_key j "capabilities"; mapM capability_from_json (items cs) else Some []);
  auth ← opt_get auth_from_json j "auth";
  did ← opt_get get_string j "identityDid";
  metadata ← opt_get Some j "metadata";
  Some (mkCard name description url version caps auth did (default jnull metadata)).

Definition validate_card (c : AgentCard) : expected unit str :=
  match card_name c with
  | [] => Unexpected (lit "agent card name must not be empty")
  | _ =>
    match card_url c with
    | [] => Unexpected (lit "agent card url must not be empty")
    | _ =>
      match card_capabilities c with
      | [] => Unexpected (lit "agent card must have at least one capability")
      | _ => Ok tt
      end
    end
  end.
End messages.

(** ** The binary form of a card *)

(** [std::memcpy] of a [uint32_t] on a little-endian host, and back. *)
Definition le32 (v : Z) : str := [chr v; chr (v / 2 ^ 8); chr (v / 2 ^ 16); chr (v / 2 ^ 24)].
Definition le32_value (a b c d : ascii) : Z :=
  (code a + code b * 2 ^ 8 + code c * 2 ^ 16 + code d * 2 ^ 24)%Z.

(** The bytes written so far and the room left in the buffer. *)
Record Cursor : Type := mkCursor { written : str; room : nat }.

Definition put_bytes (bytes : str) (p : Cursor) : option Cursor :=
  if (length bytes <=? room p)%nat
  then Some (mkCursor (written p ++ bytes) (room p - length bytes)) else None.

Definition write_u32 (v : Z) (p : Cursor) : option Cursor := put_bytes (le32 (u32 v)) p.

Definition write_str (s : str) (p : Cursor) : option Cursor :=
  p ← put_bytes (le32 (u32 (Z.of_nat (length s)))) p; put_bytes s p.

Definition write_capability `{Json} (c : Capability) (p : Cursor) : option Cursor :=
  p ← write_str (cap_name c) p; write_str (cap_description c) p.

Fixpoint write_capabilities `{Json} (cs : list Capability) (p : Cursor) : option Cursor :=
  match cs with
  | [] => Some p
  | c :: cs => p ← write_capability c p; write_capabilities cs p
  end.

Definition msgpack_size `{Json} (c : AgentCard) : nat :=
  foldl (fun total cap => total + ((4 + length (cap_name cap)) + (4 + length (cap_description cap))))
    ((4 + length (card_name c)) + (4 + length (card_description c))
     + (4 + length (card_url c)) + (4 + length (card_version c)) + 4) (card_capabilities c).

Definition to_msgpack `{Json} (c : AgentCard) : option str :=
  p ← write_str (card_name c) (mkCursor [] (msgpack_size c));
  p ← write_str (card_description c) p;
  p ← write_str (card_url c) p;
  p ← write_str (card_version c) p;
  p ← write_u32 (Z.of_nat (length (card_capabilities c))) p;
  p ← write_capabilities (card_capabilities c) p;
  (** bytes never written keep the zero they were allocated with *)
  Some (written p ++ replicate (room p) "000"%char).

Inductive MsgpackError : Type :=
| TruncatedStringLength | StringExceedsBuffer | TruncatedCapabilityCount | UnreasonableCapabilityCount.

(** [read_into]: the string read and the unread bytes. *)
Definition read_into (p : str) : expected (str * str) MsgpackError :=
  match p with
  | a :: b :: c :: d :: p =>
    if (u32 (Z.of_nat (length p)) <? le32_value a b c d)%Z then Unexpected StringExceedsBuffer
    else let n := Z.to_nat (le32_value a b c d) in Ok (take n p, drop n p)
  | _ => Unexpected TruncatedStringLength
  end.

Fixpoint read_capabilities `{Json} (n : nat) (p : str) : expected (list Capability * str) MsgpackError :=
  match n with
  | O => Ok ([], p)
  | S n =>
    let? name := read_into p in
    let? description := read_into (snd name) in
    let? rest := read_capabilities n (snd description) in
    Ok (mkCapability (fst name) (fst description) None None :: fst rest, snd rest)
  end.

Definition from_msgpack `{Json} (data : str) : expected AgentCard MsgpackError :=
  let? name := read_into data in
  let? description := read_into (snd name) in
  let? url := read_into (snd description) in
  let? version := read_into (snd url) in
  match snd version with
  | a :: b :: c :: d :: p =>
    if (10000 <? le32_value a b c d)%Z then Unexpected UnreasonableCapabilityCount
    else
      let? caps := read_capabilities (Z.to_nat (le32_value a b c d)) p in
      Ok (mkCard (fst name) (fst description) (fst url) (fst version) (fst caps) None None jnull)
  | _ => Unexpected TruncatedCapabilityCount
  end.

(** ** JSON round trips *)

Section json_roundtrips.
Context `{JsonOk}.

Lemma part_roundtrip p : part_from_json (part_to_json p) = Some p.
Proof. unfold part_from_json, part_to_json. destruct p as [t c [mm|]]; by read_object. Qed.

Lemma message_roundtrip m : message_from_json (message_to_json m) = Some m.
Proof.
  unfold message_from_json, message_to_json. destruct m as [r c ps]. read_object.
  rewrite mapM_roundtrip; [done|]. intros p _. apply part_roundtrip.
Qed.

Lemma artifact_roundtrip a : artifact_from_json (artifact_to_json a) = Some a.
Proof. unfold artifact_from_json, artifact_to_json. destruct a. by read_object. Qed.

Lemma bid_request_roundtrip r :
  int32 (br_max_latency r) -> bid_request_from_json (bid_request_to_json r) = Some r.
Proof.
  unfold bid_request_from_json, bid_request_to_json. destruct r. intros Hr. read_object.
  by rewrite get_int_int.
Qed.

Lemma bid_response_roundtrip r :
  int32 (bs_latency r) -> bid_response_from_json (bid_response_to_json r) = Some r.
Proof.
  unfold bid_response_from_json, bid_response_to_json. destruct r. intros Hr. read_object.
  rewrite get_int_int by done. by read_object.
Qed.

Lemma capability_roundtrip c : capability_from_json (capability_to_json c) = Some c.
Proof.
  unfold capability_from_json, capability_to_json. destruct c as [n d [i|] [o|]]; by read_object.
Qed.

Lemma auth_roundtrip a : auth_from_json (auth_to_json a) = Some a.
Proof. unfold auth_from_json, auth_to_json. destruct a. by read_object. Qed.

Lemma card_roundtrip c : card_from_json (card_to_json c) = Some c.
Proof.
  unfold card_from_json, card_to_json. destruct c as [n d u v cs a did md]. cbn [card_metadata].
  destruct (is_null md) eqn:Hn; destruct a as [a|], did as [did|]; read_object;
    rewrite mapM_roundtrip by (intros; apply capability_roundtrip); read_object;
    rewrite ?auth_roundtrip; read_object; try done; apply null_is_null in Hn; by subst.
Qed.
End json_roundtrips.

(** ** The binary codec *)

Lemma le32_length v : length (le32 v) = 4.
Proof. done. Qed.

Lemma le32_value_range a b c d : (0 <= le32_value a b c d < 2 ^ 32)%Z.
Proof.
  unfold le32_value. pose proof (code_range a). pose proof (code_range b).
  pose proof (code_range c). pose proof (code_range d). lia.
Qed.

Lemma code_chr_u8 v : code (chr v) = (v mod 2 ^ 8)%Z.
Proof.
  assert (chr v = chr (v mod 2 ^ 8)) as ->.
  { unfold chr, u8. by rewrite Z.mod_mod. }
  apply code_chr, Z.mod_pos_bound. lia.
Qed.

(** Decoding the four bytes of a 32-bit number gives the number. *)
Lemma le32_decode v : (0 <= v < 2 ^ 32)%Z ->
  le32_value (chr v) (chr (v / 2 ^ 8)) (chr (v / 2 ^ 16)) (chr (v / 2 ^ 24)) = v.
Proof.
  intros Hv. unfold le32_value. rewrite !code_chr_u8. Z.to_euclidean_division_equations; lia.
Qed.

Lemma le32_encode a b c d : le32 (le32_value a b c d) = [a; b; c; d].
Proof.
  unfold le32, le32_value. pose proof (code_range a). pose proof (code_range b).
  pose proof (code_range c). pose proof (code_range d).
  repeat f_equal; apply code_inj; rewrite code_chr_u8; Z.to_euclidean_division_equations; lia.
Qed.

Definition enc_str (s : str) : str := le32 (u32 (Z.of_nat (length s))) ++ s.

Lemma enc_str_length s : length (enc_str s) = 4 + length s.
Proof. unfold enc_str. by rewrite length_app. Qed.

Lemma put_bytes_fits bs w n :
  put_bytes bs (mkCursor w (length bs + n)) = Some (mkCursor (w ++ bs) n).
Proof.
  unfold put_bytes. cbn [room written]. rewrite (proj2 (Nat.leb_le _ _)) by lia.
  by replace (length bs + n - length bs) with n by lia.
Qed.

Lemma write_str_fits s w n :
  write_str s (mkCursor w (length (enc_str s) + n)) = Some (mkCursor (w ++ enc_str s) n).
Proof.
  unfold write_str. rewrite enc_str_length.
  change (4 + length s + n) with (length (le32 (u32 (Z.of_nat (length s)))) + (length s + n)).
  rewrite put_bytes_fits. cbn [mbind option_bind]. rewrite put_bytes_fits.
  unfold enc_str. by rewrite app_assoc.
Qed.

Section codec.
Context `{Json}.

Definition enc_cap (c : Capability) : str := enc_str (cap_name c) ++ enc_str (cap_description c).

(** The bytes of a card's binary form. *)
Definition encoding (c : AgentCard) : str :=
  enc_str (card_name c) ++ enc_str (card_description c) ++ enc_str (card_url c)
  ++ enc_str (card_version c) ++ le32 (u32 (Z.of_nat (length (card_capabilities c))))
  ++ flat_map enc_cap (card_capabilities c).

(** What the binary form keeps of a card. *)
Definition bare_cap (c : Capability) : Capability := mkCapability (cap_name c) (cap_description c) None None.
Definition bare_card (c : AgentCard) : AgentCard :=
  mkCard (card_name c) (card_description c) (card_url c) (card_version c)
    (bare_cap <$> card_capabilities c) None None jnull.

Lemma write_capabilities_fits cs w n :
  write_capabilities cs (mkCursor w (length (flat_map enc_cap cs) + n))
  = Some (mkCursor (w ++ flat_map enc_cap cs) n).
Proof.
  revert w. induction cs as [|c cs IH]; intros w; [simpl; by rewrite app_nil_r|].
  cbn [write_capabilities flat_map]. unfold write_capability, enc_cap at 1 3. rewrite !length_app, <-!Nat.add_assoc, write_str_fits.
  cbn [mbind option_bind]. rewrite write_str_fits. cbn [mbind option_bind]. rewrite IH.
  by rewrite <-!app_assoc.
Qed.

Lemma msgpack_size_encoding c : msgpack_size c = length (encoding c).
Proof.
  unfold msgpack_size, encoding. rewrite !length_app, !enc_str_length, le32_length.
  assert (forall n, foldl (fun total cap => total + ((4 + length (cap_name cap))
      + (4 + length (cap_description cap)))) n (card_capabilities c)
      = n + length (flat_map enc_cap (card_capabilities c))) as ->; [|lia].
  induction (card_capabilities c) as [|x cs IH]; intros n; cbn [foldl flat_map]; [simpl; lia|].
  rewrite IH. unfold enc_cap at 2. rewrite !length_app, !enc_str_length. lia.
Qed.

(** The writer stays in its buffer and fills it. *)
Lemma to_msgpack_encoding c : to_msgpack c = Some (encoding c).
Proof.
  unfold to_msgpack. rewrite msgpack_size_encoding. unfold encoding at 1. rewrite !length_app.
  rewrite write_str_fits. cbn [mbind option_bind]. rewrite write_str_fits. cbn [mbind option_bind].
  rewrite write_str_fits. cbn [mbind option_bind]. rewrite write_str_fits. cbn [mbind option_bind].
  unfold write_u32. rewrite put_bytes_fits. cbn [mbind option_bind].
  rewrite <-(Nat.add_0_r (length (flat_map _ _))), write_capabilities_fits.
  cbn [mbind option_bind written room replicate]. unfold encoding. by rewrite app_nil_r, <-!app_assoc.
Qed.

Lemma read_into_enc s rest :
  (Z.of_nat (length (enc_str s ++ rest)) < 2 ^ 32)%Z -> read_into (enc_str s ++ rest) = Ok (s, rest).
Proof.
  rewrite length_app, enc_str_length. intros Hl. unfold enc_str, le32, read_into. simpl app.
  assert (u32 (Z.of_nat (length s)) = Z.of_nat (length s)) as -> by (apply Z.mod_small; lia).
  rewrite le32_decode by lia. unfold u32. rewrite Z.mod_small by (rewrite length_app; lia).
  rewrite (proj2 (Z.ltb_ge _ _)) by (rewrite length_app; lia).
  by rewrite Nat2Z.id, take_app_length, drop_app_length.
Qed.

Lemma read_into_Ok p s rest :
  read_into p = Ok (s, rest) -> p = enc_str s ++ rest.
Proof.
  unfold read_into. destruct p as [|a [|b [|c [|d p]]]]; try done. case_match eqn:E; [done|].
  intros [= <- <-]. apply Z.ltb_ge in E. pose proof (le32_value_range a b c d) as Hv.
  pose proof (Z.mod_le (Z.of_nat (length p)) (2 ^ 32) ltac:(lia) ltac:(lia)). unfold u32 in E.
  unfold enc_str. rewrite length_take_le by lia. rewrite Z2Nat.id by lia.
  unfold u32. rewrite Z.mod_small by lia. rewrite le32_encode. simpl. by rewrite take_drop.
Qed.

Lemma read_capabilities_enc cs rest :
  (Z.of_nat (length (flat_map enc_cap cs ++ rest)) < 2 ^ 32)%Z ->
  read_capabilities (length cs) (flat_map enc_cap cs ++ rest) = Ok (bare_cap <$> cs, rest).
Proof.
  induction cs as [|c cs IH]; intros Hl; [done|].
  cbn [flat_map length read_capabilities] in *. unfold enc_cap at 1 in Hl. unfold enc_cap at 1.
  rewrite <-!app_assoc in *. rewrite read_into_enc by done. cbn [fst snd]. rewrite !length_app in *.
  rewrite read_into_enc by (rewrite !length_app; lia). cbn [fst snd].
  rewrite IH by lia. done.
Qed.

Lemma read_capabilities_Ok n p cs rest :
  read_capabilities n p = Ok (cs, rest) ->
  p = flat_map enc_cap cs ++ rest /\ length cs = n /\ bare_cap <$> cs = cs.
Proof.
  revert p cs rest. induction n as [|n IH]; intros p cs rest; simpl; [naive_solver|].
  destruct (read_into p) as [[s p1]|] eqn:E1; [|done]. simpl.
  destruct (read_into p1) as [[s' p2]|] eqn:E2; [|done]. simpl.
  destruct (read_capabilities n p2) as [[cs' p3]|] eqn:E3; [|done]. intros [= <- <-].
  apply read_into_Ok in E1 as ->. apply read_into_Ok in E2 as ->.
  apply IH in E3 as (-> & <- & Hb). cbn [flat_map fst snd length]. unfold enc_cap at 2.
  cbn [cap_name cap_description]. rewrite <-!app_assoc. split; [done|]. split; [done|].
  rewrite fmap_cons, Hb. done.
Qed.

(** Reading an encoding followed by anything gives the card back. *)
Lemma from_msgpack_app c rest :
  (Z.of_nat (length (card_capabilities c)) <= 10000)%Z -> (Z.of_nat (length (encoding c ++ rest)) < 2 ^ 32)%Z ->
  from_msgpack (encoding c ++ rest) = Ok (bare_card c).
Proof.
  intros Hn Hl. unfold encoding, from_msgpack in *. rewrite <-!app_assoc in *.
  repeat (rewrite read_into_enc; [cbn [snd fst]; rewrite length_app in Hl
          | rewrite ?length_app in *; lia]).
  set (n := length (card_capabilities c)) in *.
  assert (u32 (Z.of_nat n) = Z.of_nat n) as -> by (apply Z.mod_small; lia).
  unfold le32. cbn [app]. rewrite le32_decode by lia. rewrite (proj2 (Z.ltb_ge _ _)) by lia.
  rewrite Nat2Z.id. unfold n. rewrite read_capabilities_enc; [done|].
  rewrite !length_app in *. lia.
Qed.

Lemma from_msgpack_Ok data c :
  from_msgpack data = Ok c ->
  bare_card c = c /\ (Z.of_nat (length (card_capabilities c)) <= 10000)%Z /\ exists rest, data = encoding c ++ rest.
Proof.
  unfold from_msgpack. destruct (read_into data) as [[s1 p1]|] eqn:E1; [|done]. simpl.
  destruct (read_into p1) as [[s2 p2]|] eqn:E2; [|done]. simpl.
  destruct (read_into p2) as [[s3 p3]|] eqn:E3; [|done]. simpl.
  destruct (read_into p3) as [[s4 p4]|] eqn:E4; [|done]. simpl.
  destruct p4 as [|w [|x [|y [|z p]]]]; try done. case_match eqn:E; [done|].
  destruct (read_capabilities _ p) as [[cs rest]|] eqn:E5; [|done]. intros [= <-].
  apply read_into_Ok in E1 as ->, E2 as ->, E3 as ->, E4 as E4. subst p3.
  apply read_capabilities_Ok in E5 as (-> & Hn & Hb). apply Z.ltb_ge in E.
  pose proof (le32_value_range w x y z) as Hr.
  split; [unfold bare_card; simpl; by rewrite Hb|]. split; [simpl; lia|]. exists rest.
  change (enc_str s1 ++ enc_str s2 ++ enc_str s3 ++ enc_str s4
    ++ [w; x; y; z] ++ flat_map enc_cap cs ++ rest
    = (enc_str s1 ++ enc_str s2 ++ enc_str s3 ++ enc_str s4
       ++ le32 (u32 (Z.of_nat (length cs))) ++ flat_map enc_cap cs) ++ rest).
  rewrite Hn, Z2Nat.id by lia.
  assert (u32 (le32_value w x y z) = le32_value w x y z) as -> by exact (Z.mod_small _ _ Hr).
  by rewrite le32_encode, <-!app_assoc.
Qed.
End codec.

(** ** Properties *)

(** Every message, artifact and card survives its JSON conversion, and so
    does every bid whose latency is an [int]. *)
Lemma a2a_json_roundtrips `{JsonOk} (m : A2AMessage) (a : Artifact) (c : AgentCard)
    (q : BidRequest) (r : BidResponse) :
  message_from_json (message_to_json m) = Some m /\
  artifact_from_json (artifact_to_json a) = Some a /\
  card_from_json (card_to_json c) = Some c /\
  (int32 (br_max_latency q) -> bid_request_from_json (bid_request_to_json q) = Some q) /\
  (int32 (bs_latency r) -> bid_response_from_json (bid_response_to_json r) = Some r).
Proof.
  split_and!; [apply message_roundtrip | apply artifact_roundtrip | apply card_roundtrip
              | apply bid_request_roundtrip | apply bid_response_roundtrip].
Qed.

(** The binary writer never leaves its precomputed buffer and fills it
    exactly, and reading the buffer, whatever follows it, gives back the card
    without the fields the format leaves out, for at most 10000 capabilities
    and less than 4 GiB. *)
Lemma msgpack_roundtrip `{Json} (c : AgentCard) rest :
  (Z.of_nat (length (card_capabilities c)) <= 10000)%Z ->
  (Z.of_nat (msgpack_size c + length rest) < 2 ^ 32)%Z ->
  exists buf, to_msgpack c = Some buf /\ length buf = msgpack_size c /\
    from_msgpack (buf ++ rest) = Ok (bare_card c).
Proof.
  intros Hn Hl. exists (encoding c). rewrite to_msgpack_encoding, msgpack_size_encoding in *.
  split_and!; [done..|]. apply from_msgpack_app; [done|]. by rewrite length_app.
Qed.

(** The binary reader is sound and sees truncation: what it accepts
    starts with the binary form of the card it returns, and a buffer of less
    than 4 GiB cut anywhere before its end is rejected. *)
Lemma msgpack_rejects_truncation `{Json} (data : str) (c : AgentCard) :
  from_msgpack data = Ok c ->
  (exists buf rest, to_msgpack c = Some buf /\ data = buf ++ rest) /\
  forall buf k, to_msgpack c = Some buf -> (k < length buf)%nat ->
    (Z.of_nat (length buf) < 2 ^ 32)%Z -> has_value (from_msgpack (take k buf)) = false.
Proof.
  intros Hd. apply from_msgpack_Ok in Hd as (Hb & Hn & rest & ->). rewrite to_msgpack_encoding.
  split; [by exists (encoding c), rest|]. intros buf k [= <-] Hk Hl.
  destruct (from_msgpack (take k (encoding c))) as [c'|] eqn:E; [|done].
  apply from_msgpack_Ok in E as (Hb' & Hn' & rest' & E).
  assert (encoding c = encoding c' ++ rest' ++ drop k (encoding c)) as Hs.
  { by rewrite app_assoc, <-E, take_drop. }
  pose proof (from_msgpack_app c [] Hn) as H1. rewrite app_nil_r in H1. specialize (H1 Hl).
  pose proof (from_msgpack_app c' (rest' ++ drop k (encoding c)) Hn') as H2.
  rewrite <-Hs in H2. specialize (H2 Hl). rewrite H1, Hb, Hb' in H2. simplify_eq.
  apply (f_equal length) in E. rewrite length_take, length_app in E. lia.
Qed.

(** ** Examples *)

Definition sample_card `{Json} : AgentCard :=
  mkCard (lit "n") (lit "d") (lit "u") (lit "1") [mkCapability (lit "c") [] None (Some jnull)]
    (Some (mkAuth (lit "bearer") [])) None jnull.

Lemma a2a_json_roundtrips_witness :
  @card_from_json SampleJson.json (@card_to_json SampleJson.json (@sample_card SampleJson.json))
  = Some (@sample_card SampleJson.json).
Proof.
  exact (proj1 (proj2 (proj2 (@a2a_json_roundtrips SampleJson.json SampleJson.json_ok
    (mkMessage [] [] []) (mkArtifact [] [] []) (@sample_card SampleJson.json)
    (mkBidRequest [] [] 0) (mkBidResponse [] [] d_zero 0 false))))).
Defined.

Lemma msgpack_roundtrip_witness :
  exists buf, @to_msgpack SampleJson.json (@sample_card SampleJson.json) = Some buf /\
    length buf = 33%nat /\
    @from_msgpack SampleJson.json (buf ++ [])
    = Ok (@bare_card SampleJson.json (@sample_card SampleJson.json)).
Proof. apply (@msgpack_roundtrip SampleJson.json (@sample_card SampleJson.json) []); done. Defined.

Lemma msgpack_rejects_truncation_witness :
  exists buf rest, @to_msgpack SampleJson.json
    (@bare_card SampleJson.json (@sample_card SampleJson.json)) = Some buf
    /\ @encoding SampleJson.json (@sample_card SampleJson.json) ++ lit "junk" = buf ++ rest.
Proof.
  apply (@msgpack_rejects_truncation SampleJson.json
    (@encoding SampleJson.json (@sample_card SampleJson.json) ++ lit "junk")
    (@bare_card SampleJson.json (@sample_card SampleJson.json))).
  reflexivity.
Defined.
