(* ===== verification/A2aTask.v ===== *)
(** * Agent-to-agent tasks: [libs/a2a/src/task.cpp] and [server.cpp]

    The task life cycle, its hand-written formatters for identifiers and
    timestamps, and the JSON-RPC handler that keeps tasks.  The random bytes
    and the clock reading a call uses are arguments; libsodium's
    [sodium_bin2hex] is the class [Bin2Hex]. *)

From Stdlib Require Import ZArith Ascii String Lia.
From stdpp Require Import base list gmap strings.
From S2P Require Import Prelude CxxString Clock Doubles Json A2aTypes.

(** ** Tasks *)

Inductive TaskStatus : Type := Pending | Active | Completed | Failed | Cancelled.
#[export] Instance TaskStatus_eq_dec : EqDecision TaskStatus.
Proof. solve_decision. Defined.

Definition status_string (s : TaskStatus) : str :=
  match s with
  | Pending => lit "pending" | Active => lit "active" | Completed => lit "completed"
  | Failed => lit "failed" | Cancelled => lit "cancelled"
  end.

Record A2ATask : Type := mkTask {
  task_id : str; task_status : TaskStatus; task_created_at : str; task_updated_at : str;
  task_messages : list A2AMessage; task_artifacts : list Artifact; task_history : list TaskStatus;
}.

(** [sodium_bin2hex]: two digits per byte, and no two inputs alike. *)
Class Bin2Hex : Type := {
  bin2hex : str -> str;
  bin2hex_length b : length (bin2hex b) = 2 * length b;
  bin2hex_inj b b' : bin2hex b = bin2hex b' -> b = b';
}.

(** [std::memcpy(out.data() + pos, bytes, n)] inside [out]. *)
Definition memcpy_at (out : str) (pos : nat) (bytes : str) : str :=
  take pos out ++ bytes ++ drop (pos + length bytes) out.

Definition generate_uuid `{Bin2Hex} (buf : str) : str :=
  let hex := bin2hex buf in
  let out := replicate 36 "-"%char in
  let out := memcpy_at out 0 (substr hex 0 8) in
  let out := memcpy_at out 9 (substr hex 8 4) in
  let out := memcpy_at out 14 (substr hex 12 4) in
  let out := memcpy_at out 19 (substr hex 16 4) in
  memcpy_at out 24 (substr hex 20 12).

(** [static_cast<char>('0' + v)], and the fixed-width digit writers. *)
Definition digit_char (v : Z) : ascii := chr (48 + v).
Definition put2 (v : Z) : str := [digit_char (v ÷ 10); digit_char (Z.rem v 10)].
Definition put4 (v : Z) : str :=
  [digit_char (v ÷ 1000); digit_char (Z.rem (v ÷ 100) 10); digit_char (Z.rem (v ÷ 10) 10);
   digit_char (Z.rem v 10)].

Definition now_iso8601 (t : Z) : str :=
  let utc := gmtime t in
  put4 (tm_year utc) ++ lit "-" ++ put2 (tm_mon utc) ++ lit "-" ++ put2 (tm_mday utc) ++ lit "T"
  ++ put2 (tm_hour utc) ++ lit ":" ++ put2 (tm_min utc) ++ lit ":" ++ put2 (tm_sec utc) ++ lit "Z".

Definition is_terminal (s : TaskStatus) : bool :=
  bool_decide (s = Completed) || bool_decide (s = Failed) || bool_decide (s = Cancelled).

Definition is_valid_transition (from to : TaskStatus) : bool :=
  match from with
  | Pending => bool_decide (to = Active) || bool_decide (to = Cancelled) || bool_decide (to = Failed)
  | Active => bool_decide (to = Completed) || bool_decide (to = Failed) || bool_decide (to = Cancelled)
  | Completed | Failed | Cancelled => false
  end.

Definition create_task `{Bin2Hex} (buf : str) (now : Z) (message : str) : A2ATask :=
  let created := now_iso8601 now in
  let messages :=
    match message with
    | [] => []
    | _ => [mkMessage (lit "user") created [mkPart (lit "text") message None]]
    end in
  mkTask (generate_uuid buf) Pending created created messages [] [].

Definition transition_task (task : A2ATask) (new_status : TaskStatus) (now : Z) :
    expected unit str * A2ATask :=
  if is_terminal (task_status task) then
    (Unexpected (lit "cannot transition from terminal state '" ++ status_string (task_status task)
                 ++ lit "'"), task)
  else if negb (is_valid_transition (task_status task) new_status) then
    (Unexpected (lit "invalid transition from '" ++ status_string (task_status task) ++ lit "' to '"
                 ++ status_string new_status ++ lit "'"), task)
  else
    (Ok tt, mkTask (task_id task) new_status (task_created_at task) (now_iso8601 now)
              (task_messages task) (task_artifacts task)
              (task_history task ++ [task_status task])).

Section server.
Context `{Json} `{Bin2Hex}.

Definition task_to_json (t : A2ATask) : jv :=
  object [(lit "id", jstr (task_id t)); (lit "status", jstr (status_string (task_status t)));
          (lit "createdAt", jstr (task_created_at t)); (lit "updatedAt", jstr (task_updated_at t));
          (lit "messages", jarr (message_to_json <$> task_messages t));
          (lit "artifacts", jarr (artifact_to_json <$> task_artifacts t));
          (lit "history", jarr ((fun h => jstr (status_string h)) <$> task_history t))].

(** ** The request handler *)

Record A2AServerHandler : Type := mkHandler { srv_card : AgentCard; srv_tasks : gmap str A2ATask }.

Definition new_handler (card : AgentCard) : A2AServerHandler := mkHandler card ∅.

Definition result_of (j : jv) : jv := object [(lit "result", j)].
Definition error_of (code : Z) (message : str) : jv :=
  object [(lit "error", object [(lit "code", jint code); (lit "message", jstr message)])].

(** [params.contains(k) && params[k].is_string()], then [get<std::string>] *)
Definition string_param (params : jv) (k : string) : option str := at_get get_string params k.

Definition handle_agent_card (h : A2AServerHandler) : jv := result_of (card_to_json (srv_card h)).

Definition handle_task_create (h : A2AServerHandler) (buf : str) (now : Z) (params : jv) :
    jv * A2AServerHandler :=
  let task := create_task buf now (default [] (string_param params "message")) in
  (** [emplace] keeps a task that already has the identifier *)
  match srv_tasks h !! task_id task with
  | Some old => (result_of (task_to_json old), h)
  | None => (result_of (task_to_json task), mkHandler (srv_card h) (<[task_id task := task]> (srv_tasks h)))
  end.

Definition handle_task_get (h : A2AServerHandler) (params : jv) : jv :=
  match string_param params "id" with
  | None => error_of (-32602) (lit "missing or invalid 'id' parameter")
  | Some id =>
    match srv_tasks h !! id with
    | None => error_of (-32602) (lit "task not found: " ++ id)
    | Some t => result_of (task_to_json t)
    end
  end.

Definition handle_task_cancel (h : A2AServerHandler) (now : Z) (params : jv) : jv * A2AServerHandler :=
  match string_param params "id" with
  | None => (error_of (-32602) (lit "missing or invalid 'id' parameter"), h)
  | Some id =>
    match srv_tasks h !! id with
    | None => (error_of (-32602) (lit "task not found: " ++ id), h)
    | Some t =>
      match transition_task t Cancelled now with
      | (Unexpected e, _) => (error_of (-32603) e, h)
      | (Ok _, t') => (result_of (task_to_json t'), mkHandler (srv_card h) (<[id := t']> (srv_tasks h)))
      end
    end
  end.

Definition handle_capabilities_list (h : A2AServerHandler) : jv :=
  result_of (jarr (capability_to_json <$> card_capabilities (srv_card h))).

Definition handle_request (h : A2AServerHandler) (buf : str) (now : Z) (method : str) (params : jv) :
    jv * A2AServerHandler :=
  if bool_decide (method = lit "agent/card") then (handle_agent_card h, h)
  else if bool_decide (method = lit "task/create") then handle_task_create h buf now params
  else if bool_decide (method = lit "task/get") then (handle_task_get h params, h)
  else if bool_decide (method = lit "task/cancel") then handle_task_cancel h now params
  else if bool_decide (method = lit "capabilities/list") then (handle_capabilities_list h, h)
  else (error_of (-32601) (lit "unknown method: " ++ method), h).

(** One request, with the random bytes and the clock reading it draws. *)
Record Request : Type := mkRequest { rq_random : str; rq_now : Z; rq_method : str; rq_params : jv }.

Definition serve (h : A2AServerHandler) (r : Request) : jv * A2AServerHandler :=
  handle_request h (rq_random r) (rq_now r) (rq_method r) (rq_params r).
End server.

(** ** The formatters *)

Lemma put2_pad2 v : (0 <= v)%Z -> put2 v = pad2 v.
Proof. intros Hv. unfold put2, pad2. by rewrite Z.quot_div_nonneg, Z.rem_mod_nonneg by lia. Qed.

Lemma put4_pad2 v : (0 <= v <= 9999)%Z -> put4 v = pad2 (v / 100) ++ pad2 (v mod 100).
Proof.
  intros Hv. unfold put4, pad2, digit_char, dec_digit. simpl.
  rewrite !Z.quot_div_nonneg by lia. rewrite !Z.rem_mod_nonneg by (Z.to_euclidean_division_equations; lia).
  assert (v / 1000 = v / 100 / 10 /\ v / 10 mod 10 = v mod 100 / 10 /\ v mod 10 = v mod 100 mod 10)%Z
    as (-> & -> & ->); [|done].
  split_and!; Z.to_euclidean_division_equations; lia.
Qed.

(** The five groups of an identifier. *)
Lemma generate_uuid_groups `{Bin2Hex} buf : length buf = 16 ->
  let hex := bin2hex buf in
  generate_uuid buf = substr hex 0 8 ++ lit "-" ++ substr hex 8 4 ++ lit "-" ++ substr hex 12 4
    ++ lit "-" ++ substr hex 16 4 ++ lit "-" ++ substr hex 20 12.
Proof.
  intros Hb. pose proof (bin2hex_length buf) as Hl. rewrite Hb in Hl. unfold generate_uuid.
  cbv zeta. generalize dependent (bin2hex buf). intros hex Hl.
  do 32 (destruct hex as [|? hex]; [done|]). by destruct hex.
Qed.

(** ** Life cycles *)

(** A history that the transition table allows, from a pending task. *)
Inductive lifecycle : list TaskStatus -> TaskStatus -> Prop :=
| lc_start : lifecycle [] Pending
| lc_step h s s' : lifecycle h s -> is_valid_transition s s' = true -> lifecycle (h ++ [s]) s'.

Lemma valid_not_terminal s s' : is_valid_transition s s' = true -> is_terminal s = false.
Proof. by destruct s, s'. Qed.

Lemma cancel_valid s : is_terminal s = false -> is_valid_transition s Cancelled = true.
Proof. by destruct s. Qed.

(** No history is longer than two transitions, and a live task is at most one
    transition old. *)
Lemma lifecycle_short h s :
  lifecycle h s -> (length h <= 2)%nat /\ (is_terminal s = false -> (length h <= 1)%nat)
    /\ (s = Pending -> h = []).
Proof.
  induction 1 as [|h s s' Hl (H1 & H2 & H3) Hv]; [simpl; auto with lia|].
  rewrite length_app. simpl. pose proof (valid_not_terminal _ _ Hv) as Ht. specialize (H2 Ht).
  split; [lia|]. split; [|by destruct s, s'].
  intros Ht'. destruct s; [rewrite (H3 eq_refl); simpl; lia|by destruct s'|done..].
Qed.

Definition attempt (t : A2ATask) (a : TaskStatus * Z) : A2ATask := snd (transition_task t (fst a) (snd a)).

Lemma transition_cases t s now :
  (is_valid_transition (task_status t) s = true /\
   transition_task t s now =
     (Ok tt, mkTask (task_id t) s (task_created_at t) (now_iso8601 now) (task_messages t)
               (task_artifacts t) (task_history t ++ [task_status t]))) \/
  (is_valid_transition (task_status t) s = false /\ exists e, transition_task t s now = (Unexpected e, t)).
Proof.
  unfold transition_task. destruct (is_valid_transition (task_status t) s) eqn:Hv.
  - left. by rewrite (valid_not_terminal _ _ Hv).
  - right. split; [done|]. destruct (is_terminal _); eauto.
Qed.

Lemma attempt_lifecycle t a :
  lifecycle (task_history t) (task_status t) ->
  lifecycle (task_history (attempt t a)) (task_status (attempt t a)).
Proof.
  intros Hl. unfold attempt. destruct (transition_cases t (fst a) (snd a)) as [[Hv ->]|[_ [e ->]]].
  - by apply lc_step.
  - done.
Qed.

Lemma attempt_keeps t a :
  task_id (attempt t a) = task_id t /\ task_created_at (attempt t a) = task_created_at t
  /\ task_messages (attempt t a) = task_messages t.
Proof. unfold attempt. destruct (transition_cases t (fst a) (snd a)) as [[Hv ->]|[_ [e ->]]]; done. Qed.

Lemma attempts_run t0 attempts :
  lifecycle (task_history t0) (task_status t0) ->
  let t := foldl attempt t0 attempts in
  lifecycle (task_history t) (task_status t) /\
  (task_id t, task_created_at t, task_messages t) = (task_id t0, task_created_at t0, task_messages t0).
Proof.
  revert t0. induction attempts as [|a l IH]; intros t0 H0; [done|]. simpl.
  destruct (IH (attempt t0 a) (attempt_lifecycle _ a H0)) as [H1 H2].
  destruct (attempt_keeps t0 a) as (E1 & E2 & E3). by rewrite <-E1, <-E2, <-E3.
Qed.

(** ** The handler against a table of statuses *)

Section refinement.
Context `{Json} `{Bin2Hex}.

(** What the handler promises: a table from identifiers to statuses. *)
Definition spec_serve (tasks : gmap str TaskStatus) (r : Request) : gmap str TaskStatus :=
  if bool_decide (rq_method r = lit "task/create") then
    let id := generate_uuid (rq_random r) in
    match tasks !! id with Some _ => tasks | None => <[id := Pending]> tasks end
  else if bool_decide (rq_method r = lit "task/cancel") then
    match string_param (rq_params r) "id" with
    | Some id =>
      match tasks !! id with
      | Some s => if is_terminal s then tasks else <[id := Cancelled]> tasks
      | None => tasks
      end
    | None => tasks
    end
  else tasks.

Definition status_table (h : A2AServerHandler) : gmap str TaskStatus := task_status <$> srv_tasks h.

Definition serve_all (h : A2AServerHandler) (rs : list Request) : A2AServerHandler :=
  foldl (fun h r => snd (serve h r)) h rs.

(** Every stored task is filed under its identifier with a possible history. *)
Definition tasks_ok (h : A2AServerHandler) : Prop :=
  map_Forall (fun id t => task_id t = id /\ lifecycle (task_history t) (task_status t)) (srv_tasks h).

Lemma create_step h buf now params :
  let h' := snd (handle_task_create h buf now params) in
  status_table h' =
    (match status_table h !! generate_uuid buf with
     | Some _ => status_table h | None => <[generate_uuid buf := Pending]> (status_table h) end)
  /\ (tasks_ok h -> tasks_ok h').
Proof.
  unfold handle_task_create. cbn zeta. set (t := create_task _ _ _).
  change (generate_uuid buf) with (task_id t). unfold status_table. rewrite lookup_fmap.
  destruct (srv_tasks h !! task_id t) as [old|] eqn:E; cbn [snd srv_tasks fmap option_fmap option_map].
  - done.
  - rewrite fmap_insert. split; [done|]. intros Hok. apply map_Forall_insert_2; [|done].
    split; [done|apply lc_start].
Qed.

Lemma cancel_step h now params :
  let h' := snd (handle_task_cancel h now params) in
  status_table h' =
    (match string_param params "id" with
     | Some id =>
       match status_table h !! id with
       | Some s => if is_terminal s then status_table h else <[id := Cancelled]> (status_table h)
       | None => status_table h
       end
     | None => status_table h
     end)
  /\ (tasks_ok h -> tasks_ok h').
Proof.
  unfold handle_task_cancel, status_table. destruct (string_param params "id") as [id|]; [|done].
  rewrite lookup_fmap. destruct (srv_tasks h !! id) as [t|] eqn:E; [|done].
  cbn [fmap option_fmap option_map].
  destruct (transition_cases t Cancelled now) as [[Hv ->]|[Hv [e ->]]]; cbn [snd srv_tasks].
  - rewrite (valid_not_terminal _ _ Hv), fmap_insert. split; [done|]. intros Hok.
    destruct (Hok id t E) as [Hid Hl]. apply map_Forall_insert_2; [|done].
    split; [done|]. by apply lc_step.
  - destruct (is_terminal (task_status t)) eqn:Ht; [done|]. by rewrite cancel_valid in Hv.
Qed.

Lemma serve_step h r :
  status_table (snd (serve h r)) = spec_serve (status_table h) r /\
  (tasks_ok h -> tasks_ok (snd (serve h r))).
Proof.
  unfold serve, handle_request, spec_serve.
  destruct (bool_decide (rq_method r = lit "agent/card")) eqn:E1.
  { apply bool_decide_eq_true in E1 as ->. done. }
  destruct (bool_decide (rq_method r = lit "task/create")) eqn:E2; [apply create_step|].
  destruct (bool_decide (rq_method r = lit "task/get")) eqn:E3.
  { apply bool_decide_eq_true in E3 as ->. done. }
  destruct (bool_decide (rq_method r = lit "task/cancel")) eqn:E4; [apply cancel_step|].
  by destruct (bool_decide (rq_method r = lit "capabilities/list")).
Qed.

Lemma serve_all_run h rs :
  status_table (serve_all h rs) = foldl spec_serve (status_table h) rs /\
  (tasks_ok h -> tasks_ok (serve_all h rs)).
Proof.
  revert h. induction rs as [|r rs IH]; intros h; [done|]. simpl.
  destruct (serve_step h r) as [H1 H2]. destruct (IH (snd (serve h r))) as [H3 H4].
  rewrite H3, H1. auto.
Qed.
End refinement.

(** ** Properties *)

(** The digit writer of the task module prints every instant up to the
    end of the year 9999 exactly as [strftime] does in the other modules. *)
Lemma task_clock_agrees t : clock_range t -> now_iso8601 t = iso8601 t.
Proof.
  intros [Ht Hy]. destruct (gmtime_fields t Ht) as (? & ? & ? & ? & ? & ?).
  unfold now_iso8601, iso8601. cbn zeta.
  rewrite to_string_year, put4_pad2, !put2_pad2 by lia. done.
Qed.

(** An identifier made from 16 random bytes has 36 characters with
    dashes after the 8th, 12th, 16th and 20th digit, and different bytes give
    different identifiers. *)
Lemma generate_uuid_spec `{Bin2Hex} buf :
  length buf = 16%nat ->
  length (generate_uuid buf) = 36%nat /\
  Forall (fun i => generate_uuid buf !! i = Some "-"%char) [8; 13; 18; 23]%nat /\
  forall buf', length buf' = 16%nat -> generate_uuid buf' = generate_uuid buf -> buf' = buf.
Proof.
  intros Hb. assert (forall b, length b = 16%nat -> length (bin2hex b) = 32%nat) as Hlen.
  { intros b Hl. by rewrite bin2hex_length, Hl. }
  split_and!.
  - rewrite generate_uuid_groups by done. pose proof (Hlen _ Hb) as Hl. unfold substr.
    rewrite !length_app, !length_take, !length_drop, Hl. done.
  - rewrite generate_uuid_groups by done. pose proof (Hlen _ Hb) as Hl. revert Hl.
    generalize (bin2hex buf). intros hex Hl. do 32 (destruct hex as [|? hex]; [done|]).
    repeat constructor.
  - intros buf' Hb' E. rewrite !generate_uuid_groups in E by done. cbn zeta in E.
    apply bin2hex_inj. pose proof (Hlen _ Hb) as Hl. pose proof (Hlen _ Hb') as Hl'. revert Hl Hl' E.
    generalize (bin2hex buf). generalize (bin2hex buf'). intros h' h Hl Hl'.
    do 32 (destruct h as [|? h]; [done|]). destruct h; [|done].
    do 32 (destruct h' as [|? h']; [done|]). destruct h'; [|done]. simpl. by intros [=]; subst.
Qed.

(** C17: whatever transitions are attempted on a new task, its history follows
    the transition table from [Pending], has at most two entries, and the
    identity of the task is kept; an attempt succeeds exactly when the table
    allows it, and a failed attempt changes nothing. *)
Theorem task_lifecycle `{Bin2Hex} buf now message attempts :
  let t0 := create_task buf now message in
  let t := foldl attempt t0 attempts in
  lifecycle (task_history t) (task_status t) /\ (length (task_history t) <= 2)%nat /\
  (task_id t, task_created_at t, task_messages t) = (task_id t0, task_created_at t0, task_messages t0) /\
  forall s now',
    if is_valid_transition (task_status t) s
    then fst (transition_task t s now') = Ok tt
         /\ task_status (snd (transition_task t s now')) = s
         /\ task_history (snd (transition_task t s now')) = task_history t ++ [task_status t]
    else exists e, transition_task t s now' = (Unexpected e, t).
Proof.
  intros t0 t. destruct (attempts_run t0 attempts lc_start) as [Hl Hk]. fold t in Hl, Hk.
  split_and!; [done|by apply lifecycle_short in Hl as (? & _)|done|].
  intros s now'. destruct (transition_cases t s now') as [[-> ->]|[-> [e ->]]]; [done|by exists e].
Qed.

(** C16: the request handler implements a table from task identifiers to
    statuses in which tasks only appear pending, only go from a live status to
    cancelled and never disappear; every stored task is filed under its own
    identifier with a history the transition table allows. *)
Theorem server_refines_table `{Json} `{Bin2Hex} card (rs : list Request) :
  let h := serve_all (new_handler card) rs in
  status_table h = foldl spec_serve ∅ rs /\ tasks_ok h /\
  forall id, is_Some (srv_tasks h !! id) ->
    forall rs', is_Some (srv_tasks (serve_all h rs') !! id).
Proof.
  intros h. destruct (serve_all_run (new_handler card) rs) as [H1 H2]. fold h in H1, H2.
  split_and!; [by rewrite H1; unfold status_table; simpl; rewrite fmap_empty|by apply H2, map_Forall_empty|].
  assert (forall (m : gmap str TaskStatus) rs' id, is_Some (m !! id) -> is_Some (foldl spec_serve m rs' !! id)) as Hmono.
  { clear. intros m rs'. revert m. induction rs' as [|r rs' IH]; intros m id Hi; [done|]. simpl. apply IH.
    unfold spec_serve. repeat case_match; try done; by apply lookup_insert_is_Some'; right. }
  intros id Hid rs'. destruct (serve_all_run h rs') as [H3 _].
  rewrite <-(fmap_is_Some task_status), <-lookup_fmap. fold (status_table (serve_all h rs')).
  rewrite H3. apply Hmono. unfold status_table. by rewrite lookup_fmap, fmap_is_Some.
Qed.

(** Cancelling a live task answers with the cancelled task, asking for it
    afterwards gives the same answer, and cancelling it again is the internal
    error with the terminal-state message and changes nothing. *)
Lemma cancel_then_get `{Json} `{Bin2Hex} h now now' params id t :
  string_param params "id" = Some id -> srv_tasks h !! id = Some t ->
  is_terminal (task_status t) = false ->
  let '(answer, h') := handle_task_cancel h now params in
  (exists t', srv_tasks h' !! id = Some t' /\ task_status t' = Cancelled /\
     answer = result_of (task_to_json t')) /\
  handle_task_get h' params = answer /\
  handle_task_cancel h' now' params
  = (error_of (-32603) (lit "cannot transition from terminal state 'cancelled'"), h').
Proof.
  intros Hp Ht Hlive. unfold handle_task_cancel, handle_task_get. rewrite Hp, Ht.
  destruct (transition_cases t Cancelled now) as [[_ ->]|[Hv _]].
  - cbn [srv_tasks]. rewrite lookup_insert_eq. split_and!; [by eexists|done|done].
  - by rewrite cancel_valid in Hv.
Qed.

(** ** Examples *)

Lemma task_clock_agrees_witness : now_iso8601 86399 = lit "1970-01-01T23:59:59Z".
Proof. rewrite task_clock_agrees; [reflexivity|]. split; [done|]. by vm_compute. Defined.

Definition twice (b : str) : str := b ++ b.
Lemma twice_length b : length (twice b) = 2 * length b.
Proof. unfold twice. rewrite length_app. lia. Qed.
Lemma twice_inj b b' : twice b = twice b' -> b = b'.
Proof.
  intros E. apply (app_inj_1 b b' b b'); [|done]. apply (f_equal length) in E.
  rewrite !twice_length in E. lia.
Qed.
#[local] Instance doubled : Bin2Hex :=
  {| bin2hex := twice; bin2hex_length := twice_length; bin2hex_inj := twice_inj |}.

Lemma generate_uuid_spec_witness : length (generate_uuid (lit "0123456789abcdef")) = 36%nat.
Proof. by apply generate_uuid_spec. Defined.

Definition one_task : @A2AServerHandler SampleJson.json :=
  @serve_all SampleJson.json doubled
    (@new_handler SampleJson.json (@sample_card SampleJson.json))
    [@mkRequest SampleJson.json (lit "0123456789abcdef") 0 (lit "task/create") SampleJson.Null].

Definition by_id (id : str) : SampleJson.value :=
  @object SampleJson.json [(lit "id", SampleJson.Str id)].

Lemma cancel_then_get_witness :
  exists h' answer,
    @handle_task_cancel SampleJson.json one_task 60
      (by_id (generate_uuid (lit "0123456789abcdef"))) = (answer, h') /\
    @handle_task_get SampleJson.json h' (by_id (generate_uuid (lit "0123456789abcdef"))) = answer.
Proof.
  destruct (@handle_task_cancel SampleJson.json one_task 60
    (by_id (generate_uuid (lit "0123456789abcdef")))) as [answer h'] eqn:E.
  pose proof (@cancel_then_get SampleJson.json doubled one_task 60 120
    (by_id (generate_uuid (lit "0123456789abcdef"))) (generate_uuid (lit "0123456789abcdef"))
    (create_task (lit "0123456789abcdef") 0 []) ltac:(by vm_compute) ltac:(by vm_compute)
    eq_refl) as Hc.
  rewrite E in Hc. exists h', answer. split; [done|]. exact (proj1 (proj2 Hc)).
Defined.
