(* ===== verification/Worklist.v ===== *)
(** * Breadth-first worklists

    Two analyses of the scanner ([compute_reachable] of [libs/reach] and
    [bfs_from_source] of [libs/taint]) run the same loop: pop the front of a
    FIFO queue, handle it, and push the successors whose node was not visited
    yet.  The loop is written once here, over a queue element type [Q] with a
    node id; each analysis supplies the handling ([visit]) and the successors
    ([expand]).  [fuel] bounds the number of pops: every node is pushed at
    most once, so the number of nodes is enough. *)

From Stdlib Require Import ZArith Lia.
From stdpp Require Import base list gmap.
From S2P Require Import Prelude.

Lemma size_difference_le (X Y : gset N) : (size (X ∖ Y) <= size X)%nat.
Proof. apply subseteq_size. set_solver. Qed.

Lemma size_list_to_set_le (l : list N) : (size (list_to_set l : gset N) <= length l)%nat.
Proof.
  induction l as [|x l IH]; [done|]. cbn [list_to_set length].
  rewrite size_union_alt, size_singleton.
  pose proof (size_difference_le (list_to_set l) {[x]}). lia.
Qed.

Section worklist.
  Context {Q : Type} (node : Q -> N).

(** [for (c : cands) if (visited.insert(c).second) push(c)]: the new visited
    set and the elements pushed. *)
Fixpoint push_new (visited : gset N) (cands : list Q) : gset N * list Q :=
  match cands with
  | [] => (visited, [])
  | c :: cands =>
      if bool_decide (node c ∈ visited) then push_new visited cands
      else let '(visited, new) := push_new ({[node c]} ∪ visited) cands in (visited, c :: new)
  end.

(** ** The pushes *)

Lemma push_new_spec visited cands v new :
  push_new visited cands = (v, new) ->
  v = visited ∪ list_to_set (node <$> new)
  /\ (forall c, c ∈ cands -> node c ∈ v)
  /\ (forall c, c ∈ new -> c ∈ cands /\ node c ∉ visited)
  /\ NoDup (node <$> new).
Proof.
  revert visited v new. induction cands as [|c cands IH]; intros visited v new; cbn [push_new].
  - intros [= <- <-]. split_and!; [set_solver|set_solver|set_solver|constructor].
  - case_bool_decide as Hc.
    + intros (-> & H2 & H3 & H4)%IH. split_and!; [done|set_solver|set_solver|done].
    + destruct (push_new _ cands) as [v' new'] eqn:E. intros [= <- <-].
      apply IH in E as (-> & H2 & H3 & H4). split_and!.
      * rewrite fmap_cons. set_solver.
      * set_solver.
      * set_solver.
      * rewrite fmap_cons. constructor; [|done].
        intros (x & Hx & Hin)%list_elem_of_fmap. apply H3 in Hin as [_ Hin]. set_solver.
Qed.

Context {Acc : Type} (expand : Q -> list Q) (visit : Acc -> Q -> Acc).

(** [while (!queue.empty())] *)
Fixpoint worklist (fuel : nat) (visited : gset N) (queue : list Q) (acc : Acc) :
    option (gset N * Acc) :=
  match queue with
  | [] => Some (visited, acc)
  | q :: queue =>
      match fuel with
      | O => None
      | S fuel =>
          let '(visited, new) := push_new visited (expand q) in
          worklist fuel visited (queue ++ new) (visit acc q)
      end
  end.

(** ** Runs *)

(** Everything a queue gives rise to. *)
Inductive derived (queue : list Q) : Q -> Prop :=
| derived_root q : q ∈ queue -> derived queue q
| derived_step q q' : derived queue q -> q' ∈ expand q -> derived queue q'.

Lemma derived_cons q queue new x :
  (forall c, c ∈ new -> c ∈ expand q) -> derived (queue ++ new) x -> derived (q :: queue) x.
Proof.
  intros Hnew. induction 1 as [x Hx|x y _ IH Hy]; [|by eapply derived_step].
  apply elem_of_app in Hx as [Hx|Hx].
  - apply derived_root. by right.
  - apply Hnew in Hx. eapply derived_step; [|exact Hx]. apply derived_root. by left.
Qed.

(** A finished run handled a list of queue elements in order: each was derived
    from the queue, no node was handled twice, and every successor of a
    handled element is visited. *)
Record run_of (visited : gset N) (queue : list Q) (acc : Acc) (v : gset N) (acc' : Acc)
    (order : list Q) : Prop := {
  run_acc : acc' = foldl visit acc order;
  run_visited : v = visited ∪ list_to_set (node <$> order);
  run_queue : forall q, q ∈ queue -> q ∈ order;
  run_derived : forall q, q ∈ order -> derived queue q;
  run_closed : forall q c, q ∈ order -> c ∈ expand q -> node c ∈ v;
  run_nodup : NoDup (node <$> order);
}.

Lemma worklist_run fuel visited queue acc v acc' :
  worklist fuel visited queue acc = Some (v, acc') ->
  NoDup (node <$> queue) -> (forall q, q ∈ queue -> node q ∈ visited) ->
  exists order, run_of visited queue acc v acc' order.
Proof.
  enough (forall fuel visited queue acc,
    worklist fuel visited queue acc = Some (v, acc') ->
    NoDup (node <$> queue) -> (forall q, q ∈ queue -> node q ∈ visited) ->
    exists order, run_of visited queue acc v acc' order
      /\ (forall q, q ∈ order -> q ∈ queue \/ node q ∉ visited)) as H.
  { intros Hw Hn Hq. destruct (H _ _ _ _ Hw Hn Hq) as (order & ? & _). by exists order. }
  clear. induction fuel as [|fuel IH]; intros visited [|q queue] acc; cbn [worklist]; [|done| |].
  1, 2: intros [= -> ->] _ _; exists []; split; [split|]; set_solver by constructor.
  intros Hw Hnd Hvis. destruct (push_new visited (expand q)) as [v1 new] eqn:E.
  apply push_new_spec in E as (-> & Hcands & Hnew & Hndnew).
  rewrite fmap_cons in Hnd. apply NoDup_cons in Hnd as [Hq Hnd].
  apply IH in Hw as (order & [R1 R2 R3 R4 R5 R6] & Hold).
  2: { rewrite fmap_app. apply NoDup_app. split; [done|]. split; [|done].
       intros x (y & -> & Hy)%list_elem_of_fmap (z & Hz & Hin)%list_elem_of_fmap.
       apply Hnew in Hin as [_ Hin]. apply Hin. rewrite <-Hz. apply Hvis. by right. }
  2: { intros x [Hx|Hx]%elem_of_app; [|].
       - apply elem_of_union_l, Hvis. by right.
       - apply elem_of_union_r, elem_of_list_to_set, list_elem_of_fmap. by exists x. }
  exists (q :: order). split; [split|].
  - done.
  - rewrite R2, fmap_cons. cbn [list_to_set].
    assert (node q ∈ visited) by (apply Hvis; by left).
    assert (list_to_set (node <$> new) ⊆ (list_to_set (node <$> order) : gset N)).
    { intros x. rewrite !elem_of_list_to_set, !list_elem_of_fmap. intros (y & -> & Hy).
      exists y. split; [done|]. apply R3. set_solver. }
    set_solver.
  - intros x [->|Hx]%elem_of_cons; [by left|]. right. apply R3. set_solver.
  - intros x [->|Hx]%elem_of_cons; [apply derived_root; by left|].
    eapply derived_cons; [|by apply R4]. intros c Hc. by apply Hnew.
  - intros x c [->|Hx]%elem_of_cons Hc; [|by eapply R5].
    rewrite R2. apply elem_of_union_l, Hcands, Hc.
  - rewrite fmap_cons. constructor; [|done]. intros (y & Hy & Hin)%list_elem_of_fmap.
    destruct (Hold y Hin) as [[Hin'|Hin']%elem_of_app|Hin'].
    + apply Hq. rewrite Hy. apply list_elem_of_fmap. by exists y.
    + apply Hnew in Hin' as [_ Hin']. apply Hin'. rewrite <-Hy. apply Hvis. by left.
    + apply Hin'. rewrite <-Hy. apply elem_of_union_l, Hvis. by left.
  - intros x [->|Hx]%elem_of_cons; [left; by left|].
    destruct (Hold x Hx) as [[H|H]%elem_of_app|H]; [left; by right| |].
    + right. by apply Hnew.
    + right. set_solver.
Qed.

(** ** Termination: nodes come from a finite universe *)

Lemma worklist_total (univ : gset N) fuel visited queue acc :
  (forall q c, c ∈ expand q -> node c ∈ univ) ->
  (size (univ ∖ visited) + length queue <= fuel)%nat ->
  is_Some (worklist fuel visited queue acc).
Proof.
  intros Huniv. revert visited queue acc.
  induction fuel as [|fuel IH]; intros visited [|q queue] acc Hf; cbn [worklist]; try (by eexists).
  { simpl in Hf. lia. }
  destruct (push_new visited (expand q)) as [v new] eqn:E.
  apply push_new_spec in E as (-> & _ & Hnew & Hnd). apply IH.
  rewrite length_app. simpl in Hf.
  assert (size (list_to_set (node <$> new) : gset N) = length new) as Hsz
    by (by rewrite size_list_to_set, length_fmap).
  assert (list_to_set (node <$> new) ⊆ univ ∖ visited) as Hsub.
  { intros x. rewrite elem_of_list_to_set, list_elem_of_fmap. intros (y & -> & [Hy Hv]%Hnew).
    apply elem_of_difference. split; [by eapply Huniv|done]. }
  pose proof (size_difference (univ ∖ visited) (list_to_set (node <$> new)) Hsub) as Hd.
  pose proof (subseteq_size _ _ Hsub).
  replace (univ ∖ (visited ∪ list_to_set (node <$> new)))
    with ((univ ∖ visited) ∖ list_to_set (node <$> new)) by set_solver.
  lia.
Qed.
End worklist.

(** ** The visited set is the transitive closure *)

Section closure.
  Context {Q Acc : Type} (node : Q -> N) (expand : Q -> list Q) (visit : Acc -> Q -> Acc).
  Context (R : N -> N -> Prop).
  Context (HR : forall q y, (exists c, c ∈ expand q /\ node c = y) <-> R (node q) y).

Lemma worklist_closure fuel queue acc v acc' :
  worklist node expand visit fuel (list_to_set (node <$> queue)) queue acc = Some (v, acc') ->
  NoDup (node <$> queue) ->
  forall y, y ∈ v <-> exists q, q ∈ queue /\ steps R (node q) y.
Proof using HR.
  intros Hw Hnd.
  apply worklist_run in Hw as (order & [R1 R2 R3 R4 R5 R6]); [|done|].
  2: { intros q Hq. apply elem_of_list_to_set, list_elem_of_fmap. by exists q. }
  assert (forall y, y ∈ v -> exists q, q ∈ order /\ node q = y) as Hv.
  { intros y. rewrite R2, elem_of_union, !elem_of_list_to_set, !list_elem_of_fmap.
    intros [(q & -> & Hq)|(q & -> & Hq)]; eauto. }
  intros y. split.
  - intros (q & Hq & <-)%Hv. apply R4 in Hq.
    induction Hq as [q Hq|q q' _ (r & Hr & Hst) Hq']; [exists q; split; [done|constructor]|].
    exists r. split; [done|]. eapply steps_snoc; [exact Hst|]. apply HR. by exists q'.
  - intros (q & Hq & Hst). apply R3 in Hq.
    assert (node q ∈ v) as Hin.
    { rewrite R2. apply elem_of_union_r, elem_of_list_to_set, list_elem_of_fmap. by exists q. }
    clear Hq. remember (node q) as x eqn:Ex. clear Ex q.
    induction Hst as [x|x z w Hxz _ IH]; [done|]. apply IH.
    apply Hv in Hin as (q & Hq & <-). apply HR in Hxz as (c & Hc & <-). by eapply R5.
Qed.
End closure.
