(* ===== verification/CpgGraph.v ===== *)
(** * The code property graph: [libs/cpg] ([types], [graph], [builder])

    Data types of [types.hpp], node classification ([classify]), the [Graph]
    container of [graph.cpp] and the AST projection [build] of [builder.cpp].
    The parser behind an [Ast] is tree-sitter, outside the sources: an [Ast]
    is given by its language, its source bytes and the sequence of
    [(kind, range)] calls its [visit_named_nodes] makes.

    Node ids are 32-bit and 1-based; [0] is the null node.  The invariant
    [graph_wf] says that ids are dense, that every edge joins existing nodes
    and that every AstChild edge goes from a smaller to a larger id with at
    most one parent per node: the AST part is a forest, so the walks of the
    analyses over children and parents terminate. *)

From Stdlib Require Import ZArith Ascii String Lia.
From stdpp Require Import base list gmap strings sorting.
From S2P Require Import Prelude CxxString.
Local Open Scope N_scope.

(** ** Data *)

Abbreviation NodeId := N.
Definition kNullNode : NodeId := 0.
Definition is_valid (id : NodeId) : bool := negb (id =? 0).

Inductive Language : Type :=
| LC | LCpp | LRust | LGo | LPython | LJavaScript | LTypeScript | LJava.

Inductive NodeKind : Type :=
| KUnknown | KTranslationUnit | KFunctionDef | KParameter | KBlock | KCall | KIdentifier
| KLiteral | KAssignment | KReturn | KIf | KLoop | KDeclaration | KPreprocInclude | KComment.

Inductive EdgeKind : Type := EAstChild | ECfg | EDdg | ECall.

#[export] Instance Language_eq_dec : EqDecision Language.
Proof. solve_decision. Defined.
#[export] Instance NodeKind_eq_dec : EqDecision NodeKind.
Proof. solve_decision. Defined.
#[export] Instance EdgeKind_eq_dec : EqDecision EdgeKind.
Proof. solve_decision. Defined.

Record SourceRange : Type := mkRange {
  start_row : N; start_column : N; end_row : N; end_column : N;
  start_byte : N; end_byte : N;
}.

Record Node : Type := mkNode {
  n_id : NodeId;
  n_kind : NodeKind;
  n_raw_kind : str;
  n_name : str;
  n_range : SourceRange;
  n_language : Language;
}.

Record Edge : Type := mkEdge { e_source : NodeId; e_target : NodeId; e_kind : EdgeKind }.

Record Graph : Type := mkGraph { g_nodes : list Node; g_edges : list Edge; g_root : NodeId }.

(** A parsed file: [language()], [source()] and the calls made by
    [visit_named_nodes], in order. *)
Record Ast : Type := mkAst {
  ast_language : Language;
  ast_source : str;
  ast_named : list (str * SourceRange);
}.

(** [Ast::node_text] *)
Definition node_text (ast : Ast) (range : SourceRange) : str :=
  let size := N.of_nat (length (ast_source ast)) in
  if (size <=? start_byte range) || (size <? end_byte range)
     || (end_byte range <? start_byte range) then []
  else substr (ast_source ast) (N.to_nat (start_byte range))
         (N.to_nat (end_byte range - start_byte range)).

(** ** Classification of grammar node names *)

Definition one_of (k : str) (names : list string) : bool :=
  existsb (fun n => bool_decide (k = lit n)) names.

Definition classify_common (k : str) : NodeKind :=
  if one_of k ["identifier"] then KIdentifier
  else if one_of k ["call_expression"; "call"] then KCall
  else if one_of k ["block"; "compound_statement"; "statement_block"] then KBlock
  else if one_of k ["return_statement"; "return"] then KReturn
  else if one_of k ["if_statement"; "if_expression"] then KIf
  else if one_of k ["for_statement"; "for_expression"; "while_statement";
                    "while_expression"; "do_statement"] then KLoop
  else if one_of k ["assignment_expression"; "assignment"] then KAssignment
  else if one_of k ["number_literal"; "string_literal"; "boolean_literal"; "true"; "false";
                    "integer_literal"; "float_literal"; "char_literal"; "raw_string_literal";
                    "string"; "number"; "true_literal"; "false_literal"; "nil"; "none"; "null"]
       then KLiteral
  else if one_of k ["comment"; "line_comment"; "block_comment"] then KComment
  else KUnknown.

(** The per-language [switch]; [None] is its [break]. *)
Definition classify_language (lang : Language) (k : str) : option NodeKind :=
  match lang with
  | LC | LCpp =>
      if one_of k ["function_definition"] then Some KFunctionDef
      else if one_of k ["parameter_declaration"] then Some KParameter
      else if one_of k ["preproc_include"] then Some KPreprocInclude
      else if one_of k ["declaration"] then Some KDeclaration
      else None
  | LRust =>
      if one_of k ["function_item"] then Some KFunctionDef
      else if one_of k ["parameter"] then Some KParameter
      else if one_of k ["use_declaration"] then Some KPreprocInclude
      else if one_of k ["let_declaration"; "const_item"; "static_item"] then Some KDeclaration
      else None
  | LGo =>
      if one_of k ["function_declaration"; "method_declaration"] then Some KFunctionDef
      else if one_of k ["parameter_declaration"] then Some KParameter
      else if one_of k ["import_declaration"] then Some KPreprocInclude
      else if one_of k ["var_declaration"; "const_declaration"; "short_var_declaration"]
           then Some KDeclaration
      else None
  | LPython =>
      if one_of k ["function_definition"] then Some KFunctionDef
      else if one_of k ["parameters"; "default_parameter"; "typed_parameter"] then Some KParameter
      else if one_of k ["import_statement"; "import_from_statement"] then Some KPreprocInclude
      else if one_of k ["assignment"] then Some KAssignment
      else None
  | LJavaScript | LTypeScript =>
      if one_of k ["function_declaration"; "arrow_function"; "method_definition";
                   "function_expression"] then Some KFunctionDef
      else if one_of k ["formal_parameters"; "required_parameter"; "optional_parameter";
                        "rest_pattern"] then Some KParameter
      else if one_of k ["import_statement"] then Some KPreprocInclude
      else if one_of k ["variable_declaration"; "lexical_declaration"] then Some KDeclaration
      else if one_of k ["for_in_statement"; "for_of_statement"] then Some KLoop
      else None
  | LJava =>
      if one_of k ["method_declaration"; "constructor_declaration"] then Some KFunctionDef
      else if one_of k ["formal_parameter"] then Some KParameter
      else if one_of k ["import_declaration"] then Some KPreprocInclude
      else if one_of k ["local_variable_declaration"; "field_declaration"] then Some KDeclaration
      else if one_of k ["enhanced_for_statement"] then Some KLoop
      else None
  end.

Definition classify (lang : Language) (raw_kind : str) : NodeKind :=
  if one_of raw_kind ["translation_unit"; "source_file"; "module"; "program"; "compilation_unit"]
  then KTranslationUnit
  else match classify_language lang raw_kind with
       | Some k => k
       | None => classify_common raw_kind
       end.

(** ** The graph container *)

Definition empty_graph : Graph := mkGraph [] [] kNullNode.

Definition node_count (g : Graph) : nat := length (g_nodes g).
Definition edge_count (g : Graph) : nat := length (g_edges g).

Definition get (g : Graph) (id : NodeId) : option Node :=
  if negb (is_valid id) then None else g_nodes g !! N.to_nat (id - 1).

Definition set_id (n : Node) (id : NodeId) : Node :=
  mkNode id (n_kind n) (n_raw_kind n) (n_name n) (n_range n) (n_language n).

(** [static_cast<std::uint32_t>(nodes_.size() + 1)] *)
Definition next_id (g : Graph) : NodeId := (N.of_nat (node_count g) + 1) mod 2 ^ 32.

Definition add_node (g : Graph) (n : Node) : Graph * NodeId :=
  let id := next_id g in
  (mkGraph (g_nodes g ++ [set_id n id]) (g_edges g)
     (if negb (is_valid (g_root g)) then id else g_root g), id).

Definition add_edge (g : Graph) (e : Edge) : Graph :=
  mkGraph (g_nodes g) (g_edges g ++ [e]) (g_root g).

Definition find_if (g : Graph) (pred : Node -> bool) : list NodeId :=
  n_id <$> List.filter pred (g_nodes g).

Definition find_by_kind (g : Graph) (kind : NodeKind) : list NodeId :=
  find_if g (fun n => bool_decide (n_kind n = kind)).

Definition is_child_edge (p : NodeId) (e : Edge) : bool :=
  bool_decide (e_kind e = EAstChild) && (e_source e =? p).

Definition children (g : Graph) (p : NodeId) : list NodeId :=
  if negb (is_valid p) then [] else e_target <$> List.filter (is_child_edge p) (g_edges g).

Definition is_parent_edge (c : NodeId) (e : Edge) : bool :=
  bool_decide (e_kind e = EAstChild) && (e_target e =? c).

Definition parent (g : Graph) (c : NodeId) : NodeId :=
  if negb (is_valid c) then kNullNode
  else match List.find (is_parent_edge c) (g_edges g) with
       | Some e => e_source e
       | None => kNullNode
       end.

(** The frontier loop of [descendant_count]: pops the last id, counts its
    AstChild targets and pushes them.  [fuel] bounds the number of pops. *)
Fixpoint descendant_loop (fuel : nat) (g : Graph) (frontier : list NodeId) (total : nat) :
    option nat :=
  match fuel with
  | O => None
  | S fuel =>
      match rev frontier with
      | [] => Some total
      | current :: rest =>
          let cs := e_target <$> List.filter (is_child_edge current) (g_edges g) in
          descendant_loop fuel g (rev rest ++ cs) (total + length cs)
      end
  end.

Definition descendant_count (fuel : nat) (g : Graph) (root_id : NodeId) : option nat :=
  if negb (is_valid root_id) then Some 0%nat
  else descendant_loop fuel g [root_id] 1.

(** ** The AST projection *)

Definition extract_name (kind : NodeKind) (text : str) : str :=
  match kind with KIdentifier => text | _ => [] end.

Abbreviation Frame := (NodeId * SourceRange)%type.

(** Pop the frames whose range ends before the node starts. The stack is kept
    with its back first. *)
Fixpoint pop_frames (stack : list Frame) (range : SourceRange) : list Frame :=
  match stack with
  | (id, r) :: rest =>
      if end_byte r <=? start_byte range then pop_frames rest range else stack
  | [] => []
  end.

(** One call of the visitor. *)
Definition visit (ast : Ast) (st : Graph * list Frame) (v : str * SourceRange) :
    Graph * list Frame :=
  let '(g, stack) := st in
  let '(raw_kind, range) := v in
  let stack := pop_frames stack range in
  let kind := classify (ast_language ast) raw_kind in
  let n := mkNode kNullNode kind raw_kind (extract_name kind (node_text ast range)) range
             (ast_language ast) in
  let '(g, id) := add_node g n in
  let g := match stack with
           | (p, _) :: _ => add_edge g (mkEdge p id EAstChild)
           | [] => g
           end in
  (g, (id, range) :: stack).

Definition build (ast : Ast) : Graph :=
  fst (foldl (visit ast) (empty_graph, []) (ast_named ast)).

(** ** Well-formed graphs *)

Record graph_wf (g : Graph) : Prop := {
  wf_bound : N.of_nat (length (g_nodes g)) < 2 ^ 32;
  wf_ids : forall i n, g_nodes g !! i = Some n -> n_id n = N.of_nat i + 1;
  wf_edges : forall e, e ∈ g_edges g ->
    1 <= e_source e <= N.of_nat (length (g_nodes g))
    /\ 1 <= e_target e <= N.of_nat (length (g_nodes g));
  wf_up : forall e, e ∈ g_edges g -> e_kind e = EAstChild -> e_source e < e_target e;
  wf_unique : forall e e', e ∈ g_edges g -> e' ∈ g_edges g ->
    e_kind e = EAstChild -> e_kind e' = EAstChild -> e_target e = e_target e' ->
    e_source e = e_source e';
}.

(** The same AST part: nodes, root and AstChild edges, in order. *)
Definition ast_edges (g : Graph) : list Edge :=
  List.filter (fun e => bool_decide (e_kind e = EAstChild)) (g_edges g).

Record same_ast (g g' : Graph) : Prop := {
  sa_nodes : g_nodes g' = g_nodes g;
  sa_root : g_root g' = g_root g;
  sa_edges : ast_edges g' = ast_edges g;
}.

(** [for (c : ids) step(c)] for a walker that may run out of fuel. *)
Fixpoint visit_all {St : Type} (rec : St -> NodeId -> option St) (st : St) (ids : list NodeId) :
    option St :=
  match ids with
  | [] => Some st
  | c :: ids => match rec st c with Some st => visit_all rec st ids | None => None end
  end.

(** ** Lemmas *)

Lemma is_valid_true id : is_valid id = true <-> 1 <= id.
Proof. unfold is_valid. rewrite negb_true_iff, N.eqb_neq. lia. Qed.

Lemma is_valid_false id : is_valid id = false <-> id = 0.
Proof. unfold is_valid. rewrite negb_false_iff, N.eqb_eq. done. Qed.

(** Filtered lists and membership. *)
Lemma elem_of_lfilter {A} (p : A -> bool) l x : x ∈ List.filter p l <-> x ∈ l /\ p x = true.
Proof. rewrite !list_elem_of_In. apply filter_In. Qed.

Lemma elem_of_children g p c :
  c ∈ children g p <-> 1 <= p /\ mkEdge p c EAstChild ∈ g_edges g.
Proof.
  unfold children. destruct (is_valid p) eqn:E; simpl.
  - apply is_valid_true in E. rewrite list_elem_of_fmap. split.
    + intros ([s t k] & -> & He). apply elem_of_lfilter in He as [He Hk].
      unfold is_child_edge in Hk. simpl in *. bool_to_prop.
      apply N.eqb_eq in H0. by subst.
    + intros [_ He]. exists (mkEdge p c EAstChild). split; [done|].
      apply elem_of_lfilter. split; [done|]. unfold is_child_edge. simpl.
      apply N.eqb_refl.
  - apply is_valid_false in E as ->. split; [set_solver|lia].
Qed.

Lemma get_Some g id n :
  get g id = Some n <-> 1 <= id /\ g_nodes g !! N.to_nat (id - 1) = Some n.
Proof.
  unfold get. destruct (is_valid id) eqn:E; simpl.
  - apply is_valid_true in E. naive_solver.
  - apply is_valid_false in E as ->. split; [done|lia].
Qed.

Lemma get_bound g id n : get g id = Some n -> 1 <= id <= N.of_nat (node_count g).
Proof. intros [H1 H2%lookup_lt_Some]%get_Some. unfold node_count. lia. Qed.

Lemma get_id g id n : graph_wf g -> get g id = Some n -> n_id n = id.
Proof. intros Hwf [H1 H2]%get_Some. apply (wf_ids g Hwf) in H2. lia. Qed.

Lemma get_is_Some g id : 1 <= id <= N.of_nat (node_count g) -> exists n, get g id = Some n.
Proof.
  intros H. destruct (lookup_lt_is_Some_2 (g_nodes g) (N.to_nat (id - 1))) as [n Hn].
  { unfold node_count in H. lia. }
  exists n. apply get_Some. split; [lia|done].
Qed.

Lemma elem_of_find_if g pred id :
  graph_wf g ->
  (id ∈ find_if g pred <-> exists n, get g id = Some n /\ pred n = true).
Proof.
  intros Hwf. unfold find_if. rewrite list_elem_of_fmap. split.
  - intros (n & -> & Hn). apply elem_of_lfilter in Hn as [Hn Hp].
    apply list_elem_of_lookup in Hn as [i Hi]. exists n. split; [|done].
    rewrite (wf_ids g Hwf i n Hi). apply get_Some. split; [lia|].
    by replace (N.to_nat (N.of_nat i + 1 - 1)) with i by lia.
  - intros (n & Hn & Hp). exists n. split; [by rewrite (get_id g id n Hwf Hn)|].
    apply elem_of_lfilter. split; [|done]. apply get_Some in Hn as [_ Hn].
    by apply list_elem_of_lookup_2 in Hn.
Qed.

Lemma elem_of_find_by_kind g k id :
  graph_wf g ->
  (id ∈ find_by_kind g k <-> exists n, get g id = Some n /\ n_kind n = k).
Proof.
  intros Hwf. unfold find_by_kind. rewrite elem_of_find_if by done.
  by setoid_rewrite bool_decide_eq_true.
Qed.

Lemma children_bound g p c :
  graph_wf g -> c ∈ children g p -> 1 <= p < c /\ c <= N.of_nat (node_count g).
Proof.
  intros Hwf [Hp He]%elem_of_children.
  pose proof (wf_edges g Hwf _ He) as [_ Ht]. pose proof (wf_up g Hwf _ He eq_refl) as Hlt.
  simpl in *. unfold node_count. lia.
Qed.

Lemma parent_cases g c :
  parent g c = kNullNode \/ (1 <= c /\ mkEdge (parent g c) c EAstChild ∈ g_edges g).
Proof.
  unfold parent. destruct (is_valid c) eqn:E; simpl; [|by left].
  apply is_valid_true in E.
  destruct (List.find (is_parent_edge c) (g_edges g)) as [[s t k]|] eqn:F; [|by left].
  right. apply List.find_some in F as [Hin Hp]. unfold is_parent_edge in Hp. simpl in *.
  bool_to_prop. apply N.eqb_eq in H0. subst. split; [done|]. by apply list_elem_of_In.
Qed.

(** The parent of a node has a smaller id. *)
Lemma parent_lt g c : graph_wf g -> is_valid (parent g c) = true -> 1 <= parent g c < c.
Proof.
  intros Hwf Hv. destruct (parent_cases g c) as [H|[Hc He]]; [by rewrite H in Hv|].
  pose proof (wf_up g Hwf _ He eq_refl). apply is_valid_true in Hv. simpl in *. lia.
Qed.

(** Children and parent are inverse relations. *)
Lemma parent_of_child g p c : graph_wf g -> c ∈ children g p -> parent g c = p.
Proof.
  intros Hwf Hc. pose proof (children_bound g p c Hwf Hc) as Hb.
  apply elem_of_children in Hc as [Hp He].
  destruct (parent_cases g c) as [H|[_ He']].
  - unfold parent in H. assert (is_valid c = true) as Hv by (apply is_valid_true; lia).
    rewrite Hv in H. simpl in H.
    destruct (List.find (is_parent_edge c) (g_edges g)) as [e|] eqn:F.
    + apply List.find_some in F as [Hin Hpe]. apply list_elem_of_In in Hin.
      pose proof (wf_edges g Hwf e Hin). unfold kNullNode in H. lia.
    + apply List.find_none with (x := mkEdge p c EAstChild) in F;
        [|by apply list_elem_of_In].
      unfold is_parent_edge in F. simpl in F.
      by rewrite N.eqb_refl in F.
  - apply (wf_unique g Hwf _ _ He' He); done.
Qed.

Lemma child_of_parent g c :
  is_valid (parent g c) = true -> c ∈ children g (parent g c).
Proof.
  intros Hv. destruct (parent_cases g c) as [H|[_ He]]; [by rewrite H in Hv|].
  apply elem_of_children. split; [by apply is_valid_true|done].
Qed.

(** Induction on the AST: from the children to the node. *)
Lemma ast_ind g (P : NodeId -> Prop) :
  graph_wf g -> (forall x, (forall c, c ∈ children g x -> P c) -> P x) -> forall x, P x.
Proof.
  intros Hwf Hstep x.
  remember (N.to_nat (N.of_nat (node_count g) + 1 - x)) as k eqn:Hk.
  revert x Hk. induction (lt_wf k) as [k _ IH]. intros x ->.
  apply Hstep. intros c Hc. apply (children_bound g x c Hwf) in Hc.
  eapply IH; [|done]. lia.
Qed.

(** ** Adding edges of the derived layers *)

Lemma same_ast_refl g : same_ast g g.
Proof. by split. Qed.

Lemma same_ast_trans g1 g2 g3 : same_ast g1 g2 -> same_ast g2 g3 -> same_ast g1 g3.
Proof. intros [] []. split; congruence. Qed.

#[export] Instance same_ast_preorder : PreOrder same_ast.
Proof. split; [exact same_ast_refl|exact same_ast_trans]. Qed.

Lemma same_ast_add g e : e_kind e <> EAstChild -> same_ast g (add_edge g e).
Proof.
  intros He. split; [done..|]. unfold ast_edges, add_edge. simpl.
  rewrite List.filter_app. simpl. rewrite bool_decide_false by done. apply app_nil_r.
Qed.

Lemma filter_filter_and {A} (p q : A -> bool) l :
  List.filter p (List.filter q l) = List.filter (fun x => q x && p x) l.
Proof.
  induction l as [|x l IH]; simpl; [done|]. destruct (q x); simpl; rewrite IH; done.
Qed.

Lemma children_ast g p :
  children g p = if negb (is_valid p) then []
                 else e_target <$> List.filter (fun e => e_source e =? p) (ast_edges g).
Proof. unfold children, ast_edges. by rewrite filter_filter_and. Qed.

Lemma same_ast_children g g' p : same_ast g g' -> children g' p = children g p.
Proof. intros Hs. rewrite !children_ast. by rewrite (sa_edges _ _ Hs). Qed.

Lemma same_ast_get g g' id : same_ast g g' -> get g' id = get g id.
Proof. intros Hs. unfold get. by rewrite (sa_nodes _ _ Hs). Qed.

Lemma same_ast_count g g' : same_ast g g' -> node_count g' = node_count g.
Proof. intros Hs. unfold node_count. by rewrite (sa_nodes _ _ Hs). Qed.

Lemma same_ast_find g g' k : same_ast g g' -> find_by_kind g' k = find_by_kind g k.
Proof. intros Hs. unfold find_by_kind, find_if. by rewrite (sa_nodes _ _ Hs). Qed.

Lemma graph_wf_add g e :
  graph_wf g -> e_kind e <> EAstChild ->
  1 <= e_source e <= N.of_nat (node_count g) -> 1 <= e_target e <= N.of_nat (node_count g) ->
  graph_wf (add_edge g e).
Proof.
  intros [Hb Hids Hedges Hup Huniq] Hk Hs Ht. unfold add_edge.
  split; simpl; [done|done|..].
  - intros e' [He'|He'%list_elem_of_singleton]%elem_of_app; subst; auto.
  - intros e' [He'|He'%list_elem_of_singleton]%elem_of_app; subst; [auto|done].
  - intros e1 e2 [H1|H1%list_elem_of_singleton]%elem_of_app
      [H2|H2%list_elem_of_singleton]%elem_of_app; subst; auto; done.
Qed.

#[export] Hint Resolve same_ast_refl same_ast_trans same_ast_add : euxis.

(** ** The builder *)

(** Extra edges between existing nodes keep a graph well formed as long as
    the AST part is the same. *)
Lemma same_ast_wf g g' :
  graph_wf g -> same_ast g g' ->
  (forall e, e ∈ g_edges g' -> 1 <= e_source e <= N.of_nat (node_count g)
                               /\ 1 <= e_target e <= N.of_nat (node_count g)) ->
  graph_wf g'.
Proof.
  intros Hwf [Hn Hr He] Hb.
  assert (forall e, e ∈ g_edges g' -> e_kind e = EAstChild -> e ∈ g_edges g) as Hback.
  { intros e Hin Hk. assert (e ∈ ast_edges g') as Ha.
    { apply elem_of_lfilter. split; [done|]. by rewrite Hk. }
    rewrite He in Ha. by apply elem_of_lfilter in Ha as [? _]. }
  destruct Hwf as [W1 W2 W3 W4 W5]. split; rewrite ?Hn; auto.
Qed.

Lemma next_id_small g :
  N.of_nat (node_count g) + 1 < 2 ^ 32 -> next_id g = N.of_nat (node_count g) + 1.
Proof. intros H. unfold next_id. by apply N.mod_small. Qed.

(** The invariant of the visitor: a well-formed graph whose open frames are
    nodes of the graph. *)
Definition builder_inv (st : Graph * list Frame) : Prop :=
  graph_wf st.1 /\ Forall (fun f => 1 <= f.1 <= N.of_nat (node_count st.1)) st.2.

Lemma pop_frames_Forall (P : Frame -> Prop) stack r :
  Forall P stack -> Forall P (pop_frames stack r).
Proof.
  induction 1 as [|[id fr] stack H Hs IH]; simpl; [done|]. case_ifs; [done|]. by constructor.
Qed.

Lemma visit_count ast st v : node_count (visit ast st v).1 = S (node_count st.1).
Proof.
  destruct st as [g stack], v as [k r]. unfold visit. simpl.
  destruct (pop_frames stack r) as [|[p fr] rest]; unfold node_count; simpl;
    rewrite length_app; simpl; lia.
Qed.

Lemma visit_inv ast st v :
  builder_inv st -> N.of_nat (node_count st.1) + 1 < 2 ^ 32 -> builder_inv (visit ast st v).
Proof.
  intros [[Hb Hids Hedges Hup Huniq] Hst] Hcnt.
  pose proof (visit_count ast st v) as Hc. destruct st as [g stack], v as [k r]. simpl in *.
  assert (forall p fr rest, pop_frames stack r = (p, fr) :: rest ->
            1 <= p <= N.of_nat (node_count g)) as Htop.
  { intros p fr rest E. pose proof (pop_frames_Forall _ _ r Hst) as Hf. rewrite E in Hf.
    by inversion Hf. }
  pose proof (pop_frames_Forall _ _ r Hst) as Hpop.
  unfold visit, add_node in *. rewrite next_id_small in * by done.
  set (n := set_id _ _) in *. cbn [fst snd] in *.
  assert (forall es, (forall e, e ∈ es -> e ∈ g_edges g \/
            exists p, 1 <= p <= N.of_nat (node_count g)
              /\ e = mkEdge p (N.of_nat (node_count g) + 1) EAstChild) ->
          (forall e e', e ∈ es -> e' ∈ es -> e_target e = N.of_nat (node_count g) + 1 ->
             e_target e' = N.of_nat (node_count g) + 1 -> e = e') ->
          graph_wf (mkGraph (g_nodes g ++ [n]) es
            (if negb (is_valid (g_root g)) then N.of_nat (node_count g) + 1 else g_root g))) as Hmk.
  { intros es Hes Hone. unfold node_count in *. split; simpl.
    - rewrite length_app. simpl. lia.
    - intros i m [Hi|[Hi Hm]]%lookup_app_Some; [by apply Hids|].
      destruct (i - length (g_nodes g))%nat eqn:E; [|done].
      simpl in Hm. injection Hm as <-. subst n. simpl. lia.
    - intros e He. rewrite length_app. simpl.
      destruct (Hes e He) as [Hin|(p & Hp & ->)]; [pose proof (Hedges e Hin)|simpl]; lia.
    - intros e He Hk. destruct (Hes e He) as [Hin|(p & Hp & ->)]; [by apply Hup|simpl; lia].
    - intros e e' He He' Hk Hk' Ht.
      destruct (Hes e He) as [Hin|(p & Hp & E)], (Hes e' He') as [Hin'|(p' & Hp' & E')].
      + by apply Huniq.
      + pose proof (Hedges e Hin). subst e'. simpl in *. lia.
      + pose proof (Hedges e' Hin'). subst e. simpl in *. lia.
      + rewrite (Hone e e'); [done..| |]; subst; done. }
  split; cbn [fst snd].
  - destruct (pop_frames stack r) as [|[p fr] rest] eqn:E; simpl.
    + apply Hmk; [auto|]. intros e e' He He' Ht. pose proof (Hedges e He). unfold node_count in *. lia.
    + pose proof (Htop p fr rest eq_refl) as Hp. apply Hmk.
      * intros e [He|He%list_elem_of_singleton]%elem_of_app; [by left|]. right. by exists p.
      * intros e e' [He|He%list_elem_of_singleton]%elem_of_app
          [He'|He'%list_elem_of_singleton]%elem_of_app Ht Ht'; [..|by subst];
          [pose proof (Hedges e He)|pose proof (Hedges e He)|pose proof (Hedges e' He')];
          unfold node_count in *; lia.
  - rewrite Hc. constructor; [simpl; lia|].
    eapply Forall_impl; [exact Hpop|]. intros [i fr] Hi. simpl in *. lia.
Qed.

Lemma build_loop_inv ast vs st :
  builder_inv st -> N.of_nat (node_count st.1) + N.of_nat (length vs) < 2 ^ 32 ->
  builder_inv (foldl (visit ast) st vs).
Proof.
  revert st. induction vs as [|v vs IH]; intros st Hst Hn; [done|]. simpl in *.
  apply IH; [apply visit_inv; [done|lia]|]. rewrite visit_count. lia.
Qed.

Lemma build_graph_wf ast :
  N.of_nat (length (ast_named ast)) < 2 ^ 32 -> graph_wf (build ast).
Proof.
  intros Hn. unfold build.
  apply build_loop_inv; [|change (node_count _) with 0%nat; lia].
  split; [|constructor]. split; cbn [fst empty_graph g_nodes g_edges length];
    [lia|..]; set_solver.
Qed.

(** ** The builder rebuilds the syntax tree

    A syntax tree, the visits its pre-order makes and the AstChild edges it
    stands for, with nodes numbered in pre-order after [base]. *)

Inductive Tree : Type := TNode (v : str * SourceRange) (kids : list Tree).

Definition tree_range (t : Tree) : SourceRange := let 'TNode v _ := t in v.2.

Fixpoint preorder (t : Tree) : list (str * SourceRange) :=
  let 'TNode v kids := t in v :: flat_map preorder kids.

Definition tree_size (t : Tree) : N := N.of_nat (length (preorder t)).

Definition edge_from (p : option NodeId) (c : NodeId) : list Edge :=
  match p with Some p => [mkEdge p c EAstChild] | None => [] end.

Fixpoint tree_edges (p : option NodeId) (base : N) (t : Tree) : list Edge :=
  let 'TNode v kids := t in
  edge_from p (base + 1) ++
  (fix go (b : N) (ks : list Tree) : list Edge :=
     match ks with
     | [] => []
     | k :: ks => tree_edges (Some (base + 1)) b k ++ go (b + tree_size k) ks
     end) (base + 1) kids.

Fixpoint forest_edges (p b : N) (ks : list Tree) : list Edge :=
  match ks with
  | [] => []
  | k :: ks => tree_edges (Some p) b k ++ forest_edges p (b + tree_size k) ks
  end.

(** Ranges nest: a child starts before its parent ends and does not outlive
    it, and siblings follow one another. *)
Inductive nested : Tree -> Prop :=
| nested_node v kids :
    Forall nested kids ->
    Forall (fun k => start_byte (tree_range k) < end_byte v.2
                     /\ end_byte (tree_range k) <= end_byte v.2) kids ->
    StronglySorted (fun k k' => end_byte (tree_range k) <= start_byte (tree_range k')) kids ->
    nested (TNode v kids).

Lemma Tree_ind' (P : Tree -> Prop) :
  (forall v kids, Forall P kids -> P (TNode v kids)) -> forall t, P t.
Proof.
  intros H. fix IH 1. intros [v kids]. apply H.
  induction kids as [|k kids IHk]; constructor; [apply IH|exact IHk].
Qed.

Lemma tree_edges_forest p base v kids :
  tree_edges p base (TNode v kids) = edge_from p (base + 1) ++ forest_edges (base + 1) (base + 1) kids.
Proof.
  cbn [tree_edges]. f_equal. generalize (base + 1) at 2 4.
  induction kids as [|k kids IH]; intros b; [done|]. cbn [forest_edges]. by rewrite IH.
Qed.

Definition top_id (stack : list Frame) : option NodeId := fst <$> head stack.

Lemma pop_frames_skip fr stack r :
  Forall (fun f => end_byte f.2 <= start_byte r) fr -> pop_frames (fr ++ stack) r = pop_frames stack r.
Proof.
  induction 1 as [|[id fr0] fr H Hf IH]; simpl; [done|]. simpl in H.
  by rewrite (proj2 (N.leb_le _ _) H).
Qed.

Lemma pop_frames_stop id fr stack r :
  start_byte r < end_byte fr -> pop_frames ((id, fr) :: stack) r = (id, fr) :: stack.
Proof. intros H. simpl. by rewrite (proj2 (N.leb_gt _ _) H). Qed.

Lemma visit_edges ast g stack v :
  N.of_nat (node_count g) + 1 < 2 ^ 32 ->
  let st := visit ast (g, stack) v in
  g_edges st.1 = g_edges g ++ edge_from (top_id (pop_frames stack v.2)) (N.of_nat (node_count g) + 1)
  /\ st.2 = (N.of_nat (node_count g) + 1, v.2) :: pop_frames stack v.2.
Proof.
  intros Hc. destruct v as [k r]. unfold visit, add_node. simpl.
  rewrite next_id_small by done.
  destruct (pop_frames stack r) as [|[p fr] rest]; simpl; [|done]. by rewrite app_nil_r.
Qed.

(** What one subtree adds: its edges, and frames that end within it. *)
Definition subtree_post (ast : Ast) (t : Tree) : Prop := forall g stack,
  nested t -> N.of_nat (node_count g) + tree_size t < 2 ^ 32 ->
  let st := foldl (visit ast) (g, stack) (preorder t) in
  let stk := pop_frames stack (tree_range t) in
  g_edges st.1 = g_edges g ++ tree_edges (top_id stk) (N.of_nat (node_count g)) t
  /\ N.of_nat (node_count st.1) = N.of_nat (node_count g) + tree_size t
  /\ exists fr, st.2 = fr ++ stk
       /\ Forall (fun f => end_byte f.2 <= end_byte (tree_range t)) fr.

Lemma visit_forest ast kids p r stk : Forall (subtree_post ast) kids ->
  Forall nested kids ->
  Forall (fun k => start_byte (tree_range k) < end_byte r
                   /\ end_byte (tree_range k) <= end_byte r) kids ->
  StronglySorted (fun k k' => end_byte (tree_range k) <= start_byte (tree_range k')) kids ->
  forall g fr,
  N.of_nat (node_count g) + N.of_nat (length (flat_map preorder kids)) < 2 ^ 32 ->
  Forall (fun k => Forall (fun f => end_byte f.2 <= start_byte (tree_range k)) fr) kids ->
  Forall (fun f => end_byte f.2 <= end_byte r) fr ->
  let st := foldl (visit ast) (g, fr ++ (p, r) :: stk) (flat_map preorder kids) in
  g_edges st.1 = g_edges g ++ forest_edges p (N.of_nat (node_count g)) kids
  /\ N.of_nat (node_count st.1)
     = N.of_nat (node_count g) + N.of_nat (length (flat_map preorder kids))
  /\ exists fr', st.2 = fr' ++ (p, r) :: stk
       /\ Forall (fun f => end_byte f.2 <= end_byte r) fr'.
Proof.
  induction kids as [|k kids IH]; intros HP Hn Hb Hs g fr Hsz Hfr Hfe; cbn [flat_map foldl].
  - rewrite app_nil_r, N.add_0_r. split; [done|]. split; [done|]. by exists fr.
  - apply Forall_cons in HP as [HPk HP]. apply Forall_cons in Hn as [Hnk Hn].
    apply Forall_cons in Hb as [[Hb1 Hb2] Hb]. apply StronglySorted_inv in Hs as [Hs Hsk].
    apply Forall_cons in Hfr as [Hfk Hfr]. cbn [flat_map] in Hsz. rewrite length_app in Hsz.
    rewrite foldl_app.
    destruct (HPk g (fr ++ (p, r) :: stk) Hnk) as (He & Hc & fr1 & Hst & Hf1);
      [unfold tree_size; lia|].
    rewrite (pop_frames_skip fr _ _ Hfk), (pop_frames_stop p r stk _ Hb1) in *.
    destruct (foldl (visit ast) (g, fr ++ (p, r) :: stk) (preorder k)) as [g1 s1] eqn:E1.
    cbn [fst snd] in *. subst s1. unfold tree_size in Hc.
    destruct (IH HP Hn Hb Hs g1 fr1) as (He2 & Hc2 & fr2 & Hst2 & Hf2).
    + rewrite Hc. lia.
    + eapply Forall_impl; [exact Hsk|]. intros k' Hk'. simpl in Hk'.
      eapply Forall_impl; [exact Hf1|]. intros f Hf. simpl in *. lia.
    + eapply Forall_impl; [exact Hf1|]. intros f Hf. simpl in *. lia.
    + split; [|split; [rewrite Hc2, Hc, length_app; lia|by exists fr2]].
      rewrite He2, He, Hc. cbn [forest_edges top_id]. by rewrite <- app_assoc.
Qed.

Lemma visit_tree ast t : subtree_post ast t.
Proof.
  induction t as [v kids HP] using Tree_ind'. intros g stack Hn Hsz. cbn zeta.
  inversion Hn as [? ? Hk Hb Hs]; subst. unfold tree_size in *.
  cbn [preorder foldl length tree_range] in *.
  destruct (visit_edges ast g stack v) as [He Hst]; [lia|].
  pose proof (visit_count ast (g, stack) v) as Hc.
  destruct (visit ast (g, stack) v) as [g1 s1]. cbn [fst snd] in *. subst s1.
  destruct (visit_forest ast kids (N.of_nat (node_count g) + 1) v.2 (pop_frames stack v.2)
              HP Hk Hb Hs g1 []) as (He2 & Hc2 & fr & Hst2 & Hf2).
  - rewrite Hc. lia.
  - apply Forall_true. constructor.
  - constructor.
  - cbn [app] in *. split; [|split].
    + rewrite He2, He, tree_edges_forest, <- app_assoc. do 2 f_equal. rewrite Hc. f_equal; lia.
    + rewrite Hc2, Hc. lia.
    + exists (fr ++ [(N.of_nat (node_count g) + 1, v.2)]). rewrite Hst2, <- app_assoc.
      split; [done|]. apply Forall_app. split; [done|]. repeat constructor. simpl. lia.
Qed.

(** ** Counting descendants *)

Definition sum_with {A} (f : A -> nat) (l : list A) : nat := foldr (fun x acc => (f x + acc)%nat) O l.

(** The size of the AST below a node, by recursion on the AST: ids grow from
    parent to child, so [k] levels are enough when they reach the last id. *)
Fixpoint subtree_size_at (k : nat) (g : Graph) (x : NodeId) : nat :=
  match k with
  | O => 1
  | S k => S (sum_with (subtree_size_at k g) (children g x))
  end.

Definition subtree_size (g : Graph) (x : NodeId) : nat := subtree_size_at (node_count g) g x.

Lemma sum_with_ext {A} (f f' : A -> nat) l :
  (forall x, x ∈ l -> f x = f' x) -> sum_with f l = sum_with f' l.
Proof.
  induction l as [|x l IH]; intros H; [done|]. simpl.
  rewrite (H x), IH by set_solver. done.
Qed.

Lemma sum_with_app {A} (f : A -> nat) l l' : sum_with f (l ++ l') = (sum_with f l + sum_with f l')%nat.
Proof. induction l as [|x l IH]; simpl; [done|]. rewrite IH. lia. Qed.

Lemma sum_with_rev {A} (f : A -> nat) l : sum_with f (rev l) = sum_with f l.
Proof. induction l as [|x l IH]; simpl; [done|]. rewrite sum_with_app, IH. simpl. lia. Qed.

Lemma subtree_size_stable g x k k' :
  graph_wf g -> 1 <= x -> (N.to_nat (N.of_nat (node_count g) - x) <= k)%nat ->
  (N.to_nat (N.of_nat (node_count g) - x) <= k')%nat ->
  subtree_size_at k g x = subtree_size_at k' g x.
Proof.
  intros Hwf. revert x k'. induction k as [|k IH]; intros x k' Hx Hk Hk'.
  - assert (children g x = []) as Hc.
    { destruct (children g x) as [|c cs] eqn:E; [done|].
      pose proof (children_bound g x c Hwf) as Hb. rewrite E in Hb.
      specialize (Hb ltac:(set_solver)). lia. }
    destruct k'; simpl; [done|]. by rewrite Hc.
  - assert (forall c, c ∈ children g x -> 1 <= x < c /\ c <= N.of_nat (node_count g)) as Hb
      by (intros; by apply children_bound).
    destruct k' as [|k'].
    + simpl. destruct (children g x) as [|c cs]; [done|].
      specialize (Hb c ltac:(set_solver)). lia.
    + cbn [subtree_size_at]. f_equal. apply sum_with_ext. intros c Hc.
      specialize (Hb c Hc). apply IH; lia.
Qed.

Lemma subtree_size_eq g x :
  graph_wf g -> 1 <= x <= N.of_nat (node_count g) ->
  subtree_size g x = S (sum_with (subtree_size g) (children g x)).
Proof.
  intros Hwf Hx. unfold subtree_size.
  rewrite (subtree_size_stable g x _ (S (node_count g))) by (done || lia).
  cbn [subtree_size_at]. f_equal.
Qed.

(** Each pop accounts for one node of the subtrees still on the frontier. *)
Lemma descendant_loop_spec g fuel frontier total :
  graph_wf g -> Forall (fun x => 1 <= x <= N.of_nat (node_count g)) frontier ->
  (sum_with (subtree_size g) frontier < fuel)%nat ->
  descendant_loop fuel g frontier total
  = Some (total + (sum_with (subtree_size g) frontier - length frontier))%nat.
Proof.
  intros Hwf. revert frontier total.
  induction fuel as [|fuel IH]; intros frontier total Hf Hlt; [lia|]. cbn [descendant_loop].
  destruct (rev frontier) as [|x rest] eqn:E.
  - apply (f_equal (@rev _)) in E. rewrite rev_involutive in E. subst. simpl. f_equal. lia.
  - apply (f_equal (@rev _)) in E. rewrite rev_involutive in E. simpl in E. subst frontier.
    apply Forall_app in Hf as [Hr Hx]. apply Forall_cons in Hx as [Hx _].
    assert (e_target <$> List.filter (is_child_edge x) (g_edges g) = children g x) as ->.
    { unfold children. by rewrite (proj2 (is_valid_true x)) by lia. }
    rewrite sum_with_app in Hlt. simpl in Hlt. rewrite (subtree_size_eq g x Hwf Hx) in Hlt.
    assert (Forall (fun c => 1 <= c <= N.of_nat (node_count g)) (children g x)) as Hcs.
    { apply Forall_forall. intros c Hc. pose proof (children_bound g x c Hwf Hc). lia. }
    assert (length (children g x) <= sum_with (subtree_size g) (children g x))%nat as Hle.
    { clear -Hcs Hwf. induction Hcs as [|c cs Hc Hcs IH]; simpl; [lia|].
      rewrite (subtree_size_eq g c Hwf Hc). lia. }
    assert (length (rev rest) <= sum_with (subtree_size g) (rev rest))%nat as Hle2.
    { clear -Hr Hwf. induction Hr as [|c cs Hc Hcs IH]; simpl; [lia|].
      rewrite (subtree_size_eq g c Hwf Hc). lia. }
    rewrite IH; [|by apply Forall_app|rewrite sum_with_app; lia].
    f_equal. rewrite !sum_with_app, !length_app. simpl.
    rewrite (subtree_size_eq g x Hwf Hx). lia.
Qed.

(** ** Theorems *)

(** The AST projection of a file is a well-formed graph: dense ids,
    edges between existing nodes, parents before children, one parent each. *)
Lemma build_wf ast :
  N.of_nat (length (ast_named ast)) < 2 ^ 32 -> graph_wf (build ast).
Proof. apply build_graph_wf. Qed.

(** C5: for the pre-order visits of a well-nested syntax tree the projection
    has exactly the parent-child edges of the tree. *)
Theorem build_rebuilds_tree lang src t :
  nested t -> tree_size t < 2 ^ 32 ->
  g_edges (build (mkAst lang src (preorder t))) = tree_edges None 0 t.
Proof.
  intros Hn Hsz. unfold build. cbn [ast_named].
  destruct (visit_tree (mkAst lang src (preorder t)) t empty_graph [] Hn) as (He & _); [done|].
  exact He.
Qed.

(** [descendant_count] terminates on every well-formed graph and returns
    the size of the AST below the node. *)
Lemma descendant_count_spec g x fuel :
  graph_wf g -> 1 <= x <= N.of_nat (node_count g) -> (subtree_size g x < fuel)%nat ->
  descendant_count fuel g x = Some (subtree_size g x).
Proof.
  intros Hwf Hx Hf. unfold descendant_count.
  rewrite (proj2 (is_valid_true x)) by lia. cbn [negb].
  rewrite descendant_loop_spec; [|done|by apply Forall_singleton|simpl; lia].
  simpl. rewrite (subtree_size_eq g x Hwf Hx). f_equal. lia.
Qed.

(** A small file: [fn f(a) { a }] with a zero-indexed byte layout. *)
Definition byte_range (a b : N) : SourceRange := mkRange 0 a 0 b a b.

Definition sample_tree : Tree :=
  TNode (lit "source_file", byte_range 0 20)
    [TNode (lit "function_item", byte_range 0 12)
       [TNode (lit "identifier", byte_range 3 4) [];
        TNode (lit "parameters", byte_range 4 7)
          [TNode (lit "parameter", byte_range 5 6) []];
        TNode (lit "block", byte_range 8 12) []];
     TNode (lit "line_comment", byte_range 13 20) []].

Lemma sample_tree_nested : nested sample_tree.
Proof.
  repeat first [apply Forall_nil; exact I | constructor]; simpl; lia.
Qed.

Definition sample_graph : Graph :=
  build (mkAst LRust (lit "fn f(a) { a} // note") (preorder sample_tree)).

Lemma build_wf_witness : graph_wf sample_graph.
Proof. apply build_wf. by vm_compute. Defined.

Lemma build_rebuilds_tree_witness : g_edges sample_graph = tree_edges None 0 sample_tree.
Proof. apply build_rebuilds_tree; [exact sample_tree_nested|by vm_compute]. Defined.

Lemma descendant_count_spec_witness : descendant_count 10 sample_graph 2 = Some 5%nat.
Proof.
  change 5%nat with (subtree_size sample_graph 2).
  apply descendant_count_spec; [apply build_graph_wf; by vm_compute|split; by vm_compute|].
  apply Nat.ltb_lt. by vm_compute.
Defined.
