(* ===== verification/CpgCfg.v ===== *)
(** * Control-flow edges: [libs/cpg/src/cfg.cpp]

    The recursive walker [CfgBuilder] and [build_cfg].  The walker is modelled
    with the recursion on [descend] bounded by [fuel]; since children have
    larger ids than their parent, one more than the number of nodes is always
    enough ([build_cfg_total]).  [emits] is the declarative reading of the
    walker: the control-flow pairs a node contributes.  The refinement theorem
    says that [build_cfg] leaves the AST alone and adds exactly those pairs. *)

From Stdlib Require Import ZArith Ascii String Lia.
From stdpp Require Import base list gmap strings sorting.
From S2P Require Import Prelude CxxString CpgGraph.
Local Open Scope N_scope.

Record CfgBuildOptions : Type := mkCfgOpts {
  emit_if_branch_edges : bool;
  emit_loop_back_edges : bool;
}.

Record CfgStats : Type := mkCfgStats {
  functions_processed : nat;
  sequential_edges : nat;
  branch_entry_edges : nat;
  loop_back_edges : nat;
}.

(** The walker's mutable state: the graph it extends and its counters. *)
Record CfgState : Type := mkCfgState { cs_graph : Graph; cs_stats : CfgStats }.

Definition bump_functions (st : CfgState) : CfgState :=
  let s := cs_stats st in
  mkCfgState (cs_graph st) (mkCfgStats (S (functions_processed s)) (sequential_edges s)
                              (branch_entry_edges s) (loop_back_edges s)).
Definition bump_seq (st : CfgState) : CfgState :=
  let s := cs_stats st in
  mkCfgState (cs_graph st) (mkCfgStats (functions_processed s) (S (sequential_edges s))
                              (branch_entry_edges s) (loop_back_edges s)).
Definition bump_branch (st : CfgState) : CfgState :=
  let s := cs_stats st in
  mkCfgState (cs_graph st) (mkCfgStats (functions_processed s) (sequential_edges s)
                              (S (branch_entry_edges s)) (loop_back_edges s)).
Definition bump_back (st : CfgState) : CfgState :=
  let s := cs_stats st in
  mkCfgState (cs_graph st) (mkCfgStats (functions_processed s) (sequential_edges s)
                              (branch_entry_edges s) (S (loop_back_edges s))).

(** [CfgBuilder::add] *)
Definition add (st : CfgState) (from to : NodeId) : CfgState :=
  if negb (is_valid from) || negb (is_valid to) || (from =? to) then st
  else mkCfgState (add_edge (cs_graph st) (mkEdge from to ECfg)) (cs_stats st).

Definition first_child_of (g : Graph) (id : NodeId) : NodeId :=
  match children g id with [] => id | c :: _ => c end.

(** The sequential edges of a block: each child to the next. *)
Fixpoint seq_edges (st : CfgState) (ids : list NodeId) : CfgState :=
  match ids with
  | a :: ((b :: _) as rest) => seq_edges (bump_seq (add st a b)) rest
  | _ => st
  end.

Definition process_block (rec : CfgState -> NodeId -> option CfgState) (st : CfgState)
    (block : NodeId) : option CfgState :=
  let cs := children (cs_graph st) block in
  visit_all rec (seq_edges st cs) cs.

(** The one-level-deeper search of [process_if] for wrapped branch blocks. *)
Fixpoint if_grandchildren (rec : CfgState -> NodeId -> option CfgState) (if_node : NodeId)
    (st : CfgState) (grands : list NodeId) : option CfgState :=
  match grands with
  | [] => Some st
  | grand :: grands =>
      match get (cs_graph st) grand with
      | Some gn =>
          if bool_decide (n_kind gn = KBlock) then
            let st := bump_branch (add st if_node (first_child_of (cs_graph st) grand)) in
            match rec st grand with
            | Some st => if_grandchildren rec if_node st grands
            | None => None
            end
          else if_grandchildren rec if_node st grands
      | None => if_grandchildren rec if_node st grands
      end
  end.

Fixpoint if_children (rec : CfgState -> NodeId -> option CfgState) (if_node : NodeId)
    (st : CfgState) (ids : list NodeId) : option CfgState :=
  match ids with
  | [] => Some st
  | child :: ids =>
      match get (cs_graph st) child with
      | None => if_children rec if_node st ids
      | Some cn =>
          let after :=
            if bool_decide (n_kind cn = KBlock) then
              let st := bump_branch (add st if_node (first_child_of (cs_graph st) child)) in
              rec st child
            else
              match if_grandchildren rec if_node st (children (cs_graph st) child) with
              | Some st => rec st child
              | None => None
              end in
          match after with
          | Some st => if_children rec if_node st ids
          | None => None
          end
      end
  end.

Definition process_if (rec : CfgState -> NodeId -> option CfgState) (opts : CfgBuildOptions)
    (st : CfgState) (if_node : NodeId) : option CfgState :=
  let cs := children (cs_graph st) if_node in
  if negb (emit_if_branch_edges opts) then visit_all rec st cs
  else if_children rec if_node st cs.

(** The first Block child of a loop: its body. *)
Definition loop_body (g : Graph) (loop_node : NodeId) : NodeId :=
  match List.find (fun c => match get g c with
                            | Some cn => bool_decide (n_kind cn = KBlock)
                            | None => false
                            end) (children g loop_node) with
  | Some c => c
  | None => kNullNode
  end.

Definition process_loop (rec : CfgState -> NodeId -> option CfgState) (opts : CfgBuildOptions)
    (st : CfgState) (loop_node : NodeId) : option CfgState :=
  if negb (emit_loop_back_edges opts) then
    visit_all rec st (children (cs_graph st) loop_node)
  else
    let body := loop_body (cs_graph st) loop_node in
    let st :=
      if is_valid body then
        match children (cs_graph st) body with
        | [] => st
        | (front :: _) as cs =>
            let st := bump_branch (add st loop_node front) in
            bump_back (add st (List.last cs front) loop_node)
        end
      else st in
    visit_all rec st (children (cs_graph st) loop_node).

Definition is_structured (g : Graph) (id : NodeId) : bool :=
  match get g id with
  | Some n => match n_kind n with KBlock | KIf | KLoop => true | _ => false end
  | None => false
  end.

Fixpoint descend (fuel : nat) (opts : CfgBuildOptions) (st : CfgState) (id : NodeId) :
    option CfgState :=
  match fuel with
  | O => None
  | S fuel =>
      match get (cs_graph st) id with
      | None => Some st
      | Some n =>
          match n_kind n with
          | KBlock => process_block (descend fuel opts) st id
          | KIf => process_if (descend fuel opts) opts st id
          | KLoop => process_loop (descend fuel opts) opts st id
          | _ =>
              visit_all (descend fuel opts) st
                (List.filter (is_structured (cs_graph st)) (children (cs_graph st) id))
          end
      end
  end.

Definition process_function (fuel : nat) (opts : CfgBuildOptions) (st : CfgState) (fn : NodeId) :
    option CfgState :=
  let st := bump_functions st in
  visit_all (descend fuel opts) st (children (cs_graph st) fn).

Definition build_cfg (fuel : nat) (opts : CfgBuildOptions) (g : Graph) : option CfgState :=
  visit_all (process_function fuel opts) (mkCfgState g (mkCfgStats 0 0 0 0))
    (find_by_kind g KFunctionDef).

(** ** The declarative reading *)

Definition kind_of (g : Graph) (id : NodeId) (k : NodeKind) : Prop :=
  exists n, get g id = Some n /\ n_kind n = k.

Definition plain_kind (k : NodeKind) : Prop := k <> KBlock /\ k <> KIf /\ k <> KLoop.

(** [emits opts g x a b]: descending into [x] contributes the pair [a -> b]. *)
Inductive emits (opts : CfgBuildOptions) (g : Graph) : NodeId -> NodeId -> NodeId -> Prop :=
| em_seq x a b pre post :
    kind_of g x KBlock -> children g x = pre ++ a :: b :: post -> a <> b -> emits opts g x a b
| em_block x c a b :
    kind_of g x KBlock -> c ∈ children g x -> emits opts g c a b -> emits opts g x a b
| em_then x c :
    kind_of g x KIf -> emit_if_branch_edges opts = true -> c ∈ children g x ->
    kind_of g c KBlock -> x <> first_child_of g c -> emits opts g x x (first_child_of g c)
| em_else x c n gr :
    kind_of g x KIf -> emit_if_branch_edges opts = true -> c ∈ children g x ->
    get g c = Some n -> n_kind n <> KBlock -> gr ∈ children g c -> kind_of g gr KBlock ->
    x <> first_child_of g gr -> emits opts g x x (first_child_of g gr)
| em_if x c a b :
    kind_of g x KIf -> c ∈ children g x -> emits opts g c a b -> emits opts g x a b
| em_loop_entry x front rest :
    kind_of g x KLoop -> emit_loop_back_edges opts = true ->
    is_valid (loop_body g x) = true -> children g (loop_body g x) = front :: rest ->
    x <> front -> emits opts g x x front
| em_loop_back x front rest :
    kind_of g x KLoop -> emit_loop_back_edges opts = true ->
    is_valid (loop_body g x) = true -> children g (loop_body g x) = front :: rest ->
    List.last (front :: rest) front <> x -> emits opts g x (List.last (front :: rest) front) x
| em_loop x c a b :
    kind_of g x KLoop -> c ∈ children g x -> emits opts g c a b -> emits opts g x a b
| em_plain x n c a b :
    get g x = Some n -> plain_kind (n_kind n) -> c ∈ children g x ->
    is_structured g c = true -> emits opts g c a b -> emits opts g x a b.

(** ** Lemmas *)

(** [adds g h h' E]: going from [h] to [h'] keeps the AST of [g] and adds
    exactly the control-flow pairs of [E]. *)
Record adds (g h h' : Graph) (E : NodeId -> NodeId -> Prop) : Prop := {
  ad_ast : same_ast g h';
  ad_edges : forall e, e ∈ g_edges h' <->
    e ∈ g_edges h \/ exists a b, e = mkEdge a b ECfg /\ E a b;
}.

Lemma adds_none g h : same_ast g h -> adds g h h (fun _ _ => False).
Proof. intros Hs. split; [done|]. naive_solver. Qed.

Lemma adds_trans g h1 h2 h3 E1 E2 :
  adds g h1 h2 E1 -> adds g h2 h3 E2 -> adds g h1 h3 (fun a b => E1 a b \/ E2 a b).
Proof.
  intros [_ H1] [Hs H2]. split; [done|]. intros e. rewrite H2, H1. naive_solver.
Qed.

Lemma adds_ext g h h' (E E' : NodeId -> NodeId -> Prop) :
  (forall a b, E a b <-> E' a b) -> adds g h h' E -> adds g h h' E'.
Proof. intros HE [Hs H]. split; [done|]. intros e. rewrite H. naive_solver. Qed.

Lemma add_adds g st from to :
  same_ast g (cs_graph st) -> 1 <= from -> 1 <= to ->
  adds g (cs_graph st) (cs_graph (add st from to)) (fun a b => a = from /\ b = to /\ from <> to).
Proof.
  intros Hs Hf Ht. unfold add.
  rewrite (proj2 (is_valid_true from)), (proj2 (is_valid_true to)) by done. simpl.
  destruct (from =? to) eqn:E.
  - apply N.eqb_eq in E as ->. eapply adds_ext; [|by apply adds_none]. naive_solver.
  - apply N.eqb_neq in E. simpl. split.
    + eapply same_ast_trans; [done|]. by apply same_ast_add.
    + intros e. simpl. rewrite elem_of_app, list_elem_of_singleton. naive_solver.
Qed.

Section walker.
  Context (opts : CfgBuildOptions) (g : Graph) (Hwf : graph_wf g).

(** A walker that succeeds and adds the pairs [E]. *)
Definition walks (run : CfgState -> option CfgState) (E : NodeId -> NodeId -> Prop) : Prop :=
  forall st, same_ast g (cs_graph st) ->
  exists st', run st = Some st' /\ adds g (cs_graph st) (cs_graph st') E.

Lemma walks_ext run (E E' : NodeId -> NodeId -> Prop) :
  (forall a b, E a b <-> E' a b) -> walks run E -> walks run E'.
Proof.
  intros HE Hw st Hs. destruct (Hw st Hs) as (st' & ? & ?). exists st'. split; [done|].
  by eapply adds_ext.
Qed.

Lemma visit_all_walks rec E ids :
  (forall c, c ∈ ids -> walks (fun st => rec st c) (E c)) ->
  walks (fun st => visit_all rec st ids) (fun a b => exists c, c ∈ ids /\ E c a b).
Proof.
  induction ids as [|c ids IH]; intros H st Hs; simpl.
  - exists st. split; [done|]. eapply adds_ext; [|by apply adds_none]. set_solver.
  - destruct (H c ltac:(set_solver) st Hs) as (st1 & -> & H1).
    destruct (IH ltac:(set_solver) st1 (ad_ast _ _ _ _ H1)) as (st2 & -> & H2).
    exists st2. split; [done|]. eapply adds_ext; [|by eapply adds_trans]. intros a b.
    setoid_rewrite elem_of_cons. naive_solver.
Qed.

Definition consecutive (ids : list NodeId) (a b : NodeId) : Prop :=
  exists pre post, ids = pre ++ a :: b :: post.

Lemma consecutive_cons x y ids a b :
  consecutive (x :: y :: ids) a b <-> (a = x /\ b = y) \/ consecutive (y :: ids) a b.
Proof.
  unfold consecutive. split.
  - intros ([|p pre] & post & H); simplify_eq/=; [by left|]. right. by exists pre, post.
  - intros [[-> ->]|(pre & post & H)]; [by exists [], ids|]. exists (x :: pre), post. by rewrite H.
Qed.

Lemma seq_edges_adds ids st :
  same_ast g (cs_graph st) -> Forall (fun c => 1 <= c) ids ->
  adds g (cs_graph st) (cs_graph (seq_edges st ids)) (fun a b => consecutive ids a b /\ a <> b).
Proof.
  revert st. induction ids as [|x ids IH]; intros st Hs Hv.
  - eapply adds_ext; [|by apply adds_none]. intros a b. split; [done|].
    intros [([|] & ? & ?) _]; done.
  - destruct ids as [|y ids].
    + eapply adds_ext; [|by apply adds_none]. intros a b. split; [done|].
      intros [([|? [|]] & ? & ?) _]; done.
    + apply Forall_cons in Hv as [Hx Hv]. pose proof (Forall_cons_1 _ _ _ Hv) as [Hy _].
      pose proof (add_adds g st x y Hs Hx Hy) as H1.
      pose proof (IH (bump_seq (add st x y)) (ad_ast _ _ _ _ H1) Hv) as H2.
      cbn [seq_edges]. eapply adds_ext; [|exact (adds_trans _ _ _ _ _ _ H1 H2)].
      intros a b. rewrite consecutive_cons. naive_solver.
Qed.

Lemma children_valid x : Forall (fun c => 1 <= c) (children g x).
Proof. apply Forall_forall. intros c Hc. pose proof (children_bound g x c Hwf Hc). lia. Qed.

Lemma first_child_valid x : 1 <= x -> 1 <= first_child_of g x.
Proof.
  intros Hx. unfold first_child_of. pose proof (children_valid x) as H.
  destruct (children g x); [done|]. by inversion H.
Qed.

Lemma same_first_child h x : same_ast g h -> first_child_of h x = first_child_of g x.
Proof. intros Hs. unfold first_child_of. by rewrite (same_ast_children _ _ _ Hs). Qed.

Lemma kind_of_get x n k : get g x = Some n -> (kind_of g x k <-> n_kind n = k).
Proof. unfold kind_of. naive_solver. Qed.

Lemma process_block_walks rec x :
  kind_of g x KBlock ->
  (forall c, c ∈ children g x -> walks (fun st => rec st c) (emits opts g c)) ->
  walks (fun st => process_block rec st x) (emits opts g x).
Proof.
  intros Hk Hrec st Hs. unfold process_block. rewrite (same_ast_children g _ x Hs).
  pose proof (seq_edges_adds (children g x) st Hs (children_valid x)) as H1.
  destruct (visit_all_walks rec (emits opts g) (children g x) Hrec _ (ad_ast _ _ _ _ H1))
    as (st' & -> & H2).
  exists st'. split; [done|]. eapply adds_ext; [|exact (adds_trans _ _ _ _ _ _ H1 H2)].
  intros a b. split.
  - intros [[(pre & post & Hc) Hne]|(c & Hc & He)]; [by eapply em_seq|by eapply em_block].
  - destruct Hk as (n & Hn & Hk).
    inversion 1 as [????? _ Hc Hne|???? _ Hc He|? ? Hi|???? Hi|???? Hi|??? Hi|??? Hi|???? Hi|
      ????? Hi Hp]; subst; try (destruct Hi as (? & Hi & ?); congruence).
    + left. split; [by eexists _, _|done].
    + right. eauto.
    + rewrite Hn in Hi. injection Hi as <-. by destruct Hp.
Qed.

(** The branch blocks found one level below the non-block children. *)
Lemma if_grandchildren_walks rec x grands :
  1 <= x -> (forall gr, gr ∈ grands -> walks (fun st => rec st gr) (emits opts g gr)) ->
  walks (fun st => if_grandchildren rec x st grands)
    (fun a b => exists gr, gr ∈ grands /\ kind_of g gr KBlock /\
       ((a = x /\ b = first_child_of g gr /\ x <> first_child_of g gr) \/ emits opts g gr a b)).
Proof.
  intros Hx. induction grands as [|gr grands IH]; intros Hrec st Hs; cbn [if_grandchildren].
  - exists st. split; [done|]. eapply adds_ext; [|by apply adds_none]. set_solver.
  - rewrite (same_ast_get _ _ gr Hs).
    assert (forall st, same_ast g (cs_graph st) -> ~ kind_of g gr KBlock ->
      exists st', if_grandchildren rec x st grands = Some st' /\
        adds g (cs_graph st) (cs_graph st') (fun a b => exists gr0, gr0 ∈ gr :: grands /\
          kind_of g gr0 KBlock /\ ((a = x /\ b = first_child_of g gr0 /\ x <> first_child_of g gr0)
            \/ emits opts g gr0 a b))) as Hskip.
    { intros st0 Hs0 Hno. destruct (IH ltac:(set_solver) st0 Hs0) as (st' & ? & Ha).
      exists st'. split; [done|]. eapply adds_ext; [|exact Ha]. intros a b.
      setoid_rewrite elem_of_cons. naive_solver. }
    destruct (get g gr) as [gn|] eqn:Hgn;
      [|apply Hskip; [done|]; intros (? & ? & ?); congruence].
    case_bool_decide as Hk; [|apply Hskip; [done|]; by rewrite (kind_of_get _ _ _ Hgn)].
    assert (1 <= gr) as Hgr by (apply get_bound in Hgn; lia).
    rewrite (same_first_child _ _ Hs).
    pose proof (add_adds g st x _ Hs Hx (first_child_valid gr Hgr)) as H1.
    destruct (Hrec gr ltac:(set_solver) (bump_branch (add st x (first_child_of g gr)))
                (ad_ast _ _ _ _ H1)) as (st2 & -> & H2).
    destruct (IH ltac:(set_solver) st2 (ad_ast _ _ _ _ H2)) as (st3 & -> & H3).
    exists st3. split; [done|].
    eapply adds_ext; [|exact (adds_trans _ _ _ _ _ _ (adds_trans _ _ _ _ _ _ H1 H2) H3)].
    assert (kind_of g gr KBlock) by by exists gn.
    intros a b. setoid_rewrite elem_of_cons. naive_solver.
Qed.

(** A node has one kind. *)
Lemma kind_of_inj x k k' : kind_of g x k -> kind_of g x k' -> k = k'.
Proof. unfold kind_of. naive_solver. Qed.

Lemma plain_not_kind x n k :
  get g x = Some n -> plain_kind (n_kind n) -> k = KBlock \/ k = KIf \/ k = KLoop ->
  ~ kind_of g x k.
Proof. unfold plain_kind, kind_of. naive_solver. Qed.

(** Descending into the parent of a block covers the block, unless the parent
    is a block itself. *)
Lemma emits_through c n gr a b :
  get g c = Some n -> n_kind n <> KBlock -> gr ∈ children g c -> kind_of g gr KBlock ->
  emits opts g gr a b -> emits opts g c a b.
Proof.
  intros Hc Hnb Hgr Hk He. destruct (n_kind n) eqn:E; try done;
    first [ eapply em_if; [by exists n|done|done]
          | eapply em_loop; [by exists n|done|done]
          | eapply em_plain; [done|by rewrite E|done| |done];
            destruct Hk as (gn & Hgn & Hk); unfold is_structured; by rewrite Hgn, Hk ].
Qed.

Definition if_child_pairs (x c a b : NodeId) : Prop :=
  exists n, get g c = Some n /\
  ((n_kind n = KBlock /\ a = x /\ b = first_child_of g c /\ x <> first_child_of g c)
   \/ (n_kind n <> KBlock /\ exists gr, gr ∈ children g c /\ kind_of g gr KBlock /\
        ((a = x /\ b = first_child_of g gr /\ x <> first_child_of g gr) \/ emits opts g gr a b))
   \/ emits opts g c a b).

Lemma if_children_walks rec x ids :
  1 <= x -> (forall c, c ∈ ids -> walks (fun st => rec st c) (emits opts g c)) ->
  (forall c gr, c ∈ ids -> gr ∈ children g c -> walks (fun st => rec st gr) (emits opts g gr)) ->
  walks (fun st => if_children rec x st ids) (fun a b => exists c, c ∈ ids /\ if_child_pairs x c a b).
Proof.
  intros Hx. induction ids as [|c ids IH]; intros Hrec Hrec2 st Hs; cbn [if_children].
  - exists st. split; [done|]. eapply adds_ext; [|by apply adds_none]. set_solver.
  - rewrite (same_ast_get _ _ c Hs).
    pose proof (IH ltac:(set_solver) ltac:(set_solver)) as IH'. clear IH.
    destruct (get g c) as [n|] eqn:Hn.
    2: { destruct (IH' st Hs) as (st' & -> & H1). exists st'. split; [done|].
         eapply adds_ext; [|exact H1]. intros a b. setoid_rewrite elem_of_cons.
         unfold if_child_pairs. naive_solver. }
    assert (1 <= c) as Hc by (apply get_bound in Hn; lia).
    assert (exists st1,
      (if bool_decide (n_kind n = KBlock)
       then rec (bump_branch (add st x (first_child_of (cs_graph st) c))) c
       else match if_grandchildren rec x st (children (cs_graph st) c) with
            | Some st => rec st c | None => None end) = Some st1
      /\ adds g (cs_graph st) (cs_graph st1) (if_child_pairs x c)) as (st1 & -> & H1).
    { case_bool_decide as Hk.
      - rewrite (same_first_child _ _ Hs).
        pose proof (add_adds g st x _ Hs Hx (first_child_valid c Hc)) as H1.
        destruct (Hrec c ltac:(set_solver) (bump_branch (add st x (first_child_of g c)))
                    (ad_ast _ _ _ _ H1)) as (st2 & -> & H2).
        exists st2. split; [done|]. eapply adds_ext; [|exact (adds_trans _ _ _ _ _ _ H1 H2)].
        intros a b. unfold if_child_pairs. naive_solver.
      - rewrite (same_ast_children _ _ _ Hs).
        destruct (if_grandchildren_walks rec x (children g c) Hx
                    (fun gr Hgr => Hrec2 c gr ltac:(set_solver) Hgr) st Hs) as (st2 & -> & H1).
        destruct (Hrec c ltac:(set_solver) st2 (ad_ast _ _ _ _ H1)) as (st3 & -> & H2).
        exists st3. split; [done|]. eapply adds_ext; [|exact (adds_trans _ _ _ _ _ _ H1 H2)].
        intros a b. unfold if_child_pairs. naive_solver. }
    destruct (IH' st1 (ad_ast _ _ _ _ H1)) as (st2 & -> & H2).
    exists st2. split; [done|]. eapply adds_ext; [|exact (adds_trans _ _ _ _ _ _ H1 H2)].
    intros a b. setoid_rewrite elem_of_cons. naive_solver.
Qed.

Lemma emits_if_iff x a b :
  kind_of g x KIf ->
  emits opts g x a b <->
  (emit_if_branch_edges opts = true /\ exists c, c ∈ children g x /\ if_child_pairs x c a b)
  \/ exists c, c ∈ children g x /\ emits opts g c a b.
Proof.
  intros Hk. split.
  - inversion 1; subst;
      try (match goal with H : kind_of g ?y ?k, H' : kind_of g ?y KIf |- _ =>
             pose proof (kind_of_inj _ _ _ H H'); done end).
    + left. split; [done|]. exists c. split; [done|].
      match goal with H : kind_of g c KBlock |- _ => destruct H as (n & ? & ?) end.
      exists n. by split; [|left].
    + left. split; [done|]. exists c. split; [done|]. exists n. split; [done|].
      right. left. split; [done|]. exists gr. do 2 (split; [done|]). by left.
    + right. eauto.
    + exfalso. eapply (plain_not_kind _ _ KIf); eauto.
  - intros [(Ho & c & Hc & n & Hn & Hp)|(c & Hc & He)]; [|by eapply em_if].
    destruct Hp as [(Hb & -> & -> & Hne)|[(Hb & gr & Hgr & Hgk & Hp)|He]].
    + eapply em_then; try done. by exists n.
    + destruct Hp as [(-> & -> & Hne)|He]; [by eapply em_else|].
      eapply em_if; [done|exact Hc|]. by eapply emits_through.
    + by eapply em_if.
Qed.

Lemma process_if_walks rec x :
  kind_of g x KIf ->
  (forall c, c ∈ children g x -> walks (fun st => rec st c) (emits opts g c)) ->
  (forall c gr, c ∈ children g x -> gr ∈ children g c -> walks (fun st => rec st gr) (emits opts g gr)) ->
  walks (fun st => process_if rec opts st x) (emits opts g x).
Proof.
  intros Hk Hrec Hrec2 st Hs. unfold process_if. rewrite (same_ast_children g _ x Hs).
  destruct (emit_if_branch_edges opts) eqn:Ho; simpl.
  - assert (1 <= x) as Hx by (destruct Hk as (n & Hn & _); apply get_bound in Hn; lia).
    destruct (if_children_walks rec x (children g x) Hx Hrec Hrec2 st Hs) as (st' & -> & H1).
    exists st'. split; [done|]. eapply adds_ext; [|exact H1]. intros a b.
    rewrite emits_if_iff by done. split; [auto|]. intros [[_ H]|(c & Hc & He)]; [done|].
    exists c. split; [done|].
    assert (exists n, get g c = Some n) as [n Hn].
    { pose proof (children_bound g x c Hwf Hc). apply get_is_Some. lia. }
    exists n. auto.
  - destruct (visit_all_walks rec (emits opts g) (children g x) Hrec st Hs) as (st' & -> & H1).
    exists st'. split; [done|]. eapply adds_ext; [|exact H1]. intros a b.
    rewrite emits_if_iff, Ho by done. naive_solver.
Qed.

Lemma same_loop_body h x : same_ast g h -> loop_body h x = loop_body g x.
Proof.
  intros Hs. unfold loop_body. rewrite (same_ast_children _ _ _ Hs).
  assert (forall l, List.find (fun c => match get h c with
      | Some cn => bool_decide (n_kind cn = KBlock) | None => false end) l
    = List.find (fun c => match get g c with
      | Some cn => bool_decide (n_kind cn = KBlock) | None => false end) l) as ->; [|done].
  induction l as [|c l IH]; simpl; [done|]. by rewrite (same_ast_get _ _ c Hs), IH.
Qed.

Definition loop_pairs (x a b : NodeId) : Prop :=
  emit_loop_back_edges opts = true /\ is_valid (loop_body g x) = true /\
  exists front rest, children g (loop_body g x) = front :: rest /\
    ((a = x /\ b = front /\ x <> front)
     \/ (a = List.last (front :: rest) front /\ b = x /\ List.last (front :: rest) front <> x)).

Lemma emits_loop_iff x a b :
  kind_of g x KLoop ->
  emits opts g x a b <-> loop_pairs x a b \/ exists c, c ∈ children g x /\ emits opts g c a b.
Proof.
  intros Hk. split.
  - inversion 1; subst;
      try (match goal with H : kind_of g ?y ?k, H' : kind_of g ?y KLoop |- _ =>
             pose proof (kind_of_inj _ _ _ H H'); done end).
    + left. split; [done|]. split; [done|]. by eexists _, _; split; [|left].
    + left. split; [done|]. split; [done|]. by eexists _, _; split; [|right].
    + right. eauto.
    + exfalso. eapply (plain_not_kind _ _ KLoop); eauto.
  - intros [(Ho & Hv & front & rest & Hc & [(-> & -> & ?)|(-> & -> & ?)])|(c & Hc & He)].
    + by eapply em_loop_entry.
    + by eapply em_loop_back.
    + by eapply em_loop.
Qed.

Lemma process_loop_walks rec x :
  kind_of g x KLoop ->
  (forall c, c ∈ children g x -> walks (fun st => rec st c) (emits opts g c)) ->
  walks (fun st => process_loop rec opts st x) (emits opts g x).
Proof.
  intros Hk Hrec st Hs. unfold process_loop.
  assert (1 <= x) as Hx by (destruct Hk as (n & Hn & _); apply get_bound in Hn; lia).
  destruct (emit_loop_back_edges opts) eqn:Ho; cbn [negb].
  2: { rewrite (same_ast_children g _ x Hs).
       destruct (visit_all_walks rec (emits opts g) (children g x) Hrec st Hs) as (st' & -> & H1).
       exists st'. split; [done|]. eapply adds_ext; [|exact H1]. intros a b.
       rewrite emits_loop_iff by done. unfold loop_pairs. rewrite Ho. naive_solver. }
  rewrite (same_loop_body _ _ Hs). set (st1 := if is_valid _ then _ else _).
  assert (adds g (cs_graph st) (cs_graph st1) (loop_pairs x)) as H1.
  { subst st1. unfold loop_pairs. rewrite Ho.
    destruct (is_valid (loop_body g x)) eqn:Hv.
    2: { eapply adds_ext; [|by apply adds_none]. naive_solver. }
    rewrite (same_ast_children g _ _ Hs). pose proof (children_valid (loop_body g x)) as Hcv.
    destruct (children g (loop_body g x)) as [|front rest] eqn:Hc.
    { eapply adds_ext; [|by apply adds_none]. naive_solver. }
    assert (1 <= front) as Hf by by inversion Hcv.
    assert (1 <= List.last (front :: rest) front) as Hl.
    { rewrite Forall_forall in Hcv. apply Hcv. apply list_elem_of_In.
      destruct (@exists_last _ (front :: rest)) as (l' & z & ->); [done|].
      rewrite List.last_last. apply in_or_app. right. by left. }
    pose proof (add_adds g st x front Hs Hx Hf) as HA.
    pose proof (add_adds g (bump_branch (add st x front)) _ _ (ad_ast _ _ _ _ HA) Hl Hx) as HB.
    eapply adds_ext; [|exact (adds_trans _ _ _ _ _ _ HA HB)]. naive_solver. }
  pose proof (ad_ast _ _ _ _ H1) as Hs1. rewrite (same_ast_children g _ x Hs1).
  destruct (visit_all_walks rec (emits opts g) (children g x) Hrec st1 Hs1) as (st' & -> & H2).
  exists st'. split; [done|]. eapply adds_ext; [|exact (adds_trans _ _ _ _ _ _ H1 H2)].
  intros a b. by rewrite emits_loop_iff.
Qed.

(** With more fuel than there are ids above [x], descending into [x] succeeds
    and adds exactly the pairs [x] emits. *)
Lemma descend_walks fuel x :
  (N.to_nat (N.of_nat (node_count g) + 1 - x) < fuel)%nat ->
  walks (fun st => descend fuel opts st x) (emits opts g x).
Proof.
  revert x. induction fuel as [|fuel IH]; intros x Hf; [lia|].
  assert (forall c, c ∈ children g x -> walks (fun st => descend fuel opts st c) (emits opts g c)) as Hrec.
  { intros c Hc. pose proof (children_bound g x c Hwf Hc). apply IH. lia. }
  assert (forall c gr, c ∈ children g x -> gr ∈ children g c ->
            walks (fun st => descend fuel opts st gr) (emits opts g gr)) as Hrec2.
  { intros c gr Hc Hgr. pose proof (children_bound g x c Hwf Hc).
    pose proof (children_bound g c gr Hwf Hgr). apply IH. lia. }
  intros st Hs. cbn [descend]. rewrite (same_ast_get _ _ x Hs).
  destruct (get g x) as [n|] eqn:Hn.
  2: { exists st. split; [done|]. eapply adds_ext; [|by apply adds_none]. intros a b.
       split; [done|]. inversion 1; subst; unfold kind_of in *; naive_solver. }
  assert (plain_kind (n_kind n) ->
    exists st', visit_all (descend fuel opts) st
      (List.filter (is_structured (cs_graph st)) (children (cs_graph st) x)) = Some st'
      /\ adds g (cs_graph st) (cs_graph st') (emits opts g x)) as Hplain.
  { intros Hp. rewrite (same_ast_children g _ x Hs).
    rewrite (List.filter_ext _ (is_structured g))
      by (intros c; unfold is_structured; by rewrite (same_ast_get _ _ c Hs)).
    destruct (visit_all_walks (descend fuel opts) (emits opts g)
      (List.filter (is_structured g) (children g x))
      ltac:(intros c [Hc _]%elem_of_lfilter; by apply Hrec) st Hs) as (st' & -> & H1).
    exists st'. split; [done|]. eapply adds_ext; [|exact H1]. intros a b. split.
    - intros (c & [Hc Hsc]%elem_of_lfilter & He). by eapply em_plain.
    - inversion 1 as [| | | | | | | |? n' c ? ? Hn' Hp' Hc Hst He]; subst;
        try (exfalso; eapply (plain_not_kind _ n); [exact Hn|exact Hp| |eassumption]; tauto).
      exists c. by rewrite elem_of_lfilter. }
  destruct (n_kind n) eqn:Hk;
    first [ by apply process_block_walks; [exists n|..]
          | by apply process_if_walks; [exists n|..]
          | by apply process_loop_walks; [exists n|..]
          | by apply Hplain ].
Qed.

End walker.

(** Any preorder on walker states that contains the three edge steps contains
    every run of the walker. *)
Section preserved.
  Context (opts : CfgBuildOptions) (R : CfgState -> CfgState -> Prop) `{!PreOrder R}.
  Context (Hseq : forall st a b, R st (bump_seq (add st a b))).
  Context (Hbranch : forall st a b, R st (bump_branch (add st a b))).
  Context (Hback : forall st a b, R st (bump_back (add st a b))).

Definition within (run : CfgState -> option CfgState) : Prop :=
  forall st st', run st = Some st' -> R st st'.

Lemma visit_all_within rec ids :
  (forall x, within (fun st => rec st x)) -> within (fun st => visit_all rec st ids).
Proof using PreOrder0.
  intros Hrec. induction ids as [|c ids IH]; intros st st'; simpl; [by intros [= ->]|].
  destruct (rec st c) as [st1|] eqn:E; [|done]. intros H. etrans; [by eapply Hrec|by apply IH].
Qed.

Lemma seq_edges_within ids st : R st (seq_edges st ids).
Proof using PreOrder0 Hseq.
  revert st. induction ids as [|a [|b ids] IH]; intros st; [done..|].
  cbn [seq_edges]. etrans; [apply Hseq|apply IH].
Qed.

Lemma if_grandchildren_within rec x grands :
  (forall x, within (fun st => rec st x)) -> within (fun st => if_grandchildren rec x st grands).
Proof using PreOrder0 Hbranch.
  intros Hrec. induction grands as [|c ids IH]; intros st st'; cbn [if_grandchildren];
    [by intros [= ->]|].
  destruct (get _ c) as [n|]; [|apply IH]. case_bool_decide; [|apply IH].
  destruct (rec _ c) as [st1|] eqn:E; [|done]. intros H'.
  etrans; [apply Hbranch|]. etrans; [by eapply Hrec|by apply IH].
Qed.

Lemma if_children_within rec x ids :
  (forall x, within (fun st => rec st x)) -> within (fun st => if_children rec x st ids).
Proof using PreOrder0 Hbranch.
  intros Hrec. induction ids as [|c ids IH]; intros st st'; cbn [if_children]; [by intros [= ->]|].
  destruct (get _ c) as [n|]; [|apply IH]. case_bool_decide.
  - destruct (rec _ c) as [st1|] eqn:E; [|done]. intros H'.
    etrans; [apply Hbranch|]. etrans; [by eapply Hrec|by apply IH].
  - destruct (if_grandchildren _ _ _ _) as [st0|] eqn:E0; [|done].
    destruct (rec _ c) as [st1|] eqn:E; [|done]. intros H'.
    etrans; [by eapply if_grandchildren_within|]. etrans; [by eapply Hrec|by apply IH].
Qed.

Lemma process_loop_within rec x :
  (forall x, within (fun st => rec st x)) -> within (fun st => process_loop rec opts st x).
Proof using PreOrder0 Hbranch Hback.
  intros Hrec st st'. unfold process_loop. destruct (negb _); [by apply visit_all_within|].
  intros H. etrans; [|by eapply visit_all_within].
  destruct (is_valid _); [|done]. destruct (children _ _) as [|front rest]; [done|].
  etrans; [apply Hbranch|apply Hback].
Qed.

Lemma descend_within fuel x : within (fun st => descend fuel opts st x).
Proof using PreOrder0 Hbranch Hback Hseq.
  revert x. induction fuel as [|fuel IH]; intros x st st'; cbn [descend]; [done|].
  destruct (get _ x) as [n|]; [|by intros [= ->]]. destruct (n_kind n);
    try (by apply visit_all_within).
  - unfold process_block. intros H. etrans; [apply seq_edges_within|]. by eapply visit_all_within.
  - unfold process_if. destruct (negb _); [by apply visit_all_within|by apply if_children_within].
  - by apply process_loop_within.
Qed.
End preserved.

(** Every recorded edge was counted: the edges added never outnumber the
    counters, and no walk below a function touches [functions_processed]. *)
Definition counted (st st' : CfgState) : Prop :=
  functions_processed (cs_stats st') = functions_processed (cs_stats st) /\
  (length (g_edges (cs_graph st')) + sequential_edges (cs_stats st)
     + branch_entry_edges (cs_stats st) + loop_back_edges (cs_stats st)
   <= length (g_edges (cs_graph st)) + sequential_edges (cs_stats st')
     + branch_entry_edges (cs_stats st') + loop_back_edges (cs_stats st'))%nat.

#[local] Instance counted_preorder : PreOrder counted.
Proof. split; [by intros st|]. intros x y z [? ?] [? ?]. split; [congruence|lia]. Qed.

Lemma counted_add st a b :
  (length (g_edges (cs_graph (add st a b))) <= S (length (g_edges (cs_graph st))))%nat
  /\ cs_stats (add st a b) = cs_stats st.
Proof. unfold add. destruct (_ || _ || _); simpl; (split; [|done]); rewrite ?length_app; simpl; lia. Qed.

Lemma descend_counted fuel opts x st st' : descend fuel opts st x = Some st' -> counted st st'.
Proof.
  apply descend_within; [apply _|..]; intros st0 a b; destruct (counted_add st0 a b) as [? Hs];
    (split; simpl; rewrite Hs; [done|lia]).
Qed.

Lemma process_function_counted fuel opts st fn st' :
  process_function fuel opts st fn = Some st' -> counted (bump_functions st) st'.
Proof.
  unfold process_function. apply (visit_all_within counted). intros x st0 st1.
  apply descend_counted.
Qed.

Lemma visit_functions_counted fuel opts ids st st' :
  visit_all (process_function fuel opts) st ids = Some st' ->
  functions_processed (cs_stats st') = (length ids + functions_processed (cs_stats st))%nat /\
  (length (g_edges (cs_graph st')) + sequential_edges (cs_stats st)
     + branch_entry_edges (cs_stats st) + loop_back_edges (cs_stats st)
   <= length (g_edges (cs_graph st)) + sequential_edges (cs_stats st')
     + branch_entry_edges (cs_stats st') + loop_back_edges (cs_stats st'))%nat.
Proof.
  revert st. induction ids as [|c ids IH]; intros st; simpl.
  - intros [= ->]. lia.
  - destruct (process_function _ _ _ _) as [st1|] eqn:E; [|done]. intros [-> H]%IH.
    apply process_function_counted in E as [E1 E2]. simpl in *. lia.
Qed.

(** The edges a node emits join nodes of the graph. *)
Lemma emits_bound opts g x a b :
  graph_wf g -> emits opts g x a b ->
  1 <= a <= N.of_nat (node_count g) /\ 1 <= b <= N.of_nat (node_count g).
Proof.
  intros Hwf. 
  assert (forall y k, kind_of g y k -> 1 <= y <= N.of_nat (node_count g)) as Hk
    by (intros y k (n & Hn & _); by eapply get_bound).
  assert (forall p c, c ∈ children g p -> 1 <= c <= N.of_nat (node_count g)) as Hc
    by (intros p c H; pose proof (children_bound g p c Hwf H); lia).
  assert (forall y, 1 <= y <= N.of_nat (node_count g) ->
    1 <= first_child_of g y <= N.of_nat (node_count g)) as Hf.
  { intros y Hy. unfold first_child_of. destruct (children g y) as [|c l] eqn:E; [done|].
    apply (Hc y). rewrite E. by left. }
  assert (forall p front rest, children g p = front :: rest ->
    1 <= List.last (front :: rest) front <= N.of_nat (node_count g)) as Hl.
  { intros p front rest E. apply (Hc p). rewrite E. apply list_elem_of_In.
    destruct (@exists_last _ (front :: rest)) as (l' & z & ->); [done|].
    rewrite List.last_last. apply in_or_app. right. by left. }
  induction 1 as [x a b pre post ? E| | | | |x front rest ? ? ? E|x front rest ? ? ? E| |]; eauto.
  - split; apply (Hc x); rewrite E, elem_of_app, !elem_of_cons; auto.
  - split; [eauto|]. apply (Hc (loop_body g x)). rewrite E. by left.
Qed.

(** ** Theorems *)

Definition cfg_pair (opts : CfgBuildOptions) (g : Graph) (a b : NodeId) : Prop :=
  exists fn c, kind_of g fn KFunctionDef /\ c ∈ children g fn /\ emits opts g c a b.

(** C4: on every well-formed graph the control-flow pass terminates, leaves
    nodes, root and AST edges as they are, gives a well-formed graph again,
    and the edges it adds are exactly the [Cfg] pairs that the bodies of the
    function definitions emit.  A body emits what the walker's rules say, and
    those look only one level through a node that is not a block, an if or a
    loop: a block two such levels down emits nothing
    ([build_cfg_misses_nested_block]), although the header [cfg.hpp] promises
    sequential edges for every block descendant. *)
Theorem build_cfg_refines opts g fuel :
  graph_wf g -> (node_count g + 1 < fuel)%nat ->
  exists st, build_cfg fuel opts g = Some st /\ same_ast g (cs_graph st) /\
    graph_wf (cs_graph st) /\
    forall e, e ∈ g_edges (cs_graph st) <->
      e ∈ g_edges g \/ exists a b, e = mkEdge a b ECfg /\ cfg_pair opts g a b.
Proof.
  intros Hwf Hf. unfold build_cfg.
  assert (forall fn, walks g (fun st => process_function fuel opts st fn)
    (fun a b => exists c, c ∈ children g fn /\ emits opts g c a b)) as Hfn.
  { intros fn st Hs. unfold process_function. simpl. rewrite (same_ast_children g _ fn Hs).
    destruct (visit_all_walks g Hwf (descend fuel opts) (emits opts g) (children g fn)
      ltac:(intros; apply descend_walks; [done|lia]) (bump_functions st) Hs) as (st' & -> & H).
    by exists st'. }
  destruct (visit_all_walks g Hwf _ _ (find_by_kind g KFunctionDef) (fun fn _ => Hfn fn)
    (mkCfgState g (mkCfgStats 0 0 0 0)) (same_ast_refl g)) as (st & -> & [Hs He]).
  assert (forall e, e ∈ g_edges (cs_graph st) <->
    e ∈ g_edges g \/ exists a b, e = mkEdge a b ECfg /\ cfg_pair opts g a b) as Hedges.
  { intros e. rewrite He. unfold cfg_pair.
    setoid_rewrite elem_of_find_by_kind; [|done]. unfold kind_of. naive_solver. }
  exists st. do 2 (split; [done|]). split; [|done].
  apply (same_ast_wf g); [done..|]. intros e [Hin|(a & b & -> & fn & c & _ & _ & Hem)]%Hedges.
  - by apply (wf_edges g).
  - by apply (emits_bound opts g c).
Qed.

(** The statistics account for the pass: one processed function per
    function definition, and no more edges than the three counters add up to. *)
Lemma build_cfg_counts opts g fuel st :
  build_cfg fuel opts g = Some st ->
  functions_processed (cs_stats st) = length (find_by_kind g KFunctionDef) /\
  (length (g_edges (cs_graph st)) <= length (g_edges g) + sequential_edges (cs_stats st)
     + branch_entry_edges (cs_stats st) + loop_back_edges (cs_stats st))%nat.
Proof. intros [H1 H2]%visit_functions_counted. simpl in *. lia. Qed.

(** [fn f() { if c { a; } else { x; y; } }] in a grammar that wraps the else
    branch in an [else_clause]. *)
Definition if_tree : Tree :=
  TNode (lit "function_item", byte_range 0 40)
    [TNode (lit "block", byte_range 8 40)
       [TNode (lit "if_expression", byte_range 10 38)
          [TNode (lit "block", byte_range 14 18) [TNode (lit "identifier", byte_range 15 16) []];
           TNode (lit "else_clause", byte_range 20 38)
             [TNode (lit "block", byte_range 25 36)
                [TNode (lit "identifier", byte_range 26 27) [];
                 TNode (lit "identifier", byte_range 28 29) []]]]]].

Definition if_graph : Graph := build (mkAst LRust [] (preorder if_tree)).

Lemma if_graph_wf : graph_wf if_graph.
Proof. apply build_graph_wf. by vm_compute. Qed.

Lemma build_cfg_refines_witness :
  exists st, build_cfg 20 (mkCfgOpts true true) if_graph = Some st /\
    same_ast if_graph (cs_graph st) /\ graph_wf (cs_graph st) /\
    forall e, e ∈ g_edges (cs_graph st) <->
      e ∈ g_edges if_graph \/
      exists a b, e = mkEdge a b ECfg /\ cfg_pair (mkCfgOpts true true) if_graph a b.
Proof.
  apply build_cfg_refines; [exact if_graph_wf|]. apply Nat.ltb_lt. by vm_compute.
Defined.

Lemma build_cfg_counts_witness :
  exists st, build_cfg 20 (mkCfgOpts true true) if_graph = Some st /\
    functions_processed (cs_stats st) = length (find_by_kind if_graph KFunctionDef).
Proof.
  eexists. split; [vm_compute; reflexivity|].
  eapply (build_cfg_counts (mkCfgOpts true true) if_graph 20). vm_compute. reflexivity.
Defined.

(** A branch block wrapped in an [else_clause] is walked twice, once as
    a grandchild and once through the wrapper, so its sequential edge is both
    added and counted twice. *)
Lemma build_cfg_double_descent :
  exists st, build_cfg 20 (mkCfgOpts true true) if_graph = Some st /\
    List.filter (fun e => bool_decide (e_kind e = ECfg)) (g_edges (cs_graph st)) =
      [mkEdge 3 5 ECfg; mkEdge 3 8 ECfg; mkEdge 8 9 ECfg; mkEdge 8 9 ECfg] /\
    sequential_edges (cs_stats st) = 2%nat.
Proof. eexists. split; [vm_compute; reflexivity|]. by vm_compute. Qed.

(** [def f(): try: a; b except: x; y]: the handler's block sits below the
    [except_clause], two plain nodes away from the function's block. *)
Definition try_tree : Tree :=
  TNode (lit "function_definition", byte_range 0 60)
    [TNode (lit "block", byte_range 8 60)
       [TNode (lit "try_statement", byte_range 10 58)
          [TNode (lit "block", byte_range 14 24)
             [TNode (lit "identifier", byte_range 15 16) [];
              TNode (lit "identifier", byte_range 18 19) []];
           TNode (lit "except_clause", byte_range 26 58)
             [TNode (lit "block", byte_range 35 56)
                [TNode (lit "identifier", byte_range 36 37) [];
                 TNode (lit "identifier", byte_range 38 39) []]]]]].

Definition try_graph : Graph := build (mkAst LPython [] (preorder try_tree)).

(** The two statements of the [try] block (nodes 5 and 6) are joined; the two
    of the handler (nodes 9 and 10), consecutive children of the block 8 of
    the same function, are not. *)
Lemma build_cfg_misses_nested_block :
  n_kind <$> get try_graph 8 = Some KBlock /\ children try_graph 8 = [9; 10] /\
  exists st, build_cfg 20 (mkCfgOpts true true) try_graph = Some st /\
    List.filter (fun e => bool_decide (e_kind e = ECfg)) (g_edges (cs_graph st)) =
      [mkEdge 5 6 ECfg] /\
    sequential_edges (cs_stats st) = 1%nat.
Proof.
  split; [by vm_compute|]. split; [by vm_compute|].
  eexists. split; [vm_compute; reflexivity|]. by vm_compute.
Qed.
