(* ===== verification/CpgDdg.v ===== *)
(** * Data-dependency edges: [libs/cpg/src/ddg.cpp]

    The recursive [DdgWalker] with its name-to-last-definition map, and
    [build_ddg].  The walker mutates the graph, the map and the statistics;
    here it passes a [DdgState].  The abstract reading is an event trace: the
    definitions and uses of a function in the order the walker meets them.
    [walk_events] reads the trace off the AST, [flows] gives the edges of a
    trace, and [reaches] is the declarative "last definition before the use".
    Recursion is bounded by [fuel]; children have larger ids than their
    parent, so [node_count g + 2] is always enough. *)

From Stdlib Require Import ZArith Ascii String Lia.
From stdpp Require Import base list gmap strings sorting.
From S2P Require Import Prelude CxxString CpgGraph.
Local Open Scope N_scope.

Record DdgBuildOptions : Type := mkDdgOpts {
  track_declarations : bool;
  track_assignments : bool;
  max_names_per_function : nat;
}.

Record DdgStats : Type := mkDdgStats {
  ddg_functions_processed : nat;
  definitions_recorded : nat;
  ddg_edges : nat;
  names_capped : nat;
}.

Record DdgState : Type := mkDdgState {
  ds_graph : Graph;
  ds_stats : DdgStats;
  def_map : gmap str NodeId;
}.

(** ** The walker *)

Definition emit_use (st : DdgState) (use_id : NodeId) (name : str) : DdgState :=
  if bool_decide (name = []) then st
  else match def_map st !! name with
       | None => st
       | Some d =>
           if d =? use_id then st
           else
             let s := ds_stats st in
             mkDdgState (add_edge (ds_graph st) (mkEdge d use_id EDdg))
               (mkDdgStats (ddg_functions_processed s) (definitions_recorded s)
                  (S (ddg_edges s)) (names_capped s)) (def_map st)
       end.

Definition record_def (opts : DdgBuildOptions) (st : DdgState) (name : str) (def_id : NodeId) :
    DdgState :=
  if bool_decide (name = []) || negb (is_valid def_id) then st
  else
    let s := ds_stats st in
    if (max_names_per_function opts <=? size (def_map st))%nat
       && bool_decide (def_map st !! name = None)
    then mkDdgState (ds_graph st)
           (mkDdgStats (ddg_functions_processed s) (definitions_recorded s)
              (ddg_edges s) (S (names_capped s))) (def_map st)
    else mkDdgState (ds_graph st)
           (mkDdgStats (ddg_functions_processed s) (S (definitions_recorded s))
              (ddg_edges s) (names_capped s)) (<[name := def_id]> (def_map st)).

(** The [try_collect] closure of [identifier_children]. *)
Definition try_collect (g : Graph) (c : NodeId) : option (NodeId * str) :=
  match get g c with
  | Some cn =>
      if bool_decide (n_kind cn = KIdentifier) && negb (bool_decide (n_name cn = []))
      then Some (c, n_name cn) else None
  | None => None
  end.

Fixpoint first_collected (g : Graph) (ids : list NodeId) : list (NodeId * str) :=
  match ids with
  | [] => []
  | gc :: ids => match try_collect g gc with Some p => [p] | None => first_collected g ids end
  end.

Definition identifier_children (g : Graph) (node_id : NodeId) : list (NodeId * str) :=
  flat_map (fun c => match try_collect g c with
                     | Some p => [p]
                     | None => first_collected g (children g c)
                     end) (children g node_id).

Definition record_all (opts : DdgBuildOptions) (def_id : NodeId) (idents : list (NodeId * str))
    (st : DdgState) : DdgState :=
  fold_left (fun st p => record_def opts st (snd p) def_id) idents st.

Definition walk_declaration (rec : DdgState -> NodeId -> option DdgState)
    (opts : DdgBuildOptions) (st : DdgState) (id : NodeId) : option DdgState :=
  if negb (track_declarations opts) then visit_all rec st (children (ds_graph st) id)
  else
    let idents := identifier_children (ds_graph st) id in
    let walked := List.filter (fun c => match try_collect (ds_graph st) c with
                                        | Some _ => false | None => true end)
                    (children (ds_graph st) id) in
    match visit_all rec st walked with
    | Some st => Some (record_all opts id idents st)
    | None => None
    end.

Definition lhs_name (lhs : option Node) : str :=
  match lhs with
  | Some l => if bool_decide (n_kind l = KIdentifier) then n_name l else []
  | None => []
  end.

(** The LHS is walked too when it is not a bare identifier. *)
Definition walks_lhs (lhs : option Node) : bool :=
  match lhs with Some l => negb (bool_decide (n_kind l = KIdentifier)) | None => false end.

Definition walk_assignment (rec : DdgState -> NodeId -> option DdgState)
    (opts : DdgBuildOptions) (st : DdgState) (id : NodeId) : option DdgState :=
  match children (ds_graph st) id with
  | [] => Some st
  | front :: rhs =>
      let lhs := get (ds_graph st) front in
      match visit_all rec st rhs with
      | None => None
      | Some st =>
          match (if walks_lhs lhs then rec st front else Some st) with
          | None => None
          | Some st =>
              if track_assignments opts && negb (bool_decide (lhs_name lhs = []))
              then Some (record_def opts st (lhs_name lhs) id)
              else Some st
          end
      end
  end.

Fixpoint walk (fuel : nat) (opts : DdgBuildOptions) (st : DdgState) (id : NodeId) :
    option DdgState :=
  match fuel with
  | O => None
  | S fuel =>
      match get (ds_graph st) id with
      | None => Some st
      | Some n =>
          match n_kind n with
          | KParameter => Some st
          | KIdentifier => Some (emit_use st id (n_name n))
          | KDeclaration => walk_declaration (walk fuel opts) opts st id
          | KAssignment => walk_assignment (walk fuel opts) opts st id
          | _ => visit_all (walk fuel opts) st (children (ds_graph st) id)
          end
      end
  end.

(** One child in the loop of [register_parameters]. *)
Definition register_child (rec : DdgState -> NodeId -> option DdgState)
    (opts : DdgBuildOptions) (st : DdgState) (c : NodeId) : option DdgState :=
  match get (ds_graph st) c with
  | None => Some st
  | Some cn =>
      match n_kind cn with
      | KParameter => Some (record_all opts c (identifier_children (ds_graph st) c) st)
      | KBlock | KFunctionDef => Some st
      | _ => rec st c
      end
  end.

Fixpoint register_parameters (fuel : nat) (opts : DdgBuildOptions) (st : DdgState)
    (root : NodeId) : option DdgState :=
  match fuel with
  | O => None
  | S fuel =>
      visit_all (register_child (register_parameters fuel opts) opts) st
        (children (ds_graph st) root)
  end.

(** The children [process_function] walks: the existing, non-parameter ones. *)
Definition walked_child (g : Graph) (c : NodeId) : bool :=
  match get g c with Some cn => negb (bool_decide (n_kind cn = KParameter)) | None => false end.

Definition ddg_process_function (fuel : nat) (opts : DdgBuildOptions) (st : DdgState)
    (fn : NodeId) : option DdgState :=
  let s := ds_stats st in
  let st := mkDdgState (ds_graph st)
              (mkDdgStats (S (ddg_functions_processed s)) (definitions_recorded s)
                 (ddg_edges s) (names_capped s)) ∅ in
  match register_parameters fuel opts st fn with
  | None => None
  | Some st =>
      visit_all (walk fuel opts) st
        (List.filter (walked_child (ds_graph st)) (children (ds_graph st) fn))
  end.

Definition build_ddg (fuel : nat) (opts : DdgBuildOptions) (g : Graph) : option DdgState :=
  visit_all (ddg_process_function fuel opts) (mkDdgState g (mkDdgStats 0 0 0 0) ∅)
    (find_by_kind g KFunctionDef).

(** ** The trace of a function *)

Inductive DdgEvent : Type :=
| Use (u : NodeId) (name : str)
| Def (name : str) (d : NodeId).

Definition run_event (opts : DdgBuildOptions) (st : DdgState) (ev : DdgEvent) : DdgState :=
  match ev with
  | Use u name => emit_use st u name
  | Def name d => record_def opts st name d
  end.

Definition run (opts : DdgBuildOptions) (evs : list DdgEvent) (st : DdgState) : DdgState :=
  fold_left (run_event opts) evs st.

Definition defs_of (def_id : NodeId) (idents : list (NodeId * str)) : list DdgEvent :=
  map (fun p => Def (snd p) def_id) idents.

Fixpoint walk_events (fuel : nat) (opts : DdgBuildOptions) (g : Graph) (id : NodeId) :
    list DdgEvent :=
  match fuel with
  | O => []
  | S fuel =>
      let below := flat_map (walk_events fuel opts g) in
      match get g id with
      | None => []
      | Some n =>
          match n_kind n with
          | KParameter => []
          | KIdentifier => [Use id (n_name n)]
          | KDeclaration =>
              if track_declarations opts then
                below (List.filter (fun c => match try_collect g c with
                                             | Some _ => false | None => true end)
                         (children g id))
                ++ defs_of id (identifier_children g id)
              else below (children g id)
          | KAssignment =>
              match children g id with
              | [] => []
              | front :: rhs =>
                  below rhs
                  ++ (if walks_lhs (get g front) then walk_events fuel opts g front else [])
                  ++ (if track_assignments opts && negb (bool_decide (lhs_name (get g front) = []))
                      then [Def (lhs_name (get g front)) id] else [])
              end
          | _ => below (children g id)
          end
      end
  end.

Fixpoint param_events (fuel : nat) (g : Graph) (root : NodeId) : list DdgEvent :=
  match fuel with
  | O => []
  | S fuel =>
      flat_map (fun c =>
        match get g c with
        | None => []
        | Some cn => match n_kind cn with
                     | KParameter => defs_of c (identifier_children g c)
                     | KBlock | KFunctionDef => []
                     | _ => param_events fuel g c
                     end
        end) (children g root)
  end.

Definition function_events (fuel : nat) (opts : DdgBuildOptions) (g : Graph) (fn : NodeId) :
    list DdgEvent :=
  param_events fuel g fn
  ++ flat_map (walk_events fuel opts g) (List.filter (walked_child g) (children g fn)).

(** The edges a trace adds, starting from the map [m]. *)
Fixpoint flows (opts : DdgBuildOptions) (m : gmap str NodeId) (evs : list DdgEvent) : list Edge :=
  match evs with
  | [] => []
  | Use u name :: evs =>
      (if bool_decide (name = []) then []
       else match m !! name with
            | Some d => if d =? u then [] else [mkEdge d u EDdg]
            | None => []
            end) ++ flows opts m evs
  | Def name d :: evs =>
      if bool_decide (name = []) || negb (is_valid d) then flows opts m evs
      else if (max_names_per_function opts <=? size m)%nat && bool_decide (m !! name = None)
      then flows opts m evs
      else flows opts (<[name := d]> m) evs
  end.

(** [d] is the last definition of the name before the use [u]. *)
Definition reaches (evs : list DdgEvent) (d u : NodeId) : Prop :=
  exists pre mid post name,
    evs = pre ++ Def name d :: mid ++ Use u name :: post /\ forall d', Def name d' ∉ mid.

Definition event_names (evs : list DdgEvent) : gset str :=
  list_to_set (map (fun ev => match ev with Use _ nm | Def nm _ => nm end)
    (List.filter (fun ev => match ev with Def _ _ => true | _ => false end) evs)).

(** ** The walker runs its trace *)

Lemma run_app opts evs evs' st : run opts (evs ++ evs') st = run opts evs' (run opts evs st).
Proof. apply fold_left_app. Qed.

Lemma record_all_run opts d idents st :
  record_all opts d idents st = run opts (defs_of d idents) st.
Proof. unfold record_all, run, defs_of. revert st. by induction idents; simpl. Qed.

Lemma run_same_ast opts evs st : same_ast (ds_graph st) (ds_graph (run opts evs st)).
Proof.
  revert st. induction evs as [|ev evs IH]; intros st; simpl; [apply same_ast_refl|].
  eapply same_ast_trans; [|apply IH]. destruct ev as [u nm|nm d]; simpl.
  - unfold emit_use. case_bool_decide; [apply same_ast_refl|].
    destruct (def_map st !! nm); [|apply same_ast_refl].
    destruct (_ =? _); [apply same_ast_refl|]. by apply same_ast_add.
  - unfold record_def. destruct (_ || _); [apply same_ast_refl|].
    destruct (_ && _); apply same_ast_refl.
Qed.

Section trace.
  Context (opts : DdgBuildOptions) (g : Graph).

(** A walker that succeeds and has the effect of running [evs]. *)
Definition runs (w : DdgState -> option DdgState) (evs : list DdgEvent) : Prop :=
  forall st, same_ast g (ds_graph st) -> w st = Some (run opts evs st).

Lemma runs_visit rec ev ids :
  (forall c, c ∈ ids -> runs (fun st => rec st c) (ev c)) ->
  runs (fun st => visit_all rec st ids) (flat_map ev ids).
Proof.
  induction ids as [|c ids IH]; intros Hrec st Hs; simpl; [done|].
  rewrite (Hrec c) by (done || set_solver). rewrite run_app. apply IH; [set_solver|].
  eapply same_ast_trans; [exact Hs|]. apply run_same_ast.
Qed.

Lemma same_try_collect h c : same_ast g h -> try_collect h c = try_collect g c.
Proof. intros Hs. unfold try_collect. by rewrite (same_ast_get _ _ _ Hs). Qed.

Lemma same_identifier_children h x :
  same_ast g h -> identifier_children h x = identifier_children g x.
Proof.
  intros Hs. unfold identifier_children. rewrite (same_ast_children _ _ _ Hs).
  apply flat_map_ext. intros c. rewrite (same_try_collect _ _ Hs).
  destruct (try_collect g c); [done|]. rewrite (same_ast_children _ _ _ Hs).
  induction (children g c) as [|gc l IH]; simpl; [done|].
  by rewrite (same_try_collect _ _ Hs), IH.
Qed.

Context (Hwf : graph_wf g).

Lemma walk_runs fuel x :
  (N.to_nat (N.of_nat (node_count g) + 1 - x) < fuel)%nat ->
  runs (fun st => walk fuel opts st x) (walk_events fuel opts g x).
Proof.
  revert x. induction fuel as [|fuel IH]; intros x Hf; [lia|].
  assert (forall ids, (forall c, c ∈ ids -> c ∈ children g x) ->
    runs (fun st => visit_all (walk fuel opts) st ids) (flat_map (walk_events fuel opts g) ids))
    as Hrec.
  { intros ids Hids. apply runs_visit. intros c Hc. apply IH.
    pose proof (children_bound g x c Hwf (Hids c Hc)). lia. }
  intros st Hs. cbn [walk walk_events]. rewrite (same_ast_get _ _ x Hs).
  destruct (get g x) as [n|] eqn:Hn; [|done].
  destruct (n_kind n); rewrite ?(same_ast_children _ _ x Hs); try done; try (by apply Hrec).
  - unfold walk_assignment. rewrite (same_ast_children _ _ x Hs).
    destruct (children g x) as [|front rhs] eqn:Hc; [done|].
    rewrite (Hrec rhs) by (done || set_solver). rewrite (same_ast_get _ _ front Hs).
    assert (same_ast g (ds_graph (run opts (flat_map (walk_events fuel opts g) rhs) st))) as Hs1
      by (eapply same_ast_trans; [exact Hs|apply run_same_ast]).
    destruct (walks_lhs (get g front)).
    + rewrite (IH front) by (done ||
        (pose proof (children_bound g x front Hwf) as Hb; rewrite Hc in Hb;
         specialize (Hb ltac:(by left)); lia)).
      destruct (_ && _); by rewrite !run_app.
    + destruct (_ && _); by rewrite !run_app.
  - unfold walk_declaration. destruct (track_declarations opts); cbn [negb];
      rewrite (same_ast_children _ _ x Hs); [|by apply Hrec].
    rewrite (List.filter_ext _ (fun c => match try_collect g c with
      | Some _ => false | None => true end)) by (intros c; by rewrite (same_try_collect _ _ Hs)).
    rewrite Hrec; [|by intros c [? _]%elem_of_lfilter|done].
    by rewrite record_all_run, run_app, (same_identifier_children _ _ Hs).
Qed.

Lemma register_parameters_runs fuel x :
  (N.to_nat (N.of_nat (node_count g) + 1 - x) < fuel)%nat ->
  runs (fun st => register_parameters fuel opts st x) (param_events fuel g x).
Proof.
  revert x. induction fuel as [|fuel IH]; intros x Hf; [lia|]. intros st Hs.
  cbn [register_parameters param_events]. rewrite (same_ast_children _ _ x Hs).
  apply runs_visit; [|done]. intros c Hc st0 Hs0. unfold register_child.
  rewrite (same_ast_get _ _ c Hs0). destruct (get g c) as [cn|] eqn:Hn; [|done].
  pose proof (children_bound g x c Hwf Hc).
  destruct (n_kind cn); try done; try (apply IH; [lia|done]).
  by rewrite record_all_run, (same_identifier_children _ _ Hs0).
Qed.
(** More fuel than needed does not change a trace. *)
Lemma walk_events_stable fuel fuel' x :
  (N.to_nat (N.of_nat (node_count g) + 1 - x) < fuel)%nat ->
  (N.to_nat (N.of_nat (node_count g) + 1 - x) < fuel')%nat ->
  walk_events fuel opts g x = walk_events fuel' opts g x.
Proof.
  revert fuel' x. induction fuel as [|fuel IH]; intros [|fuel'] x Hf Hf'; [lia..|].
  assert (forall c, c ∈ children g x -> walk_events fuel opts g c = walk_events fuel' opts g c)
    as Hc.
  { intros c Hc. pose proof (children_bound g x c Hwf Hc). apply IH; lia. }
  assert (forall ids, (forall c, c ∈ ids -> c ∈ children g x) ->
    flat_map (walk_events fuel opts g) ids = flat_map (walk_events fuel' opts g) ids) as Hids.
  { induction ids as [|c ids IHids]; intros Hin; simpl; [done|].
    rewrite (Hc c) by set_solver. f_equal. apply IHids. set_solver. }
  cbn [walk_events]. destruct (get g x) as [n|]; [|done].
  destruct (n_kind n); try done; try (by apply Hids).
  - destruct (children g x) as [|front rhs] eqn:E; [done|].
    rewrite Hids by set_solver. by rewrite (Hc front) by set_solver.
  - destruct (track_declarations opts); [|by apply Hids].
    f_equal. apply Hids. by intros c [? _]%elem_of_lfilter.
Qed.

Lemma param_events_stable fuel fuel' x :
  (N.to_nat (N.of_nat (node_count g) + 1 - x) < fuel)%nat ->
  (N.to_nat (N.of_nat (node_count g) + 1 - x) < fuel')%nat ->
  param_events fuel g x = param_events fuel' g x.
Proof.
  revert fuel' x. induction fuel as [|fuel IH]; intros [|fuel'] x Hf Hf'; [lia..|].
  cbn [param_events]. rewrite !flat_map_concat_map. f_equal. apply map_ext_in.
  intros c Hc%list_elem_of_In. pose proof (children_bound g x c Hwf Hc).
  rewrite (IH fuel' c) by lia. done.
Qed.
End trace.

(** The trace of the function definition [fn]. *)
Definition trace (opts : DdgBuildOptions) (g : Graph) (fn : NodeId) : list DdgEvent :=
  function_events (node_count g + 2) opts g fn.

Lemma function_events_trace opts g fuel fn :
  graph_wf g -> (node_count g + 1 < fuel)%nat -> function_events fuel opts g fn = trace opts g fn.
Proof.
  intros Hwf Hf. unfold trace, function_events.
  rewrite (param_events_stable g Hwf fuel (node_count g + 2)) by lia. f_equal.
  apply flat_map_ext. intros c. apply walk_events_stable; [done|lia..].
Qed.

(** ** What a trace does *)

Lemma run_effect opts evs st :
  g_edges (ds_graph (run opts evs st)) = g_edges (ds_graph st) ++ flows opts (def_map st) evs
  /\ ddg_edges (ds_stats (run opts evs st))
     = (ddg_edges (ds_stats st) + length (flows opts (def_map st) evs))%nat
  /\ ddg_functions_processed (ds_stats (run opts evs st)) = ddg_functions_processed (ds_stats st).
Proof.
  revert st. induction evs as [|ev evs IH]; intros st; [simpl; by rewrite app_nil_r, Nat.add_0_r|].
  change (run opts (ev :: evs) st) with (run opts evs (run_event opts st ev)).
  destruct (IH (run_event opts st ev)) as (H1 & H2 & H3). rewrite H1, H2, H3. clear.
  destruct ev as [u nm|nm d]; cbn [run_event flows].
  - unfold emit_use. case_bool_decide; [done|]. destruct (def_map st !! nm) as [d|]; [|done].
    destruct (d =? u); [done|]. simpl. rewrite <-(assoc_L (++)). split; [done|]. split; [lia|done].
  - unfold record_def. destruct (_ || _); [done|]. by destruct (_ && _).
Qed.

Lemma run_map_bound opts evs st :
  (size (def_map st) <= max_names_per_function opts)%nat ->
  (size (def_map (run opts evs st)) <= max_names_per_function opts)%nat.
Proof.
  revert st. induction evs as [|ev evs IH]; intros st H; [done|]. simpl. apply IH.
  destruct ev as [u nm|nm d]; simpl.
  - unfold emit_use. case_bool_decide; [done|]. destruct (def_map st !! nm); [|done].
    by destruct (_ =? _).
  - unfold record_def. destruct (_ || _); [done|]. destruct (_ && _) eqn:E; [done|]. simpl.
    destruct (def_map st !! nm) as [d'|] eqn:Hm.
    + rewrite map_size_insert_Some; [done|by exists d'].
    + rewrite map_size_insert_None by done.
      rewrite andb_false_iff, Nat.leb_gt, bool_decide_eq_false in E. destruct E; [lia|done].
Qed.

(** Names in definitions are not empty and definitions are existing nodes. *)
Definition event_ok (ev : DdgEvent) : Prop :=
  match ev with Use _ _ => True | Def nm d => nm <> [] /\ 1 <= d end.

Lemma event_names_cons ev evs :
  event_names (ev :: evs) =
  (match ev with Use _ _ => ∅ | Def nm _ => {[nm]} end) ∪ event_names evs.
Proof. unfold event_names. destruct ev; simpl; set_solver. Qed.

(** The use [u] of [nm] is met before [nm] is defined again. *)
Definition open_use (evs : list DdgEvent) (nm : str) (u : NodeId) : Prop :=
  exists pre post, evs = pre ++ Use u nm :: post /\ forall d', Def nm d' ∉ pre.

Lemma open_use_nil nm u : ~ open_use [] nm u.
Proof. intros ([|] & ? & ? & ?); done. Qed.

Lemma open_use_cons ev evs nm u :
  open_use (ev :: evs) nm u <->
  ev = Use u nm \/ ((forall d', ev <> Def nm d') /\ open_use evs nm u).
Proof.
  split.
  - intros ([|p pre] & post & [= <- Hev] & Hno); [by left|]. right. split.
    + intros d' ->. apply (Hno d'). by left.
    + exists pre, post. split; [done|]. intros d' Hin. apply (Hno d'). by right.
  - intros [->|[Hne (pre & post & -> & Hno)]].
    + exists [], evs. split; [done|]. intros d'. apply not_elem_of_nil.
    + exists (ev :: pre), post. split; [done|]. intros d' [Heq|Hin]%elem_of_cons; [|by eapply Hno].
      by eapply Hne.
Qed.

Lemma reaches_nil d u : ~ reaches [] d u.
Proof. intros ([|] & ? & ? & ? & ? & ?); done. Qed.

Lemma reaches_cons ev evs d u :
  reaches (ev :: evs) d u <-> reaches evs d u \/ exists nm, ev = Def nm d /\ open_use evs nm u.
Proof.
  split.
  - intros ([|p pre] & mid & post & nm & [= -> Hev] & Hno).
    + right. exists nm. split; [done|]. by exists mid, post.
    + left. by exists pre, mid, post, nm.
  - intros [(pre & mid & post & nm & -> & Hno)|(nm & -> & mid & post & -> & Hno)].
    + by exists (ev :: pre), mid, post, nm.
    + by exists [], mid, post, nm.
Qed.

(** Without the cap, the edges of a trace are the definition-use pairs. *)
Lemma elem_of_flows opts m evs e :
  Forall event_ok evs -> [] ∉ dom m ->
  (size (dom m ∪ event_names evs) <= max_names_per_function opts)%nat ->
  e ∈ flows opts m evs <->
  exists d u, e = mkEdge d u EDdg /\ d <> u /\
    (reaches evs d u \/ exists nm, m !! nm = Some d /\ open_use evs nm u).
Proof.
  revert m. induction evs as [|ev evs IH]; intros m Hok Hm Hsz.
  { simpl. split; [by intros ?%not_elem_of_nil|].
    intros (d & u & _ & _ & [?%reaches_nil|(? & _ & ?%open_use_nil)]); done. }
  apply Forall_cons in Hok as [Hev Hok]. rewrite event_names_cons in Hsz.
  setoid_rewrite reaches_cons. setoid_rewrite open_use_cons.
  destruct ev as [u0 nm|nm d0]; cbn [flows].
  - rewrite elem_of_app, IH by (done || (rewrite (left_id_L ∅ (∪)) in Hsz; done)).
    assert (nm = [] -> m !! nm = None) as Hnil by (intros ->; by apply not_elem_of_dom).
    case_bool_decide as Hb.
    + specialize (Hnil Hb). set_solver.
    + destruct (m !! nm) as [d|] eqn:Hd; [destruct (d =? u0) eqn:E|]; bool_to_prop;
        rewrite ?N.eqb_eq, ?N.eqb_neq in *; set_solver.
  - destruct Hev as [Hnm Hd0].
    rewrite bool_decide_false, (proj2 (is_valid_true d0)) by done. cbn [orb negb].
    assert ((max_names_per_function opts <=? size m)%nat && bool_decide (m !! nm = None) = false)
      as ->.
    { apply andb_false_iff. rewrite Nat.leb_gt, bool_decide_eq_false.
      destruct (m !! nm) as [d|] eqn:Hd; [by right|]. left.
      apply not_elem_of_dom in Hd. rewrite <-size_dom.
      apply Nat.lt_le_trans with (size ({[nm]} ∪ dom m)).
      - rewrite size_union by set_solver. rewrite size_singleton. lia.
      - etrans; [|exact Hsz]. apply subseteq_size. set_solver. }
    rewrite IH; [|done|rewrite dom_insert; set_solver|].
    2: { rewrite dom_insert_L. etrans; [|exact Hsz]. apply subseteq_size. set_solver. }
    setoid_rewrite lookup_insert_Some. naive_solver.
Qed.

Lemma flows_sound opts m evs e :
  e ∈ flows opts m evs ->
  exists d u nm, e = mkEdge d u EDdg /\ d <> u /\ nm <> [] /\ Use u nm ∈ evs
    /\ (Def nm d ∈ evs \/ m !! nm = Some d).
Proof.
  revert m. induction evs as [|ev evs IH]; intros m; simpl; [by intros ?%not_elem_of_nil|].
  destruct ev as [u0 nm|nm d0].
  - rewrite elem_of_app. intros [H|H].
    + case_bool_decide; [by apply not_elem_of_nil in H|].
      destruct (m !! nm) as [d|] eqn:Hd; [|by apply not_elem_of_nil in H].
      destruct (d =? u0) eqn:E; [by apply not_elem_of_nil in H|].
      apply list_elem_of_singleton in H as ->. apply N.eqb_neq in E.
      exists d, u0, nm. repeat split; auto. by left.
    + apply IH in H as (d & u & nm' & ? & ? & ? & ? & Hd). exists d, u, nm'.
      repeat split; auto; [by right|]. destruct Hd; [left; by right|by right].
  - assert (forall m', e ∈ flows opts m' evs ->
      (forall k d, m' !! k = Some d -> m !! k = Some d \/ (k = nm /\ d = d0)) ->
      exists d u nm', e = mkEdge d u EDdg /\ d <> u /\ nm' <> [] /\ Use u nm' ∈ Def nm d0 :: evs
        /\ (Def nm' d ∈ Def nm d0 :: evs \/ m !! nm' = Some d)) as Hgo.
    { intros m' H Hm. apply IH in H as (d & u & nm' & ? & ? & ? & ? & Hd). exists d, u, nm'.
      repeat split; auto; [by right|]. destruct Hd as [?|Hd]; [left; by right|].
      destruct (Hm _ _ Hd) as [?|[-> ->]]; [by right|left; by left]. }
    destruct (_ || _); [intros; eapply Hgo; eauto|].
    destruct (_ && _); [intros; eapply Hgo; eauto|].
    intros H. eapply Hgo; [exact H|]. intros k d [[? ?]|[? ?]]%lookup_insert_Some; subst; auto.
Qed.

(** [d] is a parameter, declaration or assignment that defines [nm]. *)
Definition defines (opts : DdgBuildOptions) (g : Graph) (d : NodeId) (nm : str) : Prop :=
  exists n, get g d = Some n /\
  ((n_kind n = KParameter /\ exists c, (c, nm) ∈ identifier_children g d)
   \/ (n_kind n = KDeclaration /\ track_declarations opts = true
       /\ exists c, (c, nm) ∈ identifier_children g d)
   \/ (n_kind n = KAssignment /\ track_assignments opts = true
       /\ exists front rhs, children g d = front :: rhs /\ lhs_name (get g front) = nm)).

Definition event_sound (opts : DdgBuildOptions) (g : Graph) (ev : DdgEvent) : Prop :=
  match ev with
  | Use u nm => exists n, get g u = Some n /\ n_kind n = KIdentifier /\ n_name n = nm
  | Def nm d => nm <> [] /\ defines opts g d nm
  end.

Lemma try_collect_name g c p : try_collect g c = Some p -> snd p <> [].
Proof.
  unfold try_collect. destruct (get g c) as [n|]; [|done].
  repeat case_bool_decide; simpl; by intros [= <-].
Qed.

Lemma identifier_children_names g x p : p ∈ identifier_children g x -> snd p <> [].
Proof.
  unfold identifier_children. rewrite list_elem_of_In, in_flat_map. intros (c & _ & H).
  destruct (try_collect g c) as [q|] eqn:E.
  - destruct H as [<-|[]]. by eapply try_collect_name.
  - induction (children g c) as [|gc l IH]; simpl in *; [done|].
    destruct (try_collect g gc) as [q|] eqn:E'; [|by apply IH].
    destruct H as [<-|[]]. by eapply try_collect_name.
Qed.

Lemma defs_of_sound opts g d n :
  get g d = Some n ->
  n_kind n = KParameter \/ (n_kind n = KDeclaration /\ track_declarations opts = true) ->
  Forall (event_sound opts g) (defs_of d (identifier_children g d)).
Proof.
  intros Hn Hk. apply Forall_forall. unfold defs_of.
  intros ev ([c nm] & -> & Hin)%list_elem_of_fmap. simpl.
  split; [by apply (identifier_children_names g d (c, nm))|]. exists n. split; [done|].
  destruct Hk as [?|[? ?]]; eauto 10.
Qed.

Lemma walk_events_sound opts g fuel x : Forall (event_sound opts g) (walk_events fuel opts g x).
Proof.
  revert x. induction fuel as [|fuel IH]; intros x; [constructor|]. cbn [walk_events].
  destruct (get g x) as [n|] eqn:Hn; [|constructor].
  destruct (n_kind n) eqn:Hk; try (by apply Forall_flat_map; auto); try (by constructor).
  - constructor; [|constructor]. by exists n.
  - destruct (children g x) as [|front rhs] eqn:Hc; [constructor|].
    rewrite !Forall_app. split; [apply Forall_flat_map; auto|].
    split; [destruct (walks_lhs _); [apply IH|constructor]|].
    destruct (track_assignments opts) eqn:Ht; [|constructor]. simpl.
    case_bool_decide; simpl; constructor; [|constructor].
    split; [done|]. exists n. split; [done|]. eauto 10.
  - destruct (track_declarations opts) eqn:Ht; [|apply Forall_flat_map; auto].
    apply Forall_app. split; [apply Forall_flat_map; auto|]. eapply defs_of_sound; eauto.
Qed.

Lemma param_events_sound opts g fuel x : Forall (event_sound opts g) (param_events fuel g x).
Proof.
  revert x. induction fuel as [|fuel IH]; intros x; [constructor|]. cbn [param_events].
  apply Forall_flat_map. intros c _. destruct (get g c) as [n|] eqn:Hn; [|constructor].
  destruct (n_kind n) eqn:Hk; try constructor; auto. eapply defs_of_sound; eauto.
Qed.

Lemma trace_sound opts g fn : Forall (event_sound opts g) (trace opts g fn).
Proof.
  apply Forall_app. split; [apply param_events_sound|].
  apply Forall_flat_map. intros c _. apply walk_events_sound.
Qed.

Lemma event_sound_ok opts g ev : event_sound opts g ev -> event_ok ev.
Proof.
  destruct ev as [|nm d]; simpl; [done|]. intros (? & n & Hn & _). split; [done|].
  apply get_bound in Hn. lia.
Qed.

(** ** The whole pass *)

Lemma process_function_runs opts g fuel fn st :
  graph_wf g -> (node_count g + 1 < fuel)%nat -> same_ast g (ds_graph st) ->
  ddg_process_function fuel opts st fn =
  Some (run opts (trace opts g fn)
          (mkDdgState (ds_graph st)
             (mkDdgStats (S (ddg_functions_processed (ds_stats st)))
                (definitions_recorded (ds_stats st)) (ddg_edges (ds_stats st))
                (names_capped (ds_stats st))) ∅)).
Proof.
  intros Hwf Hf Hs. unfold ddg_process_function.
  rewrite <-(function_events_trace opts g fuel) by done. unfold function_events.
  rewrite (register_parameters_runs opts g Hwf) by (done || lia).
  match goal with |- context [run opts _ ?s] => set (st0 := s) end.
  assert (same_ast g (ds_graph (run opts (param_events fuel g fn) st0))) as Hs1
    by (eapply same_ast_trans; [exact Hs|]; apply (run_same_ast _ _ st0)).
  rewrite (same_ast_children _ _ fn Hs1).
  rewrite (List.filter_ext _ (walked_child g))
    by (intros c; unfold walked_child; by rewrite (same_ast_get _ _ c Hs1)).
  rewrite (runs_visit opts g _ (walk_events fuel opts g)); [by rewrite run_app| |done].
  intros c _. apply walk_runs; [done|lia].
Qed.

Lemma visit_functions_runs opts g fuel ids st :
  graph_wf g -> (node_count g + 1 < fuel)%nat -> same_ast g (ds_graph st) ->
  exists st', visit_all (ddg_process_function fuel opts) st ids = Some st'
    /\ same_ast g (ds_graph st')
    /\ g_edges (ds_graph st')
       = g_edges (ds_graph st) ++ flat_map (fun fn => flows opts ∅ (trace opts g fn)) ids
    /\ ddg_edges (ds_stats st') = (ddg_edges (ds_stats st)
         + length (flat_map (fun fn => flows opts ∅ (trace opts g fn)) ids))%nat
    /\ ddg_functions_processed (ds_stats st')
       = (length ids + ddg_functions_processed (ds_stats st))%nat
    /\ ((size (def_map st) <= max_names_per_function opts)%nat ->
        (size (def_map st') <= max_names_per_function opts)%nat).
Proof.
  intros Hwf Hf. revert st. induction ids as [|fn ids IH]; intros st Hs.
  { exists st. simpl. rewrite app_nil_r, Nat.add_0_r. by split_and!. }
  cbn [visit_all]. rewrite (process_function_runs opts g) by done.
  match goal with |- context [run opts _ ?s] => set (st0 := s) end.
  destruct (run_effect opts (trace opts g fn) st0) as (E1 & E2 & E3).
  destruct (IH (run opts (trace opts g fn) st0)) as (st' & -> & H1 & H2 & H3 & H4 & H5).
  { eapply same_ast_trans; [exact Hs|]. apply (run_same_ast _ _ st0). }
  exists st'. split; [done|]. split; [done|]. rewrite H2, H3, H4, E1, E2, E3. cbn [flat_map].
  rewrite length_app, <-(assoc_L (++)). simpl. repeat split; try lia; try done.
  intros _. apply H5. apply run_map_bound. simpl. rewrite map_size_empty. lia.
Qed.

Lemma flows_bound opts g fn e :
  e ∈ flows opts ∅ (trace opts g fn) ->
  exists d u nm, e = mkEdge d u EDdg /\ d <> u /\ nm <> [] /\ defines opts g d nm
    /\ exists n, get g u = Some n /\ n_kind n = KIdentifier /\ n_name n = nm.
Proof.
  intros (d & u & nm & -> & Hne & Hnm & Hu & [Hd|Hd])%flows_sound; [|done].
  pose proof (trace_sound opts g fn) as Hs. rewrite Forall_forall in Hs.
  exists d, u, nm. split; [done|]. do 2 (split; [done|]). split; [apply (Hs _ Hd)|apply (Hs _ Hu)].
Qed.

(** ** Theorems *)

(** On every well-formed graph the data-dependency pass terminates and
    keeps nodes, root, AST edges and well-formedness; every edge it adds is a
    [Ddg] edge from a node that defines a name to another node that is an
    identifier of that name; and the statistics count the added edges and
    the processed functions exactly. *)
Lemma build_ddg_sound opts g fuel :
  graph_wf g -> (node_count g + 1 < fuel)%nat ->
  exists st, build_ddg fuel opts g = Some st /\ same_ast g (ds_graph st) /\
    graph_wf (ds_graph st) /\
    length (g_edges (ds_graph st)) = (length (g_edges g) + ddg_edges (ds_stats st))%nat /\
    ddg_functions_processed (ds_stats st) = length (find_by_kind g KFunctionDef) /\
    (size (def_map st) <= max_names_per_function opts)%nat /\
    forall e, e ∈ g_edges (ds_graph st) -> e ∈ g_edges g \/
      exists d u nm, e = mkEdge d u EDdg /\ d <> u /\ nm <> [] /\ defines opts g d nm /\
        exists n, get g u = Some n /\ n_kind n = KIdentifier /\ n_name n = nm.
Proof.
  intros Hwf Hf. unfold build_ddg.
  destruct (visit_functions_runs opts g fuel (find_by_kind g KFunctionDef)
    (mkDdgState g (mkDdgStats 0 0 0 0) ∅) Hwf Hf (same_ast_refl g))
    as (st & -> & Hs & He & Hn & Hp & Hm).
  assert (forall e, e ∈ g_edges (ds_graph st) -> e ∈ g_edges g \/
      exists d u nm, e = mkEdge d u EDdg /\ d <> u /\ nm <> [] /\ defines opts g d nm /\
        exists n, get g u = Some n /\ n_kind n = KIdentifier /\ n_name n = nm) as Hin.
  { intros e. rewrite He. simpl. rewrite elem_of_app, elem_of_flat_map.
    intros [?|(fn & _ & H%flows_bound)]; [by left|by right]. }
  exists st. do 2 (split; [done|]). split; [|split; [|split; [|split]]].
  - apply (same_ast_wf g); [done..|].
    intros e [?|(d & u & nm & -> & _ & _ & (n & Hd & _) & n' & Hu & _)]%Hin;
      [by apply (wf_edges g)|]. simpl. by split; eapply get_bound.
  - rewrite He, Hn, length_app. done.
  - rewrite Hp. simpl. lia.
  - apply Hm. simpl. rewrite map_size_empty. lia.
  - done.
Qed.

(** C3: when no function defines more than [max_names_per_function] names,
    the added edges are exactly the pairs of a use and the last definition of
    its name before it in the trace of one function. *)
Theorem build_ddg_last_definition opts g fuel :
  graph_wf g -> (node_count g + 1 < fuel)%nat ->
  (forall fn, fn ∈ find_by_kind g KFunctionDef ->
     size (event_names (trace opts g fn)) <= max_names_per_function opts)%nat ->
  exists st, build_ddg fuel opts g = Some st /\
    forall e, e ∈ g_edges (ds_graph st) <->
      e ∈ g_edges g \/
      exists fn d u, fn ∈ find_by_kind g KFunctionDef /\ e = mkEdge d u EDdg /\ d <> u /\
        reaches (trace opts g fn) d u.
Proof.
  intros Hwf Hf Hcap. unfold build_ddg.
  destruct (visit_functions_runs opts g fuel (find_by_kind g KFunctionDef)
    (mkDdgState g (mkDdgStats 0 0 0 0) ∅) Hwf Hf (same_ast_refl g)) as (st & -> & _ & He & _).
  exists st. split; [done|]. intros e. rewrite He. simpl.
  rewrite elem_of_app, elem_of_flat_map. f_equiv.
  assert (forall fn, fn ∈ find_by_kind g KFunctionDef ->
    e ∈ flows opts ∅ (trace opts g fn) <->
    exists d u, e = mkEdge d u EDdg /\ d <> u /\ reaches (trace opts g fn) d u) as Hflow.
  { intros fn Hfn. rewrite elem_of_flows; [|..].
    - setoid_rewrite lookup_empty. naive_solver.
    - eapply Forall_impl; [apply trace_sound|]. apply event_sound_ok.
    - set_solver.
    - rewrite dom_empty_L, (left_id_L ∅ (∪)). by apply Hcap. }
  split; [intros (fn & Hfn & H)|intros (fn & d & u & Hfn & H)]; specialize (Hflow fn Hfn);
    naive_solver.
Qed.

(** [fn f(y) { let x = y; }] with [body] as the children of the block. *)
Definition let_tree (body : list Tree) : Tree :=
  TNode (lit "function_item", byte_range 0 30)
    [TNode (lit "identifier", byte_range 3 4) [];
     TNode (lit "parameters", byte_range 4 7)
       [TNode (lit "parameter", byte_range 5 6) [TNode (lit "identifier", byte_range 5 6) []]];
     TNode (lit "block", byte_range 8 30) body].

Definition copy_graph : Graph :=
  build (mkAst LRust (lit "fn f(y) { let x = y; }")
    (preorder (let_tree
       [TNode (lit "let_declaration", byte_range 10 20)
          [TNode (lit "identifier", byte_range 14 15) [];
           TNode (lit "identifier", byte_range 18 19) []]]))).

(** [fn f(y) { let x = 1; x = y+x; }] *)
Definition flow_graph : Graph :=
  build (mkAst LRust (lit "fn f(y) { let x = 1; x = y+x; }")
    (preorder (let_tree
       [TNode (lit "let_declaration", byte_range 10 20)
          [TNode (lit "identifier", byte_range 14 15) []];
        TNode (lit "assignment_expression", byte_range 21 28)
          [TNode (lit "identifier", byte_range 21 22) [];
           TNode (lit "binary_expression", byte_range 25 28)
             [TNode (lit "identifier", byte_range 25 26) [];
              TNode (lit "identifier", byte_range 27 28) []]]]))).

Definition default_ddg_opts : DdgBuildOptions := mkDdgOpts true true 4096.

Lemma copy_graph_wf : graph_wf copy_graph.
Proof. apply build_graph_wf. by vm_compute. Qed.
Lemma flow_graph_wf : graph_wf flow_graph.
Proof. apply build_graph_wf. by vm_compute. Qed.

Lemma build_ddg_sound_witness :
  exists st, build_ddg 20 default_ddg_opts flow_graph = Some st /\
    length (g_edges (ds_graph st)) = (length (g_edges flow_graph) + ddg_edges (ds_stats st))%nat.
Proof.
  destruct (build_ddg_sound default_ddg_opts flow_graph 20) as (st & H & _ & _ & Hl & _);
    [exact flow_graph_wf|apply Nat.ltb_lt; by vm_compute|].
  exists st. split; [exact H|exact Hl].
Defined.

Lemma build_ddg_last_definition_witness :
  exists st, build_ddg 20 default_ddg_opts flow_graph = Some st /\
    (mkEdge 7 13 EDdg ∈ g_edges (ds_graph st) <->
     mkEdge 7 13 EDdg ∈ g_edges flow_graph \/
     exists fn d u, fn ∈ find_by_kind flow_graph KFunctionDef /\
       mkEdge 7 13 EDdg = mkEdge d u EDdg /\ d <> u /\
       reaches (trace default_ddg_opts flow_graph fn) d u).
Proof.
  destruct (build_ddg_last_definition default_ddg_opts flow_graph 20) as (st & H & He);
    [exact flow_graph_wf|apply Nat.ltb_lt; by vm_compute| |exists st; split; [exact H|apply He]].
  intros fn Hfn. assert (fn = 1) as ->.
  { assert (find_by_kind flow_graph KFunctionDef = [1]) as E by (vm_compute; reflexivity).
    rewrite E in Hfn. by apply list_elem_of_singleton in Hfn. }
  apply Nat.leb_le. vm_compute. reflexivity.
Defined.

(** In [fn f(y) { let x = y; }] the right-hand side [y] is a direct
    identifier child of the declaration, so it is recorded as a second name
    defined there and never as a use: no data-dependency edge is added, and
    [y] now maps to the declaration instead of the parameter. *)
Lemma build_ddg_loses_copy :
  exists st, build_ddg 20 default_ddg_opts copy_graph = Some st /\
    g_edges (ds_graph st) = g_edges copy_graph /\
    get copy_graph 9 = Some (mkNode 9 KIdentifier (lit "identifier") (lit "y") (byte_range 18 19) LRust) /\
    n_kind <$> get copy_graph 7 = Some KDeclaration /\
    def_map st !! lit "y" = Some 7.
Proof. eexists. split; [vm_compute; reflexivity|]. by vm_compute. Qed.
