(* ===== verification/Finding.v ===== *)
(** * Findings: [libs/security/.../finding.hpp] and [finding.cpp]

    The canonical [Finding] every analysis produces, its enumerations and the
    label functions emitters use.  Line and column numbers are C++ [int]s. *)

From Stdlib Require Import ZArith Ascii String Lia.
From stdpp Require Import base list strings.
From S2P Require Import Prelude CxxString Doubles.
Local Open Scope string_scope.

Inductive Severity : Type := SevNone | SevInfo | SevLow | SevMedium | SevHigh | SevCritical.
Inductive Confidence : Type := ConfUnknown | ConfPossible | ConfProbable | ConfVerified.
Inductive RuleSource : Type :=
| EuxisCore | OpenGrep | UserDefined | LlmInferred | DependencyScanner | SecretDetector
| SlopsquattingGuard.

Inductive OwaspCategory : Type :=
| OwaspNone | A01_BrokenAccessControl | A02_CryptographicFailures | A03_SupplyChainFailures
| A04_InsecureDesign | A05_SecurityMisconfiguration | A06_VulnerableComponents
| A07_AuthenticationFailures | A08_DataIntegrityFailures | A09_LoggingMonitoringFailures
| A10_MishandlingExceptionalConditions.

Inductive QuantumDeprecation : Type :=
| QuantumNone | Rsa | Ecdsa | Ecdh | DhFiniteField | Sha1InSignature | Md5InSignature
| NonHybridKemMlKem | NonHybridSigMlDsa.

#[export] Instance Severity_eq_dec : EqDecision Severity.
Proof. solve_decision. Defined.
#[export] Instance Confidence_eq_dec : EqDecision Confidence.
Proof. solve_decision. Defined.
#[export] Instance OwaspCategory_eq_dec : EqDecision OwaspCategory.
Proof. solve_decision. Defined.

Record CweRef : Type := mkCwe {
  cwe_id : str; cwe_short_name : str; in_top_25_2025 : bool; top_25_rank : Z;
}.

Record SourceLocation : Type := mkLoc {
  loc_path : str; start_line : Z; loc_start_column : Z; end_line : Z; loc_end_column : Z;
  snippet : str;
}.

Record FixSuggestion : Type := mkFix {
  fix_description : str; replacement_text : str; replacement_range : SourceLocation;
  deterministic : bool;
}.

Record EnsembleVote : Type := mkVote {
  provider : str; true_positive : bool; vote_confidence : float32;
}.

Record Finding : Type := mkFinding {
  stable_fingerprint_of : str;
  rule_id : str;
  message : str;
  severity : Severity;
  confidence : Confidence;
  source : RuleSource;
  primary_location : SourceLocation;
  related_locations : list SourceLocation;
  cwe : option CweRef;
  owasp : OwaspCategory;
  quantum : QuantumDeprecation;
  compliance_taxa : list str;
  fixes : list FixSuggestion;
  ensemble_votes : list EnsembleVote;
  produced_at : Z;
}.

(** Assignments to a field of a [Finding]. *)
Definition set_votes (f : Finding) (votes : list EnsembleVote) : Finding :=
  mkFinding (stable_fingerprint_of f) (rule_id f) (message f) (severity f) (confidence f)
    (source f) (primary_location f) (related_locations f) (cwe f) (owasp f) (quantum f)
    (compliance_taxa f) (fixes f) votes (produced_at f).

Definition set_confidence (f : Finding) (c : Confidence) : Finding :=
  mkFinding (stable_fingerprint_of f) (rule_id f) (message f) (severity f) c
    (source f) (primary_location f) (related_locations f) (cwe f) (owasp f) (quantum f)
    (compliance_taxa f) (fixes f) (ensemble_votes f) (produced_at f).

Definition set_taxa (f : Finding) (taxa : list str) : Finding :=
  mkFinding (stable_fingerprint_of f) (rule_id f) (message f) (severity f) (confidence f)
    (source f) (primary_location f) (related_locations f) (cwe f) (owasp f) (quantum f)
    taxa (fixes f) (ensemble_votes f) (produced_at f).

(** The underlying value of the scoped enumeration. *)
Definition severity_value (s : Severity) : Z :=
  match s with
  | SevNone => 0 | SevInfo => 1 | SevLow => 2 | SevMedium => 3 | SevHigh => 4 | SevCritical => 5
  end.

Definition sarif_level (s : Severity) : string :=
  match s with
  | SevCritical | SevHigh => "error"
  | SevMedium => "warning"
  | SevLow | SevInfo => "note"
  | SevNone => "none"
  end.

Definition severity_label (s : Severity) : string :=
  match s with
  | SevCritical => "CRITICAL" | SevHigh => "HIGH" | SevMedium => "MEDIUM"
  | SevLow => "LOW" | SevInfo => "INFO" | SevNone => "NONE"
  end.

Definition owasp_id (c : OwaspCategory) : string :=
  match c with
  | A01_BrokenAccessControl => "A01:2025"
  | A02_CryptographicFailures => "A02:2025"
  | A03_SupplyChainFailures => "A03:2025"
  | A04_InsecureDesign => "A04:2025"
  | A05_SecurityMisconfiguration => "A05:2025"
  | A06_VulnerableComponents => "A06:2025"
  | A07_AuthenticationFailures => "A07:2025"
  | A08_DataIntegrityFailures => "A08:2025"
  | A09_LoggingMonitoringFailures => "A09:2025"
  | A10_MishandlingExceptionalConditions => "A10:2025"
  | OwaspNone => ""
  end.

Definition owasp_label (c : OwaspCategory) : string :=
  match c with
  | A01_BrokenAccessControl => "Broken Access Control"
  | A02_CryptographicFailures => "Cryptographic Failures"
  | A03_SupplyChainFailures => "Software Supply Chain Failures"
  | A04_InsecureDesign => "Insecure Design"
  | A05_SecurityMisconfiguration => "Security Misconfiguration"
  | A06_VulnerableComponents => "Vulnerable and Outdated Components"
  | A07_AuthenticationFailures => "Identification and Authentication Failures"
  | A08_DataIntegrityFailures => "Software and Data Integrity Failures"
  | A09_LoggingMonitoringFailures => "Security Logging and Monitoring Failures"
  | A10_MishandlingExceptionalConditions => "Mishandling of Exceptional Conditions"
  | OwaspNone => ""
  end.

Definition quantum_label (q : QuantumDeprecation) : string :=
  match q with
  | Rsa => "RSA (quantum-vulnerable; CNSA 2.0 deprecation 2030)"
  | Ecdsa => "ECDSA (quantum-vulnerable; CNSA 2.0 deprecation 2030)"
  | Ecdh => "ECDH (quantum-vulnerable; CNSA 2.0 deprecation 2030)"
  | DhFiniteField => "Finite-field DH (quantum-vulnerable; CNSA 2.0 deprecation 2030)"
  | Sha1InSignature => "SHA-1 in signature context (collision-broken)"
  | Md5InSignature => "MD5 in signature context (collision-broken)"
  | NonHybridKemMlKem => "ML-KEM used non-hybridised (transitional warning)"
  | NonHybridSigMlDsa => "ML-DSA used non-hybridised (transitional warning)"
  | QuantumNone => ""
  end.

Definition parse_severity (s : str) : Severity :=
  let l := lower s in
  if bool_decide (l = lit "critical") then SevCritical
  else if bool_decide (l = lit "high") then SevHigh
  else if bool_decide (l = lit "medium") then SevMedium
  else if bool_decide (l = lit "low") then SevLow
  else if bool_decide (l = lit "info") then SevInfo
  else if bool_decide (l = lit "none") then SevNone
  else SevNone.

(** ** Lemmas *)

(** Parsing a label gives the severity back, in any letter case. *)
Lemma parse_severity_label s t :
  lower t = lower (lit (severity_label s)) -> parse_severity t = s.
Proof. unfold parse_severity. intros ->. destruct s; by vm_compute. Qed.

(** A string that is no label, in any letter case, parses as [SevNone]. *)
Lemma parse_severity_other t :
  (forall s, lower t <> lower (lit (severity_label s))) -> parse_severity t = SevNone.
Proof.
  intros H. unfold parse_severity.
  rewrite (bool_decide_false _ (H SevCritical)), (bool_decide_false _ (H SevHigh)),
    (bool_decide_false _ (H SevMedium)), (bool_decide_false _ (H SevLow)),
    (bool_decide_false _ (H SevInfo)).
  by case_bool_decide.
Qed.

Lemma owasp_id_inj c c' : owasp_id c = owasp_id c' -> c = c'.
Proof. by destruct c, c'. Qed.
