(* ===== verification/Slopsquat.v ===== *)
(** * The slopsquatting guard: [libs/slopsquatting]

    A corpus of package names that language models invent, per ecosystem, and
    the check of scanned manifests against it.  Corpus text is read line by
    line; [load_text] is the loop that [load_seed] and [load_corpus_file]
    share. *)

From Stdlib Require Import ZArith Ascii String Lia.
From stdpp Require Import base list gmap strings.
From S2P Require Import Prelude CxxString Lines Purl Finding Sca.

(** ** The corpus *)

Definition parse_purl_type (s : str) : PurlType :=
  if bool_decide (s = lit "npm") then Npm
  else if bool_decide (s = lit "pypi") then Pypi
  else if bool_decide (s = lit "cargo") then Cargo
  else if bool_decide (s = lit "golang") then Golang
  else if bool_decide (s = lit "go") then Golang
  else if bool_decide (s = lit "maven") then Maven
  else if bool_decide (s = lit "gem") then Gem
  else Generic.

Definition hyphenate (c : ascii) : ascii :=
  let c := tolower c in if char_is "_" c || char_is "." c then "-"%char else c.

Fixpoint collapse (last_hyphen : bool) (s : str) : str :=
  match s with
  | [] => []
  | c :: s =>
    if char_is "-" c then (if last_hyphen then [] else ["-"%char]) ++ collapse true s
    else c :: collapse false s
  end.

Definition pypi_normalise (s : str) : str := collapse false (hyphenate <$> s).

Record EcosystemBucket : Type := mkBucket {
  b_names : gset str; b_normalised : gset str; b_nearest : list (str * str);
}.
Definition empty_bucket : EcosystemBucket := mkBucket ∅ ∅ [].

Record Guard : Type := mkGuard {
  npm_ : EcosystemBucket; pypi_ : EcosystemBucket; cargo_ : EcosystemBucket; golang_ : EcosystemBucket;
  maven_ : EcosystemBucket; gem_ : EcosystemBucket; generic_ : EcosystemBucket;
}.
Definition new_guard : Guard :=
  mkGuard empty_bucket empty_bucket empty_bucket empty_bucket empty_bucket empty_bucket empty_bucket.

Definition bucket_for (g : Guard) (e : PurlType) : EcosystemBucket :=
  match e with
  | Npm => npm_ g | Pypi => pypi_ g | Cargo => cargo_ g | Golang => golang_ g
  | Maven => maven_ g | Gem => gem_ g | _ => generic_ g
  end.

(** Writing through the reference [bucket_for] returns. *)
Definition update_bucket (g : Guard) (e : PurlType) (f : EcosystemBucket -> EcosystemBucket) : Guard :=
  let 'mkGuard n p c go m ge gen := g in
  match e with
  | Npm => mkGuard (f n) p c go m ge gen
  | Pypi => mkGuard n (f p) c go m ge gen
  | Cargo => mkGuard n p (f c) go m ge gen
  | Golang => mkGuard n p c (f go) m ge gen
  | Maven => mkGuard n p c go (f m) ge gen
  | Gem => mkGuard n p c go m (f ge) gen
  | _ => mkGuard n p c go m ge (f gen)
  end.

Definition guard_size (g : Guard) : nat :=
  size (b_names (npm_ g)) + size (b_names (pypi_ g)) + size (b_names (cargo_ g))
  + size (b_names (golang_ g)) + size (b_names (maven_ g)) + size (b_names (gem_ g))
  + size (b_names (generic_ g)).

Definition contains (g : Guard) (name : str) (ecosystem : PurlType) : bool :=
  let b := bucket_for g ecosystem in
  if bool_decide (ecosystem = Pypi) then bool_decide (pypi_normalise name ∈ b_normalised b)
  else bool_decide (name ∈ b_names b).

Definition insert_name (ecosystem : PurlType) (n : str) (b : EcosystemBucket) : EcosystemBucket :=
  mkBucket ({[n]} ∪ b_names b)
    (if bool_decide (ecosystem = Pypi) then {[pypi_normalise n]} ∪ b_normalised b else b_normalised b)
    (b_nearest b).

Definition add (g : Guard) (ecosystem : PurlType) (names : list str) : Guard :=
  foldl (fun g n => if bool_decide (n = []) then g else update_bucket g ecosystem (insert_name ecosystem n))
    g names.

Definition add_with_nearest (g : Guard) (ecosystem : PurlType) (name nearest : str) : Guard :=
  if bool_decide (name = []) then g
  else update_bucket g ecosystem (fun b =>
    let b := insert_name ecosystem name b in
    if bool_decide (nearest = []) then b
    else mkBucket (b_names b) (b_normalised b) (b_nearest b ++ [(name, nearest)])).

(** [parse_line]: the entry of a line, if it has one. *)
Definition parse_line (raw : str) : option (PurlType * str * str) :=
  let line := trim raw in
  if bool_decide (line = []) || front_is "#" line then None
  else
    let '(eco, body) :=
      match find_char ":" line with
      | None => (Generic, line)
      | Some colon =>
        let prefix := trim (take colon line) in
        let resolved := parse_purl_type prefix in
        if negb (bool_decide (resolved = Generic)) || bool_decide (prefix = lit "generic")
        then (resolved, trim (drop (S colon) line)) else (Generic, line)
      end in
    let '(name, nearest) :=
      match find_char "=" body with
      | None => (body, [])
      | Some eq => (trim (take eq body), trim (drop (S eq) body))
      end in
    if bool_decide (name = []) then None else Some (eco, name, nearest).

Definition load_line (st : Guard * nat) (raw : str) : Guard * nat :=
  match parse_line raw with
  | Some (eco, name, nearest) => (add_with_nearest (fst st) eco name nearest, S (snd st))
  | None => st
  end.

Definition load_text (g : Guard) (text : str) : Guard * nat := foldl load_line (g, 0) (getlines text).

Record CorpusError : Type := mkCorpusError { ce_message : str; ce_file : str }.

(** [file] is the contents of the file, if it can be opened. *)
Definition load_corpus_file (g : Guard) (path : str) (file : option str) :
    expected nat CorpusError * Guard :=
  match file with
  | None => (Unexpected (mkCorpusError (lit "Cannot open file") path), g)
  | Some text => let '(g', added) := load_text g text in (Ok added, g')
  end.

Definition kSeedLines : list string :=
  ["";
   "# euxis slopsquatting seed corpus (embedded copy of data/slopsquatting/seed-corpus.txt)";
   "";
   "# ---- npm ----";
   "npm: react-data-table = react-data-table-component";
   "npm: simple-router = express";
   "npm: easy-fetch = node-fetch";
   "npm: quick-async = async";
   "npm: lodash-utils = lodash";
   "npm: lodash-helpers = lodash";
   "npm: node-utils = lodash";
   "npm: vue-router-dom = vue-router";
   "npm: react-router-dom-v6 = react-router-dom";
   "npm: axios-fetch = axios";
   "npm: jest-runner-tests = jest";
   "npm: typescript-strict = typescript";
   "npm: ts-loader-v9 = ts-loader";
   "npm: webpack-cli-v5 = webpack-cli";
   "npm: babel-preset-typescript-strict = @babel/preset-typescript";
   "npm: eslint-plugin-typescript-strict = @typescript-eslint/eslint-plugin";
   "npm: nodejs-fs = fs";
   "npm: nodejs-path = path";
   "npm: discord-py-bot = discord.js";
   "npm: openai-node-sdk = openai";
   "npm: anthropic-node-sdk = @anthropic-ai/sdk";
   "npm: google-cloud-storage-v3 = @google-cloud/storage";
   "npm: aws-sdk-v3 = @aws-sdk/client-s3";
   "npm: socket-io-client = socket.io-client";
   "npm: rxjs-operators-v8 = rxjs";
   "";
   "# ---- pypi ----";
   "pypi: urlib3 = urllib3";
   "pypi: python-dateutils = python-dateutil";
   "pypi: pycript = cryptography";
   "pypi: colourama = colorama";
   "pypi: discord-py = discord.py";
   "pypi: tensorflow-keras = tensorflow";
   "pypi: keras-tensorflow = keras";
   "pypi: django-rest = djangorestframework";
   "pypi: flask-utils = flask";
   "pypi: python-pdf = PyPDF2";
   "pypi: sqlalchemy-orm = sqlalchemy";
   "pypi: pandas-utils = pandas";
   "pypi: numpy-utils = numpy";
   "pypi: scikit-learn-utils = scikit-learn";
   "pypi: openai-python-sdk = openai";
   "pypi: anthropic-python-sdk = anthropic";
   "pypi: aws-boto3 = boto3";
   "pypi: google-cloud-sdk = google-cloud-storage";
   "pypi: pytest-utils = pytest";
   "pypi: requests-utils = requests";
   "pypi: requestssss = requests";
   "pypi: beautifulsoup = beautifulsoup4";
   "pypi: scikit-image-utils = scikit-image";
   "pypi: matplotlib-utils = matplotlib";
   "";
   "# ---- cargo ----";
   "cargo: tokio-utils = tokio";
   "cargo: serde-utils = serde";
   "cargo: serde-json-derive = serde";
   "cargo: reqwest-client = reqwest";
   "cargo: clap-derive-v4 = clap";
   "cargo: async-std-utils = async-std";
   "cargo: futures-utils = futures";
   "cargo: anyhow-context = anyhow";
   "cargo: tracing-subscriber-fmt = tracing-subscriber";
   "cargo: rocket-framework = rocket";
   "cargo: actix-web-utils = actix-web";
   "cargo: axum-utils = axum";
   "cargo: hyper-client = hyper";
   "cargo: tonic-grpc = tonic";
   "cargo: prost-protobuf = prost";
   "cargo: chrono-utils = chrono";
   "cargo: ring-crypto = ring";
   "cargo: sha2-utils = sha2";
   "cargo: rand-rng = rand";
   "";
   "# ---- golang ----";
   "golang: github.com/sirupsen/logrus-v2 = github.com/sirupsen/logrus";
   "golang: github.com/gorilla/mux-v2 = github.com/gorilla/mux";
   "golang: github.com/spf13/cobra-utils = github.com/spf13/cobra";
   "golang: github.com/spf13/viper-utils = github.com/spf13/viper";
   "golang: github.com/pkg/errors-v2 = github.com/pkg/errors";
   "golang: github.com/stretchr/testify-v2 = github.com/stretchr/testify";
   "golang: github.com/google/uuid-v2 = github.com/google/uuid";
   "golang: github.com/golang/protobuf-v2 = google.golang.org/protobuf";
   "golang: golang.org/x/sync-errgroup = golang.org/x/sync";
   "golang: github.com/grpc/grpc-go = google.golang.org/grpc";
   "";
   "# ---- maven ----";
   "maven: org.apache.commons.commons-lang = org.apache.commons:commons-lang3";
   "maven: com.google.code.gson-utils = com.google.code.gson:gson";
   "maven: org.springframework.spring-boot-starter = org.springframework.boot:spring-boot-starter";
   "maven: org.springframework.boot.starter-web = org.springframework.boot:spring-boot-starter-web";
   "maven: org.junit.junit-jupiter = org.junit.jupiter:junit-jupiter";
   "";
   "# ---- gem ----";
   "gem: rails-utils = rails";
   "gem: activerecord-utils = activerecord";
   "gem: rspec-utils = rspec";
   "gem: sidekiq-pro-utils = sidekiq";
   "gem: devise-utils = devise"]%string.

Definition kEmbeddedSeedCorpus : str := flat_map (fun l => lit l ++ [eol]) kSeedLines.

Definition load_seed (g : Guard) : Guard * nat := load_text g kEmbeddedSeedCorpus.

(** ** Checking a scan *)

Definition kRuleId : str := lit "euxis/slopsquatting/EUXIS-SLOPSQ-001".

Definition ecosystem_to_purl_type (e : Ecosystem) : PurlType :=
  match e with
  | EcoCargo => Cargo | EcoNpm => Npm | EcoPypi => Pypi | EcoGolang => Golang
  | EcoMaven => Maven | EcoGem => Gem | EcoComposer => Composer
  end.

Definition slop_fnv1a (s : str) (seed : Z) : Z :=
  foldl (fun h c => u64 (Z.lxor h (code c) * 0x100000001b3)) seed s.

Definition slop_hex16 (v : Z) : str :=
  (fun i => nth (Z.to_nat (Z.land (Z.shiftr v (Z.of_nat i * 4)) 15)) (lit "0123456789abcdef") "0"%char)
  <$> rev (seq 0 16).

Definition slop_fingerprint (path ecosystem name : str) : str :=
  let h := slop_fnv1a (lit "EUXIS-SLOPSQ-001") 0xcbf29ce484222325 in
  let h := slop_fnv1a path h in
  let h := slop_fnv1a ecosystem h in
  let h := slop_fnv1a name h in
  slop_hex16 h ++ slop_hex16 (Z.lxor h 0x5a5a5a5a5a5a5a5a).

(** The name a manifest entry is matched by, if any. *)
Definition lookup_name (g : Guard) (t : PurlType) (entry : ManifestEntry) : option str :=
  let full := match me_ns entry with [] => me_name entry | ns => ns ++ lit "/" ++ me_name entry end in
  if contains g full t then Some full
  else if contains g (me_name entry) t then Some (me_name entry) else None.

Definition slop_message (name eco : str) : str :=
  lit "Package '" ++ name ++ lit "' (" ++ eco ++
  lit ") is in the slopsquatting hallucinated-package corpus. LLM-generated code frequently names this package even though the legitimate registry entry does not exist (or exists and is materially different). Verify the import is intentional before resolving against the public registry.".

Definition slop_finding (now : Z) (m : ParsedManifest) (entry : ManifestEntry) (name : str) : Finding :=
  let eco := ecosystem_str (pm_ecosystem m) in
  mkFinding (slop_fingerprint (pm_source_file m) eco name) kRuleId (slop_message name eco)
    SevHigh ConfProbable SlopsquattingGuard
    (mkLoc (pm_source_file m) 0 0 0 0 (me_name entry)) []
    (Some (mkCwe (lit "CWE-1357") (lit "Reliance on Insufficiently Trustworthy Component") false 0))
    A03_SupplyChainFailures QuantumNone
    [lit "owasp:A03:2025"; lit "cwe:CWE-1357"; lit "cra:annex-i:1.3.b"; lit "nist-ssdf:PW.4.1"]
    [] [] now.

Definition check_manifest (now : Z) (g : Guard) (m : ParsedManifest) : list Finding :=
  omap (fun entry => slop_finding now m entry <$> lookup_name g (ecosystem_to_purl_type (pm_ecosystem m)) entry)
    (pm_entries m).

Definition check_scan_result (now : Z) (g : Guard) (scan : ScanResult) : list Finding :=
  flat_map (check_manifest now g) (sr_manifests scan).

(** ** Normalised names *)

(** PEP 503 normal form: no upper-case letter, underscore or dot, and no two
    hyphens in a row. *)
Definition normal_char (c : ascii) : bool := bool_decide (hyphenate c = c).
Fixpoint no_double_hyphen (s : str) : bool :=
  match s with
  | a :: (b :: _) as t => negb (char_is "-" a && char_is "-" b) && no_double_hyphen t
  | _ => true
  end.

Lemma hyphenate_idemp c : hyphenate (hyphenate c) = hyphenate c.
Proof.
  pose proof (byte_case (fun c => bool_decide (hyphenate (hyphenate c) = hyphenate c))) as H.
  specialize (H ltac:(vm_compute; reflexivity) c). by apply bool_decide_eq_true in H.
Qed.

Lemma collapse_chars b s : Forall (fun c => normal_char c = true) s ->
  Forall (fun c => normal_char c = true) (collapse b s).
Proof.
  intros Hs. revert b. induction Hs as [|c s Hc Hs IH]; intros b; simpl; [constructor|].
  destruct (char_is "-" c) eqn:E; [|by constructor]. apply char_is_true in E as ->.
  destruct b; simpl; [apply IH|by constructor].
Qed.

Lemma no_double_cons a b t :
  no_double_hyphen (a :: b :: t) = negb (char_is "-" a && char_is "-" b) && no_double_hyphen (b :: t).
Proof. done. Qed.

Lemma collapse_normal (b : bool) s :
  no_double_hyphen (if b then "-"%char :: collapse b s else collapse b s) = true.
Proof.
  revert b. induction s as [|c s IH]; intros b; [by destruct b|].
  cbn [collapse]. destruct (char_is "-" c) eqn:E.
  - pose proof (IH true) as IHt. by destruct b.
  - pose proof (IH false) as IHf. simpl in IHf.
    assert (no_double_hyphen (c :: collapse false s) = true) as Hc.
    { destruct (collapse false s); [done|]. by rewrite no_double_cons, IHf, E. }
    destruct b; [|done]. by rewrite no_double_cons, Hc, E.
Qed.

Lemma collapse_id (b : bool) s :
  no_double_hyphen (if b then "-"%char :: s else s) = true -> collapse b s = s.
Proof.
  revert b. induction s as [|c s IH]; intros b H; [done|]. simpl.
  destruct (char_is "-" c) eqn:E.
  - apply char_is_true in E as ->. destruct b; [done|]. simpl. f_equal. by apply IH.
  - f_equal. apply IH. assert (no_double_hyphen (c :: s) = true) as Hc.
    { destruct b; [|done]. rewrite no_double_cons in H. by apply andb_true_iff in H as [_ H]. }
    destruct s; [done|]. rewrite no_double_cons in Hc. by apply andb_true_iff in Hc as [_ Hc].
Qed.

Lemma normal_fmap s : Forall (fun c => normal_char c = true) s -> hyphenate <$> s = s.
Proof. induction 1 as [|c s Hc Hs IH]; [done|]. cbn. apply bool_decide_eq_true in Hc. by rewrite Hc, IH. Qed.

Lemma pypi_normalise_normal s :
  Forall (fun c => normal_char c = true) (pypi_normalise s) /\ no_double_hyphen (pypi_normalise s) = true.
Proof.
  split.
  - apply collapse_chars, Forall_fmap, Forall_forall. intros c _. apply bool_decide_eq_true, hyphenate_idemp.
  - apply (collapse_normal false).
Qed.

(** ** What a loaded corpus contains *)

(** Ecosystems that share a bucket. *)
Definition same_bucket (e e' : PurlType) : bool :=
  let main e := match e with Npm | Pypi | Cargo | Golang | Maven | Gem => Some e | _ => None end in
  bool_decide (main e = main e').

Definition names_match (e : PurlType) (n name : str) : Prop :=
  if bool_decide (e = Pypi) then pypi_normalise n = pypi_normalise name else n = name.

Lemma bucket_update g e e' f :
  bucket_for (update_bucket g e f) e' = if same_bucket e e' then f (bucket_for g e') else bucket_for g e'.
Proof. destruct g, e, e'; reflexivity. Qed.

Lemma contains_insert g e n name e' f :
  (forall b, b_names (f b) = b_names (insert_name e n b) /\
             b_normalised (f b) = b_normalised (insert_name e n b)) ->
  contains (update_bucket g e f) name e' = true <->
  contains g name e' = true \/ (same_bucket e e' = true /\ names_match e' n name).
Proof.
  intros Hf. unfold contains. rewrite bucket_update. destruct (same_bucket e e') eqn:Es; [|naive_solver].
  destruct (Hf (bucket_for g e')) as [-> ->]. unfold insert_name, names_match. simpl.
  destruct (decide (e' = Pypi)) as [->|Hp].
  - assert (e = Pypi) as -> by (by destruct e). simpl.
    rewrite !bool_decide_eq_true, elem_of_union, elem_of_singleton. naive_solver.
  - rewrite !(bool_decide_false (e' = Pypi)) by done.
    rewrite !bool_decide_eq_true, elem_of_union, elem_of_singleton. naive_solver.
Qed.

Lemma contains_add_nearest g e n near name e' :
  n <> [] ->
  contains (add_with_nearest g e n near) name e' = true <->
  contains g name e' = true \/ (same_bucket e e' = true /\ names_match e' n name).
Proof.
  intros Hn. unfold add_with_nearest. rewrite bool_decide_false by done. apply contains_insert.
  intros b. by case_bool_decide.
Qed.

Lemma contains_add g e names name e' :
  contains (add g e names) name e' = true <->
  contains g name e' = true \/
  (same_bucket e e' = true /\ exists n, n ∈ names /\ n <> [] /\ names_match e' n name).
Proof.
  unfold add. revert g. induction names as [|n names IH]; intros g; cbn [foldl].
  { split; [by left|]. intros [H|[_ (n & Hn & _)]]; [done|by apply not_elem_of_nil in Hn]. }
  rewrite IH. clear IH. case_bool_decide as Hn; [|rewrite contains_insert by done].
  - split; (intros [H|[Hb (n' & Hin & Hne & Hm)]]; [by left|right]); (split; [done|]); exists n'.
    + split_and!; [by right|done..].
    + apply elem_of_cons in Hin as [->|Hin]; done.
  - split.
    + intros [[H|[Hb Hm]]|[Hb (n' & Hin & Hne & Hm)]]; [by left|right|right]; (split; [done|]).
      * exists n. split_and!; [by left|done..].
      * exists n'. split_and!; [by right|done..].
    + intros [H|[Hb (n' & [->|Hin]%elem_of_cons & Hne & Hm)]]; [by left; left|by left; right|].
      right. split; [done|]. by exists n'.
Qed.

Lemma parse_line_name raw e n near : parse_line raw = Some (e, n, near) -> n <> [].
Proof. unfold parse_line. intros H. repeat case_match; simplify_eq; by bool_to_prop. Qed.

Lemma load_lines_spec ls g k name e' :
  let st := foldl load_line (g, k) ls in
  (contains (fst st) name e' = true <->
   contains g name e' = true \/
   exists e n near, (e, n, near) ∈ omap parse_line ls /\ same_bucket e e' = true /\ names_match e' n name) /\
  snd st = (k + length (omap parse_line ls))%nat.
Proof.
  revert g k. induction ls as [|l ls IH]; intros g k; cbn [foldl omap list_omap].
  { simpl. split; [set_solver|lia]. }
  unfold load_line at 2 4. cbn [fst snd].
  destruct (parse_line l) as [[[e n] near]|] eqn:E.
  - destruct (IH (add_with_nearest g e n near) (S k)) as [H1 H2].
    split; [|cbn [length]; rewrite H2; lia]. rewrite H1, contains_add_nearest by (by eapply parse_line_name).
    clear. generalize (omap parse_line ls). intros ps. split.
    + intros [[H|H]|(e0 & n0 & near0 & Hin & H)]; [by left|right|right].
      * exists e, n, near. split; [by left|done].
      * exists e0, n0, near0. split; [by right|done].
    + intros [H|(e0 & n0 & near0 & [[= -> -> ->]|Hin]%elem_of_cons & H)]; [by left; left|by left; right|].
      right. by exists e0, n0, near0.
  - apply IH.
Qed.

Lemma lookup_name_hit g t e :
  is_Some (lookup_name g t e) <->
  exists name, contains g name t = true /\
    (name = me_name e \/ (me_ns e <> [] /\ name = me_ns e ++ lit "/" ++ me_name e)).
Proof.
  unfold lookup_name. set (full := match me_ns e with [] => _ | _ => _ end).
  assert (full = me_name e \/ (me_ns e <> [] /\ full = me_ns e ++ lit "/" ++ me_name e)) as Hfull.
  { unfold full. destruct (me_ns e); auto. }
  destruct (contains g full t) eqn:E1; [by split; [exists full|eexists]|].
  destruct (contains g (me_name e) t) eqn:E2.
  - split; [|by eexists]. intros _. exists (me_name e). auto.
  - split; [by intros [? ?]|]. intros (name & Hc & [->|[Hne ->]]); [by rewrite E2 in Hc|].
    destruct Hfull as [Hf|[_ Hf]]; [|by rewrite Hf, Hc in E1].
    unfold full in Hf. destruct (me_ns e) eqn:En; [done|]. fold full in Hf. exfalso.
    unfold full in E1. by rewrite Hc in E1.
Qed.

(** ** Properties *)

(** After loading a corpus text a name is flagged for an ecosystem
    exactly when it was before or some line of the text names it there, up to
    PEP 503 normalisation for PyPI and literally elsewhere; the count returned
    is the number of lines with an entry. *)
Lemma guard_corpus_exact g text name e :
  (contains (fst (load_text g text)) name e = true <->
   contains g name e = true \/
   exists e0 n near, (e0, n, near) ∈ omap parse_line (getlines text) /\
     same_bucket e0 e = true /\ names_match e n name) /\
  snd (load_text g text) = length (omap parse_line (getlines text)).
Proof. apply load_lines_spec. Qed.

(** PyPI normalisation yields a PEP 503 normal form, leaves normal forms
    alone, and so two names are identified exactly when they have the same
    normal form. *)
Lemma pypi_normalise_canonical s :
  Forall (fun c => normal_char c = true) (pypi_normalise s) /\
  no_double_hyphen (pypi_normalise s) = true /\
  (Forall (fun c => normal_char c = true) s -> no_double_hyphen s = true -> pypi_normalise s = s) /\
  pypi_normalise (pypi_normalise s) = pypi_normalise s.
Proof.
  assert (forall s, Forall (fun c => normal_char c = true) s -> no_double_hyphen s = true ->
    pypi_normalise s = s) as Hfix.
  { intros s' H1 H2. unfold pypi_normalise. rewrite normal_fmap by done. by apply collapse_id. }
  destruct (pypi_normalise_normal s) as [H1 H2]. split_and!; auto.
Qed.

(** The check reports exactly the manifest entries whose qualified or bare
    name is in the corpus of their ecosystem, once each and in scan order, at
    the manifest they come from. *)
Lemma check_scan_exact now g scan :
  let hit m e := is_Some (lookup_name g (ecosystem_to_purl_type (pm_ecosystem m)) e) in
  (fun f => (loc_path (primary_location f), snippet (primary_location f))) <$> check_scan_result now g scan
  = flat_map (fun m => (fun e => (pm_source_file m, me_name e)) <$>
      List.filter (fun e => bool_decide (hit m e)) (pm_entries m)) (sr_manifests scan) /\
  (forall m e, hit m e <->
     exists name, contains g name (ecosystem_to_purl_type (pm_ecosystem m)) = true /\
       (name = me_name e \/ (me_ns e <> [] /\ name = me_ns e ++ lit "/" ++ me_name e))) /\
  Forall (fun f => rule_id f = kRuleId /\ severity f = SevHigh /\ source f = SlopsquattingGuard)
    (check_scan_result now g scan).
Proof.
  intros hit. split_and!.
  - unfold check_scan_result. induction (sr_manifests scan) as [|m ms IH]; [done|].
    cbn [flat_map]. rewrite fmap_app, IH. f_equal. unfold check_manifest, hit.
    induction (pm_entries m) as [|e es IHe]; [done|]. cbn [omap list_omap List.filter].
    destruct (lookup_name g _ e) as [n|] eqn:E; cbn [fmap option_fmap option_map].
    + rewrite bool_decide_true by (by eexists). rewrite !fmap_cons, IHe. done.
    + rewrite bool_decide_false by (by intros [? ?]). done.
  - intros m e. apply lookup_name_hit.
  - apply Forall_forall. intros f (m & _ & Hf)%elem_of_flat_map. unfold check_manifest in Hf.
    apply list_elem_of_omap in Hf as (e & _ & Hf). by destruct (lookup_name _ _ e); simplify_eq/=.
Qed.

(** A corpus line without an ecosystem prefix is filed under the generic
    bucket, so it flags the name for no ecosystem with a bucket of its own. *)
Lemma bare_line_is_generic :
  let g := fst (load_text new_guard (lit "left-padx")) in
  contains g (lit "left-padx") Composer = true /\
  Forall (fun e => contains g (lit "left-padx") e = false) [Npm; Pypi; Cargo; Golang; Maven; Gem].
Proof. split; [by vm_compute|]. repeat (apply Forall_cons; split; [by vm_compute|]). constructor. Qed.
