(* ===== verification/Reach.v ===== *)
(** * Call graph and reachability: [libs/reach]

    [callgraph.cpp] (function names, enclosing functions, call edges) and
    [reachability.cpp] (entry points, the breadth-first search over call edges
    and the annotation of findings).  Unordered maps are [gmap]s and the
    visited set is a [gset].  The loops that walk AST edges are bounded by
    fuel; on a well-formed graph [node_count g + 1] is enough. *)

From Stdlib Require Import ZArith Ascii String Lia.
From stdpp Require Import base list gmap strings sorting.
From S2P Require Import Prelude CxxString CpgGraph Worklist Finding.
Local Open Scope N_scope.

(** ** [callgraph.cpp] *)

Record CallEdge : Type := mkCall { caller : NodeId; callee : NodeId }.
Record CallGraphStats : Type := mkCallStats {
  function_count : nat; call_sites : nat; resolved_calls : nat; unresolved_calls : nat;
}.

Definition is_token_char (c : ascii) : bool := isalnum c || bool_decide (c = "_"%char).

(** [identifier_tokens]: maximal runs of token characters of length >= 2. *)
Fixpoint tokens_from (current : str) (text : str) : list str :=
  let flush := if (2 <=? length current)%nat then [current] else [] in
  match text with
  | [] => flush
  | c :: text =>
      if is_token_char c then tokens_from (current ++ [c]) text
      else flush ++ tokens_from [] text
  end.
Definition identifier_tokens (text : str) : list str := tokens_from [] text.

(** One pass over the children of the popped node: a name, or the nodes to
    append to the frontier. *)
Fixpoint name_scan (g : Graph) (cs : list NodeId) : str + list NodeId :=
  match cs with
  | [] => inr []
  | child :: cs =>
      let skip := name_scan g cs in
      match get g child with
      | None => skip
      | Some node =>
          if bool_decide (n_kind node = KParameter) || bool_decide (n_kind node = KBlock)
          then skip
          else if bool_decide (n_kind node = KIdentifier) && negb (bool_decide (n_name node = []))
          then inl (n_name node)
          else match skip with inl nm => inl nm | inr rest => inr (child :: rest) end
      end
  end.

Fixpoint name_loop (fuel : nat) (g : Graph) (frontier : list NodeId) : option (option str) :=
  match frontier with
  | [] => Some None
  | current :: frontier =>
      match fuel with
      | O => None
      | S fuel =>
          match name_scan g (children g current) with
          | inl nm => Some (Some nm)
          | inr pushed => name_loop fuel g (frontier ++ pushed)
          end
      end
  end.

Definition first_token (text : str) : str := List.hd [] (identifier_tokens text).

Definition extract_function_name (fuel : nat) (g : Graph) (ast : Ast) (fn_id : NodeId) :
    option str :=
  match name_loop fuel g [fn_id] with
  | None => None
  | Some (Some nm) => Some nm
  | Some None =>
      Some (match get g fn_id with Some n => first_token (node_text ast (n_range n)) | None => [] end)
  end.

Definition extract_callee_name (text : str) : str := first_token text.

(** [enclosing_function] *)
Fixpoint enclosing_loop (fuel : nat) (g : Graph) (current : NodeId) : option NodeId :=
  match fuel with
  | O => None
  | S fuel =>
      if negb (is_valid current) then Some kNullNode
      else if match get g current with
              | Some n => bool_decide (n_kind n = KFunctionDef) | None => false end
      then Some current
      else
        let p := parent g current in
        if negb (is_valid p) || (p =? current) then Some kNullNode
        else enclosing_loop fuel g p
  end.
Definition enclosing_function (fuel : nat) (g : Graph) (node : NodeId) : option NodeId :=
  enclosing_loop fuel g node.

(** [by_name[name].push_back(fn)] for every function with a name. *)
Fixpoint index_functions (fuel : nat) (g : Graph) (ast : Ast) (fns : list NodeId)
    (by_name : gmap str (list NodeId)) : option (gmap str (list NodeId)) :=
  match fns with
  | [] => Some by_name
  | fn :: fns =>
      match extract_function_name fuel g ast fn with
      | None => None
      | Some name =>
          if bool_decide (name = []) then index_functions fuel g ast fns by_name
          else index_functions fuel g ast fns
                 (<[name := default [] (by_name !! name) ++ [fn]]> by_name)
      end
  end.

Definition bump_unresolved (s : CallGraphStats) : CallGraphStats :=
  mkCallStats (function_count s) (call_sites s) (resolved_calls s) (S (unresolved_calls s)).
Definition bump_resolved (s : CallGraphStats) : CallGraphStats :=
  mkCallStats (function_count s) (call_sites s) (S (resolved_calls s)) (unresolved_calls s).

Fixpoint resolve_calls (fuel : nat) (g : Graph) (ast : Ast) (by_name : gmap str (list NodeId))
    (calls : list NodeId) (edges : list CallEdge) (stats : CallGraphStats) :
    option (list CallEdge * CallGraphStats) :=
  match calls with
  | [] => Some (edges, stats)
  | call :: calls =>
      match get g call with
      | None => resolve_calls fuel g ast by_name calls edges stats
      | Some call_node =>
          let callee_name := extract_callee_name (node_text ast (n_range call_node)) in
          if bool_decide (callee_name = []) then
            resolve_calls fuel g ast by_name calls edges (bump_unresolved stats)
          else match by_name !! callee_name with
               | None => resolve_calls fuel g ast by_name calls edges (bump_unresolved stats)
               | Some callees =>
                   match enclosing_function fuel g call with
                   | None => None
                   | Some c =>
                       let from := if negb (is_valid c) then 0 else c in
                       resolve_calls fuel g ast by_name calls
                         (edges ++ (mkCall from <$> callees)) (bump_resolved stats)
                   end
               end
      end
  end.

Definition build_call_graph (fuel : nat) (g : Graph) (ast : Ast) :
    option (list CallEdge * CallGraphStats) :=
  let functions := find_by_kind g KFunctionDef in
  let calls := find_by_kind g KCall in
  match index_functions fuel g ast functions ∅ with
  | None => None
  | Some by_name =>
      resolve_calls fuel g ast by_name calls [] (mkCallStats (length functions) (length calls) 0 0)
  end.

(** ** [reachability.cpp] *)

Record ReachabilityConfig : Type := mkReachConfig {
  entry_function_names : list str;
  top_level_functions_are_entries : bool;
  max_depth : nat;
}.

Record ReachabilityResult : Type := mkReach {
  reachable_functions : gset N;
  entry_points : nat;
}.

Fixpoint top_level_loop (fuel : nat) (g : Graph) (current : NodeId) : option bool :=
  match fuel with
  | O => None
  | S fuel =>
      if negb (is_valid current) then Some true
      else if match get g current with
              | Some n => bool_decide (n_kind n = KFunctionDef) | None => false end
      then Some false
      else
        let p := parent g current in
        if negb (is_valid p) || (p =? current) then Some true
        else top_level_loop fuel g p
  end.
Definition is_top_level_function (fuel : nat) (g : Graph) (fn : NodeId) : option bool :=
  top_level_loop fuel g (parent g fn).

(** The [function_name] lambda: a breadth-first search at most four levels
    deep that does not enter nested functions. *)
Fixpoint entry_scan (g : Graph) (depth : nat) (cs : list NodeId) : str + list (NodeId * nat) :=
  match cs with
  | [] => inr []
  | c :: cs =>
      let skip := entry_scan g depth cs in
      match get g c with
      | None => skip
      | Some cn =>
          if bool_decide (n_kind cn = KIdentifier) && negb (bool_decide (n_name cn = []))
          then inl (n_name cn)
          else if bool_decide (n_kind cn = KFunctionDef) then skip
          else match skip with inl nm => inl nm | inr rest => inr ((c, S depth) :: rest) end
      end
  end.

Fixpoint entry_name_loop (fuel : nat) (g : Graph) (q : list (NodeId * nat)) : option str :=
  match q with
  | [] => Some []
  | (id, depth) :: q =>
      match fuel with
      | O => None
      | S fuel =>
          if (3 <? depth)%nat then entry_name_loop fuel g q
          else match entry_scan g depth (children g id) with
               | inl nm => Some nm
               | inr pushed => entry_name_loop fuel g (q ++ pushed)
               end
      end
  end.
Definition function_name (fuel : nat) (g : Graph) (fn : NodeId) : option str :=
  entry_name_loop fuel g [(fn, 0%nat)].

Definition is_entry (fuel : nat) (g : Graph) (config : ReachabilityConfig) (fn : NodeId) :
    option bool :=
  match (if top_level_functions_are_entries config then is_top_level_function fuel g fn
         else Some false) with
  | None => None
  | Some true => Some true
  | Some false =>
      if bool_decide (entry_function_names config = []) then Some false
      else match function_name fuel g fn with
           | None => None
           | Some nm => Some (negb (bool_decide (nm = []))
                              && bool_decide (nm ∈ entry_function_names config))
           end
  end.

(** The entry loop: the entry points in order, each with depth 0. *)
Fixpoint entry_list (fuel : nat) (g : Graph) (config : ReachabilityConfig) (fns : list NodeId) :
    option (list NodeId) :=
  match fns with
  | [] => Some []
  | fn :: fns =>
      match is_entry fuel g config fn with
      | None => None
      | Some b =>
          match entry_list fuel g config fns with
          | None => None
          | Some es => Some (if b then fn :: es else es)
          end
      end
  end.

(** [adj.find(v)]: the callees of [v], in edge order. *)
Definition adj (cg : list CallEdge) (v : N) : list NodeId :=
  callee <$> List.filter (fun e => caller e =? v) cg.

Definition reach_expand (cg : list CallEdge) (config : ReachabilityConfig) (q : NodeId * nat) :
    list (NodeId * nat) :=
  let '(current, depth) := q in
  if (0 <? max_depth config)%nat && (max_depth config <=? depth)%nat then []
  else (fun c => (c, S depth)) <$> adj cg current.

Definition at_depth_0 (ids : list NodeId) : list (NodeId * nat) := (fun i => (i, 0%nat)) <$> ids.

Definition compute_reachable (fuel : nat) (g : Graph) (cg : list CallEdge)
    (config : ReachabilityConfig) : option ReachabilityResult :=
  if (node_count g =? 0)%nat then Some (mkReach ∅ 0)
  else
    let functions := find_by_kind g KFunctionDef in
    if bool_decide (functions = []) then Some (mkReach ∅ 0)
    else match entry_list fuel g config functions with
         | None => None
         | Some entries =>
             (* entry points first, then the callees of file-scope calls *)
             let '(v1, q1) := push_new fst ∅ (at_depth_0 entries) in
             let '(v2, q2) := push_new fst v1 (at_depth_0 (adj cg 0)) in
             match worklist fst (reach_expand cg config) (fun (_ : unit) _ => tt) fuel v2 (q1 ++ q2) tt with
             | None => None
             | Some (v, _) => Some (mkReach v (length entries))
             end
         end.

(** The loop that fills [by_path] from the first finding's path. *)
Definition by_path_first (g : Graph) (findings : list Finding) : gmap str (list NodeId) :=
  foldl (fun m fn =>
           match get g fn with
           | None => m
           | Some _ =>
               let key := match findings with
                          | f :: _ => loc_path (primary_location f)
                          | [] => []
                          end in
               <[key := default [] (m !! key) ++ [fn]]> m
           end) ∅ (find_by_kind g KFunctionDef).

(** The first finding whose path has no entry gets every function too. *)
Fixpoint by_path_fallback (g : Graph) (m : gmap str (list NodeId)) (findings : list Finding) :
    gmap str (list NodeId) :=
  match findings with
  | [] => m
  | f :: findings =>
      let key := loc_path (primary_location f) in
      match m !! key with
      | Some _ => by_path_fallback g m findings
      | None => foldl (fun m fn => <[key := default [] (m !! key) ++ [fn]]> m) m
                  (find_by_kind g KFunctionDef)
      end
  end.

Definition target_row (f : Finding) : N :=
  let l := start_line (primary_location f) in
  Z.to_N (u32 (if (0 <? l)%Z then (l - 1)%Z else 0%Z)).

Definition contains_row (g : Graph) (row : N) (fn : NodeId) : bool :=
  match get g fn with
  | Some n => (start_row (n_range n) <=? row) && (row <=? end_row (n_range n))
  | None => false
  end.

Definition find_finding_function (g : Graph) (f : Finding)
    (fn_by_path : gmap str (list NodeId)) : NodeId :=
  match fn_by_path !! loc_path (primary_location f) with
  | None => kNullNode
  | Some fns => match List.find (contains_row g (target_row f)) fns with
                | Some fn => fn
                | None => kNullNode
                end
  end.

Definition reach_label (reach : ReachabilityResult) (fn : NodeId) : str :=
  if negb (is_valid fn) then lit "euxis:reachable:unknown"
  else if bool_decide (fn ∈ reachable_functions reach) then lit "euxis:reachable:true"
  else lit "euxis:reachable:false".

Definition annotate_findings (g : Graph) (reach : ReachabilityResult) (findings : list Finding) :
    list Finding :=
  let by_path := by_path_fallback g (by_path_first g findings) findings in
  (fun f => set_taxa f (compliance_taxa f ++ [reach_label reach (find_finding_function g f by_path)]))
  <$> findings.

(** ** Specifications *)

(** [p] is the AST parent of [c]. *)
Definition up (g : Graph) (c p : NodeId) : Prop := parent g c = p /\ is_valid p = true.

Definition is_function (g : Graph) (x : NodeId) : Prop :=
  exists n, get g x = Some n /\ n_kind n = KFunctionDef.

(** [f] is the nearest function at or above [x]; [kNullNode] when there is none. *)
Inductive encloses (g : Graph) : NodeId -> NodeId -> Prop :=
| enc_here x : is_function g x -> encloses g x x
| enc_up x p f : ~ is_function g x -> up g x p -> encloses g p f -> encloses g x f
| enc_none x : ~ is_function g x -> is_valid (parent g x) = false -> encloses g x kNullNode.

Definition calls (cg : list CallEdge) (f f' : N) : Prop := mkCall f f' ∈ cg.

(** ** Walking up *)

Lemma is_function_dec g x :
  match get g x with Some n => bool_decide (n_kind n = KFunctionDef) | None => false end = true
  <-> is_function g x.
Proof.
  unfold is_function. destruct (get g x) as [n|]; [rewrite bool_decide_eq_true|]; naive_solver.
Qed.

Lemma is_function_not g x :
  match get g x with Some n => bool_decide (n_kind n = KFunctionDef) | None => false end = false
  <-> ~ is_function g x.
Proof. rewrite <-is_function_dec. by destruct (match get g x with Some _ => _ | None => _ end). Qed.

Lemma enclosing_loop_spec g fuel x :
  graph_wf g -> 1 <= x -> (N.to_nat x < fuel)%nat ->
  exists f, enclosing_loop fuel g x = Some f /\ encloses g x f.
Proof.
  intros Hwf. revert x. induction fuel as [|fuel IH]; intros x Hx Hf; [lia|].
  cbn [enclosing_loop]. rewrite (proj2 (is_valid_true x)) by done. cbn [negb].
  destruct (match get g x with Some n => _ | None => _ end) eqn:E.
  - exists x. split; [done|]. by apply enc_here, is_function_dec.
  - apply is_function_not in E. destruct (is_valid (parent g x)) eqn:Hp; cbn [negb orb].
    + pose proof (parent_lt g x Hwf Hp) as Hlt.
      rewrite (proj2 (N.eqb_neq _ _)) by lia.
      destruct (IH (parent g x)) as (f & -> & Hf'); [lia..|]. exists f. split; [done|].
      by eapply enc_up.
    + exists kNullNode. split; [done|]. by apply enc_none.
Qed.

Lemma encloses_fun g x f f' : encloses g x f -> encloses g x f' -> f = f'.
Proof.
  intros H. revert f'. induction H as [x Hx|x p f Hx [Hp Hv] H IH|x Hx Hv]; intros f' H';
    inversion H' as [? Hy|? p' ? Hy [Hp' Hv']|? Hy Hv']; subst; try done; try congruence.
  by apply IH.
Qed.

(** No function at or above [p]. *)
Definition top_level (g : Graph) (fn : NodeId) : Prop :=
  forall a, steps (up g) fn a -> a <> fn -> ~ is_function g a.

Lemma top_level_loop_spec g fuel x :
  graph_wf g -> (N.to_nat x < fuel)%nat ->
  exists b, top_level_loop fuel g x = Some b /\
    (b = true <-> (is_valid x = true -> forall a, steps (up g) x a -> ~ is_function g a)).
Proof.
  intros Hwf. revert x. induction fuel as [|fuel IH]; intros x Hf; [lia|].
  cbn [top_level_loop]. destruct (is_valid x) eqn:Hx; cbn [negb].
  2: { exists true. naive_solver. }
  destruct (match get g x with Some n => _ | None => _ end) eqn:E.
  - exists false. split; [done|]. apply is_function_dec in E. split; [done|].
    intros H. exfalso. by apply (H eq_refl x); [constructor|].
  - apply is_function_not in E. destruct (is_valid (parent g x)) eqn:Hp; cbn [negb orb].
    + pose proof (parent_lt g x Hwf Hp) as Hlt. rewrite (proj2 (N.eqb_neq _ _)) by lia.
      destruct (IH (parent g x)) as (b & -> & Hb); [lia|]. exists b. split; [done|].
      rewrite Hb, Hp. split.
      * intros H _ a Ha. inversion Ha as [|? p ? [Hup _] Hst]; subst; [done|]. by apply H.
      * intros H _ a Ha. apply H; [done|]. eapply steps_cons; [|exact Ha]. by split.
    + exists true. split; [done|]. split; [|done]. intros _ _ a Ha.
      inversion Ha as [|? p ? [Hup Hv] Hst]; subst; congruence.
Qed.

Lemma steps_up_le g x a : graph_wf g -> steps (up g) x a -> a <= x.
Proof.
  intros Hwf. induction 1 as [x|x p a [<- Hv] _ IH]; [done|].
  pose proof (parent_lt g x Hwf Hv). lia.
Qed.

Lemma is_top_level_spec g fuel fn :
  graph_wf g -> (N.to_nat (parent g fn) < fuel)%nat ->
  exists b, is_top_level_function fuel g fn = Some b /\ (b = true <-> top_level g fn).
Proof.
  intros Hwf Hf. destruct (top_level_loop_spec g fuel (parent g fn) Hwf Hf) as (b & Hb & Hiff).
  exists b. split; [done|]. rewrite Hiff. unfold top_level. split.
  - intros H a Ha Hne. inversion Ha as [|? p ? [<- Hv] Hst]; subst; [done|]. by apply H.
  - intros H Hv a Ha. apply H; [eapply steps_cons; [by split|exact Ha]|].
    pose proof (parent_lt g fn Hwf Hv). pose proof (steps_up_le _ _ _ Hwf Ha). lia.
Qed.

(** ** Names terminate *)

Lemma name_scan_sum g (f : NodeId -> nat) cs pushed :
  name_scan g cs = inr pushed ->
  (sum_with f pushed <= sum_with f cs)%nat /\ (forall c, c ∈ pushed -> c ∈ cs).
Proof.
  revert pushed. induction cs as [|c cs IH]; intros pushed; cbn [name_scan].
  - intros [= <-]. done.
  - assert (forall p, name_scan g cs = inr p ->
      (sum_with f p <= sum_with f (c :: cs))%nat /\ (forall x, x ∈ p -> x ∈ c :: cs)) as Hskip.
    { intros p [H1 H2]%IH. simpl. split; [lia|]. intros x Hx. right. auto. }
    destruct (get g c) as [n|]; [|apply Hskip]. destruct (_ || _); [apply Hskip|].
    destruct (_ && _); [done|]. destruct (name_scan g cs) as [|rest] eqn:E; [done|].
    intros [= <-]. destruct (IH rest eq_refl) as [H1 H2]. simpl. split; [lia|]. set_solver.
Qed.

Lemma children_in_range g x c :
  graph_wf g -> c ∈ children g x -> 1 <= c <= N.of_nat (node_count g).
Proof. intros Hwf Hc. pose proof (children_bound g x c Hwf Hc). lia. Qed.

Lemma name_loop_total g fuel frontier :
  graph_wf g -> Forall (fun x => 1 <= x <= N.of_nat (node_count g)) frontier ->
  (sum_with (subtree_size g) frontier <= fuel)%nat -> is_Some (name_loop fuel g frontier).
Proof.
  intros Hwf. revert frontier. induction fuel as [|fuel IH]; intros [|x frontier] Hv Hf;
    cbn [name_loop]; try (by eexists); apply Forall_cons in Hv as [Hx Hv]; simpl in Hf;
    rewrite (subtree_size_eq g x Hwf Hx) in Hf; [lia|].
  destruct (name_scan g (children g x)) as [nm|pushed] eqn:E; [by eexists|].
  apply (name_scan_sum g (subtree_size g)) in E as [Hs Hin]. apply IH.
  - apply Forall_app. split; [done|]. apply Forall_forall. intros c Hc.
    by eapply children_in_range, Hin.
  - rewrite sum_with_app. lia.
Qed.

Lemma entry_scan_sum g d (f : NodeId -> nat) cs pushed :
  entry_scan g d cs = inr pushed ->
  (sum_with (fun p => f (fst p)) pushed <= sum_with f cs)%nat
  /\ (forall p, p ∈ pushed -> fst p ∈ cs).
Proof.
  revert pushed. induction cs as [|c cs IH]; intros pushed; cbn [entry_scan].
  - intros [= <-]. split; [done|]. set_solver.
  - assert (forall p, entry_scan g d cs = inr p ->
      (sum_with (fun q => f (fst q)) p <= sum_with f (c :: cs))%nat
      /\ (forall x, x ∈ p -> fst x ∈ c :: cs)) as Hskip.
    { intros p [H1 H2]%IH. simpl. split; [lia|]. intros x Hx. right. auto. }
    destruct (get g c) as [n|]; [|apply Hskip]. destruct (_ && _); [done|].
    destruct (bool_decide _); [apply Hskip|]. destruct (entry_scan g d cs) as [|rest] eqn:E; [done|].
    intros [= <-]. destruct (IH rest eq_refl) as [H1 H2]. simpl. split; [lia|].
    intros x [->|Hx]%elem_of_cons; [by left|]. right. auto.
Qed.

Lemma entry_name_loop_total g fuel q :
  graph_wf g -> Forall (fun p => 1 <= fst p <= N.of_nat (node_count g)) q ->
  (sum_with (fun p => subtree_size g (fst p)) q <= fuel)%nat -> is_Some (entry_name_loop fuel g q).
Proof.
  intros Hwf. revert q. induction fuel as [|fuel IH]; intros [|[x d] q] Hv Hf;
    cbn [entry_name_loop]; try (by eexists); apply Forall_cons in Hv as [Hx Hv]; simpl in Hf, Hx;
    rewrite (subtree_size_eq g x Hwf Hx) in Hf; [lia|].
  destruct (3 <? d)%nat; [apply IH; [done|lia]|].
  destruct (entry_scan g d (children g x)) as [nm|pushed] eqn:E; [by eexists|].
  apply (entry_scan_sum g d (subtree_size g)) in E as [Hs Hin]. apply IH.
  - apply Forall_app. split; [done|]. apply Forall_forall. intros c Hc.
    by eapply children_in_range, Hin.
  - rewrite sum_with_app. lia.
Qed.

(** Enough fuel for every walk: up to the root and below each function. *)
Definition enough_fuel (g : Graph) (fuel : nat) : Prop :=
  (node_count g + 1 < fuel)%nat /\
  Forall (fun fn => subtree_size g fn <= fuel)%nat (find_by_kind g KFunctionDef).

Lemma function_in_range g fn :
  graph_wf g -> fn ∈ find_by_kind g KFunctionDef -> 1 <= fn <= N.of_nat (node_count g).
Proof.
  intros Hwf Hfn. apply elem_of_find_by_kind in Hfn as (n & Hn & _); [|done].
  by eapply get_bound.
Qed.

Lemma extract_function_name_total g ast fuel fn :
  graph_wf g -> enough_fuel g fuel -> fn ∈ find_by_kind g KFunctionDef ->
  is_Some (extract_function_name fuel g ast fn).
Proof.
  intros Hwf [_ Hf] Hfn. rewrite Forall_forall in Hf. specialize (Hf fn Hfn).
  unfold extract_function_name.
  destruct (name_loop_total g fuel [fn] Hwf) as [[nm|] ->]; [|simpl; lia|by eexists..].
  apply Forall_singleton. by apply function_in_range.
Qed.

(** ** The call graph *)

Lemma index_functions_spec fuel g ast fns m (name : NodeId -> str) :
  (forall fn, fn ∈ fns -> extract_function_name fuel g ast fn = Some (name fn)) ->
  exists m', index_functions fuel g ast fns m = Some m' /\
    forall nm, nm <> [] ->
      default [] (m' !! nm) = default [] (m !! nm) ++ List.filter (fun fn => bool_decide (name fn = nm)) fns
      /\ (m' !! nm = None <-> m !! nm = None /\ List.filter (fun fn => bool_decide (name fn = nm)) fns = []).
Proof.
  revert m. induction fns as [|fn fns IH]; intros m Hn; cbn [index_functions].
  - exists m. split; [done|]. intros nm _. simpl. rewrite app_nil_r. naive_solver.
  - rewrite (Hn fn) by set_solver. simpl.
    assert (forall x, x ∈ fns -> extract_function_name fuel g ast x = Some (name x)) as Hn' by set_solver.
    case_bool_decide as He.
    + destruct (IH m Hn') as (m' & -> & Hm). exists m'. split; [done|]. intros nm Hnm.
      rewrite (bool_decide_false (name fn = nm)) by congruence. by apply Hm.
    + edestruct (IH (<[name fn := default [] (m !! name fn) ++ [fn]]> m) Hn') as (m' & -> & Hm).
      exists m'. split; [done|]. intros nm Hnm. destruct (Hm nm Hnm) as [H1 H2].
      case_bool_decide as Hc.
      * subst nm. rewrite lookup_insert_eq in H1, H2. simpl in H1.
        split; [by rewrite H1, <-app_assoc|]. rewrite H2. naive_solver.
      * rewrite lookup_insert_ne in H1, H2 by done. done.
Qed.

(** What the call at node [c] contributes. *)
Definition call_edges (g : Graph) (ast : Ast) (m : gmap str (list NodeId))
    (enc : NodeId -> NodeId) (c : NodeId) : list CallEdge :=
  match get g c with
  | None => []
  | Some n =>
      let nm := extract_callee_name (node_text ast (n_range n)) in
      if bool_decide (nm = []) then []
      else mkCall (enc c) <$> default [] (m !! nm)
  end.

Lemma resolve_calls_spec fuel g ast m enc cs edges stats :
  (forall c, c ∈ cs -> enclosing_function fuel g c = Some (enc c)) ->
  (forall c, c ∈ cs -> is_Some (get g c)) ->
  exists stats', resolve_calls fuel g ast m cs edges stats =
      Some (edges ++ flat_map (call_edges g ast m enc) cs, stats')
    /\ (resolved_calls stats' + unresolved_calls stats'
        = length cs + resolved_calls stats + unresolved_calls stats)%nat
    /\ function_count stats' = function_count stats /\ call_sites stats' = call_sites stats.
Proof.
  revert edges stats. induction cs as [|c cs IH]; intros edges stats He Hg.
  - exists stats. simpl. by rewrite app_nil_r.
  - cbn [resolve_calls flat_map]. destruct (Hg c ltac:(set_solver)) as [n Hn].
    assert (call_edges g ast m enc c =
      if bool_decide (extract_callee_name (node_text ast (n_range n)) = []) then []
      else mkCall (enc c) <$> default [] (m !! extract_callee_name (node_text ast (n_range n))))
      as -> by (unfold call_edges; by rewrite Hn).
    rewrite Hn.
    assert (forall edges stats, exists stats', resolve_calls fuel g ast m cs edges stats =
      Some (edges ++ flat_map (call_edges g ast m enc) cs, stats')
      /\ (resolved_calls stats' + unresolved_calls stats'
          = length cs + resolved_calls stats + unresolved_calls stats)%nat
      /\ function_count stats' = function_count stats /\ call_sites stats' = call_sites stats) as IH'.
    { intros. apply IH; set_solver. } clear IH.
    case_bool_decide.
    { destruct (IH' edges (bump_unresolved stats)) as (s' & -> & H1 & H2 & H3). exists s'.
      simpl in *. split; [done|]. split; [lia|done]. }
    destruct (m !! _) as [callees|].
    + rewrite (He c) by set_solver.
      assert ((if negb (is_valid (enc c)) then 0 else enc c) = enc c) as ->.
      { destruct (is_valid (enc c)) eqn:E; [done|]. apply is_valid_false in E. by rewrite E. }
      destruct (IH' (edges ++ (mkCall (enc c) <$> callees)) (bump_resolved stats))
        as (s' & -> & H1 & H2 & H3).
      exists s'. simpl in *. rewrite <-app_assoc. split; [done|]. split; [lia|done].
    + destruct (IH' edges (bump_unresolved stats)) as (s' & -> & H1 & H2 & H3). exists s'.
      simpl in *. split; [done|]. split; [lia|done].
Qed.

(** ** Entry points and the search *)

Definition entry_function (fuel : nat) (g : Graph) (config : ReachabilityConfig) (fn : NodeId) :
    Prop :=
  (top_level_functions_are_entries config = true /\ top_level g fn)
  \/ exists nm, function_name fuel g fn = Some nm /\ nm <> [] /\ nm ∈ entry_function_names config.

Lemma is_entry_spec fuel g config fn :
  graph_wf g -> enough_fuel g fuel -> fn ∈ find_by_kind g KFunctionDef ->
  exists b, is_entry fuel g config fn = Some b /\ (b = true <-> entry_function fuel g config fn).
Proof.
  intros Hwf [Hf1 Hf2] Hfn. pose proof (function_in_range g fn Hwf Hfn) as Hr.
  rewrite Forall_forall in Hf2. specialize (Hf2 fn Hfn). simpl in Hf2.
  assert (is_Some (function_name fuel g fn)) as [nm Hnm].
  { apply entry_name_loop_total; [done|by apply Forall_singleton|simpl; lia]. }
  assert (N.to_nat (parent g fn) < fuel)%nat as Hp.
  { destruct (is_valid (parent g fn)) eqn:E.
    - pose proof (parent_lt g fn Hwf E). lia.
    - apply is_valid_false in E. rewrite E. simpl. lia. }
  destruct (is_top_level_spec g fuel fn Hwf Hp) as (t & Ht & Htop).
  unfold is_entry, entry_function. rewrite Ht, Hnm. clear Ht Hp.
  destruct (top_level_functions_are_entries config) eqn:Hflag; [destruct t|].
  - exists true. naive_solver.
  - case_bool_decide as He; [exists false; rewrite He; set_solver|]. eexists. split; [done|].
    rewrite andb_true_iff, negb_true_iff, bool_decide_eq_false, bool_decide_eq_true. naive_solver.
  - case_bool_decide as He; [exists false; rewrite He; set_solver|]. eexists. split; [done|].
    rewrite andb_true_iff, negb_true_iff, bool_decide_eq_false, bool_decide_eq_true. naive_solver.
Qed.

Lemma entry_list_spec fuel g config fns :
  graph_wf g -> enough_fuel g fuel -> (forall fn, fn ∈ fns -> fn ∈ find_by_kind g KFunctionDef) ->
  exists es, entry_list fuel g config fns = Some es /\ (length es <= length fns)%nat /\
    forall e, e ∈ es <-> e ∈ fns /\ entry_function fuel g config e.
Proof.
  intros Hwf Hf. induction fns as [|fn fns IH]; intros Hin; cbn [entry_list].
  - exists []. split; [done|]. split; [done|]. set_solver.
  - destruct (is_entry_spec fuel g config fn Hwf Hf) as (b & -> & Hb); [set_solver|].
    destruct IH as (es & -> & Hlen & Hes); [set_solver|]. eexists. split; [done|].
    destruct b; simpl; (split; [lia|]); intros e; rewrite ?elem_of_cons, Hes; naive_solver.
Qed.

Lemma elem_of_adj cg v y : y ∈ adj cg v <-> calls cg v y.
Proof.
  unfold adj, calls. rewrite list_elem_of_fmap. split.
  - intros ([a b] & -> & [Hin Hb]%elem_of_lfilter). apply N.eqb_eq in Hb. simpl in *. by subst.
  - intros H. exists (mkCall v y). split; [done|]. apply elem_of_lfilter. split; [done|].
    apply N.eqb_refl.
Qed.

Lemma adj_length cg v : (length (adj cg v) <= length cg)%nat.
Proof. unfold adj. rewrite length_fmap. apply List.filter_length_le. Qed.

Lemma push_new_length {Q} (node : Q -> N) visited cands v new :
  push_new node visited cands = (v, new) -> (length new <= length cands)%nat.
Proof.
  revert visited v new. induction cands as [|c cands IH]; intros visited v new; cbn [push_new].
  - intros [= <- <-]. done.
  - case_bool_decide; [intros ?%IH; simpl; lia|].
    destruct (push_new _ _ cands) as [v' new'] eqn:E. intros [= <- <-]. apply IH in E. simpl. lia.
Qed.

Lemma reach_expand_calls cg config q y :
  max_depth config = 0%nat ->
  (exists c, c ∈ reach_expand cg config q /\ fst c = y) <-> calls cg (fst q) y.
Proof.
  intros Hd. destruct q as [x d]. unfold reach_expand. rewrite Hd. simpl.
  rewrite <-elem_of_adj. split.
  - intros ([c d'] & (z & [= -> ->] & Hz)%list_elem_of_fmap & <-). done.
  - intros Hy. exists (y, S d). split; [|done]. apply list_elem_of_fmap. by exists y.
Qed.

Lemma reach_expand_sub cg config q c :
  c ∈ reach_expand cg config q -> calls cg (fst q) (fst c).
Proof.
  destruct q as [x d]. unfold reach_expand. destruct (_ && _); [by intros ?%not_elem_of_nil|].
  intros (z & -> & Hz)%list_elem_of_fmap. by apply elem_of_adj.
Qed.

(** The nodes the search starts from. *)
Definition search_root (fuel : nat) (g : Graph) (cg : list CallEdge) (config : ReachabilityConfig)
    (e : NodeId) : Prop :=
  find_by_kind g KFunctionDef <> [] /\
  ((e ∈ find_by_kind g KFunctionDef /\ entry_function fuel g config e) \/ calls cg 0 e).

(** The initial queue holds every root once and the visited set is its nodes. *)
Lemma initial_queue entries cg v1 q1 v2 q2 :
  push_new fst ∅ (at_depth_0 entries) = (v1, q1) ->
  push_new fst v1 (at_depth_0 (adj cg 0)) = (v2, q2) ->
  v2 = list_to_set (fst <$> (q1 ++ q2)) /\ NoDup (fst <$> (q1 ++ q2)) /\
  forall x, (exists q, q ∈ q1 ++ q2 /\ fst q = x) <-> x ∈ entries \/ calls cg 0 x.
Proof.
  intros (-> & C1 & N1 & D1)%push_new_spec (-> & C2 & N2 & D2)%push_new_spec.
  rewrite fmap_app, list_to_set_app_L. split; [set_solver|]. split.
  - apply NoDup_app. split; [done|]. split; [|done].
    intros x Hx (q & -> & [_ Hq]%N2)%list_elem_of_fmap. apply Hq. set_solver.
  - intros x. split.
    + intros (q & [Hq|Hq]%elem_of_app & <-).
      * apply N1 in Hq as [(z & -> & Hz)%list_elem_of_fmap _]. by left.
      * apply N2 in Hq as [(z & -> & Hz)%list_elem_of_fmap _]. right. by apply elem_of_adj.
    + intros Hx. assert (x ∈ (list_to_set (fst <$> (q1 ++ q2)) : gset N)) as Hin.
      { rewrite fmap_app, list_to_set_app_L. destruct Hx as [Hx|Hx].
        - specialize (C1 (x, 0%nat)). simpl in C1.
          assert ((x, 0%nat) ∈ at_depth_0 entries) by (apply list_elem_of_fmap; by exists x).
          set_solver.
        - specialize (C2 (x, 0%nat)). simpl in C2. apply elem_of_adj in Hx.
          assert ((x, 0%nat) ∈ at_depth_0 (adj cg 0)) by (apply list_elem_of_fmap; by exists x).
          set_solver. }
      apply elem_of_list_to_set, list_elem_of_fmap in Hin as (q & -> & Hq). by exists q.
Qed.

(** ** Annotation *)

Lemma foldl_push_all (key : str) (fns : list NodeId) (m : gmap str (list NodeId)) :
  foldl (fun m fn => <[key := default [] (m !! key) ++ [fn]]> m) m fns
  = match fns with [] => m | _ => <[key := default [] (m !! key) ++ fns]> m end.
Proof.
  revert m. induction fns as [|fn fns IH]; intros m; [done|]. cbn [foldl]. rewrite IH.
  destruct fns as [|fn' fns]; [done|]. rewrite lookup_insert_eq, insert_insert_eq. simpl.
  by rewrite <-app_assoc.
Qed.

Lemma by_path_first_eq g findings :
  graph_wf g ->
  by_path_first g findings =
  foldl (fun m fn => let key := match findings with
                                | f :: _ => loc_path (primary_location f) | [] => [] end in
                     <[key := default [] (m !! key) ++ [fn]]> m) ∅ (find_by_kind g KFunctionDef).
Proof.
  intros Hwf. unfold by_path_first.
  assert (forall fn, fn ∈ find_by_kind g KFunctionDef -> is_Some (get g fn)) as Hall.
  { intros fn Hfn. apply elem_of_find_by_kind in Hfn as (n & Hn & _); [by exists n|done]. }
  revert Hall. generalize (∅ : gmap str (list NodeId)).
  induction (find_by_kind g KFunctionDef) as [|fn fns IH]; intros m Hall; [done|]. cbn [foldl].
  destruct (Hall fn ltac:(set_solver)) as [n ->]. apply IH. set_solver.
Qed.

(** The first path that differs from [p]. *)
Fixpoint other_path (p : str) (findings : list Finding) : option str :=
  match findings with
  | [] => None
  | f :: findings =>
      if bool_decide (loc_path (primary_location f) = p) then other_path p findings
      else Some (loc_path (primary_location f))
  end.

(** The first function, in graph order, whose rows contain the finding's. *)
Definition first_function_at (g : Graph) (f : Finding) : NodeId :=
  default kNullNode (List.find (contains_row g (target_row f)) (find_by_kind g KFunctionDef)).

Lemma by_path_fallback_eq g p m findings :
  (forall q, m !! q = if decide (q = p) then Some (find_by_kind g KFunctionDef) else None) ->
  forall q, by_path_fallback g m findings !! q =
    if decide (q = p \/ (Some q = other_path p findings /\ find_by_kind g KFunctionDef <> []))
    then Some (find_by_kind g KFunctionDef) else None.
Proof.
  intros Hm q. induction findings as [|f fs IH]; cbn [by_path_fallback other_path].
  { rewrite Hm. repeat case_decide; naive_solver. }
  rewrite (Hm (loc_path _)). case_bool_decide as Hf.
  { rewrite decide_True by done. apply IH. }
  rewrite decide_False, foldl_push_all by done.
  destruct (find_by_kind g KFunctionDef) as [|fn fns] eqn:E.
  { rewrite Hm. repeat case_decide; naive_solver. }
  rewrite (Hm (loc_path _)), (decide_False (P := loc_path _ = p)) by done. cbn [default app].
  destruct (decide (q = loc_path (primary_location f))) as [->|Hne].
  - rewrite lookup_insert_eq, decide_True by naive_solver. done.
  - rewrite lookup_insert_ne, Hm by done. repeat case_decide; naive_solver.
Qed.

Lemma find_finding_function_spec g f0 rest f :
  graph_wf g ->
  find_finding_function g f (by_path_fallback g (by_path_first g (f0 :: rest)) (f0 :: rest))
  = if decide (loc_path (primary_location f) = loc_path (primary_location f0)
               \/ Some (loc_path (primary_location f))
                  = other_path (loc_path (primary_location f0)) (f0 :: rest))
    then first_function_at g f else kNullNode.
Proof.
  intros Hwf. unfold find_finding_function, first_function_at.
  rewrite by_path_first_eq by done. cbn zeta. rewrite foldl_push_all, lookup_empty.
  cbn [default app]. destruct (find_by_kind g KFunctionDef) as [|fn fns] eqn:E.
  - assert (forall l, by_path_fallback g ∅ l = ∅) as ->.
    { induction l as [|h l IH]; [done|]. cbn [by_path_fallback]. by rewrite lookup_empty, E. }
    rewrite lookup_empty. by case_decide.
  - rewrite <-E. rewrite (by_path_fallback_eq g (loc_path (primary_location f0))).
    + rewrite E. repeat case_decide; try done; naive_solver.
    + intros p. case_decide as Hp; [by subst; rewrite lookup_insert_eq|].
      by rewrite lookup_insert_ne.
Qed.

Lemma find_by_kind_length g k : (length (find_by_kind g k) <= node_count g)%nat.
Proof.
  unfold find_by_kind, find_if. rewrite ?length_map, ?length_fmap. apply List.filter_length_le.
Qed.

(** The search proper, from its initial queue. *)
Lemma search_spec fuel cg config entries v1 q1 v2 q2 :
  push_new fst ∅ (at_depth_0 entries) = (v1, q1) ->
  push_new fst v1 (at_depth_0 (adj cg 0)) = (v2, q2) ->
  (length entries + 2 * length cg <= fuel)%nat ->
  exists v, worklist fst (reach_expand cg config) (fun (_ : unit) _ => tt) fuel v2 (q1 ++ q2) tt
              = Some (v, tt) /\
    (forall y, y ∈ v -> exists e, (e ∈ entries \/ calls cg 0 e) /\ steps (calls cg) e y) /\
    (forall e, e ∈ entries \/ calls cg 0 e -> e ∈ v) /\
    (max_depth config = 0%nat ->
     forall y, y ∈ v <-> exists e, (e ∈ entries \/ calls cg 0 e) /\ steps (calls cg) e y).
Proof.
  intros E1 E2 Hf. destruct (initial_queue _ _ _ _ _ _ E1 E2) as (Hv2 & Hnd & Hroots).
  pose proof (push_new_length _ _ _ _ _ E1) as L1. pose proof (push_new_length _ _ _ _ _ E2) as L2.
  unfold at_depth_0 in L1, L2. rewrite length_fmap in L1, L2.
  pose proof (adj_length cg 0) as L3.
  destruct (worklist_total fst (reach_expand cg config) (fun (_ : unit) _ => tt)
    (list_to_set (callee <$> cg)) fuel v2 (q1 ++ q2) tt) as [[v []] Hw].
  { intros q c Hc. apply reach_expand_sub in Hc. apply elem_of_list_to_set, list_elem_of_fmap.
    by exists (mkCall (fst q) (fst c)). }
  { pose proof (size_difference_le (list_to_set (callee <$> cg)) v2).
    pose proof (size_list_to_set_le (callee <$> cg)) as Hs. rewrite length_fmap in Hs.
    rewrite length_app. lia. }
  exists v. split; [done|]. subst v2.
  assert (max_depth config = 0%nat -> forall y, y ∈ v <->
    exists e, (e ∈ entries \/ calls cg 0 e) /\ steps (calls cg) e y) as Hexact.
  { intros Hd y. rewrite (worklist_closure fst (reach_expand cg config) _ (calls cg)
      (fun q y => reach_expand_calls cg config q y Hd) _ _ _ _ _ Hw Hnd y).
    split.
    - intros (q & Hq & Hst). exists (fst q). split; [|done]. apply Hroots. by exists q.
    - intros (e & (q & Hq & <-)%Hroots & Hst). by exists q. }
  apply worklist_run in Hw as (order & [R1 R2 R3 R4 R5 R6]); [|done|].
  2: { intros q Hq. apply elem_of_list_to_set, list_elem_of_fmap. by exists q. }
  split; [|split; [|done]].
  - intros y. rewrite R2, elem_of_union, !elem_of_list_to_set, !list_elem_of_fmap.
    assert (forall q, derived (reach_expand cg config) (q1 ++ q2) q ->
      exists e, (e ∈ entries \/ calls cg 0 e) /\ steps (calls cg) e (fst q)) as Hder.
    { induction 1 as [q Hq|q q' _ (e & He & Hst) Hq'].
      - exists (fst q). split; [apply Hroots; by exists q|constructor].
      - exists e. split; [done|]. eapply steps_snoc; [exact Hst|]. by eapply reach_expand_sub. }
    intros [(q & -> & Hq)|(q & -> & Hq)]; apply Hder; [by apply derived_root|by apply R4].
  - intros e (q & Hq & <-)%Hroots. rewrite R2.
    apply elem_of_union_l, elem_of_list_to_set, list_elem_of_fmap. by exists q.
Qed.

Lemma tokens_from_long cur text t : t ∈ tokens_from cur text -> (2 <= length t)%nat.
Proof.
  assert (forall cur, t ∈ (if (2 <=? length cur)%nat then [cur] else []) -> (2 <= length t)%nat) as Hf.
  { intros c. destruct (2 <=? length c)%nat eqn:E; [|by intros ?%not_elem_of_nil].
    intros ->%list_elem_of_singleton. by apply Nat.leb_le. }
  revert cur. induction text as [|c text IH]; intros cur; cbn [tokens_from]; [apply Hf|].
  destruct (is_token_char c); [apply IH|]. intros [?%Hf|?%IH]%elem_of_app; done.
Qed.

(** ** Theorems *)

(** [enclosing_function] terminates and returns the nearest function
    definition at or above the node, the null node when there is none. *)
Lemma enclosing_function_spec g fuel x :
  graph_wf g -> 1 <= x -> (N.to_nat x < fuel)%nat ->
  exists f, enclosing_function fuel g x = Some f /\ forall f', encloses g x f' <-> f' = f.
Proof.
  intros Hwf Hx Hf. destruct (enclosing_loop_spec g fuel x Hwf Hx Hf) as (f & Hr & He).
  exists f. split; [exact Hr|]. intros f'. split; [|by intros ->].
  intros He'. by eapply encloses_fun.
Qed.

(** The call graph has an edge from [a] to [b] exactly when some call
    site is enclosed by [a] and its first identifier token is the extracted,
    non-empty name of the function [b]; every call site is counted as
    resolved or unresolved. *)
Lemma build_call_graph_spec g ast fuel :
  graph_wf g -> enough_fuel g fuel ->
  exists edges stats (name : NodeId -> str),
    build_call_graph fuel g ast = Some (edges, stats) /\
    (forall fn, fn ∈ find_by_kind g KFunctionDef ->
       extract_function_name fuel g ast fn = Some (name fn)) /\
    (forall a b, mkCall a b ∈ edges <->
       exists c n, get g c = Some n /\ n_kind n = KCall /\ encloses g c a /\
         b ∈ find_by_kind g KFunctionDef /\ name b <> [] /\
         extract_callee_name (node_text ast (n_range n)) = name b) /\
    function_count stats = length (find_by_kind g KFunctionDef) /\
    call_sites stats = length (find_by_kind g KCall) /\
    (resolved_calls stats + unresolved_calls stats = call_sites stats)%nat.
Proof.
  intros Hwf Hf. unfold build_call_graph.
  set (name := fun fn => default [] (extract_function_name fuel g ast fn)).
  set (enc := fun c => default 0 (enclosing_function fuel g c)).
  assert (forall fn, fn ∈ find_by_kind g KFunctionDef ->
    extract_function_name fuel g ast fn = Some (name fn)) as Hname.
  { intros fn Hfn. destruct (extract_function_name_total g ast fuel fn Hwf Hf Hfn) as [nm Hnm].
    unfold name. by rewrite Hnm. }
  assert (forall c, c ∈ find_by_kind g KCall ->
    enclosing_function fuel g c = Some (enc c) /\ encloses g c (enc c)
    /\ exists n, get g c = Some n /\ n_kind n = KCall) as Henc.
  { intros c Hc. apply elem_of_find_by_kind in Hc as (n & Hn & Hk); [|done].
    pose proof (get_bound _ _ _ Hn) as Hb. destruct Hf as [Hf _].
    destruct (enclosing_loop_spec g fuel c Hwf) as (f & Hr & He); [lia..|].
    unfold enc, enclosing_function. rewrite Hr. eauto. }
  destruct (index_functions_spec fuel g ast _ ∅ name Hname) as (m & -> & Hm).
  destruct (resolve_calls_spec fuel g ast m enc (find_by_kind g KCall) []
    (mkCallStats (length (find_by_kind g KFunctionDef)) (length (find_by_kind g KCall)) 0 0))
    as (stats & -> & H1 & H2 & H3).
  { intros c Hc. by apply Henc. }
  { intros c Hc. destruct (Henc c Hc) as (_ & _ & n & ? & _). by exists n. }
  exists ([] ++ flat_map (call_edges g ast m enc) (find_by_kind g KCall)), stats, name.
  do 2 (split; [done|]). simpl in *. split_and!; try done; try lia.
  intros a b. rewrite elem_of_flat_map. split.
  - intros (c & Hc & Hin). destruct (Henc c Hc) as (_ & He & n & Hn & Hk).
    unfold call_edges in Hin. rewrite Hn in Hin. case_bool_decide as Hnm; [set_solver|].
    apply list_elem_of_fmap in Hin as (b' & [= -> ->] & Hb).
    destruct (Hm _ Hnm) as [Hd _]. rewrite Hd, lookup_empty in Hb. simpl in Hb.
    apply elem_of_lfilter in Hb as [Hb Hnb]. apply bool_decide_eq_true in Hnb.
    exists c, n. rewrite Hnb. by split_and!.
  - intros (c & n & Hn & Hk & He & Hb & Hnm & Heq).
    assert (c ∈ find_by_kind g KCall) as Hc by (apply elem_of_find_by_kind; eauto).
    exists c. split; [done|]. destruct (Henc c Hc) as (_ & He' & _).
    rewrite (encloses_fun _ _ _ _ He He'). unfold call_edges. rewrite Hn, Heq.
    rewrite bool_decide_false by done. apply list_elem_of_fmap. exists b. split; [done|].
    destruct (Hm _ Hnm) as [-> _]. rewrite lookup_empty. apply elem_of_lfilter.
    split; [done|]. by apply bool_decide_eq_true.
Qed.

(** C6: the reachability search terminates; without a depth limit it returns
    exactly the functions reachable over call edges from the entry functions
    and the callees of file-scope calls, and with a depth limit a subset of
    them that still holds every root. *)
Theorem compute_reachable_closure g cg config fuel :
  graph_wf g -> enough_fuel g fuel -> (node_count g + 2 * length cg < fuel)%nat ->
  exists r, compute_reachable fuel g cg config = Some r /\
    (forall y, y ∈ reachable_functions r ->
       exists e, search_root fuel g cg config e /\ steps (calls cg) e y) /\
    (forall e, search_root fuel g cg config e -> e ∈ reachable_functions r) /\
    (max_depth config = 0%nat ->
     forall y, y ∈ reachable_functions r <->
       exists e, search_root fuel g cg config e /\ steps (calls cg) e y).
Proof.
  intros Hwf Hfuel Hf. unfold compute_reachable, search_root.
  assert (find_by_kind g KFunctionDef = [] -> compute_reachable fuel g cg config = Some (mkReach ∅ 0))
    as Hnone.
  { intros E. unfold compute_reachable. rewrite E.
    by destruct (node_count g =? 0)%nat; [|rewrite bool_decide_true]. }
  destruct (decide (find_by_kind g KFunctionDef = [])) as [E|Hne].
  { exists (mkReach ∅ 0). split; [by apply Hnone|]. split_and!; simpl; set_solver. }
  assert ((node_count g =? 0)%nat = false) as ->.
  { apply Nat.eqb_neq. intros H0. apply Hne. pose proof (find_by_kind_length g KFunctionDef) as Hl.
    destruct (find_by_kind g KFunctionDef); [done|]. simpl in Hl. lia. }
  rewrite bool_decide_false by done.
  destruct (entry_list_spec fuel g config _ Hwf Hfuel (fun fn H => H)) as (es & -> & Hlen & Hes).
  pose proof (find_by_kind_length g KFunctionDef).
  destruct (push_new fst ∅ (at_depth_0 es)) as [v1 q1] eqn:E1.
  destruct (push_new fst v1 (at_depth_0 (adj cg 0))) as [v2 q2] eqn:E2.
  destruct (search_spec fuel cg config es v1 q1 v2 q2 E1 E2) as (v & -> & H1 & H2 & H3); [lia|].
  exists (mkReach v (length es)). split; [done|]. cbn [reachable_functions].
  split_and!.
  - intros y (e & He & Hst)%H1. exists e. rewrite <-Hes. auto.
  - intros e [_ He]. apply H2. rewrite Hes. done.
  - intros Hd y. rewrite (H3 Hd). setoid_rewrite Hes. naive_solver.
Qed.

(** Annotating keeps every finding and its other fields and appends one
    label.  The label is about the first function, in graph order, whose rows
    contain the finding, for the findings of the first path and of the first
    other path; findings of any further path are labelled unknown. *)
Lemma annotate_findings_spec g reach f0 rest :
  graph_wf g ->
  annotate_findings g reach (f0 :: rest) =
  (fun f =>
     set_taxa f (compliance_taxa f ++
       [reach_label reach
          (if decide (loc_path (primary_location f) = loc_path (primary_location f0)
                      \/ Some (loc_path (primary_location f))
                         = other_path (loc_path (primary_location f0)) (f0 :: rest))
           then first_function_at g f else kNullNode)])) <$> (f0 :: rest).
Proof.
  intros Hwf. unfold annotate_findings. cbn zeta. apply list_fmap_ext. intros _ f _.
  by rewrite find_finding_function_spec.
Qed.

(** A function with a one-letter name is never a callee: the tokenizer
    drops tokens shorter than two characters, so the call [f(foo)] resolves
    to its argument. *)
Lemma extract_callee_name_short :
  (forall text, length (extract_callee_name text) <> 1%nat)
  /\ extract_callee_name (lit "f(foo)") = lit "foo".
Proof.
  split; [|by vm_compute]. intros text. unfold extract_callee_name, first_token, identifier_tokens.
  destruct (tokens_from [] text) as [|t ts] eqn:E; [done|]. simpl.
  pose proof (tokens_from_long [] text t) as H. rewrite E in H. specialize (H ltac:(by left)). lia.
Qed.

(** [fn main() { helper() } fn helper() { }] *)
Definition call_source : str := lit "fn main() { helper() } fn helper() { }".
Definition call_tree : Tree :=
  TNode (lit "source_file", byte_range 0 38)
    [TNode (lit "function_item", byte_range 0 22)
       [TNode (lit "identifier", byte_range 3 7) [];
        TNode (lit "block", byte_range 10 22)
          [TNode (lit "call_expression", byte_range 12 20)
             [TNode (lit "identifier", byte_range 12 18) []]]];
     TNode (lit "function_item", byte_range 23 38)
       [TNode (lit "identifier", byte_range 26 32) [];
        TNode (lit "block", byte_range 35 38) []]].
Definition call_ast : Ast := mkAst LRust call_source (preorder call_tree).
Definition call_cpg : Graph := build call_ast.
Definition main_config : ReachabilityConfig := mkReachConfig [lit "main"] false 0.

Lemma call_cpg_wf : graph_wf call_cpg.
Proof. apply build_graph_wf. by vm_compute. Qed.

Lemma call_cpg_fuel : enough_fuel call_cpg 40.
Proof. split; [apply Nat.ltb_lt; by vm_compute|]. apply (bool_decide_unpack _). by vm_compute. Qed.

Lemma call_cpg_edges :
  build_call_graph 40 call_cpg call_ast = Some ([mkCall 2 7], mkCallStats 2 1 1 0).
Proof. by vm_compute. Qed.

Lemma enclosing_function_spec_witness :
  exists f, enclosing_function 40 call_cpg 6 = Some f /\ forall f', encloses call_cpg 6 f' <-> f' = f.
Proof.
  apply enclosing_function_spec; [exact call_cpg_wf|by vm_compute|apply Nat.ltb_lt; by vm_compute].
Defined.

Lemma build_call_graph_spec_witness :
  exists edges stats, build_call_graph 40 call_cpg call_ast = Some (edges, stats) /\
    (resolved_calls stats + unresolved_calls stats = call_sites stats)%nat.
Proof.
  destruct (build_call_graph_spec call_cpg call_ast 40) as (es & st & nm & H & _ & _ & _ & _ & Hs);
    [exact call_cpg_wf|exact call_cpg_fuel|]. exists es, st. split; [exact H|exact Hs].
Defined.

Lemma compute_reachable_closure_witness :
  exists r, compute_reachable 40 call_cpg [mkCall 2 7] main_config = Some r /\
    (7 ∈ reachable_functions r <->
     exists e, search_root 40 call_cpg [mkCall 2 7] main_config e /\ steps (calls [mkCall 2 7]) e 7).
Proof.
  destruct (compute_reachable_closure call_cpg [mkCall 2 7] main_config 40)
    as (r & H & _ & _ & Hx); [exact call_cpg_wf|exact call_cpg_fuel|apply Nat.ltb_lt; by vm_compute|].
  exists r. split; [exact H|]. apply Hx. reflexivity.
Defined.

Definition sample_finding (path : str) (line : Z) : Finding :=
  mkFinding [] (lit "r") [] SevHigh ConfProbable EuxisCore (mkLoc path line 1 line 2 []) [] None
    OwaspNone QuantumNone [] [] [] 0.

Lemma annotate_findings_spec_witness :
  compliance_taxa <$> annotate_findings call_cpg (mkReach {[ 2 ]} 1)
    [sample_finding (lit "a.rs") 1; sample_finding (lit "b.rs") 1; sample_finding (lit "c.rs") 1]
  = [[lit "euxis:reachable:true"]; [lit "euxis:reachable:true"]; [lit "euxis:reachable:unknown"]].
Proof.
  rewrite annotate_findings_spec; [by vm_compute|]. exact call_cpg_wf.
Defined.
