(* ===== verification/Taint.v ===== *)
(** * Taint analysis: [libs/taint] ([spec.cpp], [analyzer.cpp])

    Classification of nodes against source, sink and sanitizer patterns, the
    breadth-first search along data-dependency edges from every source, and
    the conversion of flows to findings.  A queue element of the search is the
    path so far; the [roles] vector is a list indexed by node id.  The search
    is an instance of [Worklist]; its abstract reading is [tainted], a
    reachability relation through nodes that do not stop the flow. *)

From Stdlib Require Import ZArith Ascii String Lia.
From stdpp Require Import base list gmap strings sorting.
From S2P Require Import Prelude CxxString CpgGraph Worklist Finding.
Local Open Scope N_scope.

(** ** Specifications of sources, sinks and sanitizers *)

Record SourceSpec : Type := mkSource {
  src_id : str; src_languages : list Language; src_pattern : str; src_description : str;
}.
Record SinkSpec : Type := mkSink {
  snk_id : str; snk_languages : list Language; snk_pattern : str; snk_description : str;
  snk_cwe : option str; snk_owasp : option OwaspCategory; snk_severity : Severity;
}.
Record SanitizerSpec : Type := mkSanitizer {
  san_id : str; san_languages : list Language; san_pattern : str; san_description : str;
}.
Record TaintSpec : Type := mkTaintSpec {
  ts_name : str; sources : list SourceSpec; sinks : list SinkSpec; sanitizers : list SanitizerSpec;
}.

Definition applies_to (langs : list Language) (lang : Language) : bool :=
  if bool_decide (langs = []) then true else bool_decide (lang ∈ langs).

Definition matches (pattern text : str) : bool :=
  if bool_decide (pattern = []) || bool_decide (text = []) then false
  else contains_sub pattern text.

(** ** Classification *)

Inductive Role : Type := RNone | RSource | RSink | RSanitizer.
#[export] Instance Role_eq_dec : EqDecision Role.
Proof. solve_decision. Defined.

Abbreviation ClassificationEntry := (Role * nat)%type.

Record AnalysisStats : Type := mkStats {
  sources_matched : nat; sinks_matched : nat; sanitizers_matched : nat;
  flows_emitted : nat; bfs_nodes_visited : nat;
}.
Definition no_stats : AnalysisStats := mkStats 0 0 0 0 0.

(** The three loops over the specs for one node: sanitizers win over sinks,
    sinks over sources, and within a list the first match wins. *)
Definition classify_node (spec : TaintSpec) (language : Language) (text : str) :
    ClassificationEntry :=
  if bool_decide (text = []) then (RNone, 0%nat)
  else match find_index (fun s => applies_to (san_languages s) language && matches (san_pattern s) text)
               (sanitizers spec) with
       | Some i => (RSanitizer, i)
       | None =>
           match find_index (fun s => applies_to (snk_languages s) language && matches (snk_pattern s) text)
                   (sinks spec) with
           | Some i => (RSink, i)
           | None =>
               match find_index (fun s => applies_to (src_languages s) language && matches (src_pattern s) text)
                       (sources spec) with
               | Some i => (RSource, i)
               | None => (RNone, 0%nat)
               end
           end
       end.

Definition count_role (r : Role) (s : AnalysisStats) : AnalysisStats :=
  match r with
  | RSanitizer => mkStats (sources_matched s) (sinks_matched s) (S (sanitizers_matched s))
                    (flows_emitted s) (bfs_nodes_visited s)
  | RSink => mkStats (sources_matched s) (S (sinks_matched s)) (sanitizers_matched s)
               (flows_emitted s) (bfs_nodes_visited s)
  | RSource => mkStats (S (sources_matched s)) (sinks_matched s) (sanitizers_matched s)
                 (flows_emitted s) (bfs_nodes_visited s)
  | RNone => s
  end.

Definition classify_step (ast : Ast) (spec : TaintSpec)
    (st : list ClassificationEntry * AnalysisStats) (node : Node) :
    list ClassificationEntry * AnalysisStats :=
  let '(roles, stats) := st in
  let e := classify_node spec (ast_language ast) (node_text ast (n_range node)) in
  match fst e with
  | RNone => (roles, stats)
  | r => (<[N.to_nat (n_id node) := e]> roles, count_role r stats)
  end.

Definition classify_all (g : Graph) (ast : Ast) (spec : TaintSpec) :
    list ClassificationEntry * AnalysisStats :=
  foldl (classify_step ast spec) (replicate (node_count g + 1) (RNone, 0%nat), no_stats) (g_nodes g).

Definition entry_of (roles : list ClassificationEntry) (id : NodeId) : ClassificationEntry :=
  default (RNone, 0%nat) (roles !! N.to_nat id).
Definition role_of (roles : list ClassificationEntry) (id : NodeId) : Role := fst (entry_of roles id).

(** ** The search *)

Record TaintFlow : Type := mkFlow {
  source_node : NodeId; sink_node : NodeId; path : list NodeId;
  source_spec_id : str; sink_spec_id : str;
}.

(** The walk up the AstChild parents for a sink-tagged ancestor. *)
Fixpoint ancestor_sink (fuel : nat) (g : Graph) (roles : list ClassificationEntry) (anc : NodeId) :
    option NodeId :=
  match fuel with
  | O => None
  | S fuel =>
      if negb (is_valid anc) then Some kNullNode
      else match role_of roles anc with
           | RSink => Some anc
           | RSanitizer => Some kNullNode
           | _ => ancestor_sink fuel g roles (parent g anc)
           end
  end.

(** The fuel of the walk: parents have smaller ids ([ancestor_sink_total]). *)
Definition sink_match (g : Graph) (roles : list ClassificationEntry) (src current : NodeId) :
    NodeId :=
  if current =? src then kNullNode
  else if bool_decide (role_of roles current = RSink) then current
  else default kNullNode (ancestor_sink (N.to_nat current + 1) g roles (parent g current)).

Definition path_end (p : list NodeId) : NodeId := List.last p kNullNode.

Definition ddg_targets (g : Graph) (x : NodeId) : list NodeId :=
  e_target <$> List.filter (fun e => bool_decide (e_kind e = EDdg) && (e_source e =? x)) (g_edges g).

(** The nodes a popped path is extended with: none past a sink or sanitizer. *)
Definition taint_expand (g : Graph) (roles : list ClassificationEntry) (src : NodeId)
    (p : list NodeId) : list (list NodeId) :=
  let current := path_end p in
  if is_valid (sink_match g roles src current) then []
  else if negb (current =? src) && bool_decide (role_of roles current = RSanitizer) then []
  else (fun t => p ++ [t]) <$> ddg_targets g current.

Definition spec_id_of {A} (f : A -> str) (specs : list A) (i : nat) : str :=
  default [] (f <$> specs !! i).

(** Handling a popped path: count it and emit a flow at a sink. *)
Definition taint_visit (g : Graph) (roles : list ClassificationEntry) (spec : TaintSpec)
    (src : NodeId) (acc : list TaintFlow * AnalysisStats) (p : list NodeId) :
    list TaintFlow * AnalysisStats :=
  let '(flows, s) := acc in
  let s := mkStats (sources_matched s) (sinks_matched s) (sanitizers_matched s)
             (flows_emitted s) (S (bfs_nodes_visited s)) in
  let current := path_end p in
  let sink := sink_match g roles src current in
  if is_valid sink then
    let emitted_path := if negb (path_end p =? sink) then p ++ [sink] else p in
    (flows ++ [mkFlow src sink emitted_path
                 (spec_id_of src_id (sources spec) (snd (entry_of roles src)))
                 (spec_id_of snk_id (sinks spec) (snd (entry_of roles sink)))],
     mkStats (sources_matched s) (sinks_matched s) (sanitizers_matched s)
       (S (flows_emitted s)) (bfs_nodes_visited s))
  else (flows, s).

Definition bfs_from_source (fuel : nat) (g : Graph) (src : NodeId)
    (roles : list ClassificationEntry) (spec : TaintSpec)
    (acc : list TaintFlow * AnalysisStats) : option (list TaintFlow * AnalysisStats) :=
  snd <$> worklist path_end (taint_expand g roles src) (taint_visit g roles spec src)
            fuel {[src]} [[src]] acc.

Fixpoint analyze_nodes (fuel : nat) (g : Graph) (roles : list ClassificationEntry)
    (spec : TaintSpec) (nodes : list Node) (acc : list TaintFlow * AnalysisStats) :
    option (list TaintFlow * AnalysisStats) :=
  match nodes with
  | [] => Some acc
  | node :: nodes =>
      if bool_decide (role_of roles (n_id node) = RSource) then
        match bfs_from_source fuel g (n_id node) roles spec acc with
        | Some acc => analyze_nodes fuel g roles spec nodes acc
        | None => None
        end
      else analyze_nodes fuel g roles spec nodes acc
  end.

Definition analyze (fuel : nat) (g : Graph) (ast : Ast) (spec : TaintSpec) :
    option (list TaintFlow * AnalysisStats) :=
  if (node_count g =? 0)%nat then Some ([], no_stats)
  else
    let '(roles, stats) := classify_all g ast spec in
    analyze_nodes fuel g roles spec (g_nodes g) ([], stats).

(** ** Findings *)

Definition kFnvOffset : Z := 0xcbf29ce484222325.
Definition kFnvPrime : Z := 0x100000001b3.

Definition absorb (h ch : Z) : Z := u64 (Z.lxor h ch * kFnvPrime).
Definition absorb_str (h : Z) (s : str) : Z := foldl (fun h c => absorb h (code c)) h s.

Definition fnv1a (a b c d : str) (e : Z) : Z :=
  let h := absorb_str (absorb_str (absorb_str (absorb_str kFnvOffset a) b) c) d in
  foldl (fun h i => absorb h (Z.land (Z.shiftr e (i * 8)) 255)) h [3; 2; 1; 0]%Z.

Definition hex_digits : str := lit "0123456789abcdef".
Definition hex16 (v : Z) : str :=
  (fun i => default zero (hex_digits !! Z.to_nat (Z.land (Z.shiftr v (Z.of_nat i * 4)) 15)))
  <$> rev (seq 0 16).

Definition stable_fingerprint (rule_id file source_raw_kind sink_raw_kind : str) (sink_line : Z) :
    str :=
  let h := fnv1a rule_id file source_raw_kind sink_raw_kind sink_line in
  hex16 h ++ hex16 (Z.lxor h 0x5a5a5a5a5a5a5a5a).

(** [static_cast<int>(row + 1)]: 32-bit unsigned addition, then the cast. *)
Definition to_line (n : N) : Z :=
  let z := u32 (Z.of_N n + 1) in if (z <? 2 ^ 31)%Z then z else (z - 2 ^ 32)%Z.

Definition location_of (file_path : str) (n : Node) : SourceLocation :=
  mkLoc file_path (to_line (start_row (n_range n))) (to_line (start_column (n_range n)))
    (to_line (end_row (n_range n))) (to_line (end_column (n_range n))) [].

(** The interior of the path: without its first and last node. *)
Definition hops (p : list NodeId) : list NodeId := drop 1 (take (length p - 1) p).

Definition finding_of (now : Z) (g : Graph) (file_path : str) (flow : TaintFlow) :
    option Finding :=
  match get g (sink_node flow), get g (source_node flow) with
  | Some snk, Some src =>
      let rule := lit "euxis-taint/" ++ source_spec_id flow ++ lit "->" ++ sink_spec_id flow in
      let msg := lit "Tainted data from " ++ source_spec_id flow ++ lit " reaches "
                 ++ sink_spec_id flow ++ lit " without sanitisation." in
      let related := location_of file_path src
                     :: (location_of file_path <$> omap (get g) (hops (path flow))) in
      Some (mkFinding
        (stable_fingerprint rule file_path (n_raw_kind src) (n_raw_kind snk)
           (Z.of_N (start_byte (n_range snk))))
        rule msg SevHigh ConfProbable LlmInferred (location_of file_path snk) related
        None OwaspNone QuantumNone [] [] [] now)
  | _, _ => None
  end.

(** [now] is the clock read of each default-constructed [Finding]. *)
Definition flows_to_findings (now : Z) (flows : list TaintFlow) (g : Graph) (file_path : str) :
    list Finding :=
  omap (finding_of now g file_path) flows.

(** ** [builtin_specs.cpp] *)

Definition builtin_sources : list SourceSpec :=
  [mkSource (lit "c.argv") [LC; LCpp] (lit "argv") (lit "Process argv");
   mkSource (lit "c.getenv") [LC; LCpp] (lit "getenv") (lit "Environment variable read");
   mkSource (lit "c.scanf") [LC; LCpp] (lit "scanf") (lit "Untrusted user input via scanf family");
   mkSource (lit "c.gets") [LC; LCpp] (lit "gets") (lit "Unsafe gets() — deprecated");
   mkSource (lit "rs.env_var") [LRust] (lit "env::var") (lit "std::env::var");
   mkSource (lit "rs.args") [LRust] (lit "env::args") (lit "Command-line args");
   mkSource (lit "rs.read") [LRust] (lit "read_line") (lit "User input via read_line");
   mkSource (lit "go.getenv") [LGo] (lit "os.Getenv") (lit "Environment variable");
   mkSource (lit "go.r_form") [LGo] (lit "r.FormValue") (lit "http.Request form value");
   mkSource (lit "go.flag_string") [LGo] (lit "flag.String") (lit "Command-line flag");
   mkSource (lit "py.input") [LPython] (lit "input(") (lit "Python input()");
   mkSource (lit "py.environ") [LPython] (lit "os.environ") (lit "Environment variable");
   mkSource (lit "py.argv") [LPython] (lit "sys.argv") (lit "Command-line args");
   mkSource (lit "py.request") [LPython] (lit "request.") (lit "Flask/Django request object");
   mkSource (lit "js.req_body") [LJavaScript; LTypeScript] (lit "req.body") (lit "Express request body");
   mkSource (lit "js.req_query") [LJavaScript; LTypeScript] (lit "req.query") (lit "Express request query");
   mkSource (lit "js.req_params") [LJavaScript; LTypeScript] (lit "req.params") (lit "Express request params");
   mkSource (lit "js.location") [LJavaScript; LTypeScript] (lit "window.location") (lit "DOM location");
   mkSource (lit "java.req_param") [LJava] (lit "getParameter") (lit "HttpServletRequest parameter");
   mkSource (lit "java.getenv") [LJava] (lit "System.getenv") (lit "Environment variable")].

Definition builtin_sinks : list SinkSpec :=
  [mkSink (lit "c.system") [LC; LCpp] (lit "system") (lit "Shell command via system()")
     (Some (lit "CWE-78")) (Some A03_SupplyChainFailures) SevHigh;
   mkSink (lit "c.popen") [LC; LCpp] (lit "popen") (lit "Shell command via popen()")
     (Some (lit "CWE-78")) (Some A03_SupplyChainFailures) SevHigh;
   mkSink (lit "c.exec") [LC; LCpp] (lit "execl") (lit "Process exec call")
     (Some (lit "CWE-78")) (Some A03_SupplyChainFailures) SevHigh;
   mkSink (lit "c.sprintf") [LC; LCpp] (lit "sprintf") (lit "Unsafe sprintf — buffer overflow risk")
     (Some (lit "CWE-120")) None SevHigh;
   mkSink (lit "rs.command") [LRust] (lit "Command::new") (lit "Process spawn")
     (Some (lit "CWE-78")) None SevHigh;
   mkSink (lit "rs.unsafe") [LRust] (lit "unsafe") (lit "Unsafe block — manual review required")
     (Some (lit "CWE-1357")) None SevMedium;
   mkSink (lit "go.exec") [LGo] (lit "exec.Command") (lit "Process spawn")
     (Some (lit "CWE-78")) None SevHigh;
   mkSink (lit "go.sql_exec") [LGo] (lit ".Exec(") (lit "Raw SQL exec")
     (Some (lit "CWE-89")) None SevHigh;
   mkSink (lit "py.eval") [LPython] (lit "eval(") (lit "Python eval()")
     (Some (lit "CWE-94")) (Some A03_SupplyChainFailures) SevCritical;
   mkSink (lit "py.exec") [LPython] (lit "exec(") (lit "Python exec()")
     (Some (lit "CWE-94")) None SevCritical;
   mkSink (lit "py.subprocess") [LPython] (lit "subprocess.") (lit "Subprocess call")
     (Some (lit "CWE-78")) None SevHigh;
   mkSink (lit "py.os_system") [LPython] (lit "os.system") (lit "Shell command")
     (Some (lit "CWE-78")) None SevHigh;
   mkSink (lit "py.pickle") [LPython] (lit "pickle.loads") (lit "Insecure deserialization")
     (Some (lit "CWE-502")) (Some A08_DataIntegrityFailures) SevCritical;
   mkSink (lit "js.eval") [LJavaScript; LTypeScript] (lit "eval(") (lit "JS eval()")
     (Some (lit "CWE-94")) None SevCritical;
   mkSink (lit "js.innerhtml") [LJavaScript; LTypeScript] (lit "innerHTML") (lit "DOM XSS sink")
     (Some (lit "CWE-79")) None SevHigh;
   mkSink (lit "js.document_write") [LJavaScript; LTypeScript] (lit "document.write") (lit "document.write XSS sink")
     (Some (lit "CWE-79")) None SevHigh;
   mkSink (lit "js.exec_sync") [LJavaScript; LTypeScript] (lit "execSync") (lit "child_process.execSync")
     (Some (lit "CWE-78")) None SevHigh;
   mkSink (lit "java.runtime_exec") [LJava] (lit "Runtime.getRuntime().exec") (lit "Runtime exec")
     (Some (lit "CWE-78")) None SevHigh;
   mkSink (lit "java.stmt_exec") [LJava] (lit "Statement") (lit "JDBC Statement (use PreparedStatement)")
     (Some (lit "CWE-89")) None SevHigh].

Definition builtin_sanitizers : list SanitizerSpec :=
  [mkSanitizer (lit "html.escape_py") [LPython] (lit "html.escape") (lit "Python HTML escape");
   mkSanitizer (lit "html.escape_js") [LJavaScript; LTypeScript] (lit "encodeURIComponent") (lit "URI encoder");
   mkSanitizer (lit "sql.prepared_java") [LJava] (lit "PreparedStatement") (lit "Parameterised SQL");
   mkSanitizer (lit "shlex_quote") [LPython] (lit "shlex.quote") (lit "Shell argument quoting");
   mkSanitizer (lit "go.html_escape") [LGo] (lit "html.EscapeString") (lit "HTML escape");
   mkSanitizer (lit "rs.shell_words") [LRust] (lit "shell_words::quote") (lit "Shell argument quoting")].

Definition builtin_specs : TaintSpec :=
  mkTaintSpec (lit "euxis-builtin") builtin_sources builtin_sinks builtin_sanitizers.

(** ** What a flow is *)

(** [s] is the first sink-tagged node at or above [a], before any sanitizer. *)
Inductive sink_above (g : Graph) (roles : list ClassificationEntry) : NodeId -> NodeId -> Prop :=
| sa_here a : is_valid a = true -> role_of roles a = RSink -> sink_above g roles a a
| sa_up a s :
    is_valid a = true -> role_of roles a <> RSink -> role_of roles a <> RSanitizer ->
    sink_above g roles (parent g a) s -> sink_above g roles a s.

(** The flow from [src] that arrives at [x] hits the sink [s]. *)
Definition hits (g : Graph) (roles : list ClassificationEntry) (src x s : NodeId) : Prop :=
  x <> src /\
  ((role_of roles x = RSink /\ s = x)
   \/ (role_of roles x <> RSink /\ sink_above g roles (parent g x) s)).

(** Taint moves from [x] to [y]: over a Ddg edge out of the source, or out of
    a node that neither hits a sink nor is a sanitizer. *)
Definition carries (g : Graph) (roles : list ClassificationEntry) (src x y : NodeId) : Prop :=
  mkEdge x y EDdg ∈ g_edges g /\
  (x = src \/ (role_of roles x <> RSanitizer /\ forall s, ~ hits g roles src x s)).

Inductive flow_path (g : Graph) (roles : list ClassificationEntry) (src : NodeId) :
    list NodeId -> Prop :=
| fp_start : flow_path g roles src [src]
| fp_step p t : flow_path g roles src p -> carries g roles src (path_end p) t ->
    flow_path g roles src (p ++ [t]).

(** ** Classification lemmas *)

Lemma classify_none spec lang text :
  fst (classify_node spec lang text) = RNone -> classify_node spec lang text = (RNone, 0%nat).
Proof. unfold classify_node. case_bool_decide; [done|]. by repeat case_match. Qed.

Lemma classify_step_other ast spec st n x :
  n_id n <> x -> entry_of (classify_step ast spec st n).1 x = entry_of st.1 x.
Proof.
  intros Hne. destruct st as [roles stats]. unfold classify_step, entry_of.
  destruct (fst (classify_node _ _ _)); simpl; [done|..];
    (rewrite list_lookup_insert_ne by lia; done).
Qed.

Lemma classify_step_length ast spec st n :
  length (classify_step ast spec st n).1 = length st.1.
Proof.
  destruct st as [roles stats]. unfold classify_step.
  destruct (fst (classify_node _ _ _)); simpl; [done|..]; apply length_insert.
Qed.

Lemma classify_step_same ast spec st n :
  (N.to_nat (n_id n) < length st.1)%nat -> entry_of st.1 (n_id n) = (RNone, 0%nat) ->
  entry_of (classify_step ast spec st n).1 (n_id n)
  = classify_node spec (ast_language ast) (node_text ast (n_range n)).
Proof.
  intros Hlt H0. destruct st as [roles stats]. unfold classify_step. simpl in *.
  destruct (fst (classify_node _ _ _)) eqn:E; simpl.
  - apply classify_none in E. by rewrite E.
  - unfold entry_of. by rewrite list_lookup_insert_eq.
  - unfold entry_of. by rewrite list_lookup_insert_eq.
  - unfold entry_of. by rewrite list_lookup_insert_eq.
Qed.

Lemma classify_fold_other ast spec l st x :
  x ∉ n_id <$> l -> entry_of (foldl (classify_step ast spec) st l).1 x = entry_of st.1 x.
Proof.
  revert st. induction l as [|n l IH]; intros st Hx; [done|]. cbn [foldl].
  rewrite fmap_cons in Hx. rewrite IH by set_solver. apply classify_step_other. set_solver.
Qed.

Lemma classify_fold_in ast spec l st n :
  NoDup (n_id <$> l) -> n ∈ l -> Forall (fun n => N.to_nat (n_id n) < length st.1)%nat l ->
  Forall (fun n => entry_of st.1 (n_id n) = (RNone, 0%nat)) l ->
  entry_of (foldl (classify_step ast spec) st l).1 (n_id n)
  = classify_node spec (ast_language ast) (node_text ast (n_range n)).
Proof.
  revert st. induction l as [|n0 l IH]; intros st Hnd Hn Hlen H0; [by apply not_elem_of_nil in Hn|].
  cbn [foldl]. rewrite fmap_cons in Hnd. apply NoDup_cons in Hnd as [Hn0 Hnd].
  apply Forall_cons in Hlen as [Hlen0 Hlen]. apply Forall_cons in H0 as [H00 H0].
  apply elem_of_cons in Hn as [->|Hn].
  - rewrite classify_fold_other by done. by apply classify_step_same.
  - apply IH; [done..| |].
    + eapply Forall_impl; [exact Hlen|]. simpl. intros m. by rewrite classify_step_length.
    + apply Forall_forall. intros m Hm. rewrite classify_step_other.
      * rewrite Forall_forall in H0. by apply H0.
      * intros Heq. apply Hn0. rewrite Heq. apply list_elem_of_fmap. by exists m.
Qed.

Lemma classify_all_no_flows g ast spec : flows_emitted (classify_all g ast spec).2 = 0%nat.
Proof.
  unfold classify_all.
  assert (forall l st, flows_emitted (foldl (classify_step ast spec) st l).2 = flows_emitted st.2)
    as ->; [|done].
  induction l as [|n l IH]; intros [roles s]; [done|]. cbn [foldl]. rewrite IH.
  unfold classify_step. by destruct (fst (classify_node _ _ _)).
Qed.

Lemma node_ids_nodup g : graph_wf g -> NoDup (n_id <$> g_nodes g).
Proof.
  intros Hwf. apply NoDup_alt. intros i j x Hi Hj. rewrite list_lookup_fmap in Hi, Hj.
  apply fmap_Some in Hi as (n & Hn & ->). apply fmap_Some in Hj as (m & Hm & Heq).
  apply (wf_ids g Hwf) in Hn, Hm. lia.
Qed.

Lemma node_in_graph g n : graph_wf g -> n ∈ g_nodes g -> get g (n_id n) = Some n /\
  1 <= n_id n <= N.of_nat (node_count g).
Proof.
  intros Hwf Hn. apply list_elem_of_lookup_1 in Hn as [i Hi].
  pose proof (wf_ids g Hwf i n Hi) as Hid. pose proof (lookup_lt_Some _ _ _ Hi) as Hlt.
  unfold node_count. split; [|lia]. apply get_Some. split; [lia|]. rewrite Hid.
  by replace (N.to_nat (N.of_nat i + 1 - 1)) with i by lia.
Qed.

(** Every node's role is the classification of its own text. *)
Lemma classify_all_entry g ast spec x n :
  graph_wf g -> get g x = Some n ->
  entry_of (classify_all g ast spec).1 x
  = classify_node spec (ast_language ast) (node_text ast (n_range n)).
Proof.
  intros Hwf Hn. rewrite <-(get_id g x n Hwf Hn). unfold classify_all.
  apply classify_fold_in.
  - by apply node_ids_nodup.
  - apply get_Some in Hn as [_ Hn]. by eapply list_elem_of_lookup_2.
  - apply Forall_forall. intros m Hm. destruct (node_in_graph g m Hwf Hm). simpl.
    rewrite length_replicate. lia.
  - apply Forall_forall. intros m _. unfold entry_of. simpl.
    destruct (replicate _ _ !! _) as [e|] eqn:E; [|done].
    by apply lookup_replicate in E as [-> _].
Qed.

(** ** The search follows [carries] *)

Lemma ancestor_sink_total g roles fuel a :
  graph_wf g -> (N.to_nat a < fuel)%nat ->
  exists r, ancestor_sink fuel g roles a = Some r /\
    forall s, sink_above g roles a s <-> is_valid r = true /\ s = r.
Proof.
  intros Hwf. revert a. induction fuel as [|fuel IH]; intros a Hf; [lia|]. cbn [ancestor_sink].
  destruct (is_valid a) eqn:Ha; cbn [negb].
  2: { exists kNullNode. split; [done|]. intros s. split; [|by intros []].
       inversion 1; subst; congruence. }
  assert (exists r, ancestor_sink fuel g roles (parent g a) = Some r /\
    forall s, sink_above g roles (parent g a) s <-> is_valid r = true /\ s = r) as (r & Hr & Hs).
  { apply IH. destruct (is_valid (parent g a)) eqn:Hp.
    - pose proof (parent_lt g a Hwf Hp). lia.
    - apply is_valid_false in Hp. rewrite Hp. apply is_valid_true in Ha. simpl. lia. }
  destruct (role_of roles a) eqn:Er.
  - exists r. split; [done|]. intros s. rewrite <-Hs. split; [inversion 1; congruence|].
    intros H. apply sa_up; [done|congruence|congruence|done].
  - exists r. split; [done|]. intros s. rewrite <-Hs. split; [inversion 1; congruence|].
    intros H. apply sa_up; [done|congruence|congruence|done].
  - exists a. split; [done|]. intros s. split; [inversion 1; subst; [done|congruence]|].
    intros [_ ->]. by apply sa_here.
  - exists kNullNode. split; [done|]. intros s. split; [inversion 1; congruence|by intros []].
Qed.

Lemma sink_match_hits g roles src x s :
  graph_wf g -> 1 <= x ->
  hits g roles src x s <->
  is_valid (sink_match g roles src x) = true /\ s = sink_match g roles src x.
Proof.
  intros Hwf Hx. unfold hits, sink_match. destruct (x =? src) eqn:E.
  { apply N.eqb_eq in E. split; [naive_solver|]. by intros [? _]. }
  apply N.eqb_neq in E. case_bool_decide as Hr.
  - rewrite (proj2 (is_valid_true x)) by done. naive_solver.
  - destruct (ancestor_sink_total g roles (N.to_nat x + 1) (parent g x) Hwf) as (r & -> & Hs).
    { destruct (is_valid (parent g x)) eqn:Hp.
      - pose proof (parent_lt g x Hwf Hp). lia.
      - apply is_valid_false in Hp. rewrite Hp. simpl. lia. }
    simpl. rewrite <-Hs. naive_solver.
Qed.

Lemma elem_of_ddg_targets g x y : y ∈ ddg_targets g x <-> mkEdge x y EDdg ∈ g_edges g.
Proof.
  unfold ddg_targets. rewrite list_elem_of_fmap. split.
  - intros ([a b k] & -> & [Hin Hb]%elem_of_lfilter). simpl in *.
    apply andb_true_iff in Hb as [Hk%bool_decide_eq_true Hx%N.eqb_eq]. by subst.
  - intros H. exists (mkEdge x y EDdg). split; [done|]. apply elem_of_lfilter. split; [done|].
    simpl. by rewrite N.eqb_refl.
Qed.

Lemma path_end_snoc p t : path_end (p ++ [t]) = t.
Proof. apply List.last_last. Qed.

Lemma taint_expand_carries g roles src p y :
  graph_wf g ->
  (exists c, c ∈ taint_expand g roles src p /\ path_end c = y) <->
  carries g roles src (path_end p) y.
Proof.
  intros Hwf. unfold taint_expand, carries.
  destruct (decide (1 <= path_end p)) as [Hv|Hv].
  2: { assert (path_end p = 0) as -> by lia. split.
       - intros (c & Hc & <-). exfalso.
         assert (ddg_targets g 0 = []) as E.
         { destruct (ddg_targets g 0) as [|t ts] eqn:E; [done|].
           assert (t ∈ ddg_targets g 0) as Ht by (rewrite E; by left).
           apply elem_of_ddg_targets, (wf_edges g Hwf) in Ht. simpl in Ht. lia. }
         rewrite E in Hc. repeat case_match; by apply not_elem_of_nil in Hc.
       - intros [Hin%(wf_edges g Hwf) _]. simpl in Hin. lia. }
  pose proof (sink_match_hits g roles src (path_end p)) as Hh.
  destruct (is_valid (sink_match g roles src (path_end p))) eqn:Hs.
  { split; [by intros (? & ?%not_elem_of_nil & _)|]. intros [_ [E|[_ Hno]]].
    - unfold sink_match in Hs. by rewrite (proj2 (N.eqb_eq _ _) E) in Hs.
    - exfalso. apply (Hno (sink_match g roles src (path_end p))). by apply Hh. }
  assert (forall s, ~ hits g roles src (path_end p) s) as Hno by (intros s [? _]%Hh; done).
  assert ((exists c, c ∈ ((fun t => p ++ [t]) <$> ddg_targets g (path_end p)) /\ path_end c = y)
          <-> mkEdge (path_end p) y EDdg ∈ g_edges g) as Htg.
  { rewrite <-elem_of_ddg_targets. split.
    - intros (c & (t & -> & Ht)%list_elem_of_fmap & <-). by rewrite path_end_snoc.
    - intros Hy. exists (p ++ [y]). rewrite path_end_snoc. split; [|done].
      apply list_elem_of_fmap. by exists y. }
  destruct (path_end p =? src) eqn:E; cbn [negb andb].
  - apply N.eqb_eq in E. rewrite Htg. naive_solver.
  - apply N.eqb_neq in E. case_bool_decide as Hr.
    + split; [by intros (? & ?%not_elem_of_nil & _)|]. naive_solver.
    + rewrite Htg. naive_solver.
Qed.

(** Emitted flows: one per handled path that hits a sink. *)
Definition flow_of (g : Graph) (roles : list ClassificationEntry) (spec : TaintSpec)
    (src : NodeId) (p : list NodeId) : option TaintFlow :=
  let sink := sink_match g roles src (path_end p) in
  if is_valid sink then
    Some (mkFlow src sink (if negb (path_end p =? sink) then p ++ [sink] else p)
            (spec_id_of src_id (sources spec) (snd (entry_of roles src)))
            (spec_id_of snk_id (sinks spec) (snd (entry_of roles sink))))
  else None.

Lemma taint_visit_fold g roles spec src order acc :
  let acc' := foldl (taint_visit g roles spec src) acc order in
  acc'.1 = acc.1 ++ omap (flow_of g roles spec src) order
  /\ flows_emitted acc'.2 = (flows_emitted acc.2 + length (omap (flow_of g roles spec src) order))%nat.
Proof.
  revert acc. induction order as [|p order IH]; intros [flows s].
  { simpl. by rewrite app_nil_r, Nat.add_0_r. }
  cbn [foldl]. destruct (IH (taint_visit g roles spec src (flows, s) p)) as [-> ->].
  assert (omap (flow_of g roles spec src) (p :: order) =
    match flow_of g roles spec src p with
    | Some f => f :: omap (flow_of g roles spec src) order
    | None => omap (flow_of g roles spec src) order end) as -> by done.
  unfold taint_visit. generalize (omap (flow_of g roles spec src) order). intros rest.
  unfold flow_of. destruct (is_valid (sink_match g roles src (path_end p))); simpl; [|done].
  rewrite <-app_assoc. split; [done|]. simpl. lia.
Qed.

(** One search: which pairs it reports and what its paths look like. *)
Record search_result (g : Graph) (roles : list ClassificationEntry) (spec : TaintSpec)
    (src : NodeId) (new : list TaintFlow) : Prop := {
  sr_pairs : forall k, (exists f, f ∈ new /\ sink_node f = k) <->
    exists x, steps (carries g roles src) src x /\ hits g roles src x k;
  sr_paths : forall f, f ∈ new -> source_node f = src /\
    source_spec_id f = spec_id_of src_id (sources spec) (snd (entry_of roles src)) /\
    sink_spec_id f = spec_id_of snk_id (sinks spec) (snd (entry_of roles (sink_node f))) /\
    exists p, flow_path g roles src p /\ hits g roles src (path_end p) (sink_node f) /\
      path f = if bool_decide (path_end p = sink_node f) then p else p ++ [sink_node f];
}.

Lemma steps_carries_valid g roles src x :
  graph_wf g -> 1 <= src -> steps (carries g roles src) src x -> 1 <= x.
Proof.
  intros Hwf Hs Hst. eapply (steps_invariant _ (fun x => 1 <= x)); [|exact Hst|exact Hs].
  intros a b _ [Hin _]. apply (wf_edges g Hwf) in Hin. simpl in Hin. lia.
Qed.

Lemma derived_flow_path g roles src p :
  graph_wf g -> derived (taint_expand g roles src) [[src]] p -> flow_path g roles src p.
Proof.
  intros Hwf. induction 1 as [p ->%list_elem_of_singleton|p c _ IH Hc]; [constructor|].
  assert (carries g roles src (path_end p) (path_end c)) as Hcar
    by (apply taint_expand_carries; [done|by exists c]).
  unfold taint_expand in Hc. repeat case_match; try by apply not_elem_of_nil in Hc.
  apply list_elem_of_fmap in Hc as (t & -> & _). rewrite path_end_snoc in Hcar.
  by apply fp_step.
Qed.

Lemma bfs_from_source_spec g roles spec src fuel acc :
  graph_wf g -> 1 <= src -> (node_count g < fuel)%nat ->
  exists new s, bfs_from_source fuel g src roles spec acc = Some (acc.1 ++ new, s) /\
    search_result g roles spec src new /\
    flows_emitted s = (flows_emitted acc.2 + length new)%nat.
Proof.
  intros Hwf Hsrc Hf. unfold bfs_from_source.
  destruct (worklist_total path_end (taint_expand g roles src) (taint_visit g roles spec src)
    (list_to_set (N.of_nat <$> seq 1 (node_count g))) fuel {[src]} [[src]] acc) as [[v acc'] Hw].
  { intros p c Hc. assert (carries g roles src (path_end p) (path_end c)) as [Hin _]
      by (apply taint_expand_carries; [done|by exists c]).
    apply (wf_edges g Hwf) in Hin. simpl in Hin. apply elem_of_list_to_set, list_elem_of_fmap.
    exists (N.to_nat (path_end c)). split; [lia|]. apply elem_of_seq. unfold node_count. lia. }
  { pose proof (size_difference_le (list_to_set (N.of_nat <$> seq 1 (node_count g))) {[src]}).
    pose proof (size_list_to_set_le (N.of_nat <$> seq 1 (node_count g))) as Hs.
    rewrite length_fmap, length_seq in Hs. simpl. lia. }
  assert (forall y, y ∈ v <-> steps (carries g roles src) src y) as Hclos.
  { intros y.
    assert ((list_to_set (path_end <$> [[src]]) : gset N) = {[src]}) as E by (simpl; set_solver).
    rewrite <-E in Hw.
    rewrite (worklist_closure path_end _ _ (carries g roles src)
      (fun q y => taint_expand_carries g roles src q y Hwf) _ _ _ _ _ Hw) by apply NoDup_singleton.
    split; [by intros (q & ->%list_elem_of_singleton & ?)|].
    intros H. exists [src]. split; [by left|done]. }
  rewrite Hw. simpl. apply worklist_run in Hw as (order & [R1 R2 R3 R4 R5 R6]).
  2: { apply NoDup_singleton. }
  2: { intros q ->%list_elem_of_singleton. by apply elem_of_singleton. }
  assert (forall y, (exists p, p ∈ order /\ path_end p = y) <-> steps (carries g roles src) src y)
    as Hord.
  { intros y. rewrite <-Hclos, R2, elem_of_union, elem_of_singleton, elem_of_list_to_set,
      list_elem_of_fmap. split; [intros (p & Hp & <-); eauto|].
    intros [->|(p & -> & Hp)]; [|by exists p]. exists [src]. split; [|done]. apply R3. by left. }
  destruct (taint_visit_fold g roles spec src order acc) as [E1 E2]. rewrite <-R1 in E1, E2.
  exists (omap (flow_of g roles spec src) order), acc'.2. rewrite <-E1.
  split; [by destruct acc'|]. split; [|done]. split.
  - intros k. split.
    + intros (f & (p & Hp & Hfl)%list_elem_of_omap & <-). unfold flow_of in Hfl.
      destruct (is_valid _) eqn:Hv; [|done]. injection Hfl as <-.
      assert (steps (carries g roles src) src (path_end p)) as Hst by (apply Hord; eauto).
      exists (path_end p). split; [done|]. apply sink_match_hits; [done| |done].
      by eapply steps_carries_valid.
    + intros (x & Hst & Hh). pose proof (steps_carries_valid _ _ _ _ Hwf Hsrc Hst) as Hx.
      apply Hord in Hst as (p & Hp & <-). apply sink_match_hits in Hh as [Hv ->]; [|done..].
      eexists. split; [apply list_elem_of_omap; exists p; split; [done|]; unfold flow_of|].
      { by rewrite Hv. } done.
  - intros f (p & Hp & Hfl)%list_elem_of_omap. unfold flow_of in Hfl.
    destruct (is_valid _) eqn:Hv; [|done]. injection Hfl as <-. simpl. do 3 (split; [done|]).
    exists p. split; [by apply derived_flow_path; [|apply R4]|].
    assert (steps (carries g roles src) src (path_end p)) as Hst by (apply Hord; eauto).
    split; [apply sink_match_hits; [done|by eapply steps_carries_valid|done]|].
    by case_bool_decide as Hb; [rewrite (proj2 (N.eqb_eq _ _) Hb)|rewrite (proj2 (N.eqb_neq _ _) Hb)].
Qed.

(** The flows of the sources among [nodes], in order. *)
Lemma analyze_nodes_spec g roles spec fuel nodes acc :
  graph_wf g -> (forall n, n ∈ nodes -> 1 <= n_id n) -> (node_count g < fuel)%nat ->
  exists new s, analyze_nodes fuel g roles spec nodes acc = Some (acc.1 ++ new, s) /\
    flows_emitted s = (flows_emitted acc.2 + length new)%nat /\
    (forall src k, (exists f, f ∈ new /\ source_node f = src /\ sink_node f = k) <->
       (exists n, n ∈ nodes /\ n_id n = src /\ role_of roles src = RSource) /\
       exists x, steps (carries g roles src) src x /\ hits g roles src x k) /\
    (forall f, f ∈ new -> exists new', f ∈ new' /\ search_result g roles spec (source_node f) new').
Proof.
  intros Hwf Hv Hf. revert acc. induction nodes as [|n nodes IH]; intros acc; cbn [analyze_nodes].
  { exists [], acc.2. rewrite app_nil_r. split; [by destruct acc|]. split; [simpl; lia|].
    split; [|set_solver]. intros src k. set_solver. }
  assert (forall m, m ∈ nodes -> 1 <= n_id m) as Hv' by set_solver. specialize (IH Hv').
  case_bool_decide as Hr.
  - destruct (bfs_from_source_spec g roles spec (n_id n) fuel acc Hwf)
      as (new1 & s1 & -> & Hsr & Hc1); [set_solver|done|].
    destruct (IH (acc.1 ++ new1, s1)) as (new2 & s2 & -> & Hc2 & Hp2 & Hq2).
    exists (new1 ++ new2), s2. simpl in *. rewrite app_assoc. split; [done|].
    split; [rewrite length_app; lia|]. split.
    + intros src k. setoid_rewrite elem_of_app. setoid_rewrite elem_of_cons. split.
      * intros (f & [Hin|Hin] & Hs & Hk).
        -- assert (n_id n = src) as <- by (destruct (sr_paths _ _ _ _ _ Hsr f Hin); congruence).
           split; [exists n; auto|]. apply (sr_pairs _ _ _ _ _ Hsr). eauto.
        -- destruct (proj1 (Hp2 src k)) as [(m & Hm & ?) ?]; [eauto|]. split; [|done]. eauto.
      * intros [(m & [->|Hm] & Hid & Hrole) Hx].
        -- subst src. apply (sr_pairs _ _ _ _ _ Hsr) in Hx as (f & Hin & Hk). exists f.
           destruct (sr_paths _ _ _ _ _ Hsr f Hin). auto.
        -- destruct (proj2 (Hp2 src k)) as (f & Hin & ?); [eauto 10|]. eauto.
    + intros f [Hin|Hin]%elem_of_app; [|by apply Hq2]. exists new1. split; [done|].
      destruct (sr_paths _ _ _ _ _ Hsr f Hin) as [-> _]. done.
  - destruct (IH acc) as (new & s & -> & Hc & Hp & Hq). exists new, s. split; [done|].
    split; [done|]. split; [|done]. intros src k. rewrite Hp. setoid_rewrite elem_of_cons.
    split; [naive_solver|]. intros [(m & [->|Hm] & Hid & Hrole) Hx]; [congruence|]. eauto.
Qed.

(** ** Roles grow with the text *)

Definition role_rank (r : Role) : nat :=
  match r with RNone => 0 | RSource => 1 | RSink => 2 | RSanitizer => 3 end.

Definition within_range (c p : SourceRange) : Prop :=
  start_byte p <= start_byte c /\ end_byte c <= end_byte p.

Lemma node_text_within ast c p :
  within_range c p -> end_byte p <= N.of_nat (length (ast_source ast)) ->
  exists a b, node_text ast p = a ++ node_text ast c ++ b.
Proof.
  intros [Hs He] Hp. destruct (decide (node_text ast c = [])) as [->|Hne].
  { exists (node_text ast p), []. by rewrite app_nil_r. }
  unfold node_text in *. destruct (_ || _ || _) eqn:E; [done|].
  rewrite !orb_false_iff, N.leb_gt, !N.ltb_ge in E. destruct E as [[E1 E2] E3].
  assert ((N.of_nat (length (ast_source ast)) <=? start_byte p)
    || (N.of_nat (length (ast_source ast)) <? end_byte p) || (end_byte p <? start_byte p) = false) as ->.
  { rewrite !orb_false_iff, N.leb_gt, !N.ltb_ge. lia. }
  unfold substr. set (src := ast_source ast). set (k := N.to_nat (start_byte c - start_byte p)).
  set (m := N.to_nat (end_byte c - start_byte c)). set (t := take _ (drop (N.to_nat (start_byte p)) src)).
  exists (take k t), (drop m (drop k t)).
  assert (take m (drop (N.to_nat (start_byte c)) src) = take m (drop k t)) as ->.
  { subst t. rewrite skipn_firstn_comm, drop_drop, take_take. unfold k, m in *.
    f_equal; [lia|f_equal; lia]. }
  by rewrite take_drop, take_drop.
Qed.

Lemma matches_mono pat a t b : matches pat t = true -> matches pat (a ++ t ++ b) = true.
Proof.
  unfold matches. repeat case_bool_decide; try done; simpl.
  - by destruct a, t.
  - rewrite !contains_sub_spec. intros (x & y & ->). exists (a ++ x), (y ++ b).
    by rewrite <-!app_assoc.
Qed.

Lemma find_index_mono {A} (p q : A -> bool) l i :
  (forall x, p x = true -> q x = true) -> find_index p l = Some i -> is_Some (find_index q l).
Proof.
  intros Hpq Hi. destruct (find_index q l) eqn:E; [by eexists|].
  apply find_index_None in E. rewrite Forall_forall in E.
  apply find_index_Some in Hi as (x & Hx & Hp & _).
  specialize (E x ltac:(by eapply list_elem_of_lookup_2)). simpl in E.
  rewrite (Hpq x Hp) in E. done.
Qed.

Lemma classify_mono spec lang a t b :
  (role_rank (classify_node spec lang t).1 <= role_rank (classify_node spec lang (a ++ t ++ b)).1)%nat.
Proof.
  unfold classify_node. case_bool_decide as Ht; [simpl; lia|].
  rewrite (bool_decide_false (a ++ t ++ b = [])) by (by destruct a, t).
  assert (forall pat langs, applies_to langs lang && matches pat t = true ->
    applies_to langs lang && matches pat (a ++ t ++ b) = true) as Hm.
  { intros pat langs. rewrite !andb_true_iff. intros [? ?]. split; [done|]. by apply matches_mono. }
  pose proof (fun i => find_index_mono _ _ (sanitizers spec) i
    (fun s => Hm (san_pattern s) (san_languages s))) as M1.
  pose proof (fun i => find_index_mono _ _ (sinks spec) i
    (fun s => Hm (snk_pattern s) (snk_languages s))) as M2.
  pose proof (fun i => find_index_mono _ _ (sources spec) i
    (fun s => Hm (src_pattern s) (src_languages s))) as M3.
  cbv beta in M1, M2, M3.
  destruct (find_index _ (sanitizers spec)) as [i|]; [by destruct (M1 i eq_refl) as [j ->]|].
  destruct (find_index _ (sinks spec)) as [i|].
  { destruct (M2 i eq_refl) as [j ->]. destruct (find_index _ (sanitizers spec)); simpl; lia. }
  destruct (find_index _ (sources spec)) as [i|]; [|simpl; lia].
  destruct (M3 i eq_refl) as [j ->].
  destruct (find_index _ (sanitizers spec)), (find_index _ (sinks spec)); simpl; lia.
Qed.

(** ** Theorems *)

(** C1: the analysis terminates and reports a flow from [s] to [k] exactly
    when [s] is classified a source and tainted data moves from [s] over Ddg
    edges, past no sanitizer and no earlier hit, to a node that hits the sink
    [k]; one emitted flow is counted per reported flow. *)
Theorem analyze_exact g ast spec fuel :
  graph_wf g -> (node_count g < fuel)%nat ->
  let roles := (classify_all g ast spec).1 in
  exists flows stats, analyze fuel g ast spec = Some (flows, stats) /\
    length flows = flows_emitted stats /\
    forall s k, (exists f, f ∈ flows /\ source_node f = s /\ sink_node f = k) <->
      (exists n, get g s = Some n) /\ role_of roles s = RSource /\
      exists x, steps (carries g roles s) s x /\ hits g roles s x k.
Proof.
  intros Hwf Hf roles. unfold analyze. destruct (node_count g =? 0)%nat eqn:E0.
  { apply Nat.eqb_eq in E0. exists [], no_stats. split; [done|]. split; [done|].
    intros s k. split; [set_solver|]. intros ([n Hn%get_bound] & _). lia. }
  clear E0. subst roles. pose proof (classify_all_no_flows g ast spec) as H0.
  destruct (classify_all g ast spec) as [roles stats] eqn:Ec. simpl in *.
  destruct (analyze_nodes_spec g roles spec fuel (g_nodes g) ([], stats) Hwf)
    as (flows & s & -> & Hc & Hp & _); [|done|].
  { intros n Hn. destruct (node_in_graph g n Hwf Hn) as [_ ?]. lia. }
  exists flows, s. simpl in *. split; [done|]. split; [lia|]. intros src k. rewrite Hp. split.
  - intros [(n & Hn & <- & Hr) Hx]. destruct (node_in_graph g n Hwf Hn). eauto.
  - intros ([n Hn] & Hr & Hx). split; [|done]. exists n.
    split; [|by rewrite (get_id g src n Hwf Hn)].
    apply get_Some in Hn as [_ Hn]. by eapply list_elem_of_lookup_2.
Qed.

(** C2: the path of every reported flow starts at its source, follows Ddg
    edges through nodes that are neither sanitizers nor hits, and ends at a
    node that hits the reported sink, which is appended when it is an
    ancestor; the spec ids are those of the classification. *)
Theorem analyze_paths g ast spec fuel flows stats :
  graph_wf g -> (node_count g < fuel)%nat -> analyze fuel g ast spec = Some (flows, stats) ->
  let roles := (classify_all g ast spec).1 in
  forall f, f ∈ flows ->
    source_spec_id f = spec_id_of src_id (sources spec) (snd (entry_of roles (source_node f))) /\
    sink_spec_id f = spec_id_of snk_id (sinks spec) (snd (entry_of roles (sink_node f))) /\
    exists p, flow_path g roles (source_node f) p /\
      hits g roles (source_node f) (path_end p) (sink_node f) /\
      path f = if bool_decide (path_end p = sink_node f) then p else p ++ [sink_node f].
Proof.
  intros Hwf Hf Ha roles f Hin. unfold analyze in Ha.
  destruct (node_count g =? 0)%nat; [injection Ha as <- <-; by apply not_elem_of_nil in Hin|].
  subst roles. destruct (classify_all g ast spec) as [roles st]. simpl.
  destruct (analyze_nodes_spec g roles spec fuel (g_nodes g) ([], st) Hwf)
    as (new & s & Hrun & _ & _ & Hq); [|done|].
  { intros n Hn. destruct (node_in_graph g n Hwf Hn) as [_ ?]. lia. }
  rewrite Hrun in Ha. injection Ha as <- _.
  destruct (Hq f Hin) as (new' & Hin' & [_ Hsr]). destruct (Hsr f Hin') as (_ & ? & ? & ?). done.
Qed.

(** Roles only grow along the AST: a node whose byte range contains
    another one has a role at least as strong (none < source < sink <
    sanitizer), since patterns are matched against the whole node text. *)
Lemma roles_grow_upwards g ast spec x y nx ny :
  graph_wf g -> get g x = Some nx -> get g y = Some ny ->
  within_range (n_range nx) (n_range ny) ->
  end_byte (n_range ny) <= N.of_nat (length (ast_source ast)) ->
  (role_rank (role_of (classify_all g ast spec).1 x)
   <= role_rank (role_of (classify_all g ast spec).1 y))%nat.
Proof.
  intros Hwf Hx Hy Hr He. unfold role_of.
  rewrite (classify_all_entry g ast spec x nx Hwf Hx), (classify_all_entry g ast spec y ny Hwf Hy).
  destruct (node_text_within ast _ _ Hr He) as (a & b & ->). apply classify_mono.
Qed.

(** Every flow between existing nodes becomes one finding, in order,
    located at the sink with the source and the hops related; whatever the
    matched sink says, its severity is High and it carries no CWE or OWASP
    reference. *)
Lemma flows_to_findings_spec now flows g file :
  Forall (fun f => is_Some (get g (sink_node f)) /\ is_Some (get g (source_node f))) flows ->
  length (flows_to_findings now flows g file) = length flows /\
  forall f snk, f ∈ flows -> get g (sink_node f) = Some snk ->
    exists fd, fd ∈ flows_to_findings now flows g file /\
      rule_id fd = lit "euxis-taint/" ++ source_spec_id f ++ lit "->" ++ sink_spec_id f /\
      primary_location fd = location_of file snk /\
      severity fd = SevHigh /\ cwe fd = None /\ owasp fd = OwaspNone.
Proof.
  intros H. unfold flows_to_findings. split.
  - induction H as [|f flows [[snk Hk] [src Hs]] _ IH]; [done|].
    change (omap (finding_of now g file) (f :: flows))
      with (match finding_of now g file f with
            | Some fd => fd :: omap (finding_of now g file) flows
            | None => omap (finding_of now g file) flows end).
    unfold finding_of at 1. rewrite Hk, Hs. simpl. by rewrite IH.
  - intros f snk Hf Hk. rewrite Forall_forall in H. destruct (H f Hf) as [_ [src Hs]].
    eexists. split; [apply list_elem_of_omap; exists f; split; [done|]|].
    { unfold finding_of. rewrite Hk, Hs. reflexivity. } done.
Qed.

Lemma absorb_str_app h a b : absorb_str h (a ++ b) = absorb_str (absorb_str h a) b.
Proof. apply foldl_app. Qed.

Lemma absorb_range h c : (0 <= absorb h c < 2 ^ 64)%Z.
Proof. apply u64_range. Qed.

Lemma hex16_length v : length (hex16 v) = 16%nat.
Proof. done. Qed.

(** A fingerprint is 32 hexadecimal digits of a 64-bit hash, and the hash
    is taken over the plain concatenation of the four strings: moving bytes
    between neighbouring fields does not change it. *)
Lemma stable_fingerprint_concat r f s k l r' f' s' k' :
  r ++ f ++ s ++ k = r' ++ f' ++ s' ++ k' ->
  stable_fingerprint r f s k l = stable_fingerprint r' f' s' k' l /\
  length (stable_fingerprint r f s k l) = 32%nat /\ (0 <= fnv1a r f s k l < 2 ^ 64)%Z.
Proof.
  intros H. assert (fnv1a r f s k l = fnv1a r' f' s' k' l) as E.
  { unfold fnv1a. rewrite <-!absorb_str_app, <-?app_assoc, H. done. }
  unfold stable_fingerprint. rewrite E. split; [done|]. split; [done|].
  unfold fnv1a. cbn [foldl]. apply absorb_range.
Qed.

(** ** A concrete file

    [fn f() { let x = env::var; g(x); Command::new(y); }]: the tainted [x]
    goes to [g] only. *)
Definition taint_source : str := lit "fn f() { let x = env::var; g(x); Command::new(y); }".
Definition taint_tree : Tree :=
  TNode (lit "function_item", byte_range 0 51)
    [TNode (lit "identifier", byte_range 3 4) [];
     TNode (lit "block", byte_range 7 51)
       [TNode (lit "let_declaration", byte_range 9 26)
          [TNode (lit "identifier", byte_range 13 14) [];
           TNode (lit "scoped_identifier", byte_range 17 25) []];
        TNode (lit "call_expression", byte_range 27 31)
          [TNode (lit "identifier", byte_range 27 28) [];
           TNode (lit "identifier", byte_range 29 30) []];
        TNode (lit "call_expression", byte_range 33 48)
          [TNode (lit "scoped_identifier", byte_range 33 45) [];
           TNode (lit "identifier", byte_range 46 47) []]]].
Definition taint_ast : Ast := mkAst LRust taint_source (preorder taint_tree).
Definition taint_graph : Graph := add_edge (build taint_ast) (mkEdge 4 9 EDdg).

Lemma taint_graph_wf : graph_wf taint_graph.
Proof.
  apply graph_wf_add; [apply build_graph_wf; by vm_compute|done|split; by vm_compute..].
Qed.

(** Because the enclosing block's text contains [Command::new], the block
    is itself a sink, and the use of [x] in the unrelated call [g(x)] is
    reported as a flow into it. *)
Lemma analyze_reports_unrelated_call :
  exists stats, analyze 20 taint_graph taint_ast builtin_specs =
    Some ([mkFlow 4 3 [4; 9; 3] (lit "rs.env_var") (lit "rs.command")], stats) /\
    node_text taint_ast (byte_range 27 31) = lit "g(x)" /\ parent taint_graph 9 = 7 /\
    (n_range <$> get taint_graph 7) = Some (byte_range 27 31).
Proof. eexists. split; [vm_compute; reflexivity|]. by vm_compute. Qed.

Lemma analyze_exact_witness :
  exists flows stats, analyze 20 taint_graph taint_ast builtin_specs = Some (flows, stats) /\
    length flows = flows_emitted stats.
Proof.
  destruct (analyze_exact taint_graph taint_ast builtin_specs 20) as (fl & st & H & Hl & _);
    [exact taint_graph_wf|apply Nat.ltb_lt; by vm_compute|].
  exists fl, st. split; [exact H|exact Hl].
Defined.

Lemma analyze_paths_witness :
  let f := mkFlow 4 3 [4; 9; 3] (lit "rs.env_var") (lit "rs.command") in
  let roles := (classify_all taint_graph taint_ast builtin_specs).1 in
  exists p, flow_path taint_graph roles 4 p /\ hits taint_graph roles 4 (path_end p) 3 /\
    path f = if bool_decide (path_end p = 3) then p else p ++ [3].
Proof.
  intros f roles.
  assert (exists st, analyze 20 taint_graph taint_ast builtin_specs = Some ([f], st)) as [st Ha]
    by (eexists; vm_compute; reflexivity).
  destruct (analyze_paths taint_graph taint_ast builtin_specs 20 [f] st) with (f := f)
    as (_ & _ & Hp); [exact taint_graph_wf|apply Nat.ltb_lt; by vm_compute|exact Ha|by left|].
  exact Hp.
Defined.

Lemma roles_grow_upwards_witness :
  (role_rank (role_of (classify_all taint_graph taint_ast builtin_specs).1 10)
   <= role_rank (role_of (classify_all taint_graph taint_ast builtin_specs).1 3))%nat.
Proof.
  eapply (roles_grow_upwards taint_graph taint_ast builtin_specs 10 3);
    [exact taint_graph_wf|vm_compute; reflexivity|vm_compute; reflexivity|split; by vm_compute|by vm_compute].
Defined.

Lemma flows_to_findings_spec_witness :
  length (flows_to_findings 0 [mkFlow 4 3 [4; 9; 3] (lit "rs.env_var") (lit "rs.command")]
            taint_graph (lit "a.rs")) = 1%nat.
Proof.
  eapply (flows_to_findings_spec 0
    [mkFlow 4 3 [4; 9; 3] (lit "rs.env_var") (lit "rs.command")] taint_graph (lit "a.rs")).
  constructor; [|constructor]. split; vm_compute; by eexists.
Defined.

Lemma stable_fingerprint_concat_witness :
  stable_fingerprint (lit "ab") (lit "c") [] [] 1 = stable_fingerprint (lit "a") (lit "bc") [] [] 1.
Proof. eapply stable_fingerprint_concat. reflexivity. Defined.
