(* ===== verification/AuditLog.v ===== *)
(** * The audit log's hash chain: [libs/bridge/src/audit.cpp]

    An [AuditLogger] appends one JSON line per event; every line carries the
    SHA-256 of the line before it.  The JSON library and the hash are outside
    the sources: [JsonLib] and [Sha256] are their interfaces, with the
    documented behaviour the code relies on as laws.  The POSIX calls of
    [append] are modelled by their possible outcomes ([IoOutcome]), chosen by
    the environment, and the log file by its contents.  The abstract
    specification is a list of lines, each linked to the hash of the previous
    one ([verify_loop]). *)

From Stdlib Require Import ZArith Ascii String Lia.
From stdpp Require Import base list gmap strings.
From S2P Require Import Prelude CxxString Clock Purl.

(** ** Interfaces *)

(** [nlohmann::json], as far as the audit log uses it.  [j_dump] is [None]
    when [dump] throws (a string that is not UTF-8), and [j_value] when
    [value] throws a [type_error].  [j_parse] throws a [parse_error], or
    something else: a number out of range is an [out_of_range]. *)
Inductive Parsed (A : Type) : Type := Value (a : A) | ParseError | OtherError.
Arguments Value {A} _. Arguments ParseError {A}. Arguments OtherError {A}.

Class JsonLib : Type := {
  json : Type;
  j_null : json;
  j_object : json -> Prop;
  j_string : str -> json;
  j_bool : bool -> json;
  j_int : Z -> json;
  j_set : json -> str -> json -> json;
  j_dump : json -> option str;
  j_parse : str -> Parsed json;
  j_value : json -> str -> str -> option str;
}.

Definition newline : ascii := "010"%char.

Class JsonLaws `{JsonLib} : Prop := {
  (** a dumped value parses back to one with the same strings (numbers that are
      not finite come back as null) *)
  dump_parse j s : j_dump j = Some s -> exists j', j_parse s = Value j' /\ forall k d, j_value j' k d = j_value j k d;
  (** an unindented dump is one non-empty line *)
  dump_line j s : j_dump j = Some s -> s <> [] /\ free_of newline s;
  (** setting a member makes null an object and keeps an object one *)
  set_null k v : j_object (j_set j_null k v);
  set_object j k v : j_object j -> j_object (j_set j k v);
  (** a string member just set is read back *)
  value_set j k v d : j_object j -> j_value (j_set j k (j_string v)) k d = Some v;
}.

(** [crypto_hash_sha256]: 32 bytes. *)
Class Sha256 : Type := {
  sha256 : str -> str;
  sha256_length s : length (sha256 s) = 32;
}.

(** ** The logger *)

Definition hex_digit (n : Z) : ascii := nth (Z.to_nat n) (lit "0123456789abcdef") "0"%char.
(** [std::hex], [setfill('0')], [setw(2)] *)
Definition hex_byte (c : ascii) : str := [hex_digit (code c / 16); hex_digit (code c mod 16)].
Definition hex_encode (s : str) : str := flat_map hex_byte s.

Inductive AuditEvent `{JsonLib} : Type :=
| EvLog (event_type skill_name : str) (details : json)
| EvAdmission (skill_name : str) (admitted : bool) (details : json)
| EvExecution (skill_name : str) (exit_code duration_ms : Z) (details : json).

(** What the system calls of one [append] do: [open] fails, [write] fails or
    writes only [n] bytes, [fsync] fails after a full write, or all succeed. *)
Inductive IoOutcome : Type :=
| OpenFails
| WriteShort (n : nat)
| FsyncFails
| Durable.

#[export] Instance IoOutcome_eq_dec : EqDecision IoOutcome.
Proof. solve_decision. Defined.

Record AuditLogger : Type := mkLogger { log_file : option str; prev_hash : str }.

Section audit.
  Context `{JsonLib, !Sha256}.

Definition compute_hash (data : str) : str := hex_encode (sha256 data).

(** [log], [log_admission] and [log_execution] build the entry at time [t]. *)
Definition build_entry (t : Z) (ev : AuditEvent) : json :=
  let e := j_set j_null (lit "timestamp") (j_string (iso8601 t)) in
  match ev with
  | EvLog event_type skill_name details =>
      let e := j_set e (lit "event_type") (j_string event_type) in
      let e := j_set e (lit "skill_name") (j_string skill_name) in
      j_set e (lit "details") details
  | EvAdmission skill_name admitted details =>
      let e := j_set e (lit "event_type") (j_string (lit "admission")) in
      let e := j_set e (lit "skill_name") (j_string skill_name) in
      let e := j_set e (lit "admitted") (j_bool admitted) in
      j_set e (lit "details") details
  | EvExecution skill_name exit_code duration_ms details =>
      let e := j_set e (lit "event_type") (j_string (lit "execution")) in
      let e := j_set e (lit "skill_name") (j_string skill_name) in
      let e := j_set e (lit "exit_code") (j_int exit_code) in
      let e := j_set e (lit "duration_ms") (j_int duration_ms) in
      j_set e (lit "details") details
  end.

Definition file_append (f : option str) (bytes : str) : option str := Some (default [] f ++ bytes).

(** [AuditLogger::append]; [None] when [dump] throws, before any output. *)
Definition append (io : IoOutcome) (entry : json) (l : AuditLogger) : option AuditLogger :=
  let chained := j_set entry (lit "prev_hash") (j_string (prev_hash l)) in
  match j_dump chained with
  | None => None
  | Some serialized =>
      let line := serialized ++ [newline] in
      let new_hash := compute_hash serialized in
      Some (match io with
            | OpenFails => l
            | WriteShort n => mkLogger (file_append (log_file l) (take n line)) (prev_hash l)
            | FsyncFails => mkLogger (file_append (log_file l) line) (prev_hash l)
            | Durable => mkLogger (file_append (log_file l) line) new_hash
            end)
  end.

Definition log_event (io : IoOutcome) (t : Z) (ev : AuditEvent) (l : AuditLogger) :
    option AuditLogger :=
  append io (build_entry t ev) l.

(** The non-empty lines [std::getline] reads. *)
Definition file_lines (f : option str) : list str :=
  List.filter (fun l => negb (bool_decide (l = []))) (split_on newline (default [] f)).

(** The constructor scans an existing log for the chain head. *)
Definition open_logger (f : option str) : AuditLogger :=
  mkLogger f (foldl (fun _ line => compute_hash line) [] (file_lines f)).

Definition chain_head_hash (l : AuditLogger) : str := prev_hash l.

(** [verify_chain]: [Some false] for a broken or corrupted entry, [None] when
    [parse] or [entry.value] throws past the handler. *)
Fixpoint verify_loop (expected_prev_hash : str) (lines : list str) : option bool :=
  match lines with
  | [] => Some true
  | line :: lines =>
      match j_parse line with
      | ParseError => Some false
      | OtherError => None
      | Value entry =>
          match j_value entry (lit "prev_hash") [] with
          | None => None
          | Some entry_prev_hash =>
              if bool_decide (entry_prev_hash = expected_prev_hash)
              then verify_loop (compute_hash line) lines
              else Some false
          end
      end
  end.

Definition verify_chain (f : option str) : option bool := verify_loop [] (file_lines f).

(** A history: each event with its time and what its system calls did. *)
Fixpoint run_events (evs : list (Z * AuditEvent * IoOutcome)) (l : AuditLogger) :
    option AuditLogger :=
  match evs with
  | [] => Some l
  | (t, ev, io) :: evs =>
      match log_event io t ev l with Some l => run_events evs l | None => None end
  end.
End audit.

(** ** Hexadecimal digests *)

Lemma hex_encode_length s : length (hex_encode s) = 2 * length s.
Proof. unfold hex_encode. induction s as [|c s IH]; simpl; [done|]. rewrite IH. lia. Qed.

Lemma hex_byte_inj c d : hex_byte c = hex_byte d -> c = d.
Proof.
  intros E. pose proof (code_range c) as Hc. pose proof (code_range d) as Hd.
  assert (forall i j, (0 <= i < 16)%Z -> (0 <= j < 16)%Z -> hex_digit i = hex_digit j -> i = j) as Hi.
  { intros i j Hi Hj.
    assert (forallb (fun p => bool_decide (hex_digit (fst p) = hex_digit (snd p) -> fst p = snd p))
      (list_prod (Z.of_nat <$> seq 0 16) (Z.of_nat <$> seq 0 16)) = true) as Hall
      by (vm_compute; reflexivity).
    rewrite forallb_forall in Hall. specialize (Hall (i, j)). rewrite bool_decide_eq_true in Hall.
    apply Hall. apply in_prod; apply list_elem_of_In, list_elem_of_fmap;
      [exists (Z.to_nat i)|exists (Z.to_nat j)]; (split; [lia|]; apply elem_of_seq; lia). }
  injection E as E1 E2. apply code_inj.
  pose proof (Z.mod_pos_bound (code c) 16 ltac:(lia)). pose proof (Z.mod_pos_bound (code d) 16 ltac:(lia)).
  pose proof (Z_div_mod_eq_full (code c) 16). pose proof (Z_div_mod_eq_full (code d) 16).
  apply Hi in E1; [|lia..]. apply Hi in E2; lia.
Qed.

Lemma hex_encode_inj s t : hex_encode s = hex_encode t -> s = t.
Proof.
  revert t. induction s as [|c s IH]; intros [|d t]; try done. unfold hex_encode in *.
  cbn [flat_map]. intros E. apply app_inj_1 in E as [E1 E2]; [|done].
  f_equal; [by apply hex_byte_inj|by apply IH].
Qed.

(** ** Log files as lists of lines *)

Definition render (ls : list str) : str := flat_map (fun l => l ++ [newline]) ls.

Definition good_line (l : str) : Prop := l <> [] /\ free_of newline l.

Lemma file_lines_render ls : Forall good_line ls -> file_lines (Some (render ls)) = ls.
Proof.
  unfold file_lines. simpl. induction 1 as [|l ls [Hne Hf] _ IH]; [done|].
  unfold render in *. cbn [flat_map]. rewrite <-app_assoc. cbn [app]. rewrite split_on_app by done.
  cbn [List.filter]. rewrite bool_decide_false by done. cbn [negb]. by rewrite IH.
Qed.

Lemma render_snoc ls l : render (ls ++ [l]) = render ls ++ l ++ [newline].
Proof. unfold render. rewrite flat_map_app. simpl. by rewrite app_nil_r. Qed.

Section chain.
  Context `{JsonLib, !JsonLaws, !Sha256}.

Definition head_hash (ls : list str) : str := foldl (fun _ line => compute_hash line) [] ls.

Lemma head_hash_snoc ls l : head_hash (ls ++ [l]) = compute_hash l.
Proof. unfold head_hash. by rewrite foldl_app. Qed.

Lemma compute_hash_ne s : compute_hash s <> [].
Proof.
  intros E. apply (f_equal length) in E. unfold compute_hash in E.
  rewrite hex_encode_length, sha256_length in E. done.
Qed.

(** The line [l] is a JSON entry linked to [prev]. *)
Definition linked (prev l : str) : Prop :=
  exists e, j_parse l = Value e /\ j_value e (lit "prev_hash") [] = Some prev.

Lemma verify_loop_app prev ls ls' :
  verify_loop prev (ls ++ ls') =
  match verify_loop prev ls with
  | Some true => verify_loop (foldl (fun _ line => compute_hash line) prev ls) ls'
  | r => r
  end.
Proof.
  revert prev. induction ls as [|l ls IH]; intros prev; [done|]. cbn [app verify_loop foldl].
  destruct (j_parse l) as [e| |]; [|done|done]. destruct (j_value e _ _) as [p|]; [|done].
  case_bool_decide; [apply IH|done].
Qed.

Lemma verify_loop_snoc ls l :
  verify_loop [] (ls ++ [l]) = Some true <-> verify_loop [] ls = Some true /\ linked (head_hash ls) l.
Proof.
  rewrite verify_loop_app. destruct (verify_loop [] ls) as [[]|]; try naive_solver.
  fold (head_hash ls). cbn [verify_loop]. unfold linked.
  destruct (j_parse l) as [e| |]; [|naive_solver|naive_solver]. destruct (j_value e _ _) as [p|] eqn:Hv;
    [case_bool_decide|]; split; try done.
  - intros _. split; [done|]. exists e. by subst.
  - intros (_ & e' & [= <-] & He). congruence.
  - intros (_ & e' & [= <-] & He). congruence.
Qed.

(** Entries are objects, so their [prev_hash] can be set and read. *)
Lemma build_entry_object t ev : j_object (build_entry t ev).
Proof.
  destruct ev; unfold build_entry; repeat (apply set_null || apply set_object).
Qed.

(** The logger agrees with its file: the file is a list of lines, the chain
    verifies and [prev_hash] is the hash of the last line. *)
Record consistent (l : AuditLogger) (ls : list str) : Prop := {
  con_file : default [] (log_file l) = render ls;
  con_lines : Forall good_line ls;
  con_chain : verify_loop [] ls = Some true;
  con_head : prev_hash l = head_hash ls;
}.

Lemma file_lines_default f : file_lines f = file_lines (Some (default [] f)).
Proof. by destruct f. Qed.

(** An entry that dumps to [s] is linked to the previous hash. *)
Lemma dumped_linked t ev prev s :
  j_dump (j_set (build_entry t ev) (lit "prev_hash") (j_string prev)) = Some s -> linked prev s.
Proof.
  intros Hs. destruct (dump_parse _ _ Hs) as (e & He & Hv). exists e. split; [done|].
  rewrite Hv. apply value_set, build_entry_object.
Qed.

Lemma durable_consistent l ls t ev l' :
  consistent l ls -> log_event Durable t ev l = Some l' ->
  exists s, consistent l' (ls ++ [s]) /\ linked (head_hash ls) s.
Proof.
  intros [Hf Hg Hc Hh]. unfold log_event, append.
  destruct (j_dump _) as [s|] eqn:Hs; [|done]. intros [= <-]. exists s.
  pose proof (dumped_linked _ _ _ _ Hs) as Hl. rewrite Hh in Hl. split; [|done]. split.
  - simpl. by rewrite Hf, render_snoc.
  - apply Forall_app. split; [done|]. apply Forall_singleton. by eapply dump_line.
  - by apply verify_loop_snoc.
  - simpl. by rewrite head_hash_snoc.
Qed.

(** Outcomes that leave the file and the chain head in step. *)
Definition clean (io : IoOutcome) : bool :=
  match io with Durable | OpenFails | WriteShort 0 => true | _ => false end.
Definition durable (io : IoOutcome) : bool := match io with Durable => true | _ => false end.

Lemma clean_consistent l ls io t ev l' :
  clean io = true -> consistent l ls -> log_event io t ev l = Some l' ->
  exists ls', consistent l' (ls ++ ls') /\ length ls' = if durable io then 1 else 0.
Proof.
  intros Hio Hc Hrun. destruct io as [|[|n]| |]; try done.
  - exists []. rewrite app_nil_r. split; [|done]. unfold log_event, append in Hrun.
    destruct (j_dump _); [|done]. by injection Hrun as <-.
  - exists []. rewrite app_nil_r. split; [|done]. unfold log_event, append in Hrun.
    destruct (j_dump _); [|done]. injection Hrun as <-. destruct Hc as [Hf Hg Hch Hh].
    split; try done. simpl. by rewrite app_nil_r.
  - destruct (durable_consistent _ _ _ _ _ Hc Hrun) as (s & Hs & _). by exists [s].
Qed.

Lemma run_consistent evs l ls l' :
  Forall (fun p => clean (snd p) = true) evs -> consistent l ls -> run_events evs l = Some l' ->
  exists ls', consistent l' (ls ++ ls')
    /\ length ls' = length (List.filter (fun p => durable (snd p)) evs).
Proof.
  intros Hev. revert l ls. induction Hev as [|[[t ev] io] evs Hio _ IH]; intros l ls Hc.
  - intros [= <-]. exists []. by rewrite app_nil_r.
  - cbn [run_events]. destruct (log_event io t ev l) as [l1|] eqn:E; [|done]. intros Hrun.
    destruct (clean_consistent _ _ _ _ _ _ Hio Hc E) as (ls1 & Hc1 & Hl1).
    destruct (IH _ _ Hc1 Hrun) as (ls2 & Hc2 & Hl2). exists (ls1 ++ ls2).
    rewrite app_assoc. split; [done|]. rewrite length_app, Hl1, Hl2. simpl.
    by destruct (durable io).
Qed.

Lemma open_consistent f ls :
  default [] f = render ls -> Forall good_line ls -> verify_loop [] ls = Some true ->
  consistent (open_logger f) ls.
Proof.
  intros Hf Hg Hc. split; try done. unfold open_logger. simpl.
  by rewrite file_lines_default, Hf, file_lines_render.
Qed.

Lemma consistent_verify l ls : consistent l ls -> verify_chain (log_file l) = Some true.
Proof.
  intros [Hf Hg Hc Hh]. unfold verify_chain. by rewrite file_lines_default, Hf, file_lines_render.
Qed.

(** Appends that leave whole lines only extend the list of lines. *)
Definition rendered (l : AuditLogger) (ls : list str) : Prop :=
  default [] (log_file l) = render ls /\ Forall good_line ls.

Lemma log_event_rendered io t ev l l' ls :
  clean io || bool_decide (io = FsyncFails) = true -> rendered l ls -> log_event io t ev l = Some l' ->
  exists ls', rendered l' (ls ++ ls') /\
    (io = FsyncFails -> prev_hash l' = prev_hash l) /\
    (durable io || bool_decide (io = FsyncFails) = true ->
     exists s, ls' = [s] /\ linked (prev_hash l) s).
Proof.
  intros Hio [Hf Hg]. unfold log_event, append. destruct (j_dump _) as [s|] eqn:Hs; [|done].
  intros [= <-]. destruct (dump_line _ _ Hs) as [Hne Hnl].
  destruct io as [|[|n]| |]; try done.
  - exists []. rewrite app_nil_r. split; [by split|]. by split.
  - exists []. rewrite app_nil_r. split; [split; [simpl; by rewrite app_nil_r|done]|]. by split.
  - exists [s]. split; [split|].
    + simpl. by rewrite Hf, render_snoc.
    + apply Forall_app. split; [done|]. by apply Forall_singleton.
    + split; [done|]. intros _. exists s. split; [done|]. by eapply dumped_linked.
  - exists [s]. split; [split|].
    + simpl. by rewrite Hf, render_snoc.
    + apply Forall_app. split; [done|]. by apply Forall_singleton.
    + split; [done|]. intros _. exists s. split; [done|]. by eapply dumped_linked.
Qed.

Lemma run_events_rendered evs l ls l' :
  Forall (fun p => clean (snd p) = true) evs -> rendered l ls -> run_events evs l = Some l' ->
  exists ls', rendered l' (ls ++ ls').
Proof.
  intros Hev. revert l ls. induction Hev as [|[[t ev] io] evs Hio _ IH]; intros l ls Hr.
  - intros [= <-]. exists []. by rewrite app_nil_r.
  - cbn [run_events]. destruct (log_event io t ev l) as [l1|] eqn:E; [|done]. intros Hrun.
    simpl in Hio. destruct (log_event_rendered io t ev l l1 ls) as (ls1 & Hr1 & _); [by rewrite Hio|done..|].
    destruct (IH _ _ Hr1 Hrun) as (ls2 & Hr2). exists (ls1 ++ ls2). by rewrite app_assoc.
Qed.

Lemma rendered_lines l ls : rendered l ls -> file_lines (log_file l) = ls.
Proof. intros [Hf Hg]. by rewrite file_lines_default, Hf, file_lines_render. Qed.

(** Two verified chains with the same head hash. *)
Lemma chains_agree ls ls' :
  verify_loop [] ls = Some true -> verify_loop [] ls' = Some true ->
  head_hash ls = head_hash ls' ->
  ls = ls' \/ exists x y, x ∈ ls /\ y ∈ ls' /\ x <> y /\ compute_hash x = compute_hash y.
Proof.
  revert ls'. induction ls as [|a ls IH] using rev_ind; intros ls' Hv Hv' Hh.
  - destruct ls' as [|b ls' _] using rev_ind; [by left|].
    rewrite head_hash_snoc in Hh. exfalso. by apply (compute_hash_ne b).
  - destruct ls' as [|b ls' _] using rev_ind.
    { rewrite head_hash_snoc in Hh. exfalso. by apply (compute_hash_ne a). }
    rewrite !head_hash_snoc in Hh. apply verify_loop_snoc in Hv as [Hv [e [Hp He]]].
    apply verify_loop_snoc in Hv' as [Hv' [e' [Hp' He']]].
    destruct (decide (a = b)) as [->|Hne].
    + assert (e' = e) as -> by congruence. assert (head_hash ls = head_hash ls') as E by congruence.
      destruct (IH ls' Hv Hv' E) as [->|(x & y & ? & ? & ?)]; [by left|]. right. exists x, y.
      rewrite !elem_of_app. auto.
    + right. exists a, b. rewrite !elem_of_app, !list_elem_of_singleton. auto.
Qed.
End chain.

(** ** Theorems *)

Section theorems.
  Context `{JsonLib, !JsonLaws, !Sha256}.

(** C9: whatever events are logged, and as long as each append either
    completes or puts no byte in the file, the log verifies, a logger opened
    on it has the same chain head, and it has one line per completed append. *)
Theorem audit_chain_verifies evs l :
  Forall (fun p => clean (snd p) = true) evs ->
  run_events evs (open_logger None) = Some l ->
  verify_chain (log_file l) = Some true /\
  chain_head_hash (open_logger (log_file l)) = chain_head_hash l /\
  length (file_lines (log_file l)) = length (List.filter (fun p => durable (snd p)) evs).
Proof.
  intros Hev Hrun.
  destruct (run_consistent evs (open_logger None) [] l Hev) as (ls & Hc & Hl);
    [by apply open_consistent; [|constructor|]|done|].
  simpl in Hc. split; [by eapply consistent_verify|].
  destruct Hc as [Hf Hg Hc Hh].
  assert (file_lines (log_file l) = ls) as E
    by (by rewrite file_lines_default, Hf, file_lines_render).
  split; [|by rewrite E]. unfold chain_head_hash, open_logger. simpl. by rewrite E, Hh.
Qed.

(** C10: the chain is tamper evident: two log files that both verify and have
    the same chain head have the same entries, or two different lines collide
    under the hash. *)
Theorem audit_tamper_evident f f' :
  verify_chain f = Some true -> verify_chain f' = Some true ->
  chain_head_hash (open_logger f) = chain_head_hash (open_logger f') ->
  file_lines f = file_lines f' \/
  exists x y, x ∈ file_lines f /\ y ∈ file_lines f' /\ x <> y /\ compute_hash x = compute_hash y.
Proof. intros Hv Hv' Hh. by apply chains_agree. Qed.

(** An append whose [fsync] fails leaves its line in the file but keeps
    the old chain head, so the next completed append makes the log fail
    verification for good. *)
Lemma audit_fsync_failure_breaks_chain t ev t' ev' l l' :
  log_event FsyncFails t ev (open_logger None) = Some l ->
  log_event Durable t' ev' l = Some l' ->
  verify_chain (log_file l') = Some false /\
  forall evs l'', Forall (fun p => clean (snd p) = true) evs ->
    run_events evs l' = Some l'' -> verify_chain (log_file l'') = Some false.
Proof.
  intros Hfs Hdu.
  destruct (log_event_rendered FsyncFails t ev (open_logger None) l []) as (ls1 & Hr1 & Hp & Hl1);
    [done|by split; [|constructor]|done|].
  destruct Hl1 as (s & -> & Hl0); [done|]. specialize (Hp eq_refl).
  destruct (log_event_rendered Durable t' ev' l l' [s]) as (ls2 & Hr2 & _ & Hl2); [done..|].
  destruct Hl2 as (s' & -> & Hl); [done|].
  assert (verify_loop [] ([s] ++ [s']) <> Some true) as Hno.
  { rewrite verify_loop_snoc. intros [_ Hl']. destruct Hl as (e & He & Hv), Hl' as (e' & He' & Hv').
    rewrite He in He'. injection He' as <-. rewrite Hv in Hv'. injection Hv' as E.
    rewrite Hp in E. change ([s]) with ([] ++ [s]) in E. rewrite head_hash_snoc in E.
    by apply (compute_hash_ne s). }
  assert (verify_loop [] ([s] ++ [s']) = Some false) as Hfalse.
  { destruct Hl as (e & He & Hv).
    destruct Hl0 as (e0 & He0 & Hv0).
    change (prev_hash (open_logger None)) with ([] : str) in Hv0.
    assert (verify_loop [] ([s] ++ [s']) =
      if bool_decide (prev_hash l = compute_hash s) then Some true else Some false) as E.
    { cbn [app verify_loop]. by rewrite He0, Hv0, bool_decide_true, He, Hv. }
    rewrite E in *. by case_bool_decide. }
  split; [unfold verify_chain; by rewrite (rendered_lines _ _ Hr2)|].
  intros evs l'' Hev Hrun. destruct (run_events_rendered _ _ _ _ Hev Hr2 Hrun) as (ls3 & Hr3).
  unfold verify_chain. by rewrite (rendered_lines _ _ Hr3), verify_loop_app, Hfalse.
Qed.
End theorems.

(** ** A concrete library

    Objects as member lists; a dump lists the members percent-encoded, with
    separators the encoding never produces. *)

Definition toy_piece (kv : str * str) : str :=
  percent_encode_segment (fst kv) ++ "="%char :: percent_encode_segment (snd kv).
Definition toy_dump (j : list (str * str)) : str := "{"%char :: join_with ";" (toy_piece <$> j).
Definition toy_unpiece (p : str) : str * str :=
  match split_on "=" p with
  | [k; v] => (percent_decode_segment k, percent_decode_segment v)
  | _ => ([], [])
  end.
Definition toy_parse (s : str) : Parsed (list (str * str)) :=
  match s with
  | c :: s => if char_is "{" c then
                Value (if bool_decide (s = []) then [] else toy_unpiece <$> split_on ";" s)
              else ParseError
  | [] => ParseError
  end.

Lemma toy_unpiece_piece kv : toy_unpiece (toy_piece kv) = kv.
Proof.
  destruct kv as [k v]. unfold toy_unpiece, toy_piece. simpl.
  rewrite split_on_app by (by apply encode_free).
  rewrite split_on_free_id by (by apply encode_free). by rewrite !decode_encode.
Qed.

Lemma toy_piece_free c kv : enc_char c = false -> c <> "="%char -> free_of c (toy_piece kv).
Proof.
  intros Hc Hne Hin. unfold toy_piece in Hin. apply elem_of_app in Hin as [Hin|[->|Hin]%elem_of_cons].
  - by eapply encode_free.
  - done.
  - by eapply encode_free.
Qed.

Lemma toy_parse_dump j : toy_parse (toy_dump j) = Value j.
Proof.
  unfold toy_parse, toy_dump. change (char_is "{" "{") with true. cbv iota.
  destruct j as [|kv j]; [done|]. f_equal.
  rewrite bool_decide_false.
  2: { intros E. apply (f_equal (split_on ";")) in E. rewrite split_join in E.
       - simpl in E. injection E as E _. unfold toy_piece in E. by destruct (percent_encode_segment _).
       - done.
       - apply Forall_forall. intros p (x & -> & _)%list_elem_of_fmap. apply toy_piece_free; [reflexivity|discriminate]. }
  rewrite split_join; [|done|].
  - rewrite <-list_fmap_compose. rewrite <-(list_fmap_id (kv :: j)) at 2. apply list_fmap_ext.
    intros _ x _. apply toy_unpiece_piece.
  - apply Forall_forall. intros p (x & -> & _)%list_elem_of_fmap. apply toy_piece_free; [reflexivity|discriminate].
Qed.

Lemma join_free c d ws : c <> d -> Forall (free_of c) ws -> free_of c (join_with d ws).
Proof.
  intros Hne H. induction H as [|w ws Hw H IH]; [apply not_elem_of_nil|].
  destruct ws as [|w' ws]; [done|]. rewrite join_with_cons2. unfold free_of in *. set_solver.
Qed.

Lemma toy_dump_line j : toy_dump j <> [] /\ free_of newline (toy_dump j).
Proof.
  split; [done|]. unfold toy_dump, free_of. intros [E|Hin]%elem_of_cons; [done|].
  revert Hin. apply join_free; [done|]. apply Forall_forall.
  intros p (x & -> & _)%list_elem_of_fmap. apply toy_piece_free; [reflexivity|discriminate].
Qed.

#[local] Instance toy_json : JsonLib := {|
  json := list (str * str);
  j_null := [];
  j_object := fun _ => True;
  j_string := fun v => [([], v)];
  j_bool := fun b => [([], if b then lit "true" else lit "false")];
  j_int := fun z => [([], to_string_Z z)];
  j_set := fun j k w => (k, match w with (_, v) :: _ => v | [] => [] end) :: j;
  j_dump := fun j => Some (toy_dump j);
  j_parse := toy_parse;
  j_value := fun j k d =>
    Some (default d (snd <$> List.find (fun kv => bool_decide (fst kv = k)) j));
|}.

#[local] Instance toy_json_laws : JsonLaws.
Proof.
  split; cbn; try done.
  - intros j s [= <-]. exists j. by rewrite toy_parse_dump.
  - intros j s [= <-]. apply toy_dump_line.
  - intros j k v d _. by rewrite bool_decide_true.
Qed.

Definition toy_digest (s : str) : str := take 32 (s ++ replicate 32 "0"%char).
Lemma toy_digest_length s : length (toy_digest s) = 32.
Proof. unfold toy_digest. rewrite length_take, length_app, length_replicate. lia. Qed.
#[local] Instance toy_sha : Sha256 :=
  {| sha256 := toy_digest; sha256_length := toy_digest_length |}.

Definition sample_event : AuditEvent := EvAdmission (lit "skill") true [].

Lemma toy_log_event io t ev l : exists l', log_event io t ev l = Some l'.
Proof. by eexists. Qed.

Lemma audit_chain_verifies_witness :
  exists l, run_events [(0%Z, sample_event, Durable); (1%Z, sample_event, OpenFails)]
              (open_logger None) = Some l /\
    verify_chain (log_file l) = Some true.
Proof.
  destruct (toy_log_event Durable 0 sample_event (open_logger None)) as [l1 H1].
  destruct (toy_log_event OpenFails 1 sample_event l1) as [l2 H2].
  assert (run_events [(0%Z, sample_event, Durable); (1%Z, sample_event, OpenFails)]
            (open_logger None) = Some l2) as Hrun.
  { cbn [run_events]. rewrite H1. rewrite H2. reflexivity. }
  exists l2. split; [exact Hrun|].
  eapply (audit_chain_verifies [(0%Z, sample_event, Durable); (1%Z, sample_event, OpenFails)] l2);
    [repeat constructor|exact Hrun].
Defined.

(** Two logs of two entries; the digest only looks at the beginning of a line,
    so that the two first lines, which name different skills, collide. *)
Definition log_of (skill : string) : option str :=
  match run_events [(0%Z, EvAdmission (lit skill) true [], Durable); (1%Z, sample_event, Durable)] (open_logger None) with
  | Some l => log_file l
  | None => None
  end.

Lemma audit_tamper_evident_witness :
  length (file_lines (log_of "reader")) = 2 /\ length (file_lines (log_of "writer")) = 2 /\
  verify_chain (log_of "reader") = Some true /\ verify_chain (log_of "writer") = Some true /\
  exists x y, x ∈ file_lines (log_of "reader") /\ y ∈ file_lines (log_of "writer") /\ x <> y /\
    compute_hash x = compute_hash y.
Proof.
  split; [vm_compute; reflexivity|]. split; [vm_compute; reflexivity|].
  split; [vm_compute; reflexivity|]. split; [vm_compute; reflexivity|].
  destruct (audit_tamper_evident (log_of "reader") (log_of "writer")) as [E|Hc];
    [vm_compute; reflexivity|vm_compute; reflexivity|vm_compute; reflexivity| |exact Hc].
  vm_compute in E. discriminate E.
Defined.

Lemma audit_fsync_failure_witness :
  exists l l', log_event FsyncFails 0 sample_event (open_logger None) = Some l /\
    log_event Durable 1 sample_event l = Some l' /\ verify_chain (log_file l') = Some false.
Proof.
  destruct (toy_log_event FsyncFails 0 sample_event (open_logger None)) as [l H1].
  destruct (toy_log_event Durable 1 sample_event l) as [l' H2].
  exists l, l'. split; [exact H1|]. split; [exact H2|].
  apply (audit_fsync_failure_breaks_chain 0 sample_event 1 sample_event l l' H1 H2).
Defined.
