(* ===== verification/CapToken.v ===== *)
(** * Agent capability tokens: [libs/bridge/src/policy.cpp]

    A token carries an agent's grants and an HMAC over their canonical string.
    HMAC-SHA256 is outside the sources: [Hmac] is its interface (a 32-byte
    value per key and message; verification compares it).  [read_hex2] models
    the stream extraction [iss >> std::hex >> byte] that [hex_decode] applies
    to each two-character piece, which also accepts blanks and signs. *)

From Stdlib Require Import ZArith Ascii String Lia.
From stdpp Require Import base list gmap strings pretty.
From S2P Require Import Prelude CxxString Clock Doubles Json AuditLog.

Class Hmac (Key : Type) : Type := {
  hmac : Key -> str -> str;
  hmac_length k m : length (hmac k m) = 32;
}.

Record AgentCapabilityToken : Type := mkToken {
  agent_id : str;
  session_id : str;
  allowed_providers : list str;
  allowed_tools : list str;
  max_token_budget : Z;
  filesystem_read_only : bool;
  network_deny_all : bool;
  issued_at : str;
  expires_at : str;
  hmac_signature : str;
}.

(** The [join] lambda with delimiter [","]. *)
Definition join_comma (v : list str) : str := join_with "," v.

Definition flag (b : bool) : str := if b then lit "1" else lit "0".

Definition canonical_string (t : AgentCapabilityToken) : str :=
  agent_id t ++ lit ":" ++ session_id t ++ lit ":" ++ join_comma (allowed_providers t) ++ lit ":"
  ++ join_comma (allowed_tools t) ++ lit ":" ++ to_string_Z (max_token_budget t) ++ lit ":"
  ++ flag (filesystem_read_only t) ++ lit ":" ++ flag (network_deny_all t) ++ lit ":"
  ++ issued_at t ++ lit ":" ++ expires_at t.

(** [AgentCapabilityToken::to_json] and [from_json]. *)
Definition token_to_json `{Json} (t : AgentCapabilityToken) : jv :=
  object [(lit "agent_id", jstr (agent_id t)); (lit "session_id", jstr (session_id t));
          (lit "allowed_providers", jstrs (allowed_providers t));
          (lit "allowed_tools", jstrs (allowed_tools t));
          (lit "max_token_budget", jint (max_token_budget t));
          (lit "filesystem_read_only", jbool (filesystem_read_only t));
          (lit "network_deny_all", jbool (network_deny_all t));
          (lit "issued_at", jstr (issued_at t)); (lit "expires_at", jstr (expires_at t));
          (lit "hmac_signature", jstr (hmac_signature t))].

Definition token_from_json `{Json} (j : jv) : option AgentCapabilityToken :=
  agent ← value get_string j "agent_id" [];
  session ← value get_string j "session_id" [];
  providers ← value get_strings j "allowed_providers" [];
  tools ← value get_strings j "allowed_tools" [];
  budget ← value get_int j "max_token_budget" 4096%Z;
  ro ← value get_bool j "filesystem_read_only" true;
  deny ← value get_bool j "network_deny_all" true;
  issued ← value get_string j "issued_at" [];
  expires ← value get_string j "expires_at" [];
  sig ← value get_string j "hmac_signature" [];
  Some (mkToken agent session providers tools budget ro deny issued expires sig).

Definition hex_value (c : ascii) : option Z :=
  if isdigit c then Some (code c - 48)%Z
  else if between "a" c "f" then Some (code c - 87)%Z
  else if between "A" c "F" then Some (code c - 55)%Z
  else None.

(** [iss >> std::hex >> byte] on a stream of two characters: leading blanks
    are skipped, a sign is accepted (a negative value wraps to 32 bits), and
    reading stops at the first character that is no digit. *)
Definition read_hex2 (a b : ascii) : option Z :=
  if isspace a then hex_value b
  else if bool_decide (a = "+"%char) then hex_value b
  else if bool_decide (a = "-"%char) then (fun v => u32 (- v)) <$> hex_value b
  else match hex_value a, hex_value b with
       | Some x, Some y => Some (16 * x + y)%Z
       | Some x, None =>
           if bool_decide (a = "0"%char) && (bool_decide (b = "x"%char) || bool_decide (b = "X"%char))
           then None else Some x
       | None, _ => None
       end.

Fixpoint hex_decode_pairs (hex : str) : option str :=
  match hex with
  | a :: b :: hex =>
      match read_hex2 a b, hex_decode_pairs hex with
      | Some v, Some out => Some (chr v :: out)
      | _, _ => None
      end
  | _ => Some []
  end.
Definition hex_decode (hex : str) (out_len : nat) : option str :=
  if (length hex =? out_len * 2)%nat then hex_decode_pairs hex else None.

Section token.
  Context {Key : Type} `{!Hmac Key}.

(** [t1] and [t2] are the two clock reads of the function. *)
Definition issue_capability_token (t1 t2 : Z) (agent session : str) (providers tools : list str)
    (budget : Z) (signing_key : Key) : AgentCapabilityToken :=
  let token := mkToken agent session providers tools budget true true
                 (iso8601 t1) (iso8601 (t2 + 3600)) [] in
  let mac := hmac signing_key (canonical_string token) in
  mkToken agent session providers tools budget true true
    (iso8601 t1) (iso8601 (t2 + 3600)) (hex_encode mac).

Definition verify_capability_token (now : Z) (token : AgentCapabilityToken) (signing_key : Key) :
    bool :=
  if negb (bool_decide (expires_at token = []))
     && negb (str_ltb (iso8601 now) (expires_at token)) then false
  else match hex_decode (hmac_signature token) 32 with
       | None => false
       | Some expected_mac => bool_decide (expected_mac = hmac signing_key (canonical_string token))
       end.
End token.

(** ** Hexadecimal round trip *)

Lemma hex_value_digit n : (0 <= n < 16)%Z -> hex_value (hex_digit n) = Some n.
Proof.
  intros Hn. assert (forallb (fun i => bool_decide (hex_value (hex_digit i) = Some i))
    (Z.of_nat <$> seq 0 16) = true) as H by (vm_compute; reflexivity).
  rewrite forallb_forall in H. specialize (H n). rewrite bool_decide_eq_true in H. apply H.
  apply list_elem_of_In, list_elem_of_fmap. exists (Z.to_nat n). split; [lia|]. apply elem_of_seq. lia.
Qed.

Lemma hex_digit_plain n : (0 <= n < 16)%Z ->
  isspace (hex_digit n) = false /\ hex_digit n <> "+"%char /\ hex_digit n <> "-"%char.
Proof.
  intros Hn. assert (forallb (fun i => negb (isspace (hex_digit i))
    && negb (bool_decide (hex_digit i = "+"%char)) && negb (bool_decide (hex_digit i = "-"%char)))
    (Z.of_nat <$> seq 0 16) = true) as H by (vm_compute; reflexivity).
  rewrite forallb_forall in H. specialize (H n).
  rewrite !andb_true_iff, !negb_true_iff, !bool_decide_eq_false in H.
  destruct H as [[? ?] ?]; [|done].
  apply list_elem_of_In, list_elem_of_fmap. exists (Z.to_nat n). split; [lia|]. apply elem_of_seq. lia.
Qed.

Lemma hex_decode_encode s : hex_decode_pairs (hex_encode s) = Some s.
Proof.
  unfold hex_encode. induction s as [|c s IH]; [done|]. cbn [flat_map hex_byte app hex_decode_pairs].
  rewrite IH. pose proof (code_range c) as Hc. pose proof (Z.mod_pos_bound (code c) 16 ltac:(lia)) as Hm.
  pose proof (Z_div_mod_eq_full (code c) 16) as Hd. assert (0 <= code c / 16 < 16)%Z as Hq by lia.
  destruct (hex_digit_plain _ Hq) as (Hs & Hp & Hn). unfold read_hex2.
  rewrite Hs, (bool_decide_false _ Hp), (bool_decide_false _ Hn), !hex_value_digit by done.
  rewrite <-Hd. by rewrite chr_code.
Qed.

(** ** The canonical string *)

Lemma cut_inj c a b x y :
  free_of c a -> free_of c b -> a ++ c :: x = b ++ c :: y -> a = b /\ x = y.
Proof.
  unfold free_of. revert b. induction a as [|d a IH]; intros [|e b] Ha Hb E; simplify_eq/=.
  - done.
  - set_solver.
  - set_solver.
  - destruct (IH b) as [-> ->]; [set_solver..|done|done].
Qed.

(** An item of a list in the canonical string. *)
Definition item_ok (s : str) : Prop := s <> [] /\ free_of "," s /\ free_of ":" s.

Lemma join_comma_inj v w :
  Forall item_ok v -> Forall item_ok w -> join_comma v = join_comma w -> v = w.
Proof.
  assert (forall v, Forall item_ok v -> v <> [] -> join_comma v <> []) as Hne.
  { intros [|x u] Hu Hu0; [done|]. apply Forall_cons in Hu as [[Hx _] _].
    unfold join_comma. destruct u; simpl; [done|]. by destruct x. }
  assert (forall v, Forall item_ok v -> Forall (free_of ",") v) as Hfree.
  { intros u Hu. eapply Forall_impl; [exact Hu|]. by intros x (_ & ? & _). }
  intros Hv Hw E. destruct (decide (v = [])) as [->|Hv0].
  - destruct (decide (w = [])) as [->|Hw0]; [done|]. exfalso. by apply (Hne w).
  - destruct (decide (w = [])) as [->|Hw0]; [exfalso; by apply (Hne v)|].
    unfold join_comma in E. rewrite <-(split_join "," v), <-(split_join "," w) by auto. by rewrite E.
Qed.

Lemma join_comma_free v : Forall item_ok v -> free_of ":" (join_comma v).
Proof.
  intros Hv. apply join_free; [done|]. eapply Forall_impl; [exact Hv|]. by intros x (_ & _ & ?).
Qed.

Lemma to_string_Z_free c z : isdigit c = false -> c <> "-"%char -> free_of c (to_string_Z z).
Proof.
  intros Hc Hm. unfold to_string_Z. destruct z as [|p|p].
  - intros Hin. change (lit (pretty 0%Z)) with ["0"%char] in Hin.
    apply list_elem_of_singleton in Hin as ->. done.
  - replace (pretty (Z.pos p)) with (pretty (N.of_nat (Pos.to_nat p))) by (by rewrite positive_nat_N).
    by apply to_string_nat_free.
  - change (pretty (Z.neg p)) with (String "-" (pretty (N.pos p))).
    unfold lit. cbn [list_ascii_of_string]. intros [->|Hin]%elem_of_cons; [done|].
    replace (N.pos p) with (N.of_nat (Pos.to_nat p)) in Hin by (by rewrite positive_nat_N).
    by eapply to_string_nat_free.
Qed.

(** Fields that cannot be confused with the separators. *)
Record token_ok (t : AgentCapabilityToken) : Prop := {
  ok_agent : free_of ":" (agent_id t);
  ok_session : free_of ":" (session_id t);
  ok_providers : Forall item_ok (allowed_providers t);
  ok_tools : Forall item_ok (allowed_tools t);
  ok_issued : length (issued_at t) = 20;
}.

Lemma flag_free b : free_of ":" (flag b).
Proof. intros Hin. destruct b; apply list_elem_of_singleton in Hin; done. Qed.

Lemma flag_inj b b' : flag b = flag b' -> b = b'.
Proof. by destruct b, b'. Qed.

Lemma token_json_roundtrip `{Json, !JsonOk} t :
  int32 (max_token_budget t) -> token_from_json (token_to_json t) = Some t.
Proof.
  destruct t. intros Hb. unfold token_from_json, token_to_json.
  cbn [agent_id session_id allowed_providers allowed_tools max_token_budget filesystem_read_only
    network_deny_all issued_at expires_at hmac_signature] in *.
  read_fields. rewrite get_int_int by done. done.
Qed.

(** ** Theorems *)

(** A token that was issued verifies under its key exactly as long as the
    clock is before the hour that follows its issue is over. *)
Lemma issue_then_verify {Key : Type} `{!Hmac Key} t1 t2 now agent session providers tools
    budget (key : Key) :
  (0 <= t2)%Z -> (0 <= now)%Z -> clock_range (t2 + 3600) -> clock_range now ->
  verify_capability_token now (issue_capability_token t1 t2 agent session providers tools budget key)
    key = (now <? t2 + 3600)%Z.
Proof.
  intros Ht Hn Hr Hr'. unfold verify_capability_token, issue_capability_token.
  cbn [expires_at hmac_signature canonical_string agent_id session_id allowed_providers allowed_tools
    max_token_budget filesystem_read_only network_deny_all issued_at].
  assert (iso8601 (t2 + 3600) <> []) as Hne by apply iso8601_ne.
  rewrite bool_decide_false by done. cbn [negb andb].
  unfold hex_decode. rewrite hex_encode_length, hmac_length. cbn [Nat.eqb Nat.mul Nat.add].
  rewrite hex_decode_encode, bool_decide_true by done.
  destruct (now <? t2 + 3600)%Z eqn:E.
  - apply Z.ltb_lt in E. by rewrite iso8601_mono.
  - apply Z.ltb_ge in E. destruct (decide (now = t2 + 3600)%Z) as [->|Hd].
    + by rewrite str_ltb_irrefl.
    + rewrite str_ltb_asym; [done|]. apply iso8601_mono; [lia|done].
Qed.

(** For fields without the separators the canonical string determines
    every granted right, so one MAC stands for one set of grants. *)
Lemma canonical_string_inj t t' :
  token_ok t -> token_ok t' -> canonical_string t = canonical_string t' ->
  agent_id t = agent_id t' /\ session_id t = session_id t' /\
  allowed_providers t = allowed_providers t' /\ allowed_tools t = allowed_tools t' /\
  max_token_budget t = max_token_budget t' /\
  filesystem_read_only t = filesystem_read_only t' /\ network_deny_all t = network_deny_all t' /\
  issued_at t = issued_at t' /\ expires_at t = expires_at t'.
Proof.
  intros [A1 A2 A3 A4 A5] [B1 B2 B3 B4 B5] E. unfold canonical_string in E.
  cbn [lit list_ascii_of_string app] in E.
  apply cut_inj in E as [E1 E]; [|done..]. apply cut_inj in E as [E2 E]; [|done..].
  apply cut_inj in E as [E3 E]; [|by apply join_comma_free..].
  apply cut_inj in E as [E4 E]; [|by apply join_comma_free..].
  apply cut_inj in E as [E5 E]; [|by apply to_string_Z_free..].
  apply cut_inj in E as [E6 E]; [|apply flag_free..].
  apply cut_inj in E as [E7 E]; [|apply flag_free..].
  apply app_inj_1 in E as [E8 E9]; [|by rewrite A5, B5].
  split_and!; try done.
  - by apply join_comma_inj.
  - by apply join_comma_inj.
  - by apply lit_inj, (inj pretty) in E5.
  - by apply flag_inj.
  - by apply flag_inj.
  - by injection E9.
Qed.

(** Without that restriction tokens can be confused: a token granting
    the single tool ["read,write"] has the same canonical string as one
    granting [read] and [write], so the same MAC verifies for both. *)
Lemma capability_token_confusion {Key : Type} `{!Hmac Key} now (key : Key) sig :
  let t tools := mkToken (lit "agent") (lit "s1") [] tools 4096 true true [] [] sig in
  verify_capability_token now (t [lit "read,write"]) key
  = verify_capability_token now (t [lit "read"; lit "write"]) key /\
  verify_capability_token now
    (mkToken (lit "agent") (lit "s1") [] [lit "read,write"] 4096 true true [] []
       (hex_encode (hmac key (canonical_string (t [lit "read"; lit "write"]))))) key = true.
Proof.
  intros t. assert (canonical_string (t [lit "read,write"])
    = canonical_string (t [lit "read"; lit "write"])) as E by reflexivity.
  split; unfold verify_capability_token; cbn [expires_at].
  - rewrite bool_decide_true by done. cbn [negb andb]. rewrite E. done.
  - rewrite bool_decide_true by done. cbn [negb andb hmac_signature]. unfold hex_decode.
    rewrite hex_encode_length, hmac_length. cbn [Nat.eqb Nat.mul Nat.add].
    rewrite hex_decode_encode. by apply bool_decide_true.
Qed.

(** ** Witnesses *)

Definition toy_mac (k m : str) : str := take 32 (k ++ m ++ replicate 32 "0"%char).
Lemma toy_mac_length k m : length (toy_mac k m) = 32.
Proof. unfold toy_mac. rewrite length_take, !length_app, length_replicate. lia. Qed.
#[local] Instance toy_hmac : Hmac str := {| hmac := toy_mac; hmac_length := toy_mac_length |}.

Lemma issue_then_verify_witness :
  verify_capability_token 10
    (issue_capability_token 5 5 (lit "a") (lit "s") [lit "p"] [lit "t"] 100 (lit "key")) (lit "key")
  = true.
Proof.
  rewrite issue_then_verify; [reflexivity|lia|lia|split; vm_compute; discriminate..].
Defined.

Definition sample_token : AgentCapabilityToken :=
  issue_capability_token 5 5 (lit "a") (lit "s") [lit "p"] [lit "t"; lit "u"] 100 (lit "key").

Lemma sample_token_ok : token_ok sample_token.
Proof.
  split; try (repeat constructor); try reflexivity; try discriminate;
    (intros Hin; repeat (apply elem_of_cons in Hin as [Hin|Hin]; [discriminate|]);
     by apply not_elem_of_nil in Hin).
Qed.

Lemma canonical_string_inj_witness : allowed_tools sample_token = allowed_tools sample_token.
Proof.
  eapply (canonical_string_inj sample_token sample_token);
    [exact sample_token_ok|exact sample_token_ok|reflexivity].
Defined.
