(* ===== verification/CredentialPool.v ===== *)
(** * Provider failover: [libs/core/src/credential_pool.cpp]

    The failure taxonomy, the round-robin [CredentialPool] with per-credential
    cooldown, and the jittered backoff.  Every pool operation holds the mutex,
    so an execution is a sequence of operations on the pool state.  Times are
    64-bit milliseconds; the round-robin counter is a 64-bit unsigned integer
    that wraps. *)

From Stdlib Require Import ZArith Ascii String Lia.
From stdpp Require Import base list gmap strings.
From S2P Require Import Prelude CxxString.
Local Open Scope Z_scope.

(** ** Failure taxonomy *)

Inductive FailoverReason : Type :=
| RNoFailure | RAuth | RBilling | RRateLimit | RContextOverflow | RServerError | RModelNotFound
| RNetwork | RUnknown.

Inductive RecoveryAction : Type :=
| Abort_ | Retry | RotateCredential | CompactContext | SwitchModel.

Fixpoint prefix_ci (needle hay : str) : bool :=
  match needle, hay with
  | [], _ => true
  | b :: needle, a :: hay => bool_decide (tolower a = tolower b) && prefix_ci needle hay
  | _ :: _, [] => false
  end.

(** The search over start positions of [contains_ci]. *)
Fixpoint search_ci (needle hay : str) : bool :=
  prefix_ci needle hay || match hay with [] => false | _ :: hay => search_ci needle hay end.

Definition contains_ci (hay needle : str) : bool :=
  if bool_decide (needle = []) || (length hay <? length needle)%nat then false
  else search_ci needle hay.

Definition classify_failure (http_status : Z) (msg : str) : FailoverReason :=
  if http_status =? 401 then RAuth
  else if http_status =? 402 then RBilling
  else if http_status =? 429 then RRateLimit
  else if http_status =? 404 then
    if contains_ci msg (lit "model") then RModelNotFound else RUnknown
  else if http_status =? 400 then
    if contains_ci msg (lit "context") || contains_ci msg (lit "max_tokens")
       || contains_ci msg (lit "too long") || contains_ci msg (lit "token limit")
    then RContextOverflow
    else if contains_ci msg (lit "model_not_found") || contains_ci msg (lit "model not found")
            || contains_ci msg (lit "model is deprecated")
    then RModelNotFound
    else RUnknown
  else if (500 <=? http_status) && (http_status <? 600) then RServerError
  else if http_status =? 0 then RNetwork
  else RUnknown.

Definition recovery_for (r : FailoverReason) : RecoveryAction :=
  match r with
  | RNoFailure => Abort_
  | RAuth | RBilling => RotateCredential
  | RRateLimit => Retry
  | RContextOverflow => CompactContext
  | RServerError => Retry
  | RModelNotFound => SwitchModel
  | RNetwork => Retry
  | RUnknown => Abort_
  end.

Definition reason_name (r : FailoverReason) : str :=
  lit (match r with
       | RNoFailure => "none" | RAuth => "auth" | RBilling => "billing"
       | RRateLimit => "rate_limit" | RContextOverflow => "context_overflow"
       | RServerError => "server_error" | RModelNotFound => "model_not_found"
       | RNetwork => "network" | RUnknown => "unknown"
       end)%string.

(** ** The pool *)

Record Credential : Type := mkCred { cred_id : str; secret : str; cooldown_until_unix_ms : Z }.
Record CredentialPool : Type := mkPool { creds : list Credential; rr : Z }.

Definition new_pool (cs : list Credential) : CredentialPool := mkPool cs 0.

Definition available (now : Z) (c : Credential) : bool := cooldown_until_unix_ms c <=? now.

(** The walk over the ring from [idx], at most [n] steps. *)
Fixpoint ring_walk (n : nat) (cs : list Credential) (now : Z) (start i : nat) : option str :=
  match n with
  | O => None
  | S n =>
      match cs !! ((start + i) mod length cs)%nat with
      | Some c => if available now c then Some (cred_id c) else ring_walk n cs now start (S i)
      | None => None
      end
  end.

Definition next_available (p : CredentialPool) (now : Z) : option str * CredentialPool :=
  let n := length (creds p) in
  if (n =? 0)%nat then (None, p)
  else
    let start := Z.to_nat (rr p mod Z.of_nat n) in
    (ring_walk n (creds p) now start 0, mkPool (creds p) (u64 (rr p + 1))).

(** The first credential with the id gets a new deadline. *)
Fixpoint set_cooldown (cs : list Credential) (id : str) (until : Z) : option (list Credential) :=
  match cs with
  | [] => None
  | c :: cs =>
      if bool_decide (cred_id c = id) then Some (mkCred (cred_id c) (secret c) until :: cs)
      else (cons c) <$> set_cooldown cs id until
  end.

Definition cool_down (p : CredentialPool) (id : str) (now duration : Z) : bool * CredentialPool :=
  match set_cooldown (creds p) id (now + duration) with
  | Some cs => (true, mkPool cs (rr p))
  | None => (false, p)
  end.

Definition mark_healthy (p : CredentialPool) (id : str) : bool * CredentialPool :=
  match set_cooldown (creds p) id 0 with
  | Some cs => (true, mkPool cs (rr p))
  | None => (false, p)
  end.

Definition pool_size (p : CredentialPool) : nat := length (creds p).
Definition available_count (p : CredentialPool) (now : Z) : nat :=
  length (List.filter (available now) (creds p)).

(** ** Backoff *)

Definition splitmix64 (x : Z) : Z :=
  let x := u64 (x + 0x9e3779b97f4a7c15) in
  let x := u64 (Z.lxor x (Z.shiftr x 30) * 0xbf58476d1ce4e5b9) in
  let x := u64 (Z.lxor x (Z.shiftr x 27) * 0x94d049bb133111eb) in
  Z.lxor x (Z.shiftr x 31).

Fixpoint scale_loop (n : nat) (scaled cap : Z) : Z :=
  match n with
  | O => scaled
  | S n => if cap / 2 <=? scaled then cap else scale_loop n (scaled * 2) cap
  end.

(** The un-jittered delay. *)
Definition scaled_delay (attempt base_ms cap_ms : Z) : Z :=
  let cap_ms := if cap_ms <? base_ms then base_ms else cap_ms in
  let shift := if 30 <? attempt then 30 else attempt in
  let scaled := scale_loop (Z.to_nat shift) base_ms cap_ms in
  if cap_ms <? scaled then cap_ms else scaled.

(** [clock] is the steady-clock reading used when [seed] is 0. *)
Definition jittered_backoff_ms (clock attempt base_ms cap_ms seed : Z) : Z :=
  if base_ms <=? 0 then 0
  else
    let scaled := scaled_delay attempt base_ms cap_ms in
    let effective_seed := if seed =? 0 then u64 clock else seed in
    let mix := splitmix64 (Z.lxor effective_seed (u64 (attempt + 1))) in
    mix mod u64 (scaled + 1).

(** ** Lemmas: case-insensitive search *)

Lemma prefix_ci_spec needle hay :
  prefix_ci needle hay = starts_with (lower needle) (lower hay).
Proof.
  revert hay. induction needle as [|b needle IH]; intros [|a hay]; simpl; try done.
  by rewrite IH.
Qed.

Lemma search_ci_spec needle hay :
  search_ci needle hay = contains_sub (lower needle) (lower hay).
Proof.
  unfold contains_sub. induction hay as [|a hay IH]; cbn [search_ci]; rewrite prefix_ci_spec.
  - simpl. destruct (starts_with (lower needle) []) eqn:E; simpl; by rewrite ?E.
  - simpl. destruct (starts_with (lower needle) (tolower a :: lower hay)) eqn:E; simpl; rewrite ?E.
    + done.
    + rewrite IH. by destruct (find_sub _ _).
Qed.

(** Case-insensitive containment of a non-empty needle. *)
Lemma contains_ci_spec hay needle :
  contains_ci hay needle = true <->
  needle <> [] /\ exists a b, lower hay = a ++ lower needle ++ b.
Proof.
  unfold contains_ci. rewrite <-contains_sub_spec, <-search_ci_spec.
  case_bool_decide; simpl; [naive_solver|]. destruct (length hay <? length needle)%nat eqn:E; [|naive_solver].
  apply Nat.ltb_lt in E. split; [done|]. intros [_ Hs]. rewrite search_ci_spec in Hs.
  apply contains_sub_spec in Hs as (a & b & Hs). apply (f_equal length) in Hs.
  rewrite !length_app, !length_lower in Hs. lia.
Qed.

(** ** Lemmas: the ring *)

(** The credentials in the order the walk from [start] meets them. *)
Definition ring {A} (start : nat) (l : list A) : list A := drop start l ++ take start l.

Lemma ring_lookup {A} (l : list A) start i :
  (start < length l)%nat -> (i < length l)%nat ->
  ring start l !! i = l !! ((start + i) mod length l)%nat.
Proof.
  intros Hs Hi. unfold ring. destruct (decide (start + i < length l)%nat) as [Hlt|Hge].
  - rewrite Nat.mod_small by lia. rewrite lookup_app_l by (rewrite length_drop; lia).
    apply lookup_drop.
  - rewrite lookup_app_r by (rewrite length_drop; lia). rewrite length_drop.
    assert ((start + i) mod length l = start + i - length l)%nat as ->.
    { symmetry. apply (Nat.mod_unique _ _ 1); lia. }
    rewrite lookup_take_lt by lia. f_equal. lia.
Qed.

Lemma ring_length {A} (l : list A) start : (start <= length l)%nat -> length (ring start l) = length l.
Proof. intros H. unfold ring. rewrite length_app, length_drop, length_take. lia. Qed.

Lemma ring_perm {A} (l : list A) start : ring start l ≡ₚ l.
Proof. unfold ring. rewrite Permutation_app_comm. by rewrite take_drop. Qed.

Lemma ring_walk_find n cs now start i :
  (start < length cs)%nat -> (i + n = length cs)%nat ->
  ring_walk n cs now start i = cred_id <$> List.find (available now) (drop i (ring start cs)).
Proof.
  intros Hs. revert i. induction n as [|n IH]; intros i Hi.
  - rewrite drop_ge by (rewrite ring_length; lia). done.
  - cbn [ring_walk]. rewrite <-ring_lookup by lia.
    destruct (lookup_lt_is_Some_2 (ring start cs) i) as [c Hc]; [rewrite ring_length; lia|].
    rewrite Hc. rewrite (drop_S _ c i) by done. cbn [List.find].
    destruct (available now c); [done|]. apply IH. lia.
Qed.

Definition ring_start (p : CredentialPool) : nat :=
  Z.to_nat (rr p mod Z.of_nat (length (creds p))).

Lemma ring_start_lt p : creds p <> [] -> (ring_start p < length (creds p))%nat.
Proof.
  intros Hne. unfold ring_start. assert (0 < Z.of_nat (length (creds p))) as Hl
    by (destruct (creds p); [done|simpl; lia]).
  pose proof (Z.mod_pos_bound (rr p) _ Hl). lia.
Qed.

Lemma next_available_find p now :
  fst (next_available p now) = cred_id <$> List.find (available now) (ring (ring_start p) (creds p)).
Proof.
  unfold next_available. destruct (creds p) as [|c cs] eqn:E.
  { unfold ring. by rewrite drop_nil, take_nil. }
  rewrite <-E.
  assert ((length (creds p) =? 0)%nat = false) as -> by (by rewrite E). cbn [fst].
  fold (ring_start p). rewrite (ring_walk_find _ (creds p) now (ring_start p) 0).
  - by rewrite drop_0.
  - apply ring_start_lt. by rewrite E.
  - done.
Qed.

Lemma find_Some_elem {A} (f : A -> bool) l x : List.find f l = Some x -> x ∈ l /\ f x = true.
Proof. intros [? ?]%List.find_some. split; [by apply list_elem_of_In|done]. Qed.

Lemma set_cooldown_spec cs id until cs' :
  set_cooldown cs id until = Some cs' ->
  exists pre c post, cs = pre ++ c :: post /\ cred_id c = id /\
    cs' = pre ++ mkCred id (secret c) until :: post /\ Forall (fun d => cred_id d <> id) pre.
Proof.
  revert cs'. induction cs as [|c cs IH]; intros cs'; simpl; [done|].
  case_bool_decide as Hc.
  - intros [= <-]. exists [], c, cs. subst id. by repeat split.
  - destruct (set_cooldown cs id until) as [r|]; [|done]. intros [= <-].
    destruct (IH r eq_refl) as (pre & d & post & -> & Hd & -> & Hpre).
    exists (c :: pre), d, post. repeat split; try done. by constructor.
Qed.

(** ** Lemmas: backoff *)

Lemma scale_loop_range n s cap :
  0 < s <= cap -> 0 < scale_loop n s cap <= cap.
Proof.
  revert s. induction n as [|n IH]; intros s Hs; [done|]. cbn [scale_loop].
  destruct (cap / 2 <=? s) eqn:E; [lia|]. apply Z.leb_gt in E. apply IH.
  pose proof (Z_div_mod_eq_full cap 2). pose proof (Z.mod_pos_bound cap 2 ltac:(lia)). lia.
Qed.

(** Against the documented delay [min(cap, base * 2^n)]: never below it, at
    most one above, and equal when the cap is even. *)
Lemma scale_loop_doc n s cap :
  0 < s <= cap ->
  Z.min cap (s * 2 ^ Z.of_nat n) <= scale_loop n s cap <= Z.min cap (s * 2 ^ Z.of_nat n) + 1
  /\ (cap mod 2 = 0 -> scale_loop n s cap = Z.min cap (s * 2 ^ Z.of_nat n)).
Proof.
  revert s. induction n as [|n IH]; intros s Hs; cbn [scale_loop]; [simpl; lia|].
  rewrite Nat2Z.inj_succ, Z.pow_succ_r by lia.
  pose proof (Z.pow_pos_nonneg 2 (Z.of_nat n) ltac:(lia) ltac:(lia)) as Hp.
  pose proof (Z_div_mod_eq_full cap 2). pose proof (Z.mod_pos_bound cap 2 ltac:(lia)).
  destruct (cap / 2 <=? s) eqn:E; bool_to_prop.
  - apply Z.leb_le in E. assert (s * 2 <= s * (2 * 2 ^ Z.of_nat n)) as Hm by nia. lia.
  - apply Z.leb_gt in E. replace (s * (2 * 2 ^ Z.of_nat n)) with (s * 2 * 2 ^ Z.of_nat n) by lia.
    apply IH. lia.
Qed.

(** [k] calls of [next_available] in a row. *)
Fixpoint take_next (k : nat) (p : CredentialPool) (now : Z) : list (option str) :=
  match k with
  | O => []
  | S k => fst (next_available p now) :: take_next k (snd (next_available p now)) now
  end.

Lemma next_available_pool p now :
  creds (snd (next_available p now)) = creds p /\
  (creds p <> [] -> rr (snd (next_available p now)) = u64 (rr p + 1)).
Proof.
  unfold next_available. destruct (creds p) as [|c cs] eqn:E; simpl; [by rewrite E|done].
Qed.

Lemma find_all_true {A} (f : A -> bool) l :
  Forall (fun x => f x = true) l -> List.find f l = head l.
Proof. intros [|x l' Hx _]; simpl; [done|]. by rewrite Hx. Qed.

Lemma head_drop_lookup {A} (l : list A) i : head (drop i l) = l !! i.
Proof. revert l. induction i as [|i IH]; intros [|x l]; simpl; [done..|]. apply IH. Qed.

(** When every credential is available a call returns the one the counter
    points at. *)
Lemma next_available_all p now :
  Forall (fun c => available now c = true) (creds p) ->
  fst (next_available p now) = cred_id <$> creds p !! ring_start p.
Proof.
  intros H. rewrite next_available_find, find_all_true.
  - destruct (decide (creds p = [])) as [E|E]; [rewrite E; unfold ring; by rewrite drop_nil, take_nil|].
    f_equal. unfold ring. pose proof (ring_start_lt p E).
    rewrite <-head_drop_lookup. destruct (drop (ring_start p) (creds p)) as [|c l] eqn:D; [|done].
    apply (f_equal length) in D. rewrite length_drop in D. simpl in D. lia.
  - by rewrite ring_perm.
Qed.

Lemma take_next_all k p now :
  Forall (fun c => available now c = true) (creds p) -> creds p <> [] ->
  0 <= rr p -> rr p + Z.of_nat k <= 2 ^ 64 ->
  take_next k p now =
  (fun i => cred_id <$> creds p !! Z.to_nat ((rr p + Z.of_nat i) mod Z.of_nat (length (creds p))))
  <$> seq 0 k.
Proof.
  intros Ha Hne. revert p Ha Hne. induction k as [|k IH]; intros p Ha Hne Hr Hk; [done|].
  cbn [take_next]. rewrite next_available_all by done.
  destruct (next_available_pool p now) as [Hc Hrr]. specialize (Hrr Hne).
  destruct (decide (k = 0)%nat) as [->|Hk0].
  { simpl. rewrite Z.add_0_r. done. }
  rewrite u64_small in Hrr by lia. rewrite IH; [|by rewrite Hc..|rewrite Hrr; lia|rewrite Hrr; lia].
  rewrite Hc, Hrr. cbn [seq]. rewrite fmap_cons, Z.add_0_r. f_equal.
  rewrite <-fmap_S_seq, <-list_fmap_compose. apply list_fmap_ext. intros _ i _. simpl.
  do 4 f_equal. lia.
Qed.

(** ** Theorems *)

(** [next_available] gives no credential exactly when none is available;
    otherwise it gives the first available one in ring order from the
    round-robin counter, and it leaves the credentials as they are. *)
Lemma next_available_spec p now :
  (fst (next_available p now) = None <-> available_count p now = 0%nat) /\
  (forall id, fst (next_available p now) = Some id ->
     exists pre c post, ring (ring_start p) (creds p) = pre ++ c :: post /\ cred_id c = id /\
       available now c = true /\ Forall (fun d => available now d = false) pre) /\
  creds (snd (next_available p now)) = creds p.
Proof.
  rewrite next_available_find. split; [|split; [|apply next_available_pool]].
  - unfold available_count. rewrite fmap_None. split.
    + intros Hn. destruct (List.filter (available now) (creds p)) as [|c l] eqn:E; [done|].
      assert (c ∈ List.filter (available now) (creds p)) as Hin by (rewrite E; by left).
      apply list_elem_of_In, filter_In in Hin as [Hin Ha].
      assert (c ∈ ring (ring_start p) (creds p)) as Hr by (rewrite ring_perm; by apply list_elem_of_In).
      apply list_elem_of_In, (List.find_none _ _ Hn) in Hr. congruence.
    + intros Hl. apply length_zero_iff_nil in Hl.
      destruct (List.find _ _) as [c|] eqn:E; [|done]. apply find_Some_elem in E as [Hin Ha].
      rewrite ring_perm in Hin.
      assert (c ∈ List.filter (available now) (creds p)) as Hf
        by (apply list_elem_of_In, filter_In; split; [by apply list_elem_of_In|done]).
      rewrite Hl in Hf. by apply not_elem_of_nil in Hf.
  - intros id. induction (ring (ring_start p) (creds p)) as [|c l IH]; simpl; [done|].
    destruct (available now c) eqn:Ha.
    + intros [= <-]. by exists [], c, l.
    + intros H. destruct (IH H) as (pre & d & post & -> & ? & ? & ?). exists (c :: pre), d, post.
      repeat split; try done. by constructor.
Qed.

(** A credential that was cooled down is not handed out before its
    cooldown ends, and the other credentials keep theirs. *)
Lemma cooled_credential_rests p id now duration p' now' :
  NoDup (cred_id <$> creds p) -> cool_down p id now duration = (true, p') ->
  now' < now + duration ->
  fst (next_available p' now') <> Some id /\
  forall c, cred_id c <> id -> (c ∈ creds p' <-> c ∈ creds p).
Proof.
  intros Hnd Hcd Hlt. unfold cool_down in Hcd.
  destruct (set_cooldown (creds p) id (now + duration)) as [cs|] eqn:E; [|done].
  injection Hcd as <-. apply set_cooldown_spec in E as (pre & c & post & Hp & Hc & -> & Hpre).
  simpl. split.
  - rewrite next_available_find. intros H. apply fmap_Some in H as (d & Hd & Hid).
    apply find_Some_elem in Hd as [Hin Ha]. rewrite ring_perm in Hin. simpl in Hin.
    rewrite Hp, fmap_app, fmap_cons in Hnd. apply NoDup_app in Hnd as (_ & Hx & Hnd).
    apply NoDup_cons in Hnd as [Hcp _].
    apply elem_of_app in Hin as [Hin|[->|Hin]%elem_of_cons].
    + rewrite Forall_forall in Hpre. by apply (Hpre d).
    + unfold available in Ha. simpl in Ha. lia.
    + apply Hcp. rewrite Hc, Hid. apply list_elem_of_fmap. by exists d.
  - intros d Hd. rewrite Hp. set_solver.
Qed.

(** C31: with every credential available, as many calls as there are
    credentials hand out each of them once. *)
Theorem round_robin_fair p now :
  Forall (fun c => available now c = true) (creds p) ->
  0 <= rr p -> rr p + Z.of_nat (length (creds p)) <= 2 ^ 64 ->
  take_next (length (creds p)) p now ≡ₚ (Some ∘ cred_id) <$> creds p.
Proof.
  intros Ha H0 H1. destruct (decide (creds p = [])) as [E|Hne]; [by rewrite E|].
  rewrite take_next_all by done. set (cs := creds p) in *.
  assert (((fun i : nat => cred_id <$> cs !! Z.to_nat ((rr p + Z.of_nat i) mod Z.of_nat (length cs)))
    <$> seq 0 (length cs)) = (Some ∘ cred_id) <$> ring (ring_start p) cs) as ->;
    [|by rewrite ring_perm].
  pose proof (ring_start_lt p Hne) as Hs. fold cs in Hs.
  apply list_eq. intros i. rewrite !list_lookup_fmap.
  destruct (decide (i < length cs)%nat) as [Hi|Hi].
  - rewrite lookup_seq_lt by done. simpl. rewrite ring_lookup by done.
    assert (Z.to_nat ((rr p + Z.of_nat i) mod Z.of_nat (length cs)) = ((ring_start p + i) mod length cs)%nat)
      as ->.
    { unfold ring_start. fold cs. rewrite <-Nat2Z.id. f_equal.
      rewrite Nat2Z.inj_mod, Nat2Z.inj_add, Z2Nat.id by (apply Z.mod_pos_bound; lia).
      by rewrite Zplus_mod_idemp_l. }
    destruct (lookup_lt_is_Some_2 cs ((ring_start p + i) mod length cs)) as [c ->]; [|done].
    apply Nat.mod_upper_bound. lia.
  - rewrite lookup_seq_ge by lia. simpl. rewrite lookup_ge_None_2; [done|].
    rewrite ring_length by lia. lia.
Qed.

Lemma splitmix64_nonneg x : 0 <= splitmix64 x.
Proof.
  unfold splitmix64. apply Z.lxor_nonneg.
  match goal with |- 0 <= ?a <-> 0 <= ?b => assert (0 <= a) by apply u64_range end.
  split; [intros _|done]. apply Z.shiftr_nonneg. apply u64_range.
Qed.

Lemma scaled_delay_range attempt base cap :
  0 < base -> 0 <= attempt ->
  let cap' := Z.max base cap in
  let d := Z.min cap' (base * 2 ^ Z.min attempt 30) in
  d <= scaled_delay attempt base cap <= d + 1 /\ scaled_delay attempt base cap <= cap' /\
  (cap' mod 2 = 0 -> scaled_delay attempt base cap = d).
Proof.
  intros Hb Ha cap' d. unfold scaled_delay.
  assert ((if cap <? base then base else cap) = cap') as ->
    by (unfold cap'; destruct (cap <? base) eqn:E; lia).
  assert ((if 30 <? attempt then 30 else attempt) = Z.min attempt 30) as ->
    by (destruct (30 <? attempt) eqn:E; lia).
  assert (0 < base <= cap') as Hr by (unfold cap'; lia).
  destruct (scale_loop_doc (Z.to_nat (Z.min attempt 30)) base cap' Hr) as [H1 H2].
  pose proof (scale_loop_range (Z.to_nat (Z.min attempt 30)) base cap' Hr) as H3.
  rewrite Z2Nat.id in H1, H2 by lia. fold d in H1, H2.
  assert (cap' <? scale_loop (Z.to_nat (Z.min attempt 30)) base cap' = false) as -> by lia.
  split; [done|]. split; [lia|done].
Qed.

(** The backoff of an attempt lies between 0 and the exponential delay
    capped by [max(base, cap)], exactly [min(cap, base * 2^min(attempt, 30))]
    for an even cap and at most one millisecond more for an odd one. *)
Lemma backoff_bounds clock attempt base cap seed :
  0 < base -> 0 <= attempt -> Z.max base cap < 2 ^ 63 - 1 ->
  let d := Z.min (Z.max base cap) (base * 2 ^ Z.min attempt 30) in
  0 <= jittered_backoff_ms clock attempt base cap seed <= Z.min (Z.max base cap) (d + 1) /\
  (Z.max base cap mod 2 = 0 -> jittered_backoff_ms clock attempt base cap seed <= d).
Proof.
  intros Hb Ha Hc d. unfold jittered_backoff_ms.
  assert (base <=? 0 = false) as -> by lia.
  destruct (scaled_delay_range attempt base cap Hb Ha) as (H1 & H2 & H3). fold d in H1, H3.
  assert (0 < d) as Hd.
  { unfold d. pose proof (Z.pow_pos_nonneg 2 (Z.min attempt 30) ltac:(lia) ltac:(lia)). nia. }
  rewrite (u64_small (scaled_delay attempt base cap + 1)) by lia.
  match goal with |- context [?m mod (scaled_delay attempt base cap + 1)] =>
    pose proof (Z.mod_pos_bound m (scaled_delay attempt base cap + 1) ltac:(lia)) end.
  split; [lia|]. intros He. specialize (H3 He). lia.
Qed.

(** The counter advances by one call, not past the credential handed out:
    with [a] cooled down, two calls in a row both hand out [b] while [c] is
    available. *)
Lemma next_available_repeats :
  take_next 2 (new_pool [mkCred (lit "a") [] 100; mkCred (lit "b") [] 0; mkCred (lit "c") [] 0]) 50
  = [Some (lit "b"); Some (lit "b")].
Proof. by vm_compute. Qed.

(** With an odd cap the delay exceeds the documented
    [min(cap, base << attempt)]: base 3, cap 7, first retry. *)
Lemma scaled_delay_odd_cap : scaled_delay 1 3 7 = 7 /\ Z.min 7 (3 * 2 ^ 1) = 6.
Proof. by vm_compute. Qed.

Definition sample_pool : CredentialPool :=
  new_pool [mkCred (lit "a") [] 0; mkCred (lit "b") [] 0; mkCred (lit "c") [] 0].

Lemma cooled_credential_rests_witness :
  fst (next_available (snd (cool_down sample_pool (lit "a") 10 5)) 12) <> Some (lit "a").
Proof.
  eapply (cooled_credential_rests sample_pool (lit "a") 10 5);
    [apply (bool_decide_unpack _); by vm_compute|reflexivity|lia].
Defined.

Lemma round_robin_fair_witness :
  take_next (length (creds sample_pool)) sample_pool 7 ≡ₚ (Some ∘ cred_id) <$> creds sample_pool.
Proof.
  apply round_robin_fair; [by repeat constructor|by vm_compute|by vm_compute].
Defined.

Lemma backoff_bounds_witness :
  0 <= jittered_backoff_ms 0 2 250 30000 7 <= Z.min 30000 (Z.min 30000 (250 * 2 ^ 2) + 1).
Proof. apply (backoff_bounds 0 2 250 30000 7); lia. Defined.
