(* ===== verification/Network.v ===== *)
(** * Resilience and topology: [libs/network]

    [CircuitBreaker], [RetryPolicy] and [run_with_resilience] of
    [resilience.hpp]/[resilience.cpp], and [TopologyGrid].  Steady-clock
    readings are nanosecond counts chosen by the environment; the operation
    under [run_with_resilience] is a function from the attempt to its outcome
    and the time it ended.  The breaker is specified by its history: it is
    open exactly when the current run of consecutive failures has reached the
    threshold ([breaker_history]). *)

From Stdlib Require Import ZArith Ascii String Lia.
From stdpp Require Import base list gmap strings sorting.
From S2P Require Import Prelude CxxString Doubles.
Local Open Scope Z_scope.

(** ** The circuit breaker *)

Record CircuitBreaker : Type := mkBreaker {
  failure_threshold : Z;
  recovery_timeout_seconds : double;
  failure_count : Z;
  opened_at : option Z;
}.

Definition new_breaker (threshold : Z) (timeout : double) : CircuitBreaker :=
  mkBreaker threshold timeout 0 None.

(** [duration<double>(ns).count()] *)
Definition elapsed_seconds (ns : Z) : double := d_div (d_of_Z ns) (d_of_Z 1000000000).

Definition is_open (b : CircuitBreaker) (now : Z) : bool :=
  match opened_at b with
  | None => false
  | Some t => if d_le (recovery_timeout_seconds b) (elapsed_seconds (now - t)) then false else true
  end.

Definition record_success (b : CircuitBreaker) : CircuitBreaker :=
  mkBreaker (failure_threshold b) (recovery_timeout_seconds b) 0 None.

Definition record_failure (b : CircuitBreaker) (now : Z) : CircuitBreaker :=
  let n := failure_count b + 1 in
  mkBreaker (failure_threshold b) (recovery_timeout_seconds b) n
    (if failure_threshold b <=? n then Some now else opened_at b).

Definition reset (b : CircuitBreaker) : CircuitBreaker := record_success b.

(** ** Retries *)

Record RetryPolicy : Type := mkRetry {
  max_attempts : Z;
  base_delay_seconds : double;
  max_delay_seconds : double;
  jitter_ratio : double;
}.

(** [std::pow(2.0, k)], exact for the exponents that occur. *)
Definition pow2 (k : Z) : double := d_of_Z (2 ^ k).

(** [jitter] is the number drawn from the distribution. *)
Definition sleep_duration (p : RetryPolicy) (attempt : Z) (jitter : double) : double :=
  if attempt <=? 1 then d_zero
  else
    let delay := d_mul (base_delay_seconds p) (pow2 (attempt - 1)) in
    let delay := if d_lt (max_delay_seconds p) delay then max_delay_seconds p else delay in
    d_mul delay jitter.

Section resilience.
  Context {A E : Type}.

Inductive RunResult : Type :=
| CircuitOpen
| Returned (a : A)
| Rethrown (e : E)
| NoAttempt.

(** The attempt loop from [attempt], [n] attempts left; [last] is the last
    exception.  Returns the result, the operations started and the breaker. *)
Fixpoint attempt_loop (n : nat) (attempt : Z) (op : Z -> (A + E) * Z) (b : CircuitBreaker)
    (last : option E) (calls : Z) : RunResult * Z * CircuitBreaker :=
  match n with
  | O => (match last with Some e => Rethrown e | None => NoAttempt end, calls, b)
  | S n =>
      match op attempt with
      | (inl a, _) => (Returned a, calls + 1, record_success b)
      | (inr e, t) => attempt_loop n (attempt + 1) op (record_failure b t) (Some e) (calls + 1)
      end
  end.

Definition run_with_resilience (op : Z -> (A + E) * Z) (retry : RetryPolicy) (b : CircuitBreaker)
    (now : Z) : RunResult * Z * CircuitBreaker :=
  if is_open b now then (CircuitOpen, 0, b)
  else attempt_loop (Z.to_nat (max_attempts retry)) 1 op b None 0.
End resilience.

(** ** The history of a breaker *)

Inductive BreakerEvent : Type := EvSuccess | EvFailure (now : Z) | EvReset.

Definition breaker_step (b : CircuitBreaker) (ev : BreakerEvent) : CircuitBreaker :=
  match ev with
  | EvSuccess => record_success b
  | EvFailure now => record_failure b now
  | EvReset => reset b
  end.

(** The failures since the last success or reset, latest first. *)
Fixpoint streak (evs : list BreakerEvent) : list Z :=
  match evs with
  | EvFailure now :: evs => now :: streak evs
  | _ => []
  end.

(** [evs] lists the events latest first. *)
Lemma breaker_history_state threshold timeout evs :
  let b := foldr (fun ev b => breaker_step b ev) (new_breaker threshold timeout) evs in
  failure_threshold b = threshold /\ recovery_timeout_seconds b = timeout /\
  failure_count b = Z.of_nat (length (streak evs)) /\
  (1 <= threshold -> opened_at b = if threshold <=? Z.of_nat (length (streak evs))
                                   then head (streak evs) else None).
Proof.
  induction evs as [|ev evs IH]; cbn [foldr].
  - simpl. split_and!; try done. intros _. destruct (threshold <=? Z.of_nat 0); done.
  - destruct IH as (H1 & H2 & H3 & H4). destruct ev as [|now|]; simpl.
    + split_and!; try done. intros _. destruct (threshold <=? Z.of_nat 0); done.
    + rewrite H1, H2, H3. split_and!; try done; [lia|]. intros Ht. specialize (H4 Ht).
      replace (Z.of_nat (S (length (streak evs)))) with (Z.of_nat (length (streak evs)) + 1) by lia.
      destruct (threshold <=? Z.of_nat (length (streak evs)) + 1) eqn:E; [done|].
      rewrite H4. destruct (threshold <=? Z.of_nat (length (streak evs))) eqn:E'; [lia|done].
    + split_and!; try done. intros _. destruct (threshold <=? Z.of_nat 0); done.
Qed.

(** After any history the breaker is open exactly when the failures
    since the last success or reset have reached the threshold and the
    recovery timeout has not passed since the latest of them. *)
Lemma breaker_open_iff threshold timeout evs now :
  1 <= threshold ->
  is_open (foldr (fun ev b => breaker_step b ev) (new_breaker threshold timeout) evs) now = true <->
  exists t rest, streak evs = t :: rest /\ threshold <= Z.of_nat (length (streak evs)) /\
    d_le timeout (elapsed_seconds (now - t)) = false.
Proof.
  intros Ht. destruct (breaker_history_state threshold timeout evs) as (_ & H2 & _ & H4).
  specialize (H4 Ht). unfold is_open. rewrite H2, H4.
  destruct (threshold <=? Z.of_nat (length (streak evs))) eqn:E.
  - apply Z.leb_le in E. destruct (streak evs) as [|t rest]; [simpl in E; lia|].
    cbn [head]. destruct (d_le _ _) eqn:Ed; split; try done.
    + intros (t' & rest' & [= -> ->] & _ & Hd). congruence.
    + intros _. by exists t, rest.
  - apply Z.leb_gt in E. split; [done|]. intros (t & rest & Hs & Hl & _). lia.
Qed.

(** ** Running with resilience *)

Section run.
  Context {A E : Type}.

(** The failures recorded for attempts [k .. k+n-1]. *)
Fixpoint record_failures (n : nat) (k : Z) (op : Z -> (A + E) * Z) (b : CircuitBreaker) :
    CircuitBreaker :=
  match n with
  | O => b
  | S n => record_failures n (k + 1) op (record_failure b (snd (op k)))
  end.

Lemma attempt_loop_fails n k (op : Z -> (A + E) * Z) b last calls :
  (forall i, k <= i < k + Z.of_nat n -> exists e, fst (op i) = inr e) ->
  attempt_loop n k op b last calls =
  (match n with
   | O => match last with Some e => Rethrown e | None => NoAttempt end
   | S m => match fst (op (k + Z.of_nat m)) with inr e => Rethrown e | inl a => Returned a end
   end, calls + Z.of_nat n, record_failures n k op b).
Proof.
  revert k b last calls. induction n as [|n IH]; intros k b last calls H.
  - simpl. by rewrite Z.add_0_r.
  - cbn [attempt_loop record_failures]. destruct (H k ltac:(lia)) as [e He].
    destruct (op k) as [r t] eqn:Ho. simpl in He. subst r.
    rewrite IH by (intros i Hi; apply H; lia). cbn [snd]. f_equal; [f_equal; [|lia]].
    destruct n as [|n].
    + rewrite Z.add_0_r, Ho. done.
    + by replace (k + 1 + Z.of_nat n) with (k + Z.of_nat (S n)) by lia.
Qed.

Lemma attempt_loop_returns n k (op : Z -> (A + E) * Z) b last calls i a t :
  k <= i < k + Z.of_nat n -> (forall j, k <= j < i -> exists e, fst (op j) = inr e) ->
  op i = (inl a, t) ->
  exists b0, attempt_loop n k op b last calls = (Returned a, calls + (i - k + 1), record_success b0)
    /\ failure_threshold b0 = failure_threshold b.
Proof.
  revert k b last calls. induction n as [|n IH]; intros k b last calls Hi Hf Ha; [lia|].
  cbn [attempt_loop]. destruct (decide (i = k)) as [->|Hne].
  - rewrite Ha. exists b. split; [|done]. do 2 f_equal. lia.
  - destruct (Hf k ltac:(lia)) as [e He]. destruct (op k) as [r t']. simpl in He. subst r.
    destruct (IH (k + 1) (record_failure b t') (Some e) (calls + 1)) as (b0 & -> & Hb); [lia| |done|].
    { intros j Hj. apply Hf. lia. }
    exists b0. split; [|done]. do 2 f_equal. lia.
Qed.

Lemma record_failures_count n k (op : Z -> (A + E) * Z) b :
  failure_count (record_failures n k op b) = failure_count b + Z.of_nat n
  /\ failure_threshold (record_failures n k op b) = failure_threshold b.
Proof.
  revert k b. induction n as [|n IH]; intros k b; cbn [record_failures]; [lia|].
  destruct (IH (k + 1) (record_failure b (snd (op k)))) as [-> ->]. simpl. lia.
Qed.

(** On a closed breaker the operation is tried until it first succeeds,
    at most [max_attempts] times: a success returns its value and closes the
    breaker; if all attempts fail the last exception is rethrown, each failure
    having been counted; on an open breaker it is not tried at all. *)
Lemma run_with_resilience_spec (op : Z -> (A + E) * Z) retry b now :
  1 <= max_attempts retry ->
  (is_open b now = true -> run_with_resilience op retry b now = (CircuitOpen, 0, b)) /\
  (forall i a t, is_open b now = false -> 1 <= i <= max_attempts retry ->
     (forall j, 1 <= j < i -> exists e, fst (op j) = inr e) -> op i = (inl a, t) ->
     exists b', run_with_resilience op retry b now = (Returned a, i, b') /\
       failure_count b' = 0 /\ opened_at b' = None /\
       failure_threshold b' = failure_threshold b) /\
  (is_open b now = false ->
     (forall j, 1 <= j <= max_attempts retry -> exists e, fst (op j) = inr e) ->
     exists e b', fst (op (max_attempts retry)) = inr e /\
       run_with_resilience op retry b now = (Rethrown e, max_attempts retry, b') /\
       failure_count b' = failure_count b + max_attempts retry).
Proof.
  intros Hm. unfold run_with_resilience. split; [by intros ->|]. split.
  - intros i a t -> Hi Hf Ha.
    destruct (attempt_loop_returns (Z.to_nat (max_attempts retry)) 1 op b None 0 i a t)
      as (b0 & -> & Hb); [lia|done|done|].
    exists (record_success b0). split; [do 2 f_equal; lia|]. by split_and!.
  - intros -> Hf. rewrite attempt_loop_fails by (intros i Hi; apply Hf; lia).
    destruct (Hf (max_attempts retry) ltac:(lia)) as [e He].
    destruct (Z.to_nat (max_attempts retry)) as [|m] eqn:En; [lia|].
    replace (1 + Z.of_nat m) with (max_attempts retry) by lia. rewrite He.
    exists e, (record_failures (S m) 1 op b). split; [done|].
    split; [f_equal; f_equal; lia|]. destruct (record_failures_count (S m) 1 op b) as [-> _]. lia.
Qed.
End run.

(** The delay before the first retry is zero, whatever the configured
    initial delay. *)
Lemma first_retry_is_immediate p jitter : sleep_duration p 1 jitter = d_zero.
Proof. reflexivity. Qed.

Lemma breaker_open_iff_witness :
  is_open (foldr (fun ev b => breaker_step b ev) (new_breaker 2 (d_of_Z 10))
             [EvFailure 5; EvFailure 3; EvSuccess]) 6 = true.
Proof.
  apply breaker_open_iff; [lia|]. exists 5, [3]. split; [reflexivity|]. split; [simpl; lia|].
  vm_compute. reflexivity.
Defined.

Lemma run_with_resilience_spec_witness :
  exists b', run_with_resilience (fun i => (if i =? 2 then inl true else inr tt, i))
    (mkRetry 3 d_zero d_zero d_zero) (new_breaker 5 (d_of_Z 10)) 0 = (Returned true, 2, b') /\
    failure_count b' = 0.
Proof.
  destruct (run_with_resilience_spec (A := bool) (E := unit)
    (fun i => (if i =? 2 then inl true else inr tt, i))
    (mkRetry 3 d_zero d_zero d_zero) (new_breaker 5 (d_of_Z 10)) 0) as (_ & H & _); [simpl; lia|].
  destruct (H 2 true 2) as (b' & Hr & Hc & _); [reflexivity|simpl; lia| |reflexivity|].
  - intros j Hj. exists tt. assert (j = 1) as -> by lia. reflexivity.
  - exists b'. split; [exact Hr|exact Hc].
Defined.

(** ** The topology grid *)

Module Topology.

Record NodeInfo : Type := mkNodeInfo {
  node_id : str; role : str; status : str; capabilities : list str;
}.

(** The [std::map]s are finite maps; the one place that iterates in key order
    is [get_active_nodes]. *)
Record TopologyGrid : Type := mkGrid {
  grid_size : nat;
  data : list double;
  nodes : gmap str NodeInfo;
  capability_to_node_ids : gmap str (list str);
}.

Definition new_grid (size : nat) : TopologyGrid := mkGrid size (replicate (size * size) d_zero) ∅ ∅.

(** [operator\[\]]: [None] is [std::out_of_range]. *)
Definition at_index (g : TopologyGrid) (i j : nat) : option double :=
  if (grid_size g <=? i)%nat || (grid_size g <=? j)%nat then None
  else data g !! (i * grid_size g + j)%nat.

Definition set_index (g : TopologyGrid) (i j : nat) (v : double) : option TopologyGrid :=
  if (grid_size g <=? i)%nat || (grid_size g <=? j)%nat then None
  else Some (mkGrid (grid_size g) (<[(i * grid_size g + j)%nat := v]> (data g)) (nodes g)
               (capability_to_node_ids g)).

(** Erasing [node_id] from the index of each capability. *)
Definition erase_capability (id cap : str) (m : gmap str (list str)) : gmap str (list str) :=
  let ids := List.filter (fun x => negb (bool_decide (x = id))) (default [] (m !! cap)) in
  if bool_decide (ids = []) then delete cap m else <[cap := ids]> m.

Definition unregister_node (g : TopologyGrid) (id : str) : TopologyGrid :=
  match nodes g !! id with
  | None => g
  | Some n =>
      mkGrid (grid_size g) (data g) (delete id (nodes g))
        (foldl (fun m cap => erase_capability id cap m) (capability_to_node_ids g) (capabilities n))
  end.

(** The copy loop of the resize: entry [k] of the new matrix. *)
Definition resize_data (old_size new_size : nat) (old : list double) : list double :=
  (fun k => let i := (k / new_size)%nat in let j := (k mod new_size)%nat in
            if (i <? old_size)%nat && (j <? old_size)%nat
            then default d_zero (old !! (i * old_size + j)%nat) else d_zero)
  <$> seq 0 (new_size * new_size).

Definition register_node (g : TopologyGrid) (n : NodeInfo) : TopologyGrid :=
  let g := match nodes g !! node_id n with Some _ => unregister_node g (node_id n) | None => g end in
  let nodes' := <[node_id n := n]> (nodes g) in
  let caps := foldl (fun m cap => <[cap := default [] (m !! cap) ++ [node_id n]]> m)
                (capability_to_node_ids g) (capabilities n) in
  if (grid_size g <? size nodes')%nat
  then mkGrid (size nodes') (resize_data (grid_size g) (size nodes') (data g)) nodes' caps
  else mkGrid (grid_size g) (data g) nodes' caps.

(** [nodes_.at(id)] throws on a missing id: [None]. *)
Fixpoint at_all (m : gmap str NodeInfo) (ids : list str) : option (list NodeInfo) :=
  match ids with
  | [] => Some []
  | id :: ids =>
      match m !! id, at_all m ids with Some n, Some ns => Some (n :: ns) | _, _ => None end
  end.

Definition find_nodes_by_capability (g : TopologyGrid) (cap : str) : option (list NodeInfo) :=
  match capability_to_node_ids g !! cap with
  | None => Some []
  | Some ids => at_all (nodes g) ids
  end.

Definition get_active_nodes (g : TopologyGrid) : list NodeInfo :=
  List.filter (fun n => bool_decide (status n = lit "online"))
    (snd <$> sorted_items (nodes g)).

(** The invariant: the matrix is square, every node is stored under its id,
    and the index lists exactly the nodes with the capability. *)
Record grid_ok (g : TopologyGrid) : Prop := {
  gr_data : length (data g) = (grid_size g * grid_size g)%nat;
  gr_size : (size (nodes g) <= grid_size g)%nat;
  gr_ids : forall id n, nodes g !! id = Some n -> node_id n = id;
  gr_index : forall cap id, id ∈ default [] (capability_to_node_ids g !! cap) <->
    exists n, nodes g !! id = Some n /\ cap ∈ capabilities n;
}.

Lemma elem_of_erase (id cap : str) (m : gmap str (list str)) (c x : str) :
  x ∈ default [] (erase_capability id cap m !! c) <->
  x ∈ default [] (m !! c) /\ ~ (c = cap /\ x = id).
Proof.
  unfold erase_capability. set (ids := List.filter _ _).
  assert (forall y, y ∈ ids <-> y ∈ default [] (m !! cap) /\ y <> id) as Hids.
  { intros y. unfold ids. rewrite list_elem_of_In, filter_In, <-list_elem_of_In.
    by rewrite negb_true_iff, bool_decide_eq_false. }
  clearbody ids. case_bool_decide as E.
  - subst ids. destruct (decide (c = cap)) as [->|Hc].
    + rewrite lookup_delete_eq. simpl. specialize (Hids x). set_solver.
    + rewrite lookup_delete_ne by done. naive_solver.
  - destruct (decide (c = cap)) as [->|Hc].
    + rewrite lookup_insert_eq. simpl. rewrite Hids. naive_solver.
    + rewrite lookup_insert_ne by done. naive_solver.
Qed.

Lemma elem_of_erase_all (id : str) (caps : list str) (m : gmap str (list str)) (c x : str) :
  x ∈ default [] (foldl (fun m cap => erase_capability id cap m) m caps !! c) <->
  x ∈ default [] (m !! c) /\ ~ (c ∈ caps /\ x = id).
Proof.
  revert m. induction caps as [|cap caps IH]; intros m; cbn [foldl].
  - set_solver.
  - rewrite IH, elem_of_erase, elem_of_cons. naive_solver.
Qed.

Lemma elem_of_push_all (id : str) (caps : list str) (m : gmap str (list str)) (c x : str) :
  x ∈ default [] (foldl (fun m cap => <[cap := default [] (m !! cap) ++ [id]]> m) m caps !! c) <->
  x ∈ default [] (m !! c) \/ (c ∈ caps /\ x = id).
Proof.
  revert m. induction caps as [|cap caps IH]; intros m; cbn [foldl].
  - set_solver.
  - rewrite IH, elem_of_cons. destruct (decide (c = cap)) as [->|Hc].
    + rewrite lookup_insert_eq. simpl. set_solver.
    + rewrite lookup_insert_ne by done. naive_solver.
Qed.

Lemma unregister_ok g id : grid_ok g -> grid_ok (unregister_node g id).
Proof.
  intros [H1 H2 H3 H4]. unfold unregister_node. destruct (nodes g !! id) as [n|] eqn:E; [|by split].
  split; cbn [data grid_size nodes capability_to_node_ids].
  - done.
  - rewrite map_size_delete, E. simpl. lia.
  - intros i m [_ Hm]%lookup_delete_Some. by apply H3.
  - intros cap x. rewrite elem_of_erase_all, H4. setoid_rewrite lookup_delete_Some. split.
    + intros [(m & Hm & Hc) Hno]. exists m. split; [|done]. split; [|done]. intros ->.
      apply Hno. split; [congruence|done].
    + intros (m & [Hne Hm] & Hc). split; [by exists m|]. intros [_ ->]. done.
Qed.

Lemma unregister_lookup g id : nodes (unregister_node g id) = delete id (nodes g)
  /\ grid_size (unregister_node g id) = grid_size g /\ data (unregister_node g id) = data g.
Proof.
  unfold unregister_node. destruct (nodes g !! id) as [n|] eqn:E; [done|].
  split; [|done]. by rewrite delete_id.
Qed.

Lemma resize_length old_size new_size old :
  length (resize_data old_size new_size old) = (new_size * new_size)%nat.
Proof. unfold resize_data. by rewrite length_fmap, length_seq. Qed.

(** Growing the matrix keeps every old entry and fills the rest with zero. *)
Lemma resize_lookup old_size new_size old i j :
  length old = (old_size * old_size)%nat ->
  (i < new_size)%nat -> (j < new_size)%nat ->
  resize_data old_size new_size old !! (i * new_size + j)%nat =
  if (i <? old_size)%nat && (j <? old_size)%nat then old !! (i * old_size + j)%nat else Some d_zero.
Proof.
  intros Hl Hi Hj. unfold resize_data. rewrite list_lookup_fmap, lookup_seq_lt by nia. simpl.
  assert ((i * new_size + j) / new_size = i)%nat as ->
    by (symmetry; apply (Nat.div_unique _ _ _ j); lia).
  assert ((i * new_size + j) mod new_size = j)%nat as ->
    by (symmetry; apply (Nat.mod_unique _ _ i); lia).
  destruct ((i <? old_size)%nat && (j <? old_size)%nat) eqn:E; [|done].
  apply andb_true_iff in E as [E1%Nat.ltb_lt E2%Nat.ltb_lt].
  destruct (lookup_lt_is_Some_2 old (i * old_size + j)) as [v ->]; [nia|done].
Qed.

Lemma register_ok g n : grid_ok g -> grid_ok (register_node g n).
Proof.
  intros Hok. unfold register_node.
  set (g1 := match nodes g !! node_id n with Some _ => _ | None => g end).
  assert (grid_ok g1 /\ nodes g1 !! node_id n = None) as [[H1 H2 H3 H4] Hnone].
  { unfold g1. destruct (nodes g !! node_id n) eqn:E; [|done]. split; [by apply unregister_ok|].
    destruct (unregister_lookup g (node_id n)) as [-> _]. apply lookup_delete_eq. }
  assert (forall i m, (<[node_id n := n]> (nodes g1)) !! i = Some m -> node_id m = i) as Hids.
  { intros i m [[<- <-]|[_ Hm]]%lookup_insert_Some; [done|by apply H3]. }
  assert (forall cap id, id ∈ default [] (foldl (fun m cap =>
      <[cap := default [] (m !! cap) ++ [node_id n]]> m) (capability_to_node_ids g1)
      (capabilities n) !! cap) <->
    exists m, (<[node_id n := n]> (nodes g1)) !! id = Some m /\ cap ∈ capabilities m) as Hidx.
  { intros cap id. rewrite elem_of_push_all, H4. setoid_rewrite lookup_insert_Some. split.
    - intros [(m & Hm & Hc)|[Hc ->]]; [|by exists n; auto]. exists m. split; [|done]. right.
      split; [congruence|done].
    - intros (m & [[<- <-]|[Hne Hm]] & Hc); [by right|]. left. by exists m. }
  destruct (grid_size g1 <? _)%nat eqn:E; split; cbn [data grid_size nodes capability_to_node_ids];
    try done.
  - apply resize_length.
  - by apply Nat.ltb_ge in E.
Qed.

Lemma register_entries g n i j :
  grid_ok g -> (i < grid_size g)%nat -> (j < grid_size g)%nat ->
  at_index (register_node g n) i j = at_index g i j.
Proof.
  intros Hok Hi Hj. unfold register_node.
  set (g1 := match nodes g !! node_id n with Some _ => _ | None => g end).
  assert (grid_size g1 = grid_size g /\ data g1 = data g) as [Hs Hd].
  { unfold g1. destruct (nodes g !! node_id n); [|done]. apply unregister_lookup. }
  destruct (grid_size g1 <? _)%nat eqn:E; unfold at_index; cbn [grid_size data].
  - apply Nat.ltb_lt in E.
    rewrite !(proj2 (Nat.leb_gt _ _)) by lia. cbn [orb].
    rewrite resize_lookup by (rewrite ?Hd, ?Hs; by (apply Hok || lia)).
    rewrite !(proj2 (Nat.ltb_lt _ _)) by lia. cbn [andb]. by rewrite Hs, Hd.
  - by rewrite Hs, Hd.
Qed.

Lemma at_all_spec m ids :
  (forall id, id ∈ ids -> is_Some (m !! id)) ->
  exists ns, at_all m ids = Some ns /\ Forall2 (fun id n => m !! id = Some n) ids ns.
Proof.
  induction ids as [|id ids IH]; intros H; [by exists []; split|].
  destruct (H id ltac:(set_solver)) as [n Hn].
  destruct IH as (ns & Hns & Hf); [set_solver|].
  exists (n :: ns). cbn [at_all]. rewrite Hn, Hns. split; [done|]. by constructor.
Qed.

(** The grids reachable by registering, unregistering and writing entries. *)
Inductive grid_step : TopologyGrid -> TopologyGrid -> Prop :=
| gs_register g n : grid_step g (register_node g n)
| gs_unregister g id : grid_step g (unregister_node g id)
| gs_set g i j v g' : set_index g i j v = Some g' -> grid_step g g'.

Lemma grid_step_ok g g' : grid_ok g -> grid_step g g' -> grid_ok g'.
Proof.
  intros Hok Hst. destruct Hst as [g n|g id|g i j v g' Hset].
  - by apply register_ok.
  - by apply unregister_ok.
  - unfold set_index in Hset. destruct (_ || _); [done|]. injection Hset as <-.
    destruct Hok as [H1 H2 H3 H4]. split; try done. simpl. by rewrite length_insert.
Qed.

Lemma new_grid_ok k : grid_ok (new_grid k).
Proof.
  split; cbn [new_grid data grid_size nodes capability_to_node_ids].
  - apply length_replicate.
  - rewrite map_size_empty. lia.
  - by intros id n ?%lookup_empty_Some.
  - intros cap id. rewrite lookup_empty. setoid_rewrite lookup_empty. set_solver.
Qed.

(** On every grid reached by registering and unregistering nodes and
    writing entries, looking up a capability never throws and returns exactly
    the registered nodes that have it. *)
Lemma capability_lookup k g cap :
  steps grid_step (new_grid k) g ->
  exists ns, find_nodes_by_capability g cap = Some ns /\
    forall n, n ∈ ns <-> nodes g !! node_id n = Some n /\ cap ∈ capabilities n.
Proof.
  intros Hst.
  assert (grid_ok g) as Hok
    by (eapply (steps_invariant grid_step grid_ok); [exact grid_step_ok|exact Hst|apply new_grid_ok]).
  destruct Hok as [_ _ Hid Hidx]. unfold find_nodes_by_capability.
  specialize (Hidx cap). destruct (capability_to_node_ids g !! cap) as [ids|]; simpl in Hidx.
  - destruct (at_all_spec (nodes g) ids) as (ns & Hns & Hf).
    { intros id Hin. apply Hidx in Hin as (n & Hn & _). by exists n. }
    exists ns. split; [done|]. intros n. split.
    + intros Hin. apply list_elem_of_lookup_1 in Hin as [i Hi].
      destruct (Forall2_lookup_r _ _ _ _ _ Hf Hi) as (id & Hid' & Hn). simpl in Hn.
      pose proof (Hid _ _ Hn) as <-. split; [done|].
      assert (node_id n ∈ ids) as Hin by (by eapply list_elem_of_lookup_2).
      apply Hidx in Hin as (m & Hm & Hc). congruence.
    + intros [Hn Hc]. assert (node_id n ∈ ids) as Hin by (apply Hidx; by exists n).
      apply list_elem_of_lookup_1 in Hin as [i Hi].
      destruct (Forall2_lookup_l _ _ _ _ _ Hf Hi) as (m & Hm & Hn'). simpl in Hn'.
      assert (m = n) as -> by congruence. by eapply list_elem_of_lookup_2.
  - exists []. split; [done|]. intros n. split; [by intros ?%not_elem_of_nil|].
    intros [Hn Hc]. exfalso. eapply not_elem_of_nil, Hidx. by exists n.
Qed.

(** Registering a node, with or without growing the matrix, keeps every
    existing entry. *)
Lemma register_keeps_entries k g n i j :
  steps grid_step (new_grid k) g -> (i < grid_size g)%nat -> (j < grid_size g)%nat ->
  at_index (register_node g n) i j = at_index g i j /\ is_Some (at_index g i j).
Proof.
  intros Hst Hi Hj.
  assert (grid_ok g) as Hok
    by (eapply (steps_invariant grid_step grid_ok); [exact grid_step_ok|exact Hst|apply new_grid_ok]).
  split; [by apply register_entries|]. unfold at_index.
  rewrite !(proj2 (Nat.leb_gt _ _)) by lia. cbn [orb]. apply lookup_lt_is_Some.
  rewrite (gr_data g Hok). nia.
Qed.

Definition sample_node : NodeInfo := mkNodeInfo (lit "n1") (lit "r") (lit "online") [lit "c"].
Definition one_node : TopologyGrid := register_node (new_grid 0) sample_node.

Lemma capability_lookup_witness :
  exists ns, find_nodes_by_capability one_node (lit "c") = Some ns /\
    forall n, n ∈ ns <-> nodes one_node !! node_id n = Some n /\ lit "c" ∈ capabilities n.
Proof.
  eapply (capability_lookup 0). eapply steps_cons; [apply gs_register|apply steps_nil].
Defined.

Lemma register_keeps_entries_witness :
  at_index (register_node one_node sample_node) 0 0 = at_index one_node 0 0 /\
  is_Some (at_index one_node 0 0).
Proof.
  eapply (register_keeps_entries 0);
    [eapply steps_cons; [apply gs_register|apply steps_nil]|apply Nat.ltb_lt; reflexivity..].
Defined.
End Topology.
