(* ===== verification/Router.v ===== *)
(** * The cost-aware router: [libs/core/src/router.cpp]

    Provider selection over the parallel provider arrays, spend tracking and
    the least-recently-used bound on tracked sessions.  [session_index_] maps a
    session to its position in the list [session_order_]; since a session
    occurs there once, the position is the session itself and the index is a
    set.  Costs are binary64 numbers.  The iteration order of the unordered map
    [name_to_provider_] is an argument of [track_session_usage], which is [None]
    where an assertion fails or the sum of the tokens overflows. *)

From Stdlib Require Import ZArith Ascii String Lia SpecFloat.
From stdpp Require Import base list gmap strings.
From S2P Require Import Prelude CxxString Doubles.

Record ProviderMetrics : Type := mkProvider {
  pm_name : str; cost_per_1k_tokens : double; avg_latency_ms : Z; reliability_score : double;
}.

Record SessionUsageRecord : Type := mkUsage {
  u_agent_id : str; u_model : str; u_input_tokens : Z; u_output_tokens : Z; u_cost : double;
}.

Record FinOpsRouter : Type := mkRouter {
  budget_limit : double;
  current_spend : double;
  session_limit : nat;
  p_names : list str;
  p_costs : list double;
  p_latencies : list Z;
  p_reliabilities : list double;
  name_to_provider : gmap str nat;
  session_usage : gmap str (list SessionUsageRecord);
  session_order : list str;
  session_index : gset str;
  rr_counter : Z;
}.

Definition initial_providers : list ProviderMetrics :=
  [mkProvider (lit "ollama") (d_lit 0 1) 150 (d_lit 95 100);
   mkProvider (lit "claude") (d_lit 15 1000) 800 (d_lit 99 100);
   mkProvider (lit "gemini") (d_lit 5 1000) 400 (d_lit 98 100)].

Definition new_router (limit : double) : FinOpsRouter :=
  mkRouter limit d_zero 100
    (pm_name <$> initial_providers) (cost_per_1k_tokens <$> initial_providers)
    (avg_latency_ms <$> initial_providers) (reliability_score <$> initial_providers)
    (list_to_map (imap (fun i p => (pm_name p, i)) initial_providers))
    ∅ [] ∅ 0.

(** [std::min_element]: index of the first smallest element. *)
Fixpoint min_index {A} (lt : A -> A -> bool) (best : A) (best_i i : nat) (l : list A) : nat :=
  match l with
  | [] => best_i
  | x :: l => if lt x best then min_index lt x i (S i) l else min_index lt best best_i (S i) l
  end.
Definition min_element {A} (lt : A -> A -> bool) (l : list A) : nat :=
  match l with [] => 0 | x :: l => min_index lt x 0 1 l end.

Definition score (reliability cost : double) (latency : Z) : double :=
  d_sub (d_sub (d_mul reliability (d_of_Z 10)) (d_mul cost (d_of_Z 500)))
    (d_div (d_of_Z latency) (d_of_Z 500)).

(** The loop that keeps the first best score above [-1000000]. *)
Fixpoint best_loop (scores : list double) (i : nat) (best_score : double) (best_idx : nat) : nat :=
  match scores with
  | [] => best_idx
  | s :: scores =>
      if d_lt best_score s then best_loop scores (S i) s i
      else best_loop scores (S i) best_score best_idx
  end.

Definition scores_of (r : FinOpsRouter) : list double :=
  zip_with (fun rc l => score (fst rc) (snd rc) l) (zip (p_reliabilities r) (p_costs r)) (p_latencies r).

Definition name_at (r : FinOpsRouter) (i : nat) : str := default [] (p_names r !! i).

Definition bump_rr (r : FinOpsRouter) : FinOpsRouter :=
  mkRouter (budget_limit r) (current_spend r) (session_limit r) (p_names r) (p_costs r)
    (p_latencies r) (p_reliabilities r) (name_to_provider r) (session_usage r) (session_order r)
    (session_index r) (u64 (rr_counter r + 1)).

Definition select_provider (r : FinOpsRouter) (task_complexity priority : str) :
    str * FinOpsRouter :=
  let n := length (p_names r) in
  if (n =? 0)%nat then (lit "ollama", r)
  else if bool_decide (task_complexity = lit "low") then (lit "ollama", r)
  else if bool_decide (priority = lit "swarm") then
    (name_at r (Z.to_nat (rr_counter r mod Z.of_nat n)), bump_rr r)
  else if bool_decide (priority = lit "speed") then
    (name_at r (min_element Z.ltb (p_latencies r)), r)
  else if bool_decide (priority = lit "cost") then
    (name_at r (min_element d_lt (p_costs r)), r)
  else (name_at r (best_loop (scores_of r) 0 (d_of_Z (-1000000)) 0), r).

Definition add_spend (r : FinOpsRouter) (c : double) : FinOpsRouter :=
  mkRouter (budget_limit r) (d_add (current_spend r) c) (session_limit r) (p_names r) (p_costs r)
    (p_latencies r) (p_reliabilities r) (name_to_provider r) (session_usage r) (session_order r)
    (session_index r) (rr_counter r).

Definition token_cost (tokens : Z) (per_1k : double) : double :=
  d_mul (d_div (d_of_Z tokens) (d_of_Z 1000)) per_1k.

(** An unknown provider is only logged. *)
Definition track_usage (r : FinOpsRouter) (provider_name : str) (tokens : Z) : FinOpsRouter :=
  match name_to_provider r !! provider_name with
  | Some i => add_spend r (token_cost tokens (default d_zero (p_costs r !! i)))
  | None => r
  end.

(** The cost of a call: the first provider, in [order], whose name occurs in
    the model string; a floor keeps it positive. *)
Definition session_call_cost (r : FinOpsRouter) (order : list (str * nat)) (model : str) (total : Z) :
    double :=
  let cost := match List.find (fun p => contains_sub (fst p) model) order with
              | Some (_, i) => token_cost total (default d_zero (p_costs r !! i))
              | None => d_zero
              end in
  if d_le cost d_zero then token_cost (Z.max 1 total) (d_lit 1 1000) else cost.

Definition set_sessions (r : FinOpsRouter) (order : list str) (index : gset str)
    (usage : gmap str (list SessionUsageRecord)) : FinOpsRouter :=
  mkRouter (budget_limit r) (current_spend r) (session_limit r) (p_names r) (p_costs r)
    (p_latencies r) (p_reliabilities r) (name_to_provider r) usage order index (rr_counter r).

(** [while (session_order_.size() > session_limit_)]: one victim per turn. *)
Fixpoint evict_loop (n : nat) (limit : nat) (order : list str) (index : gset str)
    (usage : gmap str (list SessionUsageRecord)) :
    list str * gset str * gmap str (list SessionUsageRecord) :=
  match n, order with
  | S n, victim :: rest =>
      if (limit <? length order)%nat
      then evict_loop n limit rest (index ∖ {[victim]}) (delete victim usage)
      else (order, index, usage)
  | _, _ => (order, index, usage)
  end.

Definition enforce_limits (r : FinOpsRouter) : FinOpsRouter :=
  let '(order, index, usage) :=
    evict_loop (length (session_order r)) (session_limit r) (session_order r) (session_index r)
      (session_usage r) in
  set_sessions r order index usage.

(** [splice] to the back: the session's node moves behind all others. *)
Definition move_to_back (s : str) (order : list str) : list str :=
  List.filter (fun x => negb (bool_decide (x = s))) order ++ [s].

(** What [track_session_usage] does under the mutex, at the cost of the call *)
Definition record_usage (r : FinOpsRouter) (session_id agent_id model : str) (input_tokens output_tokens : Z) (cost : double) :
    FinOpsRouter :=
  let r :=
    if bool_decide (session_id ∈ session_index r)
    then set_sessions r (move_to_back session_id (session_order r)) (session_index r) (session_usage r)
    else enforce_limits
           (set_sessions r (session_order r ++ [session_id]) ({[session_id]} ∪ session_index r)
              (session_usage r)) in
  let record := mkUsage agent_id model input_tokens output_tokens cost in
  let usage := <[session_id := default [] (session_usage r !! session_id) ++ [record]]>
                 (session_usage r) in
  add_spend (set_sessions r (session_order r) (session_index r) usage) cost.

(** [None]: one of the two assertions fails, or the sum overflows [int]. *)
Definition track_session_usage (r : FinOpsRouter) (map_order : list (str * nat))
    (session_id agent_id model : str) (input_tokens output_tokens : Z) : option FinOpsRouter :=
  if bool_decide (session_id = []) then None
  else if negb ((0 <=? input_tokens) && (0 <=? output_tokens))%Z then None
  else
    total ← int_range (input_tokens + output_tokens);
    Some (record_usage r session_id agent_id model input_tokens output_tokens (session_call_cost r map_order model total)).

Definition set_session_limit (r : FinOpsRouter) (limit : nat) : FinOpsRouter :=
  mkRouter (budget_limit r) (current_spend r) limit (p_names r) (p_costs r)
    (p_latencies r) (p_reliabilities r) (name_to_provider r) (session_usage r) (session_order r)
    (session_index r) (rr_counter r).

Definition session_cost (r : FinOpsRouter) (session_id : str) : double :=
  match session_usage r !! session_id with
  | None => d_zero
  | Some records => foldl (fun total rec => d_add total (u_cost rec)) d_zero records
  end.

Definition check_budget (r : FinOpsRouter) (session_id : str) (limit : double) : bool :=
  d_le (session_cost r session_id) limit.

(** ** The session table *)

(** Each tracked session is in the order list once, in the index and has
    usage records. *)
Record sessions_ok (r : FinOpsRouter) : Prop := {
  so_nodup : NoDup (session_order r);
  so_index : forall s, s ∈ session_index r <-> s ∈ session_order r;
  so_usage : forall s, is_Some (session_usage r !! s) <-> s ∈ session_order r;
}.

Lemma evict_loop_spec n limit order index usage :
  (length order <= n)%nat -> NoDup order ->
  evict_loop n limit order index usage =
  (drop (length order - limit) order,
   index ∖ list_to_set (take (length order - limit) order),
   foldr delete usage (rev (take (length order - limit) order))).
Proof.
  revert order index usage. induction n as [|n IH]; intros [|v rest] index usage Hn Hnd;
    cbn [evict_loop]; try (simpl in Hn; lia).
  1, 2: simpl; rewrite difference_empty_L; done.
  destruct (limit <? length (v :: rest))%nat eqn:E.
  - apply Nat.ltb_lt in E. apply NoDup_cons in Hnd as [_ Hnd].
    rewrite IH by (simpl in *; lia || done).
    replace (length (v :: rest) - limit)%nat with (S (length rest - limit)) by (simpl in *; lia).
    cbn [drop take list_to_set rev]. rewrite foldr_app. cbn [foldr].
    do 2 f_equal. set_solver.
  - apply Nat.ltb_ge in E. replace (length (v :: rest) - limit)%nat with 0%nat by lia.
    cbn [drop take list_to_set rev foldr]. by rewrite difference_empty_L.
Qed.

Lemma lookup_foldr_delete {A} (ks : list str) (m : gmap str A) k :
  foldr delete m ks !! k = if decide (k ∈ ks) then None else m !! k.
Proof.
  induction ks as [|x ks IH]; cbn [foldr]; [by rewrite decide_False by set_solver|].
  destruct (decide (k = x)) as [->|Hne].
  - rewrite lookup_delete_eq, decide_True by set_solver. done.
  - rewrite lookup_delete_ne, IH by done. repeat case_decide; set_solver.
Qed.

Lemma NoDup_take_drop (l : list str) k x : NoDup l -> x ∈ take k l -> x ∈ drop k l -> False.
Proof.
  intros Hnd H1 H2. rewrite <-(take_drop k l) in Hnd. apply NoDup_app in Hnd as (_ & H & _).
  by apply (H x).
Qed.

Lemma elem_of_rev {A} (l : list A) x : x ∈ rev l <-> x ∈ l.
Proof. rewrite !list_elem_of_In. symmetry. apply in_rev. Qed.

(** The table after the order list was cut to its last [limit] sessions. *)
Lemma enforce_limits_spec r :
  NoDup (session_order r) ->
  let k := (length (session_order r) - session_limit r)%nat in
  session_order (enforce_limits r) = drop k (session_order r) /\
  session_index (enforce_limits r) = session_index r ∖ list_to_set (take k (session_order r)) /\
  (forall s, session_usage (enforce_limits r) !! s =
     if decide (s ∈ take k (session_order r)) then None else session_usage r !! s).
Proof.
  intros Hnd k. unfold enforce_limits. rewrite evict_loop_spec by done.
  cbn [set_sessions session_order session_index session_usage]. split_and!; try done.
  intros s. rewrite lookup_foldr_delete. repeat case_decide; try done; rewrite elem_of_rev in *; done.
Qed.

Lemma elem_of_move_to_back s x order : x ∈ move_to_back s order <-> x = s \/ x ∈ order.
Proof.
  unfold move_to_back. rewrite elem_of_app, list_elem_of_singleton, list_elem_of_In, filter_In,
    <-list_elem_of_In, negb_true_iff, bool_decide_eq_false.
  destruct (decide (x = s)); naive_solver.
Qed.

Lemma move_to_back_nodup s order : NoDup order -> NoDup (move_to_back s order).
Proof.
  intros Hnd. unfold move_to_back. apply NoDup_app. split_and!.
  - rewrite NoDup_ListNoDup in *. by apply List.NoDup_filter.
  - intros x Hx. rewrite list_elem_of_In, filter_In, negb_true_iff, bool_decide_eq_false in Hx.
    destruct Hx as [_ Hx]. set_solver.
  - apply NoDup_singleton.
Qed.

(** The order after a call: the session moves to the back, and a new session
    pushes out the oldest ones over the limit. *)
Definition lru_order (limit : nat) (s : str) (order : list str) : list str :=
  if decide (s ∈ order) then move_to_back s order
  else drop (length order + 1 - limit) (order ++ [s]).

Lemma record_usage_spec r s a m i o cost :
  sessions_ok r -> (1 <= session_limit r)%nat ->
  let r' := record_usage r s a m i o cost in
  let rec := mkUsage a m i o cost in
  session_order r' = lru_order (session_limit r) s (session_order r) /\
  (forall x, x ∈ session_index r' <-> x ∈ session_order r') /\
  session_usage r' !! s = Some (default [] (session_usage r !! s) ++ [rec]) /\
  (forall x, x <> s -> session_usage r' !! x =
     if decide (x ∈ session_order r') then session_usage r !! x else None).
Proof.
  intros [Hnd Hidx Hus] Hl r' rec. unfold r', record_usage, lru_order.
  assert (forall x, x ∉ session_order r -> session_usage r !! x = None) as Hnone.
  { intros x Hx. apply eq_None_not_Some. by rewrite Hus. }
  case_bool_decide as Hs.
  - rewrite decide_True by (by apply Hidx).
    cbn [add_spend set_sessions session_order session_index session_usage]. split_and!.
    + done.
    + intros x. rewrite Hidx, elem_of_move_to_back. apply Hidx in Hs. naive_solver.
    + by rewrite lookup_insert_eq.
    + intros x Hx. rewrite lookup_insert_ne by done. case_decide as Hd; [done|]. apply Hnone.
      intros Hin. apply Hd. apply elem_of_move_to_back. by right.
  - assert (s ∉ session_order r) as Hs' by (by rewrite <-Hidx). rewrite decide_False by done.
    assert (NoDup (session_order r ++ [s])) as Hnd'.
    { apply NoDup_app. split_and!; [done|set_solver|apply NoDup_singleton]. }
    match goal with |- context [enforce_limits ?r0] =>
      destruct (enforce_limits_spec r0 Hnd') as (E1 & E2 & E3) end.
    cbn [set_sessions session_order session_index session_usage session_limit] in E1, E2, E3.
    set (k := (length (session_order r ++ [s]) - session_limit r)%nat) in *.
    assert (k = (length (session_order r) + 1 - session_limit r)%nat) as Hk
      by (unfold k; rewrite length_app; simpl; lia).
    assert (s ∉ take k (session_order r ++ [s])) as Hst.
    { intros Hin. rewrite take_app_le in Hin by lia. apply Hs'.
      rewrite <-(take_drop k (session_order r)). apply elem_of_app. by left. }
    cbn [add_spend set_sessions session_order session_index session_usage].
    rewrite E1, E2, Hk. rewrite <-Hk. split_and!.
    + done.
    + intros x. rewrite elem_of_difference, elem_of_union, elem_of_singleton, Hidx, elem_of_list_to_set.
      rewrite <-(take_drop k (session_order r ++ [s])) in Hnd'. apply NoDup_app in Hnd' as (_ & Hdis & _).
      assert (x = s \/ x ∈ session_order r <-> x ∈ take k (session_order r ++ [s])
              \/ x ∈ drop k (session_order r ++ [s])) as Hx.
      { rewrite <-elem_of_app, take_drop. set_solver. }
      rewrite Hx. split; [naive_solver|]. intros Hd. split; [by right|]. intros Ht. by apply (Hdis x).
    + rewrite lookup_insert_eq, E3, decide_False by done. done.
    + intros x Hx. rewrite lookup_insert_ne, E3 by done.
      rewrite <-(take_drop k (session_order r ++ [s])) in Hnd'. apply NoDup_app in Hnd' as (_ & Hdis & _).
      repeat case_decide; try done.
      * exfalso. by eapply Hdis.
      * apply Hnone. intros Hin.
        assert (x ∈ take k (session_order r ++ [s]) ++ drop k (session_order r ++ [s])) as Hin'
          by (rewrite take_drop; set_solver).
        apply elem_of_app in Hin' as [?|?]; done.
Qed.

Lemma drop_nodup {A} (l : list A) k : NoDup l -> NoDup (drop k l).
Proof. intros H. rewrite <-(take_drop k l) in H. by apply NoDup_app in H as (_ & _ & ?). Qed.

Lemma elem_of_lru_order limit s order x :
  (1 <= limit)%nat -> x ∈ lru_order limit s order -> x = s \/ x ∈ order.
Proof.
  intros Hl. unfold lru_order. case_decide; [by rewrite elem_of_move_to_back|].
  intros Hin. assert (x ∈ order ++ [s]) as Hx; [|set_solver].
  rewrite <-(take_drop (length order + 1 - limit) (order ++ [s])). apply elem_of_app. by right.
Qed.

Lemma lru_order_back limit s order : (1 <= limit)%nat -> s ∈ lru_order limit s order.
Proof.
  intros Hl. unfold lru_order. case_decide; [apply elem_of_move_to_back; by left|].
  rewrite drop_app_le by lia. set_solver.
Qed.

Lemma record_usage_ok r s a m i o cost :
  sessions_ok r -> (1 <= session_limit r)%nat -> sessions_ok (record_usage r s a m i o cost).
Proof.
  intros Hok Hl. destruct (record_usage_spec r s a m i o cost Hok Hl) as (E1 & E2 & E3 & E4).
  destruct Hok as [Hnd Hidx Hus]. split.
  - rewrite E1. unfold lru_order. case_decide; [by apply move_to_back_nodup|].
    apply drop_nodup, NoDup_app. split_and!; [done|set_solver|apply NoDup_singleton].
  - done.
  - intros x. destruct (decide (x = s)) as [->|Hne].
    + rewrite E3, E1. split; [intros _; by apply lru_order_back|by eexists].
    + rewrite (E4 x Hne). case_decide as Hd; [|split; [by intros []|done]].
      split; [done|]. intros _. apply Hus. rewrite E1 in Hd.
      by apply elem_of_lru_order in Hd as [?|?].
Qed.

(** Calls to [track_session_usage]: the session and the other arguments. *)
Record SessionCall : Type := mkCallArgs {
  sc_order : list (str * nat); sc_session : str; sc_agent : str; sc_model : str;
  sc_in : Z; sc_out : Z;
}.
Definition track_call (r : FinOpsRouter) (c : SessionCall) : option FinOpsRouter :=
  track_session_usage r (sc_order c) (sc_session c) (sc_agent c) (sc_model c) (sc_in c) (sc_out c).
Fixpoint track_calls (r : FinOpsRouter) (calls : list SessionCall) : option FinOpsRouter :=
  match calls with [] => Some r | c :: calls => r ← track_call r c; track_calls r calls end.

(** What the assertions ask of a call, and that its sum is an [int] *)
Definition call_ok (c : SessionCall) : Prop :=
  sc_session c <> [] /\ (0 <= sc_in c)%Z /\ (0 <= sc_out c)%Z /\ (sc_in c + sc_out c < 2 ^ 31)%Z.

Definition call_cost (r : FinOpsRouter) (c : SessionCall) : double :=
  session_call_cost r (sc_order c) (sc_model c) (sc_in c + sc_out c).
Definition after_call (r : FinOpsRouter) (c : SessionCall) : FinOpsRouter :=
  record_usage r (sc_session c) (sc_agent c) (sc_model c) (sc_in c) (sc_out c) (call_cost r c).

Lemma track_call_spec r c r' : track_call r c = Some r' <-> call_ok c /\ r' = after_call r c.
Proof.
  unfold track_call, track_session_usage, call_ok. case_bool_decide as Hs; [naive_solver|].
  destruct (_ && _) eqn:Ez; cbn [negb].
  - unfold int_range. case_bool_decide as Hi; cbn [mbind option_bind]; unfold int32 in Hi.
    + split; [intros [= <-]|by intros [_ ->]]. split; [|done]. split; [done|lia].
    + split; [done|]. intros [(_ & ? & ? & ?) _]. lia.
  - split; [done|]. intros [(_ & ? & ? & ?) _]. lia.
Qed.

Lemma after_call_limit r c : session_limit (after_call r c) = session_limit r.
Proof.
  unfold after_call, record_usage. cbn [add_spend set_sessions session_limit].
  case_bool_decide; [done|]. unfold enforce_limits. by destruct (evict_loop _ _ _ _ _) as [[? ?] ?].
Qed.

Lemma lru_order_length limit s order : NoDup order -> (1 <= limit)%nat -> (length order <= limit)%nat ->
  (length (lru_order limit s order) <= limit)%nat.
Proof.
  intros Hnd Hl Hlen. unfold lru_order. case_decide as Hd.
  - assert (length (move_to_back s order) <= length order)%nat; [|lia].
    apply submseteq_length, NoDup_submseteq; [by apply move_to_back_nodup|].
    intros x. rewrite elem_of_move_to_back. naive_solver.
  - rewrite length_drop, length_app. simpl. lia.
Qed.

(** C30: a fresh router with a positive session limit takes exactly the calls
    that its assertions admit (a session name, token counts that are not
    negative and whose sum is an int); after any number of them the tracked
    sessions are the most recently used ones in order, at most as many as the
    limit, each once, and exactly they are indexed and have usage records. *)
Theorem session_table_lru budget limit calls :
  (1 <= limit)%nat ->
  match track_calls (set_session_limit (new_router budget) limit) calls with
  | Some r =>
      Forall call_ok calls /\ sessions_ok r /\ (length (session_order r) <= limit)%nat /\
      session_order r = foldl (fun order c => lru_order limit (sc_session c) order) [] calls
  | None => ~ Forall call_ok calls
  end.
Proof.
  intros Hl. set (r0 := set_session_limit _ _).
  assert (sessions_ok r0 /\ session_limit r0 = limit /\ (length (session_order r0) <= limit)%nat) as (Hok & Hlim & Hlen).
  { split_and!; [|done|cbn; lia]. split; [constructor|set_solver|].
    intros s. cbn. rewrite lookup_empty. split; [by intros []|by intros ?%not_elem_of_nil]. }
  change ([] : list str) with (session_order r0). clearbody r0. revert r0 Hok Hlim Hlen.
  induction calls as [|c calls IH]; intros r Hok Hlim Hlen; [done|]. cbn [track_calls foldl].
  destruct (track_call r c) as [r1|] eqn:E; cbn [mbind option_bind].
  - apply track_call_spec in E as [Hc ->]. assert (1 <= session_limit r)%nat as Hl' by lia.
    destruct (record_usage_spec r (sc_session c) (sc_agent c) (sc_model c) (sc_in c) (sc_out c) (call_cost r c) Hok Hl') as (E1 & _).
    fold (after_call r c) in E1. specialize (IH (after_call r c)). rewrite E1, after_call_limit, Hlim in IH.
    specialize (IH (record_usage_ok _ _ _ _ _ _ _ Hok Hl') eq_refl).
    specialize (IH (lru_order_length _ _ _ (so_nodup _ Hok) Hl Hlen)).
    destruct (track_calls (after_call r c) calls) as [r'|].
    + destruct IH as (Hcs & IH). split; [by constructor|done].
    + intros Hcs. apply IH. by inversion Hcs.
  - intros Hcs. assert (track_call r c = Some (after_call r c)) as E'; [|congruence].
    apply track_call_spec. split; [by inversion Hcs|done].
Qed.

(** A call adds its cost to its own session's total and changes no other
    tracked session's; an evicted session's cost reads zero again. *)
Lemma session_cost_tracks r c x :
  sessions_ok r -> (1 <= session_limit r)%nat ->
  let r' := after_call r c in
  session_cost r' (sc_session c) = d_add (session_cost r (sc_session c)) (call_cost r c) /\
  (x <> sc_session c -> x ∈ session_order r' -> session_cost r' x = session_cost r x) /\
  (x <> sc_session c -> x ∉ session_order r' -> session_cost r' x = d_zero).
Proof.
  intros Hok Hl r'. unfold r', after_call.
  destruct (record_usage_spec r (sc_session c) (sc_agent c) (sc_model c) (sc_in c) (sc_out c) (call_cost r c) Hok Hl)
    as (_ & _ & E3 & E4).
  unfold session_cost. split_and!.
  - rewrite E3, foldl_app. cbn [foldl u_cost].
    destruct (session_usage r !! sc_session c) as [recs|]; done.
  - intros Hx Hin. by rewrite (E4 x Hx), decide_True.
  - intros Hx Hin. by rewrite (E4 x Hx), decide_False.
Qed.

(** With a session limit of zero a call leaves usage records behind for
    a session that is neither in the order list nor in the index, so no later
    call evicts it. *)
Lemma zero_limit_leaks :
  let r := default (new_router d_zero)
             (track_session_usage (set_session_limit (new_router d_zero) 0) [] (lit "s") (lit "agent") (lit "m") 1 1) in
  session_order r = [] /\ session_index r = ∅ /\ is_Some (session_usage r !! lit "s").
Proof. split; [by vm_compute|]. split; [by vm_compute|]. vm_compute. by eexists. Qed.

(** With the built-in providers every request that is not a swarm
    request of more than low complexity is routed to [ollama]: it is the
    fastest, the cheapest and the best scored one. *)
Lemma builtin_routing_is_ollama budget complexity priority :
  complexity = lit "low" \/ priority <> lit "swarm" ->
  select_provider (new_router budget) complexity priority = (lit "ollama", new_router budget).
Proof.
  intros H. unfold select_provider.
  assert ((length (p_names (new_router budget)) =? 0)%nat = false) as -> by reflexivity.
  case_bool_decide as Hc; [done|]. destruct H as [?|Hp]; [done|].
  rewrite (bool_decide_false (priority = _)) by done.
  assert (name_at (new_router budget) (min_element Z.ltb (p_latencies (new_router budget))) = lit "ollama")
    as -> by (vm_compute; reflexivity).
  assert (name_at (new_router budget) (min_element d_lt (p_costs (new_router budget))) = lit "ollama")
    as -> by (vm_compute; reflexivity).
  assert (name_at (new_router budget)
    (best_loop (scores_of (new_router budget)) 0 (d_of_Z (-1000000)) 0) = lit "ollama")
    as -> by (vm_compute; reflexivity).
  by repeat case_bool_decide.
Qed.

Definition call (s : string) : SessionCall := mkCallArgs [] (lit s) (lit "a") (lit "m") 10 20.

Lemma session_table_lru_witness :
  session_order <$> track_calls (set_session_limit (new_router d_zero) 2) [call "x"; call "y"; call "x"; call "z"]
  = Some [lit "x"; lit "z"].
Proof.
  pose proof (session_table_lru d_zero 2 [call "x"; call "y"; call "x"; call "z"] ltac:(lia)) as H.
  destruct (track_calls _ _) as [r|] eqn:E; [|vm_compute in E; discriminate E].
  destruct H as (_ & _ & _ & H). cbn [fmap option_fmap option_map]. rewrite H. vm_compute. reflexivity.
Defined.

Lemma sessions_ok_new budget limit : sessions_ok (set_session_limit (new_router budget) limit).
Proof.
  split; [constructor|set_solver|]. intros s. cbn. rewrite lookup_empty.
  split; [by intros []|by intros ?%not_elem_of_nil].
Qed.

Lemma session_cost_tracks_witness :
  session_cost (after_call (set_session_limit (new_router d_zero) 2) (call "x")) (lit "x")
  = d_add d_zero (token_cost 30 (d_lit 1 1000)).
Proof.
  destruct (session_cost_tracks (set_session_limit (new_router d_zero) 2) (call "x") (lit "y"))
    as (H & _ & _); [apply sessions_ok_new|simpl; lia|]. exact H.
Defined.

Lemma builtin_routing_is_ollama_witness :
  fst (select_provider (new_router d_zero) (lit "high") (lit "balanced")) = lit "ollama".
Proof. rewrite builtin_routing_is_ollama; [reflexivity|right; discriminate]. Defined.
