(* ===== verification/Scan.v ===== *)
(** * Pattern rules: [libs/scan/src/rule.cpp] and [rule_engine.cpp]

    The typed form of an OpenGrep rule pack and the engine that applies it to
    a code property graph.  A [Pattern] is the tree the loader builds;
    [pattern_matches] evaluates it on the text of a node.  [Inside] climbs the
    AstChild parents of the node; [fuel] bounds that climb, and one more than
    the node's id is enough because parents have smaller ids.  [matches_at] is
    the meaning of a pattern as a proposition, with no walk in it. *)

From Stdlib Require Import ZArith Ascii String Lia.
From stdpp Require Import base list gmap strings.
From S2P Require Import Prelude CxxString CpgGraph Finding Reach Taint.

(** ** Rules *)

Inductive RuleSeverity : Type := RInfo | RWarning | RError.

Inductive PatternKind : Type := PLiteral | PComposite | PAlternation | PNegation | PInside.

Inductive Pattern : Type :=
| mkPattern (p_kind : PatternKind) (p_text : str) (p_children : list Pattern).

(** A default-constructed [Pattern]. *)
Definition no_pattern : Pattern := mkPattern PLiteral [] [].

Record RuleMetadata : Type := mkMetadata {
  primary_cwe : option str;
  primary_owasp : option OwaspCategory;
  references : list str;
  extras : list (str * str);
}.

Record Rule : Type := mkRule {
  r_id : str;
  r_message : str;
  r_severity : RuleSeverity;
  r_languages : list Language;
  r_pattern : Pattern;
  r_metadata : RuleMetadata;
}.

Record RulePack : Type := mkPack { pack_name : str; pack_rules : list Rule }.

(** [lower == a || lower == b || ...] *)
Definition is_word (s : str) (ws : list string) : bool :=
  existsb (fun w => bool_decide (s = lit w)) ws.

Definition parse_severity (s : str) : option RuleSeverity :=
  let l := lower s in
  if is_word l ["info"; "informational"] then Some RInfo
  else if is_word l ["warning"; "warn"] then Some RWarning
  else if is_word l ["error"; "critical"] then Some RError
  else None.

Definition to_security_severity (s : RuleSeverity) : Severity :=
  match s with RInfo => SevInfo | RWarning => SevMedium | RError => SevHigh end.

Definition parse_language_token (s : str) : option Language :=
  let l := lower s in
  if is_word l ["c"] then Some LC
  else if is_word l ["cpp"; "c++"; "cxx"] then Some LCpp
  else if is_word l ["rust"; "rs"] then Some LRust
  else if is_word l ["go"; "golang"] then Some LGo
  else if is_word l ["python"; "py"] then Some LPython
  else if is_word l ["javascript"; "js"] then Some LJavaScript
  else if is_word l ["typescript"; "ts"] then Some LTypeScript
  else if is_word l ["java"] then Some LJava
  else None.

(** The loop that copies up to the first separator. *)
Fixpoint owasp_prefix (s : str) : str :=
  match s with
  | [] => []
  | c :: s =>
      if char_is ":" c || char_is "-" c || char_is "_" c || char_is " " c then []
      else c :: owasp_prefix s
  end.

Definition parse_owasp_token (s : str) : option OwaspCategory :=
  let l := lower (owasp_prefix s) in
  if is_word l ["a01"] then Some A01_BrokenAccessControl
  else if is_word l ["a02"] then Some A02_CryptographicFailures
  else if is_word l ["a03"] then Some A03_SupplyChainFailures
  else if is_word l ["a04"] then Some A04_InsecureDesign
  else if is_word l ["a05"] then Some A05_SecurityMisconfiguration
  else if is_word l ["a06"] then Some A06_VulnerableComponents
  else if is_word l ["a07"] then Some A07_AuthenticationFailures
  else if is_word l ["a08"] then Some A08_DataIntegrityFailures
  else if is_word l ["a09"] then Some A09_LoggingMonitoringFailures
  else if is_word l ["a10"] then Some A10_MishandlingExceptionalConditions
  else None.

(** ** Matching *)

(** [std::all_of] and [std::any_of], for a predicate that may run out of fuel. *)
Section quantifiers.
Context {A : Type} (f : A -> option bool).

Fixpoint all_of (l : list A) : option bool :=
  match l with
  | [] => Some true
  | x :: l => match f x with Some true => all_of l | r => r end
  end.

Fixpoint any_of (l : list A) : option bool :=
  match l with
  | [] => Some false
  | x :: l => match f x with Some false => any_of l | r => r end
  end.
End quantifiers.

(** The [while (parent.is_valid())] loop of [inside_matches]; [f] evaluates
    the nested pattern. *)
Section climb.
Context (g : Graph) (ast : Ast) (f : str -> NodeId -> option bool).

Fixpoint climb (fuel : nat) (anc : NodeId) : option bool :=
  match fuel with
  | O => None
  | S fuel =>
      if negb (is_valid anc) then Some false
      else
        let here :=
          match get g anc with
          | Some n => if bool_decide (node_text ast (n_range n) = []) then Some false
                      else f (node_text ast (n_range n)) anc
          | None => Some false
          end in
        match here with Some false => climb fuel (parent g anc) | r => r end
  end.
End climb.

(** [inside_matches]: only the front child is used; [fs] are the evaluators of
    the children. *)
Definition inside_matches (fuel : nat) (g : Graph) (ast : Ast)
    (fs : list (str -> NodeId -> option bool)) (current_node : NodeId) : option bool :=
  match fs with
  | [] => Some false
  | f :: _ => climb g ast f fuel (parent g current_node)
  end.

Fixpoint pattern_matches (fuel : nat) (g : Graph) (ast : Ast) (p : Pattern) (text : str)
    (current_node : NodeId) {struct p} : option bool :=
  match p with
  | mkPattern PLiteral t _ =>
      if bool_decide (t = []) then Some false else Some (contains_sub t text)
  | mkPattern PComposite _ cs =>
      if bool_decide (length cs = 0%nat) then Some false
      else all_of (fun c => pattern_matches fuel g ast c text current_node) cs
  | mkPattern PAlternation _ cs =>
      if bool_decide (length cs = 0%nat) then Some false
      else any_of (fun c => pattern_matches fuel g ast c text current_node) cs
  | mkPattern PNegation _ cs =>
      match cs with
      | [] => Some true
      | c :: _ => negb <$> pattern_matches fuel g ast c text current_node
      end
  | mkPattern PInside _ cs =>
      inside_matches fuel g ast (map (fun c => pattern_matches fuel g ast c) cs) current_node
  end.

Definition rule_matches_language (r : Rule) (lang : Language) : bool :=
  bool_decide (length (r_languages r) = 0%nat) || bool_decide (lang ∈ r_languages r).

(** ** Findings *)

Definition fnv1a (a b c d : str) : Z :=
  absorb_str (absorb_str (absorb_str (absorb_str kFnvOffset a) b) c) d.

Definition stable_fingerprint (rule_id file raw_kind name : str) : str :=
  let h := fnv1a rule_id file raw_kind name in
  hex16 h ++ hex16 (Z.lxor h 0x5a5a5a5a5a5a5a5a).

(** [now] is the clock read of the default-constructed [Finding]. *)
Definition make_finding (now : Z) (r : Rule) (pack : RulePack) (n : Node) (file : str) : Finding :=
  let id := lit "opengrep/" ++ pack_name pack ++ lit "/" ++ r_id r in
  mkFinding (stable_fingerprint id file (n_raw_kind n) (n_name n)) id (r_message r)
    (to_security_severity (r_severity r)) ConfProbable OpenGrep (location_of file n) []
    ((fun c => mkCwe c [] false 0) <$> primary_cwe (r_metadata r))
    (default OwaspNone (primary_owasp (r_metadata r)))
    QuantumNone (references (r_metadata r)) [] [] now.

Record EngineStats : Type := mkEngineStats {
  rules_evaluated : nat; nodes_visited : nat; findings_emitted : nat;
  skipped_language_mismatch : nat;
}.

Record EngineResult : Type := mkResult { findings : list Finding; stats : EngineStats }.

(** The inner loop over [graph.nodes()]. *)
Definition visit_node (now : Z) (fuel : nat) (pack : RulePack) (ast : Ast) (g : Graph) (file : str)
    (rule : Rule) (res : EngineResult) (n : Node) : option EngineResult :=
  let s := stats res in
  let s := mkEngineStats (rules_evaluated s) (S (nodes_visited s)) (findings_emitted s)
             (skipped_language_mismatch s) in
  let text := node_text ast (n_range n) in
  if bool_decide (text = []) then Some (mkResult (findings res) s)
  else match pattern_matches fuel g ast (r_pattern rule) text (n_id n) with
       | None => None
       | Some false => Some (mkResult (findings res) s)
       | Some true =>
           Some (mkResult (findings res ++ [make_finding now rule pack n file])
             (mkEngineStats (rules_evaluated s) (nodes_visited s) (S (findings_emitted s))
                (skipped_language_mismatch s)))
       end.

Fixpoint visit_nodes (now : Z) (fuel : nat) (pack : RulePack) (ast : Ast) (g : Graph) (file : str)
    (rule : Rule) (res : EngineResult) (ns : list Node) : option EngineResult :=
  match ns with
  | [] => Some res
  | n :: ns =>
      match visit_node now fuel pack ast g file rule res n with
      | Some res => visit_nodes now fuel pack ast g file rule res ns
      | None => None
      end
  end.

(** The outer loop over [pack.rules]. *)
Fixpoint visit_rules (now : Z) (fuel : nat) (pack : RulePack) (ast : Ast) (g : Graph) (file : str)
    (res : EngineResult) (rules : list Rule) : option EngineResult :=
  match rules with
  | [] => Some res
  | r :: rules =>
      if rule_matches_language r (ast_language ast) then
        match visit_nodes now fuel pack ast g file r res (g_nodes g) with
        | Some res => visit_rules now fuel pack ast g file res rules
        | None => None
        end
      else
        let s := stats res in
        visit_rules now fuel pack ast g file
          (mkResult (findings res) (mkEngineStats (rules_evaluated s) (nodes_visited s)
             (findings_emitted s) (S (skipped_language_mismatch s)))) rules
  end.

Definition apply_rules (now : Z) (fuel : nat) (pack : RulePack) (ast : Ast) (g : Graph)
    (file : str) : option EngineResult :=
  visit_rules now fuel pack ast g file
    (mkResult [] (mkEngineStats (length (pack_rules pack)) 0 0 0)) (pack_rules pack).

(** ** The meaning of patterns *)

(** [a] is a proper AST ancestor of [x]. *)
Definition above (g : Graph) (x a : NodeId) : Prop := exists p, up g x p /\ steps (up g) p a.

Fixpoint matches_at (g : Graph) (ast : Ast) (p : Pattern) (text : str) (x : NodeId) {struct p} :
    Prop :=
  match p with
  | mkPattern PLiteral t _ => t <> [] /\ exists a b, text = a ++ t ++ b
  | mkPattern PComposite _ cs =>
      cs <> [] /\ foldr (fun c P => matches_at g ast c text x /\ P) True cs
  | mkPattern PAlternation _ cs => foldr (fun c P => matches_at g ast c text x \/ P) False cs
  | mkPattern PNegation _ cs =>
      match cs with [] => True | c :: _ => ~ matches_at g ast c text x end
  | mkPattern PInside _ cs =>
      match cs with
      | [] => False
      | c :: _ => exists a n, above g x a /\ get g a = Some n /\ node_text ast (n_range n) <> [] /\
                    matches_at g ast c (node_text ast (n_range n)) a
      end
  end.

(** A rule reports a node: it applies to the language, the node has text and
    the text matches. *)
Definition reports (g : Graph) (ast : Ast) (r : Rule) (n : Node) : Prop :=
  rule_matches_language r (ast_language ast) = true /\ node_text ast (n_range n) <> [] /\
  matches_at g ast (r_pattern r) (node_text ast (n_range n)) (n_id n).

(** A pattern with no negation and no [Inside] in it. *)
Fixpoint positive (p : Pattern) : bool :=
  match p with
  | mkPattern PLiteral _ _ => true
  | mkPattern PComposite _ cs | mkPattern PAlternation _ cs => forallb positive cs
  | _ => false
  end.

(** ** Lemmas *)

(** Induction on patterns with the hypothesis for every child. *)
Lemma pattern_ind' (P : Pattern -> Prop) :
  (forall k t cs, Forall P cs -> P (mkPattern k t cs)) -> forall p, P p.
Proof.
  intros H. fix IH 1. intros [k t cs]. apply H.
  induction cs as [|c cs IHcs]; constructor; [apply IH|exact IHcs].
Qed.

Lemma foldr_and {A} (P : A -> Prop) l : foldr (fun c Q => P c /\ Q) True l <-> Forall P l.
Proof. induction l; simpl; [by split|]. rewrite Forall_cons. naive_solver. Qed.

Lemma foldr_or {A} (P : A -> Prop) l : foldr (fun c Q => P c \/ Q) False l <-> Exists P l.
Proof. induction l; simpl; [by rewrite Exists_nil|]. rewrite Exists_cons. naive_solver. Qed.

(** An evaluation that ends and decides a proposition. *)
Definition decides (r : option bool) (P : Prop) : Prop :=
  exists b, r = Some b /\ (b = true <-> P).

Lemma decides_iff r P Q : (P <-> Q) -> decides r P -> decides r Q.
Proof. intros H (b & -> & Hb). exists b. by rewrite Hb, H. Qed.

Lemma decides_dec r (P : Prop) : decides r P -> P \/ ~ P.
Proof. intros ([] & _ & H); naive_solver. Qed.

Lemma all_of_decides {A} (f : A -> option bool) (P : A -> Prop) l :
  Forall (fun x => decides (f x) (P x)) l -> decides (all_of f l) (Forall P l).
Proof.
  induction 1 as [|x l (b & Hb & Hx) _ IH]; simpl; [by exists true|].
  rewrite Hb. destruct b.
  - eapply decides_iff; [|exact IH]. rewrite Forall_cons. naive_solver.
  - exists false. split; [done|]. rewrite Forall_cons. naive_solver.
Qed.

Lemma any_of_decides {A} (f : A -> option bool) (P : A -> Prop) l :
  Forall (fun x => decides (f x) (P x)) l -> decides (any_of f l) (Exists P l).
Proof.
  induction 1 as [|x l (b & Hb & Hx) _ IH]; simpl.
  { exists false. by rewrite Exists_nil. }
  rewrite Hb. destruct b.
  - exists true. split; [done|]. rewrite Exists_cons. naive_solver.
  - eapply decides_iff; [|exact IH]. rewrite Exists_cons. naive_solver.
Qed.

(** The climb visits the start node and everything above it. *)
Lemma climb_decides g ast f (P : str -> NodeId -> Prop) fuel anc :
  graph_wf g -> (N.to_nat anc < fuel)%nat ->
  (forall t a, (a <= anc)%N -> decides (f t a) (P t a)) ->
  decides (climb g ast f fuel anc)
    (is_valid anc = true /\ exists a n, steps (up g) anc a /\ get g a = Some n /\
       node_text ast (n_range n) <> [] /\ P (node_text ast (n_range n)) a).
Proof.
  intros Hwf. revert anc. induction fuel as [|fuel IH]; intros anc Hf Hd; [lia|].
  cbn [climb]. destruct (is_valid anc) eqn:Hv; cbn [negb].
  2: { exists false. naive_solver. }
  set (here := match get g anc with Some n => _ | None => _ end).
  set (H := exists n, get g anc = Some n /\ node_text ast (n_range n) <> [] /\
                      P (node_text ast (n_range n)) anc).
  assert (decides here H) as (b & -> & Hb).
  { subst here H. destruct (get g anc) as [n|]; [|exists false; naive_solver].
    case_bool_decide as Ht; [exists false; naive_solver|].
    eapply decides_iff; [|apply Hd; done]. naive_solver. }
  destruct b.
  { exists true. split; [done|]. split; [|done]. intros _. split; [done|].
    destruct Hb as [Hb _]. destruct Hb as (n & ?); [done|]. exists anc, n. split; [constructor|done]. }
  assert (~ H) as HnH by (rewrite <-Hb; done).
  destruct (is_valid (parent g anc)) eqn:Hp.
  - pose proof (parent_lt g anc Hwf Hp).
    eapply decides_iff; [|apply IH; [lia|intros; apply Hd; lia]]. rewrite Hp. split.
    + intros (_ & a & n & Hs & ?). split; [done|]. exists a, n. split; [|done].
      eapply steps_cons; [by split|exact Hs].
    + intros (_ & a & n & Hs & ?). split; [done|]. exists a, n. split; [|done].
      inversion Hs as [|? p ? [<- ?] ?]; subst; [|done]. exfalso. apply HnH. by exists n.
  - destruct fuel as [|fuel]; [apply is_valid_true in Hv; lia|]. cbn [climb]. rewrite Hp.
    exists false. split; [done|]. split; [done|]. intros (_ & a & n & Hs & ?).
    inversion Hs as [|? p ? [<- ?] ?]; subst; [|congruence]. exfalso. apply HnH. by exists n.
Qed.

Lemma matches_decides g ast fuel p text x :
  graph_wf g -> (N.to_nat x < fuel)%nat ->
  decides (pattern_matches fuel g ast p text x) (matches_at g ast p text x).
Proof.
  intros Hwf. revert text x. induction p as [k t cs IH] using pattern_ind'. intros text x Hf.
  assert (Forall (fun c => decides (pattern_matches fuel g ast c text x)
                                   (matches_at g ast c text x)) cs) as Hcs.
  { eapply Forall_impl; [exact IH|]. eauto. }
  destruct k; cbn [pattern_matches matches_at].
  - case_bool_decide; [exists false; naive_solver|]. eexists. split; [done|].
    rewrite contains_sub_spec. naive_solver.
  - case_bool_decide as Hl; [destruct cs; [|done]; exists false; naive_solver|].
    eapply decides_iff; [|exact (all_of_decides _ _ _ Hcs)]. rewrite foldr_and.
    split; [|by intros [_ ?]]. split; [by intros ->|done].
  - case_bool_decide as Hl; [destruct cs; [|done]; exists false; naive_solver|].
    eapply decides_iff; [|exact (any_of_decides _ _ _ Hcs)]. by rewrite foldr_or.
  - destruct cs as [|c cs]; [by exists true|]. apply Forall_inv in Hcs.
    destruct Hcs as (b & -> & Hb). exists (negb b). split; [done|]. rewrite <-Hb. by destruct b.
  - destruct cs as [|c cs]; cbn [map inside_matches]; [exists false; naive_solver|].
    apply Forall_inv in IH.
    assert ((parent g x < N.of_nat fuel)%N) as Hp.
    { destruct (is_valid (parent g x)) eqn:Hv; [pose proof (parent_lt g x Hwf Hv); lia|].
      apply is_valid_false in Hv. lia. }
    eapply decides_iff; [|apply climb_decides with (P := matches_at g ast c);
      [done|lia|intros; apply IH; lia]].
    split.
    + intros (Hv & a & n & Hs & ?). exists a, n. split; [|done]. by exists (parent g x).
    + intros (a & n & (p & [<- Hv] & Hs) & ?). split; [done|]. by exists a, n.
Qed.

(** The engine's test of one node against one rule. *)
Definition hit (fuel : nat) (g : Graph) (ast : Ast) (r : Rule) (n : Node) : bool :=
  rule_matches_language r (ast_language ast)
  && (negb (bool_decide (node_text ast (n_range n) = []))
      && bool_decide (pattern_matches fuel g ast (r_pattern r) (node_text ast (n_range n)) (n_id n)
                      = Some true)).

Lemma node_id_bound g n : graph_wf g -> n ∈ g_nodes g -> (N.to_nat (n_id n) <= node_count g)%nat.
Proof.
  intros Hwf [i Hi]%list_elem_of_lookup. pose proof (lookup_lt_Some _ _ _ Hi).
  apply (wf_ids g Hwf) in Hi. unfold node_count. lia.
Qed.

Lemma hit_reports g ast fuel r n :
  graph_wf g -> (node_count g < fuel)%nat -> n ∈ g_nodes g ->
  hit fuel g ast r n = true <-> reports g ast r n.
Proof.
  intros Hwf Hf Hn. pose proof (node_id_bound g n Hwf Hn).
  destruct (matches_decides g ast fuel (r_pattern r) (node_text ast (n_range n)) (n_id n) Hwf)
    as (b & Hb & Hiff); [lia|].
  unfold hit, reports. rewrite Hb, !andb_true_iff, negb_true_iff, bool_decide_eq_false,
    bool_decide_eq_true, <-Hiff. destruct b; naive_solver.
Qed.

Definition bump (s : EngineStats) (visited emitted : nat) : EngineStats :=
  mkEngineStats (rules_evaluated s) (nodes_visited s + visited) (findings_emitted s + emitted)
    (skipped_language_mismatch s).

Lemma visit_nodes_eq now fuel pack ast g file r res ns :
  graph_wf g -> (node_count g < fuel)%nat -> Forall (fun n => n ∈ g_nodes g) ns ->
  rule_matches_language r (ast_language ast) = true ->
  visit_nodes now fuel pack ast g file r res ns =
  Some (mkResult
    (findings res ++ ((fun n => make_finding now r pack n file)
                      <$> List.filter (hit fuel g ast r) ns))
    (bump (stats res) (length ns) (length (List.filter (hit fuel g ast r) ns)))).
Proof.
  intros Hwf Hf Hns Hl. revert res. induction Hns as [|n ns Hn _ IH]; intros res.
  { destruct res as [fs [a b c d]]. unfold bump. cbn. by rewrite app_nil_r, !Nat.add_0_r. }
  cbn [visit_nodes List.filter length]. pose proof (node_id_bound g n Hwf Hn).
  destruct (matches_decides g ast fuel (r_pattern r) (node_text ast (n_range n)) (n_id n) Hwf)
    as (b & Hb & _); [lia|].
  assert (hit fuel g ast r n = negb (bool_decide (node_text ast (n_range n) = [])) && b) as ->.
  { unfold hit. rewrite Hl, Hb. by destruct b, (bool_decide (node_text _ _ = [])). }
  unfold visit_node. rewrite Hb. case_bool_decide; cbn [negb andb]; [|destruct b];
    rewrite IH; unfold bump; cbn; rewrite ?fmap_cons, <-?app_assoc, ?Nat.add_succ_r; done.
Qed.

Definition applicable (ast : Ast) (r : Rule) : bool := rule_matches_language r (ast_language ast).

Definition rule_findings (now : Z) (fuel : nat) (pack : RulePack) (ast : Ast) (g : Graph)
    (file : str) (r : Rule) : list Finding :=
  (fun n => make_finding now r pack n file) <$> List.filter (hit fuel g ast r) (g_nodes g).

Lemma rule_findings_skipped now fuel pack ast g file r :
  applicable ast r = false -> rule_findings now fuel pack ast g file r = [].
Proof.
  intros H. unfold rule_findings.
  assert (List.filter (hit fuel g ast r) (g_nodes g) = []) as ->; [|done].
  induction (g_nodes g) as [|n ns IH]; [done|]. simpl. unfold hit at 1.
  unfold applicable in H. by rewrite H.
Qed.

Lemma visit_rules_eq now fuel pack ast g file res rules :
  graph_wf g -> (node_count g < fuel)%nat ->
  visit_rules now fuel pack ast g file res rules =
  let fs := flat_map (rule_findings now fuel pack ast g file) rules in
  let yes := length (List.filter (applicable ast) rules) in
  Some (mkResult (findings res ++ fs)
    (mkEngineStats (rules_evaluated (stats res))
       (nodes_visited (stats res) + yes * node_count g)
       (findings_emitted (stats res) + length fs)
       (skipped_language_mismatch (stats res) + (length rules - yes)))).
Proof.
  intros Hwf Hf. revert res. induction rules as [|r rules IH]; intros res.
  { destruct res as [fs [a b c d]]. cbn. by rewrite app_nil_r, !Nat.add_0_r. }
  assert (length (List.filter (applicable ast) rules) <= length rules)%nat as Hle
    by apply List.filter_length_le.
  cbn [visit_rules List.filter flat_map length]. change (rule_matches_language r (ast_language ast))
    with (applicable ast r). destruct (applicable ast r) eqn:Ha.
  - rewrite visit_nodes_eq by (done || by apply Forall_forall).
    rewrite IH. fold (rule_findings now fuel pack ast g file r). cbn.
    rewrite <-app_assoc, length_app.
    assert (length (rule_findings now fuel pack ast g file r)
            = length (List.filter (hit fuel g ast r) (g_nodes g))) as -> by apply length_fmap.
    unfold node_count. do 2 f_equal. f_equal; lia.
  - rewrite IH, rule_findings_skipped by done. cbn. do 2 f_equal. f_equal; lia.
Qed.

(** ** Properties *)

(** Pattern evaluation ends, given more fuel than the node's id, and decides
    the meaning of the pattern: literals are substrings, composites are
    non-empty conjunctions, alternations disjunctions, and [pattern-inside]
    holds exactly when some proper AST ancestor with text matches. *)
Theorem pattern_matches_decides g ast fuel p text x :
  graph_wf g -> (N.to_nat x < fuel)%nat ->
  exists b, pattern_matches fuel g ast p text x = Some b /\
            (b = true <-> matches_at g ast p text x).
Proof. apply matches_decides. Qed.

(** Applying a rule pack ends and reports exactly the (rule, node) pairs that
    match, in the order of the rules and then of the nodes, one finding each,
    and the statistics count rules, visited nodes, findings and rules skipped
    for their language. *)
Lemma apply_rules_exact now fuel pack ast g file :
  graph_wf g -> (node_count g < fuel)%nat ->
  exists res hits,
    (forall r n, n ∈ g_nodes g -> hits r n = true <-> reports g ast r n) /\
    apply_rules now fuel pack ast g file = Some res /\
    findings res = flat_map (fun r =>
      (fun n => make_finding now r pack n file) <$> List.filter (hits r) (g_nodes g))
      (pack_rules pack) /\
    let yes := length (List.filter (applicable ast) (pack_rules pack)) in
    stats res = mkEngineStats (length (pack_rules pack)) (yes * node_count g)
      (length (findings res)) (length (pack_rules pack) - yes).
Proof.
  intros Hwf Hf. eexists _, (hit fuel g ast). split; [intros; by apply hit_reports|].
  split; [apply visit_rules_eq; done|]. done.
Qed.

Lemma matches_positive_mono g ast p a t b x y :
  positive p = true -> matches_at g ast p t x -> matches_at g ast p (a ++ t ++ b) y.
Proof.
  revert t. induction p as [k lt cs IH] using pattern_ind'. intros t Hp.
  destruct k; cbn [matches_at positive] in *; try done.
  - intros [? (u & v & ->)]. split; [done|]. exists (a ++ u), (v ++ b). by rewrite <-!app_assoc.
  - rewrite !foldr_and. intros [? H]. split; [done|]. rewrite forallb_forall in Hp.
    rewrite Forall_forall in *. intros c Hc. apply (IH c Hc); [by apply Hp, list_elem_of_In|auto].
  - rewrite !foldr_or, !Exists_exists. rewrite forallb_forall in Hp.
    intros (c & Hc & H). exists c. split; [done|]. rewrite Forall_forall in *.
    apply (IH c Hc); [by apply Hp, list_elem_of_In|auto].
Qed.

(** A rule without negation and [Inside] that reports a node also reports
    every node whose range contains it: one occurrence yields a finding for
    each enclosing construct up to the file. *)
Theorem positive_reports_grow g ast r n m :
  positive (r_pattern r) = true -> reports g ast r n ->
  within_range (n_range n) (n_range m) ->
  (end_byte (n_range m) <= N.of_nat (length (ast_source ast)))%N ->
  reports g ast r m.
Proof.
  intros Hp (Hl & Ht & Hm) Hr He. split; [done|].
  destruct (node_text_within ast _ _ Hr He) as (a & b & E). rewrite E. split.
  - by destruct a; [destruct (node_text ast (n_range n))|].
  - by eapply matches_positive_mono.
Qed.

(** The fingerprint of a finding ignores where the node is: two nodes of the
    same grammar kind and name in one file get the same fingerprint from one
    rule, wherever they are. *)
Theorem fingerprint_ignores_location now r pack n m file :
  n_raw_kind n = n_raw_kind m -> n_name n = n_name m ->
  stable_fingerprint_of (make_finding now r pack n file)
  = stable_fingerprint_of (make_finding now r pack m file).
Proof. intros H1 H2. cbn. by rewrite H1, H2. Qed.

Lemma owasp_prefix_app p c s :
  Forall (fun d => isalnum d = true) p ->
  char_is ":" c || char_is "-" c || char_is "_" c || char_is " " c = true ->
  owasp_prefix (p ++ c :: s) = p.
Proof.
  intros Hp Hc. induction Hp as [|d p Hd Hp IH]; cbn [owasp_prefix app]; [by rewrite Hc|].
  destruct (_ || char_is " " d) eqn:E; [|by rewrite IH]. exfalso.
  rewrite !orb_true_iff, !char_is_true in E.
  destruct E as [[[->| ->]| ->]| ->]; discriminate Hd.
Qed.

(** Every category is read back from its identifier ("A03:2025"), in any
    letter case, whatever follows the separator. *)
Theorem parse_owasp_token_id c p sep rest :
  c <> OwaspNone ->
  lower p = take 3 (lower (lit (owasp_id c))) -> Forall (fun d => isalnum d = true) p ->
  sep ∈ lit ":-_ " ->
  parse_owasp_token (p ++ sep :: rest) = Some c.
Proof.
  intros Hc Hp Hal Hsep. unfold parse_owasp_token. rewrite owasp_prefix_app; [|done|].
  - rewrite Hp. by destruct c.
  - rewrite !orb_true_iff, !char_is_true. unfold lit in Hsep. cbn in Hsep.
    rewrite !elem_of_cons in Hsep. destruct Hsep as [|[|[|[|Hs]]]]; auto.
    by apply elem_of_nil in Hs.
Qed.

(** ** A concrete pack

    A pack with one rule, on the two-function file of [Reach]: calls of
    [helper] inside [main]. *)

Definition no_metadata : RuleMetadata := mkMetadata None None [] [].
Definition literal (s : string) : Pattern := mkPattern PLiteral (lit s) [].

Definition helper_rule : Rule :=
  mkRule (lit "helper-in-main") (lit "call of helper") RError [LRust]
    (mkPattern PComposite []
       [literal "helper()"; mkPattern PInside [] [literal "main"];
        mkPattern PNegation [] [literal "fn"]])
    (mkMetadata (Some (lit "CWE-78")) (parse_owasp_token (lit "a05-2025")) [] []).
Definition any_rule : Rule :=
  mkRule (lit "helper") (lit "helper") RInfo [] (literal "helper") no_metadata.
Definition java_rule : Rule :=
  mkRule (lit "java") (lit "java") RInfo [LJava] (literal "helper") no_metadata.

Definition sample_pack : RulePack := mkPack (lit "demo") [helper_rule; java_rule; any_rule].

Lemma sample_pack_result :
  (fun r => ((fun f => (rule_id f, severity f, owasp f)) <$> take 2 (findings r), stats r))
    <$> apply_rules 0 40 sample_pack call_ast call_cpg (lit "a.rs")
  = Some ([(lit "opengrep/demo/helper-in-main", SevHigh, A05_SecurityMisconfiguration);
           (lit "opengrep/demo/helper-in-main", SevHigh, A05_SecurityMisconfiguration)],
          mkEngineStats 3 18 9 1).
Proof. by vm_compute. Qed.

Lemma pattern_matches_decides_witness :
  exists b, pattern_matches 40 call_cpg call_ast (r_pattern helper_rule) (lit "helper()") 5 = Some b
    /\ (b = true <-> matches_at call_cpg call_ast (r_pattern helper_rule) (lit "helper()") 5).
Proof.
  apply (pattern_matches_decides call_cpg call_ast 40 (r_pattern helper_rule) (lit "helper()") 5);
    [exact call_cpg_wf|vm_compute; lia].
Defined.

Lemma apply_rules_exact_witness :
  exists res hits,
    (forall r n, n ∈ g_nodes call_cpg -> hits r n = true <-> reports call_cpg call_ast r n) /\
    apply_rules 0 40 sample_pack call_ast call_cpg (lit "a.rs") = Some res /\
    findings res = flat_map (fun r =>
      (fun n => make_finding 0 r sample_pack n (lit "a.rs"))
      <$> List.filter (hits r) (g_nodes call_cpg)) (pack_rules sample_pack) /\
    let yes := length (List.filter (applicable call_ast) (pack_rules sample_pack)) in
    stats res = mkEngineStats (length (pack_rules sample_pack)) (yes * node_count call_cpg)
      (length (findings res)) (length (pack_rules sample_pack) - yes).
Proof.
  apply (apply_rules_exact 0 40 sample_pack call_ast call_cpg (lit "a.rs"));
    [exact call_cpg_wf|vm_compute; lia].
Defined.

Definition sample_node (first last : N) : Node :=
  mkNode 5 KCall (lit "call_expression") [] (byte_range first last) LRust.

Lemma positive_reports_grow_witness :
  reports call_cpg call_ast any_rule (sample_node 12 20) /\
  reports call_cpg call_ast any_rule (sample_node 10 22).
Proof.
  assert (reports call_cpg call_ast any_rule (sample_node 12 20)) as H.
  { split; [done|]. split; [done|]. split; [done|].
    exists [], (lit "()"). by vm_compute. }
  split; [exact H|].
  apply (positive_reports_grow call_cpg call_ast any_rule (sample_node 12 20)); [done|exact H|..].
  - split; vm_compute; discriminate.
  - vm_compute; discriminate.
Defined.

Lemma fingerprint_ignores_location_witness :
  stable_fingerprint_of (make_finding 0 any_rule sample_pack (sample_node 12 20) (lit "a.rs"))
  = stable_fingerprint_of (make_finding 0 any_rule sample_pack (sample_node 40 48) (lit "a.rs")).
Proof.
  apply (fingerprint_ignores_location 0 any_rule sample_pack (sample_node 12 20)
    (sample_node 40 48) (lit "a.rs")); reflexivity.
Defined.

Lemma parse_owasp_token_id_witness :
  parse_owasp_token (lit "a03" ++ "-"%char :: lit "2021") = Some A03_SupplyChainFailures.
Proof.
  apply (parse_owasp_token_id A03_SupplyChainFailures (lit "a03") "-"%char (lit "2021"));
    [done|by vm_compute|by repeat constructor|by apply (bool_decide_unpack _); vm_compute].
Defined.
