(* ===== verification/Regex.v ===== *)
(** * Regular expressions: the part of [std::regex] the sources use

    ECMAScript expressions over bytes: literals, escapes, classes, groups,
    alternation, the quantifiers and the assertions for word boundaries and
    both ends of the text.  [compile] reads the notation, so the sources'
    pattern strings appear here as they are written.  [run] is the backtracking
    matcher with the priorities of the standard (first alternative, greedy
    quantifiers), in continuation-passing style; an iteration of a star that
    consumes nothing is abandoned, so it ends.  [Matches] is the language of an
    expression in its context, and the matcher finds a match exactly when the
    language has one. *)

From Stdlib Require Import ZArith Ascii String Lia.
From stdpp Require Import base list strings.
From S2P Require Import Prelude CxxString.

Inductive re : Type :=
| REps
| RSet (f : ascii -> bool)
| RSeq (r1 r2 : re)
| RAlt (r1 r2 : re)
| RStar (r : re)
| RBoundary
| RBegin
| REnd.

Definition is_word_char (c : ascii) : bool := isalnum c || char_is "_" c.
Definition opt_word (c : option ascii) : bool := match c with Some c => is_word_char c | None => false end.

(** The byte before what follows [s], when [p] is the one before [s]. *)
Definition after (p : option ascii) (s : str) : option ascii :=
  match last s with Some c => Some c | None => p end.

(** ** Matching *)

(** The iterations of a star: [body] matches one more, [k] what follows. *)
Section star.
Context {A : Type} (body : option ascii -> str -> (option ascii -> str -> option A) -> option A).
Context (k : option ascii -> str -> option A).

Fixpoint star_loop (n : nat) (p : option ascii) (s : str) : option A :=
  match n with
  | O => k p s
  | S n =>
      match body p s (fun p' s' => if (length s' <? length s)%nat then star_loop n p' s' else None)
      with Some a => Some a | None => k p s end
  end.
End star.

Section run.
Context {A : Type}.

Fixpoint run (r : re) (p : option ascii) (s : str) (k : option ascii -> str -> option A) {struct r} :
    option A :=
  match r with
  | REps => k p s
  | RSet f => match s with c :: s => if f c then k (Some c) s else None | [] => None end
  | RSeq r1 r2 => run r1 p s (fun p s => run r2 p s k)
  | RAlt r1 r2 => match run r1 p s k with Some a => Some a | None => run r2 p s k end
  | RStar r => star_loop (fun p s k => run r p s k) k (length s) p s
  | RBoundary => if xorb (opt_word p) (opt_word (head s)) then k p s else None
  | RBegin => match p with None => k p s | Some _ => None end
  | REnd => match s with [] => k p s | _ => None end
  end.
End run.

(** The rest of the text after a match at its start. *)
Definition match_prefix (r : re) (p : option ascii) (s : str) : option str :=
  run r p s (fun _ s' => Some s').

(** [std::regex_match] *)
Definition regex_match (r : re) (s : str) : bool :=
  match run r None s (fun _ s' => match s' with [] => Some tt | _ => None end) with
  | Some _ => true | None => false
  end.

(** [std::regex_search]: the text before the first match, and after it. *)
Fixpoint search_from (r : re) (p : option ascii) (s : str) : option (str * str) :=
  match match_prefix r p s with
  | Some rest => Some ([], rest)
  | None =>
      match s with
      | [] => None
      | c :: s => match search_from r (Some c) s with
                  | Some (pre, rest) => Some (c :: pre, rest)
                  | None => None
                  end
      end
  end.

Definition regex_search (r : re) (s : str) : bool :=
  match search_from r None s with Some _ => true | None => false end.

(** ** Notation *)

Definition RFail : re := RSet (fun _ => false).
Definition ROpt (r : re) : re := RAlt r REps.
Definition RPlus (r : re) : re := RSeq r (RStar r).

Fixpoint RTimes (n : nat) (r : re) : re :=
  match n with O => REps | S n => RSeq r (RTimes n r) end.
(** At most [n] times, greedily. *)
Fixpoint RUpTo (n : nat) (r : re) : re :=
  match n with O => REps | S n => ROpt (RSeq r (RUpTo n r)) end.

Definition escape_class (c : ascii) : ascii -> bool :=
  if char_is "s" c then isspace
  else if char_is "d" c then isdigit
  else if char_is "w" c then is_word_char
  else char_is c.

Definition read_nat (s : str) : nat * str :=
  (fix go (acc : nat) (s : str) : nat * str :=
     match s with
     | c :: s' => if isdigit c then go (acc * 10 + Z.to_nat (code c - 48))%nat s' else (acc, s)
     | [] => (acc, s)
     end) 0%nat s.

(** The members of a bracket expression, up to the closing bracket. *)
Fixpoint class_items (fuel : nat) (s : str) (f : ascii -> bool) : option ((ascii -> bool) * str) :=
  match fuel with
  | O => None
  | S fuel =>
      match s with
      | "]"%char :: s => Some (f, s)
      | "\"%char :: c :: s => class_items fuel s (fun d => f d || escape_class c d)
      | a :: "-"%char :: "]"%char :: s =>
          Some (fun d => f d || char_is a d || char_is "-" d, s)
      | a :: "-"%char :: b :: s => class_items fuel s (fun d => f d || between a d b)
      | a :: s => class_items fuel s (fun d => f d || char_is a d)
      | [] => None
      end
  end.

Definition char_class (fuel : nat) (s : str) : option (re * str) :=
  match s with
  | "^"%char :: s =>
      match class_items fuel s (fun _ => false) with
      | Some (f, s) => Some (RSet (fun d => negb (f d)), s) | None => None end
  | s => match class_items fuel s (fun _ => false) with
         | Some (f, s) => Some (RSet f, s) | None => None end
  end.

(** A quantifier after an atom. *)
Definition quantify (r : re) (s : str) : option (re * str) :=
  match s with
  | "*"%char :: s => Some (RStar r, s)
  | "+"%char :: s => Some (RPlus r, s)
  | "?"%char :: s => Some (ROpt r, s)
  | "{"%char :: s =>
      let '(n, s) := read_nat s in
      match s with
      | "}"%char :: s => Some (RTimes n r, s)
      | ","%char :: "}"%char :: s => Some (RSeq (RTimes n r) (RStar r), s)
      | ","%char :: s =>
          let '(m, s) := read_nat s in
          match s with
          | "}"%char :: s => Some (RSeq (RTimes n r) (RUpTo (m - n) r), s)
          | _ => None
          end
      | _ => None
      end
  | s => Some (r, s)
  end.

(** Alternatives, sequences and atoms; [fuel] bounds the recursion. *)
Fixpoint parse_alt (fuel : nat) (s : str) : option (re * str) :=
  match fuel with
  | O => None
  | S fuel =>
      match parse_seq fuel s with
      | Some (r, "|"%char :: s) =>
          match parse_alt fuel s with Some (r', s) => Some (RAlt r r', s) | None => None end
      | other => other
      end
  end
with parse_seq (fuel : nat) (s : str) : option (re * str) :=
  match fuel with
  | O => None
  | S fuel =>
      match s with
      | [] => Some (REps, [])
      | "|"%char :: _ | ")"%char :: _ => Some (REps, s)
      | _ =>
          match parse_atom fuel s with
          | None => None
          | Some (r, s) =>
              match quantify r s with
              | None => None
              | Some (r, s) =>
                  match parse_seq fuel s with
                  | Some (r', s) => Some (RSeq r r', s)
                  | None => None
                  end
              end
          end
      end
  end
with parse_atom (fuel : nat) (s : str) : option (re * str) :=
  match fuel with
  | O => None
  | S fuel =>
      match s with
      | "("%char :: s =>
          let s := match s with "?"%char :: ":"%char :: s => s | s => s end in
          match parse_alt fuel s with
          | Some (r, ")"%char :: s) => Some (r, s)
          | _ => None
          end
      | "["%char :: s => char_class fuel s
      | "\"%char :: "b"%char :: s => Some (RBoundary, s)
      | "\"%char :: c :: s => Some (RSet (escape_class c), s)
      | "."%char :: s => Some (RSet (fun d => negb (char_is "010" d || char_is "013" d)), s)
      | "^"%char :: s => Some (RBegin, s)
      | "$"%char :: s => Some (REnd, s)
      | c :: s => Some (RSet (char_is c), s)
      | [] => None
      end
  end.

(** [std::regex re{pattern}]; a pattern outside the notation does not match. *)
Definition parse_regex (s : str) : option re :=
  match parse_alt (S (4 * length s)) s with Some (r, []) => Some r | _ => None end.
Definition regex (pattern : string) : re := default RFail (parse_regex (lit pattern)).

(** ** The language of an expression *)

(** [Matches r p s rest]: [r] matches [s] between the byte [p] and [rest]. *)
Inductive Matches : re -> option ascii -> str -> str -> Prop :=
| MEps p rest : Matches REps p [] rest
| MSet (f : ascii -> bool) c p rest : f c = true -> Matches (RSet f) p [c] rest
| MSeq r1 r2 p s1 s2 rest :
    Matches r1 p s1 (s2 ++ rest) -> Matches r2 (after p s1) s2 rest ->
    Matches (RSeq r1 r2) p (s1 ++ s2) rest
| MAltL r1 r2 p s rest : Matches r1 p s rest -> Matches (RAlt r1 r2) p s rest
| MAltR r1 r2 p s rest : Matches r2 p s rest -> Matches (RAlt r1 r2) p s rest
| MStarNil r p rest : Matches (RStar r) p [] rest
| MStarCons r p s1 s2 rest :
    s1 <> [] -> Matches r p s1 (s2 ++ rest) -> Matches (RStar r) (after p s1) s2 rest ->
    Matches (RStar r) p (s1 ++ s2) rest
| MBoundary p rest : xorb (opt_word p) (opt_word (head rest)) = true -> Matches RBoundary p [] rest
| MBegin rest : Matches RBegin None [] rest
| MEnd p : Matches REnd p [] [].
#[export] Hint Constructors Matches : euxis.

(** ** The matcher finds the language *)

Lemma after_nil p : after p [] = p.
Proof. done. Qed.

Lemma after_app p s1 s2 : after (after p s1) s2 = after p (s1 ++ s2).
Proof.
  unfold after. destruct s2 as [|c s2 _] using rev_ind; [by rewrite app_nil_r|].
  by rewrite app_assoc, !last_snoc.
Qed.

Section correct.
Context {A : Type}.
Implicit Types (k : option ascii -> str -> option A).

Lemma run_sound r p s k a :
  run r p s k = Some a ->
  exists s1 s2, s = s1 ++ s2 /\ Matches r p s1 s2 /\ k (after p s1) s2 = Some a.
Proof.
  revert p s k. induction r as [|f|r1 IH1 r2 IH2|r1 IH1 r2 IH2|r IH| | |]; intros p s k; cbn [run].
  - intros Hk. exists [], s. eauto with euxis.
  - destruct s as [|c s]; [done|]. destruct (f c) eqn:Hf; [|done]. intros Hk.
    exists [c], s. eauto with euxis.
  - intros (s1 & t & -> & Hm1 & (s2 & s3 & -> & Hm2 & Hk)%IH2)%IH1.
    exists (s1 ++ s2), s3. rewrite <-app_assoc, <-after_app. eauto with euxis.
  - destruct (run r1 p s k) as [b|] eqn:H1.
    + intros [= ->]. destruct (IH1 _ _ _ H1) as (s1 & s2 & -> & ? & ?). exists s1, s2. eauto with euxis.
    + intros (s1 & s2 & -> & ? & ?)%IH2. exists s1, s2. eauto with euxis.
  - generalize (length s) as n. intros n. revert p s. induction n as [|n IHn]; intros p s; cbn [star_loop].
    { intros Hk. exists [], s. eauto with euxis. }
    destruct (run r p s _) as [b|] eqn:Hr; [|intros Hk; exists [], s; eauto with euxis].
    intros [= ->]. apply IH in Hr as (s1 & t & -> & Hm & Hk).
    destruct (length t <? length (s1 ++ t))%nat eqn:Hl; [|done].
    apply IHn in Hk as (s2 & s3 & -> & Hs & Hk). exists (s1 ++ s2), s3.
    rewrite <-app_assoc, <-after_app. split; [done|]. split; [|done].
    apply MStarCons; [|done..]. intros ->. apply Nat.ltb_lt in Hl. cbn in Hl. lia.
  - destruct (xorb _ _) eqn:E; [|done]. intros Hk. exists [], s. eauto with euxis.
  - destruct p; [done|]. intros Hk. exists [], s. eauto with euxis.
  - destruct s; [|done]. intros Hk. exists [], []. eauto with euxis.
Qed.

Lemma star_loop_complete r k n p s1 s2 :
  (forall p s1 s2 k, Matches r p s1 s2 -> is_Some (k (after p s1) s2) ->
     is_Some (run r p (s1 ++ s2) k)) ->
  (length s1 <= n)%nat -> Matches (RStar r) p s1 s2 -> is_Some (k (after p s1) s2) ->
  is_Some (star_loop (fun p s k => run r p s k) k n p (s1 ++ s2)).
Proof.
  intros IH. revert p s1. induction n as [|n IHn]; intros p s1 Hn Hm Hk.
  { destruct s1; [|cbn in Hn; lia]. exact Hk. }
  cbn [star_loop]. destruct (run r p (s1 ++ s2) _) as [a|] eqn:Hr; [by eexists|].
  inversion Hm as [| | | | |r' p' rest'|r' p' t1 t2 rest' Hne Hm1 Hm2 E1 E2 E3 E4| | |]; subst; [exact Hk|].
  exfalso. apply eq_None_not_Some in Hr. apply Hr. rewrite <-app_assoc. apply IH; [done|].
  rewrite !length_app in *. assert (0 < length t1)%nat by (destruct t1; [done|cbn; lia]).
  rewrite (proj2 (Nat.ltb_lt _ _)) by lia. apply IHn; [lia|done|]. by rewrite after_app.
Qed.

Lemma run_complete r p s1 s2 k :
  Matches r p s1 s2 -> is_Some (k (after p s1) s2) -> is_Some (run r p (s1 ++ s2) k).
Proof.
  revert p s1 s2 k. induction r as [|f|r1 IH1 r2 IH2|r1 IH1 r2 IH2|r IH| | |];
    intros p s1 s2 k Hm Hk; cbn [run].
  - by inversion Hm; subst.
  - inversion Hm; subst. cbn. by case_match.
  - inversion Hm as [| |? ? ? t1 t2 ? Hm1 Hm2| | | | | | |]; subst. rewrite <-app_assoc.
    apply IH1; [done|]. apply IH2; [done|]. by rewrite after_app.
  - inversion Hm; subst.
    + destruct (IH1 p s1 s2 k) as [a ->]; [done..|]. by eexists.
    + destruct (run r1 p (s1 ++ s2) k); [by eexists|]. by apply IH2.
  - apply star_loop_complete; try done. rewrite length_app. lia.
  - inversion Hm; subst. cbn. by case_match.
  - by inversion Hm; subst.
  - by inversion Hm; subst.
Qed.
End correct.

Lemma regex_match_correct r s : regex_match r s = true <-> Matches r None s [].
Proof.
  unfold regex_match. split.
  - destruct (run r None s _) as [u|] eqn:H; [|done]. intros _.
    apply run_sound in H as (s1 & s2 & -> & Hm & Hk). destruct s2; [|done].
    by rewrite app_nil_r.
  - intros Hm. destruct (run_complete r None s [] (fun _ s' => match s' with [] => Some tt | _ => None end))
      as [u Hu]; [done|by eexists|]. rewrite app_nil_r in Hu. by rewrite Hu.
Qed.

(** Some match of [r] starts here. *)
Definition starts (r : re) (p : option ascii) (s : str) : Prop :=
  exists b c, s = b ++ c /\ Matches r p b c.

Lemma match_prefix_Some r p s rest :
  match_prefix r p s = Some rest -> exists m, s = m ++ rest /\ Matches r p m rest.
Proof. intros (m & t & -> & Hm & [= ->])%run_sound. eauto. Qed.

Lemma match_prefix_None r p s : match_prefix r p s = None <-> ~ starts r p s.
Proof.
  split.
  - intros Hn (b & c & -> & Hm).
    destruct (run_complete r p b c (fun _ s' => Some s')) as [x Hx]; [done|by eexists|].
    unfold match_prefix in Hn. congruence.
  - intros Hns. destruct (match_prefix r p s) as [rest|] eqn:E; [|done].
    apply match_prefix_Some in E as (m & -> & Hm). exfalso. apply Hns. by exists m, rest.
Qed.

Lemma after_cons p c a : after (Some c) a = after p (c :: a).
Proof. change (c :: a) with ([c] ++ a). by rewrite <-after_app. Qed.

(** A search returns the leftmost match. *)
Lemma search_from_Some r p s pre rest :
  search_from r p s = Some (pre, rest) ->
  exists m, s = pre ++ m ++ rest /\ Matches r (after p pre) m rest /\
    forall a b, s = a ++ b -> (length a < length pre)%nat -> ~ starts r (after p a) b.
Proof.
  revert p pre. induction s as [|c s IH]; intros p pre; cbn [search_from];
    destruct (match_prefix r p _) as [t|] eqn:E.
  1,3: intros [= <- <-]; apply match_prefix_Some in E as (m & Hs & Hm); exists m;
    split; [exact Hs|]; split; [done|]; intros a b _ H; cbn in H; lia.
  { done. }
  destruct (search_from r (Some c) s) as [[pre' t]|] eqn:Hs; [|done]. intros [= <- <-].
  destruct (IH _ _ Hs) as (m & -> & Hm & Hfirst). exists m. split; [done|].
  rewrite <-after_cons. split; [done|]. intros a b Hab Hl. apply match_prefix_None in E.
  destruct a as [|d a]; cbn in Hab; [by subst b|]. injection Hab as -> Hab.
  rewrite <-after_cons. apply Hfirst; [done|]. cbn in Hl. lia.
Qed.

Lemma search_from_None r p s :
  search_from r p s = None -> forall a b, s = a ++ b -> ~ starts r (after p a) b.
Proof.
  revert p. induction s as [|c s IH]; intros p; cbn [search_from];
    destruct (match_prefix r p _) as [t|] eqn:E; try done; apply match_prefix_None in E.
  - intros _ a b Hab. symmetry in Hab. apply app_eq_nil in Hab as [-> ->]. done.
  - destruct (search_from r (Some c) s) as [[pre' t]|] eqn:Hs; [done|]. intros _ a b Hab.
    destruct a as [|d a]; cbn in Hab; [by subst b|]. injection Hab as -> Hab.
    rewrite <-after_cons. by apply (IH _ Hs).
Qed.

Lemma regex_search_correct r s :
  regex_search r s = true <-> exists a b, s = a ++ b /\ starts r (after None a) b.
Proof.
  unfold regex_search. destruct (search_from r None s) as [[pre rest]|] eqn:E.
  - split; [intros _|done]. apply search_from_Some in E as (m & -> & Hm & _).
    exists pre, (m ++ rest). split; [done|]. by exists m, rest.
  - split; [done|]. intros (a & b & Hab & Hs). exfalso. by apply (search_from_None _ _ _ E a b).
Qed.

(** ** Languages of common expressions *)

Lemma matches_seq r1 r2 p s rest :
  Matches (RSeq r1 r2) p s rest <->
  exists s1 s2, s = s1 ++ s2 /\ Matches r1 p s1 (s2 ++ rest) /\ Matches r2 (after p s1) s2 rest.
Proof.
  split.
  - intros H. inversion H; subst. eauto 6.
  - intros (s1 & s2 & -> & H1 & H2). by apply MSeq.
Qed.

Lemma matches_char c r p s rest :
  Matches (RSeq (RSet (char_is c)) r) p s rest <->
  exists s', s = c :: s' /\ Matches r (Some c) s' rest.
Proof.
  rewrite matches_seq. split.
  - intros (s1 & s2 & -> & H1 & H2). inversion H1 as [|f d p' rest' Hf| | | | | | | |]; subst.
    apply char_is_true in Hf as ->. by exists s2.
  - intros (s' & -> & H). exists [c], s'. split; [done|]. split; [|done].
    apply MSet. by apply char_is_true.
Qed.

Lemma matches_eps p s rest : Matches REps p s rest <-> s = [].
Proof. split; [by inversion 1|]. intros ->. constructor. Qed.

Lemma matches_alt r1 r2 p s rest :
  Matches (RAlt r1 r2) p s rest <-> Matches r1 p s rest \/ Matches r2 p s rest.
Proof. split; [inversion 1; auto|]. intros [?|?]; eauto with euxis. Qed.

Lemma matches_set f p s rest : Matches (RSet f) p s rest <-> exists c, s = [c] /\ f c = true.
Proof. split; [inversion 1; eauto|]. intros (c & -> & ?). by constructor. Qed.

(** A starred class: a run of its bytes. *)
Lemma matches_star_set f p s rest :
  Matches (RStar (RSet f)) p s rest <-> Forall (fun c => f c = true) s.
Proof.
  split.
  - intros H. remember (RStar (RSet f)) as r eqn:E. induction H; simplify_eq; [constructor|].
    apply matches_set in H0 as (c & -> & ?). constructor; auto.
  - intros H. revert p. induction H as [|c s Hc _ IH]; intros p; [constructor|].
    change (c :: s) with ([c] ++ s). apply MStarCons; [done| |apply IH]. by constructor.
Qed.

(** The concatenation of literal bytes. *)
Fixpoint RLit (s : str) (r : re) : re :=
  match s with [] => r | c :: s => RSeq (RSet (char_is c)) (RLit s r) end.

Lemma matches_lit w r p s rest :
  Matches (RLit w r) p s rest <-> exists s', s = w ++ s' /\ Matches r (after p w) s' rest.
Proof.
  revert p s. induction w as [|c w IH]; intros p s; cbn [RLit].
  - split; [intros H; by exists s|]. intros (s' & -> & H). done.
  - rewrite matches_char. split.
    + intros (s' & -> & (s'' & -> & H)%IH). exists s''. split; [done|].
      by rewrite <-after_cons.
    + intros (s' & -> & H). exists (w ++ s'). split; [done|]. apply IH. exists s'.
      split; [done|]. by rewrite <-after_cons in H.
Qed.
