(* ===== verification/Paths.v ===== *)
(** * Paths: the operations of [std::filesystem::path] the sources use

    A POSIX path is its native string.  [path_append] is [operator/],
    [lexically_normal] the normal form of the standard: empty components and
    dots go, a name before a dot-dot goes with it, dot-dots at a root go, and a
    trailing separator records that the last component was a directory. *)

From Stdlib Require Import ZArith Ascii String Lia.
From stdpp Require Import base list gmap strings.
From S2P Require Import Prelude CxxString.

Abbreviation path := str.

Definition is_absolute (p : path) : bool := bool_decide (head p = Some "/"%char).

(** [path / q] *)
Definition path_append (p q : path) : path :=
  if is_absolute q then q
  else if bool_decide (p = []) || bool_decide (last p = Some "/"%char) then p ++ q
  else p ++ "/"%char :: q.

(** [path.filename()]: what follows the last separator. *)
Definition path_filename (p : path) : path :=
  match rfind_char "/" p with Some i => drop (S i) p | None => p end.

(** [path.extension()]: from the last dot of the file name, unless the name
    starts there or is a dot or dot-dot. *)
Definition path_extension (p : path) : path :=
  let f := path_filename p in
  if bool_decide (f = lit ".") || bool_decide (f = lit "..") then []
  else match rfind_char "." f with
       | Some (S i) => drop (S i) f
       | _ => []
       end.

(** Iterating over a path: the root, the names, and an empty name for a trailing
    separator. *)
Definition path_elements (p : path) : list path :=
  let names := List.filter (fun c => negb (bool_decide (c = []))) (split_on "/" p) in
  (if is_absolute p then [lit "/"] else []) ++ names
  ++ (if bool_decide (last p = Some "/"%char) && negb (bool_decide (names = [])) then [[]] else []).

(** [path.lexically_relative(base)] *)
Fixpoint mismatch (a b : list path) : list path * list path :=
  match a, b with
  | x :: a', y :: b' => if bool_decide (x = y) then mismatch a' b' else (a, b)
  | _, _ => (a, b)
  end.
Definition climbs (c : path) : Z :=
  if bool_decide (c = []) || bool_decide (c = lit ".") then 0 else if bool_decide (c = lit "..") then -1 else 1.
Definition lexically_relative (p base : path) : path :=
  if negb (Bool.eqb (is_absolute p) (is_absolute base)) then []
  else
    let '(a, b) := mismatch (path_elements p) (path_elements base) in
    let n := sumz (climbs <$> b) in
    if (n <? 0)%Z then []
    else if (n =? 0)%Z && match a with [] => true | e :: _ => bool_decide (e = []) end then lit "."
    else foldl path_append [] (replicate (Z.to_nat n) (lit "..") ++ a).

(** The components kept so far, last first, and whether the path names a
    directory: its last component was removed or empty. *)
Definition normal_step (abs : bool) (st : list str * bool) (c : str) : list str * bool :=
  let '(stack, _) := st in
  if bool_decide (c = []) || bool_decide (c = lit ".") then (stack, true)
  else if bool_decide (c = lit "..") then
    match stack with
    | [] => if abs then ([], true) else ([c], false)
    | top :: rest => if bool_decide (top = lit "..") then (c :: stack, false) else (rest, true)
    end
  else (c :: stack, false).

Definition lexically_normal (p : path) : path :=
  if bool_decide (p = []) then []
  else
    let abs := is_absolute p in
    let '(stack, dir) := foldl (normal_step abs) ([], false) (split_on "/" p) in
    let body := join_with "/" (rev stack) in
    let trailing := match stack with
                    | [] => []
                    | top :: _ => if dir && negb (bool_decide (top = lit "..")) then ["/"%char] else []
                    end in
    let s := (if abs then ["/"%char] else []) ++ body ++ trailing in
    if bool_decide (s = []) then lit "." else s.

(** ** Examples of the standard *)

Lemma normal_examples :
  lexically_normal (lit "foo/./bar/..") = lit "foo/" /\
  lexically_normal (lit "foo/.///bar/../") = lit "foo/" /\
  lexically_normal (lit "/../a//b") = lit "/a/b" /\
  lexically_normal (lit "../x/../..") = lit "../.." /\
  lexically_normal (lit "a/..") = lit ".".
Proof. by vm_compute. Qed.

Lemma extension_examples :
  path_extension (lit "/a/b.tar.gz") = lit ".gz" /\ path_extension (lit "/a/.js") = [] /\
  path_extension (lit "x.js") = lit ".js" /\ path_extension (lit "d.x/y") = [].
Proof. by vm_compute. Qed.

(** Appending a relative path to a non-empty one keeps it as a prefix. *)
Lemma path_append_prefix p q : is_absolute q = false -> exists r, path_append p q = p ++ r.
Proof. intros Hq. unfold path_append. rewrite Hq. destruct (_ || _); by eexists. Qed.

(** A normal form never steps back over a kept name: dot-dots are at the
    front of the components, and there is none in an absolute path. *)
Definition dotdot : str := lit "..".
Definition stack_ok (abs : bool) (stack : list str) : Prop :=
  exists names ups, stack = names ++ ups /\ Forall (fun c => c <> dotdot /\ c <> [] /\ c <> lit ".") names /\
    Forall (eq dotdot) ups /\ (abs = true -> ups = []).

Lemma normal_step_ok abs st c : stack_ok abs st.1 -> stack_ok abs (normal_step abs st c).1.
Proof.
  destruct st as [stack d]. cbn [fst]. intros (names & ups & -> & Hn & Hu & Ha). unfold normal_step.
  destruct (bool_decide (c = []) || bool_decide (c = lit ".")) eqn:Ec.
  { exists names, ups. auto. }
  apply orb_false_iff in Ec as [Hc1 Hc2]. bool_to_prop. case_bool_decide as Hdd.
  - destruct names as [|top names]; cbn [app].
    + destruct ups as [|u ups].
      * destruct abs; [by exists [], []|]. exists [], [c]. subst c. by repeat constructor.
      * inversion Hu; subst. rewrite bool_decide_true by done. exists [], (dotdot :: dotdot :: ups).
        split; [done|]. split; [constructor|]. split; [by repeat constructor|]. intros Hb.
        by specialize (Ha Hb).
    + inversion Hn as [|? ? [Ht _] Hn']; subst. rewrite bool_decide_false by done.
      exists names, ups. auto.
  - exists (c :: names), ups. split; [done|]. split; [by constructor|]. auto.
Qed.

Lemma normal_stack_ok abs cs : stack_ok abs (foldl (normal_step abs) ([], false) cs).1.
Proof.
  induction cs as [|c cs IH] using rev_ind; [by exists [], []|].
  rewrite foldl_app. cbn [foldl]. by apply normal_step_ok.
Qed.

(** ** Names in directories *)

(** Names that are one component of a path. *)
Definition plain_name (s : str) : Prop := s <> [] /\ free_of "/" s /\ free_of "000" s.

#[export] Instance plain_name_dec s : Decision (plain_name s).
Proof. unfold plain_name, free_of. apply _. Defined.

(** [path.stem()]: the file name without its extension. *)
Definition path_stem (p : path) : path :=
  let f := path_filename p in take (length f - length (path_extension p)) f.

(** A file directly in a directory. *)
Definition in_directory (dir p : path) : Prop := exists f, p = dir ++ "/"%char :: f /\ free_of "/" f.

(** What an iterator over a directory gives, in any order: the files of the
    map that are directly in it. *)
Class EntriesOk (entries : gmap path str -> path -> list path) : Prop := {
  entries_nodup fs dir : NoDup (entries fs dir);
  entries_spec fs dir p : p ∈ entries fs dir <-> is_Some (fs !! p) /\ in_directory dir p;
}.

Definition dir_root (base : path) : path :=
  if bool_decide (base = []) || bool_decide (last base = Some "/"%char) then base else base ++ ["/"%char].

Lemma plain_not_absolute s : plain_name s -> is_absolute s = false.
Proof.
  intros (Hne & Hf & _). apply bool_decide_eq_false. destruct s as [|c s]; [done|]. intros [= ->].
  apply Hf. left.
Qed.

Lemma last_not_slash s : plain_name s -> last s <> Some "/"%char.
Proof. intros (_ & Hf & _) Hl. apply Hf. by apply last_Some_elem_of. Qed.

Lemma free_of_app c a b : free_of c (a ++ b) <-> free_of c a /\ free_of c b.
Proof. unfold free_of. rewrite elem_of_app. tauto. Qed.

(** The path of a plain name in a directory. *)
Lemma path_append_plain base name : plain_name name -> path_append base name = dir_root base ++ name.
Proof.
  intros Hs. unfold path_append, dir_root. rewrite (plain_not_absolute _ Hs).
  case_match; [done|]. by rewrite <- app_assoc.
Qed.

Lemma dir_root_plain base name : plain_name name -> dir_root (base ++ name) = base ++ name ++ ["/"%char].
Proof.
  intros Hn. unfold dir_root. rewrite !bool_decide_false; cbn [orb].
  - by rewrite <- app_assoc.
  - rewrite last_app. destruct (last name) as [c|] eqn:E.
    + intros [= ->]. by apply (last_not_slash name).
    + apply last_None in E as ->. by destruct Hn as [? _].
  - destruct Hn as (Hne & _). by intros [_ ?]%app_nil.
Qed.

Lemma plain_app a b : plain_name a -> free_of "/" b -> free_of "000" b -> plain_name (a ++ b).
Proof.
  intros (Hne & Hf & Hz) Hb Hb'. split; [by destruct a|]. by rewrite !free_of_app.
Qed.

Lemma filename_in dir f : free_of "/" f -> path_filename (dir ++ "/"%char :: f) = f.
Proof. intros Hf. unfold path_filename. by rewrite rfind_char_hit, drop_S_length_app. Qed.

(** An extension and the name before it. *)
Record extension_ok (ext : str) : Prop := {
  ext_dot : exists e, ext = "."%char :: e /\ free_of "." e /\ e <> [];
  ext_slash : free_of "/" ext;
  ext_nul : free_of "000" ext;
}.

Lemma extension_stem dir name ext : plain_name name -> extension_ok ext ->
  path_extension (dir ++ "/"%char :: name ++ ext) = ext /\
  path_stem (dir ++ "/"%char :: name ++ ext) = name.
Proof.
  intros (Hne & Hf & _) [(e & -> & Hd & He) Hs _].
  assert (free_of "/" (name ++ "."%char :: e)) as Hff by (by apply free_of_app).
  assert (path_extension (dir ++ "/"%char :: name ++ "."%char :: e) = "."%char :: e) as Hx.
  { unfold path_extension. rewrite filename_in by done. rewrite (rfind_char_hit "." name e Hd).
    assert (forall s, (length s <= 2)%nat -> name ++ "."%char :: e <> s) as Hlen.
    { intros s Hl E. apply (f_equal length) in E. rewrite length_app in E.
      destruct name, e; try done. cbn in E. lia. }
    rewrite !bool_decide_false by (apply Hlen; cbn; lia). cbn [orb].
    destruct name as [|c name]; [done|]. cbn [length app].
    change (drop (S (length name)) (c :: name ++ "."%char :: e)) with
      (drop (length (c :: name)) ((c :: name) ++ "."%char :: e)). apply drop_app_length. }
  split; [done|]. unfold path_stem. rewrite Hx, filename_in by done.
  rewrite length_app, Nat.add_sub. apply take_app_length.
Qed.

(** A file with the extension has a plain name before it. *)
Lemma extension_name dir f ext : extension_ok ext -> free_of "/" f -> free_of "000" f ->
  path_extension (dir ++ "/"%char :: f) = ext -> exists name, plain_name name /\ f = name ++ ext.
Proof.
  intros [(e & -> & _ & _) _ _] Hf Hz. unfold path_extension. rewrite filename_in by done.
  destruct (_ || _); [done|]. destruct (rfind_char "." f) as [[|i]|] eqn:E; try done. intros Hd.
  exists (take (S i) f). rewrite <- Hd, take_drop. split; [|done].
  rewrite <- (take_drop (S i) f) in Hf, Hz. apply free_of_app in Hf as [Hf _], Hz as [Hz _].
  split; [|done]. apply rfind_char_Some in E as (a & b & -> & Hl & _). by destruct a.
Qed.

Ltac solve_extension :=
  split; [eexists; split; [reflexivity|split; [|done]]|..]; apply (bool_decide_unpack _); by vm_compute.

(** An iterator that meets the specification. *)
Definition sample_entries (fs : gmap path str) (dir : path) : list path :=
  List.filter (fun p => starts_with (dir ++ ["/"%char]) p
                        && bool_decide (free_of "/" (drop (S (length dir)) p)))
    (fst <$> map_to_list fs).

Lemma sample_entries_ok : EntriesOk sample_entries.
Proof.
  split.
  - intros fs dir. apply NoDup_ListNoDup, List.NoDup_filter, NoDup_ListNoDup, NoDup_fst_map_to_list.
  - intros fs dir p. unfold sample_entries.
    rewrite list_elem_of_In, filter_In, <- list_elem_of_In, list_elem_of_fmap, andb_true_iff,
      bool_decide_eq_true, starts_with_spec.
    assert ((exists y, p = y.1 /\ y ∈ map_to_list fs) <-> is_Some (fs !! p)) as ->.
    { split.
      - intros ([q s] & -> & Hin%elem_of_map_to_list). by exists s.
      - intros [s Hs]. exists (p, s). split; [done|]. by apply elem_of_map_to_list. }
    apply and_iff_compat_l. unfold in_directory. split.
    + intros [[t ->] Hf]. exists t. rewrite <- app_assoc in *. cbn [app] in *. split; [done|].
      by rewrite (drop_S_length_app dir "/"%char t) in Hf.
    + intros (f & -> & Hf). split; [by exists f; rewrite <- app_assoc|]. by rewrite drop_S_length_app.
Qed.
