(* ===== verification/Skills.v ===== *)
(** * Bridged skills: [libs/bridge]

    [skill.cpp] (the JSON form of a skill), [parser.cpp] (front matter of
    [SKILL.md]), [importer.cpp], [provenance.cpp], the policy record of
    [policy.cpp] and the command line and environment [executor.cpp] builds.
    The file system is a function from paths to contents ([files]) with an
    existence test ([exists_at]); an exception that leaves a function is
    [None].  The executor's child process is outside the model: the results of
    its [poll] and [read] calls are a list. *)

From Stdlib Require Import ZArith Ascii String Lia.
From stdpp Require Import base list gmap strings.
From S2P Require Import Prelude CxxString Lines Clock Doubles Json AuditLog Paths.

(** ** Skills and their JSON form *)

Record BridgedSkill (J : Type) : Type := mkSkill {
  sk_name : str; sk_slug : str; source_dir : path; sk_description : str; sk_runtime : str;
  entrypoint : path; sk_tags : list str; sk_metadata : J; signature_path : option path;
  sk_output_schema : option J;
}.
Arguments mkSkill {J}. Arguments sk_name {J}. Arguments sk_slug {J}. Arguments source_dir {J}.
Arguments sk_description {J}. Arguments sk_runtime {J}. Arguments entrypoint {J}.
Arguments sk_tags {J}. Arguments sk_metadata {J}. Arguments signature_path {J}.
Arguments sk_output_schema {J}.

Section skill.
Context `{Json}.

Definition skill_to_json (s : BridgedSkill jv) : jv :=
  object ([(lit "name", jstr (sk_name s)); (lit "slug", jstr (sk_slug s));
           (lit "source_dir", jstr (source_dir s)); (lit "description", jstr (sk_description s));
           (lit "runtime", jstr (sk_runtime s)); (lit "entrypoint", jstr (entrypoint s));
           (lit "tags", jstrs (sk_tags s)); (lit "metadata", sk_metadata s)]
          ++ opt_member "signature_path" jstr (signature_path s)
          ++ opt_member "output_schema" id (sk_output_schema s)).

(** [if (j.contains(k)) x = j[k].get<T>()] for an [x] with a default. *)
Definition get_or {A} (get : jv -> option A) (j : jv) (k : string) (d : A) : option A :=
  if contains j k then at_get get j k else Some d.

Definition skill_from_json (j : jv) : option (BridgedSkill jv) :=
  name ← value get_string j "name" [];
  slug ← value get_string j "slug" [];
  dir ← get_or get_string j "source_dir" [];
  descr ← value get_string j "description" [];
  runtime ← value get_string j "runtime" (lit "node");
  entry ← get_or get_string j "entrypoint" [];
  tags ← get_or get_strings j "tags" [];
  meta ← value Some j "metadata" (jobj ∅);
  sig ← opt_get get_string j "signature_path";
  schema ← opt_get Some j "output_schema";
  Some (mkSkill name slug dir descr runtime entry tags meta sig schema).
End skill.

(** ** Front matter *)

Record Frontmatter : Type := mkFrontmatter { fm_fields : gmap str str; fm_body : str }.

Definition fm_get (f : Frontmatter) (key : str) : option str := fm_fields f !! key.

(** The [trim] lambda: blanks are space and tab. *)
Definition trim_blanks (s : str) : str := rev (skip front_blank (rev (skip front_blank s))).

Definition drop_cr (line : str) : str :=
  if back_is "013" line then take (length line - 1) line else line.

Record FmState : Type := mkFm {
  in_frontmatter : bool; frontmatter_done : bool; fm_map : gmap str str; fm_out : str;
}.

Definition fm_step (st : FmState) (raw : str) : FmState :=
  let line := drop_cr raw in
  let fence := bool_decide (line = lit "---") in
  if negb (in_frontmatter st) && negb (frontmatter_done st) && fence
  then mkFm true (frontmatter_done st) (fm_map st) (fm_out st)
  else if in_frontmatter st && fence then mkFm false true (fm_map st) (fm_out st)
  else if in_frontmatter st then
    match find_char ":" line with
    | Some i =>
        mkFm true (frontmatter_done st)
          (<[trim_blanks (take i line) := trim_blanks (drop (S i) line)]> (fm_map st)) (fm_out st)
    | None => st
    end
  else mkFm false (frontmatter_done st) (fm_map st) (fm_out st ++ line ++ [eol]).

Definition parse_frontmatter (content : str) : Frontmatter :=
  let st := foldl fm_step (mkFm false false ∅ []) (getlines content) in
  mkFrontmatter (fm_map st) (fm_out st).

Definition parse_skill_file (files : path -> option str) (p : path) : option Frontmatter :=
  parse_frontmatter <$> files p.

(** ** Importing *)

Section importer.
Context `{Json} (json_parse : str -> expected jv str).
Context (files : path -> option str) (exists_at : path -> bool).

(** [for (auto& [key, val] : j.items())]: the members of an object, the
    elements of an array by index, a scalar under the empty key. *)
Definition item_entries (j : jv) : list (str * jv) :=
  match members j with
  | Some m => map_to_list m
  | None =>
      if is_array j then imap (fun i v => (to_string_nat i, v)) (items j)
      else (fun v => ([], v)) <$> items j
  end.

(** [j[k] = v]: null becomes an object, anything else throws. *)
Definition set_member (j : jv) (k : str) (v : jv) : option jv :=
  match members j with
  | Some m => Some (jobj (<[k := v]> m))
  | None => if is_null j then Some (jobj {[k := v]}) else None
  end.

Fixpoint set_members (j : jv) (kvs : list (str * jv)) : option jv :=
  match kvs with
  | [] => Some j
  | (k, v) :: kvs => j ← set_member j k v; set_members j kvs
  end.

Definition parse_openclaw_json (p : path) : expected jv str :=
  match files p with
  | None => Unexpected (lit "Cannot open " ++ p)
  | Some s => match json_parse s with
              | Ok j => Ok j
              | Unexpected e => Unexpected (lit "JSON parse error: " ++ e)
              end
  end.

Definition merge_metadata (s : BridgedSkill jv) (openclaw : jv) : option (BridgedSkill jv) :=
  d ← (if contains openclaw "description" && bool_decide (sk_description s = [])
       then at_get get_string openclaw "description" else Some (sk_description s));
  let schema := if contains openclaw "output_schema" then at_key openclaw "output_schema"
                else sk_output_schema s in
  m ← match at_key openclaw "metadata" with
      | Some md => set_members (sk_metadata s) (item_entries md)
      | None => Some (sk_metadata s)
      end;
  Some (mkSkill (sk_name s) (sk_slug s) (source_dir s) d (sk_runtime s) (entrypoint s)
          (sk_tags s) m (signature_path s) schema).

(** The comma loop over the tags. *)
Definition parse_tags (s : str) : list str :=
  if bool_decide (s = []) then []
  else omap (fun t => if bool_decide (skip front_blank t = []) then None else Some (trim_blanks t))
         (fields "," s).

(** The guard on the entry point. *)
Definition escapes (skill_dir resolved : path) : bool :=
  contains_sub (lit "..") resolved || negb (starts_with (lexically_normal skill_dir) resolved).

Definition import_skill (skill_dir : path) : option (expected (BridgedSkill jv) str) :=
  match parse_skill_file files (path_append skill_dir (lit "SKILL.md")) with
  | None => Some (Unexpected (lit "Failed to parse SKILL.md in " ++ skill_dir))
  | Some fm =>
      let name := default (path_filename skill_dir) (fm_get fm (lit "name")) in
      let slug := default name (fm_get fm (lit "slug")) in
      let descr := default [] (fm_get fm (lit "description")) in
      let runtime := default (lit "node") (fm_get fm (lit "runtime")) in
      let entry := default (lit "index.js") (fm_get fm (lit "entrypoint")) in
      let resolved := lexically_normal (path_append skill_dir entry) in
      if escapes skill_dir resolved then
        Some (Unexpected (lit "Entrypoint path escapes skill directory: " ++ entry))
      else
        let tags := parse_tags (default [] (fm_get fm (lit "tags"))) in
        let sig_path := path_append skill_dir (entry ++ lit ".sig") in
        let sig := if exists_at sig_path then Some sig_path else None in
        let s := mkSkill name slug skill_dir descr runtime resolved tags jnull sig None in
        let openclaw := path_append skill_dir (lit "openclaw.json") in
        s ← (if exists_at openclaw then
               match parse_openclaw_json openclaw with
               | Ok j => merge_metadata s j
               | Unexpected _ => Some s
               end
             else Some s);
        m ← set_members (sk_metadata s)
              [(lit "source", jstr (lit "clawhub")); (lit "imported_from", jstr skill_dir)];
        Some (Ok (mkSkill (sk_name s) (sk_slug s) (source_dir s) (sk_description s) (sk_runtime s)
          (entrypoint s) (sk_tags s) m (signature_path s) (sk_output_schema s)))
  end.

(** The loop over the directory: [entries] lists each entry's path and whether
    it is a directory; the result holds the skills and the errors. *)
Fixpoint import_entries (entries : list (path * bool)) :
    option (list (BridgedSkill jv) * list str) :=
  match entries with
  | [] => Some ([], [])
  | (p, is_directory) :: entries =>
      if negb is_directory || negb (exists_at (path_append p (lit "SKILL.md")))
      then import_entries entries
      else
        r ← import_skill p;
        '(skills, errs) ← import_entries entries;
        match r with
        | Ok s => Some (s :: skills, errs)
        | Unexpected e => Some (skills, e :: errs)
        end
  end.

(** [None] for the listing: the directory does not exist. *)
Definition import_all (skills_dir : path) (listing : option (list (path * bool))) :
    option (list (BridgedSkill jv) * list str) :=
  match listing with
  | None => Some ([], [lit "Skills directory does not exist: " ++ skills_dir])
  | Some entries => import_entries entries
  end.
End importer.

(** ** Provenance *)

Record ProvenanceEntry (J : Type) : Type := mkProvenance {
  artifact_hash : str; builder_id : str; build_type : str; pv_timestamp : str;
  materials : list str; pv_metadata : J;
}.
Arguments mkProvenance {J}. Arguments artifact_hash {J}. Arguments builder_id {J}.
Arguments build_type {J}. Arguments pv_timestamp {J}. Arguments materials {J}.
Arguments pv_metadata {J}.

Section provenance.
Context `{Sha256} {J : Type}.

Definition hash_bytes (data : str) : str := hex_encode (sha256 data).

(** The chunked reads of [hash_file] feed the whole file to the hash. *)
Definition hash_file (files : path -> option str) (p : path) : str :=
  match files p with Some data => hash_bytes data | None => [] end.

Definition record (files : path -> option str) (now : Z) (chain : list (ProvenanceEntry J))
    (artifact : path) (builder : str) (mats : list str) (meta : J) :
    list (ProvenanceEntry J) * ProvenanceEntry J :=
  let entry := mkProvenance (hash_file files artifact) builder
                 (lit "https://slsa.dev/provenance/v1") (iso8601 now) mats meta in
  (chain ++ [entry], entry).

Definition verify_artifact (files : path -> option str) (artifact : path) (e : ProvenanceEntry J) :
    bool :=
  let current := hash_file files artifact in
  negb (bool_decide (current = [])) && bool_decide (current = artifact_hash e).
End provenance.

(** ** Execution policies *)

Record SkillExecutionPolicy (J : Type) : Type := mkPolicy {
  require_signature : bool; public_key_path : option path;
  read_only : bool; write_paths : list path;
  deny_all : bool; allowed_hosts : list str;
  memory_mb : Z; timeout_seconds : Z;
  p_output_schema : option J; audit_log_path : option path;
}.
Arguments mkPolicy {J}. Arguments require_signature {J}. Arguments public_key_path {J}.
Arguments read_only {J}. Arguments write_paths {J}. Arguments deny_all {J}.
Arguments allowed_hosts {J}. Arguments memory_mb {J}. Arguments timeout_seconds {J}.
Arguments p_output_schema {J}. Arguments audit_log_path {J}.

(** A default-constructed policy, and [permissive()]. *)
Definition default_policy {J} : SkillExecutionPolicy J :=
  mkPolicy false None true [] true [] 256 20 None None.
Definition permissive {J} : SkillExecutionPolicy J :=
  mkPolicy false None false [] false [] 512 60 None None.

Definition policy_to_json `{Json} (p : SkillExecutionPolicy jv) : jv :=
  object ([(lit "require_signature", jbool (require_signature p))]
    ++ opt_member "public_key_path" jstr (public_key_path p)
    ++ [(lit "filesystem", object [(lit "read_only", jbool (read_only p));
                                   (lit "write_paths", jstrs (write_paths p))]);
        (lit "network", object [(lit "deny_all", jbool (deny_all p));
                                (lit "allowed_hosts", jstrs (allowed_hosts p))]);
        (lit "resources", object [(lit "memory_mb", jint (memory_mb p));
                                  (lit "timeout_seconds", jint (timeout_seconds p))])]
    ++ opt_member "output_schema" id (p_output_schema p)
    ++ opt_member "audit_log_path" jstr (audit_log_path p)).

(** ** Running a skill *)

Section executor.
Context {J : Type}.
Implicit Types (policy : option (SkillExecutionPolicy J)) (s : BridgedSkill J).

Definition kDeniedEnvVars : list string :=
  ["LD_PRELOAD"; "LD_LIBRARY_PATH"; "DYLD_INSERT_LIBRARIES"; "DYLD_LIBRARY_PATH"; "PATH"; "HOME";
   "USER"; "SHELL"].

Definition is_denied_env (name : str) : bool := existsb (fun d => bool_decide (name = lit d)) kDeniedEnvVars.

(** The child's loop over the environment: [setenv] of every allowed
    variable. *)
Definition apply_env (env : gmap str str) (vars : list str) : gmap str str :=
  foldl (fun env e =>
    match find_char "=" e with
    | Some i => if is_denied_env (take i e) then env else <[take i e := drop (S i) e]> env
    | None => env
    end) env vars.

Definition kMaxPollIterations : Z := 6000.
Definition kPollIntervalMs : Z := 100.
Definition kMaxOutputBytes : Z := 16 * 1024 * 1024.

(** What [poll] and [read] give at one iteration: nothing ready in time or an
    error, an end of file or a read error, or bytes. *)
Inductive PollOutcome : Type := PollNothing | ReadEnd | ReadBytes (b : str).

Fixpoint read_loop (n : nat) (evs : list PollOutcome) (output : str) : str :=
  match n, evs with
  | S n, ReadBytes b :: evs =>
      let output := output ++ b in
      if (kMaxOutputBytes <? Z.of_nat (length output))%Z then output else read_loop n evs output
  | _, _ => output
  end.

(** [timeout_seconds * 1000] is [int] arithmetic: [None] where it overflows. *)
Definition max_iterations (timeout : Z) : option Z :=
  if (timeout * 1000 <? 2 ^ 31)%Z && (- 2 ^ 31 <=? timeout * 1000)%Z
  then Some (Z.min kMaxPollIterations (Z.quot (timeout * 1000) kPollIntervalMs)) else None.

Definition runtime_command (runtime : str) : str :=
  if bool_decide (runtime = lit "python") then lit "python3"
  else if bool_decide (runtime = lit "node") then lit "node" else runtime.

Definition runtime_of (entry : path) : str :=
  runtime_command (if bool_decide (path_extension entry = lit ".py") then lit "python" else lit "node").

Definition build_env policy s : list str :=
  [lit "EUXIS_SKILL_NAME=" ++ sk_name s; lit "EUXIS_SKILL_SLUG=" ++ sk_slug s;
   lit "EUXIS_SKILL_RUNTIME=" ++ sk_runtime s; lit "EUXIS_SKILL_DIR=" ++ source_dir s]
  ++ match policy with
     | Some p =>
         [lit "EUXIS_TIMEOUT=" ++ to_string_Z (timeout_seconds p);
          lit "EUXIS_MEMORY_MB=" ++ to_string_Z (memory_mb p);
          lit "EUXIS_NETWORK=" ++ (if deny_all p then lit "deny" else lit "allow")]
     | None => []
     end.

(** A call of [safe_spawn]: its arguments. *)
Record Spawn : Type := mkSpawn { sp_argv : list str; sp_env : list str; sp_timeout : Z }.

(** [static_cast<int>] of a 32-bit unsigned value. *)
Definition to_int32 (z : Z) : Z := if (z <? 2 ^ 31)%Z then z else (z - 2 ^ 32)%Z.
Definition spawn_timeout policy : Z :=
  match policy with Some p => to_int32 (timeout_seconds p) | None => 60%Z end.

Definition spawn_sandboxed policy (entry : path) (env : list str) : Spawn :=
  mkSpawn
    ([lit "nsjail"; lit "--mode"; lit "o"; lit "--time_limit";
      to_string_Z (match policy with Some p => timeout_seconds p | None => 20%Z end);
      lit "--rlimit_as";
      to_string_Z (match policy with Some p => memory_mb p | None => 256%Z end);
      lit "--chroot"; lit "/"]
     ++ match policy with Some p => if read_only p then [lit "--disable_proc"] else [] | None => [] end
     ++ match policy with
        | Some p => if deny_all p then [lit "--disable_clone_newnet"; lit "0"] else []
        | None => [] end
     ++ flat_map (fun e => [lit "--env"; e]) env
     ++ [lit "--"; runtime_of entry; entry])
    [] (spawn_timeout policy).

Definition spawn_direct policy (entry : path) (env : list str) : Spawn :=
  mkSpawn [runtime_of entry; entry] env (spawn_timeout policy).

(** [SkillExecutor::run] on Linux: the spawn it makes. *)
Definition run policy (has_nsjail : bool) s : Spawn :=
  let env := build_env policy s in
  match policy with
  | Some _ => if has_nsjail then spawn_sandboxed policy (entrypoint s) env
              else spawn_direct policy (entrypoint s) env
  | None => spawn_direct policy (entrypoint s) env
  end.
End executor.

(** ** Skills: properties *)

Section skill_properties.
Context `{Json, !JsonOk}.

(** A skill is read back from its JSON form. *)
Theorem skill_json_roundtrip s : skill_from_json (skill_to_json s) = Some s.
Proof.
  destruct s as [name slug dir descr rt entry tags meta sig schema].
  unfold skill_from_json, skill_to_json, get_or. cbn [sk_name sk_slug source_dir sk_description sk_runtime
    entrypoint sk_tags sk_metadata signature_path sk_output_schema].
  destruct sig, schema; cbn [opt_member app id]; by read_fields.
Qed.
End skill_properties.

(** ** Front matter: properties *)

Definition fm_line (kv : str * str) : str := kv.1 ++ lit ": " ++ kv.2.
Definition fm_render (kvs : list (str * str)) (body : list str) : str :=
  flat_map (fun l => l ++ [eol]) (lit "---" :: (fm_line <$> kvs) ++ lit "---" :: body).

(** Text that the reader keeps as it is. *)
Definition plain (s : str) : Prop := free_of eol s /\ free_of "013" s /\ trim_blanks s = s.

Lemma drop_cr_plain s : free_of "013" s -> drop_cr s = s.
Proof.
  intros Hs. unfold drop_cr, back_is. rewrite bool_decide_false; [done|].
  intros Hl. apply Hs. apply last_Some in Hl as [t ->]. apply elem_of_app. right. by left.
Qed.

Lemma trim_blanks_space s : trim_blanks (" "%char :: s) = trim_blanks s.
Proof. done. Qed.

Lemma fm_line_free c kv :
  free_of c kv.1 -> free_of c kv.2 -> c ∉ [":"%char; " "%char] -> free_of c (fm_line kv).
Proof.
  unfold free_of, fm_line. intros H1 H2 H3. rewrite !elem_of_app. by intros [?|[?|?]].
Qed.

Lemma fm_step_field kv m out :
  plain kv.1 -> plain kv.2 -> free_of ":" kv.1 ->
  fm_step (mkFm true false m out) (fm_line kv) = mkFm true false (<[kv.1 := kv.2]> m) out.
Proof.
  destruct kv as [k v]. cbn [fst snd]. intros (Hk1 & Hk2 & Hk3) (Hv1 & Hv2 & Hv3) Hc.
  unfold fm_step, fm_line. cbn [fst snd]. rewrite drop_cr_plain.
  2: apply (fm_line_free _ (k, v)); [done..|]; by apply (bool_decide_unpack _); vm_compute.
  assert (bool_decide (k ++ lit ": " ++ v = lit "---") = false) as ->.
  { apply bool_decide_eq_false. intros E. assert (":"%char ∈ lit "---") as Hin; [|revert Hin; by apply (bool_decide_unpack _); vm_compute].
    rewrite <-E. apply elem_of_app. right. by left. }
  cbn [in_frontmatter frontmatter_done negb andb]. cbn [lit app].
  change (lit ": " ++ v) with (":"%char :: " "%char :: v).
  rewrite find_char_hit, take_app_length, drop_S_length_app by done.
  rewrite trim_blanks_space, Hk3, Hv3. done.
Qed.

Lemma fm_fields_fold kvs m out :
  Forall (fun kv => plain kv.1 /\ plain kv.2 /\ free_of ":" kv.1) kvs ->
  foldl fm_step (mkFm true false m out) (fm_line <$> kvs)
  = mkFm true false (foldl (fun m kv => <[kv.1 := kv.2]> m) m kvs) out.
Proof.
  intros Hk. revert m. induction Hk as [|kv kvs (H1 & H2 & H3) _ IH]; intros m; [done|].
  cbn [fmap list_fmap foldl]. rewrite fm_step_field by done. apply IH.
Qed.

Lemma fm_body_fold m out body :
  Forall (fun l => free_of "013" l) body ->
  foldl fm_step (mkFm false true m out) body
  = mkFm false true m (out ++ flat_map (fun l => l ++ [eol]) body).
Proof.
  intros Hb. revert out. induction Hb as [|l body Hl _ IH]; intros out; [by rewrite app_nil_r|].
  cbn [foldl]. unfold fm_step at 2. rewrite drop_cr_plain by done.
  cbn [in_frontmatter frontmatter_done negb andb]. rewrite IH. cbn [flat_map fm_out fm_map]. by rewrite <-!app_assoc.
Qed.

(** A document with front matter parses to its fields, the last value of a
    repeated key winning, and its body, line by line; a [---] in the body
    stays in the body. *)
Theorem parse_frontmatter_roundtrip kvs body :
  Forall (fun kv => plain kv.1 /\ plain kv.2 /\ free_of ":" kv.1) kvs ->
  Forall (fun l => free_of eol l /\ free_of "013" l) body ->
  parse_frontmatter (fm_render kvs body)
  = mkFrontmatter (foldl (fun m kv => <[kv.1 := kv.2]> m) ∅ kvs) (flat_map (fun l => l ++ [eol]) body).
Proof.
  intros Hk Hb. unfold parse_frontmatter, getlines, fm_render.
  assert (free_of eol (lit "---")) as Hd by (by apply (bool_decide_unpack _); vm_compute).
  rewrite fields_render.
  - cbn [foldl]. change (fm_step (mkFm false false ∅ []) (lit "---")) with (mkFm true false (∅ : gmap str str) []).
    rewrite foldl_app, fm_fields_fold by done. cbn [foldl].
    set (m := foldl _ ∅ kvs). change (fm_step (mkFm true false m []) (lit "---")) with (mkFm false true m []).
    rewrite fm_body_fold; [done|]. eapply Forall_impl; [exact Hb|]. by intros l [].
  - constructor; [done|]. apply Forall_app. split.
    + apply Forall_fmap. eapply Forall_impl; [exact Hk|]. intros kv ((H1 & _) & (H2 & _) & _).
      apply fm_line_free; [done..|]. by apply (bool_decide_unpack _); vm_compute.
    + constructor; [done|]. eapply Forall_impl; [exact Hb|]. by intros l [].
Qed.

(** Front matter that is never closed swallows the rest of the document. *)
Theorem unclosed_frontmatter lines :
  Forall (fun l => free_of eol l /\ drop_cr l <> lit "---") lines ->
  fm_body (parse_frontmatter (flat_map (fun l => l ++ [eol]) (lit "---" :: lines))) = [].
Proof.
  intros Hl. unfold parse_frontmatter, getlines. rewrite fields_render.
  - cbn [foldl]. change (fm_step (mkFm false false ∅ []) (lit "---")) with (mkFm true false (∅ : gmap str str) []).
    cbn [fm_body]. generalize (∅ : gmap str str).
    induction Hl as [|l lines [_ Hne] _ IH]; intros m; [done|]. cbn [foldl]. unfold fm_step at 2. rewrite bool_decide_false by done.
    cbn [in_frontmatter frontmatter_done negb andb]. destruct (find_char ":" (drop_cr l)); apply IH.
  - constructor; [by apply (bool_decide_unpack _); vm_compute|]. eapply Forall_impl; [exact Hl|]. by intros l [].
Qed.

(** ** Importing: properties *)

Section import_properties.
Context `{Json, !JsonOk} (json_parse : str -> expected jv str).
Context (files : path -> option str) (exists_at : path -> bool).

Lemma set_member_get j k v j' :
  set_member j k v = Some j' -> exists m, j' = jobj (<[k := v]> m).
Proof.
  unfold set_member. destruct (members j) as [m|]; [intros [= <-]; eauto|].
  destruct (is_null j); [|done]. intros [= <-]. exists ∅. done.
Qed.

Lemma merge_metadata_keeps s j s' :
  merge_metadata s j = Some s' ->
  source_dir s' = source_dir s /\ entrypoint s' = entrypoint s /\ signature_path s' = signature_path s.
Proof.
  unfold merge_metadata. destruct (if contains j "description" && _ then _ else _) as [d|]; [|done].
  cbn [mbind option_bind].
  destruct (match at_key j "metadata" with Some _ => _ | None => _ end) as [m|]; [|done].
  cbn. by intros [= <-].
Qed.

(** What an imported skill is: it keeps its directory, its entry point is the
    normal form of the declared path, has no dot-dot and starts with the
    directory's name, and its metadata says where it came from. *)
Lemma import_skill_sound dir s :
  import_skill json_parse files exists_at dir = Some (Ok s) ->
  source_dir s = dir /\
  contains_sub (lit "..") (entrypoint s) = false /\
  starts_with (lexically_normal dir) (entrypoint s) = true /\
  (exists entry, entrypoint s = lexically_normal (path_append dir entry) /\
     forall sig, signature_path s = Some sig ->
       sig = path_append dir (entry ++ lit ".sig") /\ exists_at sig = true) /\
  at_get get_string (sk_metadata s) "source" = Some (lit "clawhub") /\
  at_get get_string (sk_metadata s) "imported_from" = Some dir.
Proof.
  unfold import_skill. destruct (parse_skill_file _ _) as [fm|]; [|done].
  set (entry := default _ (fm_get fm (lit "entrypoint"))).
  destruct (escapes dir _) eqn:He; [done|]. apply orb_false_iff in He as [Hdd Hst].
  apply negb_false_iff in Hst. set (s0 := mkSkill _ _ _ _ _ _ _ _ _ _).
  destruct (if exists_at (path_append dir (lit "openclaw.json")) then _ else _) as [s1|] eqn:Hs1; [|done]. cbn [mbind option_bind].
  assert (source_dir s1 = dir /\ entrypoint s1 = entrypoint s0 /\ signature_path s1 = signature_path s0)
    as (Hd1 & He1 & Hg1).
  { destruct (exists_at (path_append dir (lit "openclaw.json"))); [|by simplify_eq].
    destruct (parse_openclaw_json _ _ _); [|by simplify_eq].
    by apply merge_metadata_keeps in Hs1. }
  cbn [set_members]. destruct (set_member _ _ _) as [m1|] eqn:Hm1; [|done]. cbn [mbind option_bind].
  destruct (set_member m1 _ _) as [m2|] eqn:Hm2; [|done]. cbn [mbind option_bind]. intros [= <-].
  cbn [source_dir entrypoint signature_path sk_metadata]. rewrite Hd1, He1, Hg1. cbn [entrypoint s0].
  apply set_member_get in Hm1 as [x1 ->]. unfold set_member in Hm2. rewrite members_obj in Hm2.
  injection Hm2 as <-. split; [done|]. split; [done|]. split; [done|]. split.
  - exists entry. split; [done|]. intros sig Hsig. cbn [signature_path s0] in Hsig.
    destruct (exists_at (path_append dir (entry ++ lit ".sig"))) eqn:Hx; [|done].
    injection Hsig as <-. done.
  - unfold at_get, at_key. rewrite members_obj. cbn [mbind option_bind].
    rewrite lookup_insert_ne, lookup_insert_eq, lookup_insert_eq by done. cbn [mbind option_bind].
    by rewrite !get_string_str.
Qed.
End import_properties.

(** ** Provenance: properties *)

Lemma hex_encode_nonempty s : s <> [] -> hex_encode s <> [].
Proof. by destruct s. Qed.

Section provenance_properties.
Context `{Sha256} {J : Type}.

Lemma hash_bytes_nonempty d : hash_bytes d <> [].
Proof.
  apply hex_encode_nonempty. intros E. pose proof (sha256_length d) as Hl. by rewrite E in Hl.
Qed.

(** An entry recorded for a readable artifact verifies as long as the file
    keeps its contents; a different file verifies only with the hash of the
    recorded one; a missing or unreadable file never verifies. *)
Theorem provenance_verify fs fs' now (chain : list (ProvenanceEntry J)) artifact builder mats meta :
  let '(chain', e) := record fs now chain artifact builder mats meta in
  chain' = chain ++ [e] /\
  (verify_artifact fs' artifact e = true <->
   exists d d', fs artifact = Some d /\ fs' artifact = Some d' /\ hash_bytes d' = hash_bytes d).
Proof.
  unfold record. split; [done|]. unfold verify_artifact, hash_file. cbn [artifact_hash].
  rewrite andb_true_iff, negb_true_iff, bool_decide_eq_false, bool_decide_eq_true.
  destruct (fs' artifact) as [d'|]; [|split; [by intros [? _]|by intros (? & ? & _ & ? & _)]].
  destruct (fs artifact) as [d|]; [|split; [by intros [? ?]|by intros (? & ? & ? & _)]].
  split; [intros [_ ?]; eauto|]. intros (x & y & [= ->] & [= ->] & Heq). split; [|done].
  apply hash_bytes_nonempty.
Qed.
End provenance_properties.

(** ** Execution: properties *)

(** A variable on the deny list keeps its value whatever a skill passes. *)
Theorem denied_env_kept env vars name :
  is_denied_env name = true -> apply_env env vars !! name = env !! name.
Proof.
  intros Hd. unfold apply_env. revert env. induction vars as [|e vars IH]; intros env; [done|].
  cbn [foldl]. rewrite IH. destruct (find_char "=" e) as [i|]; [|done].
  destruct (is_denied_env (take i e)) eqn:He; [done|]. apply lookup_insert_ne. congruence.
Qed.

Lemma read_loop_bound n evs out :
  Forall (fun e => match e with ReadBytes b => Z.of_nat (length b) <= 4096 | _ => True end)%Z evs ->
  (Z.of_nat (length out) <= kMaxOutputBytes)%Z ->
  (Z.of_nat (length (read_loop n evs out)) <= kMaxOutputBytes + 4096)%Z.
Proof.
  intros He. revert n out. induction He as [|e evs Hb _ IH]; intros n out Ho.
  { destruct n; cbn [read_loop]; lia. }
  destruct n as [|n]; [cbn [read_loop]; lia|]. destruct e as [| |b]; cbn [read_loop]; [lia..|].
  destruct (kMaxOutputBytes <? _)%Z eqn:E; [rewrite length_app; lia|].
  apply IH. apply Z.ltb_ge in E. lia.
Qed.

(** The output kept of a child is bounded, since every read fills at most a
    4096-byte buffer. *)
Theorem captured_output_bounded n evs :
  Forall (fun e => match e with ReadBytes b => Z.of_nat (length b) <= 4096 | _ => True end)%Z evs ->
  (Z.of_nat (length (read_loop n evs [])) <= kMaxOutputBytes + 4096)%Z.
Proof. intros He. apply read_loop_bound; [done|]. by vm_compute. Qed.

(** The first pause of a child longer than the poll interval ends the
    capture: what it writes later is lost. *)
Theorem captured_output_stops n (before : list str) later :
  (length before <= n)%nat -> (Z.of_nat (length (concat before)) <= kMaxOutputBytes)%Z ->
  read_loop n ((ReadBytes <$> before) ++ PollNothing :: later) [] = concat before.
Proof.
  assert (forall out, (length before <= n)%nat ->
    (Z.of_nat (length (out ++ concat before)) <= kMaxOutputBytes)%Z ->
    read_loop n ((ReadBytes <$> before) ++ PollNothing :: later) out = out ++ concat before) as Hgen.
  { revert n. induction before as [|b before IH]; intros n out Hn Hb.
    - cbn. rewrite app_nil_r. by destruct n.
    - destruct n as [|n]; [cbn in Hn; lia|]. cbn [fmap list_fmap app read_loop concat] in *.
      rewrite app_assoc in Hb.
      destruct (kMaxOutputBytes <? _)%Z eqn:E.
      { apply Z.ltb_lt in E. rewrite !length_app in *. lia. }
      change (list_fmap _ _ ReadBytes before) with (ReadBytes <$> before).
      rewrite IH; [by rewrite <-app_assoc|cbn in Hn; lia|done]. }
  intros Hn Hb. by apply (Hgen []).
Qed.

Section run_properties.
Context {J : Type}.

(** Without [nsjail] a policy does not change the command that is run: the
    skill runs with the caller's rights; the policy only sets advisory
    environment variables. *)
Theorem direct_run_ignores_policy (p : SkillExecutionPolicy J) s :
  sp_argv (run (Some p) false s) = sp_argv (run None false s) /\
  exists extra, sp_env (run (Some p) false s) = sp_env (run None false s) ++ extra.
Proof. split; [done|]. cbn. by eexists [_; _; _]. Qed.

(** In the sandbox, the allowed hosts and the writable paths of a policy have
    no effect: policies that differ only there give the same command. *)
Theorem sandbox_ignores_lists (p q : SkillExecutionPolicy J) s :
  read_only p = read_only q -> deny_all p = deny_all q ->
  memory_mb p = memory_mb q -> timeout_seconds p = timeout_seconds q ->
  run (Some p) true s = run (Some q) true s.
Proof.
  intros H1 H2 H3 H4. unfold run, spawn_sandboxed, build_env, spawn_timeout.
  by rewrite H1, H2, H3, H4.
Qed.

End run_properties.

(** ** Examples *)

Definition sample_skill : BridgedSkill SampleJson.value :=
  mkSkill (lit "n") (lit "s") (lit "/skills/a") [] (lit "node") (lit "/skills/a/index.js") [lit "t"]
    SampleJson.Null (Some (lit "/skills/a/index.js.sig")) None.

Lemma skill_json_roundtrip_witness :
  @skill_from_json SampleJson.json (@skill_to_json SampleJson.json sample_skill) = Some sample_skill.
Proof. apply (@skill_json_roundtrip SampleJson.json SampleJson.json_ok sample_skill). Defined.

Lemma parse_frontmatter_roundtrip_witness :
  parse_frontmatter (fm_render [(lit "name", lit "x: y")] [lit "---"; []])
  = mkFrontmatter (foldl (fun m kv => <[kv.1 := kv.2]> m) ∅ [(lit "name", lit "x: y")])
      (flat_map (fun l => l ++ [eol]) [lit "---"; []]).
Proof.
  apply (parse_frontmatter_roundtrip [(lit "name", lit "x: y")] [lit "---"; []]).
  - constructor; [|constructor]. repeat split; try (by vm_compute); apply (bool_decide_unpack _); by vm_compute.
  - repeat constructor; apply (bool_decide_unpack _); by vm_compute.
Defined.

Lemma unclosed_frontmatter_witness :
  fm_body (parse_frontmatter (flat_map (fun l => l ++ [eol]) [lit "---"; lit "name: x"; lit "text"])) = [].
Proof.
  apply (unclosed_frontmatter [lit "name: x"; lit "text"]).
  repeat constructor; try (by vm_compute); apply (bool_decide_unpack _); by vm_compute.
Defined.

(** A file system with one skill whose entry point is in a sibling directory
    that has the skill's directory name as a prefix. *)
Definition sibling_files (p : path) : option str :=
  if bool_decide (p = lit "/skills/a/SKILL.md")
  then Some (fm_render [(lit "entrypoint", lit "../ab/evil.js")] []) else None.

Definition no_json (s : str) : expected SampleJson.value str := Unexpected [].
Definition sibling_skill : BridgedSkill SampleJson.value :=
  mkSkill (lit "a") (lit "a") (lit "/skills/a") [] (lit "node") (lit "/skills/ab/evil.js") []
    (SampleJson.Obj (<[lit "imported_from" := SampleJson.Str (lit "/skills/a")]>
       {[ lit "source" := SampleJson.Str (lit "clawhub") ]})) None None.

(** The guard compares strings, not path components: the entry point of
    [/skills/a] may be in [/skills/ab]. *)
Lemma import_skill_sibling :
  @import_skill SampleJson.json no_json sibling_files (fun _ => false) (lit "/skills/a")
  = Some (Ok sibling_skill).
Proof. by vm_compute. Qed.

Lemma import_skill_sound_witness :
  starts_with (lexically_normal (lit "/skills/a")) (entrypoint sibling_skill) = true.
Proof.
  apply (@import_skill_sound SampleJson.json SampleJson.json_ok no_json sibling_files (fun _ => false)
    (lit "/skills/a") sibling_skill). exact import_skill_sibling.
Defined.

Lemma denied_env_kept_witness :
  apply_env {[lit "PATH" := lit "/bin"]} [lit "PATH=/tmp"; lit "A=b"] !! lit "PATH"
  = ({[lit "PATH" := lit "/bin"]} : gmap str str) !! lit "PATH".
Proof. apply denied_env_kept. by vm_compute. Defined.

Lemma captured_output_stops_witness :
  read_loop 10 ((ReadBytes <$> [lit "a"; lit "b"]) ++ PollNothing :: [ReadBytes (lit "c")]) [] = lit "ab".
Proof. apply (captured_output_stops 10 [lit "a"; lit "b"] [ReadBytes (lit "c")]); [cbn; lia|by vm_compute]. Defined.

(** Denying the network passes [--disable_clone_newnet], the option that keeps
    the caller's network; allowing it leaves the option out. *)
Lemma network_flag_inverted :
  lit "--disable_clone_newnet" ∈ sp_argv (run (Some default_policy) true sample_skill) /\
  lit "--disable_clone_newnet" ∉ sp_argv (run (Some permissive) true sample_skill).
Proof. split; apply (bool_decide_unpack _); by vm_compute. Qed.
