(* ===== verification/Admission.v ===== *)
(** * Admission of bridged skills: [libs/bridge]

    [static_analysis.cpp] (pattern search over a skill's sources),
    [verification.cpp] (the detached signature of the entry point),
    [reputation.cpp] and the pipeline of [admission.cpp].  The patterns are the
    sources' regular expressions, compiled by [Regex].  [files] gives the
    contents of a path, [listing] the entries the recursive directory iterator
    visits with their file type, [None] for a directory that does not exist.
    Ed25519 and libsodium's base64 decoder are outside the sources. *)

From Stdlib Require Import ZArith Ascii String Lia SpecFloat.
From stdpp Require Import base list gmap strings.
From S2P Require Import Prelude CxxString Lines Clock Doubles Json Attest Regex Paths Skills.

(** ** Static analysis *)

Inductive AnalysisSeverity : Type := AInfo | AWarning | ACritical.
#[export] Instance AnalysisSeverity_eq_dec : EqDecision AnalysisSeverity.
Proof. solve_decision. Defined.

Record AnalysisFinding : Type := mkAnalysis {
  a_severity : AnalysisSeverity; a_pattern : str; a_location : str; a_description : str;
}.

Record AnalysisReport : Type := mkReport {
  passed : bool; a_findings : list AnalysisFinding; scanned_files : Z;
}.

Record SourcePattern : Type := mkSource {
  sp_regex : string; sp_severity : AnalysisSeverity; sp_name : string; sp_description : string;
}.

Definition get_patterns : list SourcePattern := [
  mkSource "eval\s*\(" ACritical "eval" "Dynamic code execution via eval()";
  mkSource "exec\s*\(" ACritical "exec" "Dynamic code execution via exec()";
  mkSource "subprocess\.(call|run|Popen|check_output)" ACritical "subprocess" "Subprocess execution";
  mkSource "os\.system\s*\(" ACritical "os.system" "OS command execution";
  mkSource "child_process" ACritical "child_process" "Node.js child process execution";
  mkSource (String.append "require\s*\(\s*['" (String.append (String quote "]child_process['")
    (String quote "]\s*\)"))) ACritical "require_child_process" "Node.js require('child_process')";
  mkSource "execSync|spawnSync|execFileSync" ACritical "sync_exec" "Synchronous process execution";
  mkSource "fetch\s*\(" AWarning "fetch" "Network fetch call";
  mkSource "XMLHttpRequest" AWarning "xhr" "XMLHttpRequest usage";
  mkSource "\.connect\s*\(" AWarning "connect" "Network connection attempt";
  mkSource "socket\." AWarning "socket" "Raw socket usage";
  mkSource "fs\.writeFile|fs\.unlink|fs\.rmdir" ACritical "fs_write"
    "File system write/delete operations";
  mkSource "os\.remove|os\.unlink|shutil\.rmtree" ACritical "py_fs_write"
    "Python file system destructive operations";
  mkSource "process\.env" AWarning "process_env" "Environment variable access";
  mkSource "os\.environ" AWarning "os_environ" "Python environment variable access";
  mkSource "__import__\s*\(" AWarning "__import__" "Dynamic Python import";
  mkSource "importlib" AWarning "importlib" "Dynamic import via importlib";
  mkSource "crypto|bcrypt|hashlib" AInfo "crypto_usage" "Cryptographic library usage";
  mkSource "base64\.(encode|decode|b64encode|b64decode)" AInfo "base64" "Base64 encoding/decoding"].

Definition is_analyzable (p : path) : bool :=
  let ext := path_extension p in
  existsb (fun e => bool_decide (ext = lit e)) [".js"; ".ts"; ".py"; ".mjs"; ".cjs"; ".jsx"; ".tsx"].

(** The findings of one line: the patterns it contains, in order. *)
Definition line_findings (p : path) (n : nat) (line : str) : list AnalysisFinding :=
  omap (fun pat =>
    if regex_search (regex (sp_regex pat)) line
    then Some (mkAnalysis (sp_severity pat) (lit (sp_name pat)) (p ++ lit ":" ++ to_string_nat n)
                 (lit (sp_description pat)))
    else None) get_patterns.

Fixpoint lines_findings (p : path) (n : nat) (lines : list str) : list AnalysisFinding :=
  match lines with
  | [] => []
  | l :: lines => line_findings p (S n) l ++ lines_findings p (S n) lines
  end.

Definition analyze_file (files : path -> option str) (p : path) : list AnalysisFinding :=
  if negb (is_analyzable p) then []
  else match files p with
       | None => []
       | Some s => lines_findings p 0 (getlines s)
       end.

(** The loop over the entries of the directory tree. *)
Definition analyze_entry (files : path -> option str) (r : AnalysisReport) (e : path * bool) :
    AnalysisReport :=
  let '(p, regular) := e in
  if negb regular then r
  else if negb (is_analyzable p) then r
  else
    let fs := analyze_file files p in
    mkReport (passed r && negb (existsb (fun f => bool_decide (a_severity f = ACritical)) fs))
      (a_findings r ++ fs) (scanned_files r + 1).

Definition analyze_directory (files : path -> option str) (listing : option (list (path * bool))) :
    AnalysisReport :=
  match listing with
  | None => mkReport true [] 0
  | Some entries => foldl (analyze_entry files) (mkReport true [] 0) entries
  end.

(** ** Signatures *)

Record VerificationResult : Type := mkVerification { valid : bool; signer : str; v_message : str }.

Section signatures.
Context {SK : Type} `{Ed25519 str SK}.
(** [sodium_base642bin] into 32 bytes with the standard alphabet: the decoded
    bytes, [None] when it fails. *)
Context (base642bin : str -> option str).
Context (files : path -> option str).

Definition verify_skill_signature (file sig : path) (public_key : str) :
    expected VerificationResult str :=
  match files file with
  | None => Unexpected (lit "Cannot open file: " ++ file)
  | Some bytes =>
      match files sig with
      | None => Unexpected (lit "Cannot open signature: " ++ sig)
      | Some s =>
          if negb (length s =? 64)%nat then
            Unexpected (lit "Invalid signature size: expected 64 bytes, got "
                        ++ to_string_nat (length s))
          else
            let ok := ed_verify public_key bytes s in
            Ok (mkVerification ok (if ok then lit "verified" else lit "unknown")
                  (if ok then lit "Signature verified successfully"
                   else lit "Signature verification failed"))
      end
  end.

Definition load_public_key (p : path) : expected str str :=
  match files p with
  | None => Unexpected (lit "Cannot open key file: " ++ p)
  | Some data =>
      if (length data =? 32)%nat then Ok data
      else match base642bin data with
           | Some key => if (length key =? 32)%nat then Ok key
                         else Unexpected (lit "Invalid key format: expected 32 bytes raw or base64")
           | None => Unexpected (lit "Invalid key format: expected 32 bytes raw or base64")
           end
  end.

(** ** The pipeline *)

Record AdmissionResult : Type := mkAdmission {
  admitted : bool; stages_passed : list str; stages_failed : list str;
  ad_findings : list AnalysisFinding;
}.

Context {J : Type}.
Implicit Types (s : BridgedSkill J) (policy : option (SkillExecutionPolicy J)).

Definition check_structure s : bool :=
  if bool_decide (sk_name s = []) then false
  else if bool_decide (sk_runtime s = []) then false
  else if bool_decide (entrypoint s = []) then false
  else if bool_decide (source_dir s = []) then false
  else true.

(** [listing] of the skill's source directory. *)
Definition check_static_analysis (listing : option (list (path * bool))) :
    bool * list AnalysisFinding :=
  match listing with
  | None => (true, [])
  | Some _ => let r := analyze_directory files listing in (passed r, a_findings r)
  end.

Definition check_signature s policy : bool :=
  match policy with
  | None => true
  | Some p =>
      if negb (require_signature p) then true
      else match signature_path s with
           | None => false
           | Some sig =>
               match public_key_path p with
               | None => false
               | Some kp =>
                   match load_public_key kp with
                   | Unexpected _ => false
                   | Ok key =>
                       match verify_skill_signature (entrypoint s) sig key with
                       | Ok r => valid r
                       | Unexpected _ => false
                       end
                   end
               end
           end
  end.

(** One stage: its name goes to the passed or failed list. *)
Definition stage (name : string) (ok : bool) (r : AdmissionResult) : AdmissionResult :=
  if ok then mkAdmission (admitted r) (stages_passed r ++ [lit name]) (stages_failed r) (ad_findings r)
  else mkAdmission false (stages_passed r) (stages_failed r ++ [lit name]) (ad_findings r).

(** [AdmissionPipeline::evaluate].  The reputation threshold the pipeline is
    built with is not read. *)
Definition evaluate (listing : option (list (path * bool))) s policy : AdmissionResult :=
  let r := mkAdmission true [] [] [] in
  let r := stage "structure" (check_structure s) r in
  let '(analysis_passed, fs) := check_static_analysis listing in
  let r := mkAdmission (admitted r) (stages_passed r) (stages_failed r) fs in
  let r := stage "static_analysis" analysis_passed r in
  stage "signature" (check_signature s policy) r.
End signatures.

(** ** Reputation *)

Record AuthorReputation : Type := mkReputation {
  author_id : str; rep_score : double; skills_published : Z; skills_flagged : Z; last_updated : str;
}.

Abbreviation ReputationStore := (gmap str AuthorReputation).

Definition d_half : double := d_lit 1 2.
Definition d_1 : double := d_of_Z 1.

(** [std::clamp(x, 0.0, 1.0)] *)
Definition clamp (x : double) : double :=
  if d_lt x d_zero then d_zero else if d_lt d_1 x then d_1 else x.

(** The author's entry, created when there is none; [now] is the clock. *)
Definition get_or_create (st : ReputationStore) (id : str) (now : Z) : AuthorReputation :=
  match st !! id with
  | Some r => r
  | None => mkReputation id d_half 0 0 (iso8601 now)
  end.

Definition rep_update (st : ReputationStore) (id : str) (score : double) (now : Z) : ReputationStore :=
  let r := get_or_create st id now in
  <[id := mkReputation (author_id r) (clamp score) (skills_published r) (skills_flagged r)
            (iso8601 now)]> st.

(** [std::max(0.0, x)]: the first argument unless it is smaller. *)
Definition d_max0 (x : double) : double := if d_lt d_zero x then x else d_zero.

(** [int] increment; [None] when it overflows. *)
Definition incr (n : Z) : option Z := if (n =? 2 ^ 31 - 1)%Z then None else Some (n + 1)%Z.

Definition rep_flag (st : ReputationStore) (id : str) (now : Z) : option ReputationStore :=
  let r := get_or_create st id now in
  n ← incr (skills_flagged r);
  Some (<[id := mkReputation (author_id r) (d_max0 (d_sub (rep_score r) (d_lit 1 10)))
                  (skills_published r) n (iso8601 now)]> st).

Definition rep_publish (st : ReputationStore) (id : str) (now : Z) : option ReputationStore :=
  let r := get_or_create st id now in
  n ← incr (skills_published r);
  Some (<[id := mkReputation (author_id r) (rep_score r) n (skills_flagged r) (iso8601 now)]> st).

Definition rep_get (st : ReputationStore) (id : str) : option AuthorReputation := st !! id.
Definition rep_score_of (st : ReputationStore) (id : str) : double :=
  match st !! id with Some r => rep_score r | None => d_half end.

(** ** Static analysis: properties *)

Lemma patterns_compile : forallb (fun p => match parse_regex (lit (sp_regex p)) with
  | Some _ => true | None => false end) get_patterns = true.
Proof. by vm_compute. Qed.

(** A line contains a match of a pattern. *)
Definition line_has (pat : SourcePattern) (line : str) : Prop :=
  exists a m b, line = a ++ m ++ b /\ Matches (regex (sp_regex pat)) (after None a) m b.

Lemma regex_search_line pat line :
  regex_search (regex (sp_regex pat)) line = true <-> line_has pat line.
Proof.
  rewrite regex_search_correct. unfold line_has, starts. split.
  - intros (a & b & -> & m & c & -> & Hm). eauto.
  - intros (a & m & b & -> & Hm). exists a, (m ++ b). eauto.
Qed.

Definition finding_at (p : path) (n : nat) (pat : SourcePattern) : AnalysisFinding :=
  mkAnalysis (sp_severity pat) (lit (sp_name pat)) (p ++ lit ":" ++ to_string_nat n)
    (lit (sp_description pat)).

Lemma elem_of_line_findings p n line f :
  f ∈ line_findings p n line <->
  exists pat, pat ∈ get_patterns /\ line_has pat line /\ f = finding_at p n pat.
Proof.
  unfold line_findings. rewrite list_elem_of_omap. split.
  - intros (pat & Hin & Hf). exists pat. split; [done|].
    destruct (regex_search _ _) eqn:E; [|done]. apply regex_search_line in E. by simplify_eq.
  - intros (pat & Hin & Hl & ->). exists pat. split; [done|].
    apply regex_search_line in Hl. by rewrite Hl.
Qed.

Lemma elem_of_lines_findings p n lines f :
  f ∈ lines_findings p n lines <->
  exists i line pat, lines !! i = Some line /\ pat ∈ get_patterns /\ line_has pat line /\
    f = finding_at p (n + i + 1) pat.
Proof.
  revert n. induction lines as [|l lines IH]; intros n; cbn [lines_findings].
  { split; [by intros ?%elem_of_nil|by intros (? & ? & ? & ? & _)]. }
  rewrite elem_of_app, elem_of_line_findings, IH. split.
  - intros [(pat & H1 & H2 & ->)|(i & line & pat & H1 & H2 & H3 & ->)].
    + exists 0%nat, l, pat. do 3 (split; [done|]). f_equal; lia.
    + exists (S i), line, pat. do 3 (split; [done|]). f_equal; lia.
  - intros ([|i] & line & pat & H1 & H2 & H3 & ->); cbn in H1; simplify_eq.
    + left. exists pat. do 2 (split; [done|]). f_equal; lia.
    + right. exists i, line, pat. do 3 (split; [done|]). f_equal; lia.
Qed.

(** The analysis of a source file reports exactly the (line, pattern) pairs
    where the line contains a match of the pattern's regular expression, at
    the line's 1-based number; files of other types and unreadable files
    report nothing. *)
Theorem analyze_file_exact files p f :
  f ∈ analyze_file files p <->
  is_analyzable p = true /\ exists s, files p = Some s /\
    exists i line pat, getlines s !! i = Some line /\ pat ∈ get_patterns /\ line_has pat line /\
      f = finding_at p (i + 1) pat.
Proof.
  unfold analyze_file. destruct (is_analyzable p); cbn [negb].
  2: { split; [by intros ?%elem_of_nil|by intros [? _]]. }
  destruct (files p) as [s|].
  - rewrite elem_of_lines_findings. split; [intros H; split; [done|]; exists s; by split|].
    intros (_ & s' & [= ->] & H). exact H.
  - split; [by intros ?%elem_of_nil|by intros (_ & s & ? & _)].
Qed.

Definition critical (f : AnalysisFinding) : bool := bool_decide (a_severity f = ACritical).

Lemma analyze_fold files r entries :
  let scanned := List.filter (fun e : path * bool => snd e && is_analyzable (fst e)) entries in
  let fs := flat_map (fun e => analyze_file files (fst e)) scanned in
  foldl (analyze_entry files) r entries
  = mkReport (passed r && negb (existsb critical fs)) (a_findings r ++ fs)
      (scanned_files r + Z.of_nat (length scanned)).
Proof.
  cbn zeta. revert r. induction entries as [|[p reg] entries IH]; intros r.
  { destruct r. cbn. by rewrite andb_true_r, app_nil_r, Z.add_0_r. }
  cbn [foldl List.filter fst snd]. rewrite IH. destruct reg, (is_analyzable p) eqn:Hp; cbn [andb]; unfold analyze_entry;
    rewrite ?Hp; cbn [negb passed a_findings scanned_files]; try done.
  cbn [flat_map length fst]. rewrite existsb_app, negb_orb, <-andb_assoc, <-app_assoc.
  f_equal. lia.
Qed.

(** The report of a directory holds the findings of its source files in the
    order of the walk, counts them, and passes exactly when none is
    critical. *)
Theorem analyze_directory_spec files entries :
  let scanned := List.filter (fun e : path * bool => snd e && is_analyzable (fst e)) entries in
  let r := analyze_directory files (Some entries) in
  a_findings r = flat_map (fun e => analyze_file files (fst e)) scanned /\
  scanned_files r = Z.of_nat (length scanned) /\
  (passed r = true <-> forall f, f ∈ a_findings r -> a_severity f <> ACritical).
Proof.
  cbn zeta. unfold analyze_directory. rewrite analyze_fold. cbn [a_findings scanned_files passed app andb].
  split; [done|]. split; [lia|]. rewrite negb_true_iff, <-not_true_iff_false, existsb_exists.
  unfold critical. split.
  - intros H f Hf Hc. apply H. exists f. split; [by apply list_elem_of_In|by apply bool_decide_eq_true].
  - intros H (f & Hf & Hc). apply bool_decide_eq_true in Hc. by apply (H f); [apply list_elem_of_In|].
Qed.

(** ** The calls the patterns catch *)

Lemma regex_eval :
  exists c, (forall d, c d = char_is "(" d) /\
  regex "eval\s*\(" = RLit (lit "eval") (RSeq (RStar (RSet (escape_class "s"))) (RSeq (RSet c) REps)).
Proof. exists (escape_class "("). split; [done|by vm_compute]. Qed.

(** A line with a call of [eval], with any blanks before the parenthesis,
    matches the first pattern. *)
Lemma eval_line_has a blanks b :
  Forall (fun c => isspace c = true) blanks ->
  line_has (mkSource "eval\s*\(" ACritical "eval" "Dynamic code execution via eval()")
    (a ++ lit "eval" ++ blanks ++ "("%char :: b).
Proof.
  intros Hb. destruct regex_eval as (c & Hc & Hre).
  exists a, (lit "eval" ++ blanks ++ ["("%char]), b. split; [by rewrite <-!app_assoc|].
  cbn [sp_regex]. rewrite Hre. apply matches_lit. exists (blanks ++ ["("%char]). split; [done|].
  apply MSeq; [by apply matches_star_set|]. apply (MSeq _ _ _ ["("%char] []).
  - apply MSet. rewrite Hc. by apply char_is_true.
  - constructor.
Qed.

(** ** Admission: properties *)

Section admission.
Context {SK J : Type} `{Ed25519 str SK} (base642bin : str -> option str).
Implicit Types (s : BridgedSkill J) (policy : option (SkillExecutionPolicy J)).

Definition stage_names : list str := [lit "structure"; lit "static_analysis"; lit "signature"].

(** A skill is admitted exactly when the three stages pass; every stage is
    listed once, as passed or failed, in order, and the findings of the
    analysis are kept either way. *)
Lemma evaluate_spec files listing s policy :
  let r := evaluate base642bin files listing s policy in
  let oks := [check_structure s; fst (check_static_analysis files listing);
              check_signature base642bin files s policy] in
  (admitted r = true <-> Forall (fun ok => ok = true) oks) /\
  stages_passed r = omap (fun x => if snd x : bool then Some (fst x) else None) (zip stage_names oks) /\
  stages_failed r = omap (fun x => if snd x : bool then None else Some (fst x)) (zip stage_names oks) /\
  ad_findings r = snd (check_static_analysis files listing).
Proof.
  cbn zeta. unfold evaluate. destruct (check_static_analysis files listing) as [ok fs]. cbn [fst snd].
  rewrite !Forall_cons.
  destruct (check_structure s), ok, (check_signature base642bin files s policy); cbn;
    (split; [|split; [done|split; done]]); (split; [|by intros (?&?&?&_)]; done || by repeat constructor).
Qed.

(** Under a policy that requires signatures, an admitted skill's entry point
    has a 64-byte detached signature that verifies under the policy's key. *)
Lemma admitted_is_signed files listing s p :
  require_signature p = true ->
  admitted (evaluate base642bin files listing s (Some p)) = true ->
  exists sig kp key bytes sb, signature_path s = Some sig /\ public_key_path p = Some kp /\
    load_public_key base642bin files kp = Ok key /\ length key = 32%nat /\
    files (entrypoint s) = Some bytes /\ files sig = Some sb /\ length sb = 64%nat /\
    ed_verify key bytes sb = true.
Proof.
  intros Hreq Had.
  assert (check_signature base642bin files s (Some p) = true) as Hs.
  { revert Had. unfold evaluate. destruct (check_static_analysis files listing).
    destruct (check_signature base642bin files s (Some p)); [done|].
    destruct (check_structure s), b; done. }
  unfold check_signature in Hs. rewrite Hreq in Hs. cbn [negb] in Hs.
  destruct (signature_path s) as [sig|]; [|done]. destruct (public_key_path p) as [kp|]; [|done].
  destruct (load_public_key base642bin files kp) as [key|] eqn:Hk; [|done].
  unfold verify_skill_signature in Hs. destruct (files (entrypoint s)) as [bytes|]; [|done].
  destruct (files sig) as [sb|] eqn:Hsb; [|done].
  destruct (length sb =? 64)%nat eqn:Hl; cbn [negb] in Hs; [|done]. cbn [valid] in Hs.
  apply Nat.eqb_eq in Hl. exists sig, kp, key, bytes, sb. repeat split; try done.
  unfold load_public_key in Hk. destruct (files kp) as [data|]; [|done].
  destruct (length data =? 32)%nat eqn:Hd; [apply Nat.eqb_eq in Hd; by simplify_eq|].
  destruct (base642bin data) as [k|]; [|done].
  destruct (length k =? 32)%nat eqn:Hk'; [apply Nat.eqb_eq in Hk'; by simplify_eq|done].
Qed.

(** The signature protects the entry point only: it is accepted whatever the
    other files of the skill hold. *)
Theorem signature_covers_entrypoint files files' s p :
  files' (entrypoint s) = files (entrypoint s) ->
  (forall x, signature_path s = Some x -> files' x = files x) ->
  (forall x, public_key_path p = Some x -> files' x = files x) ->
  check_signature base642bin files' s (Some p) = check_signature base642bin files s (Some p).
Proof.
  intros He Hs Hk. unfold check_signature. destruct (negb _); [done|].
  destruct (signature_path s) as [sig|]; [|done]. destruct (public_key_path p) as [kp|]; [|done].
  unfold load_public_key, verify_skill_signature.
  by rewrite He, (Hs sig eq_refl), (Hk kp eq_refl).
Qed.

(** A skill with a source file that calls [eval] on some line is refused. *)
Theorem eval_is_refused files listing s policy p text i a blanks b :
  (p, true) ∈ listing -> is_analyzable p = true -> files p = Some text ->
  getlines text !! i = Some (a ++ lit "eval" ++ blanks ++ "("%char :: b) ->
  Forall (fun c => isspace c = true) blanks ->
  admitted (evaluate base642bin files (Some listing) s policy) = false.
Proof.
  intros Hin Han Hf Hl Hb.
  assert (passed (analyze_directory files (Some listing)) = false) as Hno.
  { apply not_true_is_false. intros Hp. unfold analyze_directory in Hp. rewrite analyze_fold in Hp.
    cbn [passed andb] in Hp. apply negb_true_iff in Hp. rewrite <-not_true_iff_false in Hp. apply Hp.
    apply existsb_exists. exists (finding_at p (i + 1) (mkSource "eval\s*\(" ACritical "eval"
      "Dynamic code execution via eval()")). split; [|done].
    apply list_elem_of_In, elem_of_flat_map. exists (p, true). split.
    - apply list_elem_of_In, filter_In. split; [by apply list_elem_of_In|]. cbn [fst snd andb]. exact Han.
    - unfold analyze_file. cbn [fst]. rewrite Han, Hf. cbn [negb]. apply elem_of_lines_findings.
      eexists i, _, _. split; [exact Hl|]. split; [by left|]. split; [by apply eval_line_has|done]. }
  unfold evaluate, check_static_analysis. rewrite Hno.
  destruct (check_structure s), (check_signature base642bin files s policy); done.
Qed.
End admission.

(** ** Reputation: properties *)

Definition in_unit (d : double) : bool := d_le d_zero d && d_le d d_1.

(** A score that is set is clamped to the unit interval, unless it is not a
    number; an author that was never seen has the score one half. *)
Theorem rep_update_score st id score now :
  is_nan score = false ->
  in_unit (rep_score_of (rep_update st id score now) id) = true /\
  forall other, other <> id ->
    rep_score_of (rep_update st id score now) other = rep_score_of st other.
Proof.
  intros Hn. unfold rep_score_of, rep_update. split.
  - rewrite lookup_insert_eq. cbn [rep_score]. unfold clamp.
    destruct (d_lt score d_zero) eqn:E1; [by vm_compute|].
    destruct (d_lt d_1 score) eqn:E2; [by vm_compute|].
    unfold in_unit. by rewrite !d_le_of_not_lt.
  - intros other Ho. by rewrite lookup_insert_ne.
Qed.

(** A flagged author's score never falls below zero. *)
Lemma rep_flag_nonneg st id now st' :
  rep_flag st id now = Some st' -> d_le d_zero (rep_score_of st' id) = true.
Proof.
  unfold rep_flag, rep_score_of. destruct (incr _); [|done]. intros [= <-].
  rewrite lookup_insert_eq. cbn [rep_score]. unfold d_max0.
  destruct (d_lt d_zero _) eqn:E; [|by vm_compute]. unfold d_lt, d_le, SFltb, SFleb in *.
  by destruct (SFcompare _ _) as [[]|].
Qed.

Fixpoint flag_times (n : nat) (st : ReputationStore) (id : str) (now : Z) : option ReputationStore :=
  match n with O => Some st | S n => st ← rep_flag st id now; flag_times n st id now end.

(** Five flags of a new author leave a positive score, since one tenth is not
    a binary fraction; the sixth brings it to zero. *)
Lemma five_flags_leave_a_score :
  (fun st => d_lt d_zero (rep_score_of st (lit "a"))) <$> flag_times 5 ∅ (lit "a") 0 = Some true /\
  (fun st => rep_score_of st (lit "a")) <$> flag_times 6 ∅ (lit "a") 0 = Some d_zero.
Proof. split; by vm_compute. Qed.

(** ** Examples *)

#[local] Program Instance toy_ed : Ed25519 str unit := {|
  ed_sign _ m := toy_sign m;
  ed_verify _ m s := bool_decide (s = toy_sign m);
  ed_public _ := replicate 32 "k"%char;
|}.
Next Obligation. intros sk m. exact (@ed_sign_length unit unit toy_ed25519 tt m). Qed.
Next Obligation. intros sk m. by apply bool_decide_eq_true. Qed.

Definition demo_files (p : path) : option str :=
  if bool_decide (p = lit "/s/index.js") then Some (lit "let x = 1;")
  else if bool_decide (p = lit "/s/bad.py") then Some (lit "x = eval (y)")
  else if bool_decide (p = lit "/s/index.js.sig") then Some (toy_sign (lit "let x = 1;"))
  else if bool_decide (p = lit "/key") then Some (replicate 32 "k"%char)
  else None.

Definition demo_skill : BridgedSkill SampleJson.value :=
  mkSkill (lit "n") (lit "n") (lit "/s") [] (lit "node") (lit "/s/index.js") [] SampleJson.Null
    (Some (lit "/s/index.js.sig")) None.
Definition signed_policy : SkillExecutionPolicy SampleJson.value :=
  mkPolicy true (Some (lit "/key")) true [] true [] 256 20 None None.

Lemma demo_admitted :
  admitted (evaluate (fun _ => None) demo_files (Some [(lit "/s/index.js", true)]) demo_skill
    (Some signed_policy)) = true.
Proof. by vm_compute. Qed.

Lemma admitted_is_signed_witness :
  exists sig kp key bytes sb, signature_path demo_skill = Some sig /\
    public_key_path signed_policy = Some kp /\
    load_public_key (fun _ => None) demo_files kp = Ok key /\ length key = 32%nat /\
    demo_files (entrypoint demo_skill) = Some bytes /\ demo_files sig = Some sb /\
    length sb = 64%nat /\ ed_verify key bytes sb = true.
Proof.
  apply (admitted_is_signed (fun _ => None) demo_files (Some [(lit "/s/index.js", true)]) demo_skill
    signed_policy); [done|exact demo_admitted].
Defined.

Lemma signature_covers_entrypoint_witness :
  check_signature (fun _ => None) (fun p => if bool_decide (p = lit "/s/bad.py") then None else demo_files p)
    demo_skill (Some signed_policy)
  = check_signature (fun _ => None) demo_files demo_skill (Some signed_policy).
Proof.
  apply (signature_covers_entrypoint (fun _ => None) demo_files _ demo_skill signed_policy).
  - by vm_compute.
  - intros x [= <-]. by vm_compute.
  - intros x [= <-]. by vm_compute.
Defined.

Lemma eval_is_refused_witness :
  admitted (evaluate (fun _ => None) demo_files (Some [(lit "/s/bad.py", true)]) demo_skill None) = false.
Proof.
  apply (eval_is_refused (fun _ => None) demo_files [(lit "/s/bad.py", true)] demo_skill None
    (lit "/s/bad.py") (lit "x = eval (y)") 0 (lit "x = ") (lit " ") (lit "y)")).
  - by left.
  - by vm_compute.
  - by vm_compute.
  - by vm_compute.
  - by repeat constructor.
Defined.

Lemma rep_update_score_witness :
  in_unit (rep_score_of (rep_update ∅ (lit "a") (d_of_Z 7) 0) (lit "a")) = true.
Proof. apply (rep_update_score ∅ (lit "a") (d_of_Z 7) 0). by vm_compute. Defined.
