(* ===== verification/RuleLoader.v ===== *)
(** * Rule packs from YAML: [libs/scan/src/rule_loader.cpp]

    [yaml-cpp] is outside the sources: [Yaml] is the part of its node
    interface the loader uses and [YamlOk] its documented behaviour on nodes
    built from scalars, sequences and mappings.  A lookup of a missing key
    gives the undefined node, and [as<std::string>] gives [None] where it
    throws.  Patterns nest as deep as the document, so the recursion takes
    fuel; [YamlTree] says that a document has a depth, which holds for every
    document without an alias to one of its own ancestors, and one more than
    the depth is enough.  The warning on [std::cerr] about metavariables is not
    part of the result and is left out. *)

From Stdlib Require Import ZArith Ascii String Lia.
From stdpp Require Import base list gmap strings.
From S2P Require Import Prelude CxxString CpgGraph Finding Scan.

Class Yaml : Type := {
  ynode : Type;
  y_undefined : ynode;
  y_scalar : str -> ynode;
  y_seq : list ynode -> ynode;
  y_map : list (str * ynode) -> ynode;
  (** [explicit operator bool] *)
  defined : ynode -> bool;
  is_scalar : ynode -> bool;
  is_sequence : ynode -> bool;
  is_map : ynode -> bool;
  (** [node[key]] of a mapping *)
  y_at : ynode -> string -> ynode;
  (** the nodes a range-for over a sequence visits *)
  y_elems : ynode -> list ynode;
  as_string : ynode -> option str;
  (** [YAML::Load]: a node, or the text and 0-based line of the exception *)
  y_load : str -> expected ynode (str * Z);
}.

(** The value of the first member with a key. *)
Definition y_find `{Yaml} (kvs : list (str * ynode)) (k : string) : ynode :=
  match List.find (fun kv => bool_decide (kv.1 = lit k)) kvs with
  | Some kv => kv.2
  | None => y_undefined
  end.

Class YamlOk `{Yaml} : Prop := {
  defined_undefined : defined y_undefined = false;
  defined_scalar s : defined (y_scalar s) = true;
  defined_seq l : defined (y_seq l) = true;
  defined_map m : defined (y_map m) = true;
  scalar_scalar s : is_scalar (y_scalar s) = true;
  scalar_seq l : is_scalar (y_seq l) = false;
  scalar_map m : is_scalar (y_map m) = false;
  sequence_seq l : is_sequence (y_seq l) = true;
  map_map m : is_map (y_map m) = true;
  at_map m k : y_at (y_map m) k = y_find m k;
  elems_seq l : y_elems (y_seq l) = l;
  string_scalar s : as_string (y_scalar s) = Some s;
}.

(** Documents that are trees. *)
Class YamlTree `{Yaml} : Type := {
  depth : ynode -> nat;
  depth_at n k : defined (y_at n k) = true -> (depth (y_at n k) < depth n)%nat;
  depth_elem n e : e ∈ y_elems n -> (depth e < depth n)%nat;
}.

Record LoadError : Type := mkLoadError { le_message : str; le_file : str; le_line : Z }.

Section loader.
Context `{Yaml}.

(** [node[key]] as a condition. *)
Definition has (n : ynode) (k : string) : bool := defined (y_at n k).
(** [node[k] && node[k].IsSequence()] *)
Definition has_seq (n : ynode) (k : string) : bool := has n k && is_sequence (y_at n k).

Definition scalar_or_empty (n : ynode) (key : string) : str :=
  if negb (defined n) || negb (is_map n) || negb (has n key) then []
  else default [] (as_string (y_at n key)).

(** [build_pattern_list], with the recursive call as an argument. *)
Definition build_pattern_list (rec : ynode -> option Pattern) (seq : ynode) :
    option (list Pattern) :=
  if negb (defined seq) || negb (is_sequence seq) then Some [] else mapM rec (y_elems seq).

Definition wrap_unary (rec : ynode -> option Pattern) (kind : PatternKind) (child : ynode) :
    option Pattern :=
  p ← rec child; Some (mkPattern kind [] [p]).

Fixpoint build_pattern_from_node (fuel : nat) (n : ynode) : option Pattern :=
  match fuel with
  | O => None
  | S fuel =>
      let rec := build_pattern_from_node fuel in
      if negb (defined n) then Some no_pattern
      else if is_scalar n then Some (mkPattern PLiteral (default [] (as_string n)) [])
      else if negb (is_map n) then Some no_pattern
      else if has n "pattern-not" then wrap_unary rec PNegation (y_at n "pattern-not")
      else if has n "pattern-inside" then wrap_unary rec PInside (y_at n "pattern-inside")
      else if has_seq n "pattern-either" then
        cs ← build_pattern_list rec (y_at n "pattern-either"); Some (mkPattern PAlternation [] cs)
      else if has_seq n "patterns" then
        cs ← build_pattern_list rec (y_at n "patterns"); Some (mkPattern PComposite [] cs)
      else if has n "pattern" then
        Some (mkPattern PLiteral (default [] (as_string (y_at n "pattern"))) [])
      else Some no_pattern
  end.

Definition build_rule_pattern (fuel : nat) (n : ynode) : option Pattern :=
  let rec := build_pattern_from_node fuel in
  if negb (defined n) || negb (is_map n) then Some no_pattern
  else if has_seq n "pattern-either" then
    cs ← build_pattern_list rec (y_at n "pattern-either"); Some (mkPattern PAlternation [] cs)
  else if has_seq n "patterns" then
    cs ← build_pattern_list rec (y_at n "patterns"); Some (mkPattern PComposite [] cs)
  else if has n "pattern-not" then wrap_unary rec PNegation (y_at n "pattern-not")
  else if has n "pattern-inside" then wrap_unary rec PInside (y_at n "pattern-inside")
  else if has n "pattern" then
    Some (mkPattern PLiteral (default [] (as_string (y_at n "pattern"))) [])
  else Some no_pattern.

(** The scalar form or the first element of the list form of a metadata
    field; [None] also when the conversion throws. *)
Definition first_string (metadata : ynode) (key : string) : option str :=
  if negb (defined metadata) || negb (is_map metadata) then None
  else let f := y_at metadata key in
       if negb (defined f) then None
       else if is_scalar f then as_string f
       else if is_sequence f then e ← head (y_elems f); as_string e
       else None.

Definition extract_first_cwe (metadata : ynode) : option str := first_string metadata "cwe".

Definition extract_first_owasp (metadata : ynode) : option OwaspCategory :=
  s ← first_string metadata "owasp"; parse_owasp_token s.

(** The loop over a reference list: a conversion that throws ends it and keeps
    what was read. *)
Fixpoint read_references (l : list ynode) : list str :=
  match l with
  | [] => []
  | r :: l =>
      if is_scalar r then
        match as_string r with Some s => s :: read_references l | None => [] end
      else read_references l
  end.

Definition extract_references (metadata : ynode) : list str :=
  if negb (defined metadata) || negb (is_map metadata) then []
  else let refs := y_at metadata "references" in
       if negb (defined refs) then []
       else if is_scalar refs then match as_string refs with Some s => [s] | None => [] end
       else if is_sequence refs then read_references (y_elems refs)
       else [].

Definition language_of (l : ynode) : option Language :=
  if is_scalar l then s ← as_string l; parse_language_token s else None.

Definition extract_languages (rule_node : ynode) : list Language :=
  let langs := y_at rule_node "languages" in
  if negb (defined langs) || negb (is_sequence langs) then []
  else omap language_of (y_elems langs).

(** The outer [option] is the fuel of the pattern recursion. *)
Definition build_rule (fuel : nat) (n : ynode) : option (expected Rule str) :=
  if negb (defined n) || negb (is_map n) then
    Some (Unexpected (lit "rule entry is not a YAML map"))
  else
    let id := scalar_or_empty n "id" in
    let message := scalar_or_empty n "message" in
    if bool_decide (id = []) then Some (Unexpected (lit "rule missing required `id`"))
    else if bool_decide (message = []) then
      Some (Unexpected (lit "rule '" ++ id ++ lit "' missing required `message`"))
    else
      let sev := default RWarning (parse_severity (scalar_or_empty n "severity")) in
      p ← build_rule_pattern fuel n;
      let metadata := y_at n "metadata" in
      Some (Ok (mkRule id message sev (extract_languages n) p
        (mkMetadata (extract_first_cwe metadata) (extract_first_owasp metadata)
           (extract_references metadata) []))).

Definition entry_error (idx : nat) (e : str) : LoadError :=
  mkLoadError (lit "rules[" ++ to_string_nat idx ++ lit "]: " ++ e) [] 0.

Fixpoint build_rules (fuel : nat) (idx : nat) (entries : list ynode) :
    option (expected (list Rule) LoadError) :=
  match entries with
  | [] => Some (Ok [])
  | e :: entries =>
      match build_rule fuel e with
      | None => None
      | Some (Unexpected err) => Some (Unexpected (entry_error idx err))
      | Some (Ok r) =>
          match build_rules fuel (S idx) entries with
          | Some (Ok rs) => Some (Ok (r :: rs))
          | other => other
          end
      end
  end.

Definition load_rules_yaml (fuel : nat) (yaml name : str) : option (expected RulePack LoadError) :=
  match y_load yaml with
  | Unexpected (what, line) =>
      Some (Unexpected (mkLoadError (lit "YAML parse error: " ++ what) [] (line + 1)))
  | Ok root =>
      if negb (defined root) || negb (is_map root) then
        Some (Unexpected (mkLoadError (lit "rule pack root is not a YAML mapping") [] 0))
      else
        let rules_node := y_at root "rules" in
        if negb (defined rules_node) || negb (is_sequence rules_node) then
          Some (Unexpected (mkLoadError
            (lit "rule pack missing top-level `rules:` sequence") [] 0))
        else
          match build_rules fuel 0 (y_elems rules_node) with
          | Some (Ok rs) => Some (Ok (mkPack name rs))
          | Some (Unexpected e) => Some (Unexpected e)
          | None => None
          end
  end.

(** [path.filename()] of a path with [/] separators. *)
Definition filename (path : str) : str :=
  match rfind_char "/" path with Some i => drop (S i) path | None => path end.

(** [contents] is what the file holds, [None] when it cannot be opened. *)
Definition load_rules_file (fuel : nat) (path : str) (contents : option str) :
    option (expected RulePack LoadError) :=
  match contents with
  | None => Some (Unexpected (mkLoadError (lit "cannot open rule file") path 0))
  | Some s =>
      match load_rules_yaml fuel s (filename path) with
      | Some (Unexpected e) => Some (Unexpected (mkLoadError (le_message e) path (le_line e)))
      | other => other
      end
  end.

(** ** Specifications *)

(** The shapes the engine relies on: a literal has no children, a negation or
    [Inside] exactly one. *)
Fixpoint pattern_wf (p : Pattern) : bool :=
  match p with
  | mkPattern PLiteral _ cs => bool_decide (length cs = 0%nat)
  | mkPattern PComposite t cs | mkPattern PAlternation t cs =>
      bool_decide (t = []) && forallb pattern_wf cs
  | mkPattern PNegation t cs | mkPattern PInside t cs =>
      bool_decide (t = []) && bool_decide (length cs = 1%nat) && forallb pattern_wf cs
  end.

Definition rule_wf (r : Rule) : Prop :=
  r_id r <> [] /\ r_message r <> [] /\ pattern_wf (r_pattern r) = true /\
  extras (r_metadata r) = [].

(** The YAML form of a pattern and of a rule. *)
Fixpoint render_pattern (p : Pattern) : ynode :=
  match p with
  | mkPattern PLiteral t _ => y_scalar t
  | mkPattern PComposite _ cs => y_map [(lit "patterns", y_seq (map render_pattern cs))]
  | mkPattern PAlternation _ cs => y_map [(lit "pattern-either", y_seq (map render_pattern cs))]
  | mkPattern PNegation _ cs =>
      y_map [(lit "pattern-not", match cs with c :: _ => render_pattern c | [] => y_undefined end)]
  | mkPattern PInside _ cs =>
      y_map [(lit "pattern-inside",
              match cs with c :: _ => render_pattern c | [] => y_undefined end)]
  end.

Definition pattern_member (p : Pattern) : str * ynode :=
  match p with
  | mkPattern PLiteral t _ => (lit "pattern", y_scalar t)
  | mkPattern PComposite _ cs => (lit "patterns", y_seq (map render_pattern cs))
  | mkPattern PAlternation _ cs => (lit "pattern-either", y_seq (map render_pattern cs))
  | mkPattern PNegation _ cs =>
      (lit "pattern-not", match cs with c :: _ => render_pattern c | [] => y_undefined end)
  | mkPattern PInside _ cs =>
      (lit "pattern-inside", match cs with c :: _ => render_pattern c | [] => y_undefined end)
  end.

Definition severity_token (s : RuleSeverity) : string :=
  match s with RInfo => "INFO" | RWarning => "WARNING" | RError => "ERROR" end.
Definition language_token (l : Language) : string :=
  match l with
  | LC => "c" | LCpp => "cpp" | LRust => "rust" | LGo => "go" | LPython => "python"
  | LJavaScript => "javascript" | LTypeScript => "typescript" | LJava => "java"
  end.

Definition render_rule (r : Rule) : ynode :=
  let m := r_metadata r in
  y_map
    [(lit "id", y_scalar (r_id r)); (lit "message", y_scalar (r_message r));
     (lit "severity", y_scalar (lit (severity_token (r_severity r))));
     (lit "languages", y_seq ((fun l => y_scalar (lit (language_token l))) <$> r_languages r));
     pattern_member (r_pattern r);
     (lit "metadata", y_map
        (match primary_cwe m with Some c => [(lit "cwe", y_scalar c)] | None => [] end ++
         match primary_owasp m with
         | Some o => [(lit "owasp", y_scalar (lit (owasp_id o)))] | None => [] end ++
         [(lit "references", y_seq (y_scalar <$> references m))]))].

(** ** Lemmas *)

Fixpoint height (p : Pattern) : nat :=
  match p with mkPattern _ _ cs => S (foldr Nat.max 0 (map height cs)) end.

Lemma height_child (k : PatternKind) (t : str) cs c :
  c ∈ cs -> (height c < height (mkPattern k t cs))%nat.
Proof.
  cbn [height]. induction cs as [|c' cs IH]; [by intros ?%elem_of_nil|].
  intros [->|Hc]%elem_of_cons; cbn [map foldr]; [lia|]. specialize (IH Hc). lia.
Qed.

Lemma mapM_total {A B} (f : A -> option B) l :
  (forall x, x ∈ l -> exists y, f x = Some y) -> exists ys, mapM f l = Some ys.
Proof.
  intros Hf. apply mapM_is_Some, Forall_forall. intros x Hx. destruct (Hf x Hx) as [y Hy]. by exists y.
Qed.

(** The two pattern builders differ in the order of their cases only: what
    holds of the nested patterns carries over to the node in both. *)
Lemma members_total `{!YamlTree} rec n :
  (forall e, (depth e < depth n)%nat -> exists p, rec e = Some p) ->
  (forall kd k, has n k = true -> exists p, wrap_unary rec kd (y_at n k) = Some p) /\
  (forall k, has_seq n k = true -> exists cs, build_pattern_list rec (y_at n k) = Some cs).
Proof.
  intros Hrec. split.
  - intros kd k Hk. destruct (Hrec (y_at n k)) as [p Hp]; [by apply depth_at|].
    unfold wrap_unary. rewrite Hp. by eexists.
  - intros k [Hk _]%andb_true_iff. unfold build_pattern_list. destruct (_ || _); [by eexists|].
    apply mapM_total. intros e He. apply Hrec. etrans; [by apply depth_elem|by apply depth_at].
Qed.

Ltac build_total Hun Hseq :=
  case_ifs; try (by eexists);
  match goal with
  | Hk : has ?n ?k = true |- exists _, wrap_unary _ ?kd (y_at ?n ?k) = _ => by apply Hun
  | Hk : has_seq ?n ?k = true |- context [build_pattern_list _ (y_at ?n ?k)] =>
      destruct (Hseq k Hk) as [? ->]; by eexists
  end.

(** With more fuel than the depth of the node, a pattern is built. *)
Lemma build_pattern_total `{!YamlTree} fuel n :
  (depth n < fuel)%nat -> exists p, build_pattern_from_node fuel n = Some p.
Proof.
  revert n. induction fuel as [|fuel IH]; intros n Hn; [lia|]. cbn [build_pattern_from_node].
  destruct (members_total (build_pattern_from_node fuel) n) as [Hun Hseq]; [intros; apply IH; lia|].
  build_total Hun Hseq.
Qed.

Lemma build_rule_pattern_total `{!YamlTree} fuel n :
  (depth n <= fuel)%nat -> exists p, build_rule_pattern fuel n = Some p.
Proof.
  intros Hn. unfold build_rule_pattern.
  destruct (members_total (build_pattern_from_node fuel) n) as [Hun Hseq];
    [intros; apply build_pattern_total; lia|].
  build_total Hun Hseq.
Qed.

Lemma members_wf rec n :
  (forall e p, rec e = Some p -> pattern_wf p = true) ->
  (forall kd p, kd = PNegation \/ kd = PInside -> wrap_unary rec kd n = Some p ->
     pattern_wf p = true) /\
  (forall cs, build_pattern_list rec n = Some cs -> forallb pattern_wf cs = true).
Proof.
  intros Hrec. split.
  - unfold wrap_unary. intros kd p Hkd Hp. destruct (rec n) as [q|] eqn:E; [|done].
    injection Hp as <-. destruct Hkd as [-> | ->]; cbn; by rewrite (Hrec _ _ E).
  - unfold build_pattern_list. intros cs. destruct (_ || _); [by intros [= <-]|].
    intros Hm%mapM_Some. apply forallb_forall. intros p [i Hp]%list_elem_of_In%list_elem_of_lookup.
    destruct (Forall2_lookup_r _ _ _ _ _ Hm Hp) as (e & _ & He). by eapply Hrec.
Qed.

Ltac build_wf Hm :=
  case_ifs; try done;
  try match goal with
  | Hp : wrap_unary _ _ ?n = Some _ |- _ => apply (Hm n) in Hp; [done|naive_solver]
  | Hp : (?c ≫= _) = Some _ |- _ =>
      destruct c as [cs|] eqn:Hcs; cbn in Hp; [|done]; injection Hp as <-;
      cbn; by apply (Hm _) in Hcs
  end.

(** Every pattern built has the shape its kind asks for. *)
Lemma build_pattern_wf fuel n p : build_pattern_from_node fuel n = Some p -> pattern_wf p = true.
Proof.
  revert n p. induction fuel as [|fuel IH]; intros n p; [done|]. cbn [build_pattern_from_node].
  pose proof (fun n => members_wf _ n IH) as Hm. intros Hp. build_wf Hm.
Qed.

Lemma build_rule_pattern_wf fuel n p : build_rule_pattern fuel n = Some p -> pattern_wf p = true.
Proof.
  unfold build_rule_pattern. pose proof (fun n => members_wf _ n (build_pattern_wf fuel)) as Hm.
  intros Hp. build_wf Hm.
Qed.

Lemma build_rule_wf fuel n r : build_rule fuel n = Some (Ok r) -> rule_wf r.
Proof.
  unfold build_rule. intros Hr. repeat (case_match; try done). simplify_eq/=.
  destruct (build_rule_pattern fuel n) as [p|] eqn:Hp; [|done]. cbn in Hr. simplify_eq.
  repeat case_bool_decide; simplify_eq.
  repeat split; try done. by eapply build_rule_pattern_wf.
Qed.

Lemma build_rule_total `{!YamlTree} fuel n :
  (depth n <= fuel)%nat -> exists r, build_rule fuel n = Some r.
Proof.
  intros Hn. unfold build_rule. case_ifs; try by eexists.
  destruct (build_rule_pattern_total fuel n Hn) as [p ->]. by eexists.
Qed.

(** The first entry that does not build decides the error. *)
Lemma build_rules_spec fuel idx entries :
  (forall e, e ∈ entries -> exists r, build_rule fuel e = Some r) ->
  (exists rs, build_rules fuel idx entries = Some (Ok rs) /\
     Forall2 (fun e r => build_rule fuel e = Some (Ok r)) entries rs) \/
  (exists i e err, entries !! i = Some e /\ build_rule fuel e = Some (Unexpected err) /\
     (forall j e', (j < i)%nat -> entries !! j = Some e' ->
        exists r, build_rule fuel e' = Some (Ok r)) /\
     build_rules fuel idx entries = Some (Unexpected (entry_error (idx + i) err))).
Proof.
  revert idx. induction entries as [|e entries IH]; intros idx Htot.
  { left. exists []. by split. }
  cbn [build_rules]. destruct (Htot e) as [[r|err] Hr]; [by left|..]; rewrite Hr.
  - destruct (IH (S idx)) as [(rs & -> & Hrs)|(i & e' & err & Hi & He & Hpre & ->)].
    { intros e' He'. apply Htot. by right. }
    + left. exists (r :: rs). split; [done|]. by constructor.
    + right. exists (S i), e', err. split; [done|]. split; [done|]. split.
      * intros [|j] e'' Hj Hl; simplify_eq/=; [by exists r|]. apply (Hpre j); [lia|done].
      * by rewrite Nat.add_succ_r.
  - right. exists 0%nat, e, err. split; [done|]. split; [done|]. split; [lia|].
    by rewrite Nat.add_0_r.
Qed.

Lemma y_find_cons k' v m k :
  y_find ((lit k', v) :: m) k = if String.eqb k' k then v else y_find m k.
Proof.
  unfold y_find. cbn [List.find fst]. destruct (String.eqb_spec k' k) as [->|Hne].
  - by rewrite bool_decide_true.
  - by rewrite bool_decide_false by (intros ?%lit_inj; done).
Qed.

Lemma y_find_nil k : y_find [] k = y_undefined.
Proof. done. Qed.

Lemma y_find_app m m' k :
  y_find (m ++ m') k = (if existsb (fun kv => bool_decide (kv.1 = lit k)) m
                        then y_find m k else y_find m' k).
Proof.
  induction m as [|[k' v] m IH]; [done|]. unfold y_find. cbn [app List.find existsb fst].
  case_bool_decide; [done|]. exact IH.
Qed.

Section roundtrip.
Context `{!YamlOk}.

Ltac yaml :=
  unfold has_seq, has;
  repeat (rewrite ?at_map, ?y_find_cons, ?y_find_nil; cbn [String.eqb Ascii.eqb Bool.eqb]);
  rewrite ?defined_map, ?defined_undefined, ?defined_seq, ?defined_scalar, ?scalar_map, ?map_map,
    ?sequence_seq, ?scalar_scalar, ?string_scalar;
  cbn [negb orb andb default id].

Lemma defined_render p : pattern_wf p = true -> defined (render_pattern p) = true.
Proof. destruct p as [[] t cs]; cbn; intros; yaml; done. Qed.

Lemma mapM_render rec cs :
  (forall c, c ∈ cs -> rec (render_pattern c) = Some c) ->
  build_pattern_list rec (y_seq (map render_pattern cs)) = Some cs.
Proof.
  intros Hc. unfold build_pattern_list. yaml. rewrite elems_seq.
  apply mapM_Some, Forall2_fmap_l, Forall_Forall2_diag, Forall_forall. exact Hc.
Qed.

Lemma forallb_elem {A} (f : A -> bool) l x : forallb f l = true -> x ∈ l -> f x = true.
Proof. intros Hf Hx. rewrite forallb_forall in Hf. by apply Hf, list_elem_of_In. Qed.

Lemma pattern_wf_child k t cs :
  pattern_wf (mkPattern k t cs) = true -> forall c, c ∈ cs -> pattern_wf c = true.
Proof.
  intros Hwf c Hc. destruct k; cbn [pattern_wf] in Hwf; bool_to_prop; try by eapply forallb_elem.
  destruct cs; [by apply elem_of_nil in Hc|done].
Qed.

(** Building the YAML form of a pattern gives the pattern back. *)
Lemma render_pattern_roundtrip fuel p :
  pattern_wf p = true -> (height p <= fuel)%nat ->
  build_pattern_from_node fuel (render_pattern p) = Some p.
Proof.
  revert fuel. induction p as [k t cs IH] using pattern_ind'. intros fuel Hwf Hf.
  assert (exists fuel', fuel = S fuel') as [f ->] by (destruct fuel; [cbn in Hf; lia|by eexists]).
  pose proof (pattern_wf_child k t cs Hwf) as Hw.
  assert (forall c, c ∈ cs -> build_pattern_from_node f (render_pattern c) = Some c) as Hc.
  { intros c Hc. rewrite Forall_forall in IH. apply IH; [done|by apply Hw|].
    pose proof (height_child k t cs c Hc). lia. }
  assert (forall kd c, c ∈ cs -> wrap_unary (build_pattern_from_node f) kd (render_pattern c)
    = Some (mkPattern kd [] [c])) as Hu by (intros kd c Hin; unfold wrap_unary; by rewrite Hc).
  cbn [pattern_wf] in Hwf. destruct k; bool_to_prop; subst;
    cbn [render_pattern build_pattern_from_node]; yaml.
  1: by destruct cs.
  1,2: by rewrite mapM_render.
  all: destruct cs as [|c [|]]; try done;
    rewrite (defined_render c) by (apply Hw; by left); cbn; apply Hu; by left.
Qed.

Lemma parse_severity_token s : parse_severity (lit (severity_token s)) = Some s.
Proof. by destruct s. Qed.

Lemma parse_language_lit l : parse_language_token (lit (language_token l)) = Some l.
Proof. by destruct l. Qed.

Lemma parse_owasp_lit o : o <> OwaspNone -> parse_owasp_token (lit (owasp_id o)) = Some o.
Proof. by destruct o. Qed.

Lemma languages_roundtrip (ls : list Language) :
  omap language_of ((fun l => y_scalar (lit (language_token l))) <$> ls) = ls.
Proof.
  induction ls as [|l ls IH]; [done|]. cbn. unfold language_of at 1.
  rewrite scalar_scalar, string_scalar. cbn [mbind option_bind].
  rewrite parse_language_lit. f_equal. exact IH.
Qed.

Lemma references_roundtrip (l : list str) : read_references (y_scalar <$> l) = l.
Proof.
  induction l as [|s l IH]; [done|]. cbn. rewrite scalar_scalar, string_scalar. by f_equal.
Qed.

(** A member that holds a pattern is read back at the rule level. *)
Lemma rule_pattern_roundtrip fuel p (pre post : list (str * ynode)) :
  pattern_wf p = true -> (height p <= fuel)%nat ->
  (forall k, k ∈ ["pattern"; "patterns"; "pattern-either"; "pattern-not"; "pattern-inside"]
     -> y_find (pre ++ pattern_member p :: post) k = y_find [pattern_member p] k) ->
  build_rule_pattern fuel (y_map (pre ++ pattern_member p :: post)) = Some p.
Proof.
  intros Hwf Hf Hfind. unfold build_rule_pattern, has_seq, has.
  rewrite !at_map, !Hfind by (apply (bool_decide_unpack _); by vm_compute).
  pose proof (render_pattern_roundtrip fuel) as Hrt. destruct p as [k t cs].
  pose proof (pattern_wf_child k t cs Hwf) as Hw.
  assert (forall c, c ∈ cs -> build_pattern_from_node fuel (render_pattern c) = Some c) as Hc.
  { intros c Hc. apply Hrt; [by apply Hw|]. pose proof (height_child k t cs c Hc). lia. }
  cbn [pattern_wf] in Hwf. destruct k; bool_to_prop; subst; cbn [pattern_member]; yaml.
  1: by destruct cs.
  1,2: by rewrite mapM_render.
  all: destruct cs as [|c [|]]; try done;
    rewrite (defined_render c) by (apply Hw; by left); cbn; unfold wrap_unary;
    rewrite Hc by (by left); done.
Qed.

Lemma rule_member_found r k :
  k ∈ ["pattern"; "patterns"; "pattern-either"; "pattern-not"; "pattern-inside"] ->
  y_at (render_rule r) k = y_find [pattern_member (r_pattern r)] k.
Proof.
  intros Hk. unfold render_rule. rewrite at_map, !y_find_cons.
  change (?a :: ?l) with ([a] ++ l). destruct (r_pattern r) as [[] t cs]; cbn [pattern_member];
  repeat (apply elem_of_cons in Hk as [->|Hk]);
    try (by apply elem_of_nil in Hk); cbn [app]; rewrite !y_find_cons; cbn; done.
Qed.

Lemma severity_field r :
  parse_severity (scalar_or_empty (render_rule r) "severity") = Some (r_severity r).
Proof. unfold scalar_or_empty, render_rule. yaml. apply parse_severity_token. Qed.

Lemma languages_field r : extract_languages (render_rule r) = r_languages r.
Proof.
  unfold extract_languages, render_rule. yaml. rewrite elems_seq. apply languages_roundtrip.
Qed.

(** The member list of [render_rule] up to its metadata does not hide it. *)
Lemma metadata_found r :
  y_at (render_rule r) "metadata" = y_find [(lit "metadata",
    y_map (match primary_cwe (r_metadata r) with Some c => [(lit "cwe", y_scalar c)] | None => [] end
      ++ match primary_owasp (r_metadata r) with
         | Some o => [(lit "owasp", y_scalar (lit (owasp_id o)))] | None => [] end
      ++ [(lit "references", y_seq (y_scalar <$> references (r_metadata r)))]))] "metadata".
Proof.
  unfold render_rule. rewrite at_map, !y_find_cons. cbn [String.eqb Ascii.eqb Bool.eqb].
  destruct (r_pattern r) as [[] t cs]; cbn [pattern_member]; rewrite y_find_cons; done.
Qed.

Lemma metadata_roundtrip r :
  primary_owasp (r_metadata r) <> Some OwaspNone -> extras (r_metadata r) = [] ->
  let m := y_at (render_rule r) "metadata" in
  mkMetadata (extract_first_cwe m) (extract_first_owasp m) (extract_references m) []
  = r_metadata r.
Proof.
  intros Ho He. cbn zeta. rewrite metadata_found. yaml.
  destruct (r_metadata r) as [c o refs ex].
  cbn [primary_cwe primary_owasp references extras] in *. subst ex.
  unfold extract_first_cwe, extract_first_owasp, first_string, extract_references.
  assert (forall s, o = Some s -> parse_owasp_token (lit (owasp_id s)) = Some s) as Hos.
  { intros s ->. apply parse_owasp_lit. congruence. }
  destruct c, o as [s|]; cbn [app]; yaml; rewrite ?scalar_seq, elems_seq, references_roundtrip;
    cbn; by rewrite ?Hos.
Qed.

Lemma fields_roundtrip fuel r p :
  r_id r <> [] -> r_message r <> [] ->
  primary_owasp (r_metadata r) <> Some OwaspNone -> extras (r_metadata r) = [] ->
  build_rule_pattern fuel (render_rule r) = Some p ->
  build_rule fuel (render_rule r)
  = Some (Ok (mkRule (r_id r) (r_message r) (r_severity r) (r_languages r) p (r_metadata r))).
Proof.
  intros Hid Hmsg Ho He Hp. unfold build_rule. rewrite Hp.
  assert (scalar_or_empty (render_rule r) "id" = r_id r) as -> by (unfold scalar_or_empty, render_rule; yaml; done).
  assert (scalar_or_empty (render_rule r) "message" = r_message r) as ->
    by (unfold scalar_or_empty, render_rule; yaml; done).
  rewrite severity_field, languages_field, (metadata_roundtrip r Ho He).
  assert (defined (render_rule r) = true /\ is_map (render_rule r) = true) as [-> ->]
    by (unfold render_rule; by rewrite defined_map, map_map).
  cbn [negb orb]. by rewrite !bool_decide_false.
Qed.

Lemma rule_roundtrip fuel r :
  rule_wf r -> primary_owasp (r_metadata r) <> Some OwaspNone ->
  (height (r_pattern r) <= fuel)%nat ->
  build_rule fuel (render_rule r) = Some (Ok r).
Proof.
  intros (Hid & Hmsg & Hwf & He) Ho Hf.
  rewrite (fields_roundtrip fuel r (r_pattern r)); [by destruct r|done..|].
  apply (rule_pattern_roundtrip fuel (r_pattern r) [_; _; _; _] [_]); [done..|].
  intros k Hk. rewrite <-rule_member_found by done. unfold render_rule. by rewrite at_map.
Qed.
End roundtrip.
End loader.

(** ** Properties *)

Lemma build_rules_wf `{Yaml} fuel idx entries rs :
  build_rules fuel idx entries = Some (Ok rs) ->
  length rs = length entries /\ Forall rule_wf rs.
Proof.
  revert idx rs. induction entries as [|e entries IH]; intros idx rs; cbn [build_rules].
  { intros [= <-]. by split. }
  destruct (build_rule fuel e) as [[r|]|] eqn:Hr; [|done..].
  destruct (build_rules fuel (S idx) entries) as [[rs'|]|] eqn:Hrs; intros [= <-].
  destruct (IH _ _ Hrs) as [Hl Hwf]. cbn. rewrite Hl. split; [done|].
  constructor; [by eapply build_rule_wf|done].
Qed.

(** A pack that loads has the given name, one rule per entry of the document,
    and only well-formed rules: an identifier, a message and a pattern whose
    literals are leaves and whose negations and [pattern-inside] nodes have
    exactly one operand. *)
Lemma load_rules_yaml_wf `{Yaml} fuel yaml name pack :
  load_rules_yaml fuel yaml name = Some (Ok pack) ->
  pack_name pack = name /\ Forall rule_wf (pack_rules pack) /\
  exists root, y_load yaml = Ok root /\
    length (pack_rules pack) = length (y_elems (y_at root "rules")).
Proof.
  unfold load_rules_yaml. destruct (y_load yaml) as [root|[what line]]; [|done].
  destruct (_ || _); [done|]. destruct (_ || _); [done|].
  destruct (build_rules _ _ _) as [[rs|]|] eqn:Hb; intros [= <-].
  destruct (build_rules_wf _ _ _ _ Hb) as [Hl Hwf]. cbn. eauto.
Qed.

(** Loading ends with fuel for the depth of the document.  Once the document
    parses to a mapping with a [rules] sequence, the pack holds the rules of
    its entries in order, or the error names the first entry that is not a
    rule. *)
Theorem load_rules_yaml_total `{Yaml, !YamlTree} fuel yaml name root :
  y_load yaml = Ok root -> (depth root <= fuel)%nat ->
  is_map root = true -> defined root = true ->
  has_seq root "rules" = true ->
  let entries := y_elems (y_at root "rules") in
  (exists rs, load_rules_yaml fuel yaml name = Some (Ok (mkPack name rs)) /\
     Forall2 (fun e r => build_rule fuel e = Some (Ok r)) entries rs) \/
  (exists i e err, entries !! i = Some e /\ build_rule fuel e = Some (Unexpected err) /\
     (forall j e', (j < i)%nat -> entries !! j = Some e' ->
        exists r, build_rule fuel e' = Some (Ok r)) /\
     load_rules_yaml fuel yaml name = Some (Unexpected (entry_error i err))).
Proof.
  intros Hl Hd Hmap Hdef [Hhas Hseq]%andb_true_iff. cbn zeta. unfold load_rules_yaml, has in *.
  rewrite Hl, Hmap, Hdef, Hhas, Hseq. cbn [negb orb].
  destruct (build_rules_spec fuel 0 (y_elems (y_at root "rules")))
    as [(rs & -> & Hrs)|(i & e & err & Hi & He & Hpre & ->)].
  - intros e He. apply build_rule_total.
    pose proof (depth_elem _ _ He). pose proof (depth_at root "rules" Hhas). lia.
  - left. by exists rs.
  - right. by exists i, e, err.
Qed.

Definition render_pack `{Yaml} (rs : list Rule) : ynode :=
  y_map [(lit "rules", y_seq (render_rule <$> rs))].

(** Loading a document that parses to the YAML form of a list of well-formed
    rules gives these rules back. *)
Lemma load_render_roundtrip `{Yaml, !YamlOk} fuel yaml name rs :
  Forall (fun r => rule_wf r /\ primary_owasp (r_metadata r) <> Some OwaspNone /\
                   (height (r_pattern r) <= fuel)%nat) rs ->
  y_load yaml = Ok (render_pack rs) ->
  load_rules_yaml fuel yaml name = Some (Ok (mkPack name rs)).
Proof.
  intros Hrs Hl. unfold load_rules_yaml, render_pack in *. rewrite Hl.
  rewrite at_map, y_find_cons. cbn [String.eqb Ascii.eqb Bool.eqb].
  rewrite defined_map, map_map, defined_seq, sequence_seq, elems_seq. cbn [negb orb]. clear Hl.
  assert (forall idx, build_rules fuel idx (render_rule <$> rs) = Some (Ok rs)) as ->; [|done].
  induction Hrs as [|r rs (Hwf & Ho & Hf) _ IH]; intros idx; [done|]. cbn [fmap list_fmap build_rules].
  rewrite rule_roundtrip by done. change (list_fmap _ _ render_rule rs) with (render_rule <$> rs).
  by rewrite IH.
Qed.

(** A mapping with both [patterns] and [pattern-not]: at the rule level the
    conjunction is kept and the negation dropped, nested in another pattern the
    negation is kept and the conjunction dropped. *)
Theorem pattern_keys_depend_on_level `{Yaml, !YamlOk} fuel t u :
  let n := y_map [(lit "patterns", y_seq [y_scalar t]); (lit "pattern-not", y_scalar u)] in
  build_rule_pattern (S fuel) n
  = Some (mkPattern PComposite [] [mkPattern PLiteral t []]) /\
  build_pattern_from_node (S (S fuel)) n
  = Some (mkPattern PNegation [] [mkPattern PLiteral u []]).
Proof.
  cbn zeta. unfold build_rule_pattern. cbn [build_pattern_from_node].
  unfold has_seq, has, build_pattern_list, wrap_unary.
  rewrite !at_map, !y_find_cons. cbn [String.eqb Ascii.eqb Bool.eqb]. rewrite !y_find_nil.
  rewrite defined_map, map_map, scalar_map, defined_undefined, !defined_seq, !defined_scalar,
    !sequence_seq, elems_seq. cbn.
  by rewrite !defined_scalar, !scalar_scalar, !string_scalar.
Qed.

(** ** A model of the interface *)

Module SampleYaml.
Inductive node : Type :=
| Undefined | Scalar (s : str) | Seq (l : list node) | Map (m : list (str * node)).

Fixpoint node_depth (n : node) : nat :=
  match n with
  | Seq l => S (foldr Nat.max 0 (map node_depth l))
  | Map m => S (foldr Nat.max 0 (map (fun kv => node_depth kv.2) m))
  | _ => 0
  end.

Definition find_member (n : node) (k : string) : node :=
  match n with
  | Map m => match List.find (fun kv => bool_decide (kv.1 = lit k)) m with
             | Some kv => kv.2 | None => Undefined end
  | _ => Undefined
  end.

Definition yaml (document : node) : Yaml := {|
  ynode := node; y_undefined := Undefined; y_scalar := Scalar; y_seq := Seq; y_map := Map;
  defined n := match n with Undefined => false | _ => true end;
  is_scalar n := match n with Scalar _ => true | _ => false end;
  is_sequence n := match n with Seq _ => true | _ => false end;
  is_map n := match n with Map _ => true | _ => false end;
  y_at := find_member;
  y_elems n := match n with Seq l => l | _ => [] end;
  as_string n := match n with Scalar s => Some s | _ => None end;
  y_load _ := Ok document;
|}.

Lemma yaml_ok d : @YamlOk (yaml d).
Proof. by split. Qed.

Lemma max_member {A} (f : A -> nat) l x : x ∈ l -> (f x <= foldr Nat.max 0 (map f l))%nat.
Proof.
  induction l as [|y l IH]; [by intros ?%elem_of_nil|].
  intros [->|Hx]%elem_of_cons; cbn [map foldr]; [lia|]. specialize (IH Hx). lia.
Qed.

Lemma member_depth n k : find_member n k <> Undefined -> (node_depth (find_member n k) < node_depth n)%nat.
Proof.
  destruct n as [| | |m]; cbn [find_member]; try done.
  destruct (List.find _ m) as [kv|] eqn:E; [|done]. intros _.
  apply List.find_some in E as [Hin%list_elem_of_In _].
  pose proof (max_member (fun kv => node_depth kv.2) m kv Hin). cbn [node_depth]. lia.
Qed.

Lemma elem_depth n e : e ∈ @y_elems (yaml n) n -> (node_depth e < node_depth n)%nat.
Proof.
  destruct n as [| |l|]; cbn; try (by intros ?%elem_of_nil).
  intros He. pose proof (max_member node_depth l e He). lia.
Qed.

Program Definition yaml_tree (d : node) : @YamlTree (yaml d) :=
  @Build_YamlTree (yaml d) node_depth _ _.
Next Obligation.
  intros d n k Hk. apply member_depth. intros E. cbn in Hk. by rewrite E in Hk.
Qed.
Next Obligation. intros d n e He. by apply elem_depth. Qed.
End SampleYaml.

Definition sample_rules : list Rule := [helper_rule; any_rule].
Definition sample_document : SampleYaml.node := @render_pack (SampleYaml.yaml SampleYaml.Undefined) sample_rules.
Definition bad_document : SampleYaml.node :=
  SampleYaml.Map [(lit "rules", SampleYaml.Seq
    [@render_rule (SampleYaml.yaml SampleYaml.Undefined) any_rule; SampleYaml.Scalar (lit "x")])].

Lemma load_rules_yaml_wf_witness :
  pack_name (mkPack (lit "p") sample_rules) = lit "p" /\ Forall rule_wf sample_rules /\
  exists root, @y_load (SampleYaml.yaml sample_document) (lit "t") = Ok root /\
    length sample_rules = length (@y_elems (SampleYaml.yaml sample_document)
      (@y_at (SampleYaml.yaml sample_document) root "rules")).
Proof.
  apply (@load_rules_yaml_wf (SampleYaml.yaml sample_document) 9 (lit "t") (lit "p")
    (mkPack (lit "p") sample_rules)). by vm_compute.
Defined.

Lemma load_rules_yaml_total_witness :
  exists r, @load_rules_yaml (SampleYaml.yaml bad_document) 9 (lit "t") (lit "p") = Some r.
Proof.
  destruct (@load_rules_yaml_total (SampleYaml.yaml bad_document) (SampleYaml.yaml_tree bad_document)
    9 (lit "t") (lit "p") bad_document) as [(rs & -> & _)|(i & e & err & _ & _ & _ & ->)].
  1: reflexivity. 1: apply Nat.leb_le; by vm_compute. 1,2,3: by vm_compute. all: eauto.
Defined.

Lemma load_render_roundtrip_witness :
  @load_rules_yaml (SampleYaml.yaml sample_document) 9 (lit "t") (lit "p")
  = Some (Ok (mkPack (lit "p") sample_rules)).
Proof.
  apply (@load_render_roundtrip (SampleYaml.yaml sample_document) (SampleYaml.yaml_ok _)); [|done].
  repeat constructor; done || (apply Nat.leb_le; by vm_compute).
Defined.

Lemma pattern_keys_depend_on_level_witness :
  @build_rule_pattern (SampleYaml.yaml SampleYaml.Undefined) 1
    (SampleYaml.Map [(lit "patterns", SampleYaml.Seq [SampleYaml.Scalar (lit "a")]);
                     (lit "pattern-not", SampleYaml.Scalar (lit "b"))])
  = Some (mkPattern PComposite [] [mkPattern PLiteral (lit "a") []]).
Proof.
  apply (@pattern_keys_depend_on_level (SampleYaml.yaml SampleYaml.Undefined) (SampleYaml.yaml_ok _)
    0 (lit "a") (lit "b")).
Defined.
