(* ===== verification/Ensemble.v ===== *)
(** * The verifier ensemble: [libs/ensemble]

    [runner.cpp] (quorum voting over findings), [response.cpp] (the parser of a
    model's answer), [prompt.cpp] and [deterministic.cpp].  A verifier is its
    [vote] function; a null pointer in the verifier span is [None].  JSON text
    is outside the sources: [json_parse] is a parameter. *)

From Stdlib Require Import ZArith Ascii String Lia.
From stdpp Require Import base list gmap strings.
From S2P Require Import Prelude CxxString Lines Doubles Json Numbers Finding.

(** ** Requests and votes *)

Record VoteRequest : Type := mkRequest {
  vr_rule_id : str; vr_message : str; vr_snippet : str; source_path : str;
  vr_start_row : Z; vr_start_column : Z; vr_severity : Severity;
}.

Record VoteOutcome : Type := mkOutcome { vote : EnsembleVote; rationale : str }.

Abbreviation Verifier := (VoteRequest -> VoteOutcome).

Record EnsembleConfig : Type := mkEnsembleConfig {
  quorum : Z; require_unanimous : bool; max_snippet_bytes : nat;
}.

Record EnsembleStats : Type := mkEnsembleStats {
  findings_verified : nat; verifiers_called : nat; confirmed : nat; rejected : nat;
}.

Record EnsembleResult : Type := mkEnsembleResult {
  er_findings : list Finding; er_stats : EnsembleStats;
}.

(** ** The runner *)

Definition build_request (f : Finding) (cfg : EnsembleConfig) : VoteRequest :=
  let src := snippet (primary_location f) in
  mkRequest (rule_id f) (message f)
    (if bool_decide (src = []) then []
     else if (max_snippet_bytes cfg <? length src)%nat then take (max_snippet_bytes cfg) src
     else src)
    (loc_path (primary_location f)) (start_line (primary_location f))
    (loc_start_column (primary_location f)) (severity f).

(** [static_cast<std::size_t>(std::max(1, cfg.quorum))] *)
Definition quorum_size (cfg : EnsembleConfig) : nat := Z.to_nat (Z.max 1 (quorum cfg)).

Definition update_confidence (f : Finding) (true_positive_count total_votes : nat)
    (cfg : EnsembleConfig) : Finding :=
  if (total_votes =? 0)%nat then f
  else
    let reached_quorum := (quorum_size cfg <=? true_positive_count)%nat in
    let unanimous := (true_positive_count =? total_votes)%nat in
    if reached_quorum && unanimous then set_confidence f ConfVerified
    else if reached_quorum then set_confidence f ConfProbable
    else if (0 <? true_positive_count)%nat then set_confidence f ConfPossible
    else set_confidence f ConfUnknown.

(** The loop over the verifiers: the finding with its votes, the number of
    true positives, and the number of votes. *)
Fixpoint collect_votes (req : VoteRequest) (vs : list (option Verifier)) (f : Finding)
    (tp total : nat) : Finding * nat * nat :=
  match vs with
  | [] => (f, tp, total)
  | None :: vs => collect_votes req vs f tp total
  | Some v :: vs =>
      let outcome := v req in
      collect_votes req vs (set_votes f (ensemble_votes f ++ [vote outcome]))
        (if true_positive (vote outcome) then S tp else tp) (S total)
  end.

(** The body of the loop over the findings. *)
Definition verify_step (vs : list (option Verifier)) (cfg : EnsembleConfig) (out : EnsembleResult)
    (f : Finding) : EnsembleResult :=
  let req := build_request f cfg in
  let '(f, tp, total) := collect_votes req vs f 0 0 in
  let s := er_stats out in
  let unanimous_when_required := negb (require_unanimous cfg) || (tp =? total)%nat in
  let ok := (0 <? total)%nat && (quorum_size cfg <=? tp)%nat && unanimous_when_required in
  let s := mkEnsembleStats (findings_verified s) (verifiers_called s + total)
    (if ok then S (confirmed s) else confirmed s)
    (if negb ok && (0 <? total)%nat then S (rejected s) else rejected s) in
  mkEnsembleResult (er_findings out ++ [update_confidence f tp total cfg]) s.

Definition verify (findings : list Finding) (vs : list (option Verifier)) (cfg : EnsembleConfig) :
    EnsembleResult :=
  foldl (verify_step vs cfg) (mkEnsembleResult [] (mkEnsembleStats (length findings) 0 0 0)) findings.

(** ** The deterministic verifier *)

Record DeterministicVerifier : Type := mkDeterministic {
  dv_id : str; predicate : option (VoteRequest -> bool);
  confidence_when_true : float32; confidence_when_false : float32;
  rationale_when_true : str; rationale_when_false : str;
}.

Definition deterministic_vote (d : DeterministicVerifier) : Verifier := fun req =>
  let fired := match predicate d with Some p => p req | None => true end in
  mkOutcome
    (mkVote (dv_id d) fired (if fired then confidence_when_true d else confidence_when_false d))
    (if fired then rationale_when_true d else rationale_when_false d).

(** ** The prompt *)

Record PromptConfig : Type := mkPromptConfig { reviewer_name : str; prompt_snippet_bytes : nat }.

Definition crop (src : str) (max_bytes : nat) : str :=
  if (length src <=? max_bytes)%nat then src else substr src 0 max_bytes.

Definition nl : str := ["010"%char].
Definition quoted (s : string) : str := quote :: lit s ++ [quote].

Definition build_prompt (req : VoteRequest) (cfg : PromptConfig) : str :=
  (if bool_decide (reviewer_name cfg = [])
   then lit "You are an experienced application-security reviewer."
   else lit "You are " ++ reviewer_name cfg ++ lit ".")
  ++ nl ++ nl
  ++ lit "A static analysis tool produced the following finding. "
  ++ lit "Decide whether it is a true positive — that is, an "
  ++ lit "actual security defect a human reviewer would flag — "
  ++ lit "or a false positive that should be suppressed." ++ nl ++ nl
  ++ lit "Rule: " ++ vr_rule_id req ++ nl
  ++ lit "Severity: " ++ lit (severity_label (vr_severity req)) ++ nl
  ++ lit "Message: " ++ vr_message req ++ nl
  ++ lit "File: " ++ source_path req ++ lit ":" ++ to_string_Z (vr_start_row req)
  ++ lit ":" ++ to_string_Z (vr_start_column req) ++ nl ++ nl
  ++ (if bool_decide (vr_snippet req = []) then []
      else lit "Source snippet:" ++ nl ++ lit "```" ++ nl
           ++ crop (vr_snippet req) (prompt_snippet_bytes cfg) ++ nl ++ lit "```" ++ nl ++ nl)
  ++ lit "Reply with a single JSON object on one line, no prose, "
  ++ lit "no Markdown. The object must have exactly three fields:" ++ nl
  ++ lit "  - " ++ quoted "true_positive" ++ lit ": boolean" ++ nl
  ++ lit "  - " ++ quoted "confidence" ++ lit ":    number in [0.0, 1.0]" ++ nl
  ++ lit "  - " ++ quoted "rationale" ++ lit ":     short string, 200 chars or fewer" ++ nl
  ++ nl
  ++ lit "Example: "
  ++ lit "{" ++ quoted "true_positive" ++ lit ": true, " ++ quoted "confidence" ++ lit ": 0.92, "
  ++ quoted "rationale" ++ lit ": " ++ quoted "untrusted input flows to eval" ++ lit "}" ++ nl.

(** ** The response parser *)

Definition fence : str := lit "```".
Definition newline : ascii := "010"%char.
Definition backslash : ascii := "\"%char.

(** [s.find(p, pos)] *)
Definition find_from {A} (find : str -> option A) (pos : nat) (s : str) : option A :=
  find (drop pos s).

Definition strip_code_fence (body : str) : str :=
  match find_sub fence body with
  | None => body
  | Some open =>
      let start := (open + length fence)%nat in
      match find_from (find_char newline) start body with
      | None => body
      | Some k =>
          let inner_start := (start + k + 1)%nat in
          match find_from (find_sub fence) inner_start body with
          | None => body
          | Some n => substr body inner_start n
          end
      end
  end.

(** The scanning loop, from [open] on; the result is the length of the object.
    [n] is [i - open]. *)
Fixpoint object_scan (s : str) (depth : nat) (in_string escape_next : bool) (n : nat) :
    option nat :=
  match s with
  | [] => None
  | c :: s =>
      if escape_next then object_scan s depth in_string false (S n)
      else if in_string then
        if char_is backslash c then object_scan s depth true true (S n)
        else if char_is quote c then object_scan s depth false false (S n)
        else object_scan s depth true false (S n)
      else if char_is quote c then object_scan s depth true false (S n)
      else if char_is "{" c then object_scan s (S depth) false false (S n)
      else if char_is "}" c then
        match depth with
        | O => None
        | S O => Some (S n)
        | S depth => object_scan s depth false false (S n)
        end
      else object_scan s depth false false (S n)
  end.

Definition first_json_object (body : str) : str :=
  match find_char "{" body with
  | None => []
  | Some open =>
      match object_scan (drop open body) 0 false false 0 with
      | Some n => substr body open n
      | None => []
      end
  end.

Section response.
Context `{Json} (json_parse : str -> expected jv str).

Definition coerce_bool (v : jv) : bool :=
  match get_bool v with
  | Some b => b
  | None =>
      match get_string v with
      | Some s =>
          let s := lower s in
          bool_decide (s = lit "true") || bool_decide (s = lit "yes") || bool_decide (s = lit "1")
      | None => if is_number v
                then match get_double v with Some d => negb (d_eqb d d_zero) | None => false end
                else false
      end
  end.

Definition d_one : double := d_of_Z 1.

Definition clamp01 (c : double) : double :=
  let c := if d_lt c d_zero then d_zero else c in
  if d_lt d_one c then d_one else c.

Definition coerce_confidence (v : jv) : float32 :=
  if is_number v then
    match get_double v with Some c => d_to_float (clamp01 c) | None => d_zero end
  else match get_string v with
       | Some s => match stod s with Some c => d_to_float (clamp01 c) | None => d_zero end
       | None => d_zero
       end.

Definition coerce_rationale (v : jv) : str :=
  let out := default [] (get_string v) in
  if (200 <? length out)%nat then take 200 out else out.

Definition parse_response (body provider_id : str) : expected VoteOutcome str :=
  let stripped := strip_code_fence body in
  let json_str := first_json_object stripped in
  if bool_decide (json_str = []) then Unexpected (lit "no JSON object in response body")
  else match json_parse json_str with
       | Unexpected what => Unexpected (lit "JSON parse: " ++ what)
       | Ok parsed =>
           match members parsed with
           | None => Unexpected (lit "response is not a JSON object")
           | Some m =>
               match m !! lit "true_positive" with
               | None => Unexpected (lit "missing `true_positive` field")
               | Some tp =>
                   Ok (mkOutcome
                     (mkVote provider_id (coerce_bool tp)
                        (match m !! lit "confidence" with
                         | Some cf => coerce_confidence cf | None => d_zero end))
                     (match m !! lit "rationale" with
                      | Some rt => coerce_rationale rt | None => [] end))
               end
           end
       end.
End response.

(** ** The text of a JSON object

    A string literal ends at its first quote that no backslash escapes; braces
    inside it do not count. *)

Inductive in_literal : str -> Prop :=
| lit_end : in_literal [quote]
| lit_escape c s : in_literal s -> in_literal (backslash :: c :: s)
| lit_char c s : c <> quote -> c <> backslash -> in_literal s -> in_literal (c :: s).

(** Text in which braces nest. *)
Inductive balanced : str -> Prop :=
| bal_nil : balanced []
| bal_char c s : c ∉ [quote; "{"%char; "}"%char] -> balanced s -> balanced (c :: s)
| bal_literal l s : in_literal l -> balanced s -> balanced (quote :: l ++ s)
| bal_object b s : balanced b -> balanced s -> balanced ("{"%char :: b ++ "}"%char :: s).

Definition object_text (s : str) : Prop :=
  exists b, balanced b /\ s = "{"%char :: b ++ ["}"%char].

(** ** Lemmas on the scanner *)

Lemma char_is_refl c : char_is c c = true.
Proof. by apply char_is_true. Qed.

Lemma char_is_ne c d : d <> c -> char_is c d = false.
Proof. intros. by apply bool_decide_eq_false. Qed.

Ltac scan_char :=
  cbn [object_scan app length];
  rewrite ?char_is_refl, ?(char_is_ne quote), ?(char_is_ne backslash), ?(char_is_ne "{"),
    ?(char_is_ne "}") by done.

Lemma scan_literal l rest d n :
  in_literal l ->
  object_scan (l ++ rest) d true false n = object_scan rest d false false (n + length l).
Proof.
  intros Hl. revert n. induction Hl as [|c s _ IH|c s ? ? _ IH]; intros n; scan_char.
  - f_equal. lia.
  - rewrite IH. f_equal. lia.
  - rewrite IH. f_equal. lia.
Qed.

Lemma scan_balanced b rest d n :
  balanced b ->
  object_scan (b ++ rest) (S d) false false n
  = object_scan rest (S d) false false (n + length b).
Proof.
  intros Hb. revert rest d n.
  induction Hb as [|c s Hc _ IH|l s Hl _ IH|b s _ IHb _ IHs]; intros rest d n.
  - cbn. f_equal. lia.
  - assert (c <> quote /\ c <> "{"%char /\ c <> "}"%char) as (? & ? & ?).
    { repeat split; intros ->; apply Hc; apply (bool_decide_unpack _); by vm_compute. }
    scan_char. rewrite IH. f_equal. lia.
  - scan_char. rewrite <-app_assoc, scan_literal, IH, length_app by done. f_equal. lia.
  - scan_char. rewrite <-app_assoc, IHb. scan_char. rewrite IHs.
    f_equal. rewrite length_app. cbn [length]. lia.
Qed.

(** [s] closes exactly [n] open braces. *)
Fixpoint closes (n : nat) (s : str) : Prop :=
  match n with
  | O => s = []
  | S n => exists b s', s = b ++ "}"%char :: s' /\ balanced b /\ closes n s'
  end.

Lemma closes_char c n s :
  c ∉ [quote; "{"%char; "}"%char] -> closes (S n) s -> closes (S n) (c :: s).
Proof. intros Hc (b & s' & -> & Hb & Hs). exists (c :: b), s'. eauto using balanced. Qed.

Lemma closes_literal l n s : in_literal l -> closes (S n) s -> closes (S n) (quote :: l ++ s).
Proof.
  intros Hl (b & s' & -> & Hb & Hs). exists (quote :: l ++ b), s'.
  split; [cbn; by rewrite <-app_assoc|]. eauto using balanced.
Qed.

Lemma closes_open n s : closes (S (S n)) s -> closes (S n) ("{"%char :: s).
Proof.
  intros (b & s' & -> & Hb & b' & s'' & -> & Hb' & Hs).
  exists ("{"%char :: b ++ "}"%char :: b'), s''.
  split; [cbn; by rewrite <-app_assoc|]. eauto using balanced.
Qed.

(** What the scan has still to read, by the state it is in. *)
Definition scan_residue (d : nat) (in_string escape_next : bool) (t : str) : Prop :=
  if escape_next then exists c l s, t = c :: l ++ s /\ in_literal l /\ closes (S d) s
  else if in_string then exists l s, t = l ++ s /\ in_literal l /\ closes (S d) s
  else closes (S d) t.

(** The residue after one more byte. *)
Lemma residue_cons (P Q : str -> Prop) c s n m :
  (forall t, P t -> Q (c :: t)) ->
  (exists k, m = (S n + k)%nat /\ (k <= length s)%nat /\ P (take k s)) ->
  exists k, m = (n + k)%nat /\ (k <= length (c :: s))%nat /\ Q (take k (c :: s)).
Proof. intros HPQ (k & -> & Hk & HP). exists (S k). cbn. split; [lia|]. split; [lia|auto]. Qed.

Lemma residue_string d c t :
  scan_residue d true (char_is backslash c && negb (char_is quote c)) t ->
  c <> quote -> scan_residue d true false (c :: t).
Proof.
  intros H Hc. rewrite (char_is_ne quote c Hc), andb_true_r in H.
  destruct (char_is backslash c) eqn:Eb; cbn in *.
  - apply char_is_true in Eb as ->. destruct H as (e & l & s & -> & Hl & ?).
    exists (backslash :: e :: l), s. eauto using in_literal.
  - apply bool_decide_eq_false in Eb. destruct H as (l & s & -> & Hl & ?).
    exists (c :: l), s. eauto using in_literal.
Qed.

Lemma scan_sound s d in_string escape_next n m :
  (escape_next = true -> in_string = true) ->
  object_scan s (S d) in_string escape_next n = Some m ->
  exists k, m = (n + k)%nat /\ (k <= length s)%nat /\ scan_residue d in_string escape_next (take k s).
Proof.
  revert d in_string escape_next n. induction s as [|c s IH]; intros d ins esc n Himp; [done|].
  cbn [object_scan]. destruct esc; [|destruct ins].
  - rewrite (Himp eq_refl). intros H%IH; [|done]. eapply residue_cons, H. cbn.
    intros t (l & r & -> & ?). by exists c, l, r.
  - destruct (char_is quote c) eqn:Eq.
    + apply char_is_true in Eq as ->. rewrite char_is_ne by done.
      intros H%IH; [|done]. eapply residue_cons, H. intros t Ht. exists [quote], t.
      eauto using in_literal.
    + apply bool_decide_eq_false in Eq.
      destruct (char_is backslash c) eqn:Eb; intros H%IH; try done; eapply residue_cons, H;
        intros t Ht; apply residue_string; try done;
        by rewrite Eb, (char_is_ne quote c Eq).
  - destruct (char_is quote c) eqn:Eq; [|destruct (char_is "{" c) eqn:Eo; [|destruct (char_is "}" c) eqn:Ec]].
    + apply char_is_true in Eq as ->. intros H%IH; [|done]. eapply residue_cons, H.
      intros t (l & r & -> & ? & ?). by apply closes_literal.
    + apply char_is_true in Eo as ->. intros H%IH; [|done]. eapply residue_cons, H.
      intros t. apply closes_open.
    + apply char_is_true in Ec as ->. destruct d as [|d].
      * intros [= <-]. exists 1%nat. split; [lia|]. split; [cbn; lia|]. exists [], [].
        split; [by destruct s|]. split; [constructor|done].
      * intros H%IH; [|done]. eapply residue_cons, H. intros t Ht. exists [], t.
        split; [done|]. split; [constructor|done].
    + apply bool_decide_eq_false in Eq, Eo, Ec. intros H%IH; [|done]. eapply residue_cons, H.
      intros t. apply closes_char. rewrite !elem_of_cons, elem_of_nil. naive_solver.
Qed.

Lemma first_object_found pre b post :
  free_of "{" pre -> balanced b ->
  first_json_object (pre ++ ("{"%char :: b ++ ["}"%char]) ++ post) = "{"%char :: b ++ ["}"%char].
Proof.
  intros Hpre Hb. unfold first_json_object. cbn [app]. rewrite find_char_hit by done.
  rewrite drop_app_length. rewrite <-app_assoc. cbn [app]. scan_char.
  rewrite scan_balanced by done. scan_char.
  unfold substr. rewrite drop_app_length. cbn [take]. f_equal.
  rewrite (cons_middle _ b post), (app_assoc b). replace (1 + length b)%nat with (length (b ++ ["}"%char])).
  - by rewrite take_app_length.
  - rewrite length_app. cbn. lia.
Qed.

(** The scanner returns exactly the first object text of the body: it follows
    no opening brace, its braces nest outside string literals, and it is found
    whenever there is one. *)
Theorem first_json_object_spec t o :
  (first_json_object t = o /\ o <> []) <->
  (object_text o /\ exists pre post, t = pre ++ o ++ post /\ free_of "{" pre).
Proof.
  split.
  - unfold first_json_object. intros [H Hne].
    destruct (find_char "{" t) as [i|] eqn:Hi; [|congruence].
    apply find_char_Some in Hi as (pre & post & -> & Hl & Hpre). subst i.
    rewrite drop_app_length in H. cbn [object_scan] in H.
    rewrite (char_is_ne quote), char_is_refl in H by done.
    destruct (object_scan post 1 false false 1) as [m|] eqn:Hs; [|congruence].
    apply scan_sound in Hs as (k & -> & Hk & b & s & Ht & Hb & ->); [|done].
    subst o. unfold substr. rewrite drop_app_length. cbn [take Nat.add]. rewrite Ht.
    split; [by exists b|]. exists pre, (drop k post). split; [|done]. f_equal. cbn. f_equal.
    rewrite <-Ht. by rewrite take_drop.
  - intros [(b & Hb & ->) (pre & post & -> & Hpre)]. split; [|done].
    by apply first_object_found.
Qed.

(** ** Fenced answers *)

Lemma find_sub_skip c p pre rest :
  free_of c pre -> find_sub (c :: p) (pre ++ rest) = Nat.add (length pre) <$> find_sub (c :: p) rest.
Proof.
  intros Hpre. induction pre as [|d pre IH]; [cbn [app length]; by destruct (find_sub _ rest)|].
  apply not_elem_of_cons in Hpre as [Hd Hpre]. cbn [app find_sub starts_with].
  rewrite bool_decide_false by congruence. cbn [andb]. rewrite IH by done.
  by destruct (find_sub _ rest).
Qed.

Lemma find_sub_first c p pre rest :
  free_of c pre -> find_sub (c :: p) (pre ++ (c :: p) ++ rest) = Some (length pre).
Proof.
  intros Hpre. rewrite find_sub_skip by done. cbn [app find_sub].
  change (c :: p ++ rest) with ((c :: p) ++ rest). rewrite starts_with_app. cbn. f_equal. lia.
Qed.

Lemma strip_code_fence_block pre info inner post :
  free_of "`" pre -> free_of newline info -> free_of "`" inner ->
  strip_code_fence (pre ++ fence ++ info ++ newline :: inner ++ fence ++ post) = inner.
Proof.
  intros Hpre Hinfo Hin. unfold strip_code_fence, find_from.
  set (t := info ++ newline :: inner ++ fence ++ post).
  assert (find_sub fence (pre ++ fence ++ t) = Some (length pre)) as -> by by apply find_sub_first.
  assert (drop (length pre + length fence) (pre ++ fence ++ t) = t) as E.
  { rewrite app_assoc, <-length_app. apply drop_app_length. }
  rewrite E. subst t. rewrite find_char_hit by done.
  set (t := info ++ newline :: inner ++ fence ++ post) in *.
  assert (drop (length pre + length fence + length info + 1) (pre ++ fence ++ t)
          = inner ++ fence ++ post) as E'.
  { rewrite <-Nat.add_assoc, <-drop_drop, E. subst t. rewrite Nat.add_1_r.
    apply drop_S_length_app. }
  unfold substr. rewrite E'. change fence with ("`"%char :: lit "``") at 1.
  change (fence ++ post) with (("`"%char :: lit "``") ++ post) at 1.
  rewrite find_sub_first by done. by rewrite take_app_length.
Qed.

Lemma find_sub_absent c p s : free_of c s -> find_sub (c :: p) s = None.
Proof.
  intros Hs. rewrite <-(app_nil_r s). by rewrite find_sub_skip.
Qed.

Lemma strip_code_fence_plain body : free_of "`" body -> strip_code_fence body = body.
Proof. intros Hb. unfold strip_code_fence, fence. cbn. by rewrite find_sub_absent. Qed.

Section parse.
Context `{Json} (json_parse : str -> expected jv str).

(** What the fields of an answer say. *)
Definition outcome_of (id : str) (m : gmap str jv) (tp : jv) : VoteOutcome :=
  mkOutcome
    (mkVote id (coerce_bool tp)
       (match m !! lit "confidence" with
        | Some cf => coerce_confidence cf | None => d_zero end))
    (match m !! lit "rationale" with Some rt => coerce_rationale rt | None => [] end).

(** An answer is understood wherever its object is: bare, or inside a Markdown
    code block, with any text around it that has no brace before the object
    and no backquote; the vote is what the object's fields say. *)
Theorem parse_response_understood id pre info a o b post j m tp :
  free_of "`" pre -> free_of newline info -> free_of "`" (a ++ o ++ b) ->
  free_of "{" a -> object_text o ->
  json_parse o = Ok j -> members j = Some m -> m !! lit "true_positive" = Some tp ->
  parse_response json_parse (a ++ o ++ b) id = Ok (outcome_of id m tp) /\
  parse_response json_parse
    (pre ++ fence ++ info ++ newline :: (a ++ o ++ b) ++ fence ++ post) id
  = Ok (outcome_of id m tp).
Proof.
  intros Hpre Hinfo Hin Ha Ho Hj Hm Htp. unfold parse_response.
  rewrite strip_code_fence_block, strip_code_fence_plain by done.
  destruct (proj2 (first_json_object_spec (a ++ o ++ b) o)) as [-> Hne]; [by eauto|].
  rewrite bool_decide_false by done. by rewrite Hj, Hm, Htp.
Qed.

(** Without an object the answer is refused, never read as a vote. *)
Lemma parse_response_refuses id body :
  (forall o pre post, strip_code_fence body = pre ++ o ++ post -> free_of "{" pre -> ~ object_text o) ->
  parse_response json_parse body id = Unexpected (lit "no JSON object in response body").
Proof.
  intros Hno. unfold parse_response. case_bool_decide as Hne; [done|]. exfalso.
  destruct (proj1 (first_json_object_spec (strip_code_fence body) _) (conj eq_refl Hne))
    as (Ho & pre & post & Ht & Hp). by eapply Hno.
Qed.

Lemma coerce_rationale_short v : (length (coerce_rationale v) <= 200)%nat.
Proof.
  unfold coerce_rationale. destruct (200 <? _)%nat eqn:E; bool_to_prop; [|done].
  rewrite length_take. lia.
Qed.

(** The rationale kept never exceeds 200 bytes, and the provider is the one
    asked. *)
Lemma parse_response_bounds body id out :
  parse_response json_parse body id = Ok out ->
  (length (rationale out) <= 200)%nat /\ provider (vote out) = id.
Proof.
  unfold parse_response. repeat (case_match; try done); intros [= <-]; cbn [rationale vote provider];
    (split; [|done]); try apply coerce_rationale_short; cbn; lia.
Qed.
End parse.

(** ** Voting *)

Definition votes_of (vs : list (option Verifier)) (req : VoteRequest) : list EnsembleVote :=
  (fun v => vote (v req)) <$> omap id vs.

Definition yes_votes (votes : list EnsembleVote) : nat := length (List.filter true_positive votes).

Lemma yes_le votes : (yes_votes votes <= length votes)%nat.
Proof. apply List.filter_length_le. Qed.

Lemma set_votes_votes f vs ws : set_votes (set_votes f vs) ws = set_votes f ws.
Proof. done. Qed.

Lemma collect_votes_eq req vs f tp total :
  collect_votes req vs f tp total =
  (set_votes f (ensemble_votes f ++ votes_of vs req), (tp + yes_votes (votes_of vs req))%nat,
   (total + length (votes_of vs req))%nat).
Proof.
  revert f tp total. induction vs as [|[v|] vs IH]; intros f tp total.
  - cbn. rewrite app_nil_r, !Nat.add_0_r. by destruct f.
  - cbn [collect_votes]. rewrite IH, set_votes_votes.
    change (votes_of (Some v :: vs) req) with (vote (v req) :: votes_of vs req).
    unfold yes_votes. cbn [List.filter ensemble_votes set_votes]. rewrite <-app_assoc.
    destruct (true_positive (vote (v req))); cbn [length app];
      rewrite ?Nat.add_succ_r; done.
  - cbn [collect_votes]. by rewrite IH.
Qed.

(** A finding with the votes of an ensemble and the confidence they give. *)
Definition judged (vs : list (option Verifier)) (cfg : EnsembleConfig) (f : Finding) : Finding :=
  let votes := votes_of vs (build_request f cfg) in
  update_confidence (set_votes f (ensemble_votes f ++ votes)) (yes_votes votes) (length votes) cfg.

Definition confirms (vs : list (option Verifier)) (cfg : EnsembleConfig) (f : Finding) : bool :=
  let votes := votes_of vs (build_request f cfg) in
  (0 <? length votes)%nat && (quorum_size cfg <=? yes_votes votes)%nat
  && (negb (require_unanimous cfg) || (yes_votes votes =? length votes)%nat).

Lemma votes_of_length vs req : length (votes_of vs req) = length (omap id vs).
Proof. apply length_fmap. Qed.

Lemma verify_fold vs cfg fs out :
  let s := er_stats out in
  let yes := length (List.filter (confirms vs cfg) fs) in
  foldl (verify_step vs cfg) out fs = mkEnsembleResult (er_findings out ++ (judged vs cfg <$> fs))
    (mkEnsembleStats (findings_verified s) (verifiers_called s + length fs * length (omap id vs))
       (confirmed s + yes)
       (rejected s + if (0 <? length (omap id vs))%nat then length fs - yes else 0)).
Proof.
  revert out. induction fs as [|f fs IH]; intros out; cbn zeta.
  { destruct out as [fs [a b c d]]. cbn. rewrite app_nil_r, !Nat.add_0_r. f_equal. f_equal.
    by case_match; rewrite Nat.add_0_r. }
  assert (length (List.filter (confirms vs cfg) fs) <= length fs)%nat by apply List.filter_length_le.
  assert (confirms vs cfg f = true -> (0 <? length (omap id vs))%nat = true) as Hpos.
  { unfold confirms. rewrite votes_of_length. by destruct (0 <? _)%nat. }
  cbn [foldl]. rewrite IH. unfold verify_step. rewrite collect_votes_eq, !Nat.add_0_l.
  fold (confirms vs cfg f). fold (judged vs cfg f). rewrite votes_of_length.
  cbn [er_stats er_findings findings_verified verifiers_called confirmed rejected List.filter].
  rewrite <-app_assoc, fmap_cons. destruct (confirms vs cfg f).
  - rewrite Hpos by done. cbn [negb andb length app]. do 2 f_equal; lia.
  - destruct (0 <? length (omap id vs))%nat; cbn [negb andb length app]; do 2 f_equal; lia.
Qed.

(** The runner keeps every finding, in order, adds the votes of the non-null
    verifiers in their order and sets the confidence from the counts; every
    finding is either confirmed or rejected, unless there is no verifier. *)
Theorem verify_spec fs vs cfg :
  let res := verify fs vs cfg in
  let n := length (omap id vs) in
  er_findings res = judged vs cfg <$> fs /\
  (forall f, ensemble_votes (judged vs cfg f)
             = ensemble_votes f ++ votes_of vs (build_request f cfg)) /\
  findings_verified (er_stats res) = length fs /\
  verifiers_called (er_stats res) = (length fs * n)%nat /\
  confirmed (er_stats res) = length (List.filter (confirms vs cfg) fs) /\
  (confirmed (er_stats res) + rejected (er_stats res) = if (0 <? n)%nat then length fs else 0)%nat.
Proof.
  cbn zeta. unfold verify. rewrite verify_fold. cbn [er_stats er_findings findings_verified
    verifiers_called confirmed rejected].
  assert (length (List.filter (confirms vs cfg) fs) <= length fs)%nat by apply List.filter_length_le.
  repeat split; try done.
  - intros f. unfold judged, update_confidence. by case_ifs.
  - destruct (0 <? _)%nat eqn:E; [lia|].
    assert (List.filter (confirms vs cfg) fs = []) as ->; [|done].
    clear -E. induction fs as [|f fs IH]; [done|]. cbn. unfold confirms at 1.
    rewrite votes_of_length, E. exact IH.
Qed.

(** The confidence a finding ends with: [Verified] when all of at least the
    quorum's number of votes say true positive, [Probable] when the quorum is
    reached with dissent, [Possible] below it, [Unknown] without a true
    positive, and unchanged when nobody voted. *)
Lemma judged_confidence vs cfg f :
  let votes := votes_of vs (build_request f cfg) in
  let yes := yes_votes votes in
  confidence (judged vs cfg f) =
  if bool_decide (votes = []) then confidence f
  else if bool_decide (quorum_size cfg <= yes)%nat
       then if bool_decide (Forall (fun v => true_positive v = true) votes)
            then ConfVerified else ConfProbable
       else if bool_decide (Exists (fun v => true_positive v = true) votes)
            then ConfPossible else ConfUnknown.
Proof.
  cbn zeta. unfold judged. set (votes := votes_of _ _).
  assert ((yes_votes votes =? length votes)%nat
          = bool_decide (Forall (fun v => true_positive v = true) votes)) as Hall.
  { clearbody votes. apply eq_true_iff_eq. rewrite Nat.eqb_eq, bool_decide_eq_true.
    induction votes as [|v vs' IH]; [by split; [constructor|]|]. unfold yes_votes in *.
    cbn [List.filter]. pose proof (yes_le vs'). unfold yes_votes in *. rewrite Forall_cons, <-IH.
    destruct (true_positive v); cbn [length]; [|split; [lia|by intros [? _]]]. split; [|lia].
    intros. split; [done|lia]. }
  assert ((0 <? yes_votes votes)%nat
          = bool_decide (Exists (fun v => true_positive v = true) votes)) as Hex.
  { clearbody votes. clear Hall. apply eq_true_iff_eq. rewrite Nat.ltb_lt, bool_decide_eq_true.
    induction votes as [|v vs' IH]; [cbn; rewrite Exists_nil; lia|]. unfold yes_votes in *.
    cbn [List.filter]. rewrite Exists_cons, <-IH.
    destruct (true_positive v); cbn [length]; [split; [by left|lia]|naive_solver]. }
  unfold update_confidence. rewrite Hall, Hex.
  assert ((length votes =? 0)%nat = bool_decide (votes = [])) as ->
    by (destruct votes; [done|by rewrite bool_decide_false]).
  assert ((quorum_size cfg <=? yes_votes votes)%nat = bool_decide (quorum_size cfg <= yes_votes votes)%nat)
    as -> by (apply eq_true_iff_eq; by rewrite Nat.leb_le, bool_decide_eq_true).
  by repeat case_bool_decide.
Qed.

(** A vote a verifier could not cast, reported as [false] with confidence
    zero, counts as a vote against: a finding the others confirm ends at most
    [Probable], and with [require_unanimous] it is no longer confirmed. *)
Lemma no_vote_counts vs cfg f v :
  true_positive (vote (v (build_request f cfg))) = false ->
  confirms vs cfg f = true ->
  confidence (judged (vs ++ [Some v]) cfg f) = ConfProbable /\
  (require_unanimous cfg = true -> confirms (vs ++ [Some v]) cfg f = false).
Proof.
  intros Hv Hc. set (req := build_request f cfg) in *.
  assert (votes_of (vs ++ [Some v]) req = votes_of vs req ++ [vote (v req)]) as E.
  { unfold votes_of. by rewrite omap_app, fmap_app. }
  assert (yes_votes (votes_of vs req ++ [vote (v req)]) = yes_votes (votes_of vs req)) as Ey.
  { unfold yes_votes. rewrite List.filter_app. cbn. by rewrite Hv, app_nil_r. }
  pose proof (yes_le (votes_of vs req)). unfold confirms in *. unfold judged, update_confidence.
  fold req. fold req in Hc. rewrite !E, !Ey, !length_app in *. cbn [length].
  rewrite !andb_true_iff in Hc. destruct Hc as [[H1 H2] H3]. rewrite H2.
  assert ((yes_votes (votes_of vs req) =? length (votes_of vs req) + 1)%nat = false) as ->
    by (apply Nat.eqb_neq; lia).
  assert ((length (votes_of vs req) + 1 =? 0)%nat = false) as -> by (apply Nat.eqb_neq; lia).
  split; [done|]. intros ->. cbn. by rewrite andb_false_r.
Qed.

Lemma crop_take s n : crop s n = take n s.
Proof.
  unfold crop, substr. destruct (length s <=? n)%nat eqn:E; [|done]. apply Nat.leb_le in E.
  by rewrite take_ge.
Qed.

(** The snippet sent for review is the start of the finding's, at most the
    configured number of bytes; the prompt crops it once more. *)
Lemma request_snippet f cfg :
  vr_snippet (build_request f cfg) = take (max_snippet_bytes cfg) (snippet (primary_location f)).
Proof.
  unfold build_request. cbn [vr_snippet].
  case_bool_decide as E; [rewrite E; by destruct (max_snippet_bytes cfg)|].
  destruct (max_snippet_bytes cfg <? _)%nat eqn:El; [done|]. apply Nat.ltb_ge in El.
  by rewrite take_ge.
Qed.

(** ** Examples *)

Definition answer_object : str :=
  lit "{" ++ quoted "true_positive" ++ lit ": true, " ++ quoted "rationale" ++ lit ": "
  ++ [quote] ++ lit "brace } and \" ++ [quote] ++ lit " here" ++ [quote] ++ lit "}".

Definition answer_body : str :=
  Eval vm_compute in removelast (tl answer_object).

Ltac take_literal n :=
  match goal with
  | |- balanced (_ :: ?r) =>
      let l := eval vm_compute in (take n r) in
      let s := eval vm_compute in (drop n r) in
      apply (bal_literal l s); [repeat (apply lit_char; [done|done|])|]
  end.
Ltac plain_char := apply bal_char; [by apply (bool_decide_unpack _); vm_compute|].

Lemma answer_object_text : object_text answer_object.
Proof.
  exists answer_body. split; [|by vm_compute]. unfold answer_body.
  take_literal 14; [apply lit_end|]. do 8 plain_char.
  take_literal 10; [apply lit_end|]. do 2 plain_char.
  take_literal 20; [|constructor]. apply lit_escape.
  repeat (apply lit_char; [done|done|]). apply lit_end.
Qed.

Definition answer_fields : gmap str SampleJson.value :=
  {[ lit "true_positive" := SampleJson.Bool true; lit "rationale" := SampleJson.Str (lit "r") ]}.

Definition sample_parse (s : str) : expected SampleJson.value str :=
  if bool_decide (s = answer_object) then Ok (SampleJson.Obj answer_fields)
  else Unexpected (lit "syntax").

Lemma first_json_object_spec_example :
  first_json_object (lit "Sure: " ++ answer_object ++ lit " {}") = answer_object.
Proof. by vm_compute. Qed.

Lemma parse_response_understood_witness :
  let o := outcome_of (H := SampleJson.json) (lit "claude") answer_fields
             (SampleJson.Bool true) in
  @parse_response SampleJson.json sample_parse
    (lit "a" ++ answer_object ++ lit "b") (lit "claude") = Ok o /\
  @parse_response SampleJson.json sample_parse
    (lit "x" ++ fence ++ lit "json" ++ newline :: (lit "a" ++ answer_object ++ lit "b")
     ++ fence ++ []) (lit "claude") = Ok o.
Proof.
  apply (@parse_response_understood SampleJson.json sample_parse (lit "claude")
    (lit "x") (lit "json") (lit "a") answer_object (lit "b") [] (SampleJson.Obj answer_fields)
    answer_fields (SampleJson.Bool true)).
  1,2,3,4: apply (bool_decide_unpack _); by vm_compute.
  - exact answer_object_text.
  - unfold sample_parse. by rewrite bool_decide_true.
  - reflexivity.
  - apply lookup_insert_eq.
Defined.

Lemma parse_response_refuses_witness :
  @parse_response SampleJson.json sample_parse (lit "no") (lit "claude")
  = Unexpected (lit "no JSON object in response body").
Proof.
  apply (@parse_response_refuses SampleJson.json sample_parse (lit "claude") (lit "no")).
  intros o pre post Heq _ (b & _ & ->).
  assert ("{"%char ∈ strip_code_fence (lit "no")) as Hin.
  { rewrite Heq. apply elem_of_app. right. apply elem_of_app. left. by left. }
  revert Hin. apply (bool_decide_unpack _). by vm_compute.
Defined.

Definition agree (name : string) : DeterministicVerifier :=
  mkDeterministic (lit name) None (f_lit 1 1) d_zero [] [].
Definition absent : Verifier := fun _ => mkOutcome (mkVote (lit "openai") false d_zero) [].
Definition plain_finding : Finding :=
  mkFinding [] (lit "r") [] SevHigh ConfPossible EuxisCore (mkLoc (lit "f") 1 1 1 1 []) [] None
    OwaspNone QuantumNone [] [] [] 0.
Definition two_of_n : EnsembleConfig := mkEnsembleConfig 2 true 4096.
Definition pair : list (option Verifier) :=
  [Some (deterministic_vote (agree "a")); None; Some (deterministic_vote (agree "b"))].

Lemma pair_with_absent :
  confidence (judged pair two_of_n plain_finding) = ConfVerified /\
  confidence (judged (pair ++ [Some absent]) two_of_n plain_finding) = ConfProbable /\
  confirms (pair ++ [Some absent]) two_of_n plain_finding = false.
Proof. split; [|split]; by vm_compute. Qed.
