(* ===== verification/EnsembleHttp.v ===== *)
(** * HTTP verifiers: [libs/ensemble/src/providers]

    [http_verifier.cpp] (key resolution, URL splitting, retries and the way
    every failure becomes a vote) and the Claude, Gemini and OpenAI providers.
    The HTTP client is outside the sources: [post] gives the outcome of each
    attempt.  JSON text is [json_parse] and [json_dump], as in [Ensemble]; the
    environment is a function from names to optional values.  The virtual
    functions of [HttpVerifier] are the record [Provider]. *)

From Stdlib Require Import ZArith Ascii String Lia.
From stdpp Require Import base list gmap strings.
From S2P Require Import Prelude CxxString Doubles Json Numbers Finding Ensemble.

Record UrlParts : Type := mkUrl { scheme_host : str; path_prefix : str }.

Record HttpVerifierConfig : Type := mkHttpConfig {
  hc_id : str; model : str; base_url : str; hc_api_key : str; env_var_name : str;
  timeout_ms : Z; max_retries : Z; prompt_config : PromptConfig;
}.

Definition default_config (id model url env : string) : HttpVerifierConfig :=
  mkHttpConfig (lit id) (lit model) (lit url) [] (lit env) 30000 3 (mkPromptConfig [] 4096).

Definition default_claude_config : HttpVerifierConfig :=
  default_config "claude" "claude-sonnet-4-6" "https://api.anthropic.com" "ANTHROPIC_API_KEY".
Definition default_gemini_config : HttpVerifierConfig :=
  default_config "gemini" "gemini-2.5-pro" "https://generativelanguage.googleapis.com"
    "GEMINI_API_KEY".
Definition default_openai_config : HttpVerifierConfig :=
  default_config "openai" "gpt-4o" "https://api.openai.com" "OPENAI_API_KEY".

(** ** URLs, keys and retries *)

(** [s] up to its first [/] and the rest. *)
Definition split_host (s : str) : str * str :=
  match find_char "/" s with Some i => (take i s, drop i s) | None => (s, []) end.

(** [std::regex_match] of the source's expression: a scheme [http] or [https],
    [://], a non-empty run of bytes other than a slash, and a rest in which
    the dot matches no line terminator.  The greedy run ends at the next
    slash; a shorter one would leave more for the rest to match. *)
Definition match_url (url : str) : option (str * str) :=
  let scheme := if starts_with (lit "https://") url then Some (lit "https://")
                else if starts_with (lit "http://") url then Some (lit "http://") else None in
  s ← scheme;
  let '(host, rest) := split_host (drop (length s) url) in
  if bool_decide (host = []) || bool_decide (newline ∈ rest) || bool_decide ("013"%char ∈ rest)
  then None else Some (s ++ host, rest).

Definition pop_back (s : str) : str := take (length s - 1) s.

Definition split_url (url : str) : UrlParts :=
  match match_url url with
  | Some (h, p) =>
      mkUrl h (if negb (bool_decide (p = [])) && bool_decide (last p = Some "/"%char)
               then pop_back p else p)
  | None => mkUrl url []
  end.

Definition resolve_api_key (getenv : str -> option str) (cfg : HttpVerifierConfig) : str :=
  if negb (bool_decide (hc_api_key cfg = [])) then hc_api_key cfg
  else if bool_decide (env_var_name cfg = []) then []
  else default [] (getenv (env_var_name cfg)).

(** Milliseconds; [attempt] is not negative where it is called. *)
Definition backoff (attempt : Z) : Z :=
  let scaled := (250 * Z.shiftl 1 (Z.min attempt 4))%Z in
  if (4000 <? scaled)%Z then 4000%Z else scaled.

Definition unable_to_vote (provider_id reason : str) : VoteOutcome :=
  mkOutcome (mkVote provider_id false d_zero) reason.

(** An [httplib::Result]: an error (its text) or a response. *)
Inductive HttpResult : Type :=
| TransportError (e : str)
| Response (status : Z) (body : str).

(** [rsp && rsp->status < 500 && rsp->status != 429] *)
Definition settled (r : HttpResult) : bool :=
  match r with
  | TransportError _ => false
  | Response st _ => (st <? 500)%Z && negb (st =? 429)%Z
  end.

(** The retry loop: [n] iterations are left, [rsp] is the last result, and the
    second component lists the milliseconds slept. *)
Fixpoint retry_loop (post : Z -> HttpResult) (max : Z) (n : nat) (attempt : Z) (rsp : HttpResult) :
    HttpResult * list Z :=
  match n with
  | O => (rsp, [])
  | S n =>
      let rsp := post attempt in
      if settled rsp then (rsp, [])
      else if (attempt =? max)%Z then (rsp, [])
      else let '(r, slept) := retry_loop post max n (attempt + 1) rsp in (r, backoff attempt :: slept)
  end.

(** The loop runs while [attempt <= max_retries]; a fresh [Result] is an
    error. *)
Definition send (post : Z -> HttpResult) (fresh : str) (max : Z) : HttpResult * list Z :=
  retry_loop post max (Z.to_nat (max + 1)) 0 (TransportError fresh).

(** ** Providers *)

Record Provider : Type := mkProvider {
  endpoint_path : str;
  request_headers : list (str * str);
  build_request_body : str -> str;
  extract_text : str -> str;
}.

Section providers.
Context `{Json} (json_parse : str -> expected jv str) (json_dump : jv -> str).

Definition parsed (body : str) : option jv :=
  match json_parse body with Ok j => Some j | Unexpected _ => None end.

(** [j[k]] of an object known to contain [k], tested with [is_array()]. *)
Definition array_at (j : jv) (k : string) : option jv :=
  match at_key j k with Some a => if is_array a then Some a else None | None => None end.

(** [out += ...] over the items of an array; [None] when a conversion throws. *)
Fixpoint concat_texts (f : jv -> option str) (l : list jv) : option str :=
  match l with
  | [] => Some []
  | x :: l => s ← f x; r ← concat_texts f l; Some (s ++ r)
  end.

Definition is_object (j : jv) : bool := match members j with Some _ => true | None => false end.

Definition user_message (prompt : str) : jv :=
  object [(lit "role", jstr (lit "user")); (lit "content", jstr prompt)].

Definition claude_item (item : jv) : option str :=
  if is_object item then
    t ← value get_string item "type" [];
    if bool_decide (t = lit "text") then value get_string item "text" [] else Some []
  else Some [].

Definition claude_extract (body : str) : str :=
  default [] (
    j ← parsed body;
    match array_at j "content" with
    | None => Some []
    | Some content => concat_texts claude_item (items content)
    end).

Definition claude (cfg : HttpVerifierConfig) (key : str) : Provider :=
  mkProvider (lit "/v1/messages")
    [(lit "x-api-key", key); (lit "anthropic-version", lit "2023-06-01")]
    (fun prompt => json_dump (object
       [(lit "model", jstr (model cfg)); (lit "max_tokens", jint 1024);
        (lit "messages", jarr [user_message prompt])]))
    claude_extract.

Definition gemini_part (part : jv) : option str :=
  if is_object part then value get_string part "text" [] else Some [].

Definition gemini_extract (body : str) : str :=
  default [] (
    j ← parsed body;
    match array_at j "candidates" with
    | None => Some []
    | Some cands =>
        match items cands with
        | [] => Some []
        | first :: _ =>
            match at_key first "content" with
            | None => Some []
            | Some content =>
                match array_at content "parts" with
                | None => Some []
                | Some parts => concat_texts gemini_part (items parts)
                end
            end
        end
    end).

Definition gemini (cfg : HttpVerifierConfig) (key : str) : Provider :=
  mkProvider (lit "/v1beta/models/" ++ model cfg ++ lit ":generateContent?key=" ++ key) []
    (fun prompt => json_dump (object
       [(lit "contents", jarr [object
          [(lit "role", jstr (lit "user"));
           (lit "parts", jarr [object [(lit "text", jstr prompt)]])]])]))
    gemini_extract.

Definition openai_extract (body : str) : str :=
  default [] (
    j ← parsed body;
    match array_at j "choices" with
    | None => Some []
    | Some choices =>
        match items choices with
        | [] => Some []
        | first :: _ =>
            match at_key first "message" with
            | None => Some []
            | Some m => value get_string m "content" []
            end
        end
    end).

Definition openai (cfg : HttpVerifierConfig) (key : str) : Provider :=
  mkProvider (lit "/v1/chat/completions") [(lit "Authorization", lit "Bearer " ++ key)]
    (fun prompt => json_dump (object
       [(lit "model", jstr (model cfg)); (lit "messages", jarr [user_message prompt])]))
    openai_extract.

(** ** The vote *)

(** A request as the client sees it: host, path, headers and body; the
    timeouts and certificate checks of the client are left out. *)
Record HttpRequest : Type := mkHttpRequest {
  hq_host : str; hq_path : str; hq_headers : list (str * str); hq_body : str;
}.

Definition http_request (p : Provider) (cfg : HttpVerifierConfig) (req : VoteRequest) : HttpRequest :=
  let parts := split_url (base_url cfg) in
  mkHttpRequest (scheme_host parts) (path_prefix parts ++ endpoint_path p)
    ((lit "Content-Type", lit "application/json") :: request_headers p)
    (build_request_body p (build_prompt req (prompt_config cfg))).

Definition http_vote (p : Provider) (key : str) (cfg : HttpVerifierConfig)
    (post : HttpRequest -> Z -> HttpResult) (fresh : str) (req : VoteRequest) : VoteOutcome :=
  if bool_decide (key = []) then
    unable_to_vote (hc_id cfg) (lit "auth missing: set " ++ env_var_name cfg)
  else if bool_decide (base_url cfg = []) then
    unable_to_vote (hc_id cfg) (lit "base_url not configured")
  else
    match fst (send (post (http_request p cfg req)) fresh (max_retries cfg)) with
    | TransportError e => unable_to_vote (hc_id cfg) (lit "transport error: " ++ e)
    | Response st body =>
        if (400 <=? st)%Z then unable_to_vote (hc_id cfg) (lit "http " ++ to_string_Z st)
        else
          let text := extract_text p body in
          if bool_decide (text = []) then unable_to_vote (hc_id cfg) (lit "empty assistant text")
          else match parse_response json_parse text (hc_id cfg) with
               | Unexpected e => unable_to_vote (hc_id cfg) (lit "response parse: " ++ e)
               | Ok out => out
               end
    end.
End providers.

(** ** Retries *)

Lemma backoff_value a : (0 <= a)%Z -> backoff a = (250 * 2 ^ Z.min a 4)%Z.
Proof.
  intros Ha. unfold backoff. rewrite Z.shiftl_1_l.
  assert (2 ^ Z.min a 4 <= 2 ^ 4)%Z by (apply Z.pow_le_mono_r; lia).
  destruct (4000 <? _)%Z eqn:E; bool_to_prop; lia.
Qed.

Lemma backoff_bound a : (0 <= a)%Z -> (250 <= backoff a <= 4000)%Z.
Proof.
  intros Ha. rewrite backoff_value by done.
  assert (2 ^ 0 <= 2 ^ Z.min a 4 <= 2 ^ 4)%Z by (split; apply Z.pow_le_mono_r; lia). lia.
Qed.

Definition attempts (from : Z) (k : nat) : list Z := (fun i => from + Z.of_nat i)%Z <$> seq 0 k.

Lemma attempts_S from k : attempts from (S k) = from :: attempts (from + 1) k.
Proof.
  unfold attempts. cbn [seq]. rewrite fmap_cons. f_equal; [lia|].
  rewrite <-seq_shift. rewrite <-list_fmap_compose. apply list_fmap_ext. intros. cbn. lia.
Qed.

Lemma retry_loop_spec post max n attempt rsp :
  (attempt + Z.of_nat n = max + 1)%Z -> (attempt <= max)%Z ->
  exists k, (attempt + Z.of_nat k <= max)%Z /\
    retry_loop post max n attempt rsp
    = (post (attempt + Z.of_nat k)%Z, backoff <$> attempts attempt k) /\
    (forall j, j < k -> settled (post (attempt + Z.of_nat j)%Z) = false)%nat /\
    (settled (post (attempt + Z.of_nat k)%Z) = true \/ attempt + Z.of_nat k = max)%Z.
Proof.
  revert attempt rsp. induction n as [|n IH]; intros attempt rsp Hn Hle; [lia|]. cbn [retry_loop].
  destruct (settled (post attempt)) eqn:Hs; [|destruct (attempt =? max)%Z eqn:Em].
  - exists 0%nat. rewrite Z.add_0_r. repeat split; auto; lia.
  - apply Z.eqb_eq in Em. exists 0%nat. rewrite Z.add_0_r. repeat split; auto; lia.
  - apply Z.eqb_neq in Em. destruct (IH (attempt + 1)%Z (post attempt)) as (k & Hk & Hr & Hj & Hd); [lia..|].
    exists (S k). rewrite Hr, attempts_S.
    replace (attempt + Z.of_nat (S k))%Z with (attempt + 1 + Z.of_nat k)%Z by lia.
    repeat split; auto. intros [|j] Hlt; [by rewrite Z.add_0_r|].
    replace (attempt + Z.of_nat (S j))%Z with (attempt + 1 + Z.of_nat j)%Z by lia. apply Hj. lia.
Qed.

(** The retry loop makes at most [max_retries + 1] requests and ends: its
    result is that of the first attempt that is neither a server error, a rate
    limit nor a transport failure, or of the last attempt allowed, and it sleeps the
    backoff of every earlier attempt, never more than four seconds each. *)
Theorem send_spec post fresh max :
  (0 <= max)%Z ->
  exists k, (Z.of_nat k <= max)%Z /\
    send post fresh max = (post (Z.of_nat k), backoff <$> attempts 0 k) /\
    (forall j, j < k -> settled (post (Z.of_nat j)) = false)%nat /\
    (settled (post (Z.of_nat k)) = true \/ Z.of_nat k = max) /\
    Forall (fun ms => 250 <= ms <= 4000)%Z (snd (send post fresh max)).
Proof.
  intros Hmax. unfold send.
  destruct (retry_loop_spec post max (Z.to_nat (max + 1)) 0 (TransportError fresh))
    as (k & Hk & Hr & Hj & Hd); [lia..|].
  exists k. rewrite Hr. repeat split; auto. apply Forall_fmap, Forall_forall.
  intros a Ha. apply backoff_bound. apply list_elem_of_fmap in Ha as (i & -> & _). lia.
Qed.

(** With a negative retry count nothing is sent and the vote is a transport
    error. *)
Lemma send_negative post fresh max : (max < 0)%Z -> send post fresh max = (TransportError fresh, []).
Proof. intros Hm. unfold send. by replace (Z.to_nat (max + 1)) with 0%nat by lia. Qed.

(** ** Votes *)

Section votes.
Context `{Json} (json_parse : str -> expected jv str).
Context (p : Provider) (key : str) (cfg : HttpVerifierConfig).
Context (post : HttpRequest -> Z -> HttpResult) (fresh : str).

Abbreviation ask := (http_vote json_parse p key cfg post fresh).

(** Every vote carries the configured identity.  It is the parsed answer of a
    successful response, or a vote against with confidence zero: no failure
    counts as a confirmation. *)
Theorem http_vote_cases req :
  provider (vote (ask req)) = hc_id cfg /\
  ((exists st body, key <> [] /\ base_url cfg <> [] /\
      fst (send (post (http_request p cfg req)) fresh (max_retries cfg)) = Response st body /\
      (st < 400)%Z /\
      parse_response json_parse (extract_text p body) (hc_id cfg) = Ok (ask req)) \/
   (true_positive (vote (ask req)) = false /\ vote_confidence (vote (ask req)) = d_zero)).
Proof.
  unfold http_vote. case_bool_decide as Hk; [split; [done|by right]|].
  case_bool_decide as Hu; [split; [done|by right]|].
  destruct (fst (send _ _ _)) as [e|st body] eqn:Hs; [split; [done|by right]|].
  destruct (400 <=? st)%Z eqn:Hst; [split; [done|by right]|].
  case_bool_decide; [split; [done|by right]|].
  destruct (parse_response json_parse (extract_text p body) (hc_id cfg)) as [out|e] eqn:Hp;
    [|split; [done|by right]].
  destruct (parse_response_bounds _ _ _ _ Hp) as [_ Hid]. split; [done|]. left.
  apply Z.leb_gt in Hst. eauto 10.
Qed.

Lemma http_vote_no_key req : key = [] -> true_positive (vote (ask req)) = false.
Proof. intros Hk. unfold http_vote. by rewrite bool_decide_true. Qed.
End votes.

(** ** Providers *)

Section extraction.
Context `{Json, !JsonOk} (json_parse : str -> expected jv str) (json_dump : jv -> str).

Definition text_item (t : str) : jv := object [(lit "type", jstr (lit "text")); (lit "text", jstr t)].
Definition text_part (t : str) : jv := object [(lit "text", jstr t)].

Lemma concat_texts_map f (g : str -> jv) ts :
  (forall t, f (g t) = Some t) -> concat_texts f (g <$> ts) = Some (concat ts).
Proof. intros Hf. induction ts as [|t ts IH]; [done|]. cbn. rewrite Hf. cbn. by rewrite IH. Qed.

Lemma is_object_object kvs : is_object (object kvs) = true.
Proof. unfold is_object, object. by rewrite members_obj. Qed.

Lemma claude_item_text t : claude_item (text_item t) = Some t.
Proof.
  unfold claude_item, text_item. rewrite is_object_object. by read_object.
Qed.

Lemma gemini_part_text t : gemini_part (text_part t) = Some t.
Proof. unfold gemini_part, text_part. rewrite is_object_object. by read_object. Qed.

(** The answer of each provider's documented response shape is read whole:
    all text items in order for Claude, all parts of the first candidate for
    Gemini, the content of the first choice for OpenAI. *)
Theorem extract_text_roundtrip ts t body rest cfg key :
  (json_parse body = Ok (object [(lit "content", jarr (text_item <$> ts))]) ->
   extract_text (claude json_parse json_dump cfg key) body = concat ts) /\
  (json_parse body = Ok (object [(lit "candidates", jarr
       (object [(lit "content", object [(lit "parts", jarr (text_part <$> ts))])] :: rest))]) ->
   extract_text (gemini json_parse json_dump cfg key) body = concat ts) /\
  (json_parse body = Ok (object [(lit "choices", jarr
       (object [(lit "message", object [(lit "content", jstr t)])] :: rest))]) ->
   extract_text (openai json_parse json_dump cfg key) body = t).
Proof.
  split; [|split]; intros Hj; cbn [extract_text claude gemini openai];
    unfold claude_extract, gemini_extract, openai_extract, parsed; rewrite Hj;
    unfold array_at; do 8 (read_object; rewrite ?array_arr; simpl);
    rewrite ?concat_texts_map; auto using claude_item_text, gemini_part_text.
Qed.
End extraction.

(** ** URLs *)

Lemma match_url_parts scheme host path :
  scheme = lit "https://" \/ scheme = lit "http://" ->
  host <> [] -> free_of "/" host -> (path = [] \/ head path = Some "/"%char) ->
  free_of newline path -> free_of "013" path ->
  match_url (scheme ++ host ++ path) = Some (scheme ++ host, path).
Proof.
  intros Hs Hh Hfree Hp Hn Hr. unfold match_url.
  assert (split_host (host ++ path) = (host, path)) as Hsplit.
  { unfold split_host. destruct Hp as [-> | Hp].
    - rewrite app_nil_r. by rewrite (proj2 (find_char_None "/" host) Hfree).
    - destruct path as [|c path]; [done|]. cbn in Hp. injection Hp as ->.
      rewrite find_char_hit by done. by rewrite take_app_length, drop_app_length. }
  destruct Hs as [-> | ->].
  - rewrite starts_with_app. cbn [mbind option_bind]. rewrite drop_app_length, Hsplit.
    by rewrite !bool_decide_false.
  - assert (starts_with (lit "https://") (lit "http://" ++ host ++ path) = false) as ->
      by (by cbn). 
    rewrite starts_with_app. cbn [mbind option_bind]. rewrite drop_app_length, Hsplit.
    by rewrite !bool_decide_false.
Qed.

(** A base URL splits into scheme and host, and its path without one trailing
    slash; anything else is taken as the host unchanged. *)
Theorem split_url_parts scheme host path :
  scheme = lit "https://" \/ scheme = lit "http://" ->
  host <> [] -> free_of "/" host -> (path = [] \/ head path = Some "/"%char) ->
  free_of newline path -> free_of "013" path ->
  split_url (scheme ++ host ++ path)
  = mkUrl (scheme ++ host) (if bool_decide (last path = Some "/"%char) then pop_back path else path).
Proof.
  intros. unfold split_url. rewrite match_url_parts by done.
  destruct path; [done|]. by rewrite (bool_decide_false (_ :: _ = [])).
Qed.

(** ** The ensemble with an unconfigured provider *)

(** A verifier without an API key takes part in the vote all the same: added
    to an ensemble that confirms a finding, it lowers it to [Probable], and
    blocks it when unanimity is required. *)
Theorem keyless_verifier_blocks `{Json} json_parse p hcfg post fresh vs cfg f :
  confirms vs cfg f = true ->
  let v := http_vote json_parse p [] hcfg post fresh in
  confidence (judged (vs ++ [Some v]) cfg f) = ConfProbable /\
  (require_unanimous cfg = true -> confirms (vs ++ [Some v]) cfg f = false).
Proof. intros Hc. apply no_vote_counts; [by apply http_vote_no_key|done]. Qed.

(** ** Examples *)

Definition flaky (a : Z) : HttpResult :=
  if (a <? 2)%Z then Response 503 [] else Response 200 (lit "ok").

Lemma send_spec_witness :
  exists k, (Z.of_nat k <= 3)%Z /\
    send flaky (lit "unknown") 3 = (flaky (Z.of_nat k), backoff <$> attempts 0 k) /\
    (forall j, j < k -> settled (flaky (Z.of_nat j)) = false)%nat /\
    (settled (flaky (Z.of_nat k)) = true \/ Z.of_nat k = 3%Z) /\
    Forall (fun ms => 250 <= ms <= 4000)%Z (snd (send flaky (lit "unknown") 3)).
Proof. apply (send_spec flaky (lit "unknown") 3). lia. Defined.

Lemma send_flaky : send flaky (lit "unknown") 3 = (Response 200 (lit "ok"), [250; 500]%Z).
Proof. by vm_compute. Qed.

Lemma split_url_parts_witness :
  split_url (lit "https://" ++ lit "api.x.org" ++ lit "/v1/")
  = mkUrl (lit "https://" ++ lit "api.x.org") (lit "/v1").
Proof.
  rewrite (split_url_parts (lit "https://") (lit "api.x.org") (lit "/v1/")).
  - by vm_compute.
  - by left.
  - done.
  - apply (bool_decide_unpack _); by vm_compute.
  - by right.
  - apply (bool_decide_unpack _); by vm_compute.
  - apply (bool_decide_unpack _); by vm_compute.
Defined.

Lemma keyless_verifier_blocks_witness :
  confirms (Ensemble.pair ++ [Some (@http_vote SampleJson.json (fun _ => Unexpected [])
     (mkProvider [] [] id id) [] default_claude_config (fun _ => flaky) [])])
    two_of_n plain_finding = false.
Proof.
  apply (@keyless_verifier_blocks SampleJson.json (fun _ => Unexpected [])
    (mkProvider [] [] id id) default_claude_config (fun _ => flaky) [] Ensemble.pair two_of_n
    plain_finding); by vm_compute.
Defined.
