(* ===== verification/Delegation.v ===== *)
(** * Delegation: [libs/core/src/delegation.cpp]

    The coordinator that runs subagents, alone or one thread each.  What a
    subagent does ([Subagent]) and whether the system can start another thread
    are arguments.  [delegate_parallel] is the step relation [pstep] on the
    main thread, which starts the workers one by one and then joins them in
    order, and the workers, whose shared accesses (the two atomic additions and
    the store of the result) are separate steps.  An exception that leaves a
    worker, or one that leaves the main thread while a worker is joinable, ends
    the program ([Terminated]); a subagent that hangs leaves its worker
    without a step. *)

From Stdlib Require Import ZArith Ascii String Lia.
From stdpp Require Import base list relations.
From S2P Require Import Prelude CxxString.

Record DelegateRequest (J : Type) : Type := mkDelegate {
  dr_subagent_id : str; dr_task : str; iteration_budget_max : Z; dr_allowed_tools : list str;
  dr_metadata : J;
}.
Arguments mkDelegate {J}. Arguments dr_subagent_id {J}. Arguments dr_task {J}.
Arguments iteration_budget_max {J}. Arguments dr_allowed_tools {J}. Arguments dr_metadata {J}.

Record DelegateResult : Type := mkDResult {
  subagent_id : str; success : bool; output : str; error : str; iterations_consumed : Z;
  wall_time : Z;
}.

Definition empty_result : DelegateResult := mkDResult [] false [] [] 0 0.
Definition no_function (id : str) : DelegateResult :=
  mkDResult id false [] (lit "no subagent function configured") 0 0.

(** What a call of the subagent function does. *)
Inductive Subagent : Type := Returns (r : DelegateResult) | Throws | Hangs.

(** The statistics of the coordinator. *)
Record Totals : Type := mkTotals { total_invocations : Z; total_iterations : Z }.

(** The fields [delegate] fills in when the function left them empty. *)
Definition complete (id : str) (elapsed : Z) (r : DelegateResult) : DelegateResult :=
  mkDResult (if bool_decide (subagent_id r = []) then id else subagent_id r)
    (success r) (output r) (error r) (iterations_consumed r)
    (if (wall_time r =? 0)%Z then elapsed else wall_time r).

Definition add_invocation (t : Totals) : Totals :=
  mkTotals (u64 (total_invocations t + 1)) (total_iterations t).
Definition add_iterations (t : Totals) (n : Z) : Totals :=
  mkTotals (total_invocations t) (u64 (total_iterations t + n)).

Section delegation.
Context {J : Type}.

(** [delegate] in the calling thread; [fn] is the subagent function, [None]
    when there is none.  The result is [None] for an exception, which leaves
    the totals alone; a call that hangs has none at all. *)
Inductive delegate (fn : option (DelegateRequest J -> Subagent)) (req : DelegateRequest J) (t : Totals) :
    option DelegateResult -> Totals -> Prop :=
| delegate_unready : fn = None -> delegate fn req t (Some (no_function (dr_subagent_id req))) t
| delegate_returns f r elapsed :
    fn = Some f -> f req = Returns r -> (0 <= elapsed)%Z ->
    let r' := complete (dr_subagent_id req) elapsed r in
    delegate fn req t (Some r') (add_iterations (add_invocation t) (iterations_consumed r'))
| delegate_throws f : fn = Some f -> f req = Throws -> delegate fn req t None t.

(** Where a worker thread is: not started, before the subagent returns, before
    each atomic addition, before it stores its result, and done. *)
Inductive Worker : Type :=
| WUnborn
| WRun
| WInvocation (r : DelegateResult)
| WIterations (r : DelegateResult)
| WStore (r : DelegateResult)
| WDone.

(** Where the main thread is: about to start worker [k], about to join worker
    [k], returned, or left by the exception of a thread that cannot start. *)
Inductive Main : Type := MSpawn (k : nat) | MJoin (k : nat) | MReturned | MThrew.

Record Pool : Type := mkPool {
  main : Main; workers : list Worker; results : list DelegateResult; totals : Totals;
}.

Inductive Program : Type := Alive (p : Pool) | Terminated.

(** [behaviour i] is what the subagent of worker [i] does, and [spawns i]
    whether the system can start that thread. *)
Context (behaviour : nat -> DelegateRequest J -> Subagent) (spawns : nat -> bool).
Context (reqs : list (DelegateRequest J)).

Inductive pstep : Program -> Program -> Prop :=
| step_spawn k ws rs t :
    (k < length reqs)%nat -> spawns k = true ->
    pstep (Alive (mkPool (MSpawn k) ws rs t)) (Alive (mkPool (MSpawn (S k)) (<[k := WRun]> ws) rs t))
| step_no_thread ws rs t :
    (0 < length reqs)%nat -> spawns 0 = false ->
    pstep (Alive (mkPool (MSpawn 0) ws rs t)) (Alive (mkPool MThrew ws rs t))
| step_no_other_thread k ws rs t :
    (0 < k < length reqs)%nat -> spawns k = false ->
    pstep (Alive (mkPool (MSpawn k) ws rs t)) Terminated
| step_spawned ws rs t :
    pstep (Alive (mkPool (MSpawn (length reqs)) ws rs t)) (Alive (mkPool (MJoin 0) ws rs t))
| step_join k ws rs t :
    ws !! k = Some WDone -> (k < length reqs)%nat ->
    pstep (Alive (mkPool (MJoin k) ws rs t)) (Alive (mkPool (MJoin (S k)) ws rs t))
| step_return ws rs t :
    pstep (Alive (mkPool (MJoin (length reqs)) ws rs t)) (Alive (mkPool MReturned ws rs t))
| step_run m ws rs t i req r elapsed :
    ws !! i = Some WRun -> reqs !! i = Some req -> behaviour i req = Returns r -> (0 <= elapsed)%Z ->
    pstep (Alive (mkPool m ws rs t))
      (Alive (mkPool m (<[i := WInvocation (complete (dr_subagent_id req) elapsed r)]> ws) rs t))
| step_throw m ws rs t i req :
    ws !! i = Some WRun -> reqs !! i = Some req -> behaviour i req = Throws ->
    pstep (Alive (mkPool m ws rs t)) Terminated
| step_invocation m ws rs t i r :
    ws !! i = Some (WInvocation r) ->
    pstep (Alive (mkPool m ws rs t)) (Alive (mkPool m (<[i := WIterations r]> ws) rs (add_invocation t)))
| step_iterations m ws rs t i r :
    ws !! i = Some (WIterations r) ->
    pstep (Alive (mkPool m ws rs t))
      (Alive (mkPool m (<[i := WStore r]> ws) rs (add_iterations t (iterations_consumed r))))
| step_store m ws rs t i r :
    ws !! i = Some (WStore r) ->
    pstep (Alive (mkPool m ws rs t)) (Alive (mkPool m (<[i := WDone]> ws) (<[i := r]> rs) t)).

(** [delegate_parallel] with a function: at once with nothing to do, and
    otherwise from before the first thread. *)
Definition initial_pool (t : Totals) : Pool :=
  mkPool (match reqs with [] => MReturned | _ => MSpawn 0 end)
    (replicate (length reqs) WUnborn) (replicate (length reqs) empty_result) t.

(** [delegate_parallel] without a function. *)
Definition delegate_parallel_unready : list DelegateResult :=
  (fun r => no_function (dr_subagent_id r)) <$> reqs.

(** ** What it promises *)

Definition iterations_of (a : Subagent) : Z := match a with Returns r => iterations_consumed r | _ => 0 end.

(** Every request is answered at its own position, and counted. *)
Record answered (t0 : Totals) (p : Pool) : Prop := {
  ans_length : length (results p) = length reqs;
  ans_result i req : reqs !! i = Some req -> exists r elapsed, behaviour i req = Returns r /\ (0 <= elapsed)%Z /\
    results p !! i = Some (complete (dr_subagent_id req) elapsed r);
  ans_invocations : total_invocations (totals p) = u64 (total_invocations t0 + Z.of_nat (length reqs));
  ans_iterations : total_iterations (totals p)
    = u64 (total_iterations t0 + sumz (imap (fun i req => iterations_of (behaviour i req)) reqs));
}.

(** Something ends the program: a subagent throws, or a thread after the
    first cannot be started. *)
Definition aborts : Prop :=
  (exists i req, reqs !! i = Some req /\ behaviour i req = Throws) \/
  (exists k, (0 < k < length reqs)%nat /\ spawns k = false).

(** ** The invariant of the interleavings *)

(** What worker [i] will return, for some elapsed time. *)
Definition result_of (i : nat) (r : DelegateResult) : Prop :=
  exists req ans elapsed, reqs !! i = Some req /\ behaviour i req = Returns ans /\ (0 <= elapsed)%Z /\
    r = complete (dr_subagent_id req) elapsed ans.

Definition worker_ok (rs : list DelegateResult) (i : nat) (w : Worker) : Prop :=
  match w with
  | WUnborn | WRun => True
  | WInvocation r | WIterations r | WStore r => result_of i r
  | WDone => exists r, rs !! i = Some r /\ result_of i r
  end.

(** Has the worker made its first addition? the second, and of how much? *)
Definition counted (w : Worker) : Z := match w with WUnborn | WRun | WInvocation _ => 0 | _ => 1 end.
Definition iterated (i : nat) (w : Worker) : Z :=
  match w with
  | WUnborn | WRun | WInvocation _ | WIterations _ => 0
  | _ => match reqs !! i with Some req => iterations_of (behaviour i req) | None => 0 end
  end.

(** The workers that are started are those the main thread has passed, those
    that are joined are done. *)
Definition main_ok (m : Main) (ws : list Worker) : Prop :=
  match m with
  | MSpawn k => (k <= length reqs)%nat /\ forall i, ws !! i = Some WUnborn <-> (k <= i < length reqs)%nat
  | MJoin k => (k <= length reqs)%nat /\ (forall i, ws !! i <> Some WUnborn) /\
      forall i, (i < k)%nat -> ws !! i = Some WDone
  | MReturned => forall i, (i < length reqs)%nat -> ws !! i = Some WDone
  | MThrew => spawns 0 = false
  end.

Record pool_inv (t0 : Totals) (p : Pool) : Prop := {
  inv_len : length (workers p) = length reqs;
  inv_res : length (results p) = length reqs;
  inv_main : main_ok (main p) (workers p);
  inv_workers : forall i w, workers p !! i = Some w -> worker_ok (results p) i w;
  inv_count : total_invocations (totals p) = u64 (total_invocations t0 + sumz (imap (fun _ => counted) (workers p)));
  inv_iter : total_iterations (totals p) = u64 (total_iterations t0 + sumz (imap iterated (workers p)));
}.

Definition program_inv (t0 : Totals) (c : Program) : Prop :=
  match c with Alive p => pool_inv t0 p | Terminated => aborts end.
End delegation.

(** ** Properties *)

Lemma u64_add_l a b : u64 (u64 a + b) = u64 (a + b).
Proof. unfold u64. by rewrite Zplus_mod_idemp_l. Qed.

Section pool.
Context {J : Type} (behaviour : nat -> DelegateRequest J -> Subagent) (spawns : nat -> bool).
Context (reqs : list (DelegateRequest J)) (t0 : Totals).
Implicit Types (p q : Pool) (w : Worker).
Local Abbreviation inv := (pool_inv behaviour spawns reqs t0).
Local Abbreviation step := (pstep behaviour spawns reqs).

Lemma result_iterations i r : result_of behaviour reqs i r ->
  exists req, reqs !! i = Some req /\ iterations_of (behaviour i req) = iterations_consumed r.
Proof. intros (req & ans & el & Hr & Ha & _ & ->). exists req. by rewrite Ha. Qed.

(** A worker that runs goes on: what that means for the main thread. *)
Lemma main_ok_update m ws i w w' :
  main_ok spawns reqs m ws -> ws !! i = Some w -> w <> WUnborn -> w <> WDone -> w' <> WUnborn ->
  main_ok spawns reqs m (<[i := w']> ws).
Proof.
  intros Hm Hi Hu Hd Hu'. destruct m as [k|k| |]; cbn [main_ok] in *; [| | |done].
  - destruct Hm as [Hk Hm]. split; [done|]. intros j. rewrite <-Hm. destruct (decide (j = i)) as [->|Hne].
    + rewrite list_lookup_insert_eq by (by eapply lookup_lt_Some). naive_solver congruence.
    + by rewrite list_lookup_insert_ne.
  - destruct Hm as (Hk & Hb & Hj). split; [done|]. split.
    + intros j [(-> & -> & _)|[_ Hl]]%list_lookup_insert_Some; [done|by eapply Hb].
    + intros j Hlt. rewrite list_lookup_insert_ne; [by apply Hj|]. intros ->. specialize (Hj _ Hlt). congruence.
  - intros j Hlt. rewrite list_lookup_insert_ne; [by apply Hm|]. intros ->. specialize (Hm _ Hlt). congruence.
Qed.

(** Worker [i] moves from [w] to [w'], and the totals by what that adds. *)
Lemma pool_inv_update m m' ws rs rs' t t' i w w' :
  inv (mkPool m ws rs t) -> ws !! i = Some w -> main_ok spawns reqs m' (<[i := w']> ws) ->
  length rs' = length rs -> (forall j, j <> i -> rs' !! j = rs !! j) -> worker_ok behaviour reqs rs' i w' ->
  total_invocations t' = u64 (total_invocations t + (counted w' - counted w)) ->
  total_iterations t' = u64 (total_iterations t + (iterated behaviour reqs i w' - iterated behaviour reqs i w)) ->
  inv (mkPool m' (<[i := w']> ws) rs' t').
Proof.
  intros [Hl Hr _ Hw Hc Hi] Hi0 Hm Hlen Hrs Hok Hc' Hi'. cbn [workers results totals] in *.
  split; cbn [main workers results totals].
  - by rewrite length_insert.
  - by rewrite Hlen.
  - done.
  - intros j x Hj. apply list_lookup_insert_Some in Hj as [(-> & -> & _)|(Hne & Hj)]; [done|].
    specialize (Hw j x Hj). destruct x; try done. destruct Hw as (r & Hx & Hres).
    exists r. split; [by rewrite Hrs|done].
  - rewrite Hc', Hc, u64_add_l, (sumz_imap_insert _ _ _ _ _ Hi0). f_equal. lia.
  - rewrite Hi', Hi, u64_add_l, (sumz_imap_insert _ _ _ _ _ Hi0). f_equal. lia.
Qed.

Lemma pool_inv_normal p : inv p ->
  total_invocations (totals p) = u64 (total_invocations (totals p) + 0) /\
  total_iterations (totals p) = u64 (total_iterations (totals p) + 0).
Proof. intros [_ _ _ _ Hc Hi]. rewrite Hc, Hi, !u64_add_l, !Z.add_0_r. done. Qed.

(** The main thread moves on. *)
Lemma pool_inv_main m m' ws rs t : inv (mkPool m ws rs t) ->
  (main_ok spawns reqs m ws -> main_ok spawns reqs m' ws) -> inv (mkPool m' ws rs t).
Proof. intros [Hl Hr Hm Hw Hc Hi] Hmm. split; try done. by apply Hmm. Qed.

Lemma pool_inv_spawn k ws rs t : inv (mkPool (MSpawn k) ws rs t) -> (k < length reqs)%nat ->
  inv (mkPool (MSpawn (S k)) (<[k := WRun]> ws) rs t).
Proof.
  intros Hinv Hk. destruct (pool_inv_normal _ Hinv) as [Hn1 Hn2]. destruct (inv_main _ _ _ _ _ Hinv) as [_ Hm].
  cbn [workers] in Hm. apply (pool_inv_update (MSpawn k) _ ws rs rs t t k WUnborn); try done; [apply Hm; lia|].
  split; [lia|]. intros i. destruct (decide (i = k)) as [->|Hne].
  - rewrite list_lookup_insert_eq by (pose proof (inv_len _ _ _ _ _ Hinv) as E; cbn in E; lia). split; [done|lia].
  - rewrite list_lookup_insert_ne, Hm by done. lia.
Qed.

Lemma main_ok_spawned ws : main_ok spawns reqs (MSpawn (length reqs)) ws -> main_ok spawns reqs (MJoin 0) ws.
Proof. intros [_ Hm]. split; [lia|]. split; [intros i Hi%Hm; lia|lia]. Qed.

Lemma main_ok_join k ws : (k < length reqs)%nat -> ws !! k = Some WDone ->
  main_ok spawns reqs (MJoin k) ws -> main_ok spawns reqs (MJoin (S k)) ws.
Proof.
  intros Hk Hd (_ & Hb & Hj). split; [lia|]. split; [done|]. intros i Hi.
  destruct (decide (i = k)) as [->|Hne]; [done|]. apply Hj. lia.
Qed.

Lemma program_inv_step c c' :
  program_inv behaviour spawns reqs t0 c -> step c c' -> program_inv behaviour spawns reqs t0 c'.
Proof.
  intros Hinv Hs. destruct Hs as [k ws rs t Hk Hsp|ws rs t Hn Hsp|k ws rs t Hk Hsp|ws rs t|k ws rs t Hd Hk|ws rs t
    |m ws rs t i req r el Hi0 Hreq Ha Hel|m ws rs t i req Hi0 Hreq Ha|m ws rs t i r Hi0|m ws rs t i r Hi0|m ws rs t i r Hi0];
    cbn [program_inv] in *;
    try (destruct (pool_inv_normal _ Hinv) as [Hn1 Hn2]; cbn [totals] in Hn1, Hn2;
         pose proof (inv_main _ _ _ _ _ Hinv) as Hmain;
         pose proof (inv_workers _ _ _ _ _ Hinv _ _ Hi0) as Hok; cbn [main workers results worker_ok] in Hmain, Hok).
  - by apply pool_inv_spawn.
  - by apply (pool_inv_main (MSpawn 0)).
  - right. by exists k.
  - apply (pool_inv_main _ _ _ _ _ Hinv), main_ok_spawned.
  - apply (pool_inv_main _ _ _ _ _ Hinv). by apply main_ok_join.
  - apply (pool_inv_main _ _ _ _ _ Hinv). by intros (_ & _ & Hj).
  - apply (pool_inv_update m _ ws rs rs t t i WRun); try done; [by eapply main_ok_update|]. by exists req, r, el.
  - left. by exists i, req.
  - apply (pool_inv_update m _ ws rs rs t _ i (WInvocation r)); try done. by eapply main_ok_update.
  - destruct (result_iterations _ _ Hok) as (req & Hreq & Hit).
    apply (pool_inv_update m _ ws rs rs t _ i (WIterations r)); try done; [by eapply main_ok_update|].
    cbn [add_iterations total_iterations iterated]. rewrite Hreq, Hit. f_equal. lia.
  - apply (pool_inv_update m _ ws rs _ t t i (WStore r)); try done.
    + by eapply main_ok_update.
    + by rewrite length_insert.
    + intros j Hj. by rewrite list_lookup_insert_ne.
    + exists r. split; [|done]. apply list_lookup_insert_eq.
      pose proof (inv_len _ _ _ _ _ Hinv) as H1. pose proof (inv_res _ _ _ _ _ Hinv) as H2.
      cbn [workers results] in *. apply lookup_lt_Some in Hi0. lia.
    + by rewrite Z.sub_diag.
Qed.

Lemma initial_inv :
  (0 <= total_invocations t0 < 2 ^ 64)%Z -> (0 <= total_iterations t0 < 2 ^ 64)%Z ->
  inv (initial_pool reqs t0).
Proof.
  intros H1 H2. unfold initial_pool. split; cbn [main workers results totals]; rewrite ?length_replicate; try done.
  - destruct reqs as [|req rest]; [intros i Hi; cbn in Hi; lia|]. split; [lia|]. intros i.
    rewrite lookup_replicate. split; [lia|]. split; [done|lia].
  - intros i w [-> _]%lookup_replicate. done.
  - rewrite sumz_imap_zero, Z.add_0_r, u64_small; [done..|]. by intros i w [-> _]%lookup_replicate.
  - rewrite sumz_imap_zero, Z.add_0_r, u64_small; [done..|]. by intros i w [-> _]%lookup_replicate.
Qed.

(** When the main thread has returned, everything is answered. *)
Lemma returned_answered p : inv p -> main p = MReturned -> answered behaviour reqs t0 p.
Proof.
  intros [Hl Hr Hm Hw Hc Hi] E. rewrite E in Hm. cbn [main_ok] in Hm.
  assert (workers p = replicate (length reqs) WDone) as Hws.
  { apply list_eq. intros i. destruct (decide (i < length reqs)%nat) as [Hlt|Hge].
    - rewrite lookup_replicate_2 by done. by apply Hm.
    - rewrite !lookup_ge_None_2; [done|rewrite length_replicate; lia|lia]. }
  split; [done| | |].
  - intros i req Hreq. destruct (Hw i WDone) as (r & Hx & req' & ans & el & Hreq' & Ha & Hel & ->).
    { apply Hm. by eapply lookup_lt_Some. }
    simplify_eq. by exists ans, el.
  - rewrite Hc, Hws. do 2 f_equal. clear. induction reqs as [|r rs IH]; [done|].
    cbn [length replicate]. rewrite imap_cons. unfold sumz in *. cbn [foldr counted].
    change ((fun _ : nat => counted) ∘ S) with (fun _ : nat => counted). rewrite IH. lia.
  - rewrite Hi, Hws. do 2 f_equal. clear. f_equal. apply list_eq. intros i.
    rewrite !list_lookup_imap. destruct (decide (i < length reqs)%nat) as [Hlt|Hge].
    + destruct (lookup_lt_is_Some_2 _ _ Hlt) as [req Hreq]. rewrite Hreq, lookup_replicate_2 by done.
      cbn. by rewrite Hreq.
    + rewrite (lookup_ge_None_2 reqs), (lookup_ge_None_2 (replicate _ _));
        [done|rewrite length_replicate; lia|lia].
Qed.

(** The main thread waits for a worker whose subagent hangs. *)
Definition waits_for_hang p : Prop :=
  exists k req, main p = MJoin k /\ reqs !! k = Some req /\ behaviour k req = Hangs.

Lemma progress p : inv p ->
  match main p with
  | MReturned | MThrew => True
  | _ => (exists c, step (Alive p) c) \/ waits_for_hang p
  end.
Proof.
  destruct p as [m ws rs t]. intros [Hl _ Hm Hw _ _]. cbn [main workers results] in *.
  destruct m as [k|k| |]; [| |done|done].
  - left. destruct Hm as [Hk _]. destruct (decide (k = length reqs)) as [->|Hne]; [eexists; apply step_spawned|].
    destruct (spawns k) eqn:Hs; [eexists; apply step_spawn; [lia|done]|].
    destruct k as [|k]; eexists; [apply step_no_thread|apply step_no_other_thread]; done || lia.
  - destruct Hm as (Hk & Hb & Hj). destruct (decide (k = length reqs)) as [->|Hne]; [left; eexists; apply step_return|].
    destruct (lookup_lt_is_Some_2 ws k) as [w Hkw]; [lia|].
    destruct (lookup_lt_is_Some_2 reqs k) as [req Hreq]; [lia|].
    destruct w as [| |r|r|r|]; [by destruct (Hb k)| |left; eexists; by econstructor..|left; eexists; apply step_join; [done|lia]].
    destruct (behaviour k req) as [r| |] eqn:Ha.
    + left. eexists. by apply (step_run _ _ _ _ _ _ _ k req r 0).
    + left. eexists. by eapply step_throw.
    + right. by exists k, req.
Qed.

(** *** Termination *)

(** How many steps a worker, and the main thread, have left at most. *)
Definition remaining w : nat :=
  match w with WUnborn | WRun => 4 | WInvocation _ => 3 | WIterations _ => 2 | WStore _ => 1 | WDone => 0 end.
Definition main_left (m : Main) : nat :=
  let n := length reqs in
  match m with MSpawn k => (n - k) + n + 2 | MJoin k => (n - k) + 1 | MReturned | MThrew => 0 end.
Definition measure (c : Program) : nat :=
  match c with Alive p => main_left (main p) + list_sum (remaining <$> workers p) | Terminated => 0 end.

Lemma remaining_insert ws i w w' :
  ws !! i = Some w -> (list_sum (remaining <$> <[i := w']> ws) + remaining w
                       = list_sum (remaining <$> ws) + remaining w')%nat.
Proof.
  revert i. induction ws as [|x ws IH]; intros i; [done|]. destruct i as [|i].
  - intros [= ->]. change (<[0%nat:=w']> (w :: ws)) with (w' :: ws). rewrite !fmap_cons. cbn. lia.
  - intros Hi. specialize (IH i Hi). change (<[S i:=w']> (x :: ws)) with (x :: <[i:=w']> ws).
    rewrite !fmap_cons. unfold list_sum in *. cbn [foldr]. lia.
Qed.

Lemma measure_step p c : inv p -> step (Alive p) c -> (measure c < measure (Alive p))%nat.
Proof.
  intros Hinv Hs. inversion Hs as [k ws rs t Hk Hsp|ws rs t Hn Hsp|k ws rs t Hk Hsp|ws rs t|k ws rs t Hd Hk|ws rs t
    |m ws rs t i req r el Hi0 Hreq Ha Hel|m ws rs t i req Hi0 Hreq Ha|m ws rs t i r Hi0|m ws rs t i r Hi0|m ws rs t i r Hi0];
    subst; cbn [measure main workers main_left]; try lia;
    try match goal with |- context [<[?i := ?w']> ?ws] => 
      first [pose proof (remaining_insert ws i _ w' Hi0) as Hsum; cbn [remaining] in Hsum; lia|idtac] end.
  - destruct (inv_main _ _ _ _ _ Hinv) as [_ Hm]. cbn [workers] in Hm.
    assert (ws !! k = Some WUnborn) as Hi by (apply Hm; lia).
    pose proof (remaining_insert ws k _ WRun Hi) as Hsum. cbn [remaining] in Hsum. lia.
  - assert (remaining WRun <= list_sum (remaining <$> ws))%nat; [|cbn [remaining] in *; lia].
    pose proof (remaining_insert ws i _ WDone Hi0) as Hsum. cbn [remaining] in *. lia.
Qed.

Lemma measure_initial : (measure (Alive (initial_pool reqs t0)) <= 6 * length reqs + 2)%nat.
Proof.
  unfold initial_pool. cbn [measure main workers].
  assert (list_sum (remaining <$> replicate (length reqs) WUnborn) = 4 * length reqs)%nat as ->.
  { induction (length reqs) as [|n IH]; [done|]. cbn [replicate fmap list_fmap list_sum foldr] in *. unfold list_sum in *. cbn [remaining]. lia. }
  unfold main_left. destruct reqs as [|r rest]; cbn [length]; lia.
Qed.

Lemma run_bound n : forall c c', program_inv behaviour spawns reqs t0 c -> nsteps step n c c' -> (n <= measure c)%nat.
Proof.
  induction n as [|n IH]; intros c c' Hinv Hs; [lia|]. inversion Hs as [|? ? c1 ? H1 H2]; subst.
  pose proof (IH _ _ (program_inv_step _ _ Hinv H1) H2). destruct c as [p|]; [|by inversion H1].
  pose proof (measure_step p c1 Hinv H1). lia.
Qed.
End pool.

Lemma run_inv {J} (behaviour : nat -> DelegateRequest J -> Subagent) spawns reqs t0 n c :
  (0 <= total_invocations t0 < 2 ^ 64)%Z -> (0 <= total_iterations t0 < 2 ^ 64)%Z ->
  nsteps (pstep behaviour spawns reqs) n (Alive (initial_pool reqs t0)) c -> program_inv behaviour spawns reqs t0 c.
Proof.
  intros H1 H2 Hs. pose proof (initial_inv behaviour spawns reqs t0 H1 H2) as H0. revert H0.
  change (pool_inv behaviour spawns reqs t0 (initial_pool reqs t0)) with
    (program_inv behaviour spawns reqs t0 (Alive (initial_pool reqs t0))).
  induction Hs; [done|]. intros Hi. apply IHHs. by eapply program_inv_step.
Qed.

(** When every thread can start and every subagent returns, a run that can go
    no further has returned. *)
Lemma delegate_parallel_completes {J} (behaviour : nat -> DelegateRequest J -> Subagent) spawns reqs t0 n c :
  (0 <= total_invocations t0 < 2 ^ 64)%Z -> (0 <= total_iterations t0 < 2 ^ 64)%Z ->
  (forall k, spawns k = true) -> (forall i req, exists r, behaviour i req = Returns r) ->
  nsteps (pstep behaviour spawns reqs) n (Alive (initial_pool reqs t0)) c ->
  (~ exists c', pstep behaviour spawns reqs c c') ->
  exists p, c = Alive p /\ main p = MReturned /\ answered behaviour reqs t0 p.
Proof.
  intros H1 H2 Hsp Hb Hs Hstuck. pose proof (run_inv _ _ _ _ _ _ H1 H2 Hs) as Hinv. destruct c as [p|].
  - exists p. split; [done|]. pose proof (progress behaviour spawns reqs t0 p Hinv) as Hp.
    pose proof (inv_main _ _ _ _ _ Hinv) as Hm.
    assert (~ waits_for_hang behaviour reqs p) as Hnh by (intros (k & req & _ & _ & E); destruct (Hb k req); congruence).
    destruct (main p) eqn:E; [by destruct Hp|by destruct Hp| |cbn in Hm; by rewrite Hsp in Hm].
    split; [done|]. by apply (returned_answered behaviour spawns).
  - destruct Hinv as [(i & req & _ & E)|(k & _ & E)]; [destruct (Hb i req)|rewrite Hsp in E]; congruence.
Qed.

(** C29: [delegate_parallel] with a function, in any interleaving of the main
    thread and the workers.  Every run has at most [6 * n + 2] steps.  When the
    main thread has returned, every subagent has returned, each request has its
    completed answer at its own position and the totals have grown by the number
    of requests and the sum of their iterations, modulo 2^64; it throws only
    when the first thread cannot start; the program ends only when a subagent
    throws or a later thread cannot start; and until then there is always a
    step, unless the main thread waits for a subagent that hangs. *)
Theorem delegate_parallel_ends {J} (behaviour : nat -> DelegateRequest J -> Subagent) spawns reqs t0 n c :
  (0 <= total_invocations t0 < 2 ^ 64)%Z -> (0 <= total_iterations t0 < 2 ^ 64)%Z ->
  nsteps (pstep behaviour spawns reqs) n (Alive (initial_pool reqs t0)) c ->
  (n <= 6 * length reqs + 2)%nat /\
  match c with
  | Terminated => aborts behaviour spawns reqs
  | Alive p =>
      match main p with
      | MReturned => answered behaviour reqs t0 p
      | MThrew => spawns 0%nat = false
      | _ => (exists c', pstep behaviour spawns reqs c c') \/ waits_for_hang behaviour reqs p
      end
  end.
Proof.
  intros H1 H2 Hs. pose proof (run_inv _ _ _ _ _ _ H1 H2 Hs) as Hinv.
  pose proof (initial_inv behaviour spawns reqs t0 H1 H2) as H0. split.
  { etransitivity; [|apply (measure_initial reqs t0)]. by apply (run_bound behaviour spawns reqs t0 n _ c). }
  destruct c as [p|]; [|done]. cbn [program_inv] in Hinv. pose proof (progress behaviour spawns reqs t0 p Hinv) as Hp.
  destruct (main p) eqn:E; try done; [by apply (returned_answered behaviour spawns)|].
  pose proof (inv_main _ _ _ _ _ Hinv) as Hm. by rewrite E in Hm.
Qed.

(** ** Examples *)

Definition sample_requests : list (DelegateRequest unit) :=
  [mkDelegate (lit "a") (lit "t") 50 [] tt; mkDelegate (lit "b") (lit "t") 50 [] tt].
Definition sample_answer : DelegateResult := mkDResult [] true (lit "ok") [] 7 1.
Definition sample_behaviour (i : nat) (r : DelegateRequest unit) : Subagent := Returns sample_answer.
Definition done_pool : Pool :=
  mkPool MReturned [WDone; WDone]
    [mkDResult (lit "a") true (lit "ok") [] 7 1; mkDResult (lit "b") true (lit "ok") [] 7 1] (mkTotals 2 14).

(** The first worker runs before the second one starts; the second one
    finishes first, and the main thread waits for both. *)
Lemma sample_interleaving :
  nsteps (pstep sample_behaviour (fun _ => true) sample_requests) 14
    (Alive (initial_pool sample_requests (mkTotals 0 0))) (Alive done_pool).
Proof.
  eapply nsteps_l; [by apply step_spawn; [cbn; lia|]|].
  eapply nsteps_l; [by apply (step_run _ _ _ _ _ _ _ 0 (mkDelegate (lit "a") (lit "t") 50 [] tt) sample_answer 0)|].
  eapply nsteps_l; [by apply step_spawn; [cbn; lia|]|].
  eapply nsteps_l; [by apply (step_run _ _ _ _ _ _ _ 1 (mkDelegate (lit "b") (lit "t") 50 [] tt) sample_answer 0)|].
  eapply nsteps_l; [by eapply (step_invocation _ _ _ _ _ _ _ 1)|].
  eapply nsteps_l; [apply step_spawned|].
  eapply nsteps_l; [by eapply (step_iterations _ _ _ _ _ _ _ 1)|].
  eapply nsteps_l; [by eapply (step_invocation _ _ _ _ _ _ _ 0)|].
  eapply nsteps_l; [by eapply (step_store _ _ _ _ _ _ _ 1)|].
  eapply nsteps_l; [by eapply (step_iterations _ _ _ _ _ _ _ 0)|].
  eapply nsteps_l; [by eapply (step_store _ _ _ _ _ _ _ 0)|].
  eapply nsteps_l; [by apply step_join; [|cbn; lia]|].
  eapply nsteps_l; [by apply step_join; [|cbn; lia]|].
  eapply nsteps_l; [apply step_return|]. apply nsteps_O.
Qed.

Lemma delegate_parallel_ends_witness :
  (14 <= 6 * 2 + 2)%nat /\ total_iterations (totals done_pool) = 14%Z /\
  answered sample_behaviour sample_requests (mkTotals 0 0) done_pool.
Proof.
  destruct (delegate_parallel_ends sample_behaviour (fun _ => true) sample_requests (mkTotals 0 0) 14 (Alive done_pool))
    as [Hn Ha]; [cbn; lia|cbn; lia|exact sample_interleaving|].
  split; [exact Hn|]. split; [reflexivity|exact Ha].
Defined.

(** The exception of one subagent ends the whole program. *)
Lemma throw_terminates :
  nsteps (pstep (fun _ _ => Throws) (fun _ => true) sample_requests) 2
    (Alive (initial_pool sample_requests (mkTotals 0 0))) Terminated.
Proof.
  eapply nsteps_l; [by apply step_spawn; [cbn; lia|]|].
  eapply nsteps_l; [by apply (step_throw _ _ _ _ _ _ _ 0 (mkDelegate (lit "a") (lit "t") 50 [] tt))|]. apply nsteps_O.
Qed.
