(* ===== verification/Swarm.v ===== *)
(** * Supervision and swarms: [libs/core]

    [supervisor.cpp]: one turn of the monitor loop over the router and the
    circuit breaker.  [swarm.cpp]: playbooks, templates and the history of
    tasks.  Run ids and connection outcomes are arguments. *)

From Stdlib Require Import ZArith Ascii String Lia.
From stdpp Require Import base list gmap strings.
From S2P Require Import Prelude CxxString Doubles Json Numbers Network Router.

(** ** The supervisor *)

(** One turn of [monitor_loop] after its sleep, at the clock reading [now]. *)
Definition supervise (cb : CircuitBreaker) (now : Z) (r : FinOpsRouter) : FinOpsRouter :=
  if is_open cb now then set_session_limit r 10
  else if (session_limit r <? 100)%nat then set_session_limit r 100
  else r.

(** ** Swarms *)

(** [None] where the port's increment overflows [int]. *)
Definition derive_ws_url (gateway_url : str) : option str :=
  let ws_url :=
    if starts_with (lit "https://") gateway_url then lit "wss://" ++ drop 8 gateway_url
    else if starts_with (lit "http://") gateway_url then lit "ws://" ++ drop 7 gateway_url
    else lit "ws://" ++ gateway_url in
  match rfind_char ":" ws_url with
  | Some colon =>
      if (5 <? colon)%nat then
        let port_str := drop (S colon) ws_url in
        let port_str := match find_char "/" port_str with
                        | Some slash => take slash port_str | None => port_str end in
        match stoi port_str with
        | Some port => if (port =? 2 ^ 31 - 1)%Z then None
                       else Some (take (S colon) ws_url ++ to_string_Z (port + 1))
        | None => Some ws_url
        end
      else Some ws_url
  | None => Some ws_url
  end.

(** [while ((pos = content.find("${goal}", pos)) != npos)]: replace the
    occurrence and continue behind the inserted text. *)
Definition placeholder : str := lit "${goal}".

Fixpoint expand_loop (fuel : nat) (goal content : str) (pos : nat) : option str :=
  match fuel with
  | O => None
  | S fuel =>
      match find_sub placeholder (drop pos content) with
      | None => Some content
      | Some k =>
          let pos := (pos + k)%nat in
          let content := take pos content ++ goal ++ drop (pos + 7) content in
          expand_loop fuel goal content (pos + length goal)%nat
      end
  end.

Definition expand_template (goal content : str) : option str :=
  expand_loop (S (length content)) goal content 0.

Record SwarmTask : Type := mkSwarmTask {
  t_agent_id : str; task_template : str; t_status : str; t_result : option str; run_id : str;
  complexity : str;
}.

Record Swarm (J : Type) : Type := mkSwarm {
  gateway_url : str; sw_router : FinOpsRouter; simulation_mode : bool; history : list J;
}.
Arguments mkSwarm {J}. Arguments gateway_url {J}. Arguments sw_router {J}.
Arguments simulation_mode {J}. Arguments history {J}.

Section swarm.
Context `{Json}.

Definition new_swarm (url : str) (budget : double) : Swarm jv :=
  mkSwarm url (new_router budget) (contains_sub (lit "localhost") url) [].

Definition record_task (sw : Swarm jv) (t : SwarmTask) (provider : str) : Swarm jv :=
  mkSwarm (gateway_url sw) (sw_router sw) (simulation_mode sw)
    (history sw ++ [object [(lit "agent", jstr (t_agent_id t)); (lit "provider", jstr provider);
                            (lit "task", jstr (task_template t));
                            (lit "result", jstr (default [] (t_result t)))]]).

Definition finish_task (t : SwarmTask) (status result : str) : SwarmTask :=
  mkSwarmTask (t_agent_id t) (task_template t) status (Some result) (run_id t) (complexity t).

Definition set_router (sw : Swarm jv) (r : FinOpsRouter) : Swarm jv :=
  mkSwarm (gateway_url sw) r (simulation_mode sw) (history sw).

(** [connected] is whether the WebSocket connection to a URL succeeds. *)
Definition run_task (connected : str -> bool) (sw : Swarm jv) (t : SwarmTask) :
    option (Swarm jv * SwarmTask) :=
  let '(provider, r) := select_provider (sw_router sw) (complexity t) (lit "balanced") in
  let sw := set_router sw r in
  if simulation_mode sw then
    let t := finish_task t (lit "completed") (lit "Simulated result from " ++ t_agent_id t) in
    let sw := set_router sw (track_usage (sw_router sw) provider 500) in
    Some (record_task sw t provider, t)
  else
    url ← derive_ws_url (gateway_url sw);
    if negb (connected url) then
      let t := finish_task t (lit "failed") (lit "WebSocket connection failed to " ++ url) in
      Some (record_task sw t provider, t)
    else
      let t := finish_task t (lit "completed")
                 ("{"%char :: "034"%char :: lit "status" ++ "034"%char :: lit ": " ++
                  "034"%char :: lit "accepted" ++ ["034"%char; "}"%char]) in
      let sw := set_router sw (track_usage (sw_router sw) provider 500) in
      Some (record_task sw t provider, t).

(** A delegate entry of a phase; [rid] is its generated run id. *)
Definition make_task (goal : str) (d : jv) (rid : str) : option SwarmTask :=
  tmpl ← value get_string d "task_template" [];
  content ← expand_template goal tmpl;
  agent ← value get_string d "agent" [];
  Some (mkSwarmTask agent content (lit "pending") None rid (lit "medium")).

Fixpoint run_tasks (connected : str -> bool) (sw : Swarm jv) (ts : list SwarmTask) :
    option (Swarm jv) :=
  match ts with
  | [] => Some sw
  | t :: ts => '(sw, _) ← run_task connected sw t; run_tasks connected sw ts
  end.

(** [rid i] is the run id generated for the [i]-th delegate. *)
Fixpoint make_tasks (goal : str) (ds : list jv) (rid : nat -> str) (i : nat) :
    option (list SwarmTask) :=
  match ds with
  | d :: ds => t ← make_task goal d (rid i); ts ← make_tasks goal ds rid (S i); Some (t :: ts)
  | [] => Some []
  end.

(** [execute_phase]: all tasks are built before the first one runs. *)
Definition execute_phase (connected : str -> bool) (goal : str) (phase : jv) (rid : nat -> str)
    (sw : Swarm jv) : option (Swarm jv) :=
  _ ← value get_string phase "mode" (lit "sequential");
  delegates ← value Some phase "delegates" (jarr []);
  ts ← make_tasks goal (items delegates) rid 0;
  run_tasks connected sw ts.

(** [rid i j] is the run id of the [j]-th delegate of phase [i]. *)
Fixpoint execute_phases (connected : str -> bool) (goal : str) (phases : list jv)
    (rid : nat -> nat -> str) (i : nat) (sw : Swarm jv) : option (Swarm jv) :=
  match phases with
  | p :: phases =>
      sw ← execute_phase connected goal p (rid i) sw;
      execute_phases connected goal phases rid (S i) sw
  | [] => Some sw
  end.

Definition execute_playbook (connected : str -> bool) (goal : str) (playbook : jv)
    (rid : nat -> nat -> str) (sw : Swarm jv) : option (Swarm jv * list jv) :=
  phases ← value Some playbook "phases" (jarr []);
  sw ← execute_phases connected goal (items phases) rid 0 sw;
  Some (sw, history sw).
End swarm.

(** ** Supervision: properties *)

(** A turn of the supervisor sets the limit to 10 while the breaker is open
    and to at least 100 when it is not.  It never touches the sessions: a
    lower limit shrinks the table only when the next session is added. *)
Theorem supervise_spec cb now r :
  session_order (supervise cb now r) = session_order r /\
  session_usage (supervise cb now r) = session_usage r /\
  session_limit (supervise cb now r) =
    (if is_open cb now then 10 else Nat.max 100 (session_limit r))%nat.
Proof.
  unfold supervise. destruct (is_open cb now); [done|].
  destruct (session_limit r <? 100)%nat eqn:E; [apply Nat.ltb_lt in E|apply Nat.ltb_ge in E];
    cbn [session_order session_usage session_limit set_session_limit]; repeat split; lia.
Qed.

(** ** Templates *)

(** Every leftmost occurrence of the placeholder is replaced by the goal, and
    the goal is not looked at again. *)
Inductive expands (goal : str) : str -> str -> Prop :=
| ex_none s : contains_sub placeholder s = false -> expands goal s s
| ex_some a b b' :
    find_sub placeholder (a ++ placeholder ++ b) = Some (length a) -> expands goal b b' ->
    expands goal (a ++ placeholder ++ b) (a ++ goal ++ b').

Lemma find_sub_split p s k : find_sub p s = Some k -> exists a b, s = a ++ p ++ b /\ length a = k.
Proof.
  revert k. induction s as [|c s IH]; intros k; cbn [find_sub].
  - destruct (starts_with p []) eqn:E; [|done]. intros [= <-].
    apply starts_with_spec in E as [t ->]. by exists [], t.
  - destruct (starts_with p (c :: s)) eqn:E.
    + intros [= <-]. apply starts_with_spec in E as [t ->]. by exists [], t.
    + destruct (find_sub p s) as [j|]; [|done]. intros [= <-].
      destruct (IH j eq_refl) as (a & b & -> & <-). by exists (c :: a), b.
Qed.

Lemma expand_loop_spec goal fuel pre rest :
  (length rest < fuel)%nat ->
  exists r, expand_loop fuel goal (pre ++ rest) (length pre) = Some (pre ++ r) /\ expands goal rest r.
Proof.
  revert pre rest. induction fuel as [|fuel IH]; intros pre rest Hf; [lia|].
  cbn [expand_loop]. rewrite drop_app_length.
  destruct (find_sub placeholder rest) as [k|] eqn:Hk.
  - destruct (find_sub_split _ _ _ Hk) as (a & b & -> & <-).
    assert (take (length pre + length a) (pre ++ a ++ placeholder ++ b) = pre ++ a) as E1.
    { rewrite app_assoc, <-length_app. apply take_app_length. }
    assert (drop (length pre + length a + 7) (pre ++ a ++ placeholder ++ b) = b) as E2.
    { rewrite !app_assoc. change 7%nat with (length placeholder). rewrite <-!length_app.
      apply drop_app_length. }
    rewrite E1, E2. destruct (IH ((pre ++ a) ++ goal) b) as (r & Hr & He).
    { rewrite !length_app in Hf. cbn in Hf. lia. }
    exists (a ++ goal ++ r). split; [|by apply ex_some].
    rewrite !length_app in Hr. rewrite <-!app_assoc in *. exact Hr.
  - exists rest. split; [done|]. apply ex_none. unfold contains_sub. by rewrite Hk.
Qed.

(** The loop ends for every template, also when the goal itself contains the
    placeholder, and replaces each of the template's placeholders. *)
Theorem expand_template_spec goal content :
  exists r, expand_template goal content = Some r /\ expands goal content r.
Proof. apply (expand_loop_spec goal (S (length content)) [] content). lia. Qed.

(** ** Playbooks *)

Section playbook.
Context `{Json, !JsonOk}.

(** A delegate of a playbook. *)
Definition delegate_json (d : str * str) : jv :=
  object [(lit "agent", jstr d.1); (lit "task_template", jstr d.2)].
Definition phase_json (ds : list (str * str)) : jv :=
  object [(lit "delegates", jarr (delegate_json <$> ds))].
Definition playbook_json (phases : list (list (str * str))) : jv :=
  object [(lit "phases", jarr (phase_json <$> phases))].

Definition simulated (goal : str) (d : str * str) (task provider : str) : jv :=
  object [(lit "agent", jstr d.1); (lit "provider", jstr provider); (lit "task", jstr task);
          (lit "result", jstr (lit "Simulated result from " ++ d.1))].

(** What the history of a simulated run says of a delegate. *)
Definition logged (goal : str) (d : str * str) (entry : jv) : Prop :=
  exists task provider, expands goal d.2 task /\ entry = simulated goal d task provider.

Lemma make_task_json goal d rid :
  exists task, expands goal d.2 task /\
    make_task goal (delegate_json d) rid
    = Some (mkSwarmTask d.1 task (lit "pending") None rid (lit "medium")).
Proof.
  destruct (expand_template_spec goal d.2) as (r & Hr & He). exists r. split; [done|].
  unfold make_task, delegate_json. read_fields. rewrite Hr. by read_fields.
Qed.

Lemma run_task_simulated connected sw t :
  simulation_mode sw = true ->
  exists sw' t' provider, run_task connected sw t = Some (sw', t') /\ simulation_mode sw' = true /\
    t_status t' = lit "completed" /\
    history sw' = history sw ++
      [object [(lit "agent", jstr (t_agent_id t)); (lit "provider", jstr provider);
               (lit "task", jstr (task_template t));
               (lit "result", jstr (lit "Simulated result from " ++ t_agent_id t))]].
Proof.
  intros Hs. unfold run_task.
  destruct (select_provider (sw_router sw) (complexity t) (lit "balanced")) as [provider r].
  cbn [simulation_mode set_router]. rewrite Hs. by eexists _, _, provider.
Qed.

Lemma run_phase_simulated connected goal ds rid i sw :
  simulation_mode sw = true ->
  exists ts sw' entries, make_tasks goal (delegate_json <$> ds) rid i = Some ts /\
    run_tasks connected sw ts = Some sw' /\ simulation_mode sw' = true /\
    history sw' = history sw ++ entries /\ Forall2 (logged goal) ds entries.
Proof.
  revert i sw. induction ds as [|d ds IH]; intros i sw Hs.
  { exists [], sw, []. cbn. rewrite app_nil_r. by repeat split. }
  rewrite fmap_cons. cbn [make_tasks]. destruct (make_task_json goal d (rid i)) as (task & He & ->).
  cbn [mbind option_bind].
  destruct (run_task_simulated connected sw
    (mkSwarmTask d.1 task (lit "pending") None (rid i) (lit "medium")) Hs)
    as (sw1 & t' & provider & Hrun & Hs1 & _ & Hh).
  destruct (IH (S i) sw1 Hs1) as (ts & sw' & entries & -> & Hts & Hs' & Hh' & Hl).
  cbn [mbind option_bind]. eexists _, sw', (_ :: entries). split; [done|].
  cbn [run_tasks]. rewrite Hrun. cbn [mbind option_bind]. split; [done|]. split; [done|].
  split; [rewrite Hh', Hh, <-app_assoc; done|]. constructor; [|done]. by exists task, provider.
Qed.

Lemma execute_phase_json connected goal ds rid sw :
  execute_phase connected goal (phase_json ds) rid sw
  = (ts ← make_tasks goal (delegate_json <$> ds) rid 0; run_tasks connected sw ts).
Proof. unfold execute_phase, phase_json. by read_fields. Qed.

(** Against a local gateway a playbook runs to its end: its history lists
    every delegate once, phase by phase in the order of the document, with its
    template expanded. *)
Theorem execute_playbook_simulated connected goal phases rid sw :
  simulation_mode sw = true ->
  exists sw' entries, execute_playbook connected goal (playbook_json phases) rid sw
    = Some (sw', history sw ++ entries) /\ Forall2 (logged goal) (concat phases) entries.
Proof.
  intros Hs. unfold execute_playbook, playbook_json. read_fields.
  cut (forall i sw, simulation_mode sw = true -> exists sw' entries,
    execute_phases connected goal (phase_json <$> phases) rid i sw = Some sw' /\
    history sw' = history sw ++ entries /\ Forall2 (logged goal) (concat phases) entries).
  { intros Hgen. destruct (Hgen 0%nat sw Hs) as (sw' & entries & -> & Hh & Hl).
    exists sw', entries. cbn. by rewrite Hh. }
  clear sw Hs. induction phases as [|ds phases IH]; intros i sw Hs.
  { exists sw, []. cbn. by rewrite app_nil_r. }
  rewrite fmap_cons. cbn [execute_phases]. rewrite execute_phase_json.
  destruct (run_phase_simulated connected goal ds (rid i) 0 sw Hs)
    as (ts & sw1 & e1 & -> & Hrun & Hs1 & Hh1 & Hl1). cbn [mbind option_bind]. rewrite Hrun.
  destruct (IH (S i) sw1 Hs1) as (sw' & e2 & Hx & Hh2 & Hl2). cbn [mbind option_bind].
  exists sw', (e1 ++ e2). split; [exact Hx|]. split; [by rewrite Hh2, Hh1, app_assoc|].
  cbn [concat]. by apply Forall2_app.
Qed.
End playbook.

(** ** Gateway URLs *)

(** A gateway URL with a port maps to the WebSocket URL with the next port;
    a path after the port is dropped. *)
Lemma derive_ws_url_examples :
  derive_ws_url (lit "http://10.0.0.1:8080") = Some (lit "ws://10.0.0.1:8081") /\
  derive_ws_url (lit "https://gw.example.org:443/api") = Some (lit "wss://gw.example.org:444") /\
  derive_ws_url (lit "https://gw.example.org") = Some (lit "wss://gw.example.org") /\
  derive_ws_url (lit "h:2147483647") = None.
Proof. by vm_compute. Qed.

(** ** Examples *)

Lemma execute_playbook_simulated_witness :
  exists sw' entries,
    @execute_playbook SampleJson.json (fun _ => false) (lit "g")
      (@playbook_json SampleJson.json [[(lit "a", lit "do ${goal}")]; []]) (fun _ _ => lit "run_0")
      (@new_swarm SampleJson.json (lit "http://localhost:1") (d_of_Z 10))
    = Some (sw', [] ++ entries) /\
    Forall2 (@logged SampleJson.json (lit "g")) [(lit "a", lit "do ${goal}")] entries.
Proof.
  apply (@execute_playbook_simulated SampleJson.json SampleJson.json_ok (fun _ => false) (lit "g")
    [[(lit "a", lit "do ${goal}")]; []] (fun _ _ => lit "run_0")
    (@new_swarm SampleJson.json (lit "http://localhost:1") (d_of_Z 10))).
  by vm_compute.
Defined.
