(* ===== verification/SecurityPolicy.v ===== *)
(** * Security policies and governance: [libs/security]

    [policy.cpp] (the policy record, its JSON form and the merging of
    overrides) and [governance.cpp] (session audits and the authorization of
    actions).  Patterns for personal data are supplied at run time, so their
    matching is a parameter: [regex_all pattern text] lists the matches,
    [None] for a pattern that is not a regular expression.  [None] results are
    exceptions. *)

From Stdlib Require Import ZArith Ascii String Lia.
From stdpp Require Import base list gmap strings.
From S2P Require Import Prelude CxxString Lines Doubles Json.

(** ** Policies *)

Record SecurityPolicy : Type := mkSecurityPolicy {
  auth_mode : str; require_https : bool; require_mfa_for_elevated : bool; allow_query_token : bool;
  require_pii_filtering : bool; require_audit_trail : bool;
  require_human_oversight_for_critical : bool; require_data_minimization : bool;
  require_transparency_log : bool; allowed_scopes : list str;
}.

Definition base_policy : SecurityPolicy :=
  mkSecurityPolicy (lit "token") false true false true true true false false [].

Section policy.
Context `{Json}.

Definition security_policy_to_json (p : SecurityPolicy) : jv :=
  object [(lit "auth_mode", jstr (auth_mode p)); (lit "require_https", jbool (require_https p));
    (lit "require_mfa_for_elevated", jbool (require_mfa_for_elevated p));
    (lit "allow_query_token", jbool (allow_query_token p));
    (lit "require_pii_filtering", jbool (require_pii_filtering p));
    (lit "require_audit_trail", jbool (require_audit_trail p));
    (lit "require_human_oversight_for_critical", jbool (require_human_oversight_for_critical p));
    (lit "require_data_minimization", jbool (require_data_minimization p));
    (lit "require_transparency_log", jbool (require_transparency_log p));
    (lit "allowed_scopes", jstrs (allowed_scopes p))].

(** [if (j.contains(k)) field = j[k].get<T>()] *)
Definition field {A} (get : jv -> option A) (j : jv) (k : string) (d : A) : option A :=
  if contains j k then at_get get j k else Some d.

Definition security_policy_from_json (j : jv) : option SecurityPolicy :=
  let b := base_policy in
  mode ← field get_string j "auth_mode" (auth_mode b);
  https ← field get_bool j "require_https" (require_https b);
  mfa ← field get_bool j "require_mfa_for_elevated" (require_mfa_for_elevated b);
  query ← field get_bool j "allow_query_token" (allow_query_token b);
  pii ← field get_bool j "require_pii_filtering" (require_pii_filtering b);
  trail ← field get_bool j "require_audit_trail" (require_audit_trail b);
  human ← field get_bool j "require_human_oversight_for_critical" (require_human_oversight_for_critical b);
  mini ← field get_bool j "require_data_minimization" (require_data_minimization b);
  transp ← field get_bool j "require_transparency_log" (require_transparency_log b);
  scopes ← field get_strings j "allowed_scopes" (allowed_scopes b);
  Some (mkSecurityPolicy mode https mfa query pii trail human mini transp scopes).

Definition kValidAuthModes : list string := ["token"; "password"; "none"].

(** [trim]: white space at both ends. *)
Definition trim_space (s : str) : str := rev (skip isspace (rev (skip isspace s))).

Definition validate_auth_mode (mode : str) : expected str str :=
  let normalized := lower (trim_space mode) in
  if existsb (fun v => bool_decide (normalized = lit v)) kValidAuthModes then Ok normalized
  else Unexpected (lit "Unsupported auth mode: " ++ mode).

(** [overrides.empty() || overrides.is_null()] *)
Definition is_empty_json (j : jv) : bool :=
  is_null j
  || match members j with Some m => bool_decide (m = ∅) | None => false end
  || (is_array j && bool_decide (length (items j) = 0%nat)).

Definition merge_policy (overrides : jv) : option (expected SecurityPolicy str) :=
  let b := base_policy in
  if is_empty_json overrides then Some (Ok b)
  else
    raw_mode ← value get_string overrides "auth_mode" (auth_mode b);
    match validate_auth_mode raw_mode with
    | Unexpected e => Some (Unexpected e)
    | Ok mode =>
        https ← value get_bool overrides "require_https" (require_https b);
        mfa ← value get_bool overrides "require_mfa_for_elevated" (require_mfa_for_elevated b);
        query ← value get_bool overrides "allow_query_token" (allow_query_token b);
        pii ← value get_bool overrides "require_pii_filtering" (require_pii_filtering b);
        trail ← value get_bool overrides "require_audit_trail" (require_audit_trail b);
        human ← value get_bool overrides "require_human_oversight_for_critical"
                  (require_human_oversight_for_critical b);
        mini ← value get_bool overrides "require_data_minimization" (require_data_minimization b);
        transp ← value get_bool overrides "require_transparency_log" (require_transparency_log b);
        scopes ← value get_strings overrides "allowed_scopes" (allowed_scopes b);
        Some (Ok (mkSecurityPolicy mode https mfa query pii trail human mini transp scopes))
    end.
End policy.

(** ** Governance *)

Inductive GovernanceCheck : Type :=
| PiiHandling | AuthorizationScope | AuditTrail | HumanOversight | DataMinimization | TransparencyLog.

Record GovernanceViolation : Type := mkViolation {
  check : GovernanceCheck; g_description : str; g_severity : str;
}.

Record GovernanceResult : Type := mkGovResult { compliant : bool; violations : list GovernanceViolation }.

Record GovernancePolicy : Type := mkGovPolicy {
  g_require_pii_filtering : bool; pii_patterns : list str; g_allowed_scopes : list str;
  g_require_audit_trail : bool; g_require_human_oversight : bool; g_require_data_minimization : bool;
}.

Section governance.
Context (regex_all : str -> str -> option (list str)).

(** All matches of all patterns, pattern by pattern. *)
Fixpoint detect_pii (text : str) (patterns : list str) : option (list str) :=
  match patterns with
  | [] => Some []
  | p :: patterns => ms ← regex_all p text; rest ← detect_pii text patterns; Some (ms ++ rest)
  end.

Definition violate (r : GovernanceResult) (v : GovernanceViolation) : GovernanceResult :=
  mkGovResult false (violations r ++ [v]).

Definition pii_violation (n : nat) : GovernanceViolation :=
  mkViolation PiiHandling
    (lit "PII detected in message: " ++ to_string_nat n ++ lit " pattern(s) matched") (lit "critical").

Fixpoint pii_loop (policy : GovernancePolicy) (messages : list str) (r : GovernanceResult) :
    option GovernanceResult :=
  match messages with
  | [] => Some r
  | msg :: messages =>
      found ← detect_pii msg (pii_patterns policy);
      pii_loop policy messages
        (if bool_decide (length found = 0%nat) then r else violate r (pii_violation (length found)))
  end.

Definition scope_violation (scope : str) : GovernanceViolation :=
  mkViolation AuthorizationScope (lit "Scope '" ++ scope ++ lit "' not in allowed list") (lit "high").
Definition trail_violation : GovernanceViolation :=
  mkViolation AuditTrail (lit "No audit trail: session has zero messages") (lit "medium").
Definition size_violation : GovernanceViolation :=
  mkViolation DataMinimization (lit "Message exceeds 100KB — data minimization violation") (lit "medium").

Definition audit_session (messages : list str) (policy : GovernancePolicy) (scope : str) :
    option GovernanceResult :=
  let r := mkGovResult true [] in
  r ← (if g_require_pii_filtering policy && negb (bool_decide (length (pii_patterns policy) = 0%nat))
       then pii_loop policy messages r else Some r);
  let r := if negb (bool_decide (scope = [])) && negb (bool_decide (length (g_allowed_scopes policy) = 0%nat))
           then if bool_decide (scope ∈ g_allowed_scopes policy) then r
                else violate r (scope_violation scope)
           else r in
  let r := if g_require_audit_trail policy && bool_decide (length messages = 0%nat)
           then violate r trail_violation else r in
  let r := if g_require_data_minimization policy
           then if existsb (fun m => (100000 <? Z.of_nat (length m))%Z) messages
                then violate r size_violation else r
           else r in
  Some r.
End governance.

Definition critical_actions : list string := ["delete"; "destroy"; "deploy"; "publish"; "transfer"].

Definition check_action_authorization (action agent_scope : str) (policy : GovernancePolicy) :
    expected unit GovernanceViolation :=
  if negb (bool_decide (length (g_allowed_scopes policy) = 0%nat))
     && negb (bool_decide (agent_scope ∈ g_allowed_scopes policy)) then
    Unexpected (mkViolation AuthorizationScope
      (lit "Agent scope '" ++ agent_scope ++ lit "' not authorized for action '" ++ action ++ lit "'")
      (lit "critical"))
  else if g_require_human_oversight policy
          && existsb (fun a => bool_decide (action = lit a)) critical_actions then
    Unexpected (mkViolation HumanOversight
      (lit "Action '" ++ action ++ lit "' requires human oversight") (lit "high"))
  else Ok tt.

(** ** Policies: properties *)

Section policy_properties.
Context `{Json, !JsonOk}.

Theorem security_policy_roundtrip p :
  security_policy_from_json (security_policy_to_json p) = Some p.
Proof.
  destruct p. unfold security_policy_from_json, security_policy_to_json, field.
  cbn [auth_mode require_https require_mfa_for_elevated allow_query_token require_pii_filtering
    require_audit_trail require_human_oversight_for_critical require_data_minimization
    require_transparency_log allowed_scopes]. by read_fields.
Qed.

Lemma policy_json_nonempty p : is_empty_json (security_policy_to_json p) = false.
Proof.
  unfold is_empty_json, security_policy_to_json, object. rewrite members_obj, array_obj, null_obj.
  rewrite bool_decide_false; [done|]. intros E. apply (f_equal (lookup (lit "auth_mode"))) in E.
  rewrite lookup_assoc, lookup_empty in E. by vm_compute in E.
Qed.

(** Merging the JSON form of a policy keeps every field and normalises the
    authentication mode, or refuses the mode. *)
Theorem merge_policy_full p :
  merge_policy (security_policy_to_json p) =
  Some (match validate_auth_mode (auth_mode p) with
        | Ok mode => Ok (mkSecurityPolicy mode (require_https p) (require_mfa_for_elevated p)
            (allow_query_token p) (require_pii_filtering p) (require_audit_trail p)
            (require_human_oversight_for_critical p) (require_data_minimization p)
            (require_transparency_log p) (allowed_scopes p))
        | Unexpected e => Unexpected e
        end).
Proof.
  unfold merge_policy. rewrite policy_json_nonempty. unfold security_policy_to_json.
  read_fields. by destruct (validate_auth_mode (auth_mode p)).
Qed.

(** Whatever is merged, the mode of the result is one of the three. *)
Lemma validate_auth_mode_cases mode m :
  validate_auth_mode mode = Ok m <->
  m = lower (trim_space mode) /\ exists v, v ∈ kValidAuthModes /\ m = lit v.
Proof.
  unfold validate_auth_mode.
  destruct (existsb _ _) eqn:E.
  - apply existsb_exists in E as (v & Hv & Hm%bool_decide_eq_true). apply list_elem_of_In in Hv.
    split; [intros [= <-]; eauto|by intros [-> _]].
  - split; [done|]. intros (-> & v & Hv & Hm). apply not_true_iff_false in E. destruct E.
    apply existsb_exists. exists v. split; [by apply list_elem_of_In|by apply bool_decide_eq_true].
Qed.

(** A merge that succeeds never widens beyond the overrides: a field is the
    override of that name, or the default. *)
Theorem merge_policy_sound j p :
  merge_policy j = Some (Ok p) ->
  p = base_policy \/
  ((exists mode, value get_string j "auth_mode" (auth_mode base_policy) = Some mode /\
      validate_auth_mode mode = Ok (auth_mode p)) /\
   value get_bool j "require_https" (require_https base_policy) = Some (require_https p) /\
   value get_bool j "require_mfa_for_elevated" (require_mfa_for_elevated base_policy)
     = Some (require_mfa_for_elevated p) /\
   value get_bool j "allow_query_token" (allow_query_token base_policy) = Some (allow_query_token p) /\
   value get_strings j "allowed_scopes" (allowed_scopes base_policy) = Some (allowed_scopes p)).
Proof.
  unfold merge_policy. destruct (is_empty_json j); [by intros [= <-]; left|]. intros Hm. right.
  apply bind_Some in Hm as (mode & Hmode & Hm).
  destruct (validate_auth_mode mode) as [m|e] eqn:Hv; [|done].
  repeat (apply bind_Some in Hm as (? & ? & Hm)). simplify_eq. cbn. eauto 10.
Qed.
End policy_properties.

(** ** Governance: properties *)

Section governance_properties.
Context (regex_all : str -> str -> option (list str)).

(** What an audit should report, check by check. *)
Definition pii_reports (policy : GovernancePolicy) (messages : list str) : list GovernanceViolation :=
  omap (fun msg => match detect_pii regex_all msg (pii_patterns policy) with
                   | Some ((_ :: _) as found) => Some (pii_violation (length found))
                   | _ => None end) messages.

Definition expected_violations (messages : list str) (policy : GovernancePolicy) (scope : str) :
    list GovernanceViolation :=
  (if g_require_pii_filtering policy then pii_reports policy messages else [])
  ++ (if decide (scope <> [] /\ g_allowed_scopes policy <> [] /\ ~ scope ∈ g_allowed_scopes policy)
      then [scope_violation scope] else [])
  ++ (if decide (g_require_audit_trail policy = true /\ messages = []) then [trail_violation] else [])
  ++ (if decide (g_require_data_minimization policy = true
                 /\ Exists (fun m => (100000 < Z.of_nat (length m))%Z) messages)
      then [size_violation] else []).

Definition patterns_compile (policy : GovernancePolicy) : Prop :=
  forall p text, p ∈ pii_patterns policy -> is_Some (regex_all p text).

Lemma detect_pii_total text patterns :
  (forall p, p ∈ patterns -> is_Some (regex_all p text)) -> is_Some (detect_pii regex_all text patterns).
Proof.
  induction patterns as [|p ps IH]; cbn; [eauto|]. intros Hall.
  destruct (Hall p) as [ms ->]; [left|]. destruct IH as [rest ->]; [intros q ?; apply Hall; by right|].
  cbn. eauto.
Qed.

(** A result with more violations; the flag stays in step with the list. *)
Definition extend (r : GovernanceResult) (vs : list GovernanceViolation) : GovernanceResult :=
  mkGovResult (compliant r && bool_decide (vs = [])) (violations r ++ vs).

Lemma extend_nil r : extend r [] = r.
Proof. destruct r. unfold extend. cbn. by rewrite andb_true_r, app_nil_r. Qed.

Lemma extend_app r vs ws : extend (extend r vs) ws = extend r (vs ++ ws).
Proof.
  unfold extend. cbn. rewrite <- app_assoc. f_equal. rewrite <- andb_assoc. f_equal.
  by destruct vs.
Qed.

Lemma violate_extend r v : violate r v = extend r [v].
Proof. unfold violate, extend. by rewrite bool_decide_false, andb_false_r. Qed.

Lemma violate_when (b : bool) P `{Decision P} r v :
  b = bool_decide P -> (if b then violate r v else r) = extend r (if decide P then [v] else []).
Proof.
  intros ->. rewrite violate_extend. destruct (decide P) as [HP|HP].
  - by rewrite bool_decide_true.
  - by rewrite bool_decide_false, extend_nil.
Qed.

Lemma pii_loop_exact policy messages r :
  patterns_compile policy ->
  pii_loop regex_all policy messages r = Some (extend r (pii_reports policy messages)).
Proof.
  intros Hc. revert r. induction messages as [|msg messages IH]; intros r; cbn [pii_loop].
  - by rewrite extend_nil.
  - destruct (detect_pii_total msg (pii_patterns policy)) as [found E]; [eauto|].
    unfold pii_reports. cbn [omap list_omap]. rewrite E. cbn [mbind option_bind]. rewrite IH.
    destruct found as [|f found]; [by rewrite bool_decide_true|].
    rewrite bool_decide_false by done. by rewrite violate_extend, extend_app.
Qed.

Lemma no_patterns_no_reports policy messages : pii_patterns policy = [] -> pii_reports policy messages = [].
Proof. intros E. unfold pii_reports. rewrite E. by induction messages. Qed.

Lemma length_zero {A} (l : list A) : bool_decide (length l = 0%nat) = bool_decide (l = []).
Proof. by destruct l. Qed.

(** When every pattern compiles, a session audit reports exactly the expected
    violations, in the order of the checks, and calls the session compliant
    exactly when there are none. *)
Lemma audit_session_exact messages policy scope :
  patterns_compile policy ->
  audit_session regex_all messages policy scope =
  let vs := expected_violations messages policy scope in
  Some (mkGovResult (bool_decide (vs = [])) vs).
Proof.
  intros Hc. unfold audit_session.
  assert (forall r, (if g_require_pii_filtering policy && negb (bool_decide (length (pii_patterns policy) = 0%nat))
       then pii_loop regex_all policy messages r else Some r) =
     Some (extend r (if g_require_pii_filtering policy then pii_reports policy messages else []))) as ->.
  { intros r. rewrite pii_loop_exact by done. destruct (g_require_pii_filtering policy); cbn.
    - rewrite length_zero. case_bool_decide as E; [|done]. by rewrite no_patterns_no_reports, extend_nil.
    - by rewrite extend_nil. }
  cbn [mbind option_bind].
  set (r0 := extend _ _). rewrite !length_zero.
  set (r1 := if negb _ && _ then _ else _).
  assert (r1 = extend r0 (if decide (scope <> [] /\ g_allowed_scopes policy <> []
      /\ ~ scope ∈ g_allowed_scopes policy) then [scope_violation scope] else [])) as ->.
  { unfold r1. rewrite violate_extend. destruct (decide _) as [(? & ? & ?)|Hn].
    - by rewrite !bool_decide_false.
    - rewrite extend_nil. repeat case_bool_decide; cbn; try done. by destruct Hn. }
  rewrite (violate_when (g_require_audit_trail policy && bool_decide (messages = []))
    (g_require_audit_trail policy = true /\ messages = [])).
  2: { apply eq_bool_prop_intro. by rewrite bool_decide_spec, andb_True, bool_decide_spec, Is_true_true. }
  set (r2 := extend (extend _ _) _).
  assert (forall b c : bool, (if b then if c then violate r2 size_violation else r2 else r2) =
    if b && c then violate r2 size_violation else r2) as -> by (by intros [] []).
  rewrite (violate_when _ (g_require_data_minimization policy = true
                 /\ Exists (fun m => (100000 < Z.of_nat (length m))%Z) messages)).
  2: { apply eq_bool_prop_intro. rewrite bool_decide_spec, andb_True, !Is_true_true, existsb_exists, Exists_exists.
    setoid_rewrite list_elem_of_In. setoid_rewrite Z.ltb_lt. done. }
  unfold r2, r0. by rewrite !extend_app.
Qed.
End governance_properties.

(** An action is authorized exactly when the scope is allowed and the action
    needs no human; a scope outside the list is reported first. *)
Theorem check_action_authorization_spec action scope policy :
  let scope_ok := g_allowed_scopes policy = [] \/ scope ∈ g_allowed_scopes policy in
  let critical := g_require_human_oversight policy = true /\ action ∈ map lit critical_actions in
  match check_action_authorization action scope policy with
  | Ok _ => scope_ok /\ ~ critical
  | Unexpected v =>
      (check v = AuthorizationScope /\ g_severity v = lit "critical" /\ ~ scope_ok) \/
      (check v = HumanOversight /\ g_severity v = lit "high" /\ scope_ok /\ critical)
  end.
Proof.
  intros scope_ok critical. unfold check_action_authorization. rewrite length_zero.
  destruct (negb (bool_decide (g_allowed_scopes policy = [])) && _) eqn:E1.
  { apply andb_true_iff in E1 as [E1%negb_true_iff%bool_decide_eq_false
      E2%negb_true_iff%bool_decide_eq_false]. left. unfold scope_ok. cbn. naive_solver. }
  assert scope_ok as Hs.
  { unfold scope_ok. apply andb_false_iff in E1 as [E|E]; apply negb_false_iff, bool_decide_eq_true in E; auto. }
  assert (existsb (fun a => bool_decide (action = lit a)) critical_actions = true <->
    action ∈ map lit critical_actions) as Hc.
  { rewrite existsb_exists, list_elem_of_In, in_map_iff. setoid_rewrite bool_decide_eq_true.
    split; intros (a & ? & ?); eauto. }
  destruct (g_require_human_oversight policy && _) eqn:E2.
  - apply andb_true_iff in E2 as [? ?%Hc]. right. cbn. unfold critical. auto.
  - split; [done|]. intros [Hh Ha%Hc]. by rewrite Hh, Ha in E2.
Qed.

(** ** Witnesses *)

Definition sample_gov : GovernancePolicy :=
  mkGovPolicy true [lit "ssn"] [lit "read"] true true true.
(** A matcher that finds the pattern itself at the head of the text. *)
Definition sample_regex (p text : str) : option (list str) :=
  Some (if starts_with p text then [p] else []).

Lemma audit_session_exact_witness :
  patterns_compile sample_regex sample_gov /\
  audit_session sample_regex [lit "ssn 1"; lit "hello"] sample_gov (lit "write") =
  Some (mkGovResult false [pii_violation 1; scope_violation (lit "write")]).
Proof.
  assert (patterns_compile sample_regex sample_gov) as Hc by (intros p text _; by eexists).
  split; [done|]. rewrite (audit_session_exact sample_regex _ _ _ Hc). by vm_compute.
Defined.

Lemma merge_policy_sound_witness :
  exists j p, @merge_policy SampleJson.json j = Some (Ok p) /\ auth_mode p = lit "password".
Proof.
  set (j := @object SampleJson.json [(lit "auth_mode", @jstr SampleJson.json (lit " Password "))]).
  destruct (@merge_policy SampleJson.json j) as [[p|]|] eqn:E; try by vm_compute in E.
  exists j, p. split; [done|].
  destruct (@merge_policy_sound SampleJson.json j p E) as [->|((mode & Hm & Hv) & _)].
  - by vm_compute in E.
  - vm_compute in Hm. injection Hm as <-. destruct p; vm_compute in Hv. by injection Hv as <-.
Defined.

Lemma merge_policy_full_witness :
  exists j, @JsonOk SampleJson.json /\ @merge_policy SampleJson.json j = Some (Ok base_policy).
Proof.
  exists (@security_policy_to_json SampleJson.json base_policy). split; [apply SampleJson.json_ok|].
  by rewrite (@merge_policy_full SampleJson.json SampleJson.json_ok).
Defined.

Lemma security_policy_roundtrip_witness :
  @security_policy_from_json SampleJson.json (@security_policy_to_json SampleJson.json base_policy)
  = Some base_policy.
Proof. apply (@security_policy_roundtrip SampleJson.json SampleJson.json_ok). Defined.
