(* ===== verification/Sessions.v ===== *)
(** * Session stores: [libs/runtime/src/session_store.cpp]

    Snapshots of conversations, their JSON form, and the two stores behind the
    interface [ISessionStore]: a map in memory and one file per branch.  The
    interface is the class [SessionStore]; [SessionStoreOk] is what it promises
    to its clients, that the store behaves as a map from session and branch to
    the snapshot last saved there, and both stores are instances.

    The MessagePack writer and reader belong to the JSON library; they are
    parameters that invert each other.  The file system is a map from paths to
    contents.  A path names one file as long as the names put into it are
    plain: [session_named] and [branch_named] say which are. *)

From Stdlib Require Import ZArith Ascii String Lia.
From stdpp Require Import base list gmap strings.
From S2P Require Import Prelude CxxString Doubles Json JsonText Paths.

(** ** Data *)

Inductive Role : Type := User | Assistant | System.
#[export] Instance Role_eq_dec : EqDecision Role.
Proof. solve_decision. Defined.

Record SessionMessage : Type := mkMessage {
  role : Role; content : str; m_agent_id : str; m_model : str; m_timestamp : str;
  duration_ms : double; decision_trace_hash : str;
}.

Record SessionSnapshot : Type := mkSnapshot {
  s_session_id : str; s_branch_id : str; s_agent_id : str; s_messages : list SessionMessage;
}.

Definition set_messages (s : SessionSnapshot) (ms : list SessionMessage) : SessionSnapshot :=
  mkSnapshot (s_session_id s) (s_branch_id s) (s_agent_id s) ms.

Definition role_to_string (r : Role) : str :=
  match r with User => lit "user" | Assistant => lit "assistant" | System => lit "system" end.

Definition role_from_string (s : str) : Role :=
  if bool_decide (s = lit "assistant") then Assistant
  else if bool_decide (s = lit "system") then System
  else User.

(** [erase(begin, begin + (size - n))] when there are more than [n]. *)
Definition keep_last {A} (n : nat) (l : list A) : list A :=
  if (n <? length l)%nat then drop (length l - n) l else l.

Section json.
Context `{Json}.

Definition message_to_json (m : SessionMessage) : jv :=
  object [(lit "role", jstr (role_to_string (role m))); (lit "content", jstr (content m));
    (lit "agent_id", jstr (m_agent_id m)); (lit "model", jstr (m_model m));
    (lit "timestamp", jstr (m_timestamp m)); (lit "duration_ms", jdouble (duration_ms m));
    (lit "decision_trace_hash", jstr (decision_trace_hash m))].

Definition snapshot_to_json (s : SessionSnapshot) : jv :=
  object [(lit "session_id", jstr (s_session_id s)); (lit "branch_id", jstr (s_branch_id s));
    (lit "agent_id", jstr (s_agent_id s)); (lit "messages", jarr (message_to_json <$> s_messages s))].

Definition message_from_json (j : jv) : option SessionMessage :=
  r ← value get_string j "role" (lit "user");
  c ← value get_string j "content" [];
  a ← value get_string j "agent_id" [];
  m ← value get_string j "model" [];
  t ← value get_string j "timestamp" [];
  d ← value get_double j "duration_ms" d_zero;
  h ← value get_string j "decision_trace_hash" [];
  Some (mkMessage (role_from_string r) c a m t d h).

Definition snapshot_from_json (j : jv) (session_id branch : str) : option SessionSnapshot :=
  s ← value get_string j "session_id" session_id;
  b ← value get_string j "branch_id" branch;
  a ← value get_string j "agent_id" [];
  ms ← value Some j "messages" (jarr []);
  messages ← mapM message_from_json (items ms);
  Some (mkSnapshot s b a messages).
End json.

(** ** The interface *)

Class SessionStore (St : Type) : Type := {
  save : St -> SessionSnapshot -> St * expected unit str;
  load : St -> str -> str -> expected SessionSnapshot str;
  list_branches : St -> str -> list str;
}.

Section derived.
Context {St : Type} `{SessionStore St}.

(** [compact] and [stream_episodes] have the same body in both stores. *)
Definition compact (st : St) (session_id : str) (keep_last_n : nat) : St * expected unit str :=
  match load st session_id (lit "main") with
  | Unexpected e => (st, Unexpected e)
  | Ok snap => save st (set_messages snap (keep_last keep_last_n (s_messages snap)))
  end.

Definition stream_episodes (st : St) (session_id branch : str) : list SessionMessage :=
  match load st session_id branch with Ok snap => s_messages snap | Unexpected _ => [] end.
End derived.

Definition session_named (s : str) : Prop := plain_name s /\ s <> lit "." /\ s <> lit "..".
Definition branch_named (s : str) : Prop := plain_name s.

#[export] Instance session_named_dec s : Decision (session_named s).
Proof. unfold session_named. apply _. Defined.
#[export] Instance branch_named_dec s : Decision (branch_named s).
Proof. unfold branch_named. apply _. Defined.

(** The abstract store: the snapshot last saved for a session and branch. *)
Abbreviation snapshots := (gmap (str * str) SessionSnapshot).
Definition key (s : SessionSnapshot) : str * str := (s_session_id s, s_branch_id s).
Definition named (s : SessionSnapshot) : Prop := session_named (s_session_id s) /\ branch_named (s_branch_id s).

(** Snapshots are filed under their own names. *)
Definition keyed (m : snapshots) : Prop := map_Forall (fun k s => k = key s /\ named s) m.

Class SessionStoreOk (St : Type) `{SessionStore St} : Type := {
  represents : St -> snapshots -> Prop;
  represents_keyed st m : represents st m -> keyed m;
  represents_load st m sid br : represents st m -> session_named sid -> branch_named br ->
    match m !! (sid, br) with
    | Some s => load st sid br = Ok s
    | None => exists e, load st sid br = Unexpected e
    end;
  represents_save st m s : represents st m -> named s ->
    exists st', save st s = (st', Ok tt) /\ represents st' (<[key s := s]> m);
  represents_list st m sid : represents st m -> session_named sid ->
    NoDup (list_branches st sid) /\
    forall br, br ∈ list_branches st sid <-> is_Some (m !! (sid, br));
}.

(** ** The store in memory *)

Abbreviation MemorySessionStore := (gmap str (gmap str SessionSnapshot)).

Definition memory_save (st : MemorySessionStore) (s : SessionSnapshot) :
    MemorySessionStore * expected unit str :=
  (<[s_session_id s := <[s_branch_id s := s]> (default ∅ (st !! s_session_id s))]> st, Ok tt).

Definition memory_load (st : MemorySessionStore) (session_id branch : str) :
    expected SessionSnapshot str :=
  match st !! session_id with
  | Some branches =>
      match branches !! branch with
      | Some s => Ok s
      | None => Unexpected (lit "Session not found in memory")
      end
  | None => Unexpected (lit "Session not found in memory")
  end.

(** The keys of a [std::map]; their order is not used. *)
Definition memory_list_branches (st : MemorySessionStore) (session_id : str) : list str :=
  match st !! session_id with Some branches => fst <$> map_to_list branches | None => [] end.

#[export] Instance memory_store : SessionStore MemorySessionStore :=
  { save := memory_save; load := memory_load; list_branches := memory_list_branches }.

(** ** The store in files *)

(** How writing a file ends: the directory or the file cannot be created, or
    a number of bytes arrives. *)
Inductive SaveIo : Type := DirectoryFails | OpenFails | Written (n : nat).

Section file_store.
Context `{MsgPack}.

Abbreviation files := (gmap path str).
Context (base_dir : path).

Definition session_dir (session_id : str) : path := path_append base_dir session_id.
Definition branch_file (session_id branch : str) : path :=
  path_append (session_dir session_id) (branch ++ lit ".msgp").

(** The stream is truncated when it opens, and what [write] does is not
    looked at.  [None] is an exception of [create_directories]. *)
Definition file_save (fs : files) (s : SessionSnapshot) (io : SaveIo) :
    option (files * expected unit str) :=
  match io with
  | DirectoryFails => None
  | OpenFails => Some (fs, Unexpected (lit "Failed to open path for binary write"))
  | Written n =>
      let packed := to_msgpack (snapshot_to_json s) in
      Some (<[branch_file (s_session_id s) (s_branch_id s) := take n packed]> fs, Ok tt)
  end.

(** A file is read through a mapping or, where that fails, a stream; both see
    its bytes.  [readable] is whether either opens. *)
Definition file_load (fs : files) (readable : bool) (session_id branch : str) :
    expected SessionSnapshot str :=
  match fs !! branch_file session_id branch with
  | None => Unexpected (lit "Session not found")
  | Some data =>
      if negb readable then Unexpected (lit "Failed to open binary stream")
      else
        match (j ← from_msgpack data; snapshot_from_json j session_id branch) with
        | Some s => Ok s
        | None => Unexpected (lit "MessagePack decoding failed")
        end
  end.

(** The files directly in a directory, in the order its iterator gives. *)
Context (entries : files -> path -> list path).
Definition file_list_branches (fs : files) (session_id : str) : list str :=
  path_stem <$> List.filter (fun p => bool_decide (path_extension p = lit ".msgp"))
                  (entries fs (session_dir session_id)).

(** The store on a file system that works. *)
Definition file_store : SessionStore files := {|
  save fs s := match file_save fs s (Written (length (to_msgpack (snapshot_to_json s)))) with
               | Some r => r | None => (fs, Ok tt) end;
  load fs := file_load fs true;
  list_branches := file_list_branches |}.
End file_store.

(** ** Properties of the data *)

Section json_properties.
Context `{Json, !JsonOk}.

Lemma role_roundtrip r : role_from_string (role_to_string r) = r.
Proof. by destruct r. Qed.

Lemma session_message_roundtrip m : message_from_json (message_to_json m) = Some m.
Proof.
  destruct m. unfold message_from_json, message_to_json. read_fields.
  cbn [role content m_agent_id m_model m_timestamp duration_ms decision_trace_hash].
  by rewrite role_roundtrip.
Qed.

Lemma snapshot_roundtrip s sid br : snapshot_from_json (snapshot_to_json s) sid br = Some s.
Proof.
  destruct s. unfold snapshot_from_json, snapshot_to_json. read_fields.
  cbn [s_session_id s_branch_id s_agent_id s_messages].
  by rewrite (mapM_roundtrip message_to_json) by (intros; apply session_message_roundtrip).
Qed.
End json_properties.

Lemma keep_last_suffix {A} n (l : list A) :
  exists p, l = p ++ keep_last n l /\ length (keep_last n l) = Nat.min n (length l).
Proof.
  unfold keep_last. destruct (n <? length l)%nat eqn:E; bool_to_prop.
  - exists (take (length l - n) l). rewrite take_drop, length_drop. split; [done|lia].
  - exists []. split; [done|]. simpl. lia.
Qed.

Lemma keep_last_idemp {A} n (l : list A) : keep_last n (keep_last n l) = keep_last n l.
Proof.
  destruct (keep_last_suffix n l) as (p & _ & Hl). unfold keep_last at 1.
  by destruct (n <? length (keep_last n l))%nat eqn:E; [bool_to_prop; lia|].
Qed.

Lemma keyed_insert m s : keyed m -> named s -> keyed (<[key s := s]> m).
Proof. intros Hm Hs. by apply map_Forall_insert_2. Qed.

(** ** The stores keep the promise *)

Section memory_ok.
Definition memory_represents (st : MemorySessionStore) (m : snapshots) : Prop :=
  keyed m /\ forall sid br, m !! (sid, br) = (bs ← st !! sid; bs !! br).

Lemma memory_load_spec st m sid br : memory_represents st m ->
  match m !! (sid, br) with
  | Some s => memory_load st sid br = Ok s
  | None => exists e, memory_load st sid br = Unexpected e
  end.
Proof.
  intros [_ Hm]. rewrite Hm. unfold memory_load. destruct (st !! sid) as [bs|]; cbn; [|eauto].
  destruct (bs !! br); eauto.
Qed.

Lemma memory_save_spec st m s : memory_represents st m -> named s ->
  memory_represents (memory_save st s).1 (<[key s := s]> m).
Proof.
  intros [Hk Hm] Hs. split; [by apply keyed_insert|]. intros sid br. unfold key. cbn.
  destruct (decide (sid = s_session_id s)) as [->|Hne].
  - rewrite lookup_insert_eq. cbn. destruct (decide (br = s_branch_id s)) as [->|Hbr].
    + by rewrite !lookup_insert_eq.
    + rewrite lookup_insert_ne by congruence. rewrite lookup_insert_ne by done.
      rewrite Hm. by destruct (st !! s_session_id s).
  - rewrite lookup_insert_ne by congruence. by rewrite lookup_insert_ne, Hm by done.
Qed.

#[export] Program Instance memory_store_ok : SessionStoreOk MemorySessionStore :=
  {| represents := memory_represents |}.
Next Obligation. by intros st m []. Qed.
Next Obligation. intros st m sid br Hr _ _. by apply memory_load_spec. Qed.
Next Obligation. intros st m s Hr Hs. eexists. split; [done|]. by apply memory_save_spec. Qed.
Next Obligation.
  intros st m sid [Hk Hm] _. cbn. unfold memory_list_branches. setoid_rewrite Hm.
  destruct (st !! sid) as [bs|]; cbn.
  - split; [apply NoDup_fst_map_to_list|]. intros br. rewrite list_elem_of_fmap. split.
    + intros ([k s] & -> & Hin%elem_of_map_to_list). cbn. by rewrite Hin.
    + intros [s Hs]. exists (br, s). split; [done|]. by apply elem_of_map_to_list.
  - split; [constructor|]. intros br. rewrite elem_of_nil. split; [done|by intros [? ?]].
Qed.

Lemma memory_empty : memory_represents ∅ ∅.
Proof. split; [apply map_Forall_empty|]. intros. by rewrite !lookup_empty. Qed.
End memory_ok.

(** *** Paths of the file store *)

Lemma msgp_extension : extension_ok (lit ".msgp").
Proof. solve_extension. Qed.

Lemma session_dir_eq base sid : plain_name sid -> session_dir base sid = dir_root base ++ sid.
Proof. apply path_append_plain. Qed.

Lemma branch_file_eq base sid br : plain_name sid -> plain_name br ->
  branch_file base sid br = dir_root base ++ sid ++ "/"%char :: br ++ lit ".msgp".
Proof.
  intros Hs Hb. unfold branch_file. rewrite (session_dir_eq _ _ Hs).
  rewrite path_append_plain by (apply plain_app; [done|apply msgp_extension..]).
  by rewrite dir_root_plain, <- !app_assoc.
Qed.

Lemma branch_file_inj base sid br sid' br' :
  plain_name sid -> plain_name br -> plain_name sid' -> plain_name br' ->
  branch_file base sid br = branch_file base sid' br' -> sid = sid' /\ br = br'.
Proof.
  intros Hs Hb Hs' Hb'. rewrite !branch_file_eq by done. intros E%app_inv_head.
  assert (sid = sid') as <-.
  { destruct Hs as (_ & Hf & _), Hs' as (_ & Hf' & _). apply (f_equal (find_char "/")) in E as E'.
    rewrite !find_char_hit in E' by done. injection E' as El. by apply (app_inj_1 sid sid') in E as [? _]. }
  apply app_inv_head in E. injection E as E. by apply app_inv_tail in E.
Qed.

Section file_ok.
Context `{Json, !JsonOk, !MsgPack, !MsgPackOk} (base_dir : path) (entries : gmap path str -> path -> list path).
Context (Hentries : EntriesOk entries) (Hbase : free_of "000" base_dir).

Definition packed (s : SessionSnapshot) : str := to_msgpack (snapshot_to_json s).

Definition file_represents (fs : gmap path str) (m : snapshots) : Prop :=
  keyed m /\ (forall p, is_Some (fs !! p) -> free_of "000" p) /\
  forall sid br, session_named sid -> branch_named br ->
    fs !! branch_file base_dir sid br = packed <$> m !! (sid, br).

Lemma file_load_spec fs m sid br : file_represents fs m -> session_named sid -> branch_named br ->
  match m !! (sid, br) with
  | Some s => file_load base_dir fs true sid br = Ok s
  | None => exists e, file_load base_dir fs true sid br = Unexpected e
  end.
Proof.
  intros (_ & _ & Hfs) Hs Hb. unfold file_load. rewrite Hfs by done.
  destruct (m !! (sid, br)) as [s|]; cbn; [|eauto].
  unfold packed. rewrite from_to_msgpack. cbn. by rewrite snapshot_roundtrip.
Qed.

Lemma dir_root_nul : free_of "000" (dir_root base_dir).
Proof.
  unfold dir_root. case_match; [done|]. apply free_of_app. split; [done|].
  apply (bool_decide_unpack _). by vm_compute.
Qed.

Lemma file_save_spec fs m s : file_represents fs m -> named s ->
  file_represents (<[branch_file base_dir (s_session_id s) (s_branch_id s) := packed s]> fs)
    (<[key s := s]> m).
Proof.
  intros (Hk & Hz & Hfs) [Hs Hb]. split; [by apply keyed_insert|]. split.
  - intros p. destruct (decide (p = branch_file base_dir (s_session_id s) (s_branch_id s))) as [->|Hne].
    + intros _. destruct Hs as [Hs _]. rewrite branch_file_eq by done.
      change ("/"%char :: s_branch_id s ++ lit ".msgp") with (["/"%char] ++ s_branch_id s ++ lit ".msgp").
      rewrite !free_of_app. repeat split; [apply dir_root_nul|apply Hs| |apply Hb|];
        apply (bool_decide_unpack _); by vm_compute.
    + rewrite lookup_insert_ne by done. apply Hz.
  - intros sid br Hs' Hb'. unfold key.
    destruct (decide ((sid, br) = (s_session_id s, s_branch_id s))) as [[= -> ->]|Hne].
    + by rewrite !lookup_insert_eq.
    + rewrite (lookup_insert_ne m) by congruence. rewrite lookup_insert_ne; [by apply Hfs|].
      intros E. apply branch_file_inj in E as [? ?]; [congruence|apply Hs|apply Hb|apply Hs'|apply Hb'].
Qed.

Lemma session_dir_in sid br : plain_name sid -> plain_name br ->
  branch_file base_dir sid br = session_dir base_dir sid ++ "/"%char :: br ++ lit ".msgp".
Proof. intros Hs Hb. rewrite branch_file_eq, session_dir_eq by done. by rewrite <- app_assoc. Qed.

Lemma file_list_spec fs m sid : file_represents fs m -> session_named sid ->
  NoDup (file_list_branches base_dir entries fs sid) /\
  forall br, br ∈ file_list_branches base_dir entries fs sid <-> is_Some (m !! (sid, br)).
Proof.
  intros (Hk & Hz & Hfs) Hs. unfold file_list_branches. set (dir := session_dir base_dir sid).
  assert (forall p, p ∈ List.filter (fun p => bool_decide (path_extension p = lit ".msgp")) (entries fs dir) <->
    exists br, plain_name br /\ p = branch_file base_dir sid br /\ is_Some (fs !! p)) as Hin.
  { intros p. rewrite list_elem_of_In, filter_In, <- list_elem_of_In, entries_spec, bool_decide_eq_true. split.
    - intros ([Hp (f & -> & Hf)] & He).
      destruct (extension_name dir f _ msgp_extension Hf) as (br & Hb & ->); [|done|].
      { apply Hz in Hp. by apply free_of_app in Hp as [_ [_ ?]%not_elem_of_cons]. }
      exists br. split; [done|]. split; [|done]. symmetry. apply session_dir_in; [apply Hs|done].
    - intros (br & Hb & -> & Hp). rewrite (session_dir_in sid br (proj1 Hs) Hb) in *. fold dir in Hp |- *.
      destruct (extension_stem dir br _ Hb msgp_extension) as [He _]. split; [|done]. split; [done|].
      exists (br ++ lit ".msgp"). split; [done|]. apply free_of_app. split; [apply Hb|].
      apply (bool_decide_unpack _). by vm_compute. }
  assert (forall br, plain_name br -> path_stem (branch_file base_dir sid br) = br) as Hstem.
  { intros br Hb. rewrite (session_dir_in sid br (proj1 Hs) Hb). by apply extension_stem, msgp_extension. }
  split.
  - apply NoDup_fmap_2_strong.
    + intros p q (br & Hb & -> & _)%Hin (br' & Hb' & -> & _)%Hin. by rewrite !Hstem by done; intros ->.
    + apply NoDup_ListNoDup, List.NoDup_filter, NoDup_ListNoDup, entries_nodup.
  - intros br. rewrite list_elem_of_fmap. setoid_rewrite Hin. split.
    + intros (p & -> & br' & Hb & -> & Hp). rewrite Hstem by done. rewrite Hfs in Hp by done.
      by apply fmap_is_Some in Hp.
    + intros [s Hm]. assert (plain_name br) as Hb.
      { destruct (Hk _ _ Hm) as [[= _ ->] [_ ?]]. done. }
      exists (branch_file base_dir sid br). split; [by rewrite Hstem|]. exists br.
      rewrite Hfs by done. rewrite Hm. eauto.
Qed.

Definition file_store_ok : @SessionStoreOk _ (file_store base_dir entries).
Proof.
  refine {| represents := file_represents |}.
  - by intros fs m [].
  - intros. by apply file_load_spec.
  - intros fs m s Hr Hs. eexists. split; [reflexivity|]. rewrite firstn_all. by apply file_save_spec.
  - intros. by apply file_list_spec.
Defined.
End file_ok.

(** ** Stores as abstract maps *)

(** The calls of a client and what it sees of the answers: not the text of an
    error, nor the order of a listing. *)
Inductive StoreOp : Type :=
| OSave (s : SessionSnapshot)
| OLoad (session_id branch : str)
| OStream (session_id branch : str)
| OList (session_id : str)
| OCompact (session_id : str) (keep_last_n : nat).

Inductive Answer : Type :=
| ADone (ok : bool)
| ASnapshot (s : option SessionSnapshot)
| AMessages (ms : list SessionMessage)
| ABranches (bs : list str).

Definition to_option {A E} (r : expected A E) : option A :=
  match r with Ok a => Some a | Unexpected _ => None end.

Definition op_named (o : StoreOp) : Prop :=
  match o with
  | OSave s => named s
  | OLoad sid br | OStream sid br => session_named sid /\ branch_named br
  | OList sid | OCompact sid _ => session_named sid
  end.

Inductive same_answer : Answer -> Answer -> Prop :=
| same_eq a : same_answer a a
| same_branches bs bs' : bs ≡ₚ bs' -> same_answer (ABranches bs) (ABranches bs').

Definition run_op {St} `{SessionStore St} (st : St) (o : StoreOp) : St * Answer :=
  match o with
  | OSave s => let '(st, r) := save st s in (st, ADone (has_value r))
  | OLoad sid br => (st, ASnapshot (to_option (load st sid br)))
  | OStream sid br => (st, AMessages (stream_episodes st sid br))
  | OList sid => (st, ABranches (list_branches st sid))
  | OCompact sid n => let '(st, r) := compact st sid n in (st, ADone (has_value r))
  end.

Fixpoint run_ops {St} `{SessionStore St} (st : St) (os : list StoreOp) : list Answer :=
  match os with
  | [] => []
  | o :: os => let '(st, a) := run_op st o in a :: run_ops st os
  end.

(** What the abstract store does. *)
Definition spec_op (m : snapshots) (o : StoreOp) : snapshots :=
  match o with
  | OSave s => <[key s := s]> m
  | OCompact sid n =>
      match m !! (sid, lit "main") with
      | Some s => <[key s := set_messages s (keep_last n (s_messages s))]> m
      | None => m
      end
  | _ => m
  end.

Definition spec_answer (m : snapshots) (o : StoreOp) (a : Answer) : Prop :=
  match o, a with
  | OSave _, ADone ok => ok = true
  | OLoad sid br, ASnapshot r => r = m !! (sid, br)
  | OStream sid br, AMessages ms => ms = default [] (s_messages <$> m !! (sid, br))
  | OList sid, ABranches bs => NoDup bs /\ forall br, br ∈ bs <-> is_Some (m !! (sid, br))
  | OCompact sid _, ADone ok => ok = bool_decide (is_Some (m !! (sid, lit "main")))
  | _, _ => False
  end.

Lemma main_named : branch_named (lit "main").
Proof. apply (bool_decide_unpack _). by vm_compute. Qed.

Section refinement.
Context {St : Type} `{SessionStoreOk St}.

Lemma load_spec st m sid br : represents st m -> session_named sid -> branch_named br ->
  to_option (load st sid br) = m !! (sid, br).
Proof.
  intros Hr Hs Hb. pose proof (represents_load st m sid br Hr Hs Hb) as Hl.
  destruct (m !! (sid, br)); [by rewrite Hl|]. by destruct Hl as [e ->].
Qed.

Lemma compact_spec st m sid n : represents st m -> session_named sid ->
  represents (compact st sid n).1 (spec_op m (OCompact sid n)) /\
  has_value (compact st sid n).2 = bool_decide (is_Some (m !! (sid, lit "main"))).
Proof.
  intros Hr Hs. pose proof (represents_load st m sid _ Hr Hs main_named) as Hl.
  unfold compact. cbn [spec_op]. destruct (m !! (sid, lit "main")) as [s|] eqn:Hm.
  - rewrite Hl. destruct (represents_keyed st m Hr _ _ Hm) as [Hk Hn].
    destruct (represents_save st m (set_messages s (keep_last n (s_messages s))) Hr Hn) as (st' & Hsv & Hr').
    by rewrite Hsv.
  - destruct Hl as [e ->]. by rewrite bool_decide_false by (by intros [? ?]).
Qed.

(** Every call of a store does what the abstract store does. *)
Lemma run_op_refines st m o : represents st m -> op_named o ->
  represents (run_op st o).1 (spec_op m o) /\ spec_answer m o (run_op st o).2.
Proof.
  intros Hr. destruct o as [s|sid br|sid br|sid|sid n]; cbn [op_named run_op spec_op].
  - intros Hs. destruct (represents_save st m s Hr Hs) as (st' & -> & Hr'). by split.
  - intros [Hs Hb]. split; [done|]. by apply load_spec.
  - intros [Hs Hb]. split; [done|]. cbn. unfold stream_episodes.
    rewrite <- (load_spec st m sid br Hr Hs Hb). by destruct (load st sid br).
  - intros Hs. split; [done|]. by apply represents_list.
  - intros Hs. destruct (compact_spec st m sid n Hr Hs) as [Hr' Hv]. by destruct (compact st sid n).
Qed.
End refinement.

Lemma spec_answers_agree m o a b : spec_answer m o a -> spec_answer m o b -> same_answer a b.
Proof.
  destruct o, a, b; cbn; try done; intros Ha Hb; subst; try constructor.
  destruct Ha as [Hn Ha], Hb as [Hn' Hb]. apply NoDup_Permutation; [done..|].
  intros br. by rewrite Ha, Hb.
Qed.

Lemma stores_agree {A B} `{SessionStoreOk A, SessionStoreOk B} (a : A) (b : B) m os :
  represents a m -> represents b m -> Forall op_named os ->
  Forall2 same_answer (run_ops a os) (run_ops b os).
Proof.
  intros Ha Hb Hos. revert a b m Ha Hb. induction Hos as [|o os Ho Hos IH]; intros; [constructor|].
  cbn [run_ops].
  destruct (run_op_refines a m o Ha Ho) as [Ha' Hx], (run_op_refines b m o Hb Ho) as [Hb' Hy].
  destruct (run_op a o) as [a' x], (run_op b o) as [b' y]. cbn in *.
  constructor; [by eapply spec_answers_agree|by eapply IH].
Qed.

(** C20: the two stores cannot be told apart: from empty stores, every sequence of
    calls with names that are single path components gets the same answers
    from the files as from the map in memory, provided the file system works. *)
Theorem file_store_agrees `{Json, !JsonOk, !MsgPack, !MsgPackOk} base_dir entries os :
  EntriesOk entries -> free_of "000" base_dir -> Forall op_named os ->
  Forall2 same_answer (@run_ops _ (file_store base_dir entries) ∅ os)
    (run_ops (∅ : MemorySessionStore) os).
Proof.
  intros He Hb Hos.
  apply (@stores_agree _ _ (file_store base_dir entries) (file_store_ok base_dir entries He Hb)
    memory_store memory_store_ok ∅ ∅ ∅ os); [|apply memory_empty|done].
  split; [apply map_Forall_empty|]. split; [|intros; by rewrite !lookup_empty].
  intros p [? Hp]. by rewrite lookup_empty in Hp.
Qed.

(** A full disk goes unnoticed: [save] answers success whatever part of the
    data reached the file, even none of it. *)
Theorem short_write_reported_ok `{MsgPack} base_dir fs s n :
  exists fs', file_save base_dir fs s (Written n) = Some (fs', Ok tt) /\
    fs' !! branch_file base_dir (s_session_id s) (s_branch_id s)
      = Some (take n (to_msgpack (snapshot_to_json s))).
Proof. eexists. split; [done|]. apply lookup_insert_eq. Qed.

(** ** Witnesses *)

Definition sample_snapshot (br : string) : SessionSnapshot :=
  mkSnapshot (lit "s1") (lit br) (lit "coder")
    [mkMessage User (lit "hi") (lit "coder") [] [] d_zero []; mkMessage Assistant (lit "ho") [] [] [] d_zero []].
Definition sample_ops : list StoreOp :=
  [OSave (sample_snapshot "main"); OSave (sample_snapshot "try"); OCompact (lit "s1") 1;
   OLoad (lit "s1") (lit "main"); OList (lit "s1"); OLoad (lit "s2") (lit "main")].

Lemma file_store_agrees_witness :
  Forall2 same_answer
    (@run_ops _ (@file_store TreeJson.json TreeJson.msgpack (lit "/data") sample_entries) ∅ sample_ops)
    (run_ops (∅ : MemorySessionStore) sample_ops).
Proof.
  apply (@file_store_agrees TreeJson.json TreeJson.tree_json_ok TreeJson.msgpack TreeJson.msgpack_ok).
  - apply sample_entries_ok.
  - apply (bool_decide_unpack _). by vm_compute.
  - repeat constructor; apply (bool_decide_unpack _); by vm_compute.
Defined.
