(* ===== verification/AgentSession.v ===== *)
(** * Agent sessions: [libs/runtime/src/agent_session.cpp] and [tool_registry.cpp]

    A session owns its registry of tools and its messages, and shares the
    provider and the store with others: those are arguments, passed and
    returned, behind the classes [Provider] and [SessionStore].  The registry
    is an [unordered_map]; [tool_order] is the order in which it is iterated.
    Calls of event handlers are recorded: [events] lists the handler, the event
    and its text. *)

From Stdlib Require Import ZArith Ascii String Lia.
From stdpp Require Import base list gmap strings.
From S2P Require Import Prelude CxxString Lines Doubles Json Sessions.

(** ** Providers *)

Record ModelSpec (J : Type) : Type := mkModelSpec {
  ms_provider : str; model : str; tier : str; estimated_cost_per_1m : double; parameters : J;
}.
Arguments mkModelSpec {J} _ _ _ _ _.
Arguments model {J} _.

Record ProviderResponse : Type := mkResponse {
  success : bool; output : str; error : str; input_tokens : Z; output_tokens : Z;
  response_ms : double;
}.

(** [IProvider]: its operations may change it. *)
Class Provider (J P : Type) : Type := {
  route : P -> str -> str -> ModelSpec J * P;
  provider_switch_model : P -> ModelSpec J -> bool * P;
  execute : P -> ModelSpec J -> str -> ProviderResponse * P;
}.

(** ** The tool registry *)

Record ToolDeclaration (J : Type) : Type := mkTool { tool_name : str; tool_description : str; input_schema : J }.
Arguments mkTool {J} _ _ _.
Arguments tool_name {J} _.
Arguments tool_description {J} _.

Abbreviation ToolHandler J := (J -> expected J str).
Abbreviation ToolRegistry J := (gmap str (ToolDeclaration J * ToolHandler J)).

Section tools.
Context {J : Type}.

Definition register_tool (r : ToolRegistry J) (decl : ToolDeclaration J) (handler : ToolHandler J) :
    ToolRegistry J := <[tool_name decl := (decl, handler)]> r.
Definition remove_tool (r : ToolRegistry J) (name : str) : ToolRegistry J := delete name r.
Definition invoke (r : ToolRegistry J) (name : str) (input : J) : expected J str :=
  match r !! name with
  | None => Unexpected (lit "Tool not found: " ++ name)
  | Some (_, handler) => handler input
  end.
Definition list_tools (order : ToolRegistry J -> list (ToolDeclaration J * ToolHandler J))
    (r : ToolRegistry J) : list (ToolDeclaration J) := fst <$> order r.
End tools.

(** ** Sessions *)

Inductive SessionEvent : Type :=
| MessageSent | ResponseReceived | ModelSwitched | BranchCreated | SessionSaved | SessionLoaded.

Record AgentSession (J : Type) : Type := mkSession {
  session_id : str; agent_id : str; branch_id : str; system_prompt : str; system_context : str;
  tools : ToolRegistry J; current_model : ModelSpec J;
  messages : list SessionMessage; event_handlers : nat; events : list (nat * (SessionEvent * str));
}.
Arguments mkSession {J} _ _ _ _ _ _ _ _ _ _.
Arguments session_id {J} _. Arguments agent_id {J} _. Arguments branch_id {J} _.
Arguments system_prompt {J} _. Arguments system_context {J} _. Arguments tools {J} _.
Arguments current_model {J} _. Arguments messages {J} _. Arguments event_handlers {J} _.
Arguments events {J} _.

(** A message built from all but its trace hash, which stays empty. *)
Definition conversation_message (r : Role) (c a m t : str) (d : double) : SessionMessage :=
  mkMessage r c a m t d [].

Definition eol2 : str := [eol; eol].
Definition role_label (r : Role) : str :=
  match r with User => lit "User: " | Assistant => lit "Assistant: " | System => lit "System: " end.
Definition render_message (m : SessionMessage) : str := role_label (role m) ++ content m ++ eol2.
Definition render_tool {J} (t : ToolDeclaration J) : str :=
  lit "- " ++ tool_name t ++ lit ": " ++ tool_description t ++ [eol].

Section session.
Context {J P : Type} `{Provider J P}.
Context (tool_order : ToolRegistry J -> list (ToolDeclaration J * ToolHandler J)).
Implicit Types s : AgentSession J.

Definition new_session (p : P) (sid aid : str) : AgentSession J * P :=
  let '(m, p) := route p (lit "code") (lit "general") in
  (mkSession sid aid (lit "main") [] [] ∅ m [] 0 [], p).

Definition emit s (event : SessionEvent) (detail : str) : AgentSession J :=
  mkSession (session_id s) (agent_id s) (branch_id s) (system_prompt s) (system_context s) (tools s)
    (current_model s) (messages s) (event_handlers s)
    (events s ++ ((fun i => (i, (event, detail))) <$> seq 0 (event_handlers s))).

Definition put_messages s (ms : list SessionMessage) : AgentSession J :=
  mkSession (session_id s) (agent_id s) (branch_id s) (system_prompt s) (system_context s) (tools s)
    (current_model s) ms (event_handlers s) (events s).

(** The system text and the tools, which precede the conversation. *)
Definition context_header s : str :=
  (if bool_decide (system_prompt s = []) then [] else system_prompt s ++ eol2)
  ++ (if bool_decide (system_context s = []) then [] else system_context s ++ eol2)
  ++ (let ts := list_tools tool_order (tools s) in
      if bool_decide (length ts = 0%nat) then []
      else lit "Available tools:" ++ [eol] ++ mjoin (render_tool <$> ts) ++ [eol]).

Definition build_context s : str := context_header s ++ mjoin (render_message <$> messages s).

Definition send (p : P) s (message : str) : ProviderResponse * AgentSession J * P :=
  let s := put_messages s
             (messages s ++ [conversation_message User message (agent_id s) [] [] d_zero]) in
  let s := emit s MessageSent message in
  let prompt := build_context s in
  let '(result, p) := execute p (current_model s) prompt in
  let s := put_messages s
             (messages s ++ [conversation_message Assistant (output result) (agent_id s)
                               (model (current_model s)) [] (response_ms result)]) in
  let s := emit s ResponseReceived (output result) in
  (result, s, p).

Definition put_tools s (r : ToolRegistry J) : AgentSession J :=
  mkSession (session_id s) (agent_id s) (branch_id s) (system_prompt s) (system_context s) r
    (current_model s) (messages s) (event_handlers s) (events s).
Definition session_register_tool s decl handler : AgentSession J :=
  put_tools s (register_tool (tools s) decl handler).
Definition session_remove_tool s name : AgentSession J := put_tools s (remove_tool (tools s) name).

Definition set_system_prompt s (prompt : str) : AgentSession J :=
  mkSession (session_id s) (agent_id s) (branch_id s) prompt (system_context s) (tools s)
    (current_model s) (messages s) (event_handlers s) (events s).

Definition append_system_context s (context : str) : AgentSession J :=
  let c := (if bool_decide (system_context s = []) then [] else system_context s ++ [eol]) ++ context in
  mkSession (session_id s) (agent_id s) (branch_id s) (system_prompt s) c (tools s)
    (current_model s) (messages s) (event_handlers s) (events s).

Definition switch_model (p : P) s (spec : ModelSpec J) : bool * AgentSession J * P :=
  let '(ok, p) := provider_switch_model p spec in
  if ok : bool then
    let s := mkSession (session_id s) (agent_id s) (branch_id s) (system_prompt s) (system_context s)
               (tools s) spec (messages s) (event_handlers s) (events s) in
    (true, emit s ModelSwitched (model spec), p)
  else (false, s, p).

Definition put_branch s (name : str) : AgentSession J :=
  mkSession (session_id s) (agent_id s) name (system_prompt s) (system_context s) (tools s)
    (current_model s) (messages s) (event_handlers s) (events s).
Definition branch s (name : str) : AgentSession J := emit (put_branch s name) BranchCreated name.

Definition session_compact s (keep_n : nat) : AgentSession J := put_messages s (keep_last keep_n (messages s)).

Definition on_event s : AgentSession J :=
  mkSession (session_id s) (agent_id s) (branch_id s) (system_prompt s) (system_context s) (tools s)
    (current_model s) (messages s) (S (event_handlers s)) (events s).

Definition snapshot_of s : SessionSnapshot := mkSnapshot (session_id s) (branch_id s) (agent_id s) (messages s).

Context {St : Type} `{SessionStore St}.

(** The store is a pointer that may be null. *)
Definition session_save (st : option St) s : expected unit str * AgentSession J * option St :=
  match st with
  | None => (Unexpected (lit "No session store configured"), s, None)
  | Some st =>
      let '(st, result) := save st (snapshot_of s) in
      (result, if has_value result then emit s SessionSaved [] else s, Some st)
  end.

Definition session_load (st : option St) s (br : str) : expected unit str * AgentSession J :=
  match st with
  | None => (Unexpected (lit "No session store configured"), s)
  | Some st =>
      match load st (session_id s) br with
      | Unexpected e => (Unexpected e, s)
      | Ok snap => (Ok tt, emit (put_messages (put_branch s (s_branch_id snap)) (s_messages snap)) SessionLoaded [])
      end
  end.
End session.

(** ** Tools: properties *)

Section tool_properties.
Context {J : Type}.

Inductive ToolOp : Type :=
| Register (decl : ToolDeclaration J) (handler : ToolHandler J)
| Remove (name : str).

Definition tool_op (o : ToolOp) (r : ToolRegistry J) : ToolRegistry J :=
  match o with Register d h => register_tool r d h | Remove n => remove_tool r n end.

(** The handler in force for a name; the list has the latest operation first. *)
Fixpoint latest (name : str) (os : list ToolOp) : option (ToolHandler J) :=
  match os with
  | [] => None
  | Register d h :: os => if bool_decide (tool_name d = name) then Some h else latest name os
  | Remove n :: os => if bool_decide (n = name) then None else latest name os
  end.

Lemma lookup_latest os name : snd <$> (foldr tool_op ∅ os : ToolRegistry J) !! name = latest name os.
Proof.
  induction os as [|[d h|n] os IH]; cbn [foldr tool_op latest]; [by rewrite lookup_empty|..].
  - unfold register_tool. case_bool_decide as E.
    + subst. by rewrite lookup_insert_eq.
    + by rewrite lookup_insert_ne.
  - unfold remove_tool. case_bool_decide as E.
    + subst. by rewrite lookup_delete_eq.
    + by rewrite lookup_delete_ne.
Qed.

(** After any registrations and removals, a call reaches the handler last
    registered under its name unless that was removed, and otherwise reports
    that there is no such tool. *)
Theorem invoke_latest os name input :
  invoke (foldr tool_op ∅ os) name input =
  match latest name os with
  | Some handler => handler input
  | None => Unexpected (lit "Tool not found: " ++ name)
  end.
Proof.
  unfold invoke. rewrite <- lookup_latest.
  by destruct (foldr tool_op ∅ os !! name) as [[d h]|].
Qed.
End tool_properties.

(** ** Conversations *)

Section conversation_properties.
Context {J P : Type} `{Provider J P}.
Context (tool_order : ToolRegistry J -> list (ToolDeclaration J * ToolHandler J)).

Fixpoint converse (p : P) (s : AgentSession J) (msgs : list str) :
    list ProviderResponse * AgentSession J * P :=
  match msgs with
  | [] => ([], s, p)
  | msg :: msgs =>
      let '(r, s, p) := send tool_order p s msg in
      let '(rs, s, p) := converse p s msgs in (r :: rs, s, p)
  end.

(** The same conversation without a session: each prompt is the header
    followed by every message so far. *)
Fixpoint replay (header agent : str) (spec : ModelSpec J) (p : P) (past : list SessionMessage)
    (msgs : list str) : list ProviderResponse * list SessionMessage * P :=
  match msgs with
  | [] => ([], past, p)
  | msg :: msgs =>
      let past := past ++ [conversation_message User msg agent [] [] d_zero] in
      let '(r, p) := execute p spec (header ++ mjoin (render_message <$> past)) in
      let past := past ++ [conversation_message Assistant (output r) agent (model spec) [] (response_ms r)] in
      let '(rs, past, p) := replay header agent spec p past msgs in (r :: rs, past, p)
  end.

(** What a session keeps while it converses. *)
Definition same_setting (s s' : AgentSession J) : Prop :=
  session_id s' = session_id s /\ agent_id s' = agent_id s /\ branch_id s' = branch_id s /\
  system_prompt s' = system_prompt s /\ system_context s' = system_context s /\
  tools s' = tools s /\ current_model s' = current_model s /\ event_handlers s' = event_handlers s.

Lemma context_header_setting s s' : same_setting s s' -> context_header tool_order s' = context_header tool_order s.
Proof. intros (_ & _ & _ & E1 & E2 & E3 & _). unfold context_header. by rewrite E1, E2, E3. Qed.

Lemma same_setting_trans s1 s2 s3 : same_setting s1 s2 -> same_setting s2 s3 -> same_setting s1 s3.
Proof. unfold same_setting. intuition congruence. Qed.

Lemma send_replays p s msg :
  let '(r, s', p') := send tool_order p s msg in
  same_setting s s' /\
  replay (context_header tool_order s) (agent_id s) (current_model s) p (messages s) [msg] = ([r], messages s', p').
Proof.
  unfold send. cbn [replay].
  change (build_context tool_order (emit (put_messages s _) MessageSent msg)) with
    (context_header tool_order s ++ mjoin (render_message <$>
       (messages s ++ [conversation_message User msg (agent_id s) [] [] d_zero]))).
  cbn [current_model emit put_messages]. destruct (execute p (current_model s) _) as [r p'].
  by repeat split.
Qed.

Lemma replay_cons header agent spec p past msg msgs :
  replay header agent spec p past (msg :: msgs) =
  let '(r1, past, p) := replay header agent spec p past [msg] in
  let '(rs, past, p) := replay header agent spec p past msgs in (r1 ++ rs, past, p).
Proof.
  cbn [replay]. destruct (execute _ _ _) as [r p']. by destruct (replay _ _ _ _ _ msgs) as [[? ?] ?].
Qed.

(** A session is transparent: in a conversation the provider is asked exactly
    the prompts made of the system text, the tools and every earlier message of
    both sides in order, and the session ends with all of them recorded and
    its setting unchanged. *)
Theorem converse_replays p s msgs :
  let '(rs, s', p') := converse p s msgs in
  same_setting s s' /\ length rs = length msgs /\
  replay (context_header tool_order s) (agent_id s) (current_model s) p (messages s) msgs = (rs, messages s', p').
Proof.
  revert p s. induction msgs as [|msg msgs IH]; intros p s; cbn [converse]; [done|].
  rewrite replay_cons. pose proof (send_replays p s msg) as Hs.
  destruct (send tool_order p s msg) as [[r s1] p1]. destruct Hs as [Hset Hr]. specialize (IH p1 s1).
  destruct (converse p1 s1 msgs) as [[rs s2] p2]. destruct IH as (Hset' & Hl & Hr').
  split; [by eapply same_setting_trans|]. split; [cbn; by rewrite Hl|].
  rewrite Hr. rewrite (context_header_setting _ _ Hset) in Hr'.
  destruct Hset as (_ & Ea & _ & _ & _ & _ & Em & _). rewrite Ea, Em in Hr'. by rewrite Hr'.
Qed.
End conversation_properties.

(** ** Saving and loading, against any store *)

Section persistence.
Context {J St : Type} `{SessionStoreOk St}.

(** Calls that do not write the entry [k]. *)
Definition avoids (k : str * str) (o : StoreOp) : Prop :=
  match o with
  | OSave s => key s <> k
  | OCompact sid _ => (sid, lit "main") <> k
  | _ => True
  end.

Definition run_store (st : St) (os : list StoreOp) : St := foldl (fun st o => (run_op st o).1) st os.

Lemma run_store_represents st m os : represents st m -> Forall op_named os ->
  represents (run_store st os) (foldl spec_op m os).
Proof.
  intros Hr Hos. revert st m Hr. induction Hos as [|o os Ho Hos IH]; intros st m Hr; [done|].
  cbn. apply IH. by apply run_op_refines.
Qed.

Lemma avoids_lookup m k os : keyed m -> Forall op_named os -> Forall (avoids k) os ->
  foldl spec_op m os !! k = m !! k.
Proof.
  intros Hk Hn Hav. revert m Hk. induction Hav as [|o os Ho Hav IH]; intros m Hk; [done|].
  apply Forall_cons in Hn as [Ho' Hn]. cbn [foldl]. rewrite IH; [|done|].
  - destruct o; cbn [spec_op avoids] in Ho |- *; try done; [by rewrite lookup_insert_ne|].
    destruct (m !! (session_id0, lit "main")) as [s|] eqn:E; [|done].
    destruct (Hk _ _ E) as [<- _]. by rewrite lookup_insert_ne.
  - destruct o; cbn [spec_op op_named] in Ho' |- *; try done; [by apply keyed_insert|].
    destruct (m !! (session_id0, lit "main")) as [s|] eqn:E; [|done].
    destruct (Hk _ _ E) as [_ Hs].
    by apply (keyed_insert m (set_messages s (keep_last keep_last_n (s_messages s)))).
Qed.

(** A saved session comes back: whatever else the store is used for
    afterwards, loading the branch into any session with that identifier
    restores the branch and exactly the messages that were saved. *)
Lemma session_save_load st m (s s2 : AgentSession J) os :
  represents st m -> named (snapshot_of s) -> Forall op_named os -> Forall (avoids (key (snapshot_of s))) os ->
  session_id s2 = session_id s ->
  exists st1 s1, session_save (Some st) s = (Ok tt, s1, Some st1) /\ messages s1 = messages s /\
    exists s3, session_load (Some (run_store st1 os)) s2 (branch_id s) = (Ok tt, s3) /\
      messages s3 = messages s /\ branch_id s3 = branch_id s /\ session_id s3 = session_id s.
Proof.
  intros Hr Hn Hos Hav Hid.
  destruct (represents_save st m (snapshot_of s) Hr Hn) as (st1 & Hs & Hr1).
  exists st1. eexists. unfold session_save. rewrite Hs. split; [done|]. split; [done|].
  pose proof (run_store_represents st1 _ os Hr1 Hos) as Hr2.
  assert (foldl spec_op (<[key (snapshot_of s):=snapshot_of s]> m) os !! (session_id s, branch_id s)
    = Some (snapshot_of s)) as Hl.
  { change (session_id s, branch_id s) with (key (snapshot_of s)).
    rewrite avoids_lookup; [apply lookup_insert_eq| |done|done].
    apply keyed_insert; [by apply represents_keyed in Hr|done]. }
  pose proof (represents_load _ _ (session_id s) (branch_id s) Hr2 (proj1 Hn) (proj2 Hn)) as Hld.
  rewrite Hl in Hld. unfold session_load. rewrite Hid, Hld. by eexists.
Qed.
End persistence.

(** ** Witnesses *)

Definition sample_session (msgs : list SessionMessage) : AgentSession unit :=
  mkSession (lit "s1") (lit "coder") (lit "main") [] [] ∅ (mkModelSpec [] [] [] d_zero tt) msgs 0 [].

Lemma session_save_load_witness :
  exists st1 s1, session_save (Some (∅ : MemorySessionStore)) (sample_session (s_messages (sample_snapshot "main")))
      = (Ok tt, s1, Some st1) /\
    messages s1 = s_messages (sample_snapshot "main") /\
    exists s3, session_load (Some (run_store st1 [OSave (sample_snapshot "try"); OList (lit "s1")]))
        (sample_session []) (lit "main") = (Ok tt, s3) /\
      messages s3 = s_messages (sample_snapshot "main") /\ branch_id s3 = lit "main" /\ session_id s3 = lit "s1".
Proof.
  apply (session_save_load ∅ ∅ (sample_session (s_messages (sample_snapshot "main"))) (sample_session [])
    [OSave (sample_snapshot "try"); OList (lit "s1")]).
  - apply memory_empty.
  - split; apply (bool_decide_unpack _); by vm_compute.
  - repeat constructor; apply (bool_decide_unpack _); by vm_compute.
  - repeat constructor. by intros [=].
  - done.
Defined.
