(* ===== verification/Interaction.v ===== *)
(** * Multi-agent workflows: [libs/runtime/src/interaction.cpp]

    Each step of a workflow opens a session on the shared provider, sends one
    message and drops the session; [ask] is that step.  The provider is passed
    from step to step, so the order of the calls is visible.  Counters of type
    [int] are integers; the workflows count far below their range.  [None] is
    the exception of [dump] on text that is not UTF-8. *)

From Stdlib Require Import ZArith Ascii String Lia.
From stdpp Require Import base list gmap strings.
From S2P Require Import Prelude CxxString Lines Doubles Json Numbers Sessions AgentSession.

Record InteractionResult : Type := mkResult {
  ok : bool; final : str; agent_outputs : list str; total_duration_ms : double; rounds : Z;
}.

Record EvaluationGateConfig : Type := mkGate {
  evaluator_agent_id : str; evaluation_prompt : str; max_retries : Z; min_quality_score : double;
}.

Record SupervisorConfig : Type := mkSupervisor {
  supervisor_agent_id : str; worker_agent_ids : list str; decomposition_prompt : str;
  aggregation_prompt : str; parallel_workers : Z;
}.

Definition new_result (success : bool) : InteractionResult := mkResult success [] [] d_zero 0.
Definition finish (r : InteractionResult) (success : bool) (text : str) : InteractionResult :=
  mkResult success text (agent_outputs r) (total_duration_ms r) (rounds r).
Definition add_round (r : InteractionResult) : InteractionResult :=
  mkResult (ok r) (final r) (agent_outputs r) (total_duration_ms r) (rounds r + 1).
Definition add_time (r : InteractionResult) (ms : double) : InteractionResult :=
  mkResult (ok r) (final r) (agent_outputs r) (d_add (total_duration_ms r) ms) (rounds r).
Definition add_output (r : InteractionResult) (text : str) : InteractionResult :=
  mkResult (ok r) (final r) (agent_outputs r ++ [text]) (total_duration_ms r) (rounds r).

(** ** The scratchpad *)

Section scratchpad.
Context `{Json}.
Abbreviation Scratchpad := (gmap str jv).

Definition pad_write (d : Scratchpad) (k : str) (v : jv) : Scratchpad := <[k := v]> d.
Definition pad_read (d : Scratchpad) (k : str) : option jv := d !! k.
(** The result starts as null and becomes an object with its first member. *)
Definition pad_read_all (d : Scratchpad) : jv := if bool_decide (d = ∅) then jnull else jobj d.
Definition pad_clear (d : Scratchpad) : Scratchpad := ∅.
End scratchpad.

(** ** The workflows *)

Section workflows.
Context `{Json} {P : Type} `{!Provider jv P}.
Context (tool_order : ToolRegistry jv -> list (ToolDeclaration jv * ToolHandler jv)).

Definition ask (p : P) (sid aid msg : str) : ProviderResponse * P :=
  let '(s, p) := new_session p sid aid in
  let '(r, _, p) := send tool_order p s msg in (r, p).

(** *** [run_sequential] *)
Fixpoint sequential_loop (p : P) (agent_ids : list str) (input : str) (res : InteractionResult) :
    InteractionResult * P :=
  match agent_ids with
  | [] => (finish res (ok res) input, p)
  | a :: agent_ids =>
      let '(r, p) := ask p (lit "seq-" ++ a) a input in
      let res := add_round (add_time (add_output res (output r)) (response_ms r)) in
      if negb (success r) then (finish res false (error r), p)
      else sequential_loop p agent_ids (output r) res
  end.

Definition run_sequential (p : P) (agent_ids : list str) (task : str) : InteractionResult * P :=
  sequential_loop p agent_ids task (new_result true).

(** *** [run_parallel] *)
Fixpoint parallel_loop (p : P) (agent_ids : list str) (task : str) (res : InteractionResult) :
    InteractionResult * P :=
  match agent_ids with
  | [] => (res, p)
  | a :: agent_ids =>
      let '(r, p) := ask p (lit "par-" ++ a) a task in
      let res := add_time (add_output res (output r)) (response_ms r) in
      parallel_loop p agent_ids task (if negb (success r) then finish res false (final res) else res)
  end.

Definition separator : str := eol :: lit "---" ++ [eol].
Fixpoint combine_outputs (outs : list str) : str :=
  match outs with
  | [] => []
  | [o] => o
  | o :: outs => o ++ separator ++ combine_outputs outs
  end.

Definition run_parallel (p : P) (agent_ids : list str) (task : str) : InteractionResult * P :=
  let '(res, p) := parallel_loop p agent_ids task (add_round (new_result true)) in
  (finish res (ok res) (combine_outputs (agent_outputs res)), p).

(** *** [run_scratchpad]; [dump2] is [dump(2)]. *)
Context (dump2 : jv -> option str).

Definition shared_prompt (task context : str) : str :=
  task ++ eol2 ++ lit "Shared context:" ++ [eol] ++ context.

(** The boolean says whether the workflow goes on. *)
Fixpoint pad_round (p : P) (agent_ids : list str) (task : str) (pad : gmap str jv)
    (res : InteractionResult) : option (bool * InteractionResult * gmap str jv * P) :=
  match agent_ids with
  | [] => Some (true, res, pad, p)
  | a :: agent_ids =>
      context ← dump2 (pad_read_all pad);
      let '(r, p) := ask p (lit "sp-" ++ a) a (shared_prompt task context) in
      let res := add_time res (response_ms r) in
      if negb (success r) then Some (false, finish res false (error r), pad, p)
      else
        let pad := pad_write pad (lit "output_" ++ a) (jstr (output r)) in
        pad_round p agent_ids task pad (add_output res (output r))
  end.

Fixpoint pad_rounds (n : nat) (p : P) (agent_ids : list str) (task : str) (pad : gmap str jv)
    (res : InteractionResult) : option (InteractionResult * gmap str jv * P) :=
  match n with
  | O => text ← dump2 (pad_read_all pad); Some (finish res (ok res) text, pad, p)
  | S n =>
      step ← pad_round p agent_ids task pad (add_round res);
      let '(go_on, res, pad, p) := step in
      if go_on : bool then pad_rounds n p agent_ids task pad res else Some (res, pad, p)
  end.

Definition run_scratchpad (p : P) (agent_ids : list str) (task : str) (pad : gmap str jv)
    (max_rounds : Z) : option (InteractionResult * gmap str jv * P) :=
  pad_rounds (Z.to_nat max_rounds) p agent_ids task (pad_write pad (lit "task") (jstr task))
    (new_result true).

(** *** [run_with_evaluator] *)

(** A score the gate lets pass; text that is no number passes too. *)
Definition gate_accepts (gate : EvaluationGateConfig) (text : str) : bool :=
  match stod text with
  | Some score => d_le (min_quality_score gate) score
  | None => true
  end.

Definition evaluation_request (gate : EvaluationGateConfig) (work : str) : str :=
  evaluation_prompt gate ++ eol2 ++ lit "Output to evaluate:" ++ [eol] ++ work.

Fixpoint evaluator_loop (n : nat) (attempt : Z) (p : P) (worker task : str)
    (gate : EvaluationGateConfig) (res : InteractionResult) : InteractionResult * P :=
  match n with
  | O => (finish res false (lit "Evaluator gate failed after " ++ to_string_Z (max_retries gate + 1)
                            ++ lit " attempts"), p)
  | S n =>
      let res := add_round res in
      let '(work, p) := ask p (lit "eval-worker-" ++ to_string_Z attempt) worker task in
      let res := add_output (add_time res (response_ms work)) (output work) in
      if negb (success work) then evaluator_loop n (attempt + 1) p worker task gate res
      else
        let '(eval, p) := ask p (lit "eval-gate-" ++ to_string_Z attempt) (evaluator_agent_id gate)
                            (evaluation_request gate (output work)) in
        let res := add_time res (response_ms eval) in
        if success eval && gate_accepts gate (output eval)
        then (finish res true (output work), p)
        else evaluator_loop n (attempt + 1) p worker task gate res
  end.

Definition run_with_evaluator (p : P) (worker task : str) (gate : EvaluationGateConfig) :
    InteractionResult * P :=
  evaluator_loop (Z.to_nat (max_retries gate + 1)) 0 p worker task gate (new_result false).

(** *** [run_supervisor_worker] *)
Fixpoint workers_loop (p : P) (workers : list str) (subtask : str) (res : InteractionResult) :
    InteractionResult * P :=
  match workers with
  | [] => (res, p)
  | w :: workers =>
      let '(r, p) := ask p (lit "sv-worker-" ++ w) w subtask in
      let res := add_output (add_time (add_round res) (response_ms r)) (output r) in
      workers_loop p workers subtask (if negb (success r) then finish res false (final res) else res)
  end.

Definition worker_section (i : nat) (out : str) : str :=
  lit "--- Worker " ++ to_string_nat i ++ lit " ---" ++ [eol] ++ out ++ [eol].

Definition aggregation_request (cfg : SupervisorConfig) (outs : list str) : str :=
  aggregation_prompt cfg ++ eol2 ++ lit "Worker outputs:" ++ [eol] ++ mjoin (imap worker_section outs).

Definition run_supervisor_worker (p : P) (cfg : SupervisorConfig) (task : str) :
    InteractionResult * P :=
  let '(decomp, p) := ask p (lit "sv-decompose") (supervisor_agent_id cfg)
                        (decomposition_prompt cfg ++ eol2 ++ lit "Task: " ++ task) in
  let res := add_round (add_time (new_result false) (response_ms decomp)) in
  if negb (success decomp) then (finish res false (error decomp), p)
  else
    let '(res, p) := workers_loop p (worker_agent_ids cfg) (output decomp) res in
    let '(agg, p) := ask p (lit "sv-aggregate") (supervisor_agent_id cfg)
                       (aggregation_request cfg (agent_outputs res)) in
    let res := add_round (add_time res (response_ms agg)) in
    (finish res (success agg) (output agg), p).
End workflows.

(** ** Properties *)

Section properties.
Context `{Json} {P : Type} `{!Provider jv P}.
Context (tool_order : ToolRegistry jv -> list (ToolDeclaration jv * ToolHandler jv)).
Abbreviation asks := (ask tool_order).

(** The calls of a pipeline: each agent gets what the one before it said, and
    the first that fails is the last. *)
Fixpoint pipeline (p : P) (agent_ids : list str) (input : str) : list ProviderResponse * P :=
  match agent_ids with
  | [] => ([], p)
  | a :: agent_ids =>
      let '(r, p) := asks p (lit "seq-" ++ a) a input in
      if success r then let '(rs, p) := pipeline p agent_ids (output r) in (r :: rs, p) else ([r], p)
  end.

Definition ended (task : str) (rs : list ProviderResponse) : str :=
  match last rs with Some r => if success r then output r else error r | None => task end.

Lemma ended_cons task r rs : success r = true -> ended task (r :: rs) = ended (output r) rs.
Proof.
  intros Hr. unfold ended. destruct rs as [|r' rs]; [cbn; by rewrite Hr|].
  change (last (r :: r' :: rs)) with (last (r' :: rs)).
  destruct (last (r' :: rs)) eqn:E; [done|]. by apply last_None in E.
Qed.

Lemma sequential_loop_spec agents : forall p input res,
  ok res = true ->
  let '(rs, p') := pipeline p agents input in
  let '(res', q) := sequential_loop tool_order p agents input res in
  q = p' /\ agent_outputs res' = agent_outputs res ++ (output <$> rs) /\
  rounds res' = (rounds res + Z.of_nat (length rs))%Z /\
  (ok res' = true <-> length rs = length agents /\ Forall (fun r => success r = true) rs) /\
  final res' = ended input rs.
Proof.
  induction agents as [|a agents IH]; intros p input res Hok; cbn [pipeline sequential_loop].
  { cbn. rewrite app_nil_r, Z.add_0_r. by repeat split. }
  destruct (asks p (lit "seq-" ++ a) a input) as [r p1].
  destruct (success r) eqn:Hr; cbn [negb].
  - specialize (IH p1 (output r) (add_round (add_time (add_output res (output r)) (response_ms r))) Hok).
    destruct (pipeline p1 agents (output r)) as [rs p2].
    destruct (sequential_loop tool_order p1 agents (output r) _) as [res' q].
    destruct IH as (-> & Ho & Hn & Hs & Hf). cbn in Ho, Hn. split; [done|].
    split; [by rewrite Ho, <- app_assoc|]. split; [rewrite Hn; cbn [length]; lia|].
    rewrite (ended_cons input r rs Hr). split; [|done].
    rewrite Hs, Forall_cons. cbn [length]. naive_solver.
  - cbn. split; [done|]. split; [done|]. split; [done|]. unfold ended. cbn. rewrite Hr. split; [|done].
    split; [done|]. intros [_ Hall]. inversion Hall; congruence.
Qed.

(** [run_sequential] is the pipeline: its outputs and rounds are those of the
    calls made, it succeeds exactly when every agent was called and succeeded,
    and its text is the last output, or the error of the agent that failed. *)
Theorem run_sequential_spec p agents task :
  let '(rs, p') := pipeline p agents task in
  let '(res, q) := run_sequential tool_order p agents task in
  q = p' /\ agent_outputs res = output <$> rs /\ rounds res = Z.of_nat (length rs) /\
  (ok res = true <-> length rs = length agents /\ Forall (fun r => success r = true) rs) /\
  final res = ended task rs.
Proof. by apply (sequential_loop_spec agents p task (new_result true)). Qed.

(** *** The evaluator gate *)

Record Attempt : Type := mkAttempt { work : ProviderResponse; evaluation : option ProviderResponse }.

Definition accepted (gate : EvaluationGateConfig) (a : Attempt) : bool :=
  match evaluation a with
  | Some e => success (work a) && success e && gate_accepts gate (output e)
  | None => false
  end.

(** The calls of consecutive attempts; the evaluator is asked about work that
    succeeded. *)
Inductive attempts (worker task : str) (gate : EvaluationGateConfig) : Z -> P -> list Attempt -> P -> Prop :=
| attempts_nil i p : attempts worker task gate i p [] p
| attempts_failed i p p1 p' w tr :
    asks p (lit "eval-worker-" ++ to_string_Z i) worker task = (w, p1) -> success w = false ->
    attempts worker task gate (i + 1) p1 tr p' ->
    attempts worker task gate i p (mkAttempt w None :: tr) p'
| attempts_judged i p p1 p2 p' w e tr :
    asks p (lit "eval-worker-" ++ to_string_Z i) worker task = (w, p1) -> success w = true ->
    asks p1 (lit "eval-gate-" ++ to_string_Z i) (evaluator_agent_id gate)
      (evaluation_request gate (output w)) = (e, p2) ->
    attempts worker task gate (i + 1) p2 tr p' ->
    attempts worker task gate i p (mkAttempt w (Some e) :: tr) p'.

Definition outcome (gate : EvaluationGateConfig) (n : nat) (tr : list Attempt) (res : InteractionResult) : Prop :=
  (ok res = true /\ exists before a, tr = before ++ [a] /\
     Forall (fun b => accepted gate b = false) before /\ accepted gate a = true /\ final res = output (work a) /\ (length tr <= n)%nat) \/
  (ok res = false /\ length tr = n /\ Forall (fun b => accepted gate b = false) tr).

Lemma outcome_cons gate n tr res a :
  accepted gate a = false -> outcome gate n tr res -> outcome gate (S n) (a :: tr) res.
Proof.
  intros Ha [(Hok & before & b & -> & Hb & Hacc & Hf & Hl)|(Hok & Hl & Hall)].
  - left. split; [done|]. exists (a :: before), b. repeat split; auto. cbn [length app]. lia.
  - right. repeat split; [done|cbn; by rewrite Hl|by constructor].
Qed.

Lemma evaluator_loop_spec worker task gate n : forall i p res,
  let '(res', q) := evaluator_loop tool_order n i p worker task gate res in
  exists tr, attempts worker task gate i p tr q /\ outcome gate n tr res' /\
    agent_outputs res' = agent_outputs res ++ ((fun a => output (work a)) <$> tr) /\
    rounds res' = (rounds res + Z.of_nat (length tr))%Z.
Proof.
  induction n as [|n IH]; intros i p res; cbn [evaluator_loop].
  { exists []. split; [constructor|]. cbn. rewrite app_nil_r, Z.add_0_r. split; [|done]. right. by repeat split. }
  destruct (asks p (lit "eval-worker-" ++ to_string_Z i) worker task) as [w p1] eqn:Hw.
  destruct (success w) eqn:Hsw; cbn [negb].
  - destruct (asks p1 (lit "eval-gate-" ++ to_string_Z i) (evaluator_agent_id gate)
        (evaluation_request gate (output w))) as [e p2] eqn:He.
    assert (accepted gate (mkAttempt w (Some e)) = success e && gate_accepts gate (output e)) as Hacc
      by (unfold accepted; cbn; by rewrite Hsw).
    destruct (success e && gate_accepts gate (output e)) eqn:Hg.
    + exists [mkAttempt w (Some e)]. split; [by eapply attempts_judged; eauto; constructor|].
      split; [|done]. left. split; [done|]. exists [], (mkAttempt w (Some e)).
      repeat split; [constructor|done|cbn; lia].
    + set (res1 := add_time _ _). specialize (IH (i + 1)%Z p2 res1).
      destruct (evaluator_loop tool_order n (i + 1) p2 worker task gate res1) as [res' q].
      destruct IH as (tr & Ht & Ho & Hout & Hr). exists (mkAttempt w (Some e) :: tr).
      split; [by eapply attempts_judged|]. split; [by apply outcome_cons|].
      rewrite Hout, Hr. unfold res1. cbn [agent_outputs rounds add_time add_output add_round length fmap list_fmap work].
      rewrite <- app_assoc. split; [done|lia].
  - set (res1 := add_output _ _). specialize (IH (i + 1)%Z p1 res1).
    destruct (evaluator_loop tool_order n (i + 1) p1 worker task gate res1) as [res' q].
    destruct IH as (tr & Ht & Ho & Hout & Hr). exists (mkAttempt w None :: tr).
    split; [by eapply attempts_failed|]. split; [by apply outcome_cons|].
    rewrite Hout, Hr. unfold res1. cbn [agent_outputs rounds add_time add_output add_round length fmap list_fmap work].
    rewrite <- app_assoc. split; [done|lia].
Qed.

(** The gate tries at most [max_retries + 1] times: it stops at the first
    attempt the evaluator accepts and returns that work, and gives up only
    after rejecting every attempt. *)
Lemma run_with_evaluator_spec p worker task gate :
  let '(res, q) := run_with_evaluator tool_order p worker task gate in
  exists tr, attempts worker task gate 0 p tr q /\
    outcome gate (Z.to_nat (max_retries gate + 1)) tr res /\
    agent_outputs res = (fun a => output (work a)) <$> tr /\ rounds res = Z.of_nat (length tr) /\
    (length tr <= Z.to_nat (max_retries gate + 1))%nat.
Proof.
  unfold run_with_evaluator.
  pose proof (evaluator_loop_spec worker task gate (Z.to_nat (max_retries gate + 1)) 0 p (new_result false)) as Hs.
  destruct (evaluator_loop _ _ _ _ _ _ _ _) as [res q]. destruct Hs as (tr & Ht & Ho & Hout & Hr).
  exists tr. split; [done|]. split; [done|]. split; [done|]. split; [done|].
  destruct Ho as [(_ & ? & ? & _ & _ & _ & _ & Hl)|(_ & Hl & _)]; lia.
Qed.

(** *** Parallel agents and supervisors *)

(** The calls made one after the other, all on the same message. *)
Fixpoint all_asked (prefix : string) (p : P) (agents : list str) (msg : str) : list ProviderResponse * P :=
  match agents with
  | [] => ([], p)
  | a :: agents =>
      let '(r, p) := asks p (lit prefix ++ a) a msg in
      let '(rs, p) := all_asked prefix p agents msg in (r :: rs, p)
  end.

Lemma parallel_loop_spec agents task : forall p res,
  let '(rs, p') := all_asked "par-" p agents task in
  let '(res', q) := parallel_loop tool_order p agents task res in
  q = p' /\ agent_outputs res' = agent_outputs res ++ (output <$> rs) /\ rounds res' = rounds res /\
  ok res' = ok res && forallb success rs.
Proof.
  induction agents as [|a agents IH]; intros p res; cbn [all_asked parallel_loop].
  { cbn. by rewrite app_nil_r, andb_true_r. }
  destruct (asks p (lit "par-" ++ a) a task) as [r p1].
  set (res1 := if negb (success r) then _ else _). specialize (IH p1 res1).
  destruct (all_asked "par-" p1 agents task) as [rs p2].
  destruct (parallel_loop tool_order p1 agents task res1) as [res' q].
  destruct IH as (-> & Ho & Hn & Hk). rewrite Ho, Hn, Hk. unfold res1.
  destruct (success r) eqn:Hr; cbn; rewrite <- ?app_assoc, ?Hr; repeat split; cbn; by rewrite ?andb_false_r.
Qed.

(** [run_parallel] asks every agent, even after one failed, joins all the
    outputs and succeeds exactly when all of them did. *)
Theorem run_parallel_spec p agents task :
  let '(rs, p') := all_asked "par-" p agents task in
  let '(res, q) := run_parallel tool_order p agents task in
  q = p' /\ length rs = length agents /\ agent_outputs res = output <$> rs /\
  final res = combine_outputs (output <$> rs) /\ rounds res = 1%Z /\
  (ok res = true <-> Forall (fun r => success r = true) rs).
Proof.
  assert (forall p, length (all_asked "par-" p agents task).1 = length agents) as Hl.
  { clear p. induction agents as [|a agents IH]; intros p; [done|]. cbn [all_asked].
    destruct (asks p (lit "par-" ++ a) a task) as [r p1]. specialize (IH p1).
    destruct (all_asked "par-" p1 agents task). cbn in *. by rewrite IH. }
  specialize (Hl p). unfold run_parallel.
  pose proof (parallel_loop_spec agents task p (add_round (new_result true))) as Hs.
  destruct (all_asked "par-" p agents task) as [rs p']. cbn in Hl.
  destruct (parallel_loop _ _ _ _ _) as [res q]. destruct Hs as (-> & Ho & Hn & Hk). cbn in *.
  rewrite Ho, Hn, Hk. split_and!; try done. rewrite forallb_forall, Forall_forall. setoid_rewrite list_elem_of_In. done.
Qed.

Lemma workers_loop_spec workers subtask : forall p res,
  let '(rs, p') := all_asked "sv-worker-" p workers subtask in
  let '(res', q) := workers_loop tool_order p workers subtask res in
  q = p' /\ agent_outputs res' = agent_outputs res ++ (output <$> rs).
Proof.
  induction workers as [|w workers IH]; intros p res; cbn [all_asked workers_loop].
  { cbn. by rewrite app_nil_r. }
  destruct (asks p (lit "sv-worker-" ++ w) w subtask) as [r p1].
  set (res1 := if negb (success r) then _ else _). specialize (IH p1 res1).
  destruct (all_asked "sv-worker-" p1 workers subtask) as [rs p2].
  destruct (workers_loop tool_order p1 workers subtask res1) as [res' q].
  destruct IH as [-> Ho]. split; [done|]. rewrite Ho. unfold res1.
  destruct (success r); cbn; by rewrite <- app_assoc.
Qed.

(** [run_supervisor_worker] decomposes, asks every worker and aggregates all
    their outputs; whether it succeeds is the aggregation's answer alone, once
    the decomposition succeeded: the workers' failures are overwritten. *)
Theorem run_supervisor_worker_spec p cfg task :
  let '(d, p1) := asks p (lit "sv-decompose") (supervisor_agent_id cfg)
                    (decomposition_prompt cfg ++ eol2 ++ lit "Task: " ++ task) in
  let '(rs, p2) := all_asked "sv-worker-" p1 (worker_agent_ids cfg) (output d) in
  let '(agg, p3) := asks p2 (lit "sv-aggregate") (supervisor_agent_id cfg)
                      (aggregation_request cfg (output <$> rs)) in
  let '(res, q) := run_supervisor_worker tool_order p cfg task in
  if success d
  then q = p3 /\ agent_outputs res = output <$> rs /\ ok res = success agg /\ final res = output agg
  else q = p1 /\ agent_outputs res = [] /\ ok res = false /\ final res = error d.
Proof.
  unfold run_supervisor_worker.
  destruct (asks p (lit "sv-decompose") _ _) as [d p1]. destruct (success d) eqn:Hd; cbn [negb].
  - pose proof (workers_loop_spec (worker_agent_ids cfg) (output d) p1
      (add_round (add_time (new_result false) (response_ms d)))) as Hw.
    destruct (all_asked _ _ _ _) as [rs p2]. destruct (workers_loop _ _ _ _ _) as [res q].
    destruct Hw as [-> Ho]. cbn in Ho. rewrite Ho.
    destruct (asks p2 (lit "sv-aggregate") _ _) as [agg p3]. by cbn.
  - destruct (all_asked _ _ _ _) as [rs p2]. by destruct (asks p2 _ _ _).
Qed.

(** Text that is not a number passes the gate, whatever it says. *)
Lemma unreadable_score_accepted gate : gate_accepts gate (lit "FAIL") = true.
Proof. done. Qed.
End properties.

(** ** Examples *)

(** A provider that fails on the subtask "sub" and answers "sub" otherwise. *)
Definition sample_provider : Provider SampleJson.value unit := {|
  route p _ _ := (mkModelSpec [] (lit "m") [] d_zero SampleJson.Null, p);
  provider_switch_model p _ := (true, p);
  execute p _ prompt := (mkResponse (negb (bool_decide (prompt = lit "User: sub" ++ eol2)))
                           (lit "sub") (lit "down") 0 0 d_zero, p) |}.

(** Every worker fails and the workflow reports success. *)
Lemma worker_failure_forgotten :
  let cfg := mkSupervisor (lit "boss") [lit "w1"; lit "w2"] (lit "split") (lit "join") 3 in
  let '(rs, _) := @all_asked SampleJson.json unit sample_provider (fun _ => []) "sv-worker-" tt
                    (worker_agent_ids cfg) (lit "sub") in
  Forall (fun r => success r = false) rs /\
  ok (@run_supervisor_worker SampleJson.json unit sample_provider (fun _ => []) tt cfg (lit "t")).1 = true.
Proof. split; [repeat constructor|]. by vm_compute. Qed.
