(* ===== verification/AgentLoop.v ===== *)
(** * The agent loop: [libs/runtime/src/agent_loop.cpp], [context_engine.cpp]
      and [iteration_budget.hpp]

    The iteration budget is an atomic counter that threads change by
    compare-and-swap loops; [bstep] is its interleaving semantics, a load or a
    compare-and-swap of one thread at a time.  A weak compare-and-swap may fail
    although the value is the expected one.  The harness uses the budget from
    one thread, where a call is the function it computes ([try_consume]). *)

From Stdlib Require Import ZArith Ascii String Lia SpecFloat.
From stdpp Require Import base list gmap strings.
From S2P Require Import Prelude CxxString Doubles DoubleBounds Sessions AgentSession.

Open Scope Z_scope.

(** ** The iteration budget *)

Record IterationBudget : Type := mkBudget { budget_max : Z; budget_remaining : Z }.

Definition kDefaultParent : Z := 90.
Definition kDefaultSubagent : Z := 50.

Definition new_budget (max : Z) : IterationBudget := mkBudget max max.
Definition set_remaining (b : IterationBudget) (r : Z) : IterationBudget := mkBudget (budget_max b) r.

(** Calls without contention. *)
Definition try_consume (b : IterationBudget) : bool * IterationBudget :=
  if 0 <? budget_remaining b then (true, set_remaining b (budget_remaining b - 1)) else (false, b).
Definition refund (b : IterationBudget) : bool * IterationBudget :=
  if budget_remaining b <? budget_max b then (true, set_remaining b (budget_remaining b + 1)) else (false, b).
Definition budget_reset (b : IterationBudget) : IterationBudget := set_remaining b (budget_max b).
Definition consumed (b : IterationBudget) : Z := budget_max b - budget_remaining b.
Definition exhausted (b : IterationBudget) : bool := budget_remaining b =? 0.

(** *** Threads *)

Inductive Call : Type := Consume | Refund.
#[export] Instance Call_eq_dec : EqDecision Call.
Proof. solve_decision. Defined.

(** A call before its load, in its loop with the value last seen, returned. *)
Inductive Thread : Type :=
| Start (c : Call)
| Loop (c : Call) (current : Z)
| Returned (c : Call) (result : bool).

(** The loop condition, and the value the exchange would store. *)
Definition goes_on (c : Call) (max current : Z) : bool :=
  match c with Consume => 0 <? current | Refund => current <? max end.
Definition desired (c : Call) (current : Z) : Z :=
  match c with Consume => current - 1 | Refund => current + 1 end.

Record Shared : Type := mkShared { budget : IterationBudget; threads : list Thread }.

Inductive bstep : Shared -> Shared -> Prop :=
| bstep_load b ts i c :
    ts !! i = Some (Start c) ->
    bstep (mkShared b ts) (mkShared b (<[i := Loop c (budget_remaining b)]> ts))
| bstep_leave b ts i c current :
    ts !! i = Some (Loop c current) -> goes_on c (budget_max b) current = false ->
    bstep (mkShared b ts) (mkShared b (<[i := Returned c false]> ts))
| bstep_exchange b ts i c current :
    ts !! i = Some (Loop c current) -> goes_on c (budget_max b) current = true ->
    budget_remaining b = current ->
    bstep (mkShared b ts) (mkShared (set_remaining b (desired c current)) (<[i := Returned c true]> ts))
| bstep_retry b ts i c current :
    ts !! i = Some (Loop c current) -> goes_on c (budget_max b) current = true ->
    bstep (mkShared b ts) (mkShared b (<[i := Loop c (budget_remaining b)]> ts)).

Definition returned (t : Thread) : Prop := match t with Returned _ _ => True | _ => False end.

(** ** The context engine *)

Record CompactionPlan : Type := mkPlan {
  keep_head : Z; keep_tail : Z; compact_start : Z; compact_end : Z; summary_role : str;
}.
Definition plan_is_empty (p : CompactionPlan) : bool := compact_end p <=? compact_start p.
Definition compact_count (p : CompactionPlan) : Z := u64 (compact_end p - compact_start p).
Definition empty_plan : CompactionPlan := mkPlan 0 0 0 0 (lit "system").

Record EngineConfig : Type := mkEngine {
  keep_head_messages : Z; keep_tail_messages : Z; trigger_ratio : double;
}.
Definition default_engine : EngineConfig := mkEngine 4 6 (d_lit 3 4).

(** [static_cast<std::size_t>] of a double that is not negative; [None] where
    the value does not fit. *)
Definition to_size (d : double) : option Z :=
  match d with
  | S754_zero _ => Some 0
  | S754_finite false m e =>
      let v := if 0 <=? e then Z.pos m * 2 ^ e else Z.pos m / 2 ^ (- e) in
      if v <? 2 ^ 64 then Some v else None
  | _ => None
  end.

Definition threshold (cfg : EngineConfig) (context_window : Z) : option Z :=
  let t := d_mul (d_of_Z context_window) (trigger_ratio cfg) in
  if d_lt t d_zero then Some 0 else to_size t.

(** [WindowedContextEngine::plan], of the number of messages. *)
Definition plan (cfg : EngineConfig) (n estimated_tokens context_window : Z) : option CompactionPlan :=
  if context_window =? 0 then Some empty_plan
  else
    t ← threshold cfg context_window;
    if estimated_tokens <? t then Some empty_plan
    else
      let head := keep_head_messages cfg in
      let tail := keep_tail_messages cfg in
      if n <=? u64 (head + tail) then Some empty_plan
      else Some (mkPlan head tail head (u64 (n - tail)) (lit "system")).

Definition estimate_tokens (ms : list SessionMessage) : Z :=
  foldl (fun bytes m => u64 (bytes + Z.of_nat (length (content m)))) 0 ms / 4.

(** ** The harness *)

Record TurnResult : Type := mkTurn {
  provider_response : ProviderResponse; budget_consumed : bool; compaction_recommended : bool;
  compaction_plan : CompactionPlan; messages_after : Z;
}.

(** An [IContextEngine] is its [plan]. *)
Definition windowed (cfg : EngineConfig) (ms : list SessionMessage) (tokens window : Z) : option CompactionPlan :=
  plan cfg (Z.of_nat (length ms)) tokens window.

Record AgentLoopHarness : Type := mkHarness {
  loop_session_id : str; loop_agent_id : str; context_window : Z;
  engine : list SessionMessage -> Z -> Z -> option CompactionPlan; loop_budget : IterationBudget; loop_messages : list SessionMessage;
}.

(** The constructor; without an engine it makes the default one. *)
Definition new_harness (sid aid : str) (budget_max window : Z) 
    (e : option (list SessionMessage -> Z -> Z -> option CompactionPlan)) : AgentLoopHarness :=
  mkHarness sid aid window (default (windowed default_engine) e) (new_budget budget_max) [].

Definition set_budget (h : AgentLoopHarness) (b : IterationBudget) : AgentLoopHarness :=
  mkHarness (loop_session_id h) (loop_agent_id h) (context_window h) (engine h) b (loop_messages h).
Definition add_message (h : AgentLoopHarness) (m : SessionMessage) : AgentLoopHarness :=
  mkHarness (loop_session_id h) (loop_agent_id h) (context_window h) (engine h) (loop_budget h)
    (loop_messages h ++ [m]).

Definition check_compaction (h : AgentLoopHarness) : option CompactionPlan :=
  engine h (loop_messages h) (estimate_tokens (loop_messages h)) (context_window h).

Definition failed (e : str) : ProviderResponse := mkResponse false [] e 0 0 d_zero.

(** [provider_call] is an optional function; [None] is the undefined
    conversion of the threshold. *)
Definition run_turn (h : AgentLoopHarness) (provider_call : option (unit -> ProviderResponse)) :
    option (TurnResult * AgentLoopHarness) :=
  let size := Z.of_nat (length (loop_messages h)) in
  let '(consumed, b) := try_consume (loop_budget h) in
  let h := set_budget h b in
  if negb consumed then
    Some (mkTurn (failed (lit "budget exhausted")) false false empty_plan size, h)
  else
    p ← check_compaction h;
    let r := match provider_call with
             | Some call => call tt
             | None => failed (lit "no provider_call supplied")
             end in
    Some (if plan_is_empty p then mkTurn r true false empty_plan size else mkTurn r true true p size, h).

(** ** The budget under contention *)

(** The calls that returned true. *)
Definition won (c : Call) (t : Thread) : Z :=
  match t with Returned c' true => if decide (c = c') then 1 else 0 | _ => 0 end.
Definition wins (c : Call) (ts : list Thread) : Z := sumz (imap (fun _ => won c) ts).

Lemma wins_insert c ts i t t' : ts !! i = Some t -> wins c (<[i := t']> ts) = wins c ts - won c t + won c t'.
Proof. apply (sumz_imap_insert (fun _ => won c)). Qed.

Lemma wins_none c ts : Forall (fun t => won c t = 0) ts -> wins c ts = 0.
Proof. intros Hf. apply sumz_imap_zero. intros i w Hw. by apply (Forall_lookup_1 _ _ _ _ Hf Hw). Qed.

Lemma wins_range c ts : 0 <= wins c ts <= Z.of_nat (length ts).
Proof.
  unfold wins. induction ts as [|t ts IH]; [done|]. rewrite imap_cons. unfold sumz in *. cbn [foldr length].
  change (imap ((fun _ => won c) ∘ S) ts) with (imap (fun _ : nat => won c) ts).
  assert (0 <= won c t <= 1) by (destruct t as [| |? []]; cbn; try case_decide; lia). lia.
Qed.

(** The counter stays in its range and accounts for every call that
    succeeded. *)
Definition accounted (m : Z) (sh : Shared) : Prop :=
  budget_max (budget sh) = m /\ 0 <= budget_remaining (budget sh) <= m /\
  budget_remaining (budget sh) + wins Consume (threads sh) = m + wins Refund (threads sh).

Lemma bstep_accounted m sh sh' : accounted m sh -> bstep sh sh' -> accounted m sh'.
Proof.
  intros (Hm & Hr & Hw) Hstep. destruct Hstep as [b ts i c Hi|b ts i c cur Hi Hg|b ts i c cur Hi Hg Hc|b ts i c cur Hi Hg];
    unfold accounted in *; cbn [budget threads budget_max budget_remaining set_remaining] in *;
    rewrite (wins_insert Consume _ _ _ _ Hi), (wins_insert Refund _ _ _ _ Hi);
    destruct c; cbn [won goes_on desired] in *; repeat (case_decide; try done); bool_to_prop; lia.
Qed.

(** At every moment of every interleaving of consuming and refunding threads
    the remaining budget lies between zero and its capacity, and the calls that
    succeeded account for it exactly, so that at most the capacity plus the
    refunds was ever granted. *)
Theorem budget_accounts m cs sh :
  0 <= m -> steps bstep (mkShared (new_budget m) (Start <$> cs)) sh ->
  0 <= budget_remaining (budget sh) <= m /\
  wins Consume (threads sh) = m - budget_remaining (budget sh) + wins Refund (threads sh).
Proof.
  intros Hm Hs. assert (accounted m sh) as (_ & Hr & Hw); [|split; [done|lia]].
  eapply (steps_invariant bstep (accounted m)); [intros; by eapply bstep_accounted|exact Hs|].
  assert (forall c, wins c (Start <$> cs) = 0) as H0.
  { intros c. apply wins_none. apply Forall_forall. by intros t (? & -> & _)%list_elem_of_fmap. }
  unfold accounted. cbn [budget threads new_budget budget_max budget_remaining]. rewrite !H0. lia.
Qed.

(** *** Only consumers *)

Definition consumer (t : Thread) : Prop :=
  match t with Start c | Loop c _ | Returned c _ => c = Consume end.
(** Has the thread seen the counter at zero? *)
Definition saw_zero (t : Thread) : Prop :=
  match t with Loop _ cur => cur = 0 | Returned _ false => True | _ => False end.

Definition consumers_inv (m : Z) (n : nat) (sh : Shared) : Prop :=
  accounted m sh /\ length (threads sh) = n /\ Forall consumer (threads sh) /\
  (Exists saw_zero (threads sh) -> budget_remaining (budget sh) = 0) /\
  Forall (fun t => match t with Loop _ cur => 0 <= cur | _ => True end) (threads sh).

Lemma Exists_insert_inv {A} (Q : A -> Prop) (l : list A) i x : Exists Q (<[i := x]> l) -> Q x \/ Exists Q l.
Proof.
  rewrite !Exists_exists. intros (y & Hy & HQ). apply list_elem_of_lookup in Hy as [j Hj].
  apply list_lookup_insert_Some in Hj as [(-> & -> & _)|[_ Hj]]; [by left|].
  right. exists y. split; [by eapply list_elem_of_lookup_2|done].
Qed.

Lemma bstep_consumers m n sh sh' : consumers_inv m n sh -> bstep sh sh' -> consumers_inv m n sh'.
Proof.
  intros (Ha & Hl & Hc & Hz & Hn) Hstep. split; [by eapply bstep_accounted|].
  destruct Ha as (_ & Hr & _). cbn in *.
  assert (forall i t, threads sh !! i = Some t -> consumer t) as Hct by (intros; by eapply Forall_lookup_1 in Hc).
  assert (forall i c cur, threads sh !! i = Some (Loop c cur) -> 0 <= cur) as Hnn.
  { intros i c cur Hi. by apply (Forall_lookup_1 _ _ _ _ Hn Hi). }
  assert (forall i t, threads sh !! i = Some t -> saw_zero t -> budget_remaining (budget sh) = 0) as Hsz.
  { intros i t Hi Ht. apply Hz, Exists_exists. exists t. split; [by eapply list_elem_of_lookup_2|done]. }
  destruct Hstep as [b ts i c Hi|b ts i c cur Hi Hg|b ts i c cur Hi Hg Hcur|b ts i c cur Hi Hg];
    cbn [budget threads] in *; pose proof (Hct _ _ Hi) as Hcc; cbn in Hcc; subst c; rewrite length_insert;
    (split; [done|]); (split; [by apply Forall_insert|]).
  - split; [|by apply Forall_insert; [|cbn; lia]].
    intros [Hx|Hx]%Exists_insert_inv; [done|by apply Hz].
  - split; [|by apply Forall_insert].
    intros [_|Hx]%Exists_insert_inv; [|by apply Hz].
    cbn in Hg. bool_to_prop. apply (Hsz _ _ Hi). cbn. specialize (Hnn _ _ _ Hi). lia.
  - split; [|by apply Forall_insert]. cbn in Hg. bool_to_prop.
    intros [Hx|Hx]%Exists_insert_inv; [done|]. apply Hz in Hx. lia.
  - split; [|by apply Forall_insert; [|cbn; lia]].
    intros [Hx|Hx]%Exists_insert_inv; [done|by apply Hz].
Qed.

Lemma all_won ts : Forall returned ts -> Forall consumer ts -> ~ Exists saw_zero ts ->
  wins Consume ts = Z.of_nat (length ts).
Proof.
  intros Hr Hc Hn. unfold wins. induction ts as [|t ts IH]; [done|].
  apply Forall_cons in Hr as [Ht Hr], Hc as [Htc Hc]. rewrite imap_cons. unfold sumz in *. cbn [foldr length].
  change (imap ((fun _ => won Consume) ∘ S) ts) with (imap (fun _ : nat => won Consume) ts).
  rewrite (IH Hr Hc); [|intros Hx; apply Hn; by right].
  destruct t as [| |c []]; try done; cbn in Htc; subst;
    [cbn [won]; rewrite decide_True by done; lia|]. destruct Hn. by left.
Qed.

Lemma some_lost ts : Exists saw_zero ts -> Forall returned ts -> wins Consume ts <= Z.of_nat (length ts) - 1.
Proof.
  intros Hx Hr. unfold wins. induction Hx as [t ts Ht|t ts Hx IH]; apply Forall_cons in Hr as [Ht' Hr];
    rewrite imap_cons; unfold sumz in *; cbn [foldr length];
    change (imap ((fun _ => won Consume) ∘ S) ts) with (imap (fun _ : nat => won Consume) ts).
  - pose proof (wins_range Consume ts). unfold wins, sumz in *. destruct t as [| |c []]; cbn [won] in *; try done; cbn in Ht; try done; lia.
  - specialize (IH Hr). assert (won Consume t <= 1) by (destruct t as [| |c []]; cbn; try case_decide; lia). lia.
Qed.

(** C21: when any number of threads consume from a fresh budget and all have
    returned, exactly as many succeeded as there were iterations, or all of
    them if they were fewer: contention neither loses nor invents any. *)
Theorem budget_exact m n sh :
  0 <= m -> steps bstep (mkShared (new_budget m) (replicate n (Start Consume))) sh ->
  Forall returned (threads sh) ->
  wins Consume (threads sh) = Z.min m (Z.of_nat n).
Proof.
  intros Hm Hs Hret.
  assert (consumers_inv m n sh) as ((_ & Hr & Hw) & Hl & Hc & Hz & _).
  { eapply (steps_invariant bstep (consumers_inv m n)); [intros; by eapply bstep_consumers|exact Hs|].
    assert (forall c, wins c (replicate n (Start Consume)) = 0) as H0.
    { intros c. by apply wins_none, Forall_replicate. }
    split; [unfold accounted; cbn [budget threads new_budget budget_max budget_remaining]; rewrite !H0; lia|].
    split; [apply length_replicate|]. split; [by apply Forall_replicate|].
    split; [|by apply Forall_replicate]. cbn. intros (t & [-> _]%elem_of_replicate & [])%Exists_exists. }
  assert (wins Refund (threads sh) = 0) as Hrf.
  { apply wins_none. eapply Forall_impl; [exact Hc|]. intros [| |c []]; cbn; intros; subst; done. }
  rewrite <- Hl. pose proof (wins_range Consume (threads sh)).
  destruct (decide (wins Consume (threads sh) = Z.of_nat (length (threads sh)))) as [E|Hne]; [lia|].
  assert (~ ~ Exists saw_zero (threads sh)) as Hx by (intros Hx; by apply Hne, all_won).
  assert (budget_remaining (budget sh) = 0) as H0.
  { destruct (Z.eq_dec (budget_remaining (budget sh)) 0) as [|Hn0]; [done|].
    destruct Hx. intros Hx. by apply Hn0, Hz. }
  lia.
Qed.

(** Without contention a call that returns is the sequential function. *)
Lemma consume_alone m r b t :
  steps bstep (mkShared (mkBudget m r) [Start Consume]) (mkShared b [t]) -> returned t ->
  t = Returned Consume (try_consume (mkBudget m r)).1 /\ b = (try_consume (mkBudget m r)).2.
Proof.
  set (inv := fun sh : Shared => exists t, threads sh = [t] /\
    match t with
    | Start c => c = Consume /\ budget sh = mkBudget m r
    | Loop c cur => c = Consume /\ cur = r /\ budget sh = mkBudget m r
    | Returned c x => c = Consume /\ (x, budget sh) = try_consume (mkBudget m r)
    end).
  intros Hs Ht. assert (inv (mkShared b [t])) as (t' & [= <-] & Hinv).
  { eapply (steps_invariant bstep inv); [|exact Hs|by eexists].
    intros sh sh' (t' & Hth & Hi) Hstep.
    destruct Hstep as [b' ts i c Hl|b' ts i c cur Hl Hg|b' ts i c cur Hl Hg Hcur|b' ts i c cur Hl Hg];
      cbn in Hth, Hi; subst ts; destruct i as [|[|i]]; try done; injection Hl as ->; eexists; (split; [done|]);
      destruct_and?; subst; unfold try_consume; cbn in *; rewrite ?Hg; done. }
  destruct t as [| |c x]; try done. destruct Hinv as [-> Hx]. rewrite <- Hx. done.
Qed.

(** ** Compaction plans *)

(** A plan that is not empty splits the conversation: with no wrap-around the
    kept head, the range to summarise and the kept tail are exactly its
    messages, in order, and the range is not empty. *)
Theorem plan_partition cfg (ms : list SessionMessage) tokens window p :
  0 <= keep_head_messages cfg -> 0 <= keep_tail_messages cfg ->
  keep_head_messages cfg + keep_tail_messages cfg < 2 ^ 64 -> Z.of_nat (length ms) < 2 ^ 64 ->
  windowed cfg ms tokens window = Some p -> plan_is_empty p = false ->
  let head := Z.to_nat (keep_head p) in
  let tail := Z.to_nat (keep_tail p) in
  ms = take head ms ++ take (Z.to_nat (compact_count p)) (drop head ms) ++ drop (length ms - tail) ms /\
  keep_head p + compact_count p + keep_tail p = Z.of_nat (length ms) /\ 0 < compact_count p /\
  keep_head p = keep_head_messages cfg /\ keep_tail p = keep_tail_messages cfg /\
  exists t, threshold cfg window = Some t /\ t <= tokens.
Proof.
  intros H1 H2 H3 H4. unfold windowed, plan. destruct (window =? 0); [by intros [= <-]|].
  destruct (threshold cfg window) as [t|]; cbn [mbind option_bind]; [|done].
  destruct (tokens <? t) eqn:Et; [by intros [= <-]|].
  rewrite u64_small by lia. destruct (_ <=? _) eqn:En; [by intros [= <-]|]. intros [= <-] _.
  bool_to_prop. rewrite u64_small by lia. unfold compact_count.
  cbn [keep_head keep_tail compact_start compact_end]. rewrite u64_small by lia.
  split; [|repeat split; eauto with lia].
  rewrite <- (take_drop (Z.to_nat (keep_head_messages cfg)) ms) at 1. f_equal.
  rewrite <- (take_drop (Z.to_nat (Z.of_nat (length ms) - keep_tail_messages cfg - keep_head_messages cfg))
    (drop (Z.to_nat (keep_head_messages cfg)) ms)) at 1. f_equal.
  rewrite drop_drop. f_equal. lia.
Qed.

(** ** Turns *)

(** The turns of a run; before each some messages arrive. *)
Fixpoint run_turns (h : AgentLoopHarness)
    (turns : list (list SessionMessage * option (unit -> ProviderResponse))) : option (list TurnResult) :=
  match turns with
  | [] => Some []
  | (ms, call) :: turns =>
      step ← run_turn (foldl add_message h ms) call;
      rest ← run_turns (snd step) turns;
      Some (fst step :: rest)
  end.

Definition answer (call : option (unit -> ProviderResponse)) : ProviderResponse :=
  match call with Some f => f tt | None => failed (lit "no provider_call supplied") end.

Lemma fold_add_message h ms : loop_budget (foldl add_message h ms) = loop_budget h /\
  engine (foldl add_message h ms) = engine h /\ context_window (foldl add_message h ms) = context_window h.
Proof. revert h. induction ms as [|m ms IH]; intros h; [done|]. cbn. by destruct (IH (add_message h m)) as (-> & -> & ->). Qed.

(** Does the engine of a harness answer at its window?  The windowed engine
    does, at every window up to [2 ^ 63] tokens: its threshold then fits a size. *)
Definition answers (h : AgentLoopHarness) : Prop :=
  forall ms t, is_Some (engine h ms t (context_window h)).

Lemma to_size_bound k d : k <= 63 -> pos_le k d -> is_Some (to_size d).
Proof.
  intros Hk. destruct d as [[]|[]| |[] m e]; try done. cbn [pos_le to_size].
  intros [He Hm]. set (v := if 0 <=? e then _ else _). assert (v < 2 ^ 64) as Hv; [|rewrite (proj2 (Z.ltb_lt _ _) Hv); by eexists].
  assert (2 ^ k <= 2 ^ 63) by (destruct (Z.leb_spec 0 k); [apply Z.pow_le_mono_r; lia|rewrite (Z.pow_neg_r 2 k) by lia; lia]).
  subst v. destruct (Z.leb_spec 0 e).
  - assert (Z.pos m * 2 ^ e <= 2 ^ (k - e) * 2 ^ e) by (apply Z.mul_le_mono_nonneg_r; lia).
    rewrite <-Z.pow_add_r in * by lia. replace (k - e + e) with k in * by lia. lia.
  - assert (Z.pos m <= 2 ^ 63 * 2 ^ (- e)).
    { rewrite <-Z.pow_add_r by lia. etransitivity; [exact Hm|]. apply Z.pow_le_mono_r; lia. }
    assert (Z.pos m / 2 ^ (- e) <= 2 ^ 63); [|lia]. apply Z.div_le_upper_bound; [lia|]. by rewrite Z.mul_comm.
Qed.

Lemma threshold_defined cfg w :
  pos_le 0 (trigger_ratio cfg) -> 0 <= w <= 2 ^ 63 -> is_Some (threshold cfg w).
Proof.
  intros Hr Hw. unfold threshold. destruct (d_lt _ _); [by eexists|].
  apply (to_size_bound 63); [done|]. apply (mul_le 63 0); [done| |done].
  apply normalize_le; [done|lia|]. split; [lia|]. change (63 - 0) with 63. lia.
Qed.

Lemma windowed_answers cfg ms t w :
  pos_le 0 (trigger_ratio cfg) -> 0 <= w <= 2 ^ 63 -> is_Some (windowed cfg ms t w).
Proof.
  intros Hr Hw. unfold windowed, plan. destruct (w =? 0); [by eexists|].
  destruct (threshold_defined cfg w Hr Hw) as [z ->]. cbn [mbind option_bind]. by repeat case_match; eexists.
Qed.

Lemma run_turn_spec h call :
  answers h ->
  exists r h', run_turn h call = Some (r, h') /\ engine h' = engine h /\ context_window h' = context_window h /\
    budget_remaining (loop_budget h') =
      (if 0 <? budget_remaining (loop_budget h) then budget_remaining (loop_budget h) - 1 else budget_remaining (loop_budget h)) /\
    budget_consumed r = (0 <? budget_remaining (loop_budget h)) /\
    provider_response r =
      if 0 <? budget_remaining (loop_budget h) then answer call else failed (lit "budget exhausted").
Proof.
  intros He. unfold run_turn, try_consume. destruct (0 <? budget_remaining (loop_budget h)) eqn:E; cbn [negb].
  - unfold check_compaction. cbn [engine set_budget loop_messages context_window].
    destruct (He (loop_messages h) (estimate_tokens (loop_messages h))) as [p ->].
    cbn [mbind option_bind]. eexists _, _. split; [done|]. by destruct (plan_is_empty p).
  - eexists _, _. split; [done|]. done.
Qed.

Lemma run_turns_spec h turns :
  answers h ->
  exists rs, run_turns h turns = Some rs /\ length rs = length turns /\
  forall i r ms call, rs !! i = Some r -> turns !! i = Some (ms, call) ->
    budget_consumed r = (Z.of_nat i <? budget_remaining (loop_budget h)) /\
    provider_response r =
      if Z.of_nat i <? budget_remaining (loop_budget h) then answer call else failed (lit "budget exhausted").
Proof.
  revert h. induction turns as [|[ms call] turns IH]; intros h He; cbn [run_turns].
  { exists []. split; [done|]. split; [done|]. by intros i. }
  destruct (fold_add_message h ms) as (Eb & Ee & Ew).
  destruct (run_turn_spec (foldl add_message h ms) call) as (r & h' & -> & He' & Hw' & Hb' & Hc & Hp);
    [intros ms' t'; by rewrite Ee, Ew|]. rewrite Eb in *. rewrite Ee in He'. rewrite Ew in Hw'. cbn [mbind option_bind fst snd].
  destruct (IH h') as (rs & -> & Hl & Hrs); [intros ms' t'; by rewrite He', Hw'|].
  exists (r :: rs). split; [done|]. split; [cbn; by rewrite Hl|].
  intros [|i] r' ms' call'; cbn [lookup list_lookup].
  - intros [= <-] [= -> ->]. done.
  - intros Hi Ht. destruct (Hrs i r' ms' call' Hi Ht) as [-> ->]. rewrite Hb'.
    assert ((Z.of_nat i <? (if 0 <? budget_remaining (loop_budget h) then budget_remaining (loop_budget h) - 1
      else budget_remaining (loop_budget h))) = (Z.of_nat (S i) <? budget_remaining (loop_budget h))) as ->; [|done].
    apply eq_bool_prop_intro. rewrite !Is_true_true, !Z.ltb_lt. destruct (Z.ltb_spec 0 (budget_remaining (loop_budget h))); lia.
Qed.

(** C22: a harness made with a budget of [m] iterations buys exactly [m]
    turns: whatever arrives in between and for any provider functions that
    return, every turn returns, the first [m] call
    the provider and return its answer, and every later one fails without
    calling it.  With the harness's own engine this holds at every context
    window of up to [2 ^ 63] tokens; an engine that is supplied has to answer at
    that window. *)
Theorem budget_bounds_turns sid aid m window e turns :
  0 <= window <= 2 ^ 63 ->
  (forall own, e = Some own -> forall ms t, is_Some (own ms t window)) ->
  exists rs, run_turns (new_harness sid aid m window e) turns = Some rs /\ length rs = length turns /\
  forall i r ms call, rs !! i = Some r -> turns !! i = Some (ms, call) ->
    budget_consumed r = (Z.of_nat i <? m) /\
    provider_response r = if Z.of_nat i <? m then answer call else failed (lit "budget exhausted").
Proof.
  intros Hw He. apply run_turns_spec. intros ms t. cbn [engine context_window new_harness].
  destruct e as [own|]; cbn [default]; [by apply He|]. by apply windowed_answers.
Qed.

(** ** Witnesses *)

Lemma budget_accounts_witness :
  0 <= 1 /\ steps bstep (mkShared (new_budget 1) (Start <$> [Consume])) (mkShared (mkBudget 1 0) [Returned Consume true]) /\
  wins Consume [Returned Consume true] = 1.
Proof.
  assert (steps bstep (mkShared (new_budget 1) (Start <$> [Consume]))
    (mkShared (mkBudget 1 0) [Returned Consume true])) as Hs.
  { eapply steps_cons; [by apply (bstep_load _ _ 0 Consume)|].
    eapply steps_cons; [by apply (bstep_exchange _ _ 0 Consume 1)|]. apply steps_nil. }
  split; [lia|]. split; [done|]. destruct (budget_accounts 1 [Consume] _ ltac:(lia) Hs) as [_ Hw].
  cbn [budget threads] in Hw. exact Hw.
Defined.

Lemma budget_exact_witness :
  exists sh, steps bstep (mkShared (new_budget 1) (replicate 2 (Start Consume))) sh /\
    Forall returned (threads sh) /\ wins Consume (threads sh) = 1.
Proof.
  exists (mkShared (mkBudget 1 0) [Returned Consume true; Returned Consume false]).
  assert (steps bstep (mkShared (new_budget 1) (replicate 2 (Start Consume)))
    (mkShared (mkBudget 1 0) [Returned Consume true; Returned Consume false])) as Hs.
  { eapply steps_cons; [by apply (bstep_load _ _ 0 Consume)|].
    eapply steps_cons; [by apply (bstep_load _ _ 1 Consume)|].
    eapply steps_cons; [by apply (bstep_exchange _ _ 0 Consume 1)|].
    eapply steps_cons; [by apply (bstep_retry _ _ 1 Consume 1)|].
    eapply steps_cons; [by apply (bstep_leave _ _ 1 Consume 0)|]. apply steps_nil. }
  assert (Forall returned [Returned Consume true; Returned Consume false]) as Hr by (by repeat constructor).
  split; [done|]. split; [done|]. exact (budget_exact 1 2 _ ltac:(lia) Hs Hr).
Defined.

Definition twelve : list SessionMessage := replicate 12 (mkMessage User (lit "hi") [] [] [] d_zero []).

Lemma plan_partition_witness :
  exists p, windowed default_engine twelve 100 100 = Some p /\ compact_count p = 2.
Proof.
  destruct (windowed default_engine twelve 100 100) as [p|] eqn:E; [|by vm_compute in E].
  exists p. split; [done|].
  destruct (plan_partition default_engine twelve 100 100 p) as (_ & Hs & _ & Hh & Ht & _);
    [by vm_compute|by vm_compute|by vm_compute|by vm_compute|done| |].
  - vm_compute in E. by injection E as <-.
  - rewrite Hh, Ht in Hs. change (keep_head_messages default_engine) with 4 in Hs.
    change (keep_tail_messages default_engine) with 6 in Hs. change (Z.of_nat (length twelve)) with 12 in Hs. lia.
Defined.

Lemma budget_bounds_turns_witness :
  exists rs, run_turns (new_harness [] [] 1 200000 None) [([], None); (twelve, None); ([], None)] = Some rs /\ length rs = 3%nat /\
    budget_consumed <$> rs !! 0%nat = Some true /\ budget_consumed <$> rs !! 1%nat = Some false.
Proof.
  destruct (budget_bounds_turns [] [] 1 200000 None [([], None); (twelve, None); ([], None)])
    as (rs & Hr & Hl & Hrs); [lia|intros own; discriminate|]. exists rs. split; [exact Hr|]. split; [exact Hl|].
  destruct rs as [|r0 [|r1 rs]]; [discriminate Hl|discriminate Hl|].
  destruct (Hrs 0%nat r0 [] None eq_refl eq_refl) as [E0 _]. destruct (Hrs 1%nat r1 twelve None eq_refl eq_refl) as [E1 _].
  cbn. rewrite E0, E1. split; reflexivity.
Defined.
