(* ===== verification/Lifecycle.v ===== *)
(** * Agent life cycles: [libs/runtime/src/lifecycle.cpp]

    The manager keeps the state of every agent and the transitions made, and
    mirrors both on disk: a file per agent and a log of one JSON line per
    transition.  The file system is a map from paths to contents; [log_ok] and
    [state_ok] say whether the two output streams of a transition work, which
    the code does not look at.  A transition whose log line cannot be written
    because a string is not UTF-8 throws half-way: its result is [None]. *)

From Stdlib Require Import ZArith Ascii String Lia.
From stdpp Require Import base list gmap strings.
From S2P Require Import Prelude CxxString Lines Clock Json JsonText Paths.

Inductive AgentState : Type := Idle | Ready | Running | Paused | Completed | Failed | Terminated.
#[export] Instance AgentState_eq_dec : EqDecision AgentState.
Proof. solve_decision. Defined.

Definition state_to_string (s : AgentState) : str :=
  match s with
  | Idle => lit "idle" | Ready => lit "ready" | Running => lit "running" | Paused => lit "paused"
  | Completed => lit "completed" | Failed => lit "failed" | Terminated => lit "terminated"
  end.

Definition state_from_string (s : str) : AgentState :=
  if bool_decide (s = lit "ready") then Ready
  else if bool_decide (s = lit "running") then Running
  else if bool_decide (s = lit "paused") then Paused
  else if bool_decide (s = lit "completed") then Completed
  else if bool_decide (s = lit "failed") then Failed
  else if bool_decide (s = lit "terminated") then Terminated
  else Idle.

Definition valid_transitions (from : AgentState) : list AgentState :=
  match from with
  | Idle => [Ready; Terminated]
  | Ready => [Running; Terminated]
  | Running => [Paused; Completed; Failed; Terminated]
  | Paused => [Running; Terminated]
  | Completed => [Idle]
  | Failed => [Idle; Terminated]
  | Terminated => []
  end.

Record Transition : Type := mkTransition {
  t_agent : str; t_from : AgentState; t_to : AgentState; t_session : str; t_timestamp : str;
}.

Record LifecycleManager : Type := mkManager { states : gmap str AgentState; transitions : list Transition }.
Definition new_manager : LifecycleManager := mkManager ∅ [].

Definition get_state (m : LifecycleManager) (agent : str) : AgentState := default Idle (states m !! agent).

Definition history (m : LifecycleManager) (agent : str) : list Transition :=
  List.filter (fun t => bool_decide (t_agent t = agent)) (transitions m).

Section lifecycle.
Context `{JsonText} (lifecycle_dir : path).

Definition state_file (agent : str) : path := path_append lifecycle_dir (agent ++ lit ".state").
Definition transitions_file : path := path_append lifecycle_dir (lit "transitions.jsonl").

Definition transition_json (t : Transition) : jv :=
  object [(lit "ts", jstr (t_timestamp t)); (lit "agent", jstr (t_agent t));
    (lit "from", jstr (state_to_string (t_from t))); (lit "state", jstr (state_to_string (t_to t)));
    (lit "session", jstr (t_session t))].

Definition append_transition (fs : gmap path str) (t : Transition) (log_ok : bool) : option (gmap path str) :=
  line ← json_dump (transition_json t);
  Some (if log_ok then <[transitions_file := default [] (fs !! transitions_file) ++ line ++ [eol]]> fs else fs).

Definition persist_state (fs : gmap path str) (agent : str) (s : AgentState) (state_ok : bool) :
    gmap path str :=
  if state_ok then <[state_file agent := state_to_string s]> fs else fs.

(** [transition]: what it returns ([None] for an exception), the manager and
    the disk; [now] is the clock. *)
Definition transition (now : Z) (m : LifecycleManager) (fs : gmap path str) (agent : str)
    (new_state : AgentState) (session : str) (log_ok state_ok : bool) :
    option bool * LifecycleManager * gmap path str :=
  let current := get_state m agent in
  if negb (bool_decide (new_state ∈ valid_transitions current)) then (Some false, m, fs)
  else
    let t := mkTransition agent current new_state
               (if bool_decide (session = []) then lit "default" else session) (iso8601 now) in
    let m := mkManager (<[agent := new_state]> (states m)) (transitions m ++ [t]) in
    match append_transition fs t log_ok with
    | None => (None, m, fs)
    | Some fs => (Some true, m, persist_state fs agent new_state state_ok)
    end.

(** [load_from_disk] *)
Context (entries : gmap path str -> path -> list path).

(** The first line, trimmed when it has anything but white space. *)
Definition first_line (s : str) : str := default [] (head (getlines s)).
Definition trim_line (s : str) : str :=
  if forallb trim_ws s then s else rev (skip trim_ws (rev (skip trim_ws s))).
Definition read_state (fs : gmap path str) (p : path) : AgentState :=
  state_from_string (trim_line (first_line (default [] (fs !! p)))).

Definition state_files (fs : gmap path str) : list path :=
  List.filter (fun p => bool_decide (path_extension p = lit ".state")) (entries fs lifecycle_dir).

Definition parse_transition (line : str) : option Transition :=
  j ← json_parse line;
  a ← value get_string j "agent" [];
  f ← value get_string j "from" (lit "idle");
  t ← value get_string j "state" (lit "idle");
  s ← value get_string j "session" [];
  ts ← value get_string j "ts" [];
  Some (mkTransition a (state_from_string f) (state_from_string t) s ts).

Definition load_from_disk (m : LifecycleManager) (fs : gmap path str) : LifecycleManager :=
  mkManager
    (foldl (fun st p => <[path_stem p := read_state fs p]> st) (states m) (state_files fs))
    (transitions m ++
     match fs !! transitions_file with
     | Some text => omap parse_transition (List.filter (fun l => negb (bool_decide (l = []))) (getlines text))
     | None => []
     end).
End lifecycle.

(** ** The state machine *)

(** The transitions lead from one state to another, each allowed. *)
Fixpoint leads (from : AgentState) (ts : list Transition) (to : AgentState) : Prop :=
  match ts with
  | [] => from = to
  | t :: ts => t_from t = from /\ t_to t ∈ valid_transitions from /\ leads (t_to t) ts to
  end.

Lemma leads_snoc from ts mid t : leads from ts mid -> t_from t = mid -> t_to t ∈ valid_transitions mid ->
  leads from (ts ++ [t]) (t_to t).
Proof.
  revert from. induction ts as [|t' ts IH]; intros from; cbn [leads app].
  - by intros -> ? ?.
  - intros (? & ? & ?) ? ?. auto.
Qed.

Section runs.
Context `{JsonText} (lifecycle_dir : path).

Record Request : Type := mkRequest {
  rq_agent : str; rq_state : AgentState; rq_session : str; rq_now : Z; rq_log : bool; rq_file : bool;
}.

Fixpoint run (m : LifecycleManager) (fs : gmap path str) (rs : list Request) :
    list (option bool) * LifecycleManager * gmap path str :=
  match rs with
  | [] => ([], m, fs)
  | r :: rs =>
      let '(b, m, fs) := transition lifecycle_dir (rq_now r) m fs (rq_agent r) (rq_state r) (rq_session r)
                           (rq_log r) (rq_file r) in
      let '(bs, m, fs) := run m fs rs in (b :: bs, m, fs)
  end.

Definition traced (m : LifecycleManager) : Prop := forall a, leads Idle (history m a) (get_state m a).

Lemma transition_traced m fs now a s sess lo so : traced m ->
  traced (transition lifecycle_dir now m fs a s sess lo so).1.2.
Proof.
  intros Ht. unfold transition. destruct (bool_decide (s ∈ valid_transitions (get_state m a))) eqn:E; [|done].
  cbn [negb]. set (t := mkTransition _ _ _ _ _).
  set (m' := mkManager _ _).
  assert (traced m') as Hm; [|by destruct (append_transition _ _ _ _)].
  bool_to_prop. intros b. unfold m', history, get_state. cbn [states transitions].
  rewrite List.filter_app. cbn [List.filter t_agent t]. change (t_agent t) with a.
  case_bool_decide as Eb.
  - subst b. rewrite lookup_insert_eq. cbn [default]. change s with (t_to t).
    eapply leads_snoc; [apply Ht|done|done].
  - rewrite app_nil_r, lookup_insert_ne by done. apply Ht.
Qed.

Lemma run_traced rs : forall m fs, traced m -> traced (run m fs rs).1.2.
Proof.
  induction rs as [|r rs IH]; intros m fs Ht; [done|]. cbn [run].
  pose proof (transition_traced m fs (rq_now r) (rq_agent r) (rq_state r) (rq_session r) (rq_log r) (rq_file r) Ht).
  destruct (transition _ _ _ _ _ _ _ _ _) as [[b m1] fs1]. cbn in H1. specialize (IH m1 fs1 H1).
  by destruct (run m1 fs1 rs) as [[bs m2] fs2].
Qed.

Lemma leads_terminated ts s : leads Terminated ts s -> ts = [] /\ s = Terminated.
Proof. destruct ts as [|t ts]; cbn; [done|]. intros (_ & Hin & _). by apply elem_of_nil in Hin. Qed.

Lemma leads_app from ts1 ts2 to : leads from (ts1 ++ ts2) to <-> exists mid, leads from ts1 mid /\ leads mid ts2 to.
Proof.
  revert from. induction ts1 as [|t ts1 IH]; intros from; cbn [leads app].
  - split; [eauto|by intros (? & -> & ?)].
  - setoid_rewrite IH. naive_solver.
Qed.

(** Whatever is requested, and whether or not the disk works, the recorded
    history of every agent is an unbroken path of allowed transitions from idle
    to its current state, and an agent that was terminated has no later
    transition. *)
Theorem lifecycle_paths rs fs a :
  let m := (run new_manager fs rs).1.2 in
  leads Idle (history m a) (get_state m a) /\
  (forall ts1 t ts2, history m a = ts1 ++ t :: ts2 -> t_to t = Terminated -> ts2 = []).
Proof.
  intros m. assert (traced m) as Hm by (by apply run_traced). split; [apply Hm|].
  intros ts1 t ts2 E Ht. specialize (Hm a). rewrite E in Hm.
  apply leads_app in Hm as (mid & _ & _ & _ & Hl). rewrite Ht in Hl. by apply leads_terminated in Hl as [-> _].
Qed.
End runs.

(** ** Reloading *)

Section fold_insert.
Context {A : Type} (f : path -> str) (g : path -> A).

Lemma fold_insert_other l m0 k : (forall p, p ∈ l -> f p <> k) ->
  foldl (fun (st : gmap str A) p => <[f p := g p]> st) m0 l !! k = m0 !! k.
Proof.
  revert m0. induction l as [|p l IH]; intros m0 Hne; [done|]. cbn [foldl].
  rewrite IH by (intros q Hq; apply Hne; by right). apply lookup_insert_ne, Hne. left.
Qed.

Lemma fold_insert_hit l m0 k v : (exists p, p ∈ l /\ f p = k) -> (forall p, p ∈ l -> f p = k -> g p = v) ->
  foldl (fun (st : gmap str A) p => <[f p := g p]> st) m0 l !! k = Some v.
Proof.
  revert m0. induction l as [|p l IH]; intros m0 (q & Hq & Hk) Hv; [by apply elem_of_nil in Hq|]. cbn [foldl].
  destruct (decide (k ∈ f <$> l)) as [(r & -> & Hr)%list_elem_of_fmap|Hn].
  - apply IH; [by exists r|]. intros r' Hr'. apply Hv. by right.
  - rewrite fold_insert_other by (intros r Hr E; apply Hn, list_elem_of_fmap; eauto).
    apply elem_of_cons in Hq as [->|Hq]; [|destruct Hn; apply list_elem_of_fmap; eauto].
    rewrite Hk, lookup_insert_eq. f_equal. apply Hv; [left|done].
Qed.
End fold_insert.

Section reload.
Context `{JsonText, !JsonOk, !JsonTextOk} (lifecycle_dir : path).
Context (entries : gmap path str -> path -> list path) `{!EntriesOk entries}.
(** A directory that is not written with a trailing separator. *)
Context (base name : path) (Hdir : lifecycle_dir = base ++ name) (Hname : plain_name name).
Context (Hnul : free_of "000" lifecycle_dir).

Lemma dot_state : extension_ok (lit ".state").
Proof. solve_extension. Qed.

Lemma dir_sep : dir_root lifecycle_dir = lifecycle_dir ++ ["/"%char].
Proof. rewrite Hdir, dir_root_plain by done. by rewrite app_assoc. Qed.

Lemma state_file_eq a : plain_name a -> state_file lifecycle_dir a = lifecycle_dir ++ "/"%char :: a ++ lit ".state".
Proof.
  intros Ha. unfold state_file. rewrite path_append_plain by (apply plain_app; [done|apply dot_state..]).
  by rewrite dir_sep, <- app_assoc.
Qed.

Lemma transitions_file_eq : transitions_file lifecycle_dir = lifecycle_dir ++ "/"%char :: lit "transitions.jsonl".
Proof.
  unfold transitions_file. rewrite path_append_plain by (apply (bool_decide_unpack _); by vm_compute).
  by rewrite dir_sep, <- app_assoc.
Qed.

Lemma state_file_inj a b : plain_name a -> plain_name b ->
  state_file lifecycle_dir a = state_file lifecycle_dir b -> a = b.
Proof.
  intros Ha Hb. rewrite !state_file_eq by done. intros E%app_inv_head. injection E as E.
  by apply app_inv_tail in E.
Qed.

Lemma state_file_not_log a : plain_name a -> state_file lifecycle_dir a <> transitions_file lifecycle_dir.
Proof.
  intros Ha. rewrite state_file_eq, transitions_file_eq by done. intros E.
  pose proof (extension_stem lifecycle_dir a _ Ha dot_state) as [Hx _]. rewrite E in Hx.
  assert (path_extension (lifecycle_dir ++ "/"%char :: lit "transitions.jsonl") = lit ".jsonl") as Hy.
  { apply (extension_stem lifecycle_dir (lit "transitions") (lit ".jsonl")).
    - apply (bool_decide_unpack _). by vm_compute.
    - solve_extension. }
  rewrite Hy in Hx. by vm_compute in Hx.
Qed.

(** What the disk mirrors. *)
Record mirrored (m : LifecycleManager) (fs : gmap path str) : Prop := {
  mir_plain a s : states m !! a = Some s -> plain_name a;
  mir_state a : plain_name a -> fs !! state_file lifecycle_dir a = state_to_string <$> states m !! a;
  mir_log : exists ls, default [] (fs !! transitions_file lifecycle_dir) = flat_map (fun l => l ++ [eol]) ls /\
    Forall2 (fun t l => json_dump (transition_json t) = Some l) (transitions m) ls;
  mir_nul p : is_Some (fs !! p) -> free_of "000" p;
}.

Lemma state_roundtrip s : state_from_string (trim_line (first_line (state_to_string s))) = s.
Proof. by destruct s; vm_compute. Qed.

Lemma file_nul f : free_of "000" f -> free_of "000" (lifecycle_dir ++ "/"%char :: f).
Proof.
  intros Hf. apply free_of_app. split; [done|]. apply not_elem_of_cons. split; [done|exact Hf].
Qed.

Lemma transition_mirrored m fs now a s sess b m' fs' : mirrored m fs -> plain_name a ->
  transition lifecycle_dir now m fs a s sess true true = (Some b, m', fs') -> mirrored m' fs'.
Proof.
  intros Hm Ha. unfold transition. destruct (negb _); [by intros [= _ <- <-]|].
  destruct Hm as [Hp Hs (ls & Hl & Hf) Hz]. set (t := mkTransition _ _ _ _ _).
  unfold append_transition. destruct (json_dump (transition_json t)) as [line|] eqn:Hd; cbn [mbind option_bind]; [|done].
  intros [= _ <- <-]. unfold persist_state.
  set (log := default [] (fs !! transitions_file lifecycle_dir) ++ line ++ [eol]).
  split; cbn [states transitions].
  - intros a' s'. destruct (decide (a' = a)) as [->|Hne]; [done|]. rewrite lookup_insert_ne by done. apply Hp.
  - intros a' Ha'. destruct (decide (a' = a)) as [->|Hne].
    + by rewrite !lookup_insert_eq.
    + rewrite (lookup_insert_ne (states m)) by done.
      rewrite !lookup_insert_ne; [by apply Hs| |by intros E%state_file_inj].
      intros E. symmetry in E. by apply state_file_not_log in E.
  - exists (ls ++ [line]). rewrite lookup_insert_ne by (by apply state_file_not_log). rewrite lookup_insert_eq.
    cbn [default]. unfold log. rewrite Hl, flat_map_app. cbn [flat_map]. rewrite app_nil_r. split; [done|].
    by apply Forall2_app; [|repeat constructor].
  - intros p. destruct (decide (p = state_file lifecycle_dir a)) as [->|Hne1].
    { intros _. rewrite state_file_eq by done. apply file_nul, free_of_app. split; [apply Ha|apply dot_state]. }
    rewrite lookup_insert_ne by done. destruct (decide (p = transitions_file lifecycle_dir)) as [->|Hne2].
    { intros _. rewrite transitions_file_eq. apply file_nul. apply (bool_decide_unpack _). by vm_compute. }
    rewrite lookup_insert_ne by done. apply Hz.
Qed.

Lemma transition_exact t : json_exact (transition_json t).
Proof. unfold transition_json. exact_json. Qed.

Lemma transition_read t l : json_dump (transition_json t) = Some l -> parse_transition l = Some t.
Proof.
  intros Hd%parse_dump; [|apply transition_exact]. destruct t as [a f s sess ts]. unfold parse_transition, transition_json in *.
  rewrite Hd. cbn [mbind option_bind]. read_fields. by destruct f, s.
Qed.

Lemma logged_lines ts ls : Forall2 (fun t l => json_dump (transition_json t) = Some l) ts ls ->
  Forall (fun l => l <> [] /\ free_of eol l) ls /\
  omap parse_transition (List.filter (fun l => negb (bool_decide (l = []))) ls) = ts.
Proof.
  induction 1 as [|t l ts ls Hd _ [IH1 IH2]]; [done|]. pose proof (dump_one_line _ _ Hd) as Hl.
  split; [by constructor|]. cbn [List.filter]. rewrite bool_decide_false by apply Hl.
  cbn [negb omap list_omap]. rewrite (transition_read t l Hd). f_equal. exact IH2.
Qed.

Lemma state_files_spec m fs p : mirrored m fs ->
  p ∈ state_files lifecycle_dir entries fs <->
  exists a s, plain_name a /\ states m !! a = Some s /\ p = state_file lifecycle_dir a.
Proof.
  intros [Hp Hs _ Hz]. unfold state_files.
  rewrite list_elem_of_In, filter_In, <- list_elem_of_In, entries_spec, bool_decide_eq_true. split.
  - intros [[Hin (f & -> & Hf)] He].
    destruct (extension_name lifecycle_dir f _ dot_state Hf) as (a & Ha & ->); [|done|].
    { apply Hz in Hin. by apply free_of_app in Hin as [_ [_ ?]%not_elem_of_cons]. }
    rewrite <- (state_file_eq a Ha) in Hin |- *. rewrite (Hs a Ha) in Hin. destruct Hin as [x Hx].
    destruct (states m !! a) as [s|] eqn:E; [|done]. eauto.
  - intros (a & s & Ha & Hsa & ->). rewrite Hs, Hsa by done. split; [|rewrite state_file_eq by done; by apply extension_stem, dot_state].
    split; [by eexists|]. exists (a ++ lit ".state"). split; [by apply state_file_eq|].
    apply free_of_app. split; [apply Ha|apply dot_state].
Qed.

Lemma mirrored_reloads m fs : mirrored m fs ->
  load_from_disk lifecycle_dir entries new_manager fs = m.
Proof.
  intros Hm. pose proof (fun p => state_files_spec m fs p Hm) as Hfiles.
  assert (forall a, plain_name a -> path_stem (state_file lifecycle_dir a) = a) as Hstem.
  { intros a Ha. rewrite state_file_eq by done. by apply extension_stem, dot_state. }
  destruct m as [st ts]. unfold load_from_disk. cbn [states transitions new_manager app]. f_equal.
  - apply map_eq. intros a. destruct (st !! a) as [s|] eqn:E.
    + apply fold_insert_hit.
      * exists (state_file lifecycle_dir a). pose proof (mir_plain _ _ Hm a s E) as Ha.
        split; [apply Hfiles; eauto|by apply Hstem].
      * intros p (b & s' & Hb & Hs' & ->)%Hfiles. rewrite Hstem by done. intros ->. cbn in Hs'.
        rewrite E in Hs'. injection Hs' as <-. unfold read_state. rewrite (mir_state _ _ Hm a Hb). cbn [states].
        rewrite E. apply state_roundtrip.
    + rewrite fold_insert_other; [by rewrite lookup_empty|].
      intros p (b & s' & Hb & Hs' & ->)%Hfiles. rewrite Hstem by done. intros ->. cbn in Hs'. congruence.
  - destruct (mir_log _ _ Hm) as (ls & Hl & Hf). cbn [transitions] in Hf.
    destruct (logged_lines _ _ Hf) as [Hls Ho].
    assert (getlines (flat_map (fun l => l ++ [eol]) ls) = ls) as Hg.
    { apply fields_render. eapply Forall_impl; [exact Hls|]. by intros l [_ ?]. }
    destruct (fs !! transitions_file lifecycle_dir) as [text|]; cbn [default] in Hl; unfold id in Hl.
    + rewrite Hl, Hg. exact Ho.
    + symmetry in Hl. destruct ls as [|l ls]; [inversion Hf; by subst|]. by destruct l.
Qed.

(** A request for a plain name on a disk that works. *)
Definition plain_request (r : Request) : Prop := plain_name (rq_agent r) /\ rq_log r = true /\ rq_file r = true.

Lemma run_mirrored rs m0 fs bs m fs' :
  mirrored m0 fs -> Forall plain_request rs ->
  run lifecycle_dir m0 fs rs = (bs, m, fs') -> Forall is_Some bs -> mirrored m fs'.
Proof.
  intros Hm Hrs. revert m0 fs bs Hm.
  induction Hrs as [|r rs (Ha & Hlo & Hso) Hrs IH]; intros m0 fs bs Hm; cbn [run].
  { by intros [= _ <- <-]. }
  rewrite Hlo, Hso.
  destruct (transition lifecycle_dir (rq_now r) m0 fs (rq_agent r) (rq_state r) (rq_session r) true true)
    as [[b m1] fs1] eqn:Et.
  destruct (run lifecycle_dir m1 fs1 rs) as [[bs' m2] fs2] eqn:Er. intros [= <- <- <-].
  intros [[b' ->] Hbs]%Forall_cons. eapply IH; [|exact Er|exact Hbs].
  by eapply transition_mirrored.
Qed.

(** A transition that was made is in the manager, and stays there. *)
Definition has_records (m : LifecycleManager) : Prop := transitions m <> [] /\ states m <> ∅.

Lemma transition_has_records m fs now a s sess lo so :
  let '(b, m', _) := transition lifecycle_dir now m fs a s sess lo so in
  b = Some true \/ has_records m -> has_records m'.
Proof.
  unfold transition. destruct (negb _); [by intros [|]|].
  assert (forall t, has_records (mkManager (<[a := s]> (states m)) (transitions m ++ [t]))) as Hr.
  { intros t. split; cbn; [by destruct (transitions m)|apply insert_non_empty]. }
  destruct (append_transition _ _ _ _); intros _; apply Hr.
Qed.

Lemma run_has_records rs m0 fs bs m fs' :
  run lifecycle_dir m0 fs rs = (bs, m, fs') -> Some true ∈ bs \/ has_records m0 -> has_records m.
Proof.
  revert m0 fs bs. induction rs as [|r rs IH]; intros m0 fs bs; cbn [run].
  { intros [= <- <- _] [[]%elem_of_nil|]. done. }
  pose proof (transition_has_records m0 fs (rq_now r) (rq_agent r) (rq_state r) (rq_session r) (rq_log r) (rq_file r)) as Ht.
  destruct (transition _ _ _ _ _ _ _ _ _) as [[b m1] fs1].
  destruct (run lifecycle_dir m1 fs1 rs) as [[bs' m2] fs2] eqn:Er. intros [= <- <- <-] Hor.
  apply (IH _ _ _ Er). destruct Hor as [[<-|Hin]%elem_of_cons|Hr]; auto.
Qed.

(** The disk is a faithful copy: after any requests for agents whose names are
    plain, on a disk that works and with text the log can hold, a new manager
    that loads from the disk has the same states and the same history. *)
Lemma lifecycle_reload rs fs bs m fs' :
  mirrored new_manager fs -> Forall plain_request rs ->
  run lifecycle_dir new_manager fs rs = (bs, m, fs') -> Forall is_Some bs ->
  load_from_disk lifecycle_dir entries new_manager fs' = m.
Proof. intros. apply mirrored_reloads. by eapply run_mirrored. Qed.

Lemma mirrored_empty : mirrored new_manager ∅.
Proof.
  split; cbn.
  - intros a s. by rewrite lookup_empty.
  - intros. by rewrite !lookup_empty.
  - exists []. by rewrite lookup_empty.
  - intros p [? Hp]. by rewrite lookup_empty in Hp.
Qed.
End reload.

(** ** Witnesses *)

Definition sample_dir : path := lit "/d/lifecycle".
Definition sample_requests : list Request :=
  [mkRequest (lit "coder") Ready [] 0 true true; mkRequest (lit "coder") Completed [] 1 true true;
   mkRequest (lit "coder") Running (lit "s1") 2 true true].

Lemma lifecycle_reload_witness :
  exists bs m fs', @run TreeJson.json TreeJson.text sample_dir new_manager ∅ sample_requests = (bs, m, fs') /\
    bs = [Some true; Some false; Some true] /\
    @load_from_disk TreeJson.json TreeJson.text sample_dir sample_entries new_manager fs' = m.
Proof.
  destruct (@run TreeJson.json TreeJson.text sample_dir new_manager ∅ sample_requests) as [[bs m] fs'] eqn:E.
  exists bs, m, fs'. split; [done|].
  assert (bs = [Some true; Some false; Some true]) as Hbs.
  { change bs with (bs, m, fs').1.1. rewrite <- E. by vm_compute. }
  split; [done|].
  apply (@lifecycle_reload TreeJson.json TreeJson.text TreeJson.tree_json_ok TreeJson.text_ok sample_dir
    sample_entries sample_entries_ok (lit "/d/") (lit "lifecycle") eq_refl) with (rs := sample_requests) (fs := ∅) (bs := bs).
  - apply (bool_decide_unpack _). by vm_compute.
  - apply (bool_decide_unpack _). by vm_compute.
  - apply (@mirrored_empty TreeJson.json TreeJson.text).
  - repeat constructor; apply (bool_decide_unpack _); by vm_compute.
  - done.
  - rewrite Hbs. repeat constructor; by eexists.
Defined.
