(* ===== verification/Validator.v ===== *)
(** * Validation of the runtime directory: [libs/runtime/src/validator.cpp]

    The checks over a map from paths to contents.  A check that throws
    [RuntimeValidationError] is [Unexpected] with its message. *)

From Stdlib Require Import ZArith Ascii String Lia.
From stdpp Require Import base list gmap strings sorting.
From S2P Require Import Prelude CxxString Lines Doubles Json JsonText Paths Lifecycle.

(** [", "] between the strings. *)
Fixpoint comma_list (l : list str) : str :=
  match l with
  | [] => []
  | [s] => s
  | s :: l => s ++ lit ", " ++ comma_list l
  end.

Section validator.
Context `{JsonText} (root : path).
Context (entries : gmap path str -> path -> list path).
Implicit Types fs : gmap path str.

Definition under (parts : list string) : path := foldl (fun p q => path_append p (lit q)) root parts.

Definition perf_metrics : path := under ["data"; "perf"; "metrics.jsonl"].
Definition transitions_log : path := under ["data"; "lifecycle"; "transitions.jsonl"].
Definition lifecycle_path : path := under ["data"; "lifecycle"].
Definition manifest_path : path := under ["data"; "manifests"; "performance-optimization.json"].

Definition required_files : list path :=
  [under ["README.md"]; under ["config"; "etx-settings.json"]; perf_metrics; transitions_log; manifest_path].

Definition ensure_required_files fs : expected unit str :=
  let missing := List.filter (fun p => negb (bool_decide (is_Some (fs !! p)))) required_files in
  if bool_decide (length missing = 0%nat) then Ok tt
  else Unexpected (lit "Missing runtime assets: " ++ comma_list missing).

Definition blank (line : str) : bool := forallb trim_ws line.

Definition at_line (p : path) (lineno : Z) (what : string) : str :=
  p ++ lit ":" ++ to_string_Z lineno ++ lit what.

Fixpoint jsonl_loop (p : path) (lineno : Z) (lines : list str) (records : list jv) : expected (list jv) str :=
  match lines with
  | [] => Ok records
  | line :: lines =>
      let lineno := (lineno + 1)%Z in
      if blank line then jsonl_loop p lineno lines records
      else
        match json_parse line with
        | None => Unexpected (at_line p lineno ": invalid jsonl record")
        | Some obj =>
            match members obj with
            | None => Unexpected (at_line p lineno ": record is not an object")
            | Some _ => jsonl_loop p lineno lines (records ++ [obj])
            end
        end
  end.

Definition read_jsonl fs (p : path) : expected (list jv) str :=
  match fs !! p with
  | None => Unexpected (lit "Cannot open: " ++ p)
  | Some text =>
      let? records := jsonl_loop p 0 (getlines text) [] in
      if bool_decide (length records = 0%nat) then Unexpected (p ++ lit ": no records") else Ok records
  end.

Definition missing_keys (required : list string) (r : jv) : list str :=
  map lit (List.filter (fun k => negb (contains r k)) required).

Fixpoint assert_keys (idx : nat) (records : list jv) (required : list string) (context : str) :
    expected unit str :=
  match records with
  | [] => Ok tt
  | r :: records =>
      let missing := missing_keys required r in
      if bool_decide (length missing = 0%nat) then assert_keys (S idx) records required context
      else Unexpected (context ++ lit "[" ++ to_string_nat idx ++ lit "] missing keys: "
                       ++ comma_list (merge_sort str_le missing))
  end.

(** A number that is not negative; the member is there, and numbers convert. *)
Definition ms_ok (r : jv) : bool :=
  match at_key r "ms" with
  | Some ms => is_number ms && match get_double ms with Some d => negb (d_lt d d_zero) | None => false end
  | None => false
  end.

Fixpoint check_ms (idx : nat) (records : list jv) (p : path) : expected unit str :=
  match records with
  | [] => Ok tt
  | r :: records =>
      if ms_ok r then check_ms (S idx) records p
      else Unexpected (p ++ lit "[" ++ to_string_nat idx ++ lit "] invalid ms value")
  end.

Definition perf_keys : list string := ["ts"; "op"; "agent"; "ms"].
Definition transition_keys : list string := ["ts"; "agent"; "state"; "session"].

Definition validate_perf_metrics fs : expected unit str :=
  let? records := read_jsonl fs perf_metrics in
  let? _u := assert_keys 0 records perf_keys perf_metrics in
  check_ms 0 records perf_metrics.

Definition validate_lifecycle_transitions fs : expected unit str :=
  let? records := read_jsonl fs transitions_log in
  assert_keys 0 records transition_keys transitions_log.

Fixpoint check_state_files fs (files : list path) : expected unit str :=
  match files with
  | [] => Ok tt
  | p :: files =>
      if blank (default [] (fs !! p)) then Unexpected (p ++ lit ": empty state file")
      else check_state_files fs files
  end.

Definition validate_lifecycle_state_files fs : expected unit str :=
  let files := state_files lifecycle_path entries fs in
  if bool_decide (length files = 0%nat) then Unexpected (lifecycle_path ++ lit ": no .state files found")
  else check_state_files fs (merge_sort str_le files).

Definition validate_manifest fs : expected unit str :=
  match fs !! manifest_path with
  | None => Unexpected (lit "Cannot open: " ++ manifest_path)
  | Some text =>
      match json_parse text with
      | None => Unexpected (manifest_path ++ lit ": invalid json")
      | Some data =>
          match members data with
          | Some _ => Ok tt
          | None => Unexpected (manifest_path ++ lit ": manifest must be an object")
          end
      end
  end.

Definition validate fs : expected unit str :=
  let? _u := ensure_required_files fs in
  let? _u := validate_perf_metrics fs in
  let? _u := validate_lifecycle_transitions fs in
  let? _u := validate_lifecycle_state_files fs in
  validate_manifest fs.

(** ** What a valid directory is *)

Definition is_record (j : jv) : Prop := is_Some (members j).

(** The file is lines of JSON objects, some of them blank, and holds these
    records. *)
Definition holds_records fs (p : path) (records : list jv) : Prop :=
  exists text, fs !! p = Some text /\
    Forall2 (fun l r => json_parse l = Some r /\ is_record r)
      (List.filter (fun l => negb (blank l)) (getlines text)) records /\ records <> [].

Definition has_keys (required : list string) (r : jv) : Prop := Forall (fun k => contains r k = true) required.

Record well_laid fs : Prop := {
  wl_files : Forall (fun p => is_Some (fs !! p)) required_files;
  wl_perf : exists rs, holds_records fs perf_metrics rs /\ Forall (has_keys perf_keys) rs /\
    Forall (fun r => ms_ok r = true) rs;
  wl_log : exists rs, holds_records fs transitions_log rs /\ Forall (has_keys transition_keys) rs;
  wl_states : state_files lifecycle_path entries fs <> [] /\
    Forall (fun p => blank (default [] (fs !! p)) = false) (state_files lifecycle_path entries fs);
  wl_manifest : exists text j, fs !! manifest_path = Some text /\ json_parse text = Some j /\ is_record j;
}.
End validator.

(** ** Properties *)

Section properties.
Context `{JsonText} (root : path).
Context (entries : gmap path str -> path -> list path).
Implicit Types fs : gmap path str.

Lemma nil_length {A} (l : list A) : bool_decide (length l = 0%nat) = true <-> l = [].
Proof. rewrite bool_decide_eq_true. by destruct l. Qed.

Lemma filter_nil {A} (f : A -> bool) l : List.filter f l = [] <-> Forall (fun x => f x = false) l.
Proof.
  induction l as [|x l IH]; cbn; [done|]. rewrite Forall_cons. destruct (f x); [naive_solver|].
  rewrite IH. naive_solver.
Qed.

Lemma jsonl_loop_ok p lines : forall lineno acc rs,
  jsonl_loop p lineno lines acc = Ok rs <->
  exists new, rs = acc ++ new /\
    Forall2 (fun l r => json_parse l = Some r /\ is_record r) (List.filter (fun l => negb (blank l)) lines) new.
Proof.
  induction lines as [|l lines IH]; intros lineno acc rs; cbn [jsonl_loop List.filter].
  - split.
    + intros [= <-]. exists []. by rewrite app_nil_r.
    + intros (new & -> & Hf). inversion Hf. by rewrite app_nil_r.
  - destruct (blank l); cbn [negb]; [apply IH|].
    destruct (json_parse l) as [j|] eqn:Hj.
    + destruct (members j) as [m|] eqn:Hm.
      * rewrite IH. split.
        -- intros (new & -> & Hf). exists (j :: new). rewrite <- app_assoc. split; [done|].
           constructor; [|done]. split; [done|]. by exists m.
        -- intros (new & -> & Hf). inversion Hf as [|? ? ? ? [E _]]; subst. rewrite Hj in E. injection E as <-.
           eexists. split; [by rewrite <- app_assoc|]. done.
      * split; [done|]. intros (new & -> & Hf). inversion Hf as [|? ? ? ? [E [m E']]]; subst. congruence.
    + split; [done|]. intros (new & -> & Hf). inversion Hf as [|? ? ? ? [E _]]; subst. congruence.
Qed.

Lemma read_jsonl_ok fs p rs : read_jsonl fs p = Ok rs <-> holds_records fs p rs.
Proof.
  unfold read_jsonl, holds_records. destruct (fs !! p) as [text|]; [|split; [done|by intros (? & ? & _)]].
  destruct (jsonl_loop p 0 (getlines text) []) as [rs'|e] eqn:E.
  - pose proof E as E'. apply jsonl_loop_ok in E' as (new & -> & Hf). cbn [app].
    destruct (bool_decide _) eqn:Hb.
    + apply nil_length in Hb. split; [done|]. intros (text' & [= <-] & Hf' & Hne).
      assert (jsonl_loop p 0 (getlines text) [] = Ok rs) as E' by (apply jsonl_loop_ok; eauto). cbn [app] in *. congruence.
    + split.
      * intros [= <-]. exists text. split; [done|]. split; [done|].
        intros Hn. apply not_true_iff_false in Hb. apply Hb. by apply nil_length.
      * intros (text' & [= <-] & Hf' & Hne).
        assert (jsonl_loop p 0 (getlines text) [] = Ok rs) as E' by (apply jsonl_loop_ok; eauto).
        cbn [app] in E. congruence.
  - split; [done|]. intros (text' & [= <-] & Hf' & Hne).
    assert (jsonl_loop p 0 (getlines text) [] = Ok rs) as E' by (apply jsonl_loop_ok; eauto). congruence.
Qed.

Lemma missing_none required r : bool_decide (length (missing_keys required r) = 0%nat) = true <-> has_keys required r.
Proof.
  rewrite nil_length. unfold missing_keys, has_keys.
  assert (forall l : list string, map lit l = [] <-> l = []) as -> by (by intros []). rewrite filter_nil. apply Forall_iff. intros k. apply negb_false_iff.
Qed.

Lemma assert_keys_ok rs required context : forall idx,
  assert_keys idx rs required context = Ok tt <-> Forall (has_keys required) rs.
Proof.
  induction rs as [|r rs IH]; intros idx; cbn [assert_keys]; [done|]. rewrite Forall_cons.
  destruct (bool_decide _) eqn:Hb.
  - apply missing_none in Hb. rewrite IH. naive_solver.
  - split; [done|]. intros [Hr _]. apply missing_none in Hr. congruence.
Qed.

Lemma check_ms_ok rs p : forall idx, check_ms idx rs p = Ok tt <-> Forall (fun r => ms_ok r = true) rs.
Proof.
  induction rs as [|r rs IH]; intros idx; cbn [check_ms]; [done|]. rewrite Forall_cons.
  destruct (ms_ok r); [rewrite IH|]; naive_solver.
Qed.

Lemma check_state_files_ok fs files :
  check_state_files fs files = Ok tt <-> Forall (fun p => blank (default [] (fs !! p)) = false) files.
Proof.
  induction files as [|p files IH]; cbn [check_state_files]; [done|]. rewrite Forall_cons.
  destruct (blank _); [|rewrite IH]; naive_solver.
Qed.

Lemma required_ok fs : ensure_required_files root fs = Ok tt <-> Forall (fun p => is_Some (fs !! p)) (required_files root).
Proof.
  unfold ensure_required_files. destruct (bool_decide _) eqn:Hb.
  - apply nil_length, filter_nil in Hb. split; [|done]. intros _. eapply Forall_impl; [exact Hb|].
    intros p Hp%negb_false_iff. by apply bool_decide_eq_true in Hp.
  - split; [done|]. intros Hall. apply not_true_iff_false in Hb. destruct Hb. apply nil_length, filter_nil.
    eapply Forall_impl; [exact Hall|]. intros p Hp. apply negb_false_iff. by apply bool_decide_eq_true.
Qed.

Lemma perf_ok fs : validate_perf_metrics root fs = Ok tt <->
  exists rs, holds_records fs (perf_metrics root) rs /\ Forall (has_keys perf_keys) rs /\
    Forall (fun r => ms_ok r = true) rs.
Proof.
  unfold validate_perf_metrics. setoid_rewrite <- read_jsonl_ok.
  destruct (read_jsonl fs (perf_metrics root)) as [rs|e]; [|split; [done|by intros (? & ? & _)]].
  setoid_rewrite <- (assert_keys_ok _ _ (perf_metrics root) 0). setoid_rewrite <- (check_ms_ok _ (perf_metrics root) 0).
  destruct (assert_keys 0 rs perf_keys (perf_metrics root)) as [[]|e] eqn:E.
  - split; [eauto|]. by intros (rs' & [= <-] & _ & ?).
  - split; [done|]. intros (rs' & [= <-] & ? & _). congruence.
Qed.

Lemma log_ok_iff fs : validate_lifecycle_transitions root fs = Ok tt <->
  exists rs, holds_records fs (transitions_log root) rs /\ Forall (has_keys transition_keys) rs.
Proof.
  unfold validate_lifecycle_transitions. setoid_rewrite <- read_jsonl_ok.
  destruct (read_jsonl fs (transitions_log root)) as [rs|e]; [|split; [done|by intros (? & ? & _)]].
  rewrite assert_keys_ok. split; [eauto|]. by intros (rs' & [= <-] & ?).
Qed.

Lemma states_ok fs : validate_lifecycle_state_files root entries fs = Ok tt <->
  state_files (lifecycle_path root) entries fs <> [] /\
  Forall (fun p => blank (default [] (fs !! p)) = false) (state_files (lifecycle_path root) entries fs).
Proof.
  unfold validate_lifecycle_state_files. set (files := state_files _ _ _).
  destruct (bool_decide _) eqn:Hb.
  - apply nil_length in Hb. naive_solver.
  - rewrite check_state_files_ok, (merge_sort_Permutation str_le files). split; [|naive_solver].
    intros Hf. split; [|done]. intros Hn. apply not_true_iff_false in Hb. apply Hb. by apply nil_length.
Qed.

Lemma manifest_ok fs : validate_manifest root fs = Ok tt <->
  exists text j, fs !! manifest_path root = Some text /\ json_parse text = Some j /\ is_record j.
Proof.
  unfold validate_manifest, is_record. destruct (fs !! manifest_path root) as [text|]; [|naive_solver].
  destruct (json_parse text) as [j|] eqn:Hj; [|naive_solver congruence].
  destruct (members j) as [m|] eqn:Hm; [naive_solver|]. split; [done|].
  intros (t & j' & [= <-] & E & [m E']). congruence.
Qed.

Lemma seq_ok {E} (a b : expected unit E) :
  (match a with Ok _ => b | Unexpected e => Unexpected e end) = Ok tt <-> a = Ok tt /\ b = Ok tt.
Proof. destruct a as [[]|]; naive_solver. Qed.

(** The validator accepts a runtime directory exactly when it is laid out as
    described: every required file, well-formed metrics with times that are not
    negative, well-formed transitions, at least one state file and none blank,
    and a manifest that is an object. *)
Theorem validate_exact fs : validate root entries fs = Ok tt <-> well_laid root entries fs.
Proof.
  unfold validate. rewrite !seq_ok, required_ok, perf_ok, log_ok_iff, states_ok, manifest_ok.
  split; [by intros (? & ? & ? & ? & ?)|]. by intros [].
Qed.
End properties.

(** ** What the life cycle writes is valid *)

Section composition.
Context `{JsonText, !JsonOk, !JsonTextOk} (root : path).
Context (entries : gmap path str -> path -> list path) `{!EntriesOk entries}.
Context (base name : path) (Hdir : lifecycle_path root = base ++ name) (Hname : plain_name name).

Lemma transition_record t l : json_dump (transition_json t) = Some l ->
  blank l = false /\ json_parse l = Some (transition_json t) /\ is_record (transition_json t) /\
  has_keys transition_keys (transition_json t).
Proof.
  intros Hd. pose proof (parse_dump _ _ (transition_exact t) Hd) as Hp. split_and!.
  - destruct (blank l) eqn:E; [|done]. apply parse_blank in E. congruence.
  - done.
  - unfold is_record, transition_json, object. rewrite members_obj. eauto.
  - unfold has_keys, transition_keys, transition_json. repeat constructor; read_fields; done.
Qed.

Lemma state_not_blank s : blank (state_to_string s) = false.
Proof. by destruct s. Qed.

Lemma mirrored_validates m fs :
  mirrored (lifecycle_path root) m fs -> transitions m <> [] -> states m <> ∅ ->
  validate_lifecycle_transitions root fs = Ok tt /\ validate_lifecycle_state_files root entries fs = Ok tt.
Proof.
  intros Hm Ht Hs. rewrite log_ok_iff, states_ok. split.
  - destruct (mir_log _ _ _ Hm) as (ls & Hl & Hf). exists (transition_json <$> transitions m).
    split; [|apply Forall_fmap, Forall_forall; intros t Hin;
      apply list_elem_of_lookup in Hin as [i Hi]; destruct (Forall2_lookup_l _ _ _ _ _ Hf Hi) as (l & _ & Hd);
      by apply (transition_record t l Hd)].
    change (transitions_log root) with (transitions_file (lifecycle_path root)).
    assert (fs !! transitions_file (lifecycle_path root) = Some (flat_map (fun l => l ++ [eol]) ls)) as Hfs.
    { destruct (fs !! transitions_file (lifecycle_path root)); cbn in Hl; [by rewrite Hl|].
      destruct ls as [|l ls]; [by inversion Hf; subst; destruct Ht|]. by destruct l. }
    exists (flat_map (fun l => l ++ [eol]) ls). split; [done|].
    split; [|by destruct (transitions m)].
    destruct (logged_lines _ _ Hf) as [Hls _].
    change (getlines (flat_map _ ls)) with (fields eol (flat_map (fun l => l ++ [eol]) ls)).
    rewrite fields_render by (eapply Forall_impl; [exact Hls|by intros ? []]).
    clear Hl Hfs Hls Ht. induction Hf as [|t l ts ls Hd Hf IH]; [constructor|]. cbn [List.filter fmap list_fmap].
    destruct (transition_record t l Hd) as (-> & Hp & Hr & _). cbn [negb]. by constructor.
  - assert (forall p, p ∈ state_files (lifecycle_path root) entries fs <->
      exists a s, plain_name a /\ states m !! a = Some s /\ p = state_file (lifecycle_path root) a) as Hin
      by (intros p; by apply (state_files_spec (lifecycle_path root) entries base name Hdir Hname)).
    split.
    + apply map_choose in Hs as (a & s & Ha). intros Hn.
      assert (state_file (lifecycle_path root) a ∈ state_files (lifecycle_path root) entries fs) as Hx.
      { apply Hin. exists a, s. split; [by eapply mir_plain|done]. }
      rewrite Hn in Hx. by apply elem_of_nil in Hx.
    + apply Forall_forall. intros p (a & s & Ha & Hsa & ->)%Hin.
      rewrite (mir_state _ _ _ Hm a Ha), Hsa. apply state_not_blank.
Qed.

Context (Hnul : free_of "000" (lifecycle_path root)).

(** C23: the two components agree on the directory: a new manager, started on
    a disk without life-cycle files, serves any requests for agents with plain
    names, the writes succeed and no request raises an exception; once one of
    the requests made its transition, the log and the state files on the disk
    pass the validator's checks. *)
Theorem lifecycle_output_validates rs fs bs m fs' :
  mirrored (lifecycle_path root) new_manager fs -> Forall plain_request rs ->
  run (lifecycle_path root) new_manager fs rs = (bs, m, fs') -> Forall is_Some bs -> Some true ∈ bs ->
  validate_lifecycle_transitions root fs' = Ok tt /\ validate_lifecycle_state_files root entries fs' = Ok tt.
Proof.
  intros Hm Hrs Hrun Hbs Hb. destruct (run_has_records _ _ _ _ _ _ _ Hrun (or_introl Hb)) as [Ht Hst].
  apply (mirrored_validates m); [|done..]. by eapply (run_mirrored _ base name).
Qed.
End composition.

(** ** Witnesses *)

Definition sample_root : path := lit "/r".

Definition two_requests : list Request :=
  [mkRequest (lit "coder") Ready [] 0 true true; mkRequest (lit "coder") Completed [] 1 true true].

Lemma lifecycle_output_validates_witness :
  exists m fs, @run TreeJson.json TreeJson.text (lifecycle_path sample_root) new_manager ∅ two_requests =
      ([Some true; Some false], m, fs) /\
    @validate_lifecycle_transitions TreeJson.json TreeJson.text sample_root fs = Ok tt /\
    validate_lifecycle_state_files sample_root sample_entries fs = Ok tt.
Proof.
  destruct (@run TreeJson.json TreeJson.text (lifecycle_path sample_root) new_manager ∅ two_requests)
    as [[bs m] fs] eqn:E.
  assert (bs = [Some true; Some false]) as -> by (change bs with (bs, m, fs).1.1; rewrite <- E; by vm_compute).
  exists m, fs. split; [done|].
  assert (plain_name (lit "coder")) as Hc by (apply (bool_decide_unpack _); by vm_compute).
  assert (plain_name (lit "lifecycle")) as Hl by (apply (bool_decide_unpack _); by vm_compute).
  assert (lifecycle_path sample_root = lit "/r/data/" ++ lit "lifecycle") as Hd by (by vm_compute).
  assert (free_of "000" (lifecycle_path sample_root)) as Hz by (apply (bool_decide_unpack _); by vm_compute).
  apply (@lifecycle_output_validates TreeJson.json TreeJson.text TreeJson.tree_json_ok TreeJson.text_ok sample_root
    sample_entries sample_entries_ok (lit "/r/data/") (lit "lifecycle") Hd Hl Hz two_requests ∅
    [Some true; Some false] m fs).
  - apply (@mirrored_empty TreeJson.json TreeJson.text).
  - repeat constructor; apply Hc.
  - exact E.
  - repeat constructor; by eexists.
  - by left.
Defined.
