(* ===== verification/ToolManifest.v ===== *)
(** * Tool manifests and manifestos: [libs/runtime/src/tool_manifest.cpp] and
      [manifesto.cpp]

    The manifest of the tools an agent may use (loading, merging, validation),
    the classification of tools for approval prompts, and the manifesto of an
    agent with its JSON form.  [None] is an exception of the JSON library. *)

From Stdlib Require Import ZArith Ascii String Lia.
From stdpp Require Import base list gmap strings.
From S2P Require Import Prelude CxxString Json JsonText.

(** ** Manifests *)

Inductive ApprovalClass : Type := Readonly | ExecCapable | ControlPlane.
#[export] Instance ApprovalClass_eq_dec : EqDecision ApprovalClass.
Proof. solve_decision. Defined.

Definition approval_class_name (c : ApprovalClass) : str :=
  match c with
  | Readonly => lit "readonly" | ExecCapable => lit "exec_capable" | ControlPlane => lit "control_plane"
  end.

Record ToolManifestEntry (J : Type) : Type := mkEntry {
  e_name : str; e_description : str; e_input_schema : J;
  source : str; required_scope : str; requires_approval : bool;
}.
Arguments mkEntry {J} _ _ _ _ _ _.
Arguments e_name {J} _. Arguments e_description {J} _. Arguments e_input_schema {J} _.
Arguments source {J} _. Arguments required_scope {J} _. Arguments requires_approval {J} _.

Record ToolManifest (J : Type) : Type := mkManifest {
  manifest_agent : str; version : str; entries : list (ToolManifestEntry J);
}.
Arguments mkManifest {J} _ _ _.
Arguments manifest_agent {J} _. Arguments version {J} _. Arguments entries {J} _.

Section manifests.
Context `{Json}.

Definition entry_from_json (tj : jv) : option (ToolManifestEntry jv) :=
  n ← value get_string tj "name" [];
  d ← value get_string tj "description" [];
  i ← value Some tj "input_schema" jnull;
  s ← value get_string tj "source" [];
  r ← value get_string tj "required_scope" [];
  a ← value get_bool tj "requires_approval" false;
  Some (mkEntry n d i s r a).

(** [file] is the content of the file, [None] when it cannot be opened. *)
Definition load_tool_manifest (json_parse : str -> option jv) (file : option str) (path : str) :
    option (expected (ToolManifest jv) str) :=
  match file with
  | None => Some (Unexpected (lit "Failed to open tool manifest: " ++ path))
  | Some text =>
      match json_parse text with
      | None => Some (Unexpected (lit "Failed to parse tool manifest: " ++ path))
      | Some j =>
          a ← value get_string j "agent_id" [];
          v ← value get_string j "version" [];
          ts ← value Some j "tools" (jarr []);
          es ← mapM entry_from_json (items ts);
          Some (Ok (mkManifest a v es))
      end
  end.
End manifests.

Section merge.
Context {J : Type}.

(** Replace the first entry of that name, or add one. *)
Fixpoint overlay_tool (tools : list (ToolManifestEntry J)) (t : ToolManifestEntry J) :
    list (ToolManifestEntry J) :=
  match tools with
  | [] => [t]
  | e :: tools => if bool_decide (e_name e = e_name t) then t :: tools else e :: overlay_tool tools t
  end.

Definition merge_manifests (base overlay : ToolManifest J) : ToolManifest J :=
  mkManifest (manifest_agent base)
    (if bool_decide (version overlay = []) then version base else version overlay)
    (foldl overlay_tool (entries base) (entries overlay)).

Fixpoint validate_entries (es : list (ToolManifestEntry J)) (available_scopes : list str) :
    expected unit str :=
  match es with
  | [] => Ok tt
  | e :: es =>
      if bool_decide (e_name e = []) then Unexpected (lit "Tool manifest entry has empty name")
      else if negb (bool_decide (required_scope e = [])) && negb (bool_decide (required_scope e ∈ available_scopes))
      then Unexpected (lit "Tool '" ++ e_name e ++ lit "' requires scope '" ++ required_scope e
                       ++ lit "' which is not available")
      else validate_entries es available_scopes
  end.

Definition validate_tool_manifest (m : ToolManifest J) (available_scopes : list str) : expected unit str :=
  validate_entries (entries m) available_scopes.
End merge.

(** ** Approval classes *)

(** The loops compare byte by byte, letters folded to lower case. *)
Fixpoint same_ci (s prefix : str) : bool :=
  match prefix, s with
  | [], _ => true
  | b :: prefix, a :: s => bool_decide (tolower a = tolower b) && same_ci s prefix
  | _ :: _, [] => false
  end.

Definition starts_with_ci (s prefix : str) : bool :=
  if (length s <? length prefix)%nat then false else same_ci s prefix.

Fixpoint contains_at (s needle : str) : bool :=
  if (length s <? length needle)%nat then false
  else if same_ci s needle then true
  else match s with [] => false | _ :: s => contains_at s needle end.

Definition contains_ci (s needle : str) : bool :=
  if bool_decide (needle = []) || (length s <? length needle)%nat then false else contains_at s needle.

Definition verb_check (name : str) (prefix : string) : bool :=
  starts_with_ci name (lit prefix)
  && ((length name =? length (lit prefix))%nat
      || bool_decide (name !! length (lit prefix) = Some "_"%char)).

Definition classify_approval (name required_scope : str) : ApprovalClass :=
  if contains_ci required_scope (lit "admin") || contains_ci required_scope (lit "control")
     || contains_ci required_scope (lit "policy") then ControlPlane
  else
    match name with
    | [] => ExecCapable
    | c0 :: _ =>
        let check := verb_check name in
        let readonly :=
          match tolower c0 with
          | "c"%char => check "check" || check "count"
          | "d"%char => check "describe"
          | "f"%char => check "fetch"
          | "g"%char => check "get"
          | "l"%char => check "list" || check "lookup"
          | "q"%char => check "query"
          | "r"%char => check "read"
          | "s"%char => check "show" || check "status" || check "scan" || check "search"
          | "v"%char => check "validate" || check "view"
          | _ => false
          end in
        if readonly then Readonly else ExecCapable
    end.

(** ** Manifestos *)

Record Constraint : Type := mkConstraint { c_type : str; c_rule : str; c_severity : str }.
Record Identity : Type := mkIdentity {
  i_name : str; i_role : str; i_version : str; i_did : str; i_description : str; i_tags : list str;
}.
Record Goal_ : Type := mkGoal { primary_objective : str; success_criteria : str; sub_goals : list str }.
Record Constraints : Type := mkConstraints {
  constraints_list : list Constraint; allowed_tools : list str; forbidden_actions : list str;
  authorization_scope : str; pii_filtering_required : bool;
}.
Record AgentManifesto : Type := mkManifesto { identity : Identity; goal : Goal_; constraints : Constraints }.

Section manifesto.
Context `{Json}.

Definition constraint_to_json (c : Constraint) : jv :=
  object [(lit "type", jstr (c_type c)); (lit "rule", jstr (c_rule c)); (lit "severity", jstr (c_severity c))].

Definition manifesto_to_json (m : AgentManifesto) : jv :=
  let i := identity m in let g := goal m in let c := constraints m in
  object [
    (lit "identity", object [(lit "name", jstr (i_name i)); (lit "role", jstr (i_role i));
       (lit "version", jstr (i_version i)); (lit "did", jstr (i_did i));
       (lit "description", jstr (i_description i)); (lit "tags", jstrs (i_tags i))]);
    (lit "goal", object [(lit "primary_objective", jstr (primary_objective g));
       (lit "success_criteria", jstr (success_criteria g)); (lit "sub_goals", jstrs (sub_goals g))]);
    (lit "constraints", object [(lit "constraints", jarr (constraint_to_json <$> constraints_list c));
       (lit "allowed_tools", jstrs (allowed_tools c)); (lit "forbidden_actions", jstrs (forbidden_actions c));
       (lit "authorization_scope", jstr (authorization_scope c));
       (lit "pii_filtering_required", jbool (pii_filtering_required c))])].

Definition constraint_from_json (j : jv) : option Constraint :=
  t ← value get_string j "type" [];
  r ← value get_string j "rule" [];
  s ← value get_string j "severity" (lit "medium");
  Some (mkConstraint t r s).

Definition identity_from_json (id : jv) : option Identity :=
  n ← value get_string id "name" [];
  r ← value get_string id "role" [];
  v ← value get_string id "version" [];
  d ← value get_string id "did" [];
  x ← value get_string id "description" [];
  t ← value get_strings id "tags" [];
  Some (mkIdentity n r v d x t).

Definition goal_from_json (g : jv) : option Goal_ :=
  p ← value get_string g "primary_objective" [];
  s ← value get_string g "success_criteria" [];
  u ← value get_strings g "sub_goals" [];
  Some (mkGoal p s u).

Definition constraints_from_json (con : jv) : option Constraints :=
  cs ← value Some con "constraints" (jarr []);
  l ← mapM constraint_from_json (items cs);
  a ← value get_strings con "allowed_tools" [];
  f ← value get_strings con "forbidden_actions" [];
  s ← value get_string con "authorization_scope" [];
  p ← value get_bool con "pii_filtering_required" true;
  Some (mkConstraints l a f s p).

Definition manifesto_from_json (j : jv) : option (expected AgentManifesto str) :=
  match at_key j "identity", at_key j "goal", at_key j "constraints" with
  | Some id, Some g, Some con =>
      i ← identity_from_json id;
      g ← goal_from_json g;
      c ← constraints_from_json con;
      Some (Ok (mkManifesto i g c))
  | _, _, _ => Some (Unexpected (lit "Manifesto must contain identity, goal, and constraints blocks"))
  end.
End manifesto.

Definition validate_manifesto (m : AgentManifesto) : expected unit str :=
  if bool_decide (i_name (identity m) = []) then Unexpected (lit "Manifesto identity.name is required")
  else if bool_decide (i_role (identity m) = []) then Unexpected (lit "Manifesto identity.role is required")
  else if bool_decide (primary_objective (goal m) = []) then
    Unexpected (lit "Manifesto goal.primary_objective is required")
  else Ok tt.

(** ** Approval classes: properties *)

Lemma same_ci_spec s prefix : same_ci s prefix = starts_with (lower prefix) (lower s).
Proof.
  revert s. induction prefix as [|b prefix IH]; intros [|a s]; cbn; try done. rewrite IH. done.
Qed.

Lemma starts_with_length p s : starts_with p s = true -> (length p <= length s)%nat.
Proof. intros [t ->]%starts_with_spec. rewrite length_app. lia. Qed.

Lemma starts_with_ci_spec s prefix : starts_with_ci s prefix = starts_with (lower prefix) (lower s).
Proof.
  unfold starts_with_ci. rewrite same_ci_spec. destruct (_ <? _)%nat eqn:E; [|done]. bool_to_prop.
  destruct (starts_with _ _) eqn:Es; [|done]. apply starts_with_length in Es. rewrite !length_lower in Es. lia.
Qed.

Lemma contains_at_spec s needle : contains_at s needle = true <-> contains_sub (lower needle) (lower s) = true.
Proof.
  rewrite contains_sub_spec. induction s as [|a s IH]; cbn [contains_at].
  - rewrite same_ci_spec. destruct (_ <? _)%nat eqn:E; bool_to_prop.
    + split; [done|]. intros (x & y & Hx). apply (f_equal length) in Hx.
      rewrite !length_app, !length_lower in Hx. cbn in Hx, E. lia.
    + destruct (starts_with _ _) eqn:Es; [|split; [done|]].
      * apply starts_with_spec in Es as [t ->]. split; [|done]. by exists [], t.
      * intros (x & y & Hx). symmetry in Hx. apply app_nil in Hx as [-> Hx].
        apply not_true_iff_false in Es. destruct Es. apply starts_with_spec. by exists y.
  - rewrite same_ci_spec. destruct (_ <? _)%nat eqn:E; bool_to_prop.
    + split; [done|]. intros (x & y & Hx). apply (f_equal length) in Hx.
      rewrite !length_app, !length_lower in Hx. lia.
    + destruct (starts_with _ _) eqn:Es.
      * apply starts_with_spec in Es as [t ->]. split; [|done]. by exists [], t.
      * rewrite IH. split.
        -- intros (x & y & Hx). exists (tolower a :: x), y. cbn. by rewrite <- Hx.
        -- intros ([|c x] & y & Hx).
           ++ apply not_true_iff_false in Es. destruct Es. apply starts_with_spec. by exists y.
           ++ injection Hx as _ Hx. eauto.
Qed.

Lemma contains_ci_sub s needle : needle <> [] -> contains_ci s needle = contains_sub (lower needle) (lower s).
Proof.
  intros Hne. unfold contains_ci. rewrite bool_decide_false by done. cbn [orb].
  apply eq_bool_prop_intro. rewrite !Is_true_true. destruct (_ <? _)%nat eqn:E; [|apply contains_at_spec].
  split; [done|]. rewrite contains_sub_spec. intros (x & y & Hx). bool_to_prop.
  apply (f_equal length) in Hx. rewrite !length_app, !length_lower in Hx. lia.
Qed.

(** The verbs of the documentation, in its order. *)
Definition readonly_verbs : list string :=
  ["read"; "list"; "get"; "query"; "show"; "status"; "scan"; "fetch"; "describe"; "view"; "check";
   "validate"; "lookup"; "search"; "count"].

(** The name is the verb, or the verb and an underscore begin it. *)
Definition is_verb (name : str) (verb : string) : bool :=
  bool_decide (lower name = lit verb) || starts_with (lit verb ++ ["_"%char]) (lower name).

(** The classification by walking the whole table. *)
Definition classify_reference (name scope : str) : ApprovalClass :=
  if existsb (fun w => contains_sub (lit w) (lower scope)) ["admin"; "control"; "policy"] then ControlPlane
  else if existsb (is_verb name) readonly_verbs then Readonly
  else ExecCapable.

Lemma underscore_tolower c : tolower c = "_"%char <-> c = "_"%char.
Proof.
  split; [|by intros ->]. intros E.
  assert (implb (bool_decide (tolower c = "_"%char)) (bool_decide (c = "_"%char)) = true) as Hb.
  { revert c E. intros c _. revert c. apply byte_case. by vm_compute. }
  rewrite bool_decide_true in Hb by done. by apply bool_decide_eq_true in Hb.
Qed.

Lemma verb_check_spec name verb : lower (lit verb) = lit verb -> verb_check name verb = is_verb name verb.
Proof.
  intros Hl. unfold verb_check, is_verb. rewrite starts_with_ci_spec, Hl.
  apply eq_bool_prop_intro. rewrite andb_True, !orb_True, !Is_true_true, Nat.eqb_eq, !bool_decide_eq_true, !starts_with_spec.
  rewrite <- (length_lower name).
  assert (name !! length (lit verb) = Some "_"%char <-> lower name !! length (lit verb) = Some "_"%char) as ->.
  { unfold lower. rewrite list_lookup_fmap. destruct (name !! length (lit verb)) as [c|]; cbn; [|done].
    split; intros [= E]; f_equal; by apply underscore_tolower. }
  split.
  - intros [[t Ht] Hor]. rewrite Ht in Hor |- *. rewrite length_app in Hor.
    destruct Hor as [Hlen|Hu].
    + left. destruct t; [by rewrite app_nil_r|cbn in Hlen; lia].
    + right. rewrite lookup_app_r, Nat.sub_diag in Hu by done. destruct t as [|c t]; [done|].
      injection Hu as ->. exists t. by rewrite <- app_assoc.
  - intros [->|[t Ht]].
    + split; [exists []; by rewrite app_nil_r|by left].
    + rewrite Ht, <- app_assoc. split; [by eexists|]. right. by rewrite lookup_app_r, Nat.sub_diag by done.
Qed.

(** A verb matches only a name with its first letter. *)
Lemma is_verb_first c name v t verb : lit verb = v :: t ->
  is_verb (c :: name) verb = bool_decide (tolower c = v) && is_verb (c :: name) verb.
Proof.
  intros Hv. case_bool_decide as E; [done|]. unfold is_verb. rewrite Hv. apply orb_false_iff. split.
  - apply bool_decide_eq_false. intros [= E' _]. congruence.
  - cbn. rewrite bool_decide_false; [done|]. congruence.
Qed.

(** A switch over letters as a disjunction. *)
Lemma letter_switch (x : ascii) (bc bd bf bg bl bq br bs bv : bool) :
  match x with
  | "c"%char => bc | "d"%char => bd | "f"%char => bf | "g"%char => bg | "l"%char => bl
  | "q"%char => bq | "r"%char => br | "s"%char => bs | "v"%char => bv | _ => false
  end =
  (bool_decide (x = "c"%char) && bc) || (bool_decide (x = "d"%char) && bd)
  || (bool_decide (x = "f"%char) && bf) || (bool_decide (x = "g"%char) && bg)
  || (bool_decide (x = "l"%char) && bl) || (bool_decide (x = "q"%char) && bq)
  || (bool_decide (x = "r"%char) && br) || (bool_decide (x = "s"%char) && bs)
  || (bool_decide (x = "v"%char) && bv).
Proof.
  destruct x as [[] [] [] [] [] [] [] []]; vm_compute; try reflexivity;
    by destruct bc, bd, bf, bg, bl, bq, br, bs, bv.
Qed.

(** The dispatch on the first letter is the documented classification: a
    scope that mentions administration, control or policy makes a tool control
    plane; otherwise a name that is a read-only verb, or begins with one and an
    underscore, is read-only, and anything else can execute. *)
Lemma classify_exact name scope : classify_approval name scope = classify_reference name scope.
Proof.
  unfold classify_approval, classify_reference. rewrite !contains_ci_sub by done.
  change (lower (lit "admin")) with (lit "admin"). change (lower (lit "control")) with (lit "control").
  change (lower (lit "policy")) with (lit "policy"). cbn [existsb]. rewrite orb_false_r, orb_assoc.
  destruct (_ || _ || _); [done|]. destruct name as [|c0 name]; [done|].
  rewrite !(verb_check_spec (c0 :: name)) by done. rewrite letter_switch. cbn [existsb readonly_verbs].
  rewrite !andb_orb_distrib_r.
  repeat match goal with |- context [bool_decide (tolower c0 = ?v) && is_verb (c0 :: name) ?w] =>
    rewrite <- (is_verb_first c0 name v _ w eq_refl) end.
  destruct (is_verb (c0 :: name) "check"), (is_verb (c0 :: name) "count"), (is_verb (c0 :: name) "describe"),
    (is_verb (c0 :: name) "fetch"), (is_verb (c0 :: name) "get"), (is_verb (c0 :: name) "list"),
    (is_verb (c0 :: name) "lookup"), (is_verb (c0 :: name) "query"), (is_verb (c0 :: name) "read"); cbn [orb]; try done;
  destruct (is_verb (c0 :: name) "show"), (is_verb (c0 :: name) "status"), (is_verb (c0 :: name) "scan"),
    (is_verb (c0 :: name) "search"), (is_verb (c0 :: name) "validate"), (is_verb (c0 :: name) "view"); done.
Qed.

(** ** Manifests: properties *)

Section merge_properties.
Context {J : Type}.
Implicit Types (es : list (ToolManifestEntry J)) (t : ToolManifestEntry J).

(** The entry a name refers to: the first of that name. *)
Definition find_tool (n : str) es : option (ToolManifestEntry J) :=
  List.find (fun e => bool_decide (e_name e = n)) es.
(** The last entry of that name. *)
Definition find_last (n : str) es : option (ToolManifestEntry J) := find_tool n (rev es).

Lemma find_overlay n es t :
  find_tool n (overlay_tool es t) = if bool_decide (e_name t = n) then Some t else find_tool n es.
Proof.
  unfold find_tool. induction es as [|e es IH]; cbn [overlay_tool List.find].
  - done.
  - destruct (decide (e_name e = e_name t)) as [E|E].
    + rewrite (bool_decide_true (e_name e = e_name t)) by done. cbn [List.find]. rewrite E.
      by destruct (bool_decide (e_name t = n)).
    + rewrite (bool_decide_false (e_name e = e_name t)) by done. cbn [List.find]. rewrite IH.
      case_bool_decide as Et; [|done]. by rewrite bool_decide_false by congruence.
Qed.

Lemma find_app n es es' :
  find_tool n (es ++ es') = match find_tool n es with Some e => Some e | None => find_tool n es' end.
Proof. unfold find_tool. induction es as [|e es IH]; cbn; [done|]. by destruct (bool_decide _). Qed.

Lemma find_fold n overlay : forall es,
  find_tool n (foldl overlay_tool es overlay) =
  match find_last n overlay with Some t => Some t | None => find_tool n es end.
Proof.
  unfold find_last. induction overlay as [|t overlay IH]; intros es; [done|].
  cbn [foldl]. change (rev (t :: overlay)) with (rev overlay ++ [t]).
  rewrite IH, find_app, find_overlay. destruct (find_tool n (rev overlay)); [done|].
  unfold find_tool at 2. cbn. by destruct (bool_decide (e_name t = n)).
Qed.

Lemma overlay_elem es t e : e ∈ overlay_tool es t -> e = t \/ e ∈ es.
Proof.
  induction es as [|x es IH]; cbn [overlay_tool]; [intros ?%list_elem_of_singleton; by left|].
  case_bool_decide.
  - intros [->|He]%elem_of_cons; [by left|right; by right].
  - intros [->|He]%elem_of_cons; [right; by left|]. destruct (IH He); [by left|right; by right].
Qed.

Lemma fold_overlay_elem overlay : forall es e, e ∈ foldl overlay_tool es overlay -> e ∈ overlay \/ e ∈ es.
Proof.
  induction overlay as [|t overlay IH]; intros es e; cbn [foldl]; [by right|].
  intros [He|He]%IH; [left; by right|]. apply overlay_elem in He as [->|He]; [left; by left|by right].
Qed.

Lemma overlay_names es t : e_name <$> overlay_tool es t =
  if bool_decide (e_name t ∈ e_name <$> es) then e_name <$> es else (e_name <$> es) ++ [e_name t].
Proof.
  induction es as [|e es IH]; cbn [overlay_tool fmap list_fmap]; [done|].
  destruct (decide (e_name e = e_name t)) as [E|E].
  - rewrite (bool_decide_true (e_name e = e_name t)) by done. cbn [fmap list_fmap].
    rewrite E, bool_decide_true by left. done.
  - rewrite (bool_decide_false (e_name e = e_name t)) by done. cbn [fmap list_fmap]. rewrite IH.
    destruct (decide (e_name t ∈ e_name <$> es)) as [Ei|Ei].
    + by rewrite !bool_decide_true by (done || by right).
    + rewrite !bool_decide_false; [done|by intros [?|?]%elem_of_cons|done].
Qed.

Lemma overlay_names_nodup es t : NoDup (e_name <$> es) -> NoDup (e_name <$> overlay_tool es t).
Proof.
  intros Hn. rewrite overlay_names. case_bool_decide as E; [done|].
  apply NoDup_app. split; [done|]. split; [|apply NoDup_singleton].
  intros x Hx ->%list_elem_of_singleton. done.
Qed.

(** What an entry needs in order to pass. *)
Definition entry_ok (scopes : list str) (e : ToolManifestEntry J) : Prop :=
  e_name e <> [] /\ (required_scope e = [] \/ required_scope e ∈ scopes).

Lemma validate_entries_ok es scopes : validate_entries es scopes = Ok tt <-> Forall (entry_ok scopes) es.
Proof.
  induction es as [|e es IH]; cbn [validate_entries]; [done|]. rewrite Forall_cons, <- IH. unfold entry_ok.
  repeat case_bool_decide; cbn; naive_solver.
Qed.

(** The overlay takes precedence: after a merge a name refers to the overlay's
    last entry of that name, or else to what it referred to in the base; names
    that were unique in the base stay unique; and a merge of two manifests that
    pass validation passes it. *)
Theorem merge_manifests_spec (base overlay : ToolManifest J) scopes :
  let m := merge_manifests base overlay in
  (forall n, find_tool n (entries m) =
     match find_last n (entries overlay) with Some t => Some t | None => find_tool n (entries base) end) /\
  (NoDup (e_name <$> entries base) -> NoDup (e_name <$> entries m)) /\
  (validate_tool_manifest base scopes = Ok tt -> validate_tool_manifest overlay scopes = Ok tt ->
   validate_tool_manifest m scopes = Ok tt) /\
  manifest_agent m = manifest_agent base /\
  (version m = version overlay \/ version overlay = [] /\ version m = version base).
Proof.
  intros m. split; [intros n; apply find_fold|]. split; [|split; [|split; [done|]]].
  - unfold m, merge_manifests. cbn [entries]. generalize (entries base).
    induction (entries overlay) as [|t ts IH]; intros es Hn; [done|]. cbn [foldl].
    by apply IH, overlay_names_nodup.
  - unfold validate_tool_manifest. rewrite !validate_entries_ok, !Forall_forall. intros Hb Ho e He.
    apply fold_overlay_elem in He as [He|He]; auto.
  - unfold m, merge_manifests. cbn [version]. case_bool_decide; auto.
Qed.
End merge_properties.

(** ** Reading: properties *)

Section json_properties.
Context `{Json, !JsonOk}.

(** A document with all members of every entry. *)
Definition entry_json (e : ToolManifestEntry jv) : jv :=
  object [(lit "name", jstr (e_name e)); (lit "description", jstr (e_description e));
    (lit "input_schema", e_input_schema e); (lit "source", jstr (source e));
    (lit "required_scope", jstr (required_scope e)); (lit "requires_approval", jbool (requires_approval e))].
Definition manifest_json (m : ToolManifest jv) : jv :=
  object [(lit "agent_id", jstr (manifest_agent m)); (lit "version", jstr (version m));
    (lit "tools", jarr (entry_json <$> entries m))].

Lemma entry_reads e : entry_from_json (entry_json e) = Some e.
Proof. destruct e. unfold entry_from_json, entry_json. by read_fields. Qed.

(** A manifest written out in full is read back. *)
Lemma manifest_reads json_parse text path m :
  json_parse text = Some (manifest_json m) -> load_tool_manifest json_parse (Some text) path = Some (Ok m).
Proof.
  intros Hp. unfold load_tool_manifest. rewrite Hp. destruct m. unfold manifest_json. read_fields.
  rewrite (mapM_roundtrip entry_json) by (intros; apply entry_reads). done.
Qed.

Lemma constraint_roundtrip c : constraint_from_json (constraint_to_json c) = Some c.
Proof. destruct c. unfold constraint_from_json, constraint_to_json. by read_fields. Qed.

(** A manifesto survives its JSON form. *)
Theorem manifesto_roundtrip m : manifesto_from_json (manifesto_to_json m) = Some (Ok m).
Proof.
  destruct m as [[n r v d x t] [p s u] [l a f sc pii]].
  unfold manifesto_from_json, manifesto_to_json. cbn [identity goal constraints]. read_fields.
  unfold identity_from_json, goal_from_json, constraints_from_json.
  cbn [i_name i_role i_version i_did i_description i_tags primary_objective success_criteria sub_goals
    constraints_list allowed_tools forbidden_actions authorization_scope pii_filtering_required].
  read_fields. rewrite (mapM_roundtrip constraint_to_json) by (intros; apply constraint_roundtrip).
  by read_fields.
Qed.
End json_properties.

Lemma validate_manifesto_ok m : validate_manifesto m = Ok tt <->
  i_name (identity m) <> [] /\ i_role (identity m) <> [] /\ primary_objective (goal m) <> [].
Proof. unfold validate_manifesto. repeat case_bool_decide; naive_solver. Qed.

(** ** Witnesses *)

Lemma manifesto_roundtrip_witness :
  let m := mkManifesto (mkIdentity (lit "a") (lit "b") [] [] [] [lit "t"]) (mkGoal (lit "g") [] [])
             (mkConstraints [mkConstraint (lit "x") (lit "y") (lit "z")] [] [] [] false) in
  @manifesto_from_json SampleJson.json (@manifesto_to_json SampleJson.json m) = Some (Ok m).
Proof. apply (@manifesto_roundtrip SampleJson.json SampleJson.json_ok). Defined.
