(* ===== verification/RuntimeConfig.v ===== *)
(** * Configuration: [libs/runtime/src/config.cpp]

    Reading [.euxis.yaml], merging the user's and the project's files, and the
    overrides of the environment.  The YAML library is the interface of
    [RuleLoader] with the conversions used here ([YamlScalars]); the files and
    the environment are maps.  A conversion that fails is caught by the code,
    so nothing here throws. *)

From Stdlib Require Import ZArith Ascii String Lia.
From stdpp Require Import base list gmap strings.
From S2P Require Import Prelude CxxString Paths Finding RuleLoader.

(** ** Data *)

Inductive ScanMode : Type := Triage | Check_ | Review | Forensic.
Inductive SigningMode : Type := Off | KeylessOidc | KeyBacked.
#[export] Instance ScanMode_eq_dec : EqDecision ScanMode.
Proof. solve_decision. Defined.

Record ProjectConfig : Type := mkProject { p_name : str; p_owner : str; p_languages : list str }.
Record ScanConfig : Type := mkScan {
  mode : ScanMode; target : str; include : list str; exclude : list str; max_file_size_kb : Z;
  follow_symlinks : bool; respect_gitignore : bool;
}.
Record CacheConfig : Type := mkCache { cache_enabled : bool; cache_path : str; ttl_days : Z }.
Record CustomRule : Type := mkCustom {
  cr_id : str; cr_pattern : str; cr_message : str; cr_severity : Severity; cr_languages : list str; cr_cwe : str;
}.
Record RulesConfig : Type := mkRules {
  packs : list str; custom : list CustomRule; severity_overrides : gmap str Severity;
}.
Record BaselineConfig : Type := mkBaseline { baseline_path : str; fail_on_new_only : bool }.
Record GatesConfig : Type := mkGates {
  advisory_threshold : Severity; blocking_threshold : Severity; max_runtime : Z;
}.
Record EnsembleSettings : Type := mkEnsembleSettings {
  es_providers : list str; es_quorum : Z; send_source_code : bool;
}.
Record TriageConfig : Type := mkTriage { triage_enabled : bool; ensemble : EnsembleSettings }.
Record EvidenceConfig : Type := mkEvidence {
  emit_evidence : bool; sarif : bool; cyclonedx : bool; spdx : bool; openvex : bool;
  signing : SigningMode; rekor_upload : bool; frameworks : list str;
}.
Record VerifyCommand : Type := mkVerify { v_name : str; v_command : list str }.
Record ProviderRouting : Type := mkRouting {
  research : option str; coding : option str; security : option str;
}.
Record RuntimeConfig : Type := mkConfig {
  schema_version : str; project : ProjectConfig; scan : ScanConfig; cache : CacheConfig;
  rules : RulesConfig; baseline : BaselineConfig; gates : GatesConfig; triage : TriageConfig;
  evidence : EvidenceConfig; routing : ProviderRouting; verify_commands : list VerifyCommand;
  sources : list path;
}.
Record ConfigError : Type := mkConfigError { ce_message : str; ce_file : path; ce_line : Z }.

Definition default_config : RuntimeConfig :=
  mkConfig (lit "1") (mkProject [] [] [])
    (mkScan Check_ (lit ".") []
       (map lit ["build/**"; "node_modules/**"; "vendor/**"; ".venv/**"; "target/**"; "dist/**"; "*.min.*"])
       4096 false true)
    (mkCache true (lit "~/.cache/euxis/scan-cache.sqlite") 30)
    (mkRules (map lit ["euxis/core"; "euxis/cwe-top-25"; "euxis/owasp-top-10"; "euxis/cnsa-2.0";
                       "euxis/slopsquatting"]) [] ∅)
    (mkBaseline (lit ".euxis-baseline.json") true)
    (mkGates SevMedium SevHigh 180)
    (mkTriage true (mkEnsembleSettings (map lit ["claude"; "openai"]) 2 false))
    (mkEvidence true true true true true KeylessOidc true (map lit ["owasp-top-10-2025"]))
    (mkRouting None None None) [] [].

Definition parse_scan_mode (s : str) : ScanMode :=
  let l := lower s in
  if bool_decide (l = lit "triage") then Triage
  else if bool_decide (l = lit "review") then Review
  else if bool_decide (l = lit "forensic") then Forensic
  else Check_.

Definition scan_mode_str (m : ScanMode) : str :=
  match m with
  | Triage => lit "triage" | Check_ => lit "check" | Review => lit "review" | Forensic => lit "forensic"
  end.

(** ** Reading *)

(** More of the YAML library: the conversions of scalars ([None] where they
    throw) and the members of a mapping. *)
Class YamlScalars `{Yaml} : Type := {
  is_ynull : ynode -> bool;
  as_int : ynode -> option Z;
  as_bool : ynode -> option bool;
  y_members : ynode -> list (ynode * ynode);
}.

Section reading.
Context `{YamlScalars}.

Definition is_mapping (n : ynode) : bool := defined n && is_map n.

Definition get_or {A} (conv : ynode -> option A) (n : ynode) (key : string) (fallback : A) : A :=
  if negb (is_mapping n) || negb (has n key) || is_ynull (y_at n key) then fallback
  else default fallback (conv (y_at n key)).

Definition get_severity (n : ynode) (key : string) (fallback : Severity) : Severity :=
  if negb (is_mapping n) || negb (has n key) || negb (is_scalar (y_at n key)) then fallback
  else
    let text := default [] (as_string (y_at n key)) in
    let s := Finding.parse_severity text in
    if bool_decide (s = SevNone) && negb (bool_decide (text = lit "none")) then fallback else s.

Definition get_vector (n : ynode) (key : string) (fallback : list str) : list str :=
  if negb (is_mapping n) || negb (has n key) || negb (is_sequence (y_at n key)) then fallback
  else omap as_string (y_elems (y_at n key)).

Definition parse_project (n : ynode) (c : ProjectConfig) : ProjectConfig :=
  if negb (is_mapping n) then c
  else mkProject (get_or as_string n "name" (p_name c)) (get_or as_string n "owner" (p_owner c))
         (get_vector n "languages" (p_languages c)).

Definition parse_scan (n : ynode) (c : ScanConfig) : ScanConfig :=
  if negb (is_mapping n) then c
  else mkScan (parse_scan_mode (get_or as_string n "mode" (scan_mode_str (mode c))))
         (get_or as_string n "target" (target c)) (get_vector n "include" (include c))
         (get_vector n "exclude" (exclude c)) (get_or as_int n "max_file_size_kb" (max_file_size_kb c))
         (get_or as_bool n "follow_symlinks" (follow_symlinks c))
         (get_or as_bool n "respect_gitignore" (respect_gitignore c)).

Definition parse_cache (n : ynode) (c : CacheConfig) : CacheConfig :=
  if negb (is_mapping n) then c
  else mkCache (get_or as_bool n "enabled" (cache_enabled c)) (get_or as_string n "path" (cache_path c))
         (get_or as_int n "ttl_days" (ttl_days c)).

Definition parse_custom (cr : ynode) : option CustomRule :=
  if negb (is_map cr) then None
  else
    let r := mkCustom (get_or as_string cr "id" []) (get_or as_string cr "pattern" [])
               (get_or as_string cr "message" []) (get_severity cr "severity" SevMedium)
               (get_vector cr "languages" []) (get_or as_string cr "cwe" []) in
    if negb (bool_decide (cr_id r = [])) && negb (bool_decide (cr_pattern r = [])) then Some r else None.

Definition add_override (m : gmap str Severity) (kv : ynode * ynode) : gmap str Severity :=
  if negb (is_scalar kv.1) || negb (is_scalar kv.2) then m
  else <[default [] (as_string kv.1) := Finding.parse_severity (default [] (as_string kv.2))]> m.

Definition parse_rules (n : ynode) (c : RulesConfig) : RulesConfig :=
  if negb (is_mapping n) then c
  else mkRules (get_vector n "packs" (packs c))
         (if has_seq n "custom" then omap parse_custom (y_elems (y_at n "custom")) else custom c)
         (if has n "severity_overrides" && is_map (y_at n "severity_overrides")
          then foldl add_override ∅ (y_members (y_at n "severity_overrides"))
          else severity_overrides c).

Definition parse_baseline (n : ynode) (c : BaselineConfig) : BaselineConfig :=
  if negb (is_mapping n) then c
  else mkBaseline (get_or as_string n "path" (baseline_path c))
         (get_or as_bool n "fail_on_new_only" (fail_on_new_only c)).

Definition parse_gates (n : ynode) (c : GatesConfig) : GatesConfig :=
  if negb (is_mapping n) then c
  else
    let secs := get_or as_int n "max_runtime_seconds" (max_runtime c) in
    mkGates (get_severity n "advisory_threshold" (advisory_threshold c))
      (get_severity n "blocking_threshold" (blocking_threshold c))
      (if (0 <? secs)%Z then secs else max_runtime c).

Definition parse_triage (n : ynode) (c : TriageConfig) : TriageConfig :=
  if negb (is_mapping n) then c
  else mkTriage (get_or as_bool n "enabled" (triage_enabled c))
    (if has n "ensemble" && is_map (y_at n "ensemble") then
       let en := y_at n "ensemble" in
       let e := ensemble c in
       mkEnsembleSettings (get_vector en "providers" (es_providers e)) (get_or as_int en "quorum" (es_quorum e))
         (get_or as_bool en "send_source_code" (send_source_code e))
     else ensemble c).

Definition parse_signing (s : str) : SigningMode :=
  if bool_decide (s = lit "off") then Off
  else if bool_decide (s = lit "key-backed") then KeyBacked
  else KeylessOidc.

Definition parse_evidence (n : ynode) (c : EvidenceConfig) : EvidenceConfig :=
  if negb (is_mapping n) then c
  else mkEvidence (get_or as_bool n "emit" (emit_evidence c)) (get_or as_bool n "sarif" (sarif c))
    (get_or as_bool n "cyclonedx" (cyclonedx c)) (get_or as_bool n "spdx" (spdx c))
    (get_or as_bool n "openvex" (openvex c)) (parse_signing (get_or as_string n "signing" (lit "keyless-oidc")))
    (get_or as_bool n "rekor_upload" (rekor_upload c)) (get_vector n "frameworks" (frameworks c)).

Definition parse_command (item : ynode) : option VerifyCommand :=
  if negb (is_map item) then None
  else
    let vc := mkVerify (get_or as_string item "name" []) (get_vector item "command" []) in
    if negb (bool_decide (v_name vc = [])) && negb (bool_decide (length (v_command vc) = 0%nat))
    then Some vc else None.

Definition parse_verify (n : ynode) (c : list VerifyCommand) : list VerifyCommand :=
  if negb (defined n) || negb (is_sequence n) then c else c ++ omap parse_command (y_elems n).

Definition scalar_at (n : ynode) (key : string) (old : option str) : option str :=
  if has n key && is_scalar (y_at n key) then Some (default [] (as_string (y_at n key))) else old.

Definition parse_providers (n : ynode) (c : ProviderRouting) : ProviderRouting :=
  if negb (is_mapping n) then c
  else mkRouting (scalar_at n "research" (research c)) (scalar_at n "coding" (coding c))
         (scalar_at n "security" (security c)).

Abbreviation environment := (gmap str str).

Definition expand_home (env : environment) (p : str) : str :=
  match p with
  | "~"%char :: rest => match env !! lit "HOME" with Some home => home ++ rest | None => p end
  | _ => p
  end.

(** The whole of a document that is a mapping of the supported version. *)
Definition read_root (env : environment) (root : ynode) (p : path) : RuntimeConfig :=
  let d := default_config in
  let c := parse_cache (y_at root "cache") (cache d) in
  mkConfig (get_or as_string root "version" (lit "1"))
    (parse_project (y_at root "project") (project d))
    (parse_scan (y_at root "scan") (scan d))
    (mkCache (cache_enabled c) (expand_home env (cache_path c)) (ttl_days c))
    (parse_rules (y_at root "rules") (rules d))
    (parse_baseline (y_at root "baseline") (baseline d))
    (parse_gates (y_at root "gates") (gates d))
    (parse_triage (y_at root "triage") (triage d))
    (parse_evidence (y_at root "evidence") (evidence d))
    (parse_providers (y_at root "providers") (routing d))
    (parse_verify (y_at root "verify") (verify_commands d))
    [p].

Definition load_yaml_file (fs : gmap path str) (env : environment) (p : path) :
    expected RuntimeConfig ConfigError :=
  match fs !! p with
  | None => Unexpected (mkConfigError (lit "Config file does not exist") p 0)
  | Some text =>
      match y_load text with
      | Unexpected (what, line) => Unexpected (mkConfigError (lit "YAML parse error: " ++ what) p (line + 1))
      | Ok root =>
          if negb (is_mapping root) then Unexpected (mkConfigError (lit "Top-level YAML node is not a map") p 0)
          else
            let v := get_or as_string root "version" (lit "1") in
            if negb (bool_decide (v = lit "1")) then
              Unexpected (mkConfigError (lit "Unsupported schema version: " ++ v) p 0)
            else Ok (read_root env root p)
      end
  end.
End reading.

(** ** Merging *)

Definition unless_default {A} `{EqDecision A} (zero over base : A) : A := if bool_decide (over = zero) then base else over.
Definition unless_empty {A} (over base : list A) : list A := match over with [] => base | _ => over end.
Definition or_else {A} (over base : option A) : option A := match over with Some _ => over | None => base end.

Definition merge_into (base overlay : RuntimeConfig) : RuntimeConfig :=
  let zero := default_config in
  mkConfig (schema_version base)
    (mkProject (unless_default (p_name (project zero)) (p_name (project overlay)) (p_name (project base)))
       (unless_default (p_owner (project zero)) (p_owner (project overlay)) (p_owner (project base)))
       (unless_empty (p_languages (project overlay)) (p_languages (project base))))
    (mkScan (unless_default (mode (scan zero)) (mode (scan overlay)) (mode (scan base)))
       (unless_default (target (scan zero)) (target (scan overlay)) (target (scan base)))
       (unless_empty (include (scan overlay)) (include (scan base)))
       (unless_default (exclude (scan zero)) (exclude (scan overlay)) (exclude (scan base)))
       (max_file_size_kb (scan overlay)) (follow_symlinks (scan overlay)) (respect_gitignore (scan overlay)))
    (cache overlay)
    (mkRules (unless_default (packs (rules zero)) (packs (rules overlay)) (packs (rules base)))
       (unless_empty (custom (rules overlay)) (custom (rules base)))
       (if bool_decide (severity_overrides (rules overlay) = ∅) then severity_overrides (rules base)
        else severity_overrides (rules overlay)))
    (baseline overlay) (gates overlay) (triage overlay) (evidence overlay)
    (mkRouting (or_else (research (routing overlay)) (research (routing base)))
       (or_else (coding (routing overlay)) (coding (routing base)))
       (or_else (security (routing overlay)) (security (routing base))))
    (unless_empty (verify_commands overlay) (verify_commands base))
    (sources base ++ sources overlay).

Definition set_scan_mode (c : ScanConfig) (m : ScanMode) : ScanConfig :=
  mkScan m (target c) (include c) (exclude c) (max_file_size_kb c) (follow_symlinks c) (respect_gitignore c).

Definition apply_env_overrides (env : gmap str str) (c : RuntimeConfig) : RuntimeConfig :=
  let var k := env !! lit k in
  let r := routing c in
  mkConfig (schema_version c) (project c)
    (match var "EUXIS_SCAN_MODE" with Some v => set_scan_mode (scan c) (parse_scan_mode v) | None => scan c end)
    (match var "EUXIS_CACHE_ENABLED" with
     | Some v => mkCache (bool_decide (v = lit "1") || bool_decide (v = lit "true") || bool_decide (v = lit "TRUE"))
                   (cache_path (cache c)) (ttl_days (cache c))
     | None => cache c
     end)
    (rules c) (baseline c)
    (match var "EUXIS_GATES_BLOCKING" with
     | Some v =>
         let s := Finding.parse_severity v in
         if negb (bool_decide (s = SevNone)) || bool_decide (v = lit "none")
         then mkGates (advisory_threshold (gates c)) s (max_runtime (gates c)) else gates c
     | None => gates c
     end)
    (triage c) (evidence c)
    (mkRouting (or_else (var "EUXIS_DEFAULT_RESEARCH_PROVIDER") (research r))
       (or_else (var "EUXIS_DEFAULT_CODING_PROVIDER") (coding r))
       (or_else (var "EUXIS_DEFAULT_SECURITY_PROVIDER") (security r)))
    (verify_commands c) (sources c).

Section resolve.
Context `{YamlScalars} (fs : gmap path str) (env : gmap str str).

(** The first project file that exists. *)
Fixpoint project_file (root : path) (names : list string) : option path :=
  match names with
  | [] => None
  | n :: names =>
      let p := path_append root (lit n) in
      if bool_decide (is_Some (fs !! p)) then Some p else project_file root names
  end.

Definition overlay_file (base : RuntimeConfig) (p : path) : expected RuntimeConfig ConfigError :=
  match load_yaml_file fs env p with
  | Ok c => Ok (merge_into base c)
  | Unexpected e => Unexpected e
  end.

Definition resolve_config (project_root user_home : path) : expected RuntimeConfig ConfigError :=
  let home := if bool_decide (user_home = []) then default [] (env !! lit "HOME") else user_home in
  let user_file := path_append (path_append home (lit ".euxis")) (lit "config.yaml") in
  let? c := (if negb (bool_decide (home = [])) && bool_decide (is_Some (fs !! user_file))
             then overlay_file default_config user_file else Ok default_config) in
  let? c := (if bool_decide (project_root = []) then Ok c
             else match project_file project_root [".euxis.yaml"; ".euxis.yml"] with
                  | Some p => overlay_file c p
                  | None => Ok c
                  end) in
  Ok (apply_env_overrides env c).
End resolve.

(** ** Properties *)

Lemma scan_mode_roundtrip m : parse_scan_mode (scan_mode_str m) = m.
Proof. by destruct m. Qed.

(** What every configuration satisfies: a run time that is positive, custom
    rules with an id and a pattern, and commands with a name and a program. *)
Record config_wf (c : RuntimeConfig) : Prop := {
  wf_version : schema_version c = lit "1";
  wf_runtime : (0 < max_runtime (gates c))%Z;
  wf_custom : Forall (fun r => cr_id r <> [] /\ cr_pattern r <> []) (custom (rules c));
  wf_verify : Forall (fun v => v_name v <> [] /\ v_command v <> []) (verify_commands c);
}.

Lemma default_wf : config_wf default_config.
Proof. by split. Qed.

Lemma Forall_omap {A B} (f : A -> option B) (Q : B -> Prop) l :
  (forall a b, f a = Some b -> Q b) -> Forall Q (omap f l).
Proof.
  intros Hf. apply Forall_forall. intros b (a & _ & Ha)%list_elem_of_omap. eauto.
Qed.

Section reading_properties.
Context `{YamlScalars}.

Lemma parse_custom_ok n r : parse_custom n = Some r -> cr_id r <> [] /\ cr_pattern r <> [].
Proof.
  unfold parse_custom. destruct (negb (is_map n)); [done|].
  match goal with |- context [if ?b then _ else _] => destruct b eqn:E end; [|done].
  intros [= <-]. by bool_to_prop.
Qed.

Lemma parse_command_ok n v : parse_command n = Some v -> v_name v <> [] /\ v_command v <> [].
Proof.
  unfold parse_command. destruct (negb (is_map n)); [done|].
  match goal with |- context [if ?b then _ else _] => destruct b eqn:E end; [|done].
  intros [= <-]. bool_to_prop. split; [done|]. intros E. rewrite E in *. done.
Qed.

Lemma parse_gates_ok n c : (0 < max_runtime c)%Z -> (0 < max_runtime (parse_gates n c))%Z.
Proof.
  intros Hc. unfold parse_gates. destruct (negb _); [done|]. cbn [max_runtime].
  destruct (0 <? _)%Z eqn:E; by bool_to_prop.
Qed.

Lemma load_wf fs env p c : load_yaml_file fs env p = Ok c -> config_wf c.
Proof.
  unfold load_yaml_file. destruct (fs !! p); [|done]. destruct (y_load _) as [root|[]]; [|done].
  destruct (negb (is_mapping root)); [done|]. destruct (bool_decide _) eqn:Ev; [|done]. cbn [negb].
  intros [= <-]. bool_to_prop. split; cbn.
  - done.
  - by apply parse_gates_ok.
  - unfold parse_rules. destruct (negb _); cbn; [constructor|]. destruct (has_seq _ _); [|constructor].
    apply Forall_omap, parse_custom_ok.
  - unfold parse_verify. destruct (_ || _); [constructor|]. apply Forall_omap, parse_command_ok.
Qed.
End reading_properties.

Lemma merge_wf a b : config_wf a -> config_wf b -> config_wf (merge_into a b).
Proof.
  intros Ha Hb. split; cbn.
  - apply Ha.
  - apply Hb.
  - destruct (custom (rules b)) eqn:E; [apply Ha|]. cbn. rewrite <- E. apply Hb.
  - destruct (verify_commands b) eqn:E; [apply Ha|]. cbn. rewrite <- E. apply Hb.
Qed.

Lemma env_wf env c : config_wf c -> config_wf (apply_env_overrides env c).
Proof.
  intros []. split; cbn; try done.
  destruct (env !! _); [|done]. destruct (_ || _); done.
Qed.

Section resolve_properties.
Context `{YamlScalars} (fs : gmap path str) (env : gmap str str).

(** C26: whatever the files and the environment hold, a configuration that is
    resolved is well formed. *)
Theorem resolve_config_wf root home c : resolve_config fs env root home = Ok c -> config_wf c.
Proof.
  unfold resolve_config.
  assert (forall b p c, config_wf b -> overlay_file fs env b p = Ok c -> config_wf c) as Hov.
  { intros b p c' Hb. unfold overlay_file. destruct (load_yaml_file fs env p) as [o|] eqn:E; [|done].
    intros [= <-]. apply merge_wf; [done|by eapply load_wf]. }
  match goal with |- context [match ?x with Ok _ => _ | Unexpected _ => _ end] =>
    destruct x as [c1|] eqn:E1; [|done] end.
  assert (config_wf c1) as H1.
  { destruct (_ && _) in E1; [by eapply Hov; [apply default_wf|]|]. injection E1 as <-. apply default_wf. }
  match goal with |- context [match ?x with Ok _ => _ | Unexpected _ => _ end] =>
    destruct x as [c2|] eqn:E2; [|done] end.
  intros [= <-]. apply env_wf. destruct (bool_decide _) in E2; [by injection E2 as <-|].
  destruct (project_file _ _ _) in E2; [by eapply Hov|by injection E2 as <-].
Qed.

(** The layers that take part: the user's file and the project's, when they
    exist and load. *)
Definition layer (present : bool) (p : path) : option RuntimeConfig :=
  if present then match load_yaml_file fs env p with Ok c => Some c | Unexpected _ => None end else None.

(** Provider routing follows the documented precedence: the environment, then
    the project's file, then the user's. *)
Theorem routing_precedence root home c :
  resolve_config fs env root home = Ok c -> home <> [] -> root <> [] ->
  let user := path_append (path_append home (lit ".euxis")) (lit "config.yaml") in
  let u := layer (bool_decide (is_Some (fs !! user))) user in
  let p := q ← project_file fs root [".euxis.yaml"; ".euxis.yml"]; layer true q in
  coding (routing c) =
    or_else (env !! lit "EUXIS_DEFAULT_CODING_PROVIDER")
      (or_else (p ≫= fun c => coding (routing c)) (u ≫= fun c => coding (routing c))).
Proof.
  intros Hr Hh Hroot. cbv zeta. unfold resolve_config, layer in *.
  rewrite (bool_decide_false (home = [])) in Hr by done.
  rewrite (bool_decide_false (root = [])) in Hr by done. cbn [negb andb] in Hr.
  rewrite (bool_decide_false (home = [])) in Hr by done. cbn [negb andb] in Hr.
  generalize dependent (path_append (path_append home (lit ".euxis")) (lit "config.yaml")). intros user Hr.
  destruct (bool_decide (is_Some (fs !! user))); unfold overlay_file in Hr.
  - destruct (load_yaml_file fs env user) as [cu|]; [|done].
    destruct (project_file fs root _) as [q|]; cbn.
    + destruct (load_yaml_file fs env q) as [cp|]; [|done]. injection Hr as <-. cbn.
      destruct (env !! _); cbn; [done|]. by destruct (coding (routing cp)), (coding (routing cu)).
    + injection Hr as <-. cbn. destruct (env !! _); cbn; [done|]. by destruct (coding (routing cu)).
  - destruct (project_file fs root _) as [q|]; cbn.
    + destruct (load_yaml_file fs env q) as [cp|]; [|done]. injection Hr as <-. cbn.
      destruct (env !! _); cbn; [done|]. by destruct (coding (routing cp)).
    + injection Hr as <-. cbn. by destruct (env !! _).
Qed.
End resolve_properties.

Lemma unless_default_zero {A} `{EqDecision A} (z o : A) : unless_default z o z = o.
Proof. unfold unless_default. by case_bool_decide. Qed.
Lemma unless_empty_nil {A} (o : list A) : unless_empty o [] = o.
Proof. by destruct o. Qed.
Lemma or_else_none {A} (o : option A) : or_else o None = o.
Proof. by destruct o. Qed.

(** Merging onto the defaults gives the overlay: a single file means what it
    says. *)
Theorem merge_default o : schema_version o = lit "1" -> merge_into default_config o = o.
Proof.
  destruct o as [v [n ow l] [m t i e mx fl rg] ca [pk cu so] ba ga tr ev [r cd se] ve src].
  cbn [schema_version]. intros ->. unfold merge_into. cbn.
  rewrite !unless_empty_nil, !or_else_none.
  change (unless_default [] n []) with (unless_default (@nil ascii) n []). rewrite !unless_default_zero.
  f_equal. f_equal. by case_bool_decide.
Qed.

(** ** Examples and witnesses *)

Module Sample.
Import SampleYaml.

Definition user_doc : node :=
  Map [(lit "gates", Map [(lit "blocking_threshold", Scalar (lit "critical"))]);
       (lit "scan", Map [(lit "mode", Scalar (lit "forensic"))]);
       (lit "providers", Map [(lit "coding", Scalar (lit "ollama"))])].
Definition project_doc : node :=
  Map [(lit "project", Map [(lit "name", Scalar (lit "demo"))]);
       (lit "scan", Map [(lit "mode", Scalar (lit "check"))])].

(** The documents by the text of their files. *)
#[export] Instance docs : Yaml := {|
  ynode := node; y_undefined := Undefined; y_scalar := Scalar; y_seq := Seq; y_map := Map;
  defined := @defined (yaml Undefined); is_scalar := @is_scalar (yaml Undefined);
  is_sequence := @is_sequence (yaml Undefined); is_map := @is_map (yaml Undefined);
  y_at := find_member; y_elems := @y_elems (yaml Undefined); as_string := @as_string (yaml Undefined);
  y_load text := if bool_decide (text = lit "user") then Ok user_doc else Ok project_doc;
|}.
#[export] Instance scalars : YamlScalars := {|
  is_ynull := (fun _ => false) : @ynode docs -> bool; as_int _ := None; as_bool _ := None; y_members _ := [];
|}.

Definition files : gmap path str :=
  {[lit "/h/.euxis/config.yaml" := lit "user"; lit "/p/.euxis.yaml" := lit "project"]}.
Definition result : option RuntimeConfig :=
  match resolve_config files ∅ (lit "/p") (lit "/h") with Ok c => Some c | Unexpected _ => None end.
End Sample.

Abbreviation sample_resolve := (@resolve_config Sample.docs Sample.scalars Sample.files ∅ (lit "/p") (lit "/h")).

(** A project file that says nothing about the gates undoes the user's gates,
    and one that asks for the default mode does not get it over the user's. *)
Lemma merge_forgets_user_gates :
  exists c, Sample.result = Some c /\ blocking_threshold (gates c) = SevHigh /\ mode (scan c) = Forensic /\
    coding (routing c) = Some (lit "ollama").
Proof. eexists. split; [vm_compute; reflexivity|]. by vm_compute. Qed.

Lemma resolve_config_wf_witness :
  exists c, sample_resolve = Ok c /\ config_wf c.
Proof.
  destruct (sample_resolve) as [c|e] eqn:E; [|by vm_compute in E].
  exists c. split; [done|]. exact (@resolve_config_wf Sample.docs Sample.scalars Sample.files ∅ (lit "/p") (lit "/h") c E).
Defined.

Lemma routing_precedence_witness :
  exists c, sample_resolve = Ok c /\ coding (routing c) = Some (lit "ollama").
Proof.
  destruct (sample_resolve) as [c|e] eqn:E; [|by vm_compute in E].
  exists c. split; [done|]. rewrite (@routing_precedence Sample.docs Sample.scalars Sample.files ∅ (lit "/p") (lit "/h") c E); [|done|done].
  by vm_compute.
Defined.

Lemma merge_default_witness : merge_into default_config default_config = default_config.
Proof. apply (merge_default default_config). reflexivity. Defined.
