(* ===== verification/Streaming.v ===== *)
(** * Streaming providers: [libs/inference/src/claude_streaming.cpp],
      [openai_streaming.cpp] and [gemini_streaming.cpp]

    The three files share the parser of server-sent events and differ in how
    an event becomes deltas.  The HTTP client is an argument: it gives the
    status and body of the answer, or nothing.  [None] results are exceptions
    of the JSON library and, for an index that is negative, the access outside
    the vector of tool calls. *)

From Stdlib Require Import ZArith Ascii String Lia.
From stdpp Require Import base list gmap strings.
From S2P Require Import Prelude CxxString Lines Json JsonText.

(** ** Server-sent events *)

Definition is_eol (c : ascii) : bool := bool_decide (c = eol).

(** The records that an empty line ends, and the text after the last one. *)
Fixpoint split_records (buf : str) : list str * str :=
  match buf with
  | [] => ([], [])
  | c1 :: ((c2 :: rest) as tail) =>
      if is_eol c1 && is_eol c2 then
        let '(rs, more) := split_records rest in ([] :: rs, more)
      else
        match split_records tail with
        | ([], more) => ([], c1 :: more)
        | (r :: rs, more) => ((c1 :: r) :: rs, more)
        end
  | [c] => ([], [c])
  end.

(** The payload of a line, if it carries one. *)
Definition data_of (line : str) : list str :=
  if starts_with (lit "data: ") line then [drop 6 line]
  else if starts_with (lit "data:") line then [drop 5 line]
  else [].

Definition record_events (record : str) : list str := flat_map data_of (split_on eol record).

(** [SseParser::feed]: the payloads handed to the handler, and the buffer. *)
Definition feed (buf bytes : str) : list str * str :=
  let '(rs, more) := split_records (buf ++ bytes) in (flat_map record_events rs, more).

(** Several reads. *)
Fixpoint feed_all (buf : str) (chunks : list str) : list str * str :=
  match chunks with
  | [] => ([], buf)
  | b :: chunks =>
      let '(es, buf) := feed buf b in
      let '(es', buf) := feed_all buf chunks in (es ++ es', buf)
  end.

(** ** Deltas *)

Inductive DeltaKind : Type := TextFragment | ToolCallPartial | Usage | Done_.

Record ProviderDelta : Type := mkDelta {
  d_kind : DeltaKind; d_text : str; tool_call_name : str; tool_call_id : str;
  d_input_tokens : Z; d_output_tokens : Z;
}.
Definition text_delta (t : str) : ProviderDelta := mkDelta TextFragment t [] [] 0 0.
Definition tool_delta (t id name : str) : ProviderDelta := mkDelta ToolCallPartial t name id 0 0.
Definition usage_delta (i o : Z) : ProviderDelta := mkDelta Usage [] [] [] i o.

(** The tool calls seen so far: by position for Claude, by key for OpenAI. *)
Abbreviation ToolCalls := (list (str * str)).
Abbreviation OpenCalls := (gmap Z (str * str)).

(** The HTTP client: the host, the path and the body of a request to the
    status and the body of its answer. *)
Abbreviation Http := (str -> str -> str -> option (Z * str)).

Section dispatch.
Context `{JsonText}.

Definition is_object (j : jv) : bool := match members j with Some _ => true | None => false end.
Definition empty_object : jv := jobj ∅.
(** [j.contains(k) && j[k].is_string()], with the string *)
Definition string_at (j : jv) (k : string) : option str := v ← at_key j k; get_string v.

Definition parse_object (payload : str) : option jv :=
  j ← json_parse payload; if is_object j then Some j else None.

(** *** Claude *)

(** [tool_ctx[index]] after [resize], for an index that is not negative. *)
Definition put_call (ctx : ToolCalls) (index : Z) (call : str * str) : option ToolCalls :=
  if (index <? 0)%Z then None
  else
    let i := Z.to_nat index in
    let ctx := if (length ctx <? S i)%nat then ctx ++ replicate (S i - length ctx) ([], []) else ctx in
    Some (<[i := call]> ctx).

(** A negative index converts to a number beyond any size. *)
Definition call_at (ctx : ToolCalls) (index : Z) : str * str :=
  if (index <? 0)%Z then ([], []) else default ([], []) (ctx !! Z.to_nat index).

Definition claude_block_start (j : jv) (ctx : ToolCalls) : option (list ProviderDelta * ToolCalls) :=
  index ← value get_int j "index" 0%Z;
  block ← value Some j "content_block" empty_object;
  t ← value get_string block "type" [];
  if bool_decide (t = lit "tool_use") then
    id ← value get_string block "id" [];
    name ← value get_string block "name" [];
    ctx ← put_call ctx index (id, name);
    Some ([], ctx)
  else Some ([], ctx).

Definition claude_block_delta (j : jv) (ctx : ToolCalls) : option (list ProviderDelta * ToolCalls) :=
  index ← value get_int j "index" 0%Z;
  delta ← value Some j "delta" empty_object;
  t ← value get_string delta "type" [];
  if bool_decide (t = lit "text_delta") then
    text ← value get_string delta "text" [];
    Some ([text_delta text], ctx)
  else if bool_decide (t = lit "input_json_delta") then
    text ← value get_string delta "partial_json" [];
    let '(id, name) := call_at ctx index in
    Some ([tool_delta text id name], ctx)
  else Some ([], ctx).

Definition claude_message_delta (j : jv) (ctx : ToolCalls) : option (list ProviderDelta * ToolCalls) :=
  usage ← value Some j "usage" empty_object;
  if contains usage "input_tokens" || contains usage "output_tokens" then
    i ← value get_int usage "input_tokens" 0%Z;
    o ← value get_int usage "output_tokens" 0%Z;
    Some ([usage_delta i o], ctx)
  else Some ([], ctx).

Definition claude_dispatch (payload : str) (ctx : ToolCalls) : option (list ProviderDelta * ToolCalls) :=
  match parse_object payload with
  | None => Some ([], ctx)
  | Some j =>
      t ← value get_string j "type" [];
      if bool_decide (t = lit "content_block_start") then claude_block_start j ctx
      else if bool_decide (t = lit "content_block_delta") then claude_block_delta j ctx
      else if bool_decide (t = lit "message_delta") then claude_message_delta j ctx
      else Some ([], ctx)
  end.

(** *** OpenAI *)

Definition open_call (ctx : OpenCalls) (index : Z) : str * str := default ([], []) (ctx !! index).

Definition openai_tool_call (tc : jv) (ctx : OpenCalls) : option (list ProviderDelta * OpenCalls) :=
  index ← value get_int tc "index" 0%Z;
  let ctx := match string_at tc "id" with
             | Some id => <[index := (id, (open_call ctx index).2)]> ctx | None => ctx end in
  func ← value Some tc "function" empty_object;
  let ctx := match string_at func "name" with
             | Some name => <[index := ((open_call ctx index).1, name)]> ctx | None => ctx end in
  match string_at func "arguments" with
  | Some args =>
      let '(id, name) := open_call ctx index in
      Some ([tool_delta args id name], <[index := (id, name)]> ctx)
  | None => Some ([], ctx)
  end.

Fixpoint openai_tool_calls (tcs : list jv) (ctx : OpenCalls) : option (list ProviderDelta * OpenCalls) :=
  match tcs with
  | [] => Some ([], ctx)
  | tc :: tcs =>
      r ← openai_tool_call tc ctx;
      let '(ds, ctx) := r in
      r' ← openai_tool_calls tcs ctx;
      let '(ds', ctx) := r' in Some (ds ++ ds', ctx)
  end.

(** [j[k]] when it is an array that is not empty *)
Definition first_of (j : jv) (k : string) : option jv :=
  v ← at_key j k; if is_array v then head (items v) else None.

Definition openai_choice (choice : jv) (ctx : OpenCalls) : option (list ProviderDelta * OpenCalls) :=
  delta ← value Some choice "delta" empty_object;
  let texts := match string_at delta "content" with
               | Some t => if bool_decide (t = []) then [] else [text_delta t] | None => [] end in
  r ← match at_key delta "tool_calls" with
      | Some tcs => if is_array tcs then openai_tool_calls (items tcs) ctx else Some ([], ctx)
      | None => Some ([], ctx)
      end;
  let '(ds, ctx) := r in Some (texts ++ ds, ctx).

Definition object_usage (j : jv) (k ki ko : string) : option (list ProviderDelta) :=
  match at_key j k with
  | Some usage =>
      if is_object usage then
        i ← value get_int usage ki 0%Z;
        o ← value get_int usage ko 0%Z;
        Some [usage_delta i o]
      else Some []
  | None => Some []
  end.

Definition openai_dispatch (payload : str) (ctx : OpenCalls) : option (list ProviderDelta * OpenCalls) :=
  if bool_decide (payload = lit "[DONE]") then Some ([], ctx)
  else
    match parse_object payload with
    | None => Some ([], ctx)
    | Some j =>
        r ← match first_of j "choices" with
            | Some choice => openai_choice choice ctx
            | None => Some ([], ctx)
            end;
        let '(ds, ctx) := r in
        us ← object_usage j "usage" "prompt_tokens" "completion_tokens";
        Some (ds ++ us, ctx)
    end.

(** *** Gemini *)

Definition gemini_part (part : jv) : option (list ProviderDelta) :=
  match string_at part "text" with
  | Some t => Some (if bool_decide (t = []) then [] else [text_delta t])
  | None =>
      match at_key part "functionCall" with
      | Some fc =>
          if is_object fc then
            name ← value get_string fc "name" [];
            args ← value Some fc "args" empty_object;
            text ← json_dump args;
            Some [tool_delta text (lit "gemini-fc-" ++ name) name]
          else Some []
      | None => Some []
      end
  end.

Definition gemini_dispatch (payload : str) : option (list ProviderDelta) :=
  match parse_object payload with
  | None => Some []
  | Some j =>
      ds ← match first_of j "candidates" with
           | Some cand =>
               content ← value Some cand "content" empty_object;
               parts ← value Some content "parts" (jarr []);
               dss ← mapM gemini_part (items parts);
               Some (mjoin dss)
           | None => Some []
           end;
      us ← object_usage j "usageMetadata" "promptTokenCount" "candidatesTokenCount";
      Some (ds ++ us)
  end.

(** *** The stream of an answer *)

Fixpoint dispatch_all {C} (dispatch : str -> C -> option (list ProviderDelta * C)) (payloads : list str) (ctx : C) :
    option (list ProviderDelta) :=
  match payloads with
  | [] => Some []
  | p :: payloads =>
      r ← dispatch p ctx;
      let '(ds, ctx) := r in
      ds' ← dispatch_all dispatch payloads ctx;
      Some (ds ++ ds')
  end.

Record StreamConfig : Type := mkStream {
  sc_model : str; sc_base_url : str; sc_api_key : str; sc_env_var : str; sc_max_tokens : Z;
}.

Definition resolve_api_key (env : gmap str str) (cfg : StreamConfig) : str :=
  if negb (bool_decide (sc_api_key cfg = [])) then sc_api_key cfg
  else if negb (bool_decide (sc_env_var cfg = [])) then default [] (env !! sc_env_var cfg)
  else [].

Definition model_or (cfg : StreamConfig) (model : str) : str := if bool_decide (model = []) then sc_model cfg else model.

Definition claude_request_body (cfg : StreamConfig) (model prompt : str) : option str :=
  json_dump (object [
    (lit "model", jstr (model_or cfg model));
    (lit "max_tokens", jint (sc_max_tokens cfg));
    (lit "stream", jbool true);
    (lit "messages", jarr [object [(lit "role", jstr (lit "user")); (lit "content", jstr prompt)]])]).

Definition openai_request_body (cfg : StreamConfig) (model prompt : str) : option str :=
  json_dump (object [
    (lit "model", jstr (model_or cfg model));
    (lit "stream", jbool true);
    (lit "stream_options", object [(lit "include_usage", jbool true)]);
    (lit "messages", jarr [object [(lit "role", jstr (lit "user")); (lit "content", jstr prompt)]])]).

Definition gemini_request_body (prompt : str) : option str :=
  json_dump (object [
    (lit "contents", jarr [object [
      (lit "role", jstr (lit "user"));
      (lit "parts", jarr [object [(lit "text", jstr prompt)]])]])]).

Definition gemini_path (cfg : StreamConfig) (model api_key : str) : str :=
  lit "/v1beta/models/" ++ model_or cfg model ++ lit ":streamGenerateContent?alt=sse&key=" ++ api_key.

Definition host_url_of (cfg : StreamConfig) (production : string) : str :=
  if bool_decide (sc_base_url cfg = []) then lit production else sc_base_url cfg.

(** [execute_stream]: nothing without a key or on an answer that is not a
    success, else the deltas of the whole body. *)
Definition execute_stream {C} (dispatch : str -> C -> option (list ProviderDelta * C)) (ctx0 : C)
    (key : str) (request : option str) (post : str -> option (Z * str)) : option (list ProviderDelta) :=
  if bool_decide (key = []) then Some []
  else
    body ← request;
    match post body with
    | Some (status, body) =>
        if (200 <=? status)%Z && (status <? 300)%Z
        then dispatch_all dispatch (feed [] body).1 ctx0
        else Some []
    | None => Some []
    end.

Definition claude_execute (env : gmap str str) (http : Http) (cfg : StreamConfig) (model prompt : str) :
    option (list ProviderDelta) :=
  execute_stream claude_dispatch [] (resolve_api_key env cfg) (claude_request_body cfg model prompt)
    (http (host_url_of cfg "https://api.anthropic.com") (lit "/v1/messages")).

Definition openai_execute (env : gmap str str) (http : Http) (cfg : StreamConfig) (model prompt : str) :
    option (list ProviderDelta) :=
  execute_stream openai_dispatch ∅ (resolve_api_key env cfg) (openai_request_body cfg model prompt)
    (http (host_url_of cfg "https://api.openai.com") (lit "/v1/chat/completions")).

Definition gemini_execute (env : gmap str str) (http : Http) (cfg : StreamConfig) (model prompt : str) :
    option (list ProviderDelta) :=
  let key := resolve_api_key env cfg in
  execute_stream (fun p (ctx : unit) => ds ← gemini_dispatch p; Some (ds, ctx)) tt key (gemini_request_body prompt)
    (http (host_url_of cfg "https://generativelanguage.googleapis.com") (gemini_path cfg model key)).
End dispatch.

(** ** Chunks *)

(** Induction over a text two bytes at a time, as the splitter reads it. *)
Lemma split_ind (Q : str -> Prop) :
  Q [] -> (forall c, Q [c]) -> (forall c1 c2 t, Q t -> Q (c2 :: t) -> Q (c1 :: c2 :: t)) -> forall s, Q s.
Proof.
  intros H0 H1 H2 s. enough (Q s /\ forall c, Q (c :: s)) as [? _] by done.
  induction s as [|a s [IH1 IH2]]; split; auto.
Qed.

Definition push (c : ascii) (p : list str * str) : list str * str :=
  match p with ([], more) => ([], c :: more) | (r :: rs, more) => ((c :: r) :: rs, more) end.

Lemma split_cons2 c1 c2 t :
  split_records (c1 :: c2 :: t) =
  if is_eol c1 && is_eol c2 then let '(rs, more) := split_records t in ([] :: rs, more)
  else push c1 (split_records (c2 :: t)).
Proof. done. Qed.

Lemma split_none s more : split_records s = ([], more) -> more = s.
Proof.
  revert more. induction s as [|c|c1 c2 t IH1 IH2] using split_ind; intros more.
  - by intros [= <-].
  - by intros [= <-].
  - rewrite split_cons2. destruct (is_eol c1 && is_eol c2); [by destruct (split_records t)|].
    destruct (split_records (c2 :: t)) as [[|r rs] more'] eqn:E; cbn; [|done].
    intros [= <-]. by rewrite (IH2 more').
Qed.

(** Records found so far, then those in what is left and what comes. *)
Lemma split_app a b :
  split_records (a ++ b) =
  let '(rs, more) := split_records a in let '(rs', more') := split_records (more ++ b) in (rs ++ rs', more').
Proof.
  induction a as [|c|c1 c2 t IH1 IH2] using split_ind.
  - cbn. by destruct (split_records b).
  - cbn [split_records]. by destruct (split_records ([c] ++ b)).
  - cbn [app]. rewrite !split_cons2. destruct (is_eol c1 && is_eol c2) eqn:E.
    + rewrite IH1. destruct (split_records t) as [rs more]. by destruct (split_records (more ++ b)).
    + change (c2 :: t ++ b) with ((c2 :: t) ++ b). rewrite IH2.
      destruct (split_records (c2 :: t)) as [[|r rs] more] eqn:Es.
      * apply split_none in Es as ->. cbn [push]. cbn [app]. rewrite split_cons2, E.
        by destruct (split_records (c2 :: t ++ b)) as [[|]].
      * cbn [push]. by destruct (split_records (more ++ b)).
Qed.

(** However the bytes arrive, the payloads and the buffer are those of one
    read of all of them. *)
Lemma feed_all_concat chunks : forall buf, (split_records buf).1 = [] -> feed_all buf chunks = feed buf (mjoin chunks).
Proof.
  induction chunks as [|b chunks IH]; intros buf Hbuf; cbn [feed_all].
  - unfold feed. cbn. rewrite app_nil_r. destruct (split_records buf) as [rs more] eqn:E. cbn in Hbuf. subst rs.
    by rewrite (split_none _ _ E).
  - unfold feed at 1. destruct (split_records (buf ++ b)) as [rs more] eqn:E.
    assert ((split_records more).1 = []) as Hm.
    { pose proof (split_app (buf ++ b) []) as Ha. rewrite app_nil_r, E, app_nil_r in Ha.
      destruct (split_records more) as [rs' more']. injection Ha as Ha _. cbn.
      apply (f_equal length) in Ha. rewrite length_app in Ha. destruct rs'; [done|cbn in Ha; lia]. }
    rewrite (IH more Hm). unfold feed. cbn [mjoin list_join].
    change (b ++ mjoin chunks) with (b ++ mjoin chunks).
    rewrite app_assoc, (split_app (buf ++ b)), E.
    destruct (split_records (more ++ mjoin chunks)) as [rs' more']. by rewrite flat_map_app.
Qed.

(** *** Writing events *)

(** A record as the servers send it: the name of the event, then its data. *)
Definition render_event (name payload : str) : str :=
  lit "event: " ++ name ++ [eol] ++ lit "data: " ++ payload ++ [eol; eol].
Definition render_events (es : list (str * str)) : str := flat_map (fun e => render_event e.1 e.2) es.

Lemma is_eol_free s c : free_of eol s -> c ∈ s -> is_eol c = false.
Proof. intros Hs Hc. apply bool_decide_eq_false. by intros ->. Qed.

(** Text without an empty line, then one: the text is the first record. *)
Lemma split_first s t : (split_records (s ++ [eol])).1 = [] ->
  split_records (s ++ eol :: eol :: t) = let '(rs, more) := split_records t in (s :: rs, more).
Proof.
  induction s as [|c|c1 c2 s IH1 IH2] using split_ind; intros Hs.
  - cbn [app]. by rewrite split_cons2.
  - cbn [app] in *. rewrite split_cons2 in Hs |- *. unfold is_eol in Hs |- *.
    destruct (bool_decide (c = eol)) eqn:Ec; [done|]. cbn [andb].
    rewrite split_cons2. unfold is_eol. rewrite bool_decide_true by done. cbn [andb].
    by destruct (split_records t).
  - cbn [app] in *. rewrite split_cons2 in Hs |- *.
    destruct (is_eol c1 && is_eol c2); [by destruct (split_records (s ++ [eol]))|].
    cbn [app] in IH2. rewrite IH2; [by destruct (split_records t)|].
    by destruct (split_records (c2 :: s ++ [eol])) as [[|]].
Qed.

Lemma no_record_free s : free_of eol s -> forall t, (split_records t).1 = [] -> (split_records (s ++ t)).1 = [].
Proof.
  intros Hs t Ht. induction s as [|c s IH]; [done|].
  apply not_elem_of_cons in Hs as [Hc Hs]. specialize (IH Hs). cbn [app].
  destruct (s ++ t) as [|c2 r] eqn:E; [done|]. rewrite split_cons2. unfold is_eol at 1.
  rewrite bool_decide_false by congruence. cbn [andb]. by destruct (split_records (c2 :: r)) as [[|]].
Qed.

Lemma record_of_event name payload : free_of eol name -> free_of eol payload ->
  record_events (lit "event: " ++ name ++ [eol] ++ lit "data: " ++ payload) = [payload].
Proof.
  intros Hn Hp. unfold record_events.
  assert (free_of eol (lit "event: " ++ name)) as H1.
  { unfold free_of in *. rewrite elem_of_app. intros [H1|H1]; [|done].
    revert H1. apply (bool_decide_unpack _). by vm_compute. }
  assert (free_of eol (lit "data: " ++ payload)) as H2.
  { unfold free_of in *. rewrite elem_of_app. intros [H2|H2]; [|done].
    revert H2. apply (bool_decide_unpack _). by vm_compute. }
  rewrite app_assoc. cbn [app]. rewrite split_on_app by done. rewrite (split_on_free_id eol (lit "data: " ++ payload)) by done.
  cbn [flat_map]. change (data_of (lit "event: " ++ name)) with (@nil str). cbn [app]. rewrite app_nil_r.
  unfold data_of. by rewrite starts_with_app.
Qed.

Lemma feed_events es : Forall (fun e => free_of eol e.1 /\ free_of eol e.2) es ->
  feed [] (render_events es) = (es.*2, []).
Proof.
  intros Hes. unfold feed. cbn [app].
  assert (exists rs, split_records (render_events es) = (rs, []) /\ flat_map record_events rs = es.*2) as (rs & -> & ->);
    [|done].
  induction Hes as [|[n p] es [Hn Hp] Hes (rs & IH & Hr)]; [by exists []|].
  cbn [render_events flat_map fst snd]. fold (render_events es).
  exists ((lit "event: " ++ n ++ [eol] ++ lit "data: " ++ p) :: rs).
  replace (render_event n p ++ render_events es) with
    ((lit "event: " ++ n ++ [eol] ++ lit "data: " ++ p) ++ eol :: eol :: render_events es)
    by (unfold render_event; by rewrite <- !app_assoc).
  cbn [fst snd] in Hn, Hp. split.
  - rewrite split_first; [by rewrite IH|]. rewrite <- !app_assoc.
    assert (free_of eol (lit "event: ")) as H0 by (apply (bool_decide_unpack _); by vm_compute).
    assert (free_of eol (lit "data: ")) as H1 by (apply (bool_decide_unpack _); by vm_compute).
    apply (no_record_free _ H0), (no_record_free _ Hn).
    assert ((split_records (lit "data: " ++ p ++ [eol])).1 = []) as Hd
      by (by apply (no_record_free _ H1), (no_record_free _ Hp)).
    cbn [app]. change (lit "data: " ++ p ++ [eol]) with ("d"%char :: lit "ata: " ++ p ++ [eol]) in Hd |- *.
    rewrite split_cons2. change (is_eol "d") with false. rewrite andb_false_r.
    by destruct (split_records ("d"%char :: lit "ata: " ++ p ++ [eol])) as [[|]].
  - cbn [flat_map fmap list_fmap]. rewrite Hr, record_of_event by done. done.
Qed.

(** The event stream survives the network: events written one after the other
    and cut into any chunks give exactly their payloads, in order, and leave
    the buffer empty. *)
Lemma sse_chunks es chunks :
  Forall (fun e => free_of eol e.1 /\ free_of eol e.2) es -> mjoin chunks = render_events es ->
  feed_all [] chunks = (es.*2, []).
Proof. intros Hes Hc. rewrite feed_all_concat by done. rewrite Hc. by apply feed_events. Qed.

(** ** What a Claude stream means *)

(** The events of the vendor's protocol, and their JSON. *)
Inductive ClaudeEvent : Type :=
| EText (index : Z) (text : str)
| ETool (index : Z) (id name : str)
| EArgs (index : Z) (partial : str)
| EUsage (input output : Z)
| EOther (type : str).

(** The meaning of a stream, with the tool calls kept by their index. *)
Fixpoint claude_deltas (calls : gmap Z (str * str)) (evs : list ClaudeEvent) : list ProviderDelta :=
  match evs with
  | [] => []
  | EText _ t :: evs => text_delta t :: claude_deltas calls evs
  | ETool i id name :: evs => claude_deltas (<[i := (id, name)]> calls) evs
  | EArgs i t :: evs =>
      let '(id, name) := default ([], []) (calls !! i) in tool_delta t id name :: claude_deltas calls evs
  | EUsage i o :: evs => usage_delta i o :: claude_deltas calls evs
  | EOther _ :: evs => claude_deltas calls evs
  end.

Definition event_type (e : ClaudeEvent) : str :=
  match e with
  | EText _ _ | EArgs _ _ => lit "content_block_delta"
  | ETool _ _ _ => lit "content_block_start"
  | EUsage _ _ => lit "message_delta"
  | EOther t => t
  end.

Definition handled_types : list str := [lit "content_block_start"; lit "content_block_delta"; lit "message_delta"].

Definition event_ok (e : ClaudeEvent) : Prop :=
  match e with
  | EText i _ | ETool i _ _ | EArgs i _ => int32 i /\ (0 <= i)%Z
  | EUsage i o => int32 i /\ int32 o
  | EOther t => t ∉ handled_types /\ free_of eol t
  end.

Section claude.
Context `{JsonTextOk} `{!JsonOk}.

Definition claude_json (e : ClaudeEvent) : jv :=
  object ((lit "type", jstr (event_type e)) ::
    match e with
    | EText i t => [(lit "index", jint i);
        (lit "delta", object [(lit "type", jstr (lit "text_delta")); (lit "text", jstr t)])]
    | ETool i id name => [(lit "index", jint i);
        (lit "content_block", object [(lit "type", jstr (lit "tool_use")); (lit "id", jstr id); (lit "name", jstr name)])]
    | EArgs i t => [(lit "index", jint i);
        (lit "delta", object [(lit "type", jstr (lit "input_json_delta")); (lit "partial_json", jstr t)])]
    | EUsage i o => [(lit "usage", object [(lit "input_tokens", jint i); (lit "output_tokens", jint o)])]
    | EOther _ => []
    end).

Lemma claude_exact e : event_ok e -> json_exact (claude_json e).
Proof.
  intros He. unfold claude_json. destruct e; cbn [event_ok] in He; try (destruct He as [? ?]); exact_json.
Qed.

(** The vector of calls holds the calls by index. *)
Definition same_calls (ctx : ToolCalls) (calls : gmap Z (str * str)) : Prop :=
  forall i, (0 <= i)%Z -> call_at ctx i = default ([], []) (calls !! i).

Lemma put_call_spec ctx calls i call : (0 <= i)%Z -> same_calls ctx calls ->
  exists ctx', put_call ctx i call = Some ctx' /\ same_calls ctx' (<[i := call]> calls).
Proof.
  intros Hi Hs. unfold put_call. rewrite (proj2 (Z.ltb_ge i 0)) by done.
  eexists; split; [done|]. intros k Hk. specialize (Hs k Hk). unfold call_at in *.
  rewrite (proj2 (Z.ltb_ge k 0)) in * by done.
  set (long := if (length ctx <? S (Z.to_nat i))%nat then _ else ctx).
  assert (Z.to_nat i < length long)%nat as Hlen.
  { unfold long. destruct (Nat.ltb_spec (length ctx) (S (Z.to_nat i))); [|lia].
    rewrite length_app, length_replicate. lia. }
  assert (default ([], []) (long !! Z.to_nat k) = default ([], []) (ctx !! Z.to_nat k)) as Hlong.
  { unfold long. destruct (Nat.ltb_spec (length ctx) (S (Z.to_nat i))) as [Hl|Hl]; [|done].
    destruct (decide (Z.to_nat k < length ctx)%nat) as [Hc|Hc]; [by rewrite lookup_app_l|].
    rewrite lookup_app_r, (lookup_ge_None_2 ctx) by lia. cbn.
    destruct (replicate _ _ !! _) as [x|] eqn:E; [|done]. by apply lookup_replicate in E as [-> _]. }
  destruct (decide (k = i)) as [->|Hne].
  - by rewrite list_lookup_insert_eq, lookup_insert_eq.
  - rewrite list_lookup_insert_ne, lookup_insert_ne by lia. by rewrite Hlong.
Qed.

Lemma claude_dispatch_step e payload ctx calls :
  event_ok e -> json_dump (claude_json e) = Some payload -> same_calls ctx calls ->
  exists ds ctx' calls', claude_dispatch payload ctx = Some (ds, ctx') /\ same_calls ctx' calls' /\
    forall evs, claude_deltas calls (e :: evs) = ds ++ claude_deltas calls' evs.
Proof.
  intros He Hd Hs. unfold claude_dispatch, parse_object. rewrite (parse_dump _ _ (claude_exact e He) Hd). cbn [mbind option_bind].
  replace (is_object (claude_json e)) with true by (unfold is_object, claude_json, object; by rewrite members_obj).
  destruct e as [i t|i id name|i t|i o|t]; cbn [event_ok] in He; unfold claude_json, event_type; read_fields.
  - rewrite bool_decide_false, bool_decide_true by done. unfold claude_block_delta. read_fields.
    rewrite get_int_int by apply He. cbn [mbind option_bind]. read_fields.
    rewrite bool_decide_true by done. by eexists _, ctx, calls.
  - rewrite bool_decide_true by done. unfold claude_block_start. read_fields.
    rewrite get_int_int by apply He. cbn [mbind option_bind]. read_fields.
    rewrite bool_decide_true by done.
    destruct (put_call_spec ctx calls i (id, name)) as (ctx' & -> & Hs'); [apply He|done|].
    by eexists _, ctx', _.
  - rewrite bool_decide_false, bool_decide_true by done. unfold claude_block_delta. read_fields.
    rewrite get_int_int by apply He. cbn [mbind option_bind]. read_fields.
    rewrite bool_decide_false, bool_decide_true by done.
    cbn [claude_deltas]. rewrite <- (Hs i) by apply He. destruct (call_at ctx i) as [id name].
    by eexists _, ctx, calls.
  - rewrite !bool_decide_false, bool_decide_true by done. unfold claude_message_delta. read_fields.
    cbn [orb]. read_fields. rewrite !get_int_int by apply He. by eexists _, ctx, calls.
  - destruct He as [He _]. unfold handled_types in He. rewrite !not_elem_of_cons in He.
    rewrite !bool_decide_false by tauto. by eexists _, ctx, calls.
Qed.

Lemma claude_dispatch_all evs payloads : forall ctx calls,
  Forall event_ok evs -> mapM (fun e => json_dump (claude_json e)) evs = Some payloads -> same_calls ctx calls ->
  dispatch_all claude_dispatch payloads ctx = Some (claude_deltas calls evs).
Proof.
  revert payloads. induction evs as [|e evs IH]; intros payloads ctx calls He Hp Hs.
  - by injection Hp as <-.
  - apply Forall_cons in He as [He Hes]. apply mapM_Some, Forall2_cons_inv_l in Hp as (p & ps & Hp & Hps & ->).
    destruct (claude_dispatch_step e p ctx calls He Hp Hs) as (ds & ctx' & calls' & Hd & Hs' & Hev).
    cbn [dispatch_all]. rewrite Hd. cbn [mbind option_bind].
    rewrite (IH ps ctx' calls' Hes) by (done || by apply mapM_Some). cbn [mbind option_bind]. by rewrite Hev.
Qed.

(** The bytes a server sends for a list of events *)
Definition claude_body (evs : list ClaudeEvent) : option str :=
  payloads ← mapM (fun e => json_dump (claude_json e)) evs;
  Some (render_events (zip (event_type <$> evs) payloads)).

Lemma claude_body_feed evs body : Forall event_ok evs -> claude_body evs = Some body ->
  exists payloads, mapM (fun e => json_dump (claude_json e)) evs = Some payloads /\ feed [] body = (payloads, []).
Proof.
  unfold claude_body. intros He Hb. destruct (mapM _ evs) as [payloads|] eqn:Hp; [|done].
  injection Hb as <-. exists payloads. split; [done|].
  apply mapM_Some in Hp. pose proof (Forall2_length _ _ _ Hp) as Hlen.
  rewrite feed_events; [rewrite snd_zip; [done|rewrite length_fmap; lia]|].
  clear Hlen. induction Hp as [|e p evs ps Hp Hps IH]; [done|]. apply Forall_cons in He as [He Hes].
  constructor; [|by apply IH]. cbn [fst snd]. split; [|by apply (dump_one_line _ _ Hp)].
  destruct e; cbn in He |- *; try apply He; apply (bool_decide_unpack _); by vm_compute.
Qed.

(** C27: a Claude stream is decoded: from an answer that writes the given events,
    the provider yields their meaning, each partial call with the id and the
    name of the block that its index opened.  Each event with usage gives a usage
    record of its own, where it stands, although the header promises at most one
    and only at the end ([usage_repeats]), and no terminator follows. *)
Theorem claude_stream_decodes env http cfg model prompt evs request status body :
  Forall event_ok evs -> claude_body evs = Some body ->
  resolve_api_key env cfg <> [] -> claude_request_body cfg model prompt = Some request ->
  http (host_url_of cfg "https://api.anthropic.com") (lit "/v1/messages") request = Some (status, body) ->
  (200 <= status < 300)%Z ->
  claude_execute env http cfg model prompt = Some (claude_deltas ∅ evs).
Proof.
  intros He Hb Hk Hr Hh Hst. unfold claude_execute, execute_stream.
  rewrite bool_decide_false, Hr by done. cbn [mbind option_bind]. rewrite Hh.
  rewrite (proj2 (Z.leb_le _ _)), (proj2 (Z.ltb_lt _ _)) by lia. cbn [andb].
  destruct (claude_body_feed evs body He Hb) as (payloads & Hp & ->). cbn [fst].
  apply claude_dispatch_all; [done..|]. intros i Hi. unfold call_at. by rewrite (proj2 (Z.ltb_ge i 0)), lookup_empty.
Qed.

(** An event that opens a block at a negative index writes outside the
    vector, whatever was received before. *)
Lemma negative_index_out_of_bounds i id name payload ctx :
  int32 i -> (i < 0)%Z -> json_dump (claude_json (ETool i id name)) = Some payload ->
  claude_dispatch payload ctx = None.
Proof.
  intros Hi Hneg Hd. unfold claude_dispatch, parse_object.
  assert (json_exact (claude_json (ETool i id name))) as Hex by (unfold claude_json; exact_json). rewrite (parse_dump _ _ Hex Hd). cbn [mbind option_bind].
  replace (is_object (claude_json _)) with true by (unfold is_object, claude_json, object; by rewrite members_obj).
  unfold claude_json, event_type. read_fields. rewrite bool_decide_true by done. unfold claude_block_start. read_fields.
  rewrite get_int_int by done. cbn [mbind option_bind]. read_fields. rewrite bool_decide_true by done.
  unfold put_call. by rewrite (proj2 (Z.ltb_lt i 0)).
Qed.
End claude.

(** ** Witnesses *)

Definition sample_stream : list ClaudeEvent :=
  [EOther (lit "message_start"); EText 0 (lit "Hi"); ETool 1 (lit "t1") (lit "bash"); EArgs 1 (lit "{"); EUsage 3 5].

Lemma sample_stream_ok : Forall event_ok sample_stream.
Proof.
  repeat constructor; cbn; unfold int32; try lia; apply (bool_decide_unpack _); by vm_compute.
Qed.

Definition sample_bytes : str :=
  Eval vm_compute in default [] (@claude_body TreeJson.json TreeJson.text sample_stream).
Definition sample_request : str := Eval vm_compute in
  default [] (@claude_request_body TreeJson.json TreeJson.text (mkStream (lit "m") [] (lit "k") [] 16) [] (lit "hi")).

Lemma sse_chunks_witness :
  feed_all [] [lit "event: a"; [eol] ++ lit "data: 1" ++ [eol]; [eol] ++ lit "event: b" ++ [eol] ++ lit "data: 2"; [eol; eol]]
    = ([lit "1"; lit "2"], []).
Proof.
  apply (sse_chunks [(lit "a", lit "1"); (lit "b", lit "2")]).
  - repeat constructor; apply (bool_decide_unpack _); by vm_compute.
  - by vm_compute.
Defined.

Lemma claude_stream_decodes_witness :
  @claude_execute TreeJson.json TreeJson.text ∅ (fun _ _ r => if bool_decide (r = sample_request) then Some (200%Z, sample_bytes) else None)
    (mkStream (lit "m") [] (lit "k") [] 16) [] (lit "hi") =
  Some [text_delta (lit "Hi"); tool_delta (lit "{") (lit "t1") (lit "bash"); usage_delta 3 5].
Proof.
  apply (@claude_stream_decodes TreeJson.json TreeJson.text TreeJson.text_ok TreeJson.tree_json_ok _ _ _ _ _
           sample_stream sample_request 200 sample_bytes).
  - exact sample_stream_ok.
  - by vm_compute.
  - done.
  - by vm_compute.
  - by rewrite bool_decide_true.
  - lia.
Defined.

(** Two events with usage, the first before any text. *)
Definition usage_stream : list ClaudeEvent := [EUsage 1 2; EText 0 (lit "Hi"); EUsage 1 5].
Definition usage_bytes : str := Eval vm_compute in default [] (@claude_body TreeJson.json TreeJson.text usage_stream).

Lemma usage_repeats :
  @claude_execute TreeJson.json TreeJson.text ∅ (fun _ _ _ => Some (200%Z, usage_bytes))
    (mkStream (lit "m") [] (lit "k") [] 16) [] (lit "hi") =
  Some [usage_delta 1 2; text_delta (lit "Hi"); usage_delta 1 5].
Proof. by vm_compute. Qed.
