(* ===== verification/Inference.v ===== *)
(** * Local inference: [libs/inference/src/quality_gate.cpp],
      [cache_control.cpp] and [model_registry.cpp]

    The quality gate scores a response, the cache markers annotate the messages
    of a request, and the registry finds model files and checks their digests.
    The JSON library and SHA-256 are parameters. *)

From Stdlib Require Import ZArith Ascii String Lia SpecFloat.
From stdpp Require Import base list gmap strings.
From S2P Require Import Prelude CxxString Doubles Lines Json JsonText Paths AuditLog.

(** ** The quality gate *)

Module Quality.

Definition blank_char (c : ascii) : bool :=
  char_is " " c || char_is "009" c || char_is "010" c || char_is "013" c.

Definition push_word (word : str) (tokens : list str) : list str :=
  if bool_decide (word = []) then tokens else word :: tokens.

Fixpoint tokenize_loop (word text : str) : list str :=
  match text with
  | [] => push_word word []
  | c :: text =>
      if blank_char c then push_word word (tokenize_loop [] text)
      else tokenize_loop (word ++ [tolower c]) text
  end.
Definition tokenize (text : str) : list str := tokenize_loop [] text.

Definition sentence_end (c : ascii) : bool := char_is "." c || char_is "!" c || char_is "?" c.

Definition push_sentence (current : str) (sentences : list str) : list str :=
  push_word (skip blank_char current) sentences.

Fixpoint sentence_loop (current text : str) : list str :=
  match text with
  | [] => push_sentence current []
  | c :: text =>
      if sentence_end c then push_sentence (current ++ [c]) (sentence_loop [] text)
      else sentence_loop (current ++ [c]) text
  end.
Definition split_sentences (text : str) : list str := sentence_loop [] text.

(** [static_cast<float>] of a size, and division. *)
Definition f_of_nat (n : nat) : float32 := binary_normalize 24 128 (Z.of_nat n) 0 false.
Definition f_div : float32 -> float32 -> float32 := SFdiv 24 128.
Definition ratio (n d : nat) : float32 := f_div (f_of_nat n) (f_of_nat d).

Definition compute_coherence (text : str) : float32 :=
  let sentences := split_sentences text in
  if bool_decide (sentences = []) then f_of_nat 0
  else ratio (length (List.filter (fun s => 3 <? length (tokenize s))%nat sentences)) (length sentences).

Definition compute_relevance (prompt response : str) : float32 :=
  let prompt_tokens := tokenize prompt in
  let response_tokens := tokenize response in
  if bool_decide (prompt_tokens = []) && bool_decide (response_tokens = []) then f_of_nat 1
  else if bool_decide (prompt_tokens = []) || bool_decide (response_tokens = []) then f_of_nat 0
  else
    let prompt_set : gset str := list_to_set prompt_tokens in
    let response_set : gset str := list_to_set response_tokens in
    let intersection := length (List.filter (fun w => bool_decide (w ∈ response_set)) (elements prompt_set)) in
    let union_size := (size prompt_set + size response_set - intersection)%nat in
    if (union_size =? 0)%nat then f_of_nat 0 else ratio intersection union_size.

(** [bigram_counts[b]++] over the adjacent tokens *)
Definition count_bigram (counts : gmap str nat) (b : str) : gmap str nat :=
  <[b := S (default 0%nat (counts !! b))]> counts.

Definition bigrams (tokens : list str) : list str :=
  (fun p => p.1 ++ lit " " ++ p.2) <$> zip tokens (tail tokens).

Definition repeated_bigrams (tokens : list str) : nat :=
  map_fold (fun _ count repeated => if (1 <? count)%nat then repeated + count else repeated)%nat 0%nat
    (foldl count_bigram ∅ (bigrams tokens)).

Definition compute_repetition (text : str) : float32 :=
  let tokens := tokenize text in
  if (length tokens <? 2)%nat then f_of_nat 0
  else ratio (repeated_bigrams tokens) (length tokens - 1).

Record QualityScore : Type := mkScore {
  coherence : float32; relevance : float32; repetition_ratio : float32; passed : bool;
}.
Record QualityGate : Type := mkGate { min_coherence : float32; max_repetition : float32 }.

Definition evaluate (g : QualityGate) (prompt response : str) : QualityScore :=
  let c := compute_coherence response in
  let r := compute_repetition response in
  mkScore c (compute_relevance prompt response) r (d_le (min_coherence g) c && d_le r (max_repetition g)).

(** *** Words *)

Definition word_ok (w : str) : Prop := w <> [] /\ Forall (fun c => blank_char c = false) w.

Lemma tolower_blank c : blank_char (tolower c) = blank_char c.
Proof.
  apply Bool.eqb_prop. revert c. apply (byte_case (fun c => Bool.eqb (blank_char (tolower c)) (blank_char c))).
  by vm_compute.
Qed.

Lemma tokenize_loop_ok text : forall word, Forall (fun c => blank_char c = false) word ->
  Forall word_ok (tokenize_loop word text).
Proof.
  assert (forall word l, Forall (fun c => blank_char c = false) word -> Forall word_ok l ->
            Forall word_ok (push_word word l)) as Hpush.
  { intros word l Hw Hl. unfold push_word. case_bool_decide; [done|]. by constructor. }
  induction text as [|c text IH]; intros word Hw; cbn [tokenize_loop].
  - by apply Hpush.
  - destruct (blank_char c) eqn:E; [by apply Hpush; [|apply IH]|].
    apply IH, Forall_app. split; [done|]. constructor; [by rewrite tolower_blank|done].
Qed.

Lemma tokenize_loop_word w : forall word rest, Forall (fun c => blank_char c = false) w ->
  tokenize_loop word (w ++ rest) = tokenize_loop (word ++ lower w) rest.
Proof.
  induction w as [|c w IH]; intros word rest Hw; [by rewrite app_nil_r|].
  apply Forall_cons in Hw as [Hc Hw]. cbn [app tokenize_loop]. rewrite Hc, IH by done. by rewrite <- app_assoc.
Qed.

(** Words written with any blank between them are read back in lower case. *)
Lemma tokenize_join sep ws : blank_char sep = true -> Forall word_ok ws ->
  tokenize (join_with sep ws) = lower <$> ws.
Proof.
  intros Hsep Hws. unfold tokenize.
  assert (forall w l, word_ok w -> push_word (lower w) l = lower w :: l) as Hpush.
  { intros w l [Hne _]. unfold push_word. rewrite bool_decide_false; [done|]. by destruct w. }
  induction Hws as [|w ws Hw Hws IH]; [done|]. destruct Hws as [|w' ws Hw' Hws].
  - cbn [join_with]. rewrite <- (app_nil_r w) at 1. rewrite tokenize_loop_word by apply Hw. cbn [app tokenize_loop].
    by rewrite Hpush.
  - rewrite join_with_cons2, tokenize_loop_word by apply Hw. cbn [app tokenize_loop]. rewrite Hsep, Hpush by done.
    by rewrite IH.
Qed.

(** *** Relevance *)

Lemma intersection_size (A B : gset str) :
  length (List.filter (fun w => bool_decide (w ∈ B)) (elements A)) = size (A ∩ B).
Proof.
  rewrite <- (length_map id), map_id. unfold size, set_size, compose. apply Permutation_length, NoDup_Permutation.
  - apply NoDup_ListNoDup, List.NoDup_filter, NoDup_ListNoDup, NoDup_elements.
  - apply NoDup_elements.
  - intros x. rewrite list_elem_of_In, filter_In, <- list_elem_of_In, !elem_of_elements, bool_decide_eq_true.
    set_solver.
Qed.

Lemma inclusion_exclusion (A B : gset str) : (size A + size B - size (A ∩ B) = size (A ∪ B))%nat.
Proof.
  pose proof (size_union_alt A B) as H1. pose proof (size_difference_alt B A) as H2.
  assert (B ∩ A ⊆ B) as H3%subseteq_size by set_solver.
  rewrite (intersection_comm_L A B). lia.
Qed.

(** The relevance is the Jaccard index of the two sets of words: the size of
    their intersection over the size of their union; so it does not depend on
    which text is the prompt, nor on order, repetition and case of words. *)
Theorem relevance_is_jaccard (p r : str) (A := list_to_set (tokenize p) : gset str) (B := list_to_set (tokenize r) : gset str) :
  compute_relevance p r =
    (if bool_decide (A ∪ B = ∅) then f_of_nat 1
     else if bool_decide (A = ∅ \/ B = ∅) then f_of_nat 0
     else ratio (size (A ∩ B)) (size (A ∪ B))) /\
  compute_relevance p r = compute_relevance r p.
Proof.
  assert (forall l : list str, (list_to_set l : gset str) = ∅ <-> l = []) as Hempty.
  { intros [|w l]; [done|]. split; [|done]. cbn. set_solver. }
  assert (forall p r : str, let A := list_to_set (tokenize p) : gset str in let B := list_to_set (tokenize r) : gset str in
    compute_relevance p r =
    (if bool_decide (A ∪ B = ∅) then f_of_nat 1
     else if bool_decide (A = ∅ \/ B = ∅) then f_of_nat 0
     else ratio (size (A ∩ B)) (size (A ∪ B)))) as Hspec.
  { clear A B p r. intros p r A B. unfold compute_relevance. rewrite <- !bool_decide_and, <- bool_decide_or.
    rewrite intersection_size. fold A B.
    rewrite inclusion_exclusion.
    rewrite (bool_decide_ext (A ∪ B = ∅) (tokenize p = [] /\ tokenize r = [])) by (rewrite <- !Hempty; apply empty_union_L).
    rewrite (bool_decide_ext (A = ∅ \/ B = ∅) (tokenize p = [] \/ tokenize r = [])) by (by rewrite <- !Hempty).
    case_bool_decide; [done|]. case_bool_decide as Hor; [done|].
    destruct (Nat.eqb_spec (size (A ∪ B)) 0) as [E|]; [|done]. exfalso. apply Hor. left. apply Hempty.
    apply size_empty_inv in E. apply leibniz_equiv, empty_union_L in E. apply E. }
  split; [apply Hspec|]. rewrite !Hspec. rewrite (union_comm_L B A), (intersection_comm_L B A).
  by rewrite (bool_decide_ext (B = ∅ \/ A = ∅) (A = ∅ \/ B = ∅)) by tauto.
Qed.

(** *** Repetition *)

Definition occurrences {A} `{EqDecision A} (x : A) (l : list A) : nat :=
  length (List.filter (fun y => bool_decide (y = x)) l).

Lemma occurrences_cons {A} `{EqDecision A} (x y : A) l :
  occurrences x (y :: l) = ((if decide (y = x) then 1 else 0) + occurrences x l)%nat.
Proof. unfold occurrences. cbn. by case_bool_decide; case_decide. Qed.

Lemma occurrences_pos {A} `{EqDecision A} (x : A) l : x ∈ l -> (0 < occurrences x l)%nat.
Proof. induction 1; rewrite occurrences_cons; case_decide; lia || done. Qed.

Lemma count_bigram_lookup l : forall (m : gmap str nat) b,
  default 0%nat (foldl count_bigram m l !! b) = (default 0%nat (m !! b) + occurrences b l)%nat.
Proof.
  induction l as [|x l IH]; intros m b; [cbn; lia|]. cbn [foldl]. rewrite IH, occurrences_cons. unfold count_bigram.
  destruct (decide (x = b)) as [->|Hne]; [rewrite lookup_insert_eq; cbn; lia|]. by rewrite lookup_insert_ne.
Qed.

(** Counts summed over the entries of the map with a weight that depends on
    the key only. *)
Definition weigh (h : str -> bool) (m : gmap str nat) : nat :=
  map_fold (fun k c acc => if h k then acc + c else acc)%nat 0%nat m.

Lemma weigh_fresh h m k c : m !! k = None -> weigh h (<[k := c]> m) = (weigh h m + if h k then c else 0)%nat.
Proof.
  intros Hk. unfold weigh. rewrite map_fold_insert_L; [by destruct (h k); lia| |done].
  intros i j x y z _ _ _. destruct (h i), (h j); lia.
Qed.

Lemma weigh_count h m b : weigh h (count_bigram m b) = (weigh h m + if h b then 1 else 0)%nat.
Proof.
  unfold count_bigram. destruct (m !! b) as [c|] eqn:E; cbn [default]; [|by rewrite weigh_fresh].
  rewrite <- insert_delete_eq, weigh_fresh by apply lookup_delete_eq.
  assert (weigh h m = weigh h (delete b m) + if h b then c else 0)%nat as ->; [|unfold id; destruct (h b); lia].
  rewrite <- weigh_fresh with (k := b) by apply lookup_delete_eq. by rewrite insert_delete_id.
Qed.

Lemma weigh_fold h l : forall m, weigh h (foldl count_bigram m l) = (weigh h m + length (List.filter h l))%nat.
Proof.
  induction l as [|b l IH]; intros m; [cbn; lia|]. cbn [foldl List.filter]. rewrite IH, weigh_count.
  destruct (h b); cbn [length]; lia.
Qed.

Lemma fold_repeated m (h : str -> bool) : (forall k c, m !! k = Some c -> h k = (1 <? c)%nat) ->
  map_fold (fun _ count repeated => if (1 <? count)%nat then repeated + count else repeated)%nat 0%nat m = weigh h m.
Proof.
  unfold weigh. induction m as [|k c m Hk Hfirst IH] using map_first_key_ind; intros Hh; [by rewrite !map_fold_empty|].
  rewrite !map_fold_insert_first_key by done. rewrite IH.
  - by rewrite (Hh k c) by apply lookup_insert_eq.
  - intros k' c' Hk'. apply (Hh k' c'). rewrite lookup_insert_ne; [done|]. congruence.
Qed.

Lemma bigram_inj (a b c d : str) : word_ok a -> word_ok c -> a ++ lit " " ++ b = c ++ lit " " ++ d -> a = c /\ b = d.
Proof.
  assert (forall w, word_ok w -> free_of " " w) as Hfree.
  { intros w [_ Hw]. apply free_of_Forall. eapply Forall_impl; [exact Hw|]. cbn. intros x.
    unfold blank_char. rewrite !orb_false_iff. tauto. }
  intros Ha%Hfree Hc%Hfree E. cbn [lit list_ascii_of_string app] in E.
  pose proof (find_char_hit " " a b Ha) as E1. rewrite E, (find_char_hit " " c d Hc) in E1. injection E1 as E1.
  apply app_inj_1 in E as [-> E]; [|done]. by injection E as ->.
Qed.

Lemma occurrences_fmap {A B} `{EqDecision A, EqDecision B} (f : A -> B) (P : A -> Prop) x l :
  (forall a b, P a -> P b -> f a = f b -> a = b) -> P x -> Forall P l ->
  occurrences (f x) (f <$> l) = occurrences x l.
Proof.
  intros Hf Hx Hl. induction Hl as [|y l Hy Hl IH]; [done|]. cbn [fmap list_fmap]. rewrite !occurrences_cons, IH.
  f_equal. destruct (decide (y = x)) as [->|Hne]; case_decide as E; try done. by apply Hf in E.
Qed.

Lemma filter_map_length {A B} (f : A -> B) (h : B -> bool) (g : A -> bool) l : (forall a, a ∈ l -> h (f a) = g a) ->
  length (List.filter h (f <$> l)) = length (List.filter g l).
Proof.
  induction l as [|a l IH]; intros Hg; [done|]. cbn [fmap list_fmap List.filter]. rewrite Hg by left.
  specialize (IH (fun b Hb => Hg b (list_elem_of_further b a l Hb))). change (length (List.filter h (f <$> l)) = length (List.filter g l)) in IH.
  destruct (g a); cbn [length]; by rewrite IH.
Qed.

(** The repetition counts positions: among the adjacent pairs of words, those
    that occur at another position too, over all of them. *)
Theorem repetition_counts text (pairs := zip (tokenize text) (tail (tokenize text))) :
  repeated_bigrams (tokenize text) =
    length (List.filter (fun p => 1 <? occurrences p pairs)%nat pairs) /\
  ((2 <= length (tokenize text))%nat ->
    compute_repetition text =
      ratio (length (List.filter (fun p => 1 <? occurrences p pairs)%nat pairs)) (length pairs)).
Proof.
  assert (repeated_bigrams (tokenize text) = length (List.filter (fun p => 1 <? occurrences p pairs)%nat pairs)) as Hr.
  { pose proof (tokenize_loop_ok text [] (Forall_nil_2 _)) as Hok. fold (tokenize text) in Hok.
    unfold repeated_bigrams. set (h := fun b => (1 <? occurrences b (bigrams (tokenize text)))%nat).
    rewrite (fold_repeated _ h).
    - rewrite weigh_fold. unfold weigh. rewrite map_fold_empty. cbn [Nat.add]. unfold bigrams at 1. fold pairs.
      apply filter_map_length. intros p Hp. unfold h, bigrams. fold pairs.
      rewrite (occurrences_fmap (fun p => p.1 ++ lit " " ++ p.2) (fun p => word_ok p.1)); [done|..].
      + intros [a b] [c d] Ha Hc E. cbn in Ha, Hc. apply (bigram_inj a b c d Ha Hc) in E as [-> ->]. done.
      + destruct p as [a b]. apply elem_of_zip_l in Hp. by apply (Forall_forall _ _) with a in Hok.
      + apply Forall_forall. intros [a b] Hab. apply elem_of_zip_l in Hab.
        by apply (Forall_forall _ _) with a in Hok.
    - intros k c Hk. unfold h. pose proof (count_bigram_lookup (bigrams (tokenize text)) ∅ k) as E.
      rewrite Hk, lookup_empty in E. cbn in E. by rewrite E. }
  split; [exact Hr|]. intros Hlen. unfold compute_repetition. rewrite (proj2 (Nat.ltb_ge _ _)) by done. rewrite Hr.
  f_equal. unfold pairs. rewrite length_zip. destruct (tokenize text) as [|w ws]; cbn [length tail]; lia.
Qed.

Example gate_examples :
  tokenize (lit "  The cat, The CAT ") = [lit "the"; lit "cat,"; lit "the"; lit "cat"] /\
  split_sentences (lit "One. Two!  three") = [lit "One."; lit "Two!"; lit "three"] /\
  repeated_bigrams (tokenize (lit "a b a b a")) = 4%nat.
Proof. repeat split; by vm_compute. Qed.
End Quality.

(** ** Prompt-cache markers *)

Module Markers.
Section markers.
Context `{Json}.

Abbreviation object_map := (gmap str jv).
Definition k_content : str := lit "content".
Definition k_cache : str := lit "cache_control".

Definition has_cache_control (block : jv) : bool := contains block "cache_control".

(** The members of a message after [normalise_content_to_array] *)
Definition normalise_content_to_array (message : object_map) : object_map :=
  match message !! k_content with
  | None => <[k_content := jarr []]> message
  | Some content =>
      if is_array content then message
      else
        match get_string content with
        | Some text =>
            <[k_content := jarr [object [(lit "type", jstr (lit "text")); (lit "text", jstr text)]]]> message
        | None =>
            match members content with
            | Some _ => <[k_content := jarr [content]]> message
            | None => <[k_content := jarr []]> message
            end
        end
  end.

Definition marker (ttl : str) : jv := object [(lit "type", jstr (lit "ephemeral")); (lit "ttl", jstr ttl)].

Definition content_blocks (message : object_map) : list jv :=
  match message !! k_content with Some content => items content | None => [] end.

Definition mark_last_block (message : object_map) (ttl : str) : bool * object_map :=
  let message := normalise_content_to_array message in
  match last (content_blocks message) with
  | None => (false, message)
  | Some last =>
      match members last with
      | None => (false, message)
      | Some block =>
          if has_cache_control last then (false, message)
          else (true, <[k_content := jarr (removelast (content_blocks message)
                                            ++ [jobj (<[k_cache := marker ttl]> block)])]> message)
      end
  end.

(** The scan from the back; [None] when a role is not a string. *)
Fixpoint last_role (rev_messages : list jv) (role : str) : option (option nat) :=
  match rev_messages with
  | [] => Some None
  | m :: older =>
      match members m with
      | Some _ =>
          r ← value get_string m "role" [];
          if bool_decide (r = role) then Some (Some (length older)) else last_role older role
      | None => last_role older role
      end
  end.
Definition last_index_with_role (messages : list jv) (role : str) : option (option nat) :=
  last_role (rev messages) role.

(** Mark the last message of a role, if there is one. *)
Definition mark_role (messages : list jv) (role ttl : str) : option (nat * list jv) :=
  idx ← last_index_with_role messages role;
  match idx with
  | None => Some (0%nat, messages)
  | Some i =>
      m ← messages !! i;
      message ← members m;
      let '(added, message) := mark_last_block message ttl in
      Some ((if added then 1 else 0)%nat, <[i := jobj message]> messages)
  end.

Definition apply_anthropic_cache_control (messages : jv) (ttl : str) : option (nat * jv) :=
  if negb (is_array messages) || bool_decide (items messages = []) then Some (0%nat, messages)
  else
    r ← mark_role (items messages) (lit "system") ttl;
    let '(n, ms) := r in
    r' ← mark_role ms (lit "user") ttl;
    let '(n', ms) := r' in
    Some ((n + n')%nat, jarr ms).

Definition with_anthropic_cache_control (messages : jv) (ttl : str) : option jv :=
  r ← apply_anthropic_cache_control messages ttl; Some r.2.

(** *** One message *)
Context `{!JsonOk}.

Lemma normalise_array m : exists c, normalise_content_to_array m !! k_content = Some c /\ is_array c = true.
Proof.
  unfold normalise_content_to_array.
  destruct (m !! k_content) as [c|] eqn:E.
  - destruct (is_array c) eqn:Ea; [eauto|]. repeat case_match; rewrite lookup_insert_eq; eauto using array_arr.
  - rewrite lookup_insert_eq. eauto using array_arr.
Qed.

Lemma normalise_idemp m c : m !! k_content = Some c -> is_array c = true -> normalise_content_to_array m = m.
Proof. intros Hc Ha. unfold normalise_content_to_array. by rewrite Hc, Ha. Qed.

Lemma normalise_other m k : k <> k_content -> normalise_content_to_array m !! k = m !! k.
Proof. intros Hk. unfold normalise_content_to_array. repeat case_match; by rewrite ?lookup_insert_ne. Qed.

Lemma mark_other m ttl k : k <> k_content -> (mark_last_block m ttl).2 !! k = m !! k.
Proof.
  intros Hk. unfold mark_last_block.
  repeat case_match; cbn [snd]; rewrite ?lookup_insert_ne by done; by apply normalise_other.
Qed.

Lemma mark_idemp m ttl ttl' m' : (mark_last_block m ttl).2 = m' -> mark_last_block m' ttl' = (false, m').
Proof.
  unfold mark_last_block. destruct (normalise_array m) as (c & Hc & Ha). set (n := normalise_content_to_array m) in *.
  assert (normalise_content_to_array n = n) as Hn by by eapply normalise_idemp.
  destruct (last (content_blocks n)) as [b|] eqn:Hl.
  - destruct (members b) as [block|] eqn:Hb.
    + destruct (has_cache_control b) eqn:Hcc; cbn [snd]; intros <-; [by rewrite Hn, Hl, Hb, Hcc|].
      erewrite normalise_idemp by (apply lookup_insert_eq || apply array_arr).
      unfold content_blocks at 1. rewrite lookup_insert_eq, items_arr, last_snoc, members_obj.
      unfold has_cache_control, contains, at_key. rewrite members_obj. cbn [mbind option_bind].
      by rewrite lookup_insert_eq.
    + cbn [snd]. intros <-. by rewrite Hn, Hl, Hb.
  - cbn [snd]. intros <-. by rewrite Hn, Hl.
Qed.

(** *** The messages *)

Definition role_of (m : jv) : option (option str) :=
  match members m with Some _ => r ← value get_string m "role" []; Some (Some r) | None => Some None end.

Lemma last_role_ext l : forall l' role, role_of <$> l = role_of <$> l' -> last_role l role = last_role l' role.
Proof.
  induction l as [|m l IH]; intros [|m' l'] role E; try done. cbn [fmap list_fmap] in E. injection E as Em El.
  change (role_of <$> l = role_of <$> l') in El. specialize (IH l' role El). cbn [last_role]. rewrite IH.
  assert (length l = length l') as -> by (apply (f_equal length) in El; by rewrite !length_fmap in El).
  unfold role_of in Em. destruct (members m), (members m'); try done.
  - destruct (value get_string m "role" []), (value get_string m' "role" []); by simplify_eq.
  - by destruct (value get_string m "role" []).
  - by destruct (value get_string m' "role" []).
Qed.

Lemma last_index_ext l l' role : role_of <$> l = role_of <$> l' -> last_index_with_role l role = last_index_with_role l' role.
Proof.
  intros E. apply last_role_ext. transitivity (rev (role_of <$> l)); [apply map_rev|]. rewrite E. symmetry. apply map_rev.
Qed.

Lemma last_role_Some l role i : last_role l role = Some (Some i) ->
  exists m, rev l !! i = Some m /\ role_of m = Some (Some role).
Proof.
  induction l as [|m l IH]; [done|]. cbn [last_role rev].
  assert ((exists m', rev l !! i = Some m' /\ role_of m' = Some (Some role)) ->
          exists m', (rev l ++ [m]) !! i = Some m' /\ role_of m' = Some (Some role)) as Hup.
  { intros (m' & Hm' & Hr). exists m'. split; [|done]. by apply lookup_app_l_Some. }
  destruct (members m) as [mm|] eqn:Em; [|auto].
  destruct (value get_string m "role" []) as [r|] eqn:Er; [|done]. cbn [mbind option_bind].
  case_bool_decide as E; [|auto]. intros [= <-]. exists m. split.
  - rewrite lookup_app_r by (rewrite length_rev; lia). by rewrite length_rev, Nat.sub_diag.
  - unfold role_of. by rewrite Em, Er, E.
Qed.

(** What marking a role does: nothing, or one message is replaced by its
    marked form. *)
Lemma mark_role_spec l role ttl n l' : mark_role l role ttl = Some (n, l') ->
  (n <= 1)%nat /\ role_of <$> l' = role_of <$> l /\
  (forall i, last_index_with_role l role <> Some (Some i) -> l' !! i = l !! i) /\
  forall ttl', mark_role l' role ttl' = Some (0%nat, l').
Proof.
  unfold mark_role. destruct (last_index_with_role l role) as [[i|]|] eqn:Hi; try done; cbn [mbind option_bind].
  - destruct (l !! i) as [m|] eqn:Hm; [|done]. cbn [mbind option_bind].
    destruct (members m) as [mm|] eqn:Hmm; [|done]. cbn [mbind option_bind].
    destruct (mark_last_block mm ttl) as [b mm'] eqn:Hb. intros [= <- <-].
    assert (role_of <$> <[i := jobj mm']> l = role_of <$> l) as Hroles.
    { rewrite list_fmap_insert. apply list_insert_id. rewrite list_lookup_fmap, Hm. cbn. f_equal.
      unfold role_of, value. rewrite Hmm, members_obj. cbn [mbind option_bind].
      pose proof (mark_other mm ttl (lit "role")) as Ho. rewrite Hb in Ho. cbn [snd] in Ho. by rewrite Ho. }
    split; [by destruct b; lia|]. split; [done|]. split.
    + intros k Hk. rewrite list_lookup_insert_ne; [done|]. congruence.
    + intros ttl'. rewrite (last_index_ext _ l) by done. rewrite Hi. cbn [mbind option_bind].
      rewrite list_lookup_insert_eq by by eapply lookup_lt_Some. cbn [mbind option_bind]. rewrite members_obj.
      cbn [mbind option_bind]. rewrite (mark_idemp mm ttl ttl' mm') by (by rewrite Hb).
      by rewrite list_insert_insert_eq.
  - intros [= <- <-]. rewrite Hi. by repeat split; try lia.
Qed.

Lemma mark_role_stable l l' role ttl : mark_role l role ttl = Some (0%nat, l) -> role_of <$> l' = role_of <$> l ->
  (forall i, last_index_with_role l role = Some (Some i) -> l' !! i = l !! i) ->
  mark_role l' role ttl = Some (0%nat, l').
Proof.
  unfold mark_role. intros Hm Hr Hsame. rewrite (last_index_ext _ _ _ Hr).
  destruct (last_index_with_role l role) as [[i|]|]; try done; cbn [mbind option_bind] in *.
  rewrite (Hsame i eq_refl). destruct (l !! i) as [m|] eqn:Hi; [|done]. cbn [mbind option_bind] in *.
  destruct (members m) as [mm|]; [|done]. cbn [mbind option_bind] in *.
  destruct (mark_last_block mm ttl) as [[] mm']; [done|]. injection Hm as Hl. do 2 f_equal.
  apply list_insert_id. rewrite (Hsame i eq_refl). rewrite <- Hl. apply list_lookup_insert_eq. by eapply lookup_lt_Some.
Qed.

Lemma last_index_role l role i : last_index_with_role l role = Some (Some i) ->
  exists m, l !! i = Some m /\ role_of m = Some (Some role).
Proof. intros E%last_role_Some. by rewrite rev_involutive in E. Qed.

(** The markers settle: at most two are added, only the last system message
    and the last user message change, and applying the function again adds
    nothing, whatever lifetime is asked for. *)
Theorem cache_control_settles messages ttl n messages' :
  apply_anthropic_cache_control messages ttl = Some (n, messages') ->
  (n <= 2)%nat /\
  (forall i, last_index_with_role (items messages) (lit "system") <> Some (Some i) ->
     last_index_with_role (items messages) (lit "user") <> Some (Some i) ->
     items messages' !! i = items messages !! i) /\
  forall ttl', apply_anthropic_cache_control messages' ttl' = Some (0%nat, messages').
Proof.
  unfold apply_anthropic_cache_control. destruct (negb (is_array messages) || bool_decide (items messages = [])) eqn:E.
  - intros [= <- <-]. rewrite E. by repeat split; try lia.
  - destruct (mark_role (items messages) _ ttl) as [[n1 l1]|] eqn:H1; [|done]. cbn [mbind option_bind].
    destruct (mark_role l1 _ ttl) as [[n2 l2]|] eqn:H2; [|done]. cbn [mbind option_bind]. intros [= <- <-].
    apply mark_role_spec in H1 as (Hn1 & Hr1 & Hs1 & Hi1). apply mark_role_spec in H2 as (Hn2 & Hr2 & Hs2 & Hi2).
    rewrite items_arr, array_arr. cbn [negb orb]. split; [lia|]. split.
    + intros i Hsys Huser. rewrite Hs2, Hs1; [done..|]. by rewrite (last_index_ext _ _ _ Hr1).
    + intros ttl'. apply orb_false_iff in E as [_ E]. apply bool_decide_eq_false in E.
      assert (l2 <> []) as Hne.
      { intros ->. apply E, fmap_nil_inv with role_of. by rewrite <- Hr1, <- Hr2. }
      rewrite bool_decide_false by done.
      rewrite (mark_role_stable l1 l2) by first [apply Hi1 | done | intros i Hi; apply Hs2; intros Hi';
        apply last_index_role in Hi as (m & Hm & Hrole), Hi' as (m' & Hm' & Hrole'); by simplify_eq].
      cbn [mbind option_bind]. by rewrite Hi2.
Qed.
End markers.
Lemma cache_control_settles_witness :
  let J := TreeJson.json in
  let m := @object J [(lit "role", @jstr J (lit "user")); (lit "content", @jstr J (lit "hi"))] in
  exists m', @apply_anthropic_cache_control J (@jarr J [m]) (lit "5m") = Some (1%nat, m') /\
    @apply_anthropic_cache_control J m' (lit "1h") = Some (0%nat, m').
Proof.
  intros J m. eexists. split; [by vm_compute|].
  apply (@cache_control_settles J TreeJson.tree_json_ok (@jarr J [m]) (lit "5m") 1). by vm_compute.
Defined.
End Markers.

(** ** The model registry *)

Module Registry.

(** The incremental interface of libsodium: hashing the pieces one after the
    other is hashing the whole. *)
Class Sha256Stream `{Sha256} : Type := {
  sha_state : Type;
  sha_init : sha_state;
  sha_update : sha_state -> str -> sha_state;
  sha_final : sha_state -> str;
}.
Class Sha256StreamOk `{Sha256Stream} : Prop :=
  sha_pieces pieces : sha_final (foldl sha_update sha_init pieces) = sha256 (mjoin pieces).

Record ModelInfo : Type := mkModel {
  m_name : str; m_path : path; file_size : nat; m_sha256 : str; m_verified : bool;
}.

Section registry.
Context `{Sha256Stream}.

(** The directory: its files, whether it exists, and which can be opened. *)
Variable entries : gmap path str -> path -> list path.
Variable readable : path -> bool.

Definition buf_size : nat := Z.to_nat (64 * 1024).

(** [compute_sha256]: empty when the file cannot be opened. *)
Definition compute_sha256 (fs : gmap path str) (p : path) : str :=
  match fs !! p with
  | Some content =>
      if readable p
      then hex_encode (sha_final (foldl sha_update sha_init (read_chunks (S (length content)) buf_size content)))
      else []
  | None => []
  end.

Definition model_of (fs : gmap path str) (p : path) : option ModelInfo :=
  if bool_decide (path_extension p = lit ".gguf")
  then Some (mkModel (path_stem p) p (length (default [] (fs !! p))) (compute_sha256 fs p) false)
  else None.

Definition discover (fs : gmap path str) (models_dir : path) (is_dir : bool) : list ModelInfo :=
  if is_dir then omap (model_of fs) (entries fs models_dir) else [].

Definition verify (fs : gmap path str) (m : ModelInfo) : bool :=
  match fs !! m_path m with
  | None => false
  | Some _ => bool_decide (compute_sha256 fs (m_path m) = m_sha256 m)
  end.

Definition find_model (models : list ModelInfo) (name : str) : option ModelInfo :=
  List.find (fun m => bool_decide (m_name m = name)) models.

(** *** Properties *)
Context `{!Sha256StreamOk} `{!EntriesOk entries}.

Lemma compute_sha256_whole fs p content : fs !! p = Some content -> readable p = true ->
  compute_sha256 fs p = hex_encode (sha256 content).
Proof.
  intros Hp Hr. unfold compute_sha256. rewrite Hp, Hr, sha_pieces, read_chunks_join; [done| |lia].
  unfold buf_size. lia.
Qed.

(** The registry finds exactly the model files of its directory, and a model
    it found verifies later exactly when the file still has the digest of what
    was read: a changed file is refused unless SHA-256 collides. *)
Theorem registry_verifies fs fs' models_dir m :
  (m ∈ discover fs models_dir true <->
    exists content, fs !! m_path m = Some content /\ in_directory models_dir (m_path m) /\
      path_extension (m_path m) = lit ".gguf" /\
      m = mkModel (path_stem (m_path m)) (m_path m) (length content) (compute_sha256 fs (m_path m)) false) /\
  (m ∈ discover fs models_dir true -> readable (m_path m) = true ->
    forall content content', fs !! m_path m = Some content -> fs' !! m_path m = Some content' ->
      (verify fs' m = true <-> sha256 content' = sha256 content)).
Proof.
  assert (m ∈ discover fs models_dir true <->
    exists content, fs !! m_path m = Some content /\ in_directory models_dir (m_path m) /\
      path_extension (m_path m) = lit ".gguf" /\
      m = mkModel (path_stem (m_path m)) (m_path m) (length content) (compute_sha256 fs (m_path m)) false) as Hd.
  { unfold discover. rewrite list_elem_of_omap. unfold model_of. split.
    - intros (p & Hp & Hm). apply entries_spec in Hp as [[content Hc] Hin].
      case_bool_decide as He; [|done]. injection Hm as <-. cbn [m_path]. exists content. by rewrite Hc.
    - intros (content & Hc & Hin & He & Hm). exists (m_path m). rewrite bool_decide_true, Hc by done. cbn [default]. unfold id.
      split; [|f_equal; symmetry; exact Hm]. apply entries_spec. split; [by eexists|done]. }
  split; [exact Hd|]. intros Hm Hr content content' Hc Hc'. apply Hd in Hm as (content0 & Hc0 & _ & _ & Hm).
  unfold verify. rewrite Hc', bool_decide_eq_true. rewrite Hm at 2. cbn [m_sha256].
  rewrite (compute_sha256_whole fs' _ content'), (compute_sha256_whole fs _ content) by done.
  split; [apply hex_encode_inj|by intros ->].
Qed.

(** A model whose file cannot be opened has the empty digest, and verifies
    against it whatever the file holds. *)
Lemma unreadable_model_verifies fs fs' p content : readable p = false -> path_extension p = lit ".gguf" ->
  fs' !! p = Some content -> exists m, model_of fs p = Some m /\ verify fs' m = true.
Proof.
  intros Hr He Hp. unfold model_of. rewrite bool_decide_true by done. eexists. split; [done|].
  unfold verify, compute_sha256. cbn [m_path m_sha256]. rewrite Hp, Hr. apply bool_decide_eq_true.
  by destruct (fs !! p).
Qed.
End registry.
End Registry.
