(* ===== verification/LockFiles.v ===== *)
(** * JSON lock files and the directory scan: [libs/sca/src/npm_lock.cpp],
      [pipfile_lock.cpp] and [scanner.cpp]

    A document is read with the interface of [JsonText]; [what] is the text of
    the library's parse error.  The outer [option] of a parser is an exception:
    a member of the wrong type makes [json::value] throw.  A directory is a
    tree, and the recursive iterator visits it in pre-order; a file that cannot
    be opened has no contents.  The listing is delivered whole: an error while
    the iterator advances, after which the code returns what it has found so
    far, and an entry whose kind cannot be told are not modelled. *)

From Stdlib Require Import ZArith Ascii String Lia Permutation.
From stdpp Require Import base list gmap strings sorting.
From S2P Require Import Prelude CxxString Lines Purl Json JsonText Sca.

(** ** Names of packages *)

(** [s.rfind(p)] *)
Fixpoint rfind_sub (p s : str) : option nat :=
  match s with
  | [] => if starts_with p [] then Some 0%nat else None
  | _ :: t =>
      match rfind_sub p t with
      | Some i => Some (S i)
      | None => if starts_with p s then Some 0%nat else None
      end
  end.

Definition modules_marker : str := lit "node_modules/".

Definition split_package_path (path : str) : str * str :=
  match rfind_sub modules_marker path with
  | None => ([], [])
  | Some pos =>
      match drop (pos + length modules_marker) path with
      | [] => ([], [])
      | (c :: _) as rest =>
          if bool_decide (c = "@"%char) then
            match find_char "/" rest with
            | None => (rest, [])
            | Some slash => (take slash rest, drop (S slash) rest)
            end
          else ([], rest)
      end
  end.

Definition algorithm_of (alg : str) : option HashAlgorithm :=
  if bool_decide (alg = lit "sha256") then Some Sha256
  else if bool_decide (alg = lit "sha384") then Some Sha384
  else if bool_decide (alg = lit "sha512") then Some Sha512
  else if bool_decide (alg = lit "md5") then Some Md5
  else None.

(** npm: an algorithm that is not known counts as SHA-256. *)
Definition parse_integrity (integrity : str) : option Hash :=
  match find_char "-" integrity with
  | None => None
  | Some dash => Some (mkHash (default Sha256 (algorithm_of (take dash integrity))) (drop (S dash) integrity))
  end.

(** Pipfile: such a hash is dropped. *)
Definition parse_hash (s : str) : option Hash :=
  match find_char ":" s with
  | None => None
  | Some colon => alg ← algorithm_of (take colon s); Some (mkHash alg (drop (S colon) s))
  end.

Definition strip_eq (v : str) : str := if starts_with (lit "==") v then drop 2 v else v.

(** ** The parsers *)

Definition full_name (ns name : str) : str := if bool_decide (ns = []) then name else ns ++ "/"%char :: name.

Section parsers.
Context `{JsonText} (what : str -> str).

(** [j.find(k)], when it is an object *)
Definition object_at (j : jv) (k : string) : option (gmap str jv) := v ← at_key j k; members v.
Definition keys_at (j : jv) (k : string) : list str :=
  match object_at j k with Some m => (sorted_items m).*1 | None => [] end.

Definition fail {A} (message source : str) : option (expected A ParseError) :=
  Some (Unexpected (mkParseError message source 0)).

(** The root package, and its direct dependencies *)
Definition npm_root (root body : jv) : option ManifestEntry :=
  outer_name ← value get_string root "name" [];
  name ← value get_string body "name" outer_name;
  outer_version ← value get_string root "version" [];
  version ← value get_string body "version" outer_version;
  Some (mkEntry name version [] None true false [] []).

(** One member of [packages]: nothing for the ones that are skipped. *)
Definition npm_entry (direct_prod direct_dev : list str) (path : str) (body : jv) : option (option ManifestEntry) :=
  if bool_decide (path = []) then Some None
  else
    match members body with
    | None => Some None
    | Some _ =>
        let '(ns, name) := split_package_path path in
        if bool_decide (name = []) then Some None
        else
          version ← value get_string body "version" [];
          let hash := integrity ← (v ← at_key body "integrity"; get_string v); parse_integrity integrity in
          source ← value get_string body "resolved" [];
          dev ← value get_bool body "dev" false;
          let nm := full_name ns name in
          let in_dev := bool_decide (nm ∈ direct_dev) in
          Some (Some (mkEntry name version ns hash (bool_decide (nm ∈ direct_prod) || in_dev) (in_dev || dev) source
                        (keys_at body "dependencies")))
    end.

Definition npm_packages (root : jv) (packages : gmap str jv) :
    option (list ManifestEntry * option ManifestEntry) :=
  r ← match packages !! [] with
      | Some body =>
          match members body with
          | Some _ =>
              entry ← npm_root root body;
              Some (Some entry, keys_at body "dependencies", keys_at body "devDependencies")
          | None => Some (None, [], [])
          end
      | None => Some (None, [], [])
      end;
  let '(root_entry, prod, dev) := r in
  es ← mapM (fun kv => npm_entry prod dev kv.1 kv.2) (sorted_items packages);
  Some (omap id es, root_entry).

Definition parse_npm_lock (contents source : str) : option (expected ParsedManifest ParseError) :=
  match json_parse contents with
  | None => fail (lit "JSON parse: " ++ what contents) source
  | Some root =>
      match members root with
      | None => fail (lit "Top-level JSON value is not an object") source
      | Some _ =>
          version ← value get_int root "lockfileVersion" 0%Z;
          if (version <? 2)%Z || (3 <? version)%Z then
            fail (lit "Only lockfileVersion 2/3 are supported (got " ++ to_string_Z version ++ lit ")") source
          else
            match object_at root "packages" with
            | None => fail (lit "Missing or non-object `packages` member") source
            | Some packages =>
                r ← npm_packages root packages;
                let '(entries, root_entry) := r in
                if bool_decide (entries = []) && negb (bool_decide (is_Some root_entry))
                then fail (lit "No packages found in package-lock.json") source
                else Some (Ok (mkManifest EcoNpm source entries root_entry))
            end
      end
  end.

Definition first_hash (hashes : list jv) : option Hash :=
  head (omap (fun hv => s ← get_string hv; parse_hash s) hashes).

Definition pip_entry (dev : bool) (name : str) (body : jv) : option ManifestEntry :=
  match members body with
  | None => None
  | Some _ =>
      let version := match (v ← at_key body "version"; get_string v) with Some v => strip_eq v | None => [] end in
      let hash := match at_key body "hashes" with
                  | Some h => if is_array h then first_hash (items h) else None | None => None end in
      let source := default [] (v ← at_key body "index"; get_string v) in
      Some (mkEntry name version [] hash true dev source [])
  end.

Definition absorb_section (root : jv) (k : string) (dev : bool) : list ManifestEntry :=
  match object_at root k with
  | Some m => omap (fun kv => pip_entry dev kv.1 kv.2) (sorted_items m)
  | None => []
  end.

Definition parse_pipfile_lock (contents source : str) : expected ParsedManifest ParseError :=
  match json_parse contents with
  | None => Unexpected (mkParseError (lit "JSON parse: " ++ what contents) source 0)
  | Some root =>
      match members root with
      | None => Unexpected (mkParseError (lit "Top-level JSON value is not an object") source 0)
      | Some _ =>
          match absorb_section root "default" false ++ absorb_section root "develop" true with
          | [] => Unexpected (mkParseError (lit "No default/develop sections found in Pipfile.lock") source 0)
          | entries => Ok (mkManifest EcoPypi source entries None)
          end
      end
  end.
End parsers.

(** ** The scan of a directory *)

Inductive FsTree : Type :=
| TFile (name : str) (content : option str)
| TDir (name : str) (children : list FsTree).

Record ScanOptions : Type := mkScanOptions { exclude : list str; max_files : nat }.
Definition default_options : ScanOptions :=
  mkScanOptions [lit "node_modules"; lit "vendor"; lit ".venv"; lit ".git"; lit "target"; lit "build";
                 lit "cmake-build"; lit "dist"] 4096.

(** A path relative to the root is its segments. *)
Definition should_skip (opts : ScanOptions) (rel : list str) : bool :=
  existsb (fun seg => existsb (fun excl => bool_decide (seg = excl)) (exclude opts)) rel.

Definition is_lock_name (name : str) : bool :=
  bool_decide (name = lit "Cargo.lock") || bool_decide (name = lit "package-lock.json")
  || bool_decide (name = lit "Pipfile.lock") || bool_decide (name = lit "go.sum").

(** The state of the loop: the result, the number of lock files, the break. *)
Record ScanLoop : Type := mkScanLoop { sl_result : ScanResult; sl_count : nat; sl_break : bool }.
Definition scan_start : ScanLoop := mkScanLoop (mkScan [] []) 0 false.

Definition push_outcome (r : expected ParsedManifest ParseError) (sr : ScanResult) : ScanResult :=
  match r with
  | Ok m => mkScan (sr_manifests sr ++ [m]) (sr_errors sr)
  | Unexpected e => mkScan (sr_manifests sr) (sr_errors sr ++ [e])
  end.

(** The file a visit reaches: its segments, name and contents. *)
Record Visited : Type := mkVisited { v_rel : list str; v_name : str; v_content : option str }.

Section scan.
Context `{JsonText} (what : str -> str).
(** The text of a path from its segments below the root. *)
Context (path_of : list str -> str).

Definition dispatch (p name : str) (content : option str) :
    option (option (expected ParsedManifest ParseError)) :=
  let file parse :=
    match content with
    | None => Some (Some (Unexpected (mkParseError (lit "Cannot open file") p 0)))
    | Some contents => r ← parse contents p; Some (Some r)
    end in
  if bool_decide (name = lit "Cargo.lock") then file (fun c s => Some (parse_cargo_lock c s))
  else if bool_decide (name = lit "package-lock.json") then file (parse_npm_lock what)
  else if bool_decide (name = lit "Pipfile.lock") then file (fun c s => Some (parse_pipfile_lock what c s))
  else if bool_decide (name = lit "go.sum") then file (fun c s => Some (parse_go_sum c s))
  else Some None.

Definition scan_file (opts : ScanOptions) (v : Visited) (st : ScanLoop) : option ScanLoop :=
  if sl_break st then Some st
  else
    r ← dispatch (path_of (v_rel v)) (v_name v) (v_content v);
    match r with
    | None => Some st
    | Some r =>
        let count := S (sl_count st) in
        Some (mkScanLoop (push_outcome r (sl_result st)) count (max_files opts <=? count)%nat)
    end.

Fixpoint scan_tree (opts : ScanOptions) (rel : list str) (t : FsTree) (st : ScanLoop) : option ScanLoop :=
  match t with
  | TFile name content =>
      let rel := rel ++ [name] in
      if should_skip opts rel then Some st else scan_file opts (mkVisited rel name content) st
  | TDir name children =>
      let rel := rel ++ [name] in
      if should_skip opts rel then Some st
      else
        (fix go (ts : list FsTree) (st : ScanLoop) : option ScanLoop :=
           match ts with [] => Some st | t :: ts => st ← scan_tree opts rel t st; go ts st end) children st
  end.

Fixpoint scan_trees (opts : ScanOptions) (rel : list str) (ts : list FsTree) (st : ScanLoop) : option ScanLoop :=
  match ts with [] => Some st | t :: ts => st ← scan_tree opts rel t st; scan_trees opts rel ts st end.

(** [scan_directory]: the target is missing, a file, or a directory whose
    iterator starts or fails with a message. *)
Inductive Target : Type :=
| Missing
| FileTarget (name : str) (content : option str)
| DirTarget (children : expected (list FsTree) str).

Definition scan_directory (opts : ScanOptions) (target : Target) : option (expected ScanResult ParseError) :=
  let root := path_of [] in
  match target with
  | Missing => fail (lit "Scan target does not exist") root
  | FileTarget name content =>
      r ← dispatch root name content;
      match r with
      | None => fail (lit "Target is not a recognised lockfile") root
      | Some r => Some (Ok (push_outcome r (mkScan [] [])))
      end
  | DirTarget (Unexpected message) => fail message root
  | DirTarget (Ok children) =>
      st ← scan_trees opts [] children scan_start;
      Some (Ok (sl_result st))
  end.

(** *** What a scan finds *)

(** Every file of the tree, in pre-order. *)
Fixpoint all_files (rel : list str) (t : FsTree) : list Visited :=
  match t with
  | TFile name content => [mkVisited (rel ++ [name]) name content]
  | TDir name children => flat_map (all_files (rel ++ [name])) children
  end.

Fixpoint scan_files (opts : ScanOptions) (vs : list Visited) (st : ScanLoop) : option ScanLoop :=
  match vs with [] => Some st | v :: vs => st ← scan_file opts v st; scan_files opts vs st end.

Lemma FsTree_ind' (P : FsTree -> Prop) :
  (forall name content, P (TFile name content)) ->
  (forall name children, Forall P children -> P (TDir name children)) -> forall t, P t.
Proof.
  intros Hf Hd. fix IH 1. intros [name content|name children]; [apply Hf|]. apply Hd.
  induction children as [|t ts IHts]; constructor; [apply IH|exact IHts].
Qed.

Lemma should_skip_app opts a b : should_skip opts (a ++ b) = should_skip opts a || should_skip opts b.
Proof. apply existsb_app. Qed.

Definition kept (opts : ScanOptions) (v : Visited) : bool := negb (should_skip opts (v_rel v)).

Lemma all_files_prefix t : forall rel, Forall (fun v => exists b, v_rel v = rel ++ b) (all_files rel t).
Proof.
  induction t as [name content|name children IH] using FsTree_ind'; intros rel; cbn [all_files].
  - constructor; [by exists [name]|done].
  - apply Forall_flat_map. intros t Hin. rewrite Forall_forall in IH. eapply Forall_impl; [apply (IH t Hin (rel ++ [name]))|].
    cbn. intros v [b ->]. exists (name :: b). by rewrite <- app_assoc.
Qed.

Lemma skipped_files opts t rel : should_skip opts rel = true -> List.filter (kept opts) (all_files rel t) = [].
Proof.
  intros Hs. pose proof (all_files_prefix t rel) as Hp. induction Hp as [|v vs [b Hb] Hp IH]; [done|].
  cbn [List.filter]. unfold kept at 1. by rewrite Hb, should_skip_app, Hs.
Qed.

Lemma skipped_forest opts ts rel : should_skip opts rel = true -> List.filter (kept opts) (flat_map (all_files rel) ts) = [].
Proof.
  intros Hs. induction ts as [|t ts IH]; [done|]. cbn [flat_map]. by rewrite List.filter_app, skipped_files, IH.
Qed.

Lemma scan_files_app opts a b st :
  scan_files opts (a ++ b) st = (st ← scan_files opts a st; scan_files opts b st).
Proof.
  revert st. induction a as [|v a IH]; intros st; [done|]. cbn [app scan_files].
  destruct (scan_file opts v st); cbn [mbind option_bind]; [apply IH|done].
Qed.

(** Pruning directories while walking is the same as dropping the files that
    have an excluded segment. *)
Lemma scan_tree_files opts t : forall rel st,
  scan_tree opts rel t st = scan_files opts (List.filter (kept opts) (all_files rel t)) st.
Proof.
  induction t as [name content|name children IH] using FsTree_ind'; intros rel st; cbn [scan_tree all_files].
  - cbn [List.filter]. unfold kept. cbn [v_rel]. destruct (should_skip opts (rel ++ [name])); [done|]. cbn [negb scan_files].
    by destruct (scan_file opts _ st).
  - destruct (should_skip opts (rel ++ [name])) eqn:Hs; [by rewrite skipped_forest|].
    clear Hs. revert st. induction IH as [|t ts Ht Hts IHts]; intros st; [done|]. cbn [flat_map].
    rewrite List.filter_app, scan_files_app, Ht.
    destruct (scan_files opts (List.filter (kept opts) (all_files (rel ++ [name]) t)) st); cbn [mbind option_bind]; [apply IHts|done].
Qed.

Lemma scan_trees_files opts ts rel : forall st,
  scan_trees opts rel ts st = scan_files opts (List.filter (kept opts) (flat_map (all_files rel) ts)) st.
Proof.
  induction ts as [|t ts IH]; intros st; [done|]. cbn [scan_trees flat_map].
  rewrite List.filter_app, scan_files_app, scan_tree_files.
  destruct (scan_files opts _ st); cbn [mbind option_bind]; [apply IH|done].
Qed.

(** The outcome of one lock file *)
Definition lock_outcome (v : Visited) : option (expected ParsedManifest ParseError) :=
  mjoin (dispatch (path_of (v_rel v)) (v_name v) (v_content v)).

Definition is_lock (v : Visited) : bool := is_lock_name (v_name v).

Lemma dispatch_outcome v : dispatch (path_of (v_rel v)) (v_name v) (v_content v) =
  if is_lock v then Some <$> lock_outcome v else Some None.
Proof.
  unfold lock_outcome, is_lock, is_lock_name, dispatch.
  repeat case_bool_decide; cbn [orb]; try done; destruct (v_content v) as [c|]; try done;
    by destruct (parse_npm_lock what c _).
Qed.

Definition collect (rs : list (expected ParsedManifest ParseError)) (sr : ScanResult) : ScanResult :=
  foldl (fun sr r => push_outcome r sr) sr rs.

Lemma scan_files_break opts vs st : sl_break st = true -> scan_files opts vs st = Some st.
Proof. intros Hb. induction vs as [|v vs IH]; [done|]. cbn [scan_files]. unfold scan_file. by rewrite Hb. Qed.

Lemma scan_files_spec opts vs : forall st, sl_break st = false -> (sl_count st < Nat.max 1 (max_files opts))%nat ->
  sl_result <$> scan_files opts vs st =
  (rs ← mapM lock_outcome (take (Nat.max 1 (max_files opts) - sl_count st) (List.filter is_lock vs));
   Some (collect rs (sl_result st))).
Proof.
  induction vs as [|v vs IH]; intros st Hb Hc; [by destruct (_ - _)%nat|].
  cbn [scan_files List.filter]. unfold scan_file. rewrite Hb, dispatch_outcome.
  destruct (is_lock v) eqn:Hv; [|by apply IH].
  destruct (Nat.max 1 (max_files opts) - sl_count st)%nat as [|k] eqn:Hk; [lia|]. cbn [take mapM].
  destruct (lock_outcome v) as [r|]; [|done]. cbn [fmap option_fmap option_map mbind option_bind].
  destruct (Nat.leb_spec (max_files opts) (S (sl_count st))) as [Hm|Hm].
  - rewrite scan_files_break by done. assert (k = 0)%nat as -> by lia. done.
  - rewrite IH; cbn [sl_break sl_count sl_result]; [|done|lia].
    replace (Nat.max 1 (max_files opts) - S (sl_count st))%nat with k by lia.
    by destruct (mapM lock_outcome (take k (List.filter is_lock vs))).
Qed.

Definition ok_of {A E} (r : expected A E) : option A := match r with Ok a => Some a | Unexpected _ => None end.
Definition error_of {A E} (r : expected A E) : option E := match r with Ok _ => None | Unexpected e => Some e end.

Lemma collect_spec rs : forall sr,
  collect rs sr = mkScan (sr_manifests sr ++ omap ok_of rs) (sr_errors sr ++ omap error_of rs).
Proof.
  induction rs as [|r rs IH]; intros [ms es]; [by rewrite !app_nil_r|].
  cbn [collect foldl]. fold (collect rs (push_outcome r (mkScan ms es))). rewrite IH.
  destruct r; cbn; by rewrite <- app_assoc.
Qed.

(** C18: a scan reads exactly the lock files that no excluded segment hides, in the
    order of the walk and at most [max_files] of them (but at least one): their
    manifests and their errors are the result.  Files below a pruned directory
    are those with an excluded segment, at any depth. *)
Theorem scan_directory_exact opts ts :
  scan_directory opts (DirTarget (Ok ts)) =
  (rs ← mapM lock_outcome
          (take (Nat.max 1 (max_files opts))
            (List.filter (fun v => kept opts v && is_lock v) (flat_map (all_files []) ts)));
   Some (Ok (mkScan (omap ok_of rs) (omap error_of rs)))).
Proof.
  cbn [scan_directory]. rewrite scan_trees_files.
  pose proof (scan_files_spec opts (List.filter (kept opts) (flat_map (all_files []) ts)) scan_start eq_refl) as Hs.
  cbn [scan_start sl_count sl_result] in Hs. rewrite Nat.sub_0_r in Hs. specialize (Hs ltac:(lia)).
  assert (forall l, List.filter is_lock (List.filter (kept opts) l) = List.filter (fun v => kept opts v && is_lock v) l) as Hf.
  { induction l as [|v l IH]; [done|]. cbn [List.filter]. destruct (kept opts v); cbn [andb List.filter]; by rewrite IH. }
  rewrite Hf in Hs. destruct (mapM lock_outcome _) as [rs|]; cbn [mbind option_bind] in *;
    destruct (scan_files opts _ scan_start) as [st|]; cbn [mbind option_bind] in *; try done.
  injection Hs as Hs. by rewrite Hs, collect_spec.
Qed.
End scan.

(** ** Scoped packages *)

(** Dependencies are resolved by the bare name, without the scope: one on a
    scoped package gets no edge, and one on a bare name gets an edge to a
    scoped package of that name when it comes later in the file. *)
Definition npm_pkg (ns name : string) (deps : list string) : ManifestEntry :=
  mkEntry (lit name) (lit "1.0.0") (lit ns) None false false [] (lit <$> deps).

Lemma scoped_dependency_lost :
  doc_dependencies (to_sbom_document 0 (mkScan [mkManifest EcoNpm [] [npm_pkg "" "app" ["@babel/core"]; npm_pkg "@babel" "core" []] None] []) [] []) = [] /\
  doc_dependencies (to_sbom_document 0 (mkScan [mkManifest EcoNpm [] [npm_pkg "" "app" ["core"]; npm_pkg "" "core" []; npm_pkg "@evil" "core" []] None] []) [] []) =
    [mkDependency (lit "pkg:npm/app@1.0.0") [lit "pkg:npm/%40evil/core@1.0.0"]].
Proof. split; by vm_compute. Qed.

(** ** Reading back a written [package-lock.json] *)

Lemma rfind_sub_later p a b i : rfind_sub p b = Some i -> rfind_sub p (a ++ b) = Some (length a + i)%nat.
Proof. intros Hb. induction a as [|c a IH]; [done|]. cbn [app rfind_sub length Nat.add]. by rewrite IH. Qed.

Lemma rfind_sub_skip c p pre rest :
  free_of c pre -> rfind_sub (c :: p) rest = None -> rfind_sub (c :: p) (pre ++ rest) = None.
Proof.
  intros Hpre Hr. induction pre as [|d pre IH]; [done|]. apply not_elem_of_cons in Hpre as [Hd Hpre].
  cbn [app rfind_sub]. rewrite IH by done. cbn [starts_with]. by rewrite bool_decide_false.
Qed.

Lemma rfind_marker pre rest : rfind_sub modules_marker rest = None ->
  rfind_sub modules_marker (pre ++ modules_marker ++ rest) = Some (length pre).
Proof.
  intros Hr. rewrite (rfind_sub_later _ pre _ 0); [f_equal; lia|].
  change modules_marker with ("n"%char :: lit "ode_modules/") in *. cbn [app rfind_sub].
  rewrite rfind_sub_skip by (done || (apply (bool_decide_unpack _); by vm_compute)).
  by rewrite (starts_with_app ("n"%char :: lit "ode_modules/") rest : starts_with _ ("n"%char :: lit "ode_modules/" ++ rest) = true).
Qed.

Record NpmPackage `{Json} : Type := mkNpm {
  np_where : str; np_ns : str; np_name : str; np_version : str; np_hash : option Hash;
  np_resolved : str; np_dev : bool; np_deps : gmap str jv;
}.

Section npm.
Context `{JsonTextOk} `{!JsonOk} (what : str -> str).

Definition np_path (p : NpmPackage) : str := np_where p ++ modules_marker ++ full_name (np_ns p) (np_name p).

Definition hash_ok (h : Hash) : Prop := h_algorithm h ∈ [Sha256; Sha384; Sha512; Md5].

(** Names as npm allows them: a scope begins with an at sign and has no slash. *)
Record npm_wf (p : NpmPackage) : Prop := {
  np_named : np_name p <> [];
  np_scope : np_ns p = [] /\ head (np_name p) <> Some "@"%char \/
             exists s, np_ns p = "@"%char :: s /\ free_of "/" s;
  np_nested : rfind_sub modules_marker (full_name (np_ns p) (np_name p)) = None;
  np_hashed : forall h, np_hash p = Some h -> hash_ok h;
}.

Definition integrity_text (h : Hash) : str :=
  match h_algorithm h with
  | Sha384 => lit "sha384" | Sha512 => lit "sha512" | Md5 => lit "md5" | _ => lit "sha256"
  end ++ "-"%char :: h_value h.

Definition npm_body (p : NpmPackage) : jv :=
  object ((lit "version", jstr (np_version p)) :: (lit "resolved", jstr (np_resolved p)) ::
          (lit "dev", jbool (np_dev p)) :: (lit "dependencies", jobj (np_deps p)) ::
          opt_member "integrity" (fun h => jstr (integrity_text h)) (np_hash p)).

Definition npm_root_body (name version : str) (prod dev : gmap str jv) : jv :=
  object [(lit "name", jstr name); (lit "version", jstr version); (lit "dependencies", jobj prod);
          (lit "devDependencies", jobj dev)].

Definition npm_document (lock_version : Z) (name version : str) (prod dev : gmap str jv) (ps : list NpmPackage) : jv :=
  object [(lit "lockfileVersion", jint lock_version);
          (lit "packages", jobj (list_to_map (([], npm_root_body name version prod dev)
                                                :: ((fun p => (np_path p, npm_body p)) <$> ps))))].

(** The entry a package stands for *)
Definition npm_manifest_entry (prod dev : gmap str jv) (p : NpmPackage) : ManifestEntry :=
  let nm := full_name (np_ns p) (np_name p) in
  mkEntry (np_name p) (np_version p) (np_ns p) (np_hash p)
    (bool_decide (is_Some (prod !! nm)) || bool_decide (is_Some (dev !! nm)))
    (bool_decide (is_Some (dev !! nm)) || np_dev p) (np_resolved p) ((sorted_items (np_deps p)).*1).

Lemma split_path p : npm_wf p -> split_package_path (np_path p) = (np_ns p, np_name p).
Proof.
  intros [Hn Hs Hm _]. unfold split_package_path, np_path. rewrite rfind_marker by done.
  rewrite drop_app_add, drop_app_length. unfold full_name in *. destruct Hs as [[Hns Hat]|(s & Hns & Hf)].
  - rewrite Hns in *. rewrite bool_decide_true in * by done. destruct (np_name p) as [|c n]; [done|].
    rewrite bool_decide_false; [done|]. by intros ->.
  - rewrite Hns in *. rewrite bool_decide_false by done. cbn [app]. rewrite bool_decide_true by done.
    change ("@"%char :: s ++ "/"%char :: np_name p) with (("@"%char :: s) ++ "/"%char :: np_name p).
    rewrite find_char_hit by (apply not_elem_of_cons; done).
    by rewrite take_app_length, drop_S_length_app.
Qed.

Lemma parse_integrity_text h : hash_ok h -> parse_integrity (integrity_text h) = Some h.
Proof.
  intros Hok. destruct h as [alg v]. unfold hash_ok in Hok. cbn in Hok. unfold parse_integrity, integrity_text. cbn [h_algorithm h_value].
  assert (forall a, free_of "-" (lit a) -> find_char "-" (lit a ++ "-"%char :: v) = Some (length (lit a))) as Hfind
    by (intros; by apply find_char_hit).
  repeat (apply elem_of_cons in Hok as [->|Hok]; [rewrite Hfind by (apply (bool_decide_unpack _); by vm_compute);
    by rewrite take_app_length, drop_S_length_app|]). by apply not_elem_of_nil in Hok.
Qed.

Lemma keys_at_obj kvs k m : (list_to_map kvs : gmap str jv) !! lit k = Some (jobj m) ->
  keys_at (object kvs) k = (sorted_items m).*1.
Proof. intros Hk. unfold keys_at, object_at. rewrite at_object, Hk. cbn [mbind option_bind]. by rewrite members_obj. Qed.

Lemma npm_entry_reads prod dev p : npm_wf p ->
  npm_entry ((sorted_items prod).*1) ((sorted_items dev).*1) (np_path p) (npm_body p)
  = Some (Some (npm_manifest_entry prod dev p)).
Proof.
  intros Hwf. unfold npm_entry. rewrite bool_decide_false by (unfold np_path; destruct (np_where p); done).
  rewrite split_path by done. unfold npm_body. unfold object at 1. rewrite members_obj.
  rewrite bool_decide_false by apply Hwf. read_fields.
  rewrite (keys_at_obj _ "dependencies" (np_deps p)) by (by rewrite lookup_assoc).
  unfold npm_manifest_entry. rewrite !(bool_decide_ext (_ ∈ _) _ (sorted_keys _ _)).
  do 3 f_equal. destruct (np_hash p) as [h|] eqn:Eh; cbn [opt_member].
  - cbn [assoc key_eqb fst snd lit list_ascii_of_string Ascii.eqb Bool.eqb andb mbind option_bind]. rewrite get_string_str.
    cbn [mbind option_bind]. apply parse_integrity_text. by apply (np_hashed p Hwf).
  - done.
Qed.

Lemma mapM_perm {A B} (f : A -> option B) l l' r :
  l ≡ₚ l' -> mapM f l = Some r -> exists r', mapM f l' = Some r' /\ r ≡ₚ r'.
Proof.
  intros Hl Hr%mapM_Some.
  destruct (Permutation_Forall2 Hl Hr) as (r' & Hr' & Hf). exists r'. split; [|done]. by apply mapM_Some.
Qed.

Lemma npm_root_reads lock_version name version prod dev ps :
  npm_root (npm_document lock_version name version prod dev ps) (npm_root_body name version prod dev) =
  Some (mkEntry name version [] None true false [] []).
Proof. unfold npm_root, npm_document, npm_root_body. by do 2 read_fields. Qed.

(** Reading a written lock file gives back the root and exactly the entries
    of its packages, whatever order they are listed in and however deep they
    are nested: name, scope, version, hash, source and dependencies as written,
    direct when the root names them, and for development when it says so. *)
Lemma npm_lock_roundtrip lock_version name version prod dev ps contents source :
  (2 <= lock_version <= 3)%Z -> Forall npm_wf ps -> NoDup (np_path <$> ps) ->
  json_exact (npm_document lock_version name version prod dev ps) ->
  json_dump (npm_document lock_version name version prod dev ps) = Some contents ->
  exists m, parse_npm_lock what contents source = Some (Ok m) /\
    pm_ecosystem m = EcoNpm /\ pm_source_file m = source /\
    pm_root m = Some (mkEntry name version [] None true false [] []) /\
    pm_entries m ≡ₚ npm_manifest_entry prod dev <$> ps.
Proof.
  intros Hv Hwf Hnd Hex Hd. unfold parse_npm_lock. rewrite (parse_dump _ _ Hex Hd).
  set (kvs := ([], npm_root_body name version prod dev) :: ((fun p => (np_path p, npm_body p)) <$> ps)).
  assert (sorted_items (list_to_map kvs) ≡ₚ kvs) as Hsorted.
  { rewrite sorted_items_perm. apply map_to_list_to_map. unfold kvs. cbn [fmap list_fmap fst].
    rewrite <- list_fmap_compose. constructor; [|done]. intros (p & E & _)%list_elem_of_fmap.
    cbn in E. unfold np_path in E. symmetry in E. apply app_nil in E as [_ E]. done. }
  assert (mapM (fun kv => npm_entry ((sorted_items prod).*1) ((sorted_items dev).*1) kv.1 kv.2) kvs =
          Some (None :: ((fun p => Some (npm_manifest_entry prod dev p)) <$> ps))) as Hmap.
  { apply mapM_Some. unfold kvs. constructor; [done|]. apply Forall2_fmap_l, Forall2_fmap_r, Forall_Forall2_diag.
    eapply Forall_impl; [exact Hwf|]. cbn. intros p. apply npm_entry_reads. }
  symmetry in Hsorted. destruct (mapM_perm _ _ _ _ Hsorted Hmap) as (es & Hes & Hperm).
  set (doc := npm_document lock_version name version prod dev ps).
  assert (value get_int doc "lockfileVersion" 0%Z = Some lock_version) as ->
    by (unfold doc, npm_document; read_fields; apply get_int_int; unfold int32; lia).
  assert (object_at doc "packages" = Some (list_to_map kvs)) as ->
    by (unfold doc, npm_document, object_at; read_fields; apply members_obj).
  assert (exists dm, members doc = Some dm) as [dm ->] by (eexists; apply members_obj).
  cbn [mbind option_bind]. rewrite (proj2 (Z.ltb_ge lock_version 2)), (proj2 (Z.ltb_ge 3 lock_version)) by lia. cbn [orb].
  unfold npm_packages.
  replace ((list_to_map kvs : gmap str jv) !! ([] : str)) with (Some (npm_root_body name version prod dev))
    by (by rewrite lookup_assoc).
  assert (exists rm, members (npm_root_body name version prod dev) = Some rm) as [rm ->] by (eexists; apply members_obj).
  unfold doc. rewrite npm_root_reads. cbn [mbind option_bind]. unfold npm_root_body.
  rewrite (keys_at_obj _ "dependencies" prod), (keys_at_obj _ "devDependencies" dev) by (by rewrite lookup_assoc).
  rewrite Hes. cbn [mbind option_bind]. rewrite (bool_decide_true (is_Some (Some _))) by done. rewrite andb_false_r.
  eexists. repeat split. cbn [pm_entries]. rewrite <- Hperm. cbn [omap list_omap id].
  clear. induction ps as [|p ps IH]; [done|]. cbn. by constructor.
Qed.
End npm.

(** ** Witnesses *)

Definition sample_packages : list (@NpmPackage TreeJson.json) :=
  [@mkNpm TreeJson.json [] [] (lit "lodash") (lit "4.17.21") (Some (mkHash Sha512 (lit "ab"))) (lit "r") false ∅;
   @mkNpm TreeJson.json (lit "node_modules/lodash/") (lit "@babel") (lit "core") (lit "7.0.0") None [] true
     {[lit "lodash" := @jstr TreeJson.json (lit "^4")]}].

Lemma npm_lock_roundtrip_witness :
  let J := TreeJson.json in
  let prod : gmap str (@jv J) := {[lit "lodash" := @jstr J (lit "^4")]} in
  exists contents, @json_dump J TreeJson.text (@npm_document J 3 (lit "app") (lit "1.0") prod ∅ sample_packages) = Some contents /\
  exists m, @parse_npm_lock J TreeJson.text (fun _ => []) contents (lit "package-lock.json") = Some (Ok m) /\
    pm_entries m ≡ₚ @npm_manifest_entry J prod ∅ <$> sample_packages.
Proof.
  intros J prod. exists (TreeJson.write (@npm_document J 3 (lit "app") (lit "1.0") prod ∅ sample_packages)). split; [reflexivity|].
  destruct (@npm_lock_roundtrip J TreeJson.text TreeJson.text_ok TreeJson.tree_json_ok (fun _ => []) 3 (lit "app") (lit "1.0")
    prod ∅ sample_packages (TreeJson.write (@npm_document J 3 (lit "app") (lit "1.0") prod ∅ sample_packages))
    (lit "package-lock.json") ltac:(lia)) as (m & Hm & _ & _ & _ & He).
  - apply Forall_cons; split; [split|apply Forall_cons; split; [split|constructor]].
    + done.
    + by left.
    + by vm_compute.
    + intros h [= <-]. apply (bool_decide_unpack _). by vm_compute.
    + done.
    + right. exists (lit "babel"). split; [done|]. apply (bool_decide_unpack _). by vm_compute.
    + by vm_compute.
    + done.
  - apply (bool_decide_unpack _). by vm_compute.
  - vm_compute. reflexivity.
  - reflexivity.
  - exists m. split; [exact Hm|exact He].
Defined.
