(* ===== verification/SbomDocs.v ===== *)
(** * Bills of materials as documents: [libs/sbom/src/types.cpp],
      [cyclonedx.cpp], [spdx.cpp] and [openvex.cpp]

    The emitters build JSON values.  An [unordered_map] is written in the order
    of its iterator, which is an argument; so is the serial number that is made
    up when a document has none. *)

From Stdlib Require Import ZArith Ascii String Lia.
From stdpp Require Import base list gmap strings.
From S2P Require Import Prelude CxxString Clock Json JsonObjects JsonText Sca.

(** ** Names of the enumerations *)

Definition component_type_str (t : ComponentType) : str :=
  lit match t with
      | CtApplication => "application" | CtFramework => "framework" | CtLibrary => "library"
      | CtContainer => "container" | CtPlatform => "platform" | CtOperatingSystem => "operating-system"
      | CtDevice => "device" | CtFirmware => "firmware" | CtFile => "file"
      | CtMachineLearningModel => "machine-learning-model" | CtData => "data"
      end.

Definition hash_alg_cyclonedx (a : HashAlgorithm) : str :=
  lit match a with
      | Md5 => "MD5" | Sha1 => "SHA-1" | Sha256 => "SHA-256" | Sha384 => "SHA-384" | Sha512 => "SHA-512"
      | Sha3_256 => "SHA3-256" | Sha3_512 => "SHA3-512" | Blake2b_256 => "BLAKE2b-256"
      | Blake2b_512 => "BLAKE2b-512" | Blake3 => "BLAKE3"
      end.

Definition hash_alg_spdx (a : HashAlgorithm) : str :=
  lit match a with
      | Md5 => "MD5" | Sha1 => "SHA1" | Sha256 => "SHA256" | Sha384 => "SHA384" | Sha512 => "SHA512"
      | Sha3_256 => "SHA3-256" | Sha3_512 => "SHA3-512" | Blake2b_256 => "BLAKE2b-256"
      | Blake2b_512 => "BLAKE2b-512" | Blake3 => "BLAKE3"
      end.

Definition digest_hex_length (a : HashAlgorithm) : nat :=
  match a with
  | Md5 => 32 | Sha1 => 40 | Sha256 => 64 | Sha384 => 96 | Sha512 => 128 | Sha3_256 => 64 | Sha3_512 => 128
  | Blake2b_256 => 64 | Blake2b_512 => 128 | Blake3 => 0
  end.

Definition isxdigit (c : ascii) : bool := isdigit c || between "a" c "f" || between "A" c "F".

Definition is_valid_hash (h : Hash) : bool :=
  if bool_decide (h_value h = []) then false
  else
    let expected := digest_hex_length (h_algorithm h) in
    if negb (expected =? 0)%nat && negb (length (h_value h) =? expected)%nat then false
    else forallb isxdigit (h_value h).

Definition external_ref_type_str (t : ExternalRefType) : str :=
  lit match t with
      | ErVcs => "vcs" | ErIssueTracker => "issue-tracker" | ErWebsite => "website" | ErAdvisories => "advisories"
      | ErBom => "bom" | ErMailingList => "mailing-list" | ErSocialMedia => "social" | ErChat => "chat"
      | ErDocumentation => "documentation" | ErSupport => "support" | ErDistribution => "distribution"
      | ErDistributionIntake => "distribution-intake" | ErLicense => "license" | ErBuildMeta => "build-meta"
      | ErBuildSystem => "build-system" | ErReleaseNotes => "release-notes" | ErOther => "other"
      end.

(** ** The serial number, from two 64-bit random words *)

Definition nibble (n : Z) : ascii := nth (Z.to_nat n) (lit "0123456789abcdef") "0"%char.
Definition hex_of_byte (b : Z) : str := [nibble (Z.shiftr b 4); nibble (Z.land b 15)].

(** [append_bytes(value, n)]: the low [n] bytes, the high one first. *)
Definition append_bytes (value : Z) (n : nat) : str :=
  flat_map (fun i => hex_of_byte (u8 (Z.land (Z.shiftr value (Z.of_nat i * 8)) 255))) (rev (seq 0 n)).

Definition generate_serial_number (a b : Z) : str :=
  let a := Z.lor (Z.land a 0x0FFFFFFFFFFFFFFF) 0x4000000000000000 in
  let b := Z.lor (Z.land b 0xFFFFFFFFFFFF3FFF) 0x0000000000008000 in
  lit "urn:uuid:" ++ append_bytes a 4 ++ "-"%char :: append_bytes (Z.shiftr a 32) 2
    ++ "-"%char :: append_bytes (Z.shiftr a 48) 2 ++ "-"%char :: append_bytes b 2
    ++ "-"%char :: append_bytes (Z.shiftr b 16) 6.

(** ** CycloneDX 1.6 *)

Definition or_else (s t : str) : str := if bool_decide (s = []) then t else s.

Section emit.
Context `{Json}.
(** The order an iterator visits the properties in, and a fresh serial number. *)
Context (order : gmap str str -> list (str * str)) (fresh_serial : str).

Definition hash_to_json (h : Hash) : jv :=
  object (always "alg" (jstr (hash_alg_cyclonedx (h_algorithm h))) ++ always "content" (jstr (h_value h))).

(** A licence with neither an expression nor a location stays null. *)
Definition license_to_json (l : License) : jv :=
  let url := match license_url l with
             | Some u => always "license" (object (always "url" (jstr u))) | None => [] end in
  match when_text "expression" (spdx_expression l) ++ url with
  | [] => jnull
  | kvs => object kvs
  end.

Definition external_ref_to_json (r : ExternalRef) : jv :=
  object (always "type" (jstr (external_ref_type_str (er_type r))) ++ always "url" (jstr (er_url r))
            ++ when_text "comment" (er_comment r)).

Definition property_to_json (kv : str * str) : jv :=
  object (always "name" (jstr kv.1) ++ always "value" (jstr kv.2)).

Definition component_to_json (c : Component) : jv :=
  object (always "type" (jstr (component_type_str (c_type c)))
    ++ always "bom-ref" (jstr (or_else (c_bom_ref c) (c_purl c)))
    ++ always "name" (jstr (c_name c))
    ++ when_text "version" (c_version c)
    ++ when_text "publisher" (c_publisher c)
    ++ when (negb (bool_decide (c_supplier c = []))) "supplier" (object (always "name" (jstr (c_supplier c))))
    ++ when_text "description" (c_description c)
    ++ when_text "purl" (c_purl c)
    ++ when_text "cpe" (c_cpe c)
    ++ when_list "licenses" license_to_json (c_licenses c)
    ++ when_list "hashes" hash_to_json (c_hashes c)
    ++ when_list "externalReferences" external_ref_to_json (c_external_refs c)
    ++ when_list "properties" property_to_json (order (c_properties c))).

Definition dependency_to_json (d : Dependency) : jv :=
  object (always "ref" (jstr (d_ref d)) ++ when_list "dependsOn" jstr (d_depends d)).

Definition tool_to_json (t : Tool) : jv :=
  object (always "type" (jstr (lit "application")) ++ always "vendor" (jstr (tool_vendor t))
            ++ always "name" (jstr (tool_name t)) ++ always "version" (jstr (tool_version t))).

Definition metadata_to_json (doc : SbomDocument) : jv :=
  object (always "timestamp" (jstr (iso8601 (doc_created_at doc)))
    ++ when (match doc_tools doc with [] => false | _ => true end) "tools"
         (object (always "components" (jarr (tool_to_json <$> doc_tools doc))))
    ++ match doc_root doc with Some root => always "component" (component_to_json root) | None => [] end
    ++ when_list "properties" property_to_json (order (doc_properties doc))).

Definition to_cyclonedx_1_6 (doc : SbomDocument) : jv :=
  object (always "bomFormat" (jstr (lit "CycloneDX"))
    ++ always "specVersion" (jstr (lit "1.6"))
    ++ always "version" (jint 1)
    ++ always "serialNumber" (jstr (or_else (doc_serial_number doc) fresh_serial))
    ++ always "metadata" (metadata_to_json doc)
    ++ always "components" (jarr (component_to_json <$> doc_components doc))
    ++ when_list "dependencies" dependency_to_json (doc_dependencies doc)).

(** ** SPDX 3.0.1 *)

Definition spdxid (bom_ref : str) : str :=
  lit "SPDXRef-" ++ ((fun c => if isalnum c || char_is "." c || char_is "-" c then c else "-"%char) <$> bom_ref).

Definition organization (name : str) : jv :=
  object (always "@type" (jstr (lit "Organization")) ++ always "name" (jstr name)).

Definition spdx_hash_to_json (h : Hash) : jv :=
  object (always "@type" (jstr (lit "Hash")) ++ always "checksumAlgorithm" (jstr (hash_alg_spdx (h_algorithm h)))
            ++ always "checksumValue" (jstr (h_value h))).

Definition component_ref (c : Component) : str :=
  or_else (c_bom_ref c) (or_else (c_purl c) (c_name c)).

Definition package_to_node (c : Component) : jv :=
  object (always "@type" (jstr (lit "Package"))
    ++ always "spdxId" (jstr (spdxid (component_ref c)))
    ++ always "name" (jstr (c_name c))
    ++ when_text "packageVersion" (c_version c)
    ++ when (negb (bool_decide (c_supplier c = []))) "supplier" (organization (c_supplier c))
    ++ when (negb (bool_decide (c_publisher c = []))) "originator" (organization (c_publisher c))
    ++ when_text "description" (c_description c)
    ++ when (negb (bool_decide (c_purl c = []))) "externalIdentifier"
         (jarr [object (always "@type" (jstr (lit "ExternalIdentifier"))
                  ++ always "externalIdentifierType" (jstr (lit "purl")) ++ always "identifier" (jstr (c_purl c)))])
    ++ when_list "verifiedUsing" spdx_hash_to_json (c_hashes c)
    ++ match c_licenses c with l :: _ => when_text "concludedLicense" (spdx_expression l) | [] => [] end).

Definition spdx_tool_to_json (t : Tool) : jv :=
  object (always "@type" (jstr (lit "Tool")) ++ always "name" (jstr (tool_name t))
            ++ always "toolVersion" (jstr (tool_version t)) ++ always "creatorVendor" (jstr (tool_vendor t))).

Definition creation_info (doc : SbomDocument) : jv :=
  object (always "@type" (jstr (lit "CreationInfo")) ++ always "spdxId" (jstr (lit "_:creationinfo"))
            ++ always "created" (jstr (iso8601 (doc_created_at doc))) ++ always "specVersion" (jstr (lit "3.0.1"))
            ++ when_list "createdUsing" spdx_tool_to_json (doc_tools doc)).

Definition spdx_document (doc : SbomDocument) : jv :=
  object (always "@type" (jstr (lit "SpdxDocument"))
    ++ always "spdxId" (jstr (doc_namespace doc ++ "/"%char :: or_else (doc_serial_number doc) fresh_serial))
    ++ always "name" (jstr (match doc_root doc with Some r => c_name r | None => lit "euxis-scan" end))
    ++ always "dataLicense" (jstr (lit "CC0-1.0")) ++ always "creationInfo" (jstr (lit "_:creationinfo"))).

Definition relationship (from to : str) : jv :=
  object (always "@type" (jstr (lit "Relationship")) ++ always "relationshipType" (jstr (lit "dependsOn"))
            ++ always "from" (jstr (spdxid from)) ++ always "to" (jarr [jstr (spdxid to)])).

Definition spdx_graph (doc : SbomDocument) : list jv :=
  [creation_info doc; spdx_document doc]
  ++ match doc_root doc with Some r => [package_to_node r] | None => [] end
  ++ (package_to_node <$> doc_components doc)
  ++ flat_map (fun d => relationship (d_ref d) <$> d_depends d) (doc_dependencies doc).

Definition to_spdx_3_0_1 (doc : SbomDocument) : jv :=
  object (always "@context" (jarr [jstr (lit "https://spdx.org/rdf/3.0.1/spdx-context.jsonld")])
            ++ always "@graph" (jarr (spdx_graph doc))).
End emit.

(** ** OpenVEX *)

Inductive VexStatus : Type := NotAffected | Affected | Fixed | UnderInvestigation.
Inductive VexJustification : Type :=
| NoJustification | ComponentNotPresent | VulnerableCodeNotPresent | VulnerableCodeNotInExecutePath
| VulnerableCodeCannotBeControlledByAdversary | InlineMitigationsAlreadyExist.
#[export] Instance VexStatus_eq_dec : EqDecision VexStatus.
Proof. solve_decision. Defined.
#[export] Instance VexJustification_eq_dec : EqDecision VexJustification.
Proof. solve_decision. Defined.

Record VexStatement : Type := mkVex {
  vulnerability_name : str; product_purls : list str; vex_status : VexStatus;
  vex_justification : VexJustification; impact_statement : str; action_statement : str; vex_timestamp : Z;
}.
Record VexDocument : Type := mkVexDoc {
  vex_id : str; vex_author : str; vex_author_role : str; vexdoc_timestamp : Z; vex_statements : list VexStatement;
}.

Definition vex_status_str (s : VexStatus) : str :=
  lit match s with
      | NotAffected => "not_affected" | Affected => "affected" | Fixed => "fixed"
      | UnderInvestigation => "under_investigation"
      end.

Definition vex_justification_str (j : VexJustification) : str :=
  lit match j with
      | NoJustification => ""
      | ComponentNotPresent => "component_not_present"
      | VulnerableCodeNotPresent => "vulnerable_code_not_present"
      | VulnerableCodeNotInExecutePath => "vulnerable_code_not_in_execute_path"
      | VulnerableCodeCannotBeControlledByAdversary => "vulnerable_code_cannot_be_controlled_by_adversary"
      | InlineMitigationsAlreadyExist => "inline_mitigations_already_exist"
      end.

Definition statement_to_json `{Json} (s : VexStatement) : jv :=
  object (always "vulnerability" (object (always "name" (jstr (vulnerability_name s))))
    ++ always "products" (jarr ((fun p => object (always "@id" (jstr p))) <$> product_purls s))
    ++ always "status" (jstr (vex_status_str (vex_status s)))
    ++ when (bool_decide (vex_status s = NotAffected) && negb (bool_decide (vex_justification s = NoJustification)))
         "justification" (jstr (vex_justification_str (vex_justification s)))
    ++ when_text "impact_statement" (impact_statement s)
    ++ when (bool_decide (vex_status s = Fixed) && negb (bool_decide (action_statement s = [])))
         "action_statement" (jstr (action_statement s))
    ++ always "timestamp" (jstr (iso8601 (vex_timestamp s)))).

Definition to_openvex `{Json} (fresh_serial : str) (doc : VexDocument) : jv :=
  object (always "@context" (jstr (lit "https://openvex.dev/ns/v0.2.0"))
    ++ always "@id" (jstr (or_else (vex_id doc) fresh_serial))
    ++ always "author" (jstr (vex_author doc))
    ++ when_text "role" (vex_author_role doc)
    ++ always "timestamp" (jstr (iso8601 (vexdoc_timestamp doc)))
    ++ always "version" (jint 1)
    ++ always "tooling" (jstr (lit "euxis"))
    ++ always "statements" (jarr (statement_to_json <$> vex_statements doc))).

(** ** Reading a CycloneDX document *)

Definition decode_enum {A} (show : A -> str) (all : list A) (s : str) : option A :=
  List.find (fun a => key_eqb (show a) s) all.

Definition all_component_types : list ComponentType :=
  [CtApplication; CtFramework; CtLibrary; CtContainer; CtPlatform; CtOperatingSystem; CtDevice; CtFirmware; CtFile;
   CtMachineLearningModel; CtData].
Definition all_hash_algorithms : list HashAlgorithm :=
  [Md5; Sha1; Sha256; Sha384; Sha512; Sha3_256; Sha3_512; Blake2b_256; Blake2b_512; Blake3].
Definition all_ref_types : list ExternalRefType :=
  [ErVcs; ErIssueTracker; ErWebsite; ErAdvisories; ErBom; ErMailingList; ErSocialMedia; ErChat; ErDocumentation;
   ErSupport; ErDistribution; ErDistributionIntake; ErLicense; ErBuildMeta; ErBuildSystem; ErReleaseNotes; ErOther].

Lemma type_decodes t : decode_enum component_type_str all_component_types (component_type_str t) = Some t.
Proof. by destruct t. Qed.
Lemma alg_decodes a : decode_enum hash_alg_cyclonedx all_hash_algorithms (hash_alg_cyclonedx a) = Some a.
Proof. by destruct a. Qed.
Lemma ref_type_decodes t : decode_enum external_ref_type_str all_ref_types (external_ref_type_str t) = Some t.
Proof. by destruct t. Qed.

Section read.
Context `{Json}.

Definition read_hash (j : jv) : option Hash :=
  s ← at_get get_string j "alg"; a ← decode_enum hash_alg_cyclonedx all_hash_algorithms s;
  v ← at_get get_string j "content"; Some (mkHash a v).

Definition read_license (j : jv) : option License :=
  if is_null j then Some (mkLicense [] None)
  else
    e ← value get_string j "expression" [];
    u ← match at_key j "license" with
        | None => Some None | Some l => u ← at_get get_string l "url"; Some (Some u) end;
    Some (mkLicense e u).

Definition read_ref (j : jv) : option ExternalRef :=
  s ← at_get get_string j "type"; t ← decode_enum external_ref_type_str all_ref_types s;
  u ← at_get get_string j "url"; c ← value get_string j "comment" []; Some (mkExternalRef t u c).

Definition read_property (j : jv) : option (str * str) :=
  n ← at_get get_string j "name"; v ← at_get get_string j "value"; Some (n, v).

Definition read_component (j : jv) : option Component :=
  s ← at_get get_string j "type"; t ← decode_enum component_type_str all_component_types s;
  ref ← at_get get_string j "bom-ref"; name ← at_get get_string j "name";
  version ← value get_string j "version" []; publisher ← value get_string j "publisher" [];
  supplier ← match at_key j "supplier" with None => Some [] | Some o => at_get get_string o "name" end;
  description ← value get_string j "description" []; purl ← value get_string j "purl" [];
  cpe ← value get_string j "cpe" [];
  licenses ← read_list read_license j "licenses"; hashes ← read_list read_hash j "hashes";
  refs ← read_list read_ref j "externalReferences"; props ← read_list read_property j "properties";
  Some (mkComponent ref purl name version t supplier publisher description licenses hashes refs cpe
          (list_to_map props)).

Definition read_dependency (j : jv) : option Dependency :=
  ref ← at_get get_string j "ref"; ds ← read_list get_string j "dependsOn"; Some (mkDependency ref ds).

(** The components and the edges of a document *)
Definition read_cyclonedx (j : jv) : option (list Component * list Dependency) :=
  cs ← read_list read_component j "components"; ds ← read_list read_dependency j "dependencies"; Some (cs, ds).

End read.

Section roundtrip.
Context `{JsonOk} (order : gmap str str -> list (str * str)) (fresh_serial : str).
Hypothesis order_all : forall m, order m ≡ₚ map_to_list m.

Lemma read_hash_json h : read_hash (hash_to_json h) = Some h.
Proof.
  unfold read_hash, hash_to_json.
  read_all. rewrite alg_decodes. by destruct h.
Qed.

Lemma read_license_json l : read_license (license_to_json l) = Some l.
Proof.
  destruct l as [e u]. unfold read_license, license_to_json, when_text. cbn [spdx_expression license_url].
  assert (is_null jnull = true) as Hnull by by apply null_is_null.
  destruct (decide (e = [])) as [->|He]; [rewrite (bool_decide_true ([] = [])) by done | rewrite (bool_decide_false (e = [])) by done];
    destruct u as [u|]; cbn [negb when app always]; rewrite ?Hnull; try done;
    unfold object at 1; rewrite null_obj; read_fields; repeat (cbn; read_fields); done.
Qed.

Lemma read_ref_json r : read_ref (external_ref_to_json r) = Some r.
Proof.
  unfold read_ref, external_ref_to_json.
  read_all. rewrite ref_type_decodes. cbn [mbind option_bind].
  rewrite (read_text _ "comment" (er_comment r)) by (find_member). by destruct r.
Qed.

Lemma read_property_json kv : read_property (property_to_json kv) = Some kv.
Proof.
  unfold read_property, property_to_json.
  read_all. by destruct kv.
Qed.

Lemma ordered_props m : list_to_map (order m) = m.
Proof.
  transitivity (list_to_map (map_to_list m) : gmap str str); [|apply list_to_map_to_list].
  apply list_to_map_proper; [|apply order_all]. rewrite order_all. apply NoDup_fst_map_to_list.
Qed.

(** What the document keeps of a component: everything, its reference being
    the purl when it has none of its own. *)
Definition written (c : Component) : Component :=
  mkComponent (or_else (c_bom_ref c) (c_purl c)) (c_purl c) (c_name c) (c_version c) (c_type c) (c_supplier c)
    (c_publisher c) (c_description c) (c_licenses c) (c_hashes c) (c_external_refs c) (c_cpe c) (c_properties c).

Lemma read_component_json c : read_component (component_to_json order c) = Some (written c).
Proof.
  unfold read_component, component_to_json.
  read_all. rewrite type_decodes. cbn [mbind option_bind].
  repeat first
    [ rewrite (read_text _ _ (c_version c)) by find_member | rewrite (read_text _ _ (c_publisher c)) by find_member
    | rewrite (read_text _ _ (c_description c)) by find_member | rewrite (read_text _ _ (c_purl c)) by find_member
    | rewrite (read_text _ _ (c_cpe c)) by find_member ].
  rewrite (read_named _ "supplier" (c_supplier c)) by find_member. cbn [mbind option_bind].
  rewrite (read_members read_license license_to_json _ "licenses" (c_licenses c)),
    (read_members read_hash hash_to_json _ "hashes" (c_hashes c)),
    (read_members read_ref external_ref_to_json _ "externalReferences" (c_external_refs c)),
    (read_members read_property property_to_json _ "properties" (order (c_properties c)))
    by (find_member || auto using read_license_json, read_hash_json, read_ref_json, read_property_json).
  cbn [mbind option_bind]. unfold written. by rewrite ordered_props.
Qed.

Lemma read_dependency_json d : read_dependency (dependency_to_json d) = Some d.
Proof.
  unfold read_dependency, dependency_to_json. read_all.
  rewrite (read_members get_string jstr _ "dependsOn" (d_depends d)) by (find_member || auto using get_string_str).
  by destruct d.
Qed.

(** C19: a reader of the members of a CycloneDX document gets back the
    dependency graph the document is made from and its components as they are
    written: every field and every hash of each, whatever order the properties
    are written in, except that an empty [bom-ref] is written, and so read, as
    the purl.  A hash that is not hexadecimal is written like the others,
    although comments in [npm_lock.cpp] and [go_sum.cpp] say that it is not. *)
Theorem cyclonedx_roundtrip doc :
  read_cyclonedx (to_cyclonedx_1_6 order fresh_serial doc) = Some (written <$> doc_components doc, doc_dependencies doc).
Proof.
  unfold read_cyclonedx, to_cyclonedx_1_6.
  rewrite (read_members read_dependency dependency_to_json _ "dependencies" (doc_dependencies doc))
    by (find_member || auto using read_dependency_json).
  unfold read_list at 1. rewrite at_object, lookup_assoc.
  match goal with |- context [assoc (lit "components") ?kvs] =>
    assert (assoc (lit "components") kvs = Some (jarr (component_to_json order <$> doc_components doc))) as -> by find_member end.
  rewrite items_arr.
  assert (mapM read_component (component_to_json order <$> doc_components doc) = Some (written <$> doc_components doc)) as ->; [|done].
  apply mapM_Some, Forall2_fmap_l, Forall2_fmap_r, Forall_Forall2_diag, Forall_forall. intros c _. apply read_component_json.
Qed.

(** *** SPDX *)

(** Every relationship of the graph is between packages of the graph, when the
    dependencies of the document are between its components. *)
Theorem spdx_graph_closed doc d to :
  (forall r, r ∈ doc_dependencies doc -> forall x, x ∈ d_ref r :: d_depends r ->
     exists c, c ∈ doc_components doc /\ component_ref c = x) ->
  d ∈ doc_dependencies doc -> to ∈ d_depends d ->
  relationship (d_ref d) to ∈ spdx_graph fresh_serial doc /\
  exists a b, package_to_node a ∈ spdx_graph fresh_serial doc /\ package_to_node b ∈ spdx_graph fresh_serial doc /\
    at_get get_string (package_to_node a) "spdxId" = at_get get_string (relationship (d_ref d) to) "from" /\
    Some [jstr (spdxid (component_ref b))] = items <$> at_key (relationship (d_ref d) to) "to" /\
    at_get get_string (package_to_node b) "spdxId" = Some (spdxid to).
Proof.
  intros Hclosed Hd Hto. unfold spdx_graph.
  assert (forall c, c ∈ doc_components doc -> package_to_node c ∈ spdx_graph fresh_serial doc) as Hnode.
  { intros c Hc. unfold spdx_graph. rewrite !elem_of_app. right. right. left. by apply list_elem_of_fmap_2. }
  destruct (Hclosed d Hd (d_ref d)) as (a & Ha & Ea); [by left|].
  destruct (Hclosed d Hd to) as (b & Hb & Eb); [by right|].
  split.
  - rewrite !elem_of_app. do 3 right. apply elem_of_flat_map. exists d. split; [done|]. by apply list_elem_of_fmap_2.
  - exists a, b. repeat split; try by apply Hnode.
    + unfold package_to_node, relationship. read_all. by rewrite Ea.
    + unfold relationship. rewrite at_object, lookup_assoc.
      match goal with |- context [assoc (lit "to") ?kvs] =>
        assert (assoc (lit "to") kvs = Some (jarr [jstr (spdxid to)])) as -> by find_member end.
      cbn. by rewrite items_arr, Eb.
    + unfold package_to_node. read_all. by rewrite Eb.
Qed.
End roundtrip.

(** Two package URLs can have one SPDX identifier: the characters that are not
    allowed all become hyphens. *)
Lemma spdxid_collides :
  spdxid (lit "pkg:npm/%40a/b@1.0") = spdxid (lit "pkg:npm/%40a-b@1.0") /\
  lit "pkg:npm/%40a/b@1.0" <> lit "pkg:npm/%40a-b@1.0".
Proof. split; [by vm_compute|]. by intros [= ]%lit_inj. Qed.

(** ** Serial numbers are version 4 UUIDs *)

Definition is_nibble (c : ascii) : Prop := c ∈ lit "0123456789abcdef".

Lemma nibble_ok n : (0 <= n < 16)%Z -> is_nibble (nibble n).
Proof.
  intros Hn. unfold is_nibble, nibble. apply list_elem_of_In, nth_In. change (length (lit "0123456789abcdef")) with 16%nat. lia.
Qed.

Lemma append_bytes_length v n : length (append_bytes v n) = (2 * n)%nat.
Proof.
  unfold append_bytes. enough (forall l, length (flat_map (fun i => hex_of_byte (u8 (Z.land (Z.shiftr v (Z.of_nat i * 8)) 255))) l)
    = (2 * length l)%nat) as -> by (by rewrite length_rev, length_seq).
  induction l as [|i l IH]; [done|]. cbn [flat_map hex_of_byte length app]. rewrite IH. lia.
Qed.

Lemma append_bytes_nibbles v n : Forall is_nibble (append_bytes v n).
Proof.
  unfold append_bytes. apply Forall_flat_map. intros i _. unfold hex_of_byte.
  set (b := u8 _). assert (0 <= b < 2 ^ 8)%Z as Hb by (apply Z.mod_pos_bound; lia).
  apply Forall_cons; split; [|apply Forall_cons; split; [|done]]; apply nibble_ok.
  - rewrite Z.shiftr_div_pow2 by lia. split; [apply Z.div_pos; lia|]. apply Z.div_lt_upper_bound; lia.
  - change 15%Z with (Z.ones 4). rewrite Z.land_ones by lia. apply Z.mod_pos_bound. lia.
Qed.

Lemma u8_byte z : u8 (Z.land z 255) = Z.land z 255.
Proof. unfold u8. change 255%Z with (Z.ones 8). rewrite Z.land_ones by lia. apply Z.mod_mod. lia. Qed.

(** The high digit of the first of two bytes is bits 12 to 15. *)
Lemma append_two v : exists rest, append_bytes v 2 = nibble (Z.land (Z.shiftr v 12) 15) :: rest.
Proof.
  unfold append_bytes. cbn [seq rev app flat_map hex_of_byte]. eexists. f_equal. f_equal.
  rewrite u8_byte. change (Z.of_nat 1 * 8)%Z with 8%Z.
  rewrite Z.shiftr_land, Z.shiftr_shiftr by lia. done.
Qed.

(** Whatever the random words are, the serial number has the shape of a UUID,
    with version 4 and the RFC 4122 variant. *)
Theorem serial_number_is_uuid4 a b :
  exists g1 g2 g3 v g4 g5,
    generate_serial_number a b =
      lit "urn:uuid:" ++ g1 ++ "-"%char :: g2 ++ "-"%char :: ("4"%char :: g3) ++ "-"%char :: (v :: g4) ++ "-"%char :: g5 /\
    v ∈ lit "89ab" /\ length g1 = 8%nat /\ length g2 = 4%nat /\ length g3 = 3%nat /\ length g4 = 3%nat /\ length g5 = 12%nat /\
    Forall is_nibble (g1 ++ g2 ++ g3 ++ g4 ++ g5).
Proof.
  unfold generate_serial_number. set (a' := Z.lor _ 0x4000000000000000). set (b' := Z.lor _ 0x0000000000008000).
  destruct (append_two (Z.shiftr a' 48)) as [g3 E3]. destruct (append_two b') as [g4 E4].
  pose proof (append_bytes_length (Z.shiftr a' 48) 2) as L3. pose proof (append_bytes_length b' 2) as L4.
  pose proof (append_bytes_nibbles (Z.shiftr a' 48) 2) as N3. pose proof (append_bytes_nibbles b' 2) as N4.
  rewrite E3 in *. rewrite E4 in *. cbn [length] in L3, L4. apply Forall_cons in N3 as [_ N3], N4 as [_ N4].
  assert (Z.land (Z.shiftr (Z.shiftr a' 48) 12) 15 = 4%Z) as ->.
  { unfold a'. rewrite Z.shiftr_shiftr, Z.shiftr_lor, Z.shiftr_land by lia.
    change (Z.shiftr 0x0FFFFFFFFFFFFFFF (48 + 12)) with 0%Z. by rewrite Z.land_0_r. }
  assert (exists r, (0 <= r < 4)%Z /\ Z.land (Z.shiftr b' 12) 15 = (8 + r)%Z) as (r & Hr & ->).
  { exists (Z.land (Z.shiftr b 12) 3). split.
    - change 3%Z with (Z.ones 2). rewrite Z.land_ones by lia. apply Z.mod_pos_bound. lia.
    - unfold b'. rewrite Z.shiftr_lor, Z.shiftr_land, Z.land_lor_distr_l, <- Z.land_assoc.
      change (Z.land (Z.shiftr 0xFFFFFFFFFFFF3FFF 12) 15) with 3%Z. change (Z.land (Z.shiftr 0x8000 12) 15) with 8%Z.
      rewrite Z.add_comm. symmetry. rewrite <- Z.lxor_lor, Z.add_nocarry_lxor; try done.
      all: apply Z.bits_inj'; intros n Hn; rewrite !Z.land_spec, Z.bits_0.
      all: destruct (decide (n < 2)%Z) as [Hlt|Hge];
        [change 8%Z with (2 ^ 3)%Z; rewrite Z.pow2_bits_false by lia; apply andb_false_r
        |change 3%Z with (Z.ones 2); rewrite Z.ones_spec_high by lia; by rewrite andb_false_r]. }
  exists (append_bytes a' 4), (append_bytes (Z.shiftr a' 32) 2), g3, (nibble (8 + r)), g4, (append_bytes (Z.shiftr b' 16) 6).
  split; [done|]. split.
  { assert (r = 0 \/ r = 1 \/ r = 2 \/ r = 3)%Z as [-> | [-> | [-> | -> ]]] by lia; apply (bool_decide_unpack _); by vm_compute. }
  rewrite !append_bytes_length. repeat split; try lia.
  rewrite !Forall_app. auto using append_bytes_nibbles.
Qed.

(** ** Witness *)

Definition sample_component : Component :=
  mkComponent [] (lit "pkg:npm/left-pad@1.3.0") (lit "left-pad") (lit "1.3.0") CtLibrary [] [] [] [] [] [] []
    (list_to_map [(lit "a", lit "1"); (lit "b", lit "2")]).
Definition sample_document : SbomDocument :=
  mkSbom [] [] None [sample_component] [mkDependency (lit "pkg:npm/left-pad@1.3.0") []] [] 0 ∅.

Lemma cyclonedx_roundtrip_witness :
  @read_cyclonedx TreeJson.json (@to_cyclonedx_1_6 TreeJson.json map_to_list (lit "urn:uuid:0") sample_document) =
    Some (written <$> doc_components sample_document, doc_dependencies sample_document).
Proof. apply (@cyclonedx_roundtrip TreeJson.json TreeJson.tree_json_ok map_to_list (lit "urn:uuid:0")). intros m. reflexivity. Defined.
