(* ===== verification/VulnDb.v ===== *)
(** * Known vulnerabilities: [libs/vulndb/src/osv_client.cpp] and [enricher.cpp]

    The client asks the OSV database about a package and the enricher asks it
    about every component of a bill of materials.  The HTTP client is an
    argument that gives, for each attempt, an error text or a status and a
    body.  The outer [option] is an exception of the JSON library. *)

From Stdlib Require Import ZArith Ascii String Lia.
From stdpp Require Import base list gmap strings.
From S2P Require Import Prelude CxxString Doubles Json JsonObjects JsonText Sca SbomDocs.

Inductive ErrorKind : Type :=
| NetworkFailure | UpstreamStatus | InvalidResponse | InvalidPackage | OfflineDumpUnreadable | Timeout_.
#[export] Instance ErrorKind_eq_dec : EqDecision ErrorKind.
Proof. solve_decision. Defined.
Record Error : Type := mkError { e_kind : ErrorKind; e_message : str }.

Inductive Severity : Type := SevUnknown | SevLow | SevMedium | SevHigh | SevCritical.
#[export] Instance Severity_eq_dec : EqDecision Severity.
Proof. solve_decision. Defined.

Definition severity_from_cvss (score : double) : Severity :=
  if d_le score d_zero then SevUnknown
  else if d_lt score (d_of_Z 4) then SevLow
  else if d_lt score (d_of_Z 7) then SevMedium
  else if d_lt score (d_of_Z 9) then SevHigh
  else SevCritical.

Record OsvVuln (J : Type) : Type := mkVuln {
  v_id : str; v_aliases : list str; v_summary : str; v_details : str; v_fixed_in : str;
  v_range : str; v_severity : Severity; v_cvss : double; v_references : list str; v_raw : J;
}.
Arguments mkVuln {J}.
Arguments v_id {J}. Arguments v_aliases {J}. Arguments v_severity {J}. Arguments v_cvss {J}.
Arguments v_fixed_in {J}. Arguments v_range {J}.

Record VulnMatch (J : Type) : Type := mkMatch {
  vm_purl : str; vm_name : str; vm_version : str; vm_vulns : list (OsvVuln J);
}.
Arguments mkMatch {J}.
Arguments vm_purl {J}. Arguments vm_name {J}. Arguments vm_version {J}. Arguments vm_vulns {J}.

Record EnrichedReport (J : Type) : Type := mkReport { er_matches : list (VulnMatch J); er_vex : list VexStatement }.
Arguments mkReport {J}.
Arguments er_matches {J}. Arguments er_vex {J}.

Definition has_high_or_critical {J} (r : EnrichedReport J) : bool :=
  existsb (fun m => existsb (fun v => bool_decide (v_severity v = SevHigh) || bool_decide (v_severity v = SevCritical))
                      (vm_vulns m)) (er_matches r).

(** ** The answer of the database *)

Section osv.
Context `{JsonText}.

Definition array_at (j : jv) (k : string) : list jv :=
  match at_key j k with Some a => if is_array a then items a else [] | None => [] end.
Definition text_at (j : jv) (k : string) : option str := v ← at_key j k; get_string v.

(** One range: the bounds its events leave, and the fix they leave. *)
Record RangeState : Type := mkRange { r_lower : str; r_upper : str; r_fixed : str }.

Definition range_event (st : RangeState) (ev : jv) : RangeState :=
  let st := match text_at ev "introduced" with
            | Some s => mkRange s (r_upper st) (r_fixed st) | None => st end in
  match text_at ev "fixed" with Some s => mkRange (r_lower st) s s | None => st end.

Definition range_text (lower upper : str) : str :=
  let range := if bool_decide (lower = []) then [] else lit ">=" ++ lower in
  if bool_decide (upper = []) then range
  else (if bool_decide (range = []) then [] else range ++ lit ", ") ++ lit "<" ++ upper.

(** The fix and the range of a record after one more range *)
Definition add_range (acc : str * str) (r : jv) : str * str :=
  match at_key r "events" with
  | Some evs =>
      if is_array evs then
        let st := foldl range_event (mkRange [] [] acc.1) (items evs) in
        (r_fixed st,
         if negb (bool_decide (r_lower st = [])) || negb (bool_decide (r_upper st = []))
         then range_text (r_lower st) (r_upper st) else acc.2)
      else acc
  | None => acc
  end.

Definition affected_ranges (v : jv) : str * str :=
  foldl add_range ([], []) (flat_map (fun aff => array_at aff "ranges") (array_at v "affected")).

(** The score of the first entry of the third version; [None] is an exception. *)
Fixpoint cvss_score (sevs : list jv) : option double :=
  match sevs with
  | [] => Some d_zero
  | sev :: sevs =>
      sys ← value get_string sev "type" [];
      if bool_decide (sys = lit "CVSS_V3") then
        match at_key sev "score" with
        | Some s => if is_number s then get_double s else Some d_zero
        | None => Some d_zero
        end
      else cvss_score sevs
  end.

Definition parse_vuln (v : jv) : option (OsvVuln jv) :=
  id ← value get_string v "id" [];
  summary ← value get_string v "summary" [];
  details ← value get_string v "details" [];
  let '(fixed, range) := affected_ranges v in
  score ← cvss_score (array_at v "severity");
  Some (mkVuln id (omap get_string (array_at v "aliases")) summary details fixed range (severity_from_cvss score) score
          (omap (fun r => text_at r "url") (array_at v "references")) v).

Definition parse_response (body : str) : option (expected (list (OsvVuln jv)) Error) :=
  match json_parse body with
  | None => Some (Unexpected (mkError InvalidResponse (lit "OSV response was not valid JSON")))
  | Some j =>
      match members j with
      | None => Some (Unexpected (mkError InvalidResponse (lit "OSV response was not a JSON object")))
      | Some _ => vs ← mapM parse_vuln (array_at j "vulns"); Some (Ok vs)
      end
  end.

(** ** Requests *)

Inductive HttpResult : Type := HttpError (text : str) | HttpAnswer (status : Z) (body : str).

Definition http_status_text (status : Z) : str := lit "OSV.dev returned HTTP " ++ to_string_Z status.

(** [post_with_retry] from an attempt on: the result and the pauses before
    the later attempts, in milliseconds. *)
Fixpoint post_loop (tries : nat) (attempt max_retries backoff_ms : Z) (answer : Z -> HttpResult) :
    expected str Error * list Z :=
  match tries with
  | O => (Unexpected (mkError NetworkFailure (lit "exhausted retries")), [])
  | S tries =>
      let again :=
        let '(r, ms) := post_loop tries (attempt + 1) max_retries (Z.min (backoff_ms * 2) 4000) answer in
        (r, backoff_ms :: ms) in
      match answer attempt with
      | HttpError text =>
          if (attempt =? max_retries)%Z then (Unexpected (mkError NetworkFailure text), []) else again
      | HttpAnswer status body =>
          if (200 <=? status)%Z && (status <? 300)%Z then (Ok body, [])
          else if (500 <=? status)%Z || (status =? 429)%Z then
            if (attempt =? max_retries)%Z then (Unexpected (mkError UpstreamStatus (http_status_text status)), [])
            else again
          else (Unexpected (mkError UpstreamStatus (http_status_text status)), [])
      end
  end.

Definition post_with_retry (max_retries : Z) (answer : Z -> HttpResult) : expected str Error * list Z :=
  post_loop (Z.to_nat (max_retries + 1)) 0 max_retries 250 answer.

(** The transport: the answers to a request body, by attempt. *)
Abbreviation Transport := (str -> Z -> HttpResult).

Definition send_query (max_retries : Z) (http : Transport) (body : jv) : option (expected (list (OsvVuln jv)) Error) :=
  text ← json_dump body;
  match (post_with_retry max_retries (http text)).1 with
  | Unexpected e => Some (Unexpected e)
  | Ok resp => parse_response resp
  end.

Definition query_by_purl (max_retries : Z) (http : Transport) (purl : str) :
    option (expected (list (OsvVuln jv)) Error) :=
  if bool_decide (purl = []) then Some (Unexpected (mkError InvalidPackage (lit "empty purl")))
  else send_query max_retries http (object [(lit "package", object [(lit "purl", jstr purl)])]).

Definition query_by_package (max_retries : Z) (http : Transport) (ecosystem name version : str) :
    option (expected (list (OsvVuln jv)) Error) :=
  if bool_decide (name = []) || bool_decide (ecosystem = []) then
    Some (Unexpected (mkError InvalidPackage (lit "ecosystem and name are required")))
  else
    send_query max_retries http
      (object ((lit "package", object [(lit "name", jstr name); (lit "ecosystem", jstr ecosystem)])
                 :: when_text "version" version)).

(** ** The enricher *)

Record EnricherConfig : Type := mkEnricher { emit_not_affected : bool; max_components : nat }.

(** A statement is stamped when it is built. *)
Definition build_vex_statement (now : Z) (m : VulnMatch jv) (v : OsvVuln jv) : VexStatement :=
  mkVex (v_id v) [vm_purl m] Affected NoJustification [] [] now.
Definition build_not_affected (now : Z) (m : VulnMatch jv) : VexStatement :=
  mkVex (lit "no-known-vulnerabilities") [vm_purl m] NotAffected ComponentNotPresent [] [] now.

Definition statements_of (cfg : EnricherConfig) (now : Z) (m : VulnMatch jv) : list VexStatement :=
  match vm_vulns m with
  | [] => if emit_not_affected cfg && negb (bool_decide (vm_purl m = [])) then [build_not_affected now m] else []
  | vs => build_vex_statement now m <$> vs
  end.

(** [query] is the client: the answer it gives for a purl. *)
Fixpoint enrich_loop (cfg : EnricherConfig) (now : Z) (query : str -> option (expected (list (OsvVuln jv)) Error))
    (processed : nat) (comps : list Component) (out : EnrichedReport jv) :
    option (expected (EnrichedReport jv) Error) :=
  match comps with
  | [] => Some (Ok out)
  | comp :: comps =>
      if (0 <? max_components cfg)%nat && (max_components cfg <=? processed)%nat then Some (Ok out)
      else
        r ← (if bool_decide (c_purl comp = []) then Some (Ok []) else query (c_purl comp));
        match r with
        | Unexpected e => Some (Unexpected e)
        | Ok vulns =>
            let m := mkMatch (J:=jv) (c_purl comp) (c_name comp) (c_version comp) vulns in
            enrich_loop cfg now query (S processed) comps
              (mkReport (J:=jv) (er_matches out ++ [m]) (er_vex out ++ statements_of cfg now m))
        end
  end.

Definition enrich (cfg : EnricherConfig) (now : Z) (query : str -> option (expected (list (OsvVuln jv)) Error))
    (doc : SbomDocument) : option (expected (EnrichedReport jv) Error) :=
  enrich_loop cfg now query 0 (doc_components doc) (mkReport (J:=jv) [] []).
End osv.

(** ** Properties *)

(** *** Retries *)

Definition accepted (r : HttpResult) : bool :=
  match r with HttpAnswer status _ => (200 <=? status)%Z && (status <? 300)%Z | HttpError _ => false end.
Definition retriable (r : HttpResult) : bool :=
  match r with
  | HttpError _ => true
  | HttpAnswer status _ => (500 <=? status)%Z || (status =? 429)%Z
  end.

(** What an attempt that is the last one returns *)
Definition verdict (r : HttpResult) : expected str Error :=
  match r with
  | HttpError text => Unexpected (mkError NetworkFailure text)
  | HttpAnswer status body =>
      if accepted r then Ok body else Unexpected (mkError UpstreamStatus (http_status_text status))
  end.

(** The pauses: doubling from 250 ms, at most 4 s. *)
Definition pause (i : nat) : Z := Z.min (250 * 2 ^ Z.of_nat i) 4000.

Lemma accepted_not_retriable r : accepted r = true -> retriable r = false.
Proof. destruct r as [|s b]; cbn; [done|]. intros. bool_to_prop. lia. Qed.

Lemma post_loop_step tries k max backoff answer :
  post_loop (S tries) k max backoff answer =
  if retriable (answer k) && negb (k =? max)%Z
  then let '(r, ms) := post_loop tries (k + 1) max (Z.min (backoff * 2) 4000) answer in (r, backoff :: ms)
  else (verdict (answer k), []).
Proof.
  cbn [post_loop]. destruct (answer k) as [text|status body] eqn:E; cbn [retriable verdict accepted].
  - by destruct (k =? max)%Z.
  - destruct ((200 <=? status)%Z && (status <? 300)%Z) eqn:Ha.
    + assert (retriable (HttpAnswer status body) = false) as Hr by (by apply accepted_not_retriable). cbn in Hr. by rewrite Hr.
    + by destruct ((500 <=? status)%Z || (status =? 429)%Z), (k =? max)%Z.
Qed.

Lemma pause_next i : Z.min (pause i * 2) 4000 = pause (S i).
Proof. unfold pause. rewrite Nat2Z.inj_succ, Z.pow_succ_r by lia. lia. Qed.

Lemma post_loop_spec tries answer max : forall k i, (max - k = Z.of_nat tries - 1)%Z -> (0 < tries)%nat ->
  exists n, (n < tries)%nat /\
    (forall j, (j < n)%nat -> retriable (answer (k + Z.of_nat j)%Z) = true) /\
    (retriable (answer (k + Z.of_nat n)%Z) = false \/ n = (tries - 1)%nat) /\
    post_loop tries k max (pause i) answer = (verdict (answer (k + Z.of_nat n)%Z), pause <$> seq i n).
Proof.
  induction tries as [|tries IH]; intros k i Hk Ht; [lia|]. rewrite post_loop_step.
  destruct (retriable (answer k)) eqn:Hr; cbn [andb].
  - destruct (Z.eqb_spec k max) as [->|Hne]; cbn [negb].
    + exists 0%nat. rewrite Z.add_0_r. repeat split; try done; try lia; right; lia.
    + destruct (IH (k + 1)%Z (S i)) as (n & Hn & Hall & Hlast & Hp); [lia|lia|].
      rewrite pause_next, Hp. exists (S n). repeat split; [lia| | |].
      * intros [|j] Hj; [by rewrite Z.add_0_r|].
        replace (k + Z.of_nat (S j))%Z with (k + 1 + Z.of_nat j)%Z by lia. apply Hall. lia.
      * replace (k + Z.of_nat (S n))%Z with (k + 1 + Z.of_nat n)%Z by lia. destruct Hlast; [by left|right; lia].
      * by replace (k + Z.of_nat (S n))%Z with (k + 1 + Z.of_nat n)%Z by lia.
  - exists 0%nat. rewrite Z.add_0_r. repeat split; try done; try lia; by left.
Qed.

(** C24: a request ends: it is answered by the first attempt that is not to be
    repeated, or by the last one allowed, after the pauses of the attempts
    before; a failure carries that attempt's reason. *)
Theorem post_with_retry_spec max answer : (0 <= max)%Z ->
  exists n, (Z.of_nat n <= max)%Z /\
    (forall j, (j < n)%nat -> retriable (answer (Z.of_nat j)) = true) /\
    (retriable (answer (Z.of_nat n)) = false \/ Z.of_nat n = max) /\
    post_with_retry max answer = (verdict (answer (Z.of_nat n)), pause <$> seq 0 n).
Proof.
  intros Hm. destruct (post_loop_spec (Z.to_nat (max + 1)) answer max 0 0) as (n & Hn & Hall & Hlast & Hp); [lia..|].
  exists n. repeat split; [lia|exact Hall|destruct Hlast; [by left|right; lia]|exact Hp].
Qed.

(** *** Enrichment *)

Section enrichment.
Context `{JsonText}.
Variable cfg : EnricherConfig.
Variable now : Z.
Variable query : str -> option (expected (list (OsvVuln jv)) Error).

Definition ask_about (c : Component) : option (expected (list (OsvVuln jv)) Error) :=
  if bool_decide (c_purl c = []) then Some (Ok []) else query (c_purl c).

(** The components that are asked about *)
Definition considered (cs : list Component) : list Component :=
  if (0 <? max_components cfg)%nat then take (max_components cfg) cs else cs.

(** All answers, or the first one that is not an answer *)
Fixpoint first_failure {A E} (rs : list (option (expected A E))) : option (expected (list A) E) :=
  match rs with
  | [] => Some (Ok [])
  | r :: rs =>
      r ← r;
      match r with
      | Unexpected e => Some (Unexpected e)
      | Ok a => r ← first_failure rs; match r with Ok l => Some (Ok (a :: l)) | Unexpected e => Some (Unexpected e) end
      end
  end.

Definition report_of (cs : list Component) (vss : list (list (OsvVuln jv))) : EnrichedReport jv :=
  let ms := zip_with (fun c vs => mkMatch (c_purl c) (c_name c) (c_version c) vs) cs vss in
  mkReport ms (flat_map (statements_of cfg now) ms).

Lemma enrich_loop_spec cs : forall n out,
  enrich_loop cfg now query n cs out =
  (r ← first_failure (ask_about <$> (if (0 <? max_components cfg)%nat then take (max_components cfg - n) cs else cs));
   match r with
   | Ok vss => Some (Ok (mkReport (er_matches out ++ er_matches (report_of cs vss)) (er_vex out ++ er_vex (report_of cs vss))))
   | Unexpected e => Some (Unexpected e)
   end).
Proof.
  assert (forall out, Some (Ok (mkReport (er_matches out ++ []) (er_vex out ++ []))) = Some (Ok (E:=Error) out) :> option (expected (EnrichedReport jv) Error)) as Hnil.
  { intros [ms vex]. by rewrite !app_nil_r. }
  induction cs as [|c cs IH]; intros n out.
  - rewrite take_nil. destruct (0 <? max_components cfg)%nat; cbn; by rewrite Hnil.
  - cbn [enrich_loop]. destruct (0 <? max_components cfg)%nat eqn:Hmax; cbn [andb].
    + destruct (Nat.leb_spec (max_components cfg) n) as [Hle|Hlt].
      * replace (max_components cfg - n)%nat with 0%nat by lia. cbn. by rewrite Hnil.
      * destruct (max_components cfg - n)%nat as [|k] eqn:Hk; [lia|]. cbn [take fmap list_fmap first_failure].
        fold (ask_about c). destruct (ask_about c) as [[vs|e]|]; [|done..]. cbn [mbind option_bind]. rewrite IH.
        replace (max_components cfg - S n)%nat with k by lia.
        change (list_fmap _ _ ask_about (take k cs)) with (ask_about <$> take k cs).
        destruct (first_failure (ask_about <$> take k cs)) as [[vss|e]|]; [|done..]. cbn. by rewrite <- !app_assoc.
    + cbn [fmap list_fmap first_failure]. fold (ask_about c). destruct (ask_about c) as [[vs|e]|]; [|done..].
      cbn [mbind option_bind]. rewrite IH. change (list_fmap _ _ ask_about cs) with (ask_about <$> cs).
      destruct (first_failure (ask_about <$> cs)) as [[vss|e]|]; [|done..]. cbn. by rewrite <- !app_assoc.
Qed.

(** The enricher asks about the components in order, up to its limit; the first
    failure ends it with that error, else the report has one row for each
    component asked about and the statements of its vulnerabilities. *)
Lemma enrich_exact doc :
  enrich cfg now query doc =
  (r ← first_failure (ask_about <$> considered (doc_components doc));
   match r with
   | Ok vss => Some (Ok (report_of (considered (doc_components doc)) vss))
   | Unexpected e => Some (Unexpected e)
   end).
Proof.
  unfold enrich. rewrite enrich_loop_spec, Nat.sub_0_r. unfold considered.
  destruct (0 <? max_components cfg)%nat; [|by destruct (first_failure _) as [[vss|e]|]].
  destruct (first_failure _) as [[vss|e]|] eqn:E; [|done..]. cbn [mbind option_bind er_matches er_vex app]. do 2 f_equal.
  assert (length vss <= max_components cfg)%nat as Hlen.
  { assert (forall (l : list (option (expected (list (OsvVuln jv)) Error))) vss, first_failure l = Some (Ok vss) -> length vss = length l) as Hl.
    { clear. induction l as [|r l IH]; intros vss; cbn; [by intros [= <-]|].
      destruct r as [[vs|e]|]; cbn; try done. destruct (first_failure l) as [[l'|e]|] eqn:E; cbn; try done.
      intros [= <-]. cbn. by rewrite (IH l' eq_refl). }
    apply Hl in E. rewrite E, length_fmap, length_take. lia. }
  unfold report_of. cbn [er_matches er_vex].
  assert (forall {A B C} (f : A -> B -> C) l k n, (length k <= n)%nat -> zip_with f l k = zip_with f (take n l) k) as Hz.
  { clear. intros A B C f l. induction l as [|a l IH]; intros k [|n] Hn; destruct k as [|b k]; try done; cbn in *; try lia.
    f_equal. apply IH. lia. }
  by rewrite (Hz _ _ _ _ (doc_components doc) vss (max_components cfg) Hlen).
Qed.

(** A component with a purl and no vulnerability is said not to be affected
    only on request; every other statement names a vulnerability that was
    found for the product it is about. *)
Lemma statement_origin m s : s ∈ statements_of cfg now m ->
  product_purls s = [vm_purl m] /\
  (vex_status s = Affected /\ (exists v, v ∈ vm_vulns m /\ vulnerability_name s = v_id v) \/
   vex_status s = NotAffected /\ vm_vulns m = [] /\ emit_not_affected cfg = true /\ vm_purl m <> []).
Proof.
  unfold statements_of. destruct (vm_vulns m) as [|v vs] eqn:E.
  - destruct (emit_not_affected cfg && negb (bool_decide (vm_purl m = []))) eqn:Hc; [|by intros ?%elem_of_nil].
    intros ->%list_elem_of_singleton. split; [done|]. right. bool_to_prop. naive_solver.
  - intros (w & -> & Hw)%list_elem_of_fmap. split; [done|]. left. split; [done|]. by exists w.
Qed.
End enrichment.

(** Of several fixes in one range the last is kept, and the one of a later
    range replaces it. *)
Lemma last_fix_wins `{JsonOk} a b :
  let event s := object [(lit "fixed", jstr s)] in
  (add_range ([], []) (object [(lit "events", jarr [event a; event b])])).1 = b.
Proof.
  cbn zeta. unfold add_range. rewrite at_object, lookup_assoc. cbn [assoc key_eqb fst snd lit list_ascii_of_string Ascii.eqb Bool.eqb andb].
  rewrite array_arr, items_arr. cbn [foldl fst snd r_fixed]. unfold range_event, text_at. read_fields. done.
Qed.

Lemma severity_thresholds :
  (severity_from_cvss <$> [d_zero; d_lit 39 10; d_of_Z 4; d_lit 69 10; d_of_Z 7; d_lit 89 10; d_of_Z 9; d_of_Z 10])
  = [SevUnknown; SevLow; SevMedium; SevMedium; SevHigh; SevHigh; SevCritical; SevCritical].
Proof. by vm_compute. Qed.

Lemma post_with_retry_spec_witness :
  exists n, (Z.of_nat n <= 3)%Z /\
    (forall j, (j < n)%nat -> retriable (if (Z.of_nat j <? 2)%Z then HttpAnswer 503 [] else HttpAnswer 200 (lit "{}")) = true) /\
    (retriable (if (Z.of_nat n <? 2)%Z then HttpAnswer 503 [] else HttpAnswer 200 (lit "{}")) = false \/ Z.of_nat n = 3%Z) /\
    post_with_retry 3 (fun i => if (i <? 2)%Z then HttpAnswer 503 [] else HttpAnswer 200 (lit "{}"))
    = (verdict (if (Z.of_nat n <? 2)%Z then HttpAnswer 503 [] else HttpAnswer 200 (lit "{}")), pause <$> seq 0 n).
Proof. exact (post_with_retry_spec 3 (fun i => if (i <? 2)%Z then HttpAnswer 503 [] else HttpAnswer 200 (lit "{}")) ltac:(lia)). Defined.
