(* ===== verification/Identity.v ===== *)
(** * Agent identities: [libs/identity]

    Decentralised identifiers and their documents, verifiable credentials,
    attestations, agent cards and the registry.  libsodium is outside the
    sources: the MAC ([Hmac]), hexadecimal ([Bin2Hex], [Hex2Bin]), base64 and
    the hash that shortens a key.  Clock readings are seconds and random bytes
    are arguments. *)

From Stdlib Require Import ZArith Ascii String Lia.
From stdpp Require Import base list gmap strings sorting.
From S2P Require Import Prelude CxxString Clock Doubles Json JsonText AuditLog CapToken A2aTask.

(** [sodium_hex2bin] inverts [sodium_bin2hex]. *)
Class Hex2Bin `{Bin2Hex} : Type := {
  hex2bin : str -> option str;
  hex2bin_bin2hex b : hex2bin (bin2hex b) = Some b;
}.

(** The five groups of 16 random bytes, as [snprintf] writes them. *)
Definition random_id (buf : str) : str :=
  hex_encode (substr buf 0 4) ++ "-"%char :: hex_encode (substr buf 4 2) ++ "-"%char :: hex_encode (substr buf 6 2)
    ++ "-"%char :: hex_encode (substr buf 8 2) ++ "-"%char :: hex_encode (substr buf 10 6).

(** ** Identifiers and documents *)

Record ServiceEndpoint : Type := mkService { svc_id : str; svc_type : str; svc_endpoint : str }.
Record VerificationMethod : Type := mkVm {
  vm_id : str; vm_type : str; vm_controller : str; vm_public_key : str;
}.
Record DIDDocument : Type := mkDid {
  did_id : str; did_context : str; did_methods : list VerificationMethod; did_authentication : list str;
  did_services : list ServiceEndpoint; did_created : str; did_updated : str;
}.

Definition create_did (agent_id : str) : str := lit "did:euxis:" ++ agent_id.
Definition key_fragment (did : str) : str := did ++ lit "#keys-1".

(** [bin2base64] is libsodium's URL-safe encoding. *)
Definition encode_multibase (bin2base64 : str -> str) (data : str) : str := "z"%char :: bin2base64 data.

Definition create_did_document (bin2base64 : str -> str) (now : Z) (agent_id public_key : str)
    (services : list ServiceEndpoint) : DIDDocument :=
  let did := create_did agent_id in
  mkDid did (lit "https://www.w3.org/ns/did/v1")
    [mkVm (key_fragment did) (lit "Ed25519VerificationKey2020") did (encode_multibase bin2base64 public_key)]
    [key_fragment did] services (iso8601 now) (iso8601 now).

Definition resolve_did (did : str) : expected (str * str) str :=
  if negb (starts_with (lit "did:") did) then
    Unexpected (lit "Invalid DID format: must start with 'did:': " ++ did)
  else
    let without_prefix := drop 4 did in
    match find_char ":" without_prefix with
    | None => Unexpected (lit "Invalid DID format: missing method-specific id: " ++ did)
    | Some colon_pos =>
        let method := take colon_pos without_prefix in
        let id := drop (S colon_pos) without_prefix in
        if bool_decide (method = []) then Unexpected (lit "Invalid DID format: empty method: " ++ did)
        else if bool_decide (id = []) then Unexpected (lit "Invalid DID format: empty id: " ++ did)
        else Ok (method, id)
    end.

Definition service_to_json `{Json} (s : ServiceEndpoint) : jv :=
  object [(lit "id", jstr (svc_id s)); (lit "type", jstr (svc_type s)); (lit "serviceEndpoint", jstr (svc_endpoint s))].
Definition method_to_json `{Json} (vm : VerificationMethod) : jv :=
  object [(lit "id", jstr (vm_id vm)); (lit "type", jstr (vm_type vm)); (lit "controller", jstr (vm_controller vm));
          (lit "publicKeyMultibase", jstr (vm_public_key vm))].

Definition did_to_json `{Json} (d : DIDDocument) : jv :=
  object [(lit "@context", jstr (did_context d)); (lit "id", jstr (did_id d)); (lit "created", jstr (did_created d));
          (lit "updated", jstr (did_updated d)); (lit "verificationMethod", jarr (method_to_json <$> did_methods d));
          (lit "authentication", jstrs (did_authentication d)); (lit "service", jarr (service_to_json <$> did_services d))].

(** ** Credentials *)

Record Claim : Type := mkClaim { cl_type : str; cl_value : str; cl_scope : str }.
Record Proof_ : Type := mkProof { pr_type : str; pr_created : str; pr_method : str; pr_value : str }.
Record VerifiableCredential : Type := mkCredential {
  vc_id : str; vc_issuer : str; vc_subject : str; vc_claims : list Claim; vc_proof : Proof_;
  vc_issued_at : str; vc_expires_at : str;
}.

Definition claim_to_json `{Json} (c : Claim) : jv :=
  object [(lit "type", jstr (cl_type c)); (lit "value", jstr (cl_value c)); (lit "scope", jstr (cl_scope c))].

Definition canonical_json `{Json} (issuer subject : str) (claims : list Claim) (issued_at expires_at : str) : jv :=
  object [(lit "issuer", jstr issuer); (lit "subject", jstr subject); (lit "issued_at", jstr issued_at);
          (lit "expires_at", jstr expires_at); (lit "claims", jarr (claim_to_json <$> claims))].

Section credential.
Context `{JsonText} `{Hex2Bin} `{!Hmac str} (generichash : str -> str).

Definition claims_to_canonical_json (issuer subject : str) (claims : list Claim) (issued_at expires_at : str) :
    option str :=
  json_dump (canonical_json issuer subject claims issued_at expires_at).

(** A key that does not have 32 bytes is hashed. *)
Definition key_bytes (key : str) : str := if (length key =? 32)%nat then key else generichash key.
Definition hmac_sha256_raw (key data : str) : str := hmac (key_bytes key) data.
Definition hmac_sha256_hex (key data : str) : str := bin2hex (hmac_sha256_raw key data).

Definition issue_credential (now : Z) (buf issuer key subject : str) (claims : list Claim) (ttl : Z) :
    option VerifiableCredential :=
  let issued_at := iso8601 now in
  let expires_at := iso8601 (now + ttl) in
  canonical ← claims_to_canonical_json issuer subject claims issued_at expires_at;
  Some (mkCredential (random_id buf) issuer subject claims
          (mkProof (lit "HmacSha256Signature2026") issued_at (key_fragment issuer) (hmac_sha256_hex key canonical))
          issued_at expires_at).

Definition verify_credential (c : VerifiableCredential) (key : str) : option bool :=
  canonical ← claims_to_canonical_json (vc_issuer c) (vc_subject c) (vc_claims c) (vc_issued_at c) (vc_expires_at c);
  let expected_mac := hmac_sha256_raw key canonical in
  let hex_proof := pr_value (vc_proof c) in
  if negb (length hex_proof =? 64)%nat then Some false
  else
    match hex2bin hex_proof with
    | None => Some false
    | Some actual_mac => Some (bool_decide (expected_mac = actual_mac))
    end.

Definition credential_to_json (c : VerifiableCredential) : jv :=
  object [(lit "id", jstr (vc_id c)); (lit "issuer", jstr (vc_issuer c)); (lit "subject", jstr (vc_subject c));
          (lit "claims", jarr (claim_to_json <$> vc_claims c));
          (lit "proof", object [(lit "type", jstr (pr_type (vc_proof c))); (lit "created", jstr (pr_created (vc_proof c)));
                                (lit "verificationMethod", jstr (pr_method (vc_proof c)));
                                (lit "proofValue", jstr (pr_value (vc_proof c)))]);
          (lit "issuedAt", jstr (vc_issued_at c)); (lit "expiresAt", jstr (vc_expires_at c))].
End credential.

(** ** Attestations and agent cards *)

Record Attestation : Type := mkAttestation {
  at_id : str; at_attester : str; at_subject : str; at_type : str; at_confidence : double;
  at_created : str; at_evidence : str;
}.

(** [None] is the exception for a confidence out of range. *)
Definition create_attestation (now : Z) (buf attester subject type : str) (confidence : double) (evidence : str) :
    option Attestation :=
  if d_lt confidence d_zero || d_lt (d_of_Z 1) confidence then None
  else Some (mkAttestation (random_id buf) attester subject type confidence (iso8601 now) evidence).

Definition attestation_to_json `{Json} (a : Attestation) : jv :=
  object [(lit "id", jstr (at_id a)); (lit "attester", jstr (at_attester a)); (lit "subject", jstr (at_subject a));
          (lit "type", jstr (at_type a)); (lit "confidence", jdouble (at_confidence a));
          (lit "createdAt", jstr (at_created a)); (lit "evidence", jstr (at_evidence a))].

Record ERC8004AgentCard (J : Type) : Type := mkAgentCard {
  ac_agent_id : str; ac_did : str; ac_name : str; ac_description : str; ac_capabilities : list str;
  ac_version : str; ac_metadata : J;
}.
Arguments mkAgentCard {J}.

Definition generate_agent_card `{Json} (agent_id name description : str) (capabilities : list str) (version : str) :
    ERC8004AgentCard jv :=
  mkAgentCard agent_id (create_did agent_id) name description capabilities version (jobj ∅).

Definition agent_card_to_json `{Json} (c : ERC8004AgentCard jv) : jv :=
  object [(lit "agentId", jstr (ac_agent_id _ c)); (lit "did", jstr (ac_did _ c)); (lit "name", jstr (ac_name _ c));
          (lit "description", jstr (ac_description _ c)); (lit "capabilities", jstrs (ac_capabilities _ c));
          (lit "version", jstr (ac_version _ c)); (lit "metadata", ac_metadata _ c)].

(** ** The registry *)

Record AgentIdentity (J : Type) : Type := mkIdentity {
  ai_did : str; ai_name : str; ai_role : str; ai_public_key : str; ai_credentials : list VerifiableCredential;
  ai_attestations : list Attestation; ai_created : str; ai_metadata : J;
}.
Arguments mkIdentity {J}.
Arguments ai_did {J}.

Section registry.
Context {J : Type}.
Abbreviation Agents := (gmap str (AgentIdentity J)).

Definition register_agent (agents : Agents) (identity : AgentIdentity J) : bool * Agents :=
  match agents !! ai_did identity with
  | Some _ => (false, agents)
  | None => (true, <[ai_did identity := identity]> agents)
  end.
Definition resolve (agents : Agents) (did : str) : option (AgentIdentity J) := agents !! did.
Definition revoke (agents : Agents) (did : str) : bool * Agents :=
  match agents !! did with Some _ => (true, delete did agents) | None => (false, agents) end.

(** In the order of the map's keys. *)
Definition list_agents (agents : Agents) : list (AgentIdentity J) := snd <$> sorted_items agents.
End registry.

(** ** Properties *)

(** *** Identifiers *)

(** An identifier resolves exactly when it is [did:], a method without a colon
    and an identifier, neither of them empty; the parts are what it was made
    from, so every agent with a name is found again under its own. *)
Lemma resolve_did_exact did method id :
  (resolve_did did = Ok (method, id) <->
     did = lit "did:" ++ method ++ ":"%char :: id /\ free_of ":" method /\ method <> [] /\ id <> []) /\
  (id <> [] -> resolve_did (create_did id) = Ok (lit "euxis", id)).
Proof.
  assert (forall did method id, resolve_did did = Ok (method, id) <->
     did = lit "did:" ++ method ++ ":"%char :: id /\ free_of ":" method /\ method <> [] /\ id <> []) as Hspec.
  { clear. intros did method id. unfold resolve_did. split.
    - destruct (starts_with (lit "did:") did) eqn:Hs; [|done]. cbn [negb].
      apply starts_with_spec in Hs as [t ->]. change (drop 4 (lit "did:" ++ t)) with t.
      destruct (find_char ":" t) as [i|] eqn:Hc; [|done]. apply find_char_Some in Hc as (a & b & -> & Hl & Hf).
      rewrite <- Hl, take_app_length, drop_S_length_app.
      case_bool_decide; [done|]. case_bool_decide; [done|]. by intros [= <- <-].
    - intros (-> & Hf & Hm & Hi). rewrite starts_with_app. cbn [negb].
      change (drop 4 (lit "did:" ++ ?t)) with t.
      change (drop 4 (lit "did:" ++ method ++ ":"%char :: id)) with (method ++ ":"%char :: id).
      rewrite find_char_hit by done. rewrite take_app_length, drop_S_length_app.
      by rewrite !bool_decide_false by done. }
  split; [apply Hspec|]. intros Hid. apply Hspec. unfold create_did. split; [done|].
  split; [apply (bool_decide_unpack _); by vm_compute|done].
Qed.

(** *** Credentials *)

Section credentials.
Context `{JsonTextOk} `{!JsonOk} `{Hex2Bin} `{!Hmac str} (generichash : str -> str).

Definition read_claim (j : jv) : option Claim :=
  t ← at_get get_string j "type"; v ← at_get get_string j "value"; s ← at_get get_string j "scope";
  Some (mkClaim t v s).

Lemma read_claim_json c : read_claim (claim_to_json c) = Some c.
Proof. unfold read_claim, claim_to_json. read_object. by destruct c. Qed.

Lemma canonical_exact i s cs a e : json_exact (canonical_json i s cs a e).
Proof. unfold canonical_json. exact_json. apply exact_list. intros c _. unfold claim_to_json. exact_json. Qed.

(** Everything that is signed can be read from the canonical text. *)
Lemma canonical_inj i s cs a e i' s' cs' a' e' text :
  claims_to_canonical_json i s cs a e = Some text -> claims_to_canonical_json i' s' cs' a' e' = Some text ->
  i = i' /\ s = s' /\ cs = cs' /\ a = a' /\ e = e'.
Proof.
  unfold claims_to_canonical_json. intros Hd%parse_dump Hd'%parse_dump; [|apply canonical_exact..]. rewrite Hd in Hd'. injection Hd' as E.
  assert (forall k, at_get get_string (canonical_json i s cs a e) k = at_get get_string (canonical_json i' s' cs' a' e') k) as Hk
    by (intros; by rewrite E).
  assert (mapM read_claim (claim_to_json <$> cs) = mapM read_claim (claim_to_json <$> cs')) as Hc.
  { assert ((v ← at_key (canonical_json i s cs a e) "claims"; mapM read_claim (items v)) =
            (v ← at_key (canonical_json i' s' cs' a' e') "claims"; mapM read_claim (items v))) as Hc by (by rewrite E).
    unfold canonical_json in Hc. rewrite !at_object, !lookup_assoc in Hc.
    cbn [assoc key_eqb fst snd lit list_ascii_of_string Ascii.eqb Bool.eqb andb mbind option_bind] in Hc.
    by rewrite !items_arr in Hc. }
  rewrite !mapM_roundtrip in Hc by auto using read_claim_json. injection Hc as ->.
  pose proof (Hk "issuer") as E1. pose proof (Hk "subject") as E2. pose proof (Hk "issued_at") as E3. pose proof (Hk "expires_at") as E4.
  clear Hk E. unfold canonical_json in *. revert E1 E2 E3 E4. read_fields. intros. by simplify_eq.
Qed.

(** A credential that was issued verifies under the key that signed it. *)
Lemma issued_credential_verifies now buf issuer key subject claims ttl c :
  issue_credential generichash now buf issuer key subject claims ttl = Some c ->
  verify_credential generichash c key = Some true.
Proof.
  unfold issue_credential, verify_credential. destruct (claims_to_canonical_json _ _ _ _ _) as [text|] eqn:E; [|done].
  intros [= <-]. cbn [vc_issuer vc_subject vc_claims vc_issued_at vc_expires_at vc_proof pr_value]. rewrite E.
  cbn [mbind option_bind]. unfold hmac_sha256_hex, hmac_sha256_raw. rewrite bin2hex_length, hmac_length. cbn [Nat.eqb negb].
  rewrite hex2bin_bin2hex. by rewrite bool_decide_true.
Qed.

(** C25: the proof binds what it signs: two credentials that verify with one proof
    under one key have the same issuer, subject, claims and dates, unless two
    different texts have the same MAC. *)
Theorem credential_binding c c' key :
  verify_credential generichash c key = Some true -> verify_credential generichash c' key = Some true ->
  pr_value (vc_proof c) = pr_value (vc_proof c') ->
  (vc_issuer c = vc_issuer c' /\ vc_subject c = vc_subject c' /\ vc_claims c = vc_claims c' /\
   vc_issued_at c = vc_issued_at c' /\ vc_expires_at c = vc_expires_at c') \/
  exists t t', t <> t' /\ hmac (key_bytes generichash key) t = hmac (key_bytes generichash key) t'.
Proof.
  unfold verify_credential. intros Hc Hc' Hp.
  destruct (claims_to_canonical_json (vc_issuer c) _ _ _ _) as [t|] eqn:E; [|done].
  destruct (claims_to_canonical_json (vc_issuer c') _ _ _ _) as [t'|] eqn:E'; [|done]. cbn [mbind option_bind] in *.
  rewrite <- Hp in Hc'. destruct (negb _); [done|]. destruct (hex2bin _) as [mac|]; [|done].
  injection Hc as Hc%bool_decide_eq_true. injection Hc' as Hc'%bool_decide_eq_true.
  destruct (decide (t = t')) as [->|Hne].
  - left. by apply (canonical_inj _ _ _ _ _ _ _ _ _ _ t').
  - right. exists t, t'. split; [done|]. unfold hmac_sha256_raw in *. by rewrite Hc, Hc'.
Qed.

(** The date of expiry is signed and never compared with the clock: a
    credential issued for a past second verifies. *)
Lemma expired_credential_verifies now buf issuer key subject claims c :
  issue_credential generichash now buf issuer key subject claims (-1) = Some c ->
  vc_expires_at c = iso8601 (now - 1) /\ verify_credential generichash c key = Some true.
Proof.
  intros Hi. split; [|by eapply issued_credential_verifies].
  unfold issue_credential in Hi. destruct (claims_to_canonical_json _ _ _ _ _); [|done]. by injection Hi as <-.
Qed.
End credentials.

(** A confidence that is not a number is accepted. *)
Lemma nan_confidence now buf attester subject type evidence :
  is_Some (create_attestation now buf attester subject type SpecFloat.S754_nan evidence).
Proof. by eexists. Qed.

(** *** The registry *)

Section registrations.
Context {J : Type}.

Inductive RegistryOp : Type := Register (identity : AgentIdentity J) | Revoke (did : str).

Definition run_op (agents : gmap str (AgentIdentity J)) (op : RegistryOp) : gmap str (AgentIdentity J) :=
  match op with Register i => (register_agent agents i).2 | Revoke did => (revoke agents did).2 end.

Definition concerns (did : str) (op : RegistryOp) : bool :=
  match op with Register i => bool_decide (ai_did i = did) | Revoke d => bool_decide (d = did) end.

(** Who is registered after a history: the first registration since the last
    revocation, whatever happened to other agents. *)
Fixpoint holder (did : str) (ops : list RegistryOp) : option (AgentIdentity J) :=
  match ops with
  | [] => None
  | op :: ops =>
      match holder did ops, op with
      | Some i, Register _ => Some i
      | None, Register i => if bool_decide (ai_did i = did) then Some i else None
      | held, Revoke d => if bool_decide (d = did) then None else held
      end
  end.

Lemma registry_history did ops : resolve (foldl run_op ∅ ops) did = holder did (rev ops).
Proof.
  induction ops as [|op ops IH] using rev_ind; [apply lookup_empty|].
  rewrite foldl_app, rev_app_distr. cbn [foldl rev app holder]. rewrite <- IH. unfold resolve.
  generalize (foldl run_op ∅ ops). intros m. unfold run_op. destruct op as [i|d].
  - unfold register_agent. destruct (m !! ai_did i) as [j|] eqn:E; cbn [snd].
    + destruct (m !! did) as [k|] eqn:Ed; [done|]. case_bool_decide as Hd; [|done]. by subst; simplify_eq.
    + destruct (decide (ai_did i = did)) as [<-|Hne].
      * by rewrite lookup_insert_eq, E, bool_decide_true.
      * rewrite lookup_insert_ne by done. destruct (m !! did); [done|]. by rewrite bool_decide_false.
  - unfold revoke. destruct (m !! d) as [j|] eqn:E; cbn [snd].
    + destruct (decide (d = did)) as [->|Hne].
      * rewrite lookup_delete_eq, bool_decide_true by done. by destruct (m !! did).
      * rewrite lookup_delete_ne, bool_decide_false by done. by destruct (m !! did).
    + case_bool_decide as Hd; [subst; by rewrite E|]. by destruct (m !! did).
Qed.
End registrations.

(** ** Witness *)

Definition from_hex (s : str) : option str := hex_decode_pairs s.
#[local] Instance plain_bin2hex : Bin2Hex :=
  {| bin2hex := hex_encode; bin2hex_length := hex_encode_length; bin2hex_inj := hex_encode_inj |}.
#[local] Instance plain_hex2bin : Hex2Bin := {| hex2bin := from_hex; hex2bin_bin2hex := hex_decode_encode |}.
#[local] Instance padded_hmac : Hmac str := {| hmac := toy_mac; hmac_length := toy_mac_length |}.

Definition sample_credential : option VerifiableCredential :=
  @issue_credential TreeJson.json TreeJson.text plain_bin2hex padded_hmac (fun k => k) 0 [] (lit "issuer")
    (lit "key") (lit "subject") [] 60.

Lemma credential_binding_witness :
  exists c, sample_credential = Some c /\
  ((vc_issuer c = vc_issuer c /\ vc_subject c = vc_subject c /\ vc_claims c = vc_claims c /\
    vc_issued_at c = vc_issued_at c /\ vc_expires_at c = vc_expires_at c) \/
   exists t t' : str, t <> t' /\ toy_mac (lit "key") t = toy_mac (lit "key") t').
Proof.
  assert (is_Some sample_credential) as [c Hc] by (by eexists).
  exists c. split; [exact Hc|].
  assert (@verify_credential TreeJson.json TreeJson.text _ plain_hex2bin padded_hmac (fun k => k) c (lit "key") = Some true) as Hv.
  { eapply (@issued_credential_verifies TreeJson.json TreeJson.text _ plain_hex2bin padded_hmac (fun k => k)).
    exact Hc. }
  exact (@credential_binding TreeJson.json TreeJson.text TreeJson.text_ok TreeJson.tree_json_ok _ plain_hex2bin padded_hmac
           (fun k => k) c c (lit "key") Hv Hv eq_refl).
Defined.
