(* ===== verification/AttestDocs.v ===== *)
(** * Attestation documents: [libs/attest/src/dsse.cpp], [bundle.cpp]
      and [slsa.cpp]

    The JSON forms of envelopes, Sigstore bundles and SLSA provenance.  The maps of digests and versions are the lists of [Attest],
    in the order of their iterator. *)

From Stdlib Require Import ZArith Ascii String Lia.
From stdpp Require Import base list gmap strings.
From S2P Require Import Prelude CxxString Clock Json JsonObjects JsonText SbomDocs Attest.

Record BundleError : Type := mkBundleError { be_message : str }.
Record PublicKeyMaterial : Type := mkKeyMaterial { pk_hint : str; pk_raw_b64 : str }.
Record TlogEntry (J : Type) : Type := mkTlog {
  tl_log_index : Z; tl_integrated_time : Z; tl_log_id : str; tl_kind : str; tl_version : str;
  tl_inclusion_proof : J;
}.
Arguments mkTlog {J}. Arguments tl_log_index {J}. Arguments tl_integrated_time {J}. Arguments tl_log_id {J}.
Arguments tl_kind {J}. Arguments tl_version {J}. Arguments tl_inclusion_proof {J}.
Record Bundle (J : Type) : Type := mkBundle {
  b_media_type : str; b_public_key : PublicKeyMaterial; b_dsse_envelope : Envelope; b_tlog_entries : list (TlogEntry J);
}.
Arguments mkBundle {J}. Arguments b_media_type {J}. Arguments b_public_key {J}. Arguments b_dsse_envelope {J}.
Arguments b_tlog_entries {J}.

Definition kSigstoreBundleMediaType : str := lit "application/vnd.dev.sigstore.bundle.v0.3+json".
Definition kSlsaProvenanceV12PredicateType : str := lit "https://slsa.dev/provenance/v1.2".

Section documents.
Context `{Json}.

(** ** Envelopes *)

Definition signature_to_json (s : Signature) : jv :=
  object [(lit "keyid", jstr (s_keyid s)); (lit "sig", jstr (s_sig s))].
Definition envelope_to_json (e : Envelope) : jv :=
  object [(lit "payloadType", jstr (env_payload_type e)); (lit "payload", jstr (env_payload e));
          (lit "signatures", jarr (signature_to_json <$> env_signatures e))].

(** A string member, if there is one *)
Definition string_member (j : jv) (k : string) : option str := v ← at_key j k; get_string v.

Definition signature_from_json (s : jv) : option Signature :=
  match members s with
  | None => None
  | Some _ => Some (mkSignature (default [] (string_member s "keyid")) (default [] (string_member s "sig")))
  end.

Definition envelope_from_json (j : jv) : expected Envelope DsseError :=
  match members j with
  | None => Unexpected (mkDsseError (lit "DSSE: not an object"))
  | Some _ =>
      match string_member j "payloadType" with
      | None => Unexpected (mkDsseError (lit "DSSE: payloadType missing or not a string"))
      | Some payload_type =>
          match string_member j "payload" with
          | None => Unexpected (mkDsseError (lit "DSSE: payload missing or not a string"))
          | Some payload =>
              let sigs := match at_key j "signatures" with
                          | Some a => if is_array a then omap signature_from_json (items a) else []
                          | None => [] end in
              Ok (mkEnvelope payload_type payload sigs)
          end
      end
  end.

(** ** Bundles *)

(** [empty()] of a value *)
Definition json_empty (j : jv) : bool :=
  is_null j ||
  match members j with
  | Some m => bool_decide (m = ∅)
  | None => is_array j && match items j with [] => true | _ => false end
  end.

Definition tlog_to_json (t : TlogEntry jv) : jv :=
  object (always "logIndex" (jint (tl_log_index t))
    ++ always "integratedTime" (jint (tl_integrated_time t))
    ++ when_text "logID" (tl_log_id t)
    ++ when (negb (bool_decide (tl_kind t = []))) "kindVersion"
         (object [(lit "kind", jstr (tl_kind t)); (lit "version", jstr (tl_version t))])
    ++ when (negb (is_null (tl_inclusion_proof t)) && negb (json_empty (tl_inclusion_proof t))) "inclusionProof"
         (tl_inclusion_proof t)).

(** The outer [option] is an exception of [json::value]. *)
Definition tlog_from_json (j : jv) : option (expected (TlogEntry jv) BundleError) :=
  match members j with
  | None => Some (Unexpected (mkBundleError (lit "tlog entry not an object")))
  | Some _ =>
      index ← value get_int64 j "logIndex" 0%Z;
      time ← value get_int64 j "integratedTime" 0%Z;
      id ← value get_string j "logID" [];
      kv ← match at_key j "kindVersion" with
           | Some kv =>
               match members kv with
               | Some _ => kind ← value get_string kv "kind" []; version ← value get_string kv "version" []; Some (kind, version)
               | None => Some ([], [])
               end
           | None => Some ([], [])
           end;
      let proof := match at_key j "inclusionProof" with
                   | Some ip => match members ip with Some _ => ip | None => jobj ∅ end
                   | None => jobj ∅ end in
      Some (Ok (mkTlog index time id kv.1 kv.2 proof))
  end.

Fixpoint tlogs_from_json (js : list jv) : option (expected (list (TlogEntry jv)) BundleError) :=
  match js with
  | [] => Some (Ok [])
  | j :: js =>
      r ← tlog_from_json j;
      match r with
      | Unexpected e => Some (Unexpected e)
      | Ok t => r ← tlogs_from_json js; match r with Ok ts => Some (Ok (t :: ts)) | Unexpected e => Some (Unexpected e) end
      end
  end.

Definition key_to_json (k : PublicKeyMaterial) : jv :=
  object (always "hint" (jstr (pk_hint k)) ++ when_text "rawBytes" (pk_raw_b64 k)).

Definition bundle_to_json (b : Bundle jv) : jv :=
  object (always "mediaType" (jstr (b_media_type b))
    ++ always "verificationMaterial"
         (object (always "publicKey" (key_to_json (b_public_key b))
                    ++ when_list "tlogEntries" tlog_to_json (b_tlog_entries b)))
    ++ always "dsseEnvelope" (envelope_to_json (b_dsse_envelope b))).

Definition key_from_json (vm : jv) : option PublicKeyMaterial :=
  match at_key vm "publicKey" with
  | Some pk =>
      match members pk with
      | Some _ => hint ← value get_string pk "hint" []; raw ← value get_string pk "rawBytes" []; Some (mkKeyMaterial hint raw)
      | None => Some (mkKeyMaterial [] [])
      end
  | None => Some (mkKeyMaterial [] [])
  end.

Definition bundle_from_json (j : jv) : option (expected (Bundle jv) BundleError) :=
  match members j with
  | None => Some (Unexpected (mkBundleError (lit "Bundle: not an object")))
  | Some _ =>
      let media := default kSigstoreBundleMediaType (string_member j "mediaType") in
      match vm ← at_key j "verificationMaterial"; _ ← members vm; Some vm with
      | None => Some (Unexpected (mkBundleError (lit "Bundle: missing verificationMaterial")))
      | Some vm =>
          key ← key_from_json vm;
          r ← match at_key vm "tlogEntries" with
              | Some ts => if is_array ts then tlogs_from_json (items ts) else Some (Ok [])
              | None => Some (Ok []) end;
          match r with
          | Unexpected e => Some (Unexpected e)
          | Ok tlogs =>
              match at_key j "dsseEnvelope" with
              | None => Some (Unexpected (mkBundleError (lit "Bundle: missing dsseEnvelope")))
              | Some env =>
                  match envelope_from_json env with
                  | Unexpected e => Some (Unexpected (mkBundleError (lit "Bundle.dsseEnvelope: " ++ dsse_message e)))
                  | Ok envelope => Some (Ok (mkBundle media key envelope tlogs))
                  end
              end
          end
      end
  end.

(** ** SLSA provenance *)

Record ResolvedDependency : Type := mkResolved { rd_uri : str; rd_digest : list (str * str); rd_name : str }.
Record BuildDefinition : Type := mkBuild {
  bd_build_type : str; bd_external : jv; bd_internal : jv; bd_resolved : list ResolvedDependency;
}.
Record Builder : Type := mkBuilder { bu_id : str; bu_version : list (str * str); bu_dependencies : list ResolvedDependency }.
Record RunDetails : Type := mkRun {
  run_builder : Builder; run_invocation_id : str; run_started_on : Z; run_finished_on : Z; run_byproducts : list jv;
}.
Record SlsaProvenance : Type := mkSlsa { build_definition : BuildDefinition; run_details : RunDetails }.

Definition resolved_dep_to_json (d : ResolvedDependency) : jv :=
  object (always "uri" (jstr (rd_uri d))
    ++ when (match rd_digest d with [] => false | _ => true end) "digest" (digest_to_json (rd_digest d))
    ++ when_text "name" (rd_name d)).

Definition build_definition_to_json (b : BuildDefinition) : jv :=
  object (always "buildType" (jstr (bd_build_type b)) ++ always "externalParameters" (bd_external b)
    ++ always "internalParameters" (bd_internal b)
    ++ always "resolvedDependencies" (jarr (resolved_dep_to_json <$> bd_resolved b))).

Definition builder_to_json (b : Builder) : jv :=
  object (always "id" (jstr (bu_id b))
    ++ when (match bu_version b with [] => false | _ => true end) "version" (digest_to_json (bu_version b))
    ++ when_list "builderDependencies" resolved_dep_to_json (bu_dependencies b)).

Definition run_details_to_json (r : RunDetails) : jv :=
  object (always "builder" (builder_to_json (run_builder r))
    ++ always "metadata" (object (when_text "invocationId" (run_invocation_id r)
         ++ always "startedOn" (jstr (iso8601 (run_started_on r))) ++ always "finishedOn" (jstr (iso8601 (run_finished_on r)))))
    ++ when_list "byproducts" id (run_byproducts r)).

Definition slsa_to_json (p : SlsaProvenance) : jv :=
  object (always "buildDefinition" (build_definition_to_json (build_definition p))
    ++ always "runDetails" (run_details_to_json (run_details p))).

Definition make_provenance_statement (subject : Subject) (provenance : SlsaProvenance) : Statement jv :=
  mkStatement [subject] kSlsaProvenanceV12PredicateType (slsa_to_json provenance).
End documents.

(** ** Properties *)

Section properties.
Context `{JsonOk}.

Lemma signatures_read (sigs : list Signature) : omap signature_from_json (signature_to_json <$> sigs) = sigs.
Proof.
  induction sigs as [|s sigs IH]; [done|]. cbn [fmap list_fmap omap list_omap].
  assert (signature_from_json (signature_to_json s) = Some s) as ->; [|by rewrite <- IH at 2].
  unfold signature_from_json, signature_to_json. unfold object at 1. rewrite members_obj.
  unfold string_member. rewrite !key_member.
  cbn [assoc key_eqb fst snd lit list_ascii_of_string Ascii.eqb Bool.eqb andb mbind option_bind]. rewrite !get_string_str.
  by destruct s.
Qed.

Lemma envelope_roundtrip e : envelope_from_json (envelope_to_json e) = Ok e.
Proof.
  unfold envelope_from_json, envelope_to_json. unfold object at 1. rewrite members_obj.
  unfold string_member. rewrite !key_member.
  cbn [assoc key_eqb fst snd lit list_ascii_of_string Ascii.eqb Bool.eqb andb mbind option_bind].
  rewrite !get_string_str, array_arr, items_arr, signatures_read. by destruct e.
Qed.

(** What a log entry can carry through its JSON: 64-bit numbers, a version
    only with a kind, and a proof that is an object. *)
Definition tlog_ok (t : TlogEntry jv) : Prop :=
  int64 (tl_log_index t) /\ int64 (tl_integrated_time t) /\ (tl_kind t = [] -> tl_version t = []) /\
  exists m, tl_inclusion_proof t = jobj m.

Lemma json_empty_obj m : json_empty (jobj m) = bool_decide (m = ∅).
Proof. unfold json_empty. by rewrite null_obj, members_obj. Qed.

Lemma tlog_roundtrip t : tlog_ok t -> tlog_from_json (tlog_to_json t) = Some (Ok t).
Proof.
  intros (Hi & Ht & Hk & m & Hm). unfold tlog_from_json, tlog_to_json.
  assert (forall kvs, exists mm, members (object kvs) = Some mm) as Hmem by (intros; eexists; apply members_obj).
  match goal with |- context [members (object ?kvs)] => destruct (Hmem kvs) as [mm ->] end.
  rewrite (value_member get_int64 _ "logIndex" (jint (tl_log_index t))) by find_member.
  rewrite (value_member get_int64 _ "integratedTime" (jint (tl_integrated_time t))) by find_member.
  rewrite !get_int64_int by done. cbn [mbind option_bind].
  rewrite (read_text _ "logID" (tl_log_id t)) by find_member. cbn [mbind option_bind]. rewrite !key_member.
  match goal with |- context [assoc (lit "kindVersion") ?kvs] =>
    assert (assoc (lit "kindVersion") kvs = if negb (bool_decide (tl_kind t = [])) then
      Some (object [(lit "kind", jstr (tl_kind t)); (lit "version", jstr (tl_version t))]) else None) as -> by find_member;
    assert (assoc (lit "inclusionProof") kvs = if bool_decide (m = ∅) then None else Some (jobj m)) as ->
  end.
  { rewrite Hm, null_obj, json_empty_obj. destruct (bool_decide (m = ∅)); find_member. }
  destruct (decide (tl_kind t = [])) as [Ek|Ek].
  - rewrite (bool_decide_true (tl_kind t = [])) by done. cbn [negb mbind option_bind fst snd]. rewrite <- Ek, <- (Hk Ek) at 1.
    destruct t as [i time id kind version proof]. cbn in *. subst. case_bool_decide; [by subst|]. by rewrite members_obj.
  - rewrite (bool_decide_false (tl_kind t = [])) by done. cbn [negb]. unfold object at 1. rewrite members_obj.
    read_fields. cbn [fst snd].
    destruct t as [i time id kind version proof]. cbn in *. subst. case_bool_decide; [by subst|]. by rewrite members_obj.
Qed.

Lemma tlogs_roundtrip ts : Forall tlog_ok ts -> tlogs_from_json (tlog_to_json <$> ts) = Some (Ok ts).
Proof.
  induction 1 as [|t ts Ht Hts IH]; [done|]. cbn [fmap list_fmap tlogs_from_json]. rewrite tlog_roundtrip by done.
  cbn [mbind option_bind]. change (list_fmap _ _ tlog_to_json ts) with (tlog_to_json <$> ts). by rewrite IH.
Qed.

(** A bundle read back is the bundle that was written: the media type, the
    key, the log entries and the signed envelope, so what verified before
    verifies after. *)
Lemma bundle_roundtrip b :
  Forall tlog_ok (b_tlog_entries b) -> bundle_from_json (bundle_to_json b) = Some (Ok b).
Proof.
  intros Hts. unfold bundle_from_json, bundle_to_json.
  set (vm := object (always "publicKey" _ ++ _)).
  assert (exists m, members vm = Some m) as [vmm Hvm] by (eexists; apply members_obj).
  match goal with |- context [members (object ?kvs)] => assert (exists m, members (object kvs) = Some m) as [m ->] by (eexists; apply members_obj) end.
  unfold string_member. rewrite !key_member. 
  match goal with |- context [assoc (lit "mediaType") ?kvs] =>
    assert (assoc (lit "mediaType") kvs = Some (jstr (b_media_type b))) as -> by find_member;
    assert (assoc (lit "verificationMaterial") kvs = Some vm) as -> by find_member;
    assert (assoc (lit "dsseEnvelope") kvs = Some (envelope_to_json (b_dsse_envelope b))) as -> by find_member end.
  cbn [mbind option_bind]. rewrite get_string_str, Hvm. cbn [mbind option_bind default].
  assert (key_from_json vm = Some (b_public_key b)) as ->.
  { unfold key_from_json, vm. rewrite key_member. unfold always at 1. cbn [when app assoc fst snd]. rewrite (proj2 (key_eqb_true _ _) eq_refl).
    unfold key_to_json. match goal with |- context [members (object ?kvs)] => assert (exists m, members (object kvs) = Some m) as [m' ->] by (eexists; apply members_obj) end.
    rewrite (value_member get_string _ "hint" (jstr (pk_hint (b_public_key b)))) by find_member. rewrite get_string_str. cbn [mbind option_bind].
    rewrite (read_text _ "rawBytes" (pk_raw_b64 (b_public_key b))) by find_member. cbn. by destruct (b_public_key b). }
  cbn [mbind option_bind].
  assert (at_key vm "tlogEntries" = if match b_tlog_entries b with [] => false | _ => true end
            then Some (jarr (tlog_to_json <$> b_tlog_entries b)) else None) as -> by (unfold vm; rewrite key_member; find_member).
  rewrite envelope_roundtrip.
  destruct b as [media key env [|t ts]]; [done|]. cbn [b_tlog_entries] in *. rewrite array_arr, items_arr, tlogs_roundtrip by done.
  done.
Qed.

(** *** Provenance *)

Definition digest_ok (d : list (str * str)) : Prop :=
  Forall (fun kv => kv.1 <> [] /\ kv.2 <> [] /\ forallb Attest.isxdigit kv.2 = true) d.

Lemma validate_digest_ok d : validate_digest d = Ok tt <-> digest_ok d.
Proof.
  induction d as [|[a v] d IH]; [split; [by constructor|done]|]. cbn [validate_digest]. unfold digest_ok in *. rewrite Forall_cons.
  cbn [fst snd]. case_bool_decide as Ha; case_bool_decide as Hv; cbn [orb]; try (split; [done|naive_solver]).
  destruct (forallb Attest.isxdigit v); cbn [negb]; [rewrite IH; naive_solver|]. split; [done|naive_solver].
Qed.

(** A provenance statement passes the check exactly when its subject has a name
    and a digest of hexadecimal values; nothing in the provenance matters. *)
Theorem provenance_statement_valid subject p :
  Attest.validate (make_provenance_statement subject p) = Ok tt <->
  sub_name subject <> [] /\ sub_digest subject <> [] /\ digest_ok (sub_digest subject).
Proof.
  unfold Attest.validate, make_provenance_statement. cbn [st_subjects st_predicate_type].
  rewrite bool_decide_false by done. cbn [validate_subjects].
  case_bool_decide as Hn; [split; [done|naive_solver]|]. case_bool_decide as Hd; [split; [done|naive_solver]|].
  destruct (validate_digest (sub_digest subject)) as [[]|e] eqn:E.
  - apply validate_digest_ok in E. rewrite bool_decide_false by done. rewrite bool_decide_false by (by vm_compute). naive_solver.
  - split; [done|]. intros (_ & _ & Hok). apply validate_digest_ok in Hok. congruence.
Qed.
End properties.

(** ** Witness *)

Lemma bundle_roundtrip_witness :
  let J := TreeJson.json in
  let b := @mkBundle jv kSigstoreBundleMediaType (mkKeyMaterial (lit "hint") (lit "AAAA"))
             (mkEnvelope (lit "application/vnd.in-toto+json") (lit "e30=") [mkSignature (lit "k") (lit "c2ln")])
             [@mkTlog jv 7 1700000000 (lit "log") (lit "dsse") (lit "0.0.1") (@jobj J ∅)] in
  @bundle_from_json J (@bundle_to_json J b) = Some (Ok b).
Proof.
  intros J b. apply (@bundle_roundtrip J TreeJson.tree_json_ok b).
  apply Forall_cons. split; [|by apply Forall_nil].
  split; [by vm_compute|]. split; [by vm_compute|]. split; [done|]. by exists ∅.
Defined.
