(* ===== verification/Metrics.v ===== *)
(** * Metrics: usage records, evidence and staged events of [libs/metrics]

    [Insights]: [insights.cpp], prices and the rollup of a session.  [Grid]:
    the table of [mdspan_views.cpp].  [Buffer]: the bounded buffer and the
    collector of [fast_collector.cpp].  [EvidenceStore]: [evidence.cpp].
    A file is its contents, [None] when it does not exist. *)

From Stdlib Require Import ZArith Ascii String Lia SpecFloat.
From stdpp Require Import base list gmap strings sorting.
From S2P Require Import Prelude CxxString Lines Doubles Json JsonObjects JsonText AuditLog.

(** ** Usage and cost *)

Module Insights.

Record UsageRecord : Type := mkUsage {
  session_id : str; agent_id : str; provider : str; model : str; input_tokens : Z; cached_input_tokens : Z;
  output_tokens : Z; timestamp_unix_ms : Z; cost_usd : double;
}.
Record ProviderPricing : Type := mkPricing {
  pp_provider : str; pp_model : str; input_per_million : double; cached_input_per_million : double;
  output_per_million : double;
}.
Definition is_known (p : ProviderPricing) : bool :=
  d_lt d_zero (input_per_million p) || d_lt d_zero (cached_input_per_million p) || d_lt d_zero (output_per_million p).

Definition kPriceTable : list ProviderPricing :=
  [mkPricing (lit "anthropic") (lit "claude-opus-4-7") (d_of_Z 15) (d_lit 150 100) (d_of_Z 75);
   mkPricing (lit "anthropic") (lit "claude-sonnet-4-6") (d_of_Z 3) (d_lit 30 100) (d_of_Z 15);
   mkPricing (lit "anthropic") (lit "claude-haiku-4-5") (d_of_Z 1) (d_lit 10 100) (d_of_Z 5);
   mkPricing (lit "openai") (lit "gpt-5") (d_of_Z 12) (d_lit 120 100) (d_of_Z 60);
   mkPricing (lit "openai") (lit "gpt-5-mini") (d_lit 30 100) (d_lit 3 100) (d_lit 150 100);
   mkPricing (lit "google") (lit "gemini-2.5-pro") (d_lit 125 100) (d_lit 31 100) (d_of_Z 10);
   mkPricing (lit "google") (lit "gemini-2.5-flash") (d_lit 75 1000) (d_lit 19 1000) (d_lit 30 100);
   mkPricing (lit "ollama") (lit "*") d_zero d_zero d_zero].

Definition kPerMillion : double := d_of_Z 1000000.

Definition estimate_cost (pricing : ProviderPricing) (input_tokens cached_input_tokens output_tokens : Z) : double :=
  let cached := if (input_tokens <? cached_input_tokens)%Z then input_tokens else cached_input_tokens in
  let fresh := u64 (input_tokens - cached) in
  let part tokens rate := d_mul (d_div (d_of_Z tokens) kPerMillion) rate in
  d_add (d_add (part fresh (input_per_million pricing)) (part cached (cached_input_per_million pricing)))
    (part output_tokens (output_per_million pricing)).

Definition row_matches (p model : str) (row : ProviderPricing) : bool :=
  bool_decide (pp_provider row = p) && (bool_decide (pp_model row = lit "*") || bool_decide (pp_model row = model)).

Definition lookup_pricing (provider model : str) : ProviderPricing :=
  match List.find (row_matches (lower provider) model) kPriceTable with
  | Some row =>
      mkPricing (pp_provider row) (if bool_decide (pp_model row = lit "*") then model else pp_model row)
        (input_per_million row) (cached_input_per_million row) (output_per_million row)
  | None => mkPricing provider model d_zero d_zero d_zero
  end.

Record SessionInsights : Type := mkInsights {
  si_session : str; total_calls : Z; total_input_tokens : Z; total_cached_input_tokens : Z; total_output_tokens : Z;
  total_cost_usd : double; per_model_cost : list (str * double);
}.

(** Add to the entry of a key, which is appended when there is none. *)
Fixpoint bucket (key : str) (cost : double) (buckets : list (str * double)) : list (str * double) :=
  match buckets with
  | [] => [(key, cost)]
  | (k, c) :: rest => if bool_decide (k = key) then (k, d_add c cost) :: rest else (k, c) :: bucket key cost rest
  end.

Definition model_key (r : UsageRecord) : str := provider r ++ ":"%char :: model r.

Definition aggregate_step (session_id_ : str) (ins : SessionInsights) (r : UsageRecord) : SessionInsights :=
  if negb (bool_decide (session_id r = session_id_)) then ins
  else mkInsights (si_session ins) (u64 (total_calls ins + 1)) (u64 (total_input_tokens ins + input_tokens r))
         (u64 (total_cached_input_tokens ins + cached_input_tokens r)) (u64 (total_output_tokens ins + output_tokens r))
         (d_add (total_cost_usd ins) (cost_usd r)) (bucket (model_key r) (cost_usd r) (per_model_cost ins)).

Definition aggregate (session_id : str) (records : list UsageRecord) : SessionInsights :=
  foldl (aggregate_step session_id) (mkInsights session_id 0 0 0 0 d_zero []) records.

(** *** What a summary says *)

(** The elements of a list at their first occurrence. *)
Definition firsts {A} `{EqDecision A} (l : list A) : list A :=
  foldl (fun seen a => if decide (a ∈ seen) then seen else seen ++ [a]) [] l.

(** A sum that starts from its first term. *)
Definition total (costs : list double) : double :=
  match costs with [] => d_zero | c :: costs => foldl d_add c costs end.

Definition spent (k : str) (rs : list UsageRecord) : list double :=
  cost_usd <$> List.filter (fun r => bool_decide (model_key r = k)) rs.

Lemma spent_snoc k rs r :
  spent k (rs ++ [r]) = spent k rs ++ (if bool_decide (model_key r = k) then [cost_usd r] else []).
Proof. unfold spent. rewrite List.filter_app, fmap_app. cbn. by case_bool_decide. Qed.

Lemma total_snoc cs c : cs <> [] -> total (cs ++ [c]) = d_add (total cs) c.
Proof. destruct cs as [|c0 cs]; [done|]. intros _. cbn. by rewrite foldl_app. Qed.

Lemma firsts_snoc {A} `{EqDecision A} (l : list A) a :
  firsts (l ++ [a]) = if decide (a ∈ firsts l) then firsts l else firsts l ++ [a].
Proof. unfold firsts. by rewrite foldl_app. Qed.

Lemma elem_of_firsts {A} `{EqDecision A} (l : list A) a : a ∈ firsts l <-> a ∈ l.
Proof.
  induction l as [|b l IH] using rev_ind; [done|]. rewrite firsts_snoc, elem_of_app, list_elem_of_singleton.
  destruct (decide (b ∈ firsts l)); [|rewrite elem_of_app, list_elem_of_singleton]; rewrite ?IH in *; naive_solver.
Qed.

Lemma NoDup_firsts {A} `{EqDecision A} (l : list A) : NoDup (firsts l).
Proof.
  induction l as [|b l IH] using rev_ind; [by constructor|]. rewrite firsts_snoc.
  destruct (decide (b ∈ firsts l)); [done|]. apply NoDup_app. split; [done|]. split; [|apply NoDup_singleton].
  intros x Hx ->%list_elem_of_singleton. done.
Qed.

Lemma spent_nonempty k rs : k ∈ model_key <$> rs -> spent k rs <> [].
Proof.
  intros (r & -> & Hr)%list_elem_of_fmap. unfold spent. destruct (List.filter _ rs) eqn:E; [|done]. exfalso.
  assert (r ∈ List.filter (fun r' => bool_decide (model_key r' = model_key r)) rs) as Hin.
  { apply list_elem_of_In, filter_In. split; [by apply list_elem_of_In|]. by apply bool_decide_true. }
  rewrite E in Hin. by apply not_elem_of_nil in Hin.
Qed.

Lemma bucket_absent key cost l : key ∉ l.*1 -> bucket key cost l = l ++ [(key, cost)].
Proof.
  induction l as [|[k c] l IH]; [done|]. cbn [fmap list_fmap fst bucket]. rewrite not_elem_of_cons. intros [Hne Hl].
  rewrite bool_decide_false by congruence. by rewrite IH.
Qed.

Lemma bucket_present key cost l (f : str -> double) ks : NoDup ks -> key ∈ ks -> l = (fun k => (k, f k)) <$> ks ->
  bucket key cost l = (fun k => (k, if bool_decide (key = k) then d_add (f k) cost else f k)) <$> ks.
Proof.
  intros Hnd Hin ->. induction ks as [|k ks IH]; [by apply not_elem_of_nil in Hin|].
  apply NoDup_cons in Hnd as [Hk Hnd]. cbn [fmap list_fmap bucket]. case_bool_decide as E.
  - subst. rewrite bool_decide_true by done. f_equal. apply list_fmap_ext. intros i k' Hk'%list_elem_of_lookup_2.
    rewrite bool_decide_false; [done|]. by intros ->.
  - rewrite bool_decide_false by congruence. apply elem_of_cons in Hin as [?|Hin]; [congruence|]. by rewrite IH.
Qed.

Lemma u64_add a b : u64 (u64 a + b) = u64 (a + b).
Proof. unfold u64. by rewrite Zplus_mod_idemp_l. Qed.

Definition sum_of (f : UsageRecord -> Z) (rs : list UsageRecord) : Z := foldl (fun n r => n + f r)%Z 0%Z rs.

(** What a summary of a session's own records is *)
Definition summary (sid : str) (mine : list UsageRecord) : SessionInsights :=
  mkInsights sid (u64 (Z.of_nat (length mine))) (u64 (sum_of input_tokens mine)) (u64 (sum_of cached_input_tokens mine))
    (u64 (sum_of output_tokens mine)) (foldl d_add d_zero (cost_usd <$> mine))
    ((fun k => (k, total (spent k mine))) <$> firsts (model_key <$> mine)).

Lemma sum_of_snoc f rs r : sum_of f (rs ++ [r]) = (sum_of f rs + f r)%Z.
Proof. unfold sum_of. by rewrite foldl_app. Qed.

Lemma bucket_summary mine r :
  bucket (model_key r) (cost_usd r) ((fun k => (k, total (spent k mine))) <$> firsts (model_key <$> mine)) =
  (fun k => (k, total (spent k (mine ++ [r])))) <$> firsts (model_key <$> (mine ++ [r])).
Proof.
  rewrite fmap_app. cbn [fmap list_fmap]. change (list_fmap _ _ model_key mine) with (model_key <$> mine).
  rewrite firsts_snoc. destruct (decide (model_key r ∈ firsts (model_key <$> mine))) as [Hin|Hin].
  - rewrite (bucket_present _ _ _ (fun k => total (spent k mine)) _ (NoDup_firsts _) Hin eq_refl).
    apply list_fmap_ext. intros i k Hk%list_elem_of_lookup_2. rewrite spent_snoc. case_bool_decide; [|by rewrite app_nil_r].
    rewrite total_snoc; [done|]. apply spent_nonempty. by apply elem_of_firsts.
  - rewrite bucket_absent.
    + rewrite fmap_app. cbn [fmap list_fmap]. f_equal.
      * apply list_fmap_ext. intros i k Hk%list_elem_of_lookup_2. rewrite spent_snoc, bool_decide_false, app_nil_r; [done|].
        by intros <-.
      * do 2 f_equal. rewrite spent_snoc, bool_decide_true by done.
        assert (spent (model_key r) mine = []) as ->; [|done].
        unfold spent. rewrite elem_of_firsts in Hin. clear -Hin. induction mine as [|x mine IH]; [done|].
        cbn [fmap list_fmap] in Hin. apply not_elem_of_cons in Hin as [Hne Hin]. cbn [List.filter].
        rewrite bool_decide_false by congruence. by apply IH.
    + rewrite <- list_fmap_compose. unfold compose. cbn. by rewrite list_fmap_id.
Qed.

(** The single pass over all records computes, for its session only, the number
    of calls, the token sums (modulo 2^64), the cost in the order of the
    records, and one bucket for each provider and model, in the order they first
    appear, holding the cost of exactly their records. *)
Lemma aggregate_exact sid records :
  aggregate sid records = summary sid (List.filter (fun r => bool_decide (session_id r = sid)) records).
Proof.
  unfold aggregate. induction records as [|r records IH] using rev_ind; [done|].
  rewrite foldl_app, List.filter_app. cbn [foldl List.filter]. rewrite IH. unfold aggregate_step.
  case_bool_decide as Hs; [|by rewrite app_nil_r]. cbn [negb].
  unfold summary. cbn [si_session total_calls total_input_tokens total_cached_input_tokens total_output_tokens
    total_cost_usd per_model_cost].
  rewrite !u64_add, bucket_summary, !sum_of_snoc, (fmap_app cost_usd), foldl_app, length_app, Nat2Z.inj_add.
  done.
Qed.

(** The price of a call does not depend on how far the cached count exceeds
    the input. *)
Lemma estimate_cost_capped p input cached output : (input <= cached)%Z ->
  estimate_cost p input cached output = estimate_cost p input input output.
Proof.
  intros H. unfold estimate_cost. rewrite Z.ltb_irrefl. destruct (Z.ltb_spec input cached); [done|].
  by replace cached with input by lia.
Qed.

(** Providers are found in any case, and a pair outside the table has no price. *)
Lemma lookup_pricing_case p model : is_known (lookup_pricing (lower p) model) = is_known (lookup_pricing p model).
Proof. unfold lookup_pricing. rewrite lower_idemp. by destruct (List.find _ _). Qed.

Lemma lookup_pricing_unknown p model :
  (forall row, row ∈ kPriceTable -> row_matches (lower p) model row = false) ->
  lookup_pricing p model = mkPricing p model d_zero d_zero d_zero.
Proof.
  intros Hno. unfold lookup_pricing. destruct (List.find _ _) as [row|] eqn:E; [|done].
  apply find_some in E as [Hin Hm]. rewrite Hno in Hm; [done|]. by apply list_elem_of_In.
Qed.

(** A local model is free, so its price is the one that stands for unknown. *)
Lemma free_model_unknown model : is_known (lookup_pricing (lit "ollama") model) = false.
Proof. by vm_compute. Qed.

(** Two models share a bucket when the colons fall differently. *)
Lemma bucket_collision s a t :
  model_key (mkUsage s a (lit "p:q") (lit "m") 0 0 0 t d_zero) = model_key (mkUsage s a (lit "p") (lit "q:m") 0 0 0 t d_zero).
Proof. reflexivity. Qed.
End Insights.

(** ** The grid of agents and time steps *)

Module Grid.

Record AgentMetricsGrid : Type := mkGrid { agents_ : Z; timesteps_ : Z; data_ : list double }.

Definition new_grid (num_agents num_timesteps : Z) : AgentMetricsGrid :=
  mkGrid num_agents num_timesteps (replicate (Z.to_nat (u64 (num_agents * num_timesteps))) d_zero).

(** The unsigned index of a cell, and the cell; [None] is out of the vector. *)
Definition index (g : AgentMetricsGrid) (agent timestep : Z) : nat :=
  Z.to_nat (u64 (u64 (agent * timesteps_ g) + timestep)).
Definition cell (g : AgentMetricsGrid) (agent timestep : Z) : option double := data_ g !! index g agent timestep.

(** [None] is the [out_of_range] exception. *)
Definition outside (g : AgentMetricsGrid) (agent timestep : Z) : bool :=
  (agents_ g <=? agent)%Z || (timesteps_ g <=? timestep)%Z.
Definition set (g : AgentMetricsGrid) (agent timestep : Z) (v : double) : option AgentMetricsGrid :=
  if outside g agent timestep then None
  else _ ← cell g agent timestep; Some (mkGrid (agents_ g) (timesteps_ g) (<[index g agent timestep := v]> (data_ g))).
Definition get (g : AgentMetricsGrid) (agent timestep : Z) : option double :=
  if outside g agent timestep then None else cell g agent timestep.

Definition up_to (n : Z) : list Z := Z.of_nat <$> seq 0 (Z.to_nat n).
Definition mean_of (n : Z) (cells : list double) : double :=
  if (0 <? n)%Z then d_div (foldl d_add d_zero cells) (d_of_Z n) else d_zero.

Definition agent_slice (g : AgentMetricsGrid) (agent : Z) : option (list double) :=
  if (agents_ g <=? agent)%Z then None
  else Some (take (Z.to_nat (timesteps_ g)) (drop (Z.to_nat (u64 (agent * timesteps_ g))) (data_ g))).
Definition row_means (g : AgentMetricsGrid) : option (list double) :=
  mapM (fun a => cells ← mapM (cell g a) (up_to (timesteps_ g)); Some (mean_of (timesteps_ g) cells)) (up_to (agents_ g)).
Definition col_means (g : AgentMetricsGrid) : option (list double) :=
  mapM (fun t => cells ← mapM (fun a => cell g a t) (up_to (agents_ g)); Some (mean_of (agents_ g) cells))
    (up_to (timesteps_ g)).

(** A grid whose size is a [size_t] has a cell for every agent and step. *)
Record grid_wf (g : AgentMetricsGrid) : Prop := {
  gw_agents : (0 <= agents_ g)%Z;
  gw_steps : (0 <= timesteps_ g)%Z;
  gw_size : (agents_ g * timesteps_ g < 2 ^ 64)%Z;
  gw_data : length (data_ g) = Z.to_nat (agents_ g * timesteps_ g);
}.

Lemma new_grid_wf a t : (0 <= a)%Z -> (0 <= t)%Z -> (a * t < 2 ^ 64)%Z -> grid_wf (new_grid a t).
Proof. intros Ha Ht Hs. split; cbn; try done. rewrite length_replicate, u64_small; [done|]. split; [nia|done]. Qed.

Definition inside (g : AgentMetricsGrid) (a t : Z) : Prop := (0 <= a < agents_ g)%Z /\ (0 <= t < timesteps_ g)%Z.

Lemma index_inside g a t : grid_wf g -> inside g a t ->
  index g a t = Z.to_nat (a * timesteps_ g + t) /\ (a * timesteps_ g + t < agents_ g * timesteps_ g)%Z.
Proof.
  intros Hg [Ha Ht]. destruct Hg as [Hg1 Hg2 Hg3 Hg4]. assert (a * timesteps_ g + t < agents_ g * timesteps_ g)%Z as Hlt by nia.
  split; [|done]. unfold index. rewrite (u64_small (a * _)) by nia. rewrite u64_small by nia. done.
Qed.

Lemma index_inj g a t a' t' : grid_wf g -> inside g a t -> inside g a' t' ->
  index g a t = index g a' t' -> a = a' /\ t = t'.
Proof.
  intros Hg Hi Hi' E. rewrite (proj1 (index_inside _ _ _ Hg Hi)), (proj1 (index_inside _ _ _ Hg Hi')) in E.
  destruct Hi as [Ha Ht], Hi' as [Ha' Ht'], Hg as [Hg1 Hg2 Hg3 Hg4]. apply Z2Nat.inj in E; [|nia..].
  assert (a = a') as -> by nia. split; [done|lia].
Qed.

Lemma cell_inside g a t : grid_wf g -> inside g a t -> is_Some (cell g a t).
Proof.
  intros Hg Hi. destruct (index_inside g a t Hg Hi) as [E Hlt]. apply lookup_lt_is_Some.
  rewrite E, (gw_data g Hg). destruct Hi, Hg. apply Z2Nat.inj_lt; nia.
Qed.

Lemma inside_spec g a t : (0 <= a)%Z -> (0 <= t)%Z -> outside g a t = false <-> inside g a t.
Proof. intros. unfold outside, inside. rewrite orb_false_iff, !Z.leb_gt. lia. Qed.

(** Setting a cell of the grid changes that cell and no other, and keeps the
    grid well formed. *)
Lemma set_get g a t v : grid_wf g -> inside g a t ->
  exists g', set g a t v = Some g' /\ grid_wf g' /\ get g' a t = Some v /\
    forall a' t', inside g a' t' -> (a', t') <> (a, t) -> get g' a' t' = get g a' t'.
Proof.
  intros Hg Hi. destruct (cell_inside g a t Hg Hi) as [old Hold]. eexists. unfold set.
  destruct (Hi) as [Ha Ht]. rewrite (proj2 (inside_spec g a t ltac:(lia) ltac:(lia)) Hi), Hold. cbn [mbind option_bind].
  split; [done|]. split; [destruct Hg; split; cbn; rewrite ?length_insert; done|]. split.
  - unfold get. change (outside (mkGrid _ _ _) a t) with (outside g a t).
    rewrite (proj2 (inside_spec g a t ltac:(lia) ltac:(lia)) Hi). unfold cell. cbn [data_].
    change (index (mkGrid _ _ _) a t) with (index g a t). rewrite list_lookup_insert_eq; [done|]. by eapply lookup_lt_Some.
  - intros a' t' Hi' Hne. unfold get. change (outside (mkGrid _ _ _) a' t') with (outside g a' t').
    destruct (outside g a' t'); [done|]. unfold cell. cbn [data_].
    change (index (mkGrid _ _ _) a' t') with (index g a' t'). apply list_lookup_insert_ne.
    intros E. apply Hne. destruct (index_inj g a t a' t' Hg Hi Hi' E) as [-> ->]. done.
Qed.
End Grid.

(** ** Staged events *)

Module Buffer.

Section buffer.
Context `{JsonText}.

Record MetricEvent : Type := mkEvent { event_type : str; timestamp : double; properties : jv }.

(** [pop_front] of an empty deque is undefined: [None]. *)
Definition append (max_size : nat) (buffer : list MetricEvent) (e : MetricEvent) : option (list MetricEvent) :=
  if (max_size <=? length buffer)%nat then match buffer with [] => None | _ :: b => Some (b ++ [e]) end
  else Some (buffer ++ [e]).

Definition event_json (e : MetricEvent) : jv :=
  object [(lit "event_type", jstr (event_type e)); (lit "timestamp", jdouble (timestamp e)); (lit "properties", properties e)].

(** The text that is written, and whether the loop ended without an exception:
    [dump] throws on text that is not UTF-8. *)
Fixpoint write_jsonl (events : list MetricEvent) : str * bool :=
  match events with
  | [] => ([], true)
  | e :: events =>
      match json_dump (event_json e) with
      | None => ([], false)
      | Some line => let '(text, ok) := write_jsonl events in (line ++ eol :: text, ok)
      end
  end.

Record FastMetricsCollector : Type := mkFast { fc_max : nat; fc_buffer : list MetricEvent; fc_file : str }.

Definition record (c : FastMetricsCollector) (now : double) (event_type : str) (properties : jv) :
    option FastMetricsCollector :=
  b ← append (fc_max c) (fc_buffer c) (mkEvent event_type now properties); Some (mkFast (fc_max c) b (fc_file c)).
Definition record_metric c now (name : str) (v : double) (tags : jv) : option FastMetricsCollector :=
  record c now (lit "metric") (object [(lit "name", jstr name); (lit "value", jdouble v); (lit "tags", tags)]).
Definition record_timing c now (name : str) (duration_ms : double) (tags : jv) : option FastMetricsCollector :=
  record c now (lit "timing") (object [(lit "name", jstr name); (lit "duration_ms", jdouble duration_ms); (lit "tags", tags)]).
Definition record_counter c now (name : str) (delta : Z) (tags : jv) : option FastMetricsCollector :=
  record c now (lit "counter") (object [(lit "name", jstr name); (lit "delta", jint delta); (lit "tags", tags)]).

(** [flush]: the number of events, [None] when it throws. *)
Definition flush (c : FastMetricsCollector) : option Z * FastMetricsCollector :=
  match fc_buffer c with
  | [] => (Some 0%Z, c)
  | events =>
      let '(text, ok) := write_jsonl events in
      (if ok then Some (Z.of_nat (length events)) else None, mkFast (fc_max c) [] (fc_file c ++ text))
  end.

Inductive FastOp : Type := Record_ (e : MetricEvent) | Flush.

Definition fast_step (c : FastMetricsCollector) (op : FastOp) : option FastMetricsCollector :=
  match op with
  | Record_ e => record c (timestamp e) (event_type e) (properties e)
  | Flush => Some (flush c).2
  end.

Fixpoint fast_run (c : FastMetricsCollector) (ops : list FastOp) : option FastMetricsCollector :=
  match ops with [] => Some c | op :: ops => c ← fast_step c op; fast_run c ops end.

(** *** What a history leaves *)

(** The newest [n] elements *)
Definition newest {A} (n : nat) (l : list A) : list A := drop (length l - n) l.

(** The batches a history writes, and what is still staged. *)
Fixpoint batches (max : nat) (staged : list MetricEvent) (ops : list FastOp) : list (list MetricEvent) * list MetricEvent :=
  match ops with
  | [] => ([], staged)
  | Record_ e :: ops => batches max (staged ++ [e]) ops
  | Flush :: ops => let '(bs, rest) := batches max [] ops in (newest max staged :: bs, rest)
  end.

Lemma newest_short {A} n (l : list A) : (length l <= n)%nat -> newest n l = l.
Proof. intros. unfold newest. by replace (length l - n) with 0%nat by lia. Qed.

Lemma length_newest {A} n (l : list A) : length (newest n l) = Nat.min n (length l).
Proof. unfold newest. rewrite length_drop. lia. Qed.

Lemma append_newest max staged e : (0 < max)%nat ->
  append max (newest max staged) e = Some (newest max (staged ++ [e])).
Proof.
  intros Hm. unfold append. rewrite length_newest. unfold newest. rewrite length_app. cbn [length].
  destruct (Nat.leb_spec max (Nat.min max (length staged))) as [Hle|Hlt].
  - destruct (drop (length staged - max) staged) as [|x b] eqn:E.
    { apply (f_equal length) in E. rewrite length_drop in E. cbn in E. lia. }
    f_equal. rewrite drop_app_le by lia. f_equal.
    change b with (drop 1 (x :: b)). rewrite <- E, drop_drop. f_equal. lia.
  - replace (length staged - max) with 0%nat by lia. by replace (length staged + 1 - max) with 0%nat by lia.
Qed.

(** The collector never fails, its buffer never exceeds its bound, and its file
    receives, for each stretch between two flushes, the newest events of that
    stretch in their order. *)
Theorem flushed_events c ops staged : (0 < fc_max c)%nat -> fc_buffer c = newest (fc_max c) staged ->
  exists c', fast_run c ops = Some c' /\ (length (fc_buffer c') <= fc_max c)%nat /\
    fc_file c' = fc_file c ++ List.concat (fst <$> (write_jsonl <$> (batches (fc_max c) staged ops).1)) /\
    fc_buffer c' = newest (fc_max c) (batches (fc_max c) staged ops).2.
Proof.
  revert c staged. induction ops as [|[e|] ops IH]; intros c staged Hm Hb; cbn [fast_run fast_step batches].
  - exists c. split; [done|]. rewrite Hb, length_newest. split; [lia|]. cbn. by rewrite app_nil_r.
  - unfold record. rewrite Hb. destruct e as [ty ts ps]. cbn [timestamp event_type properties].
    rewrite append_newest by done. cbn [mbind option_bind]. by apply (IH (mkFast _ _ _)).
  - cbn [mbind option_bind].
    assert ((flush c).2 = mkFast (fc_max c) [] (fc_file c ++ (write_jsonl (newest (fc_max c) staged)).1)) as ->.
    { unfold flush. rewrite Hb. destruct c as [max b file]. cbn [fc_max fc_buffer fc_file] in *. destruct (newest max staged); subst.
      - cbn [snd]. by rewrite app_nil_r.
      - by destruct (write_jsonl _) as [text ok]. }
    destruct (IH (mkFast (fc_max c) [] (fc_file c ++ (write_jsonl (newest (fc_max c) staged)).1)) []) as (c' & Hr & Hl & Hf & Hb');
      [done|done|]. cbn [fc_max fc_file] in *. exists c'. rewrite Hr. split; [done|]. split; [done|].
    destruct (batches (fc_max c) [] ops) as [bs rest]. cbn [fst snd fmap list_fmap List.concat] in *. rewrite Hf, <- app_assoc. done.
Qed.

(** A batch ends at an event that cannot be written: the events after it leave
    the buffer and never reach the file. *)
Lemma bad_event_loses_rest c e rest : json_dump (event_json e) = None -> fc_buffer c = e :: rest ->
  flush c = (None, mkFast (fc_max c) [] (fc_file c)).
Proof. intros He Hb. unfold flush. rewrite Hb. cbn [write_jsonl]. by rewrite He, app_nil_r. Qed.
End buffer.
End Buffer.

(** ** Evidence *)

Module EvidenceStore.

Inductive EvidenceGrade : Type := Verified | Measured | Observed | Inferred | Speculated.
#[export] Instance EvidenceGrade_eq_dec : EqDecision EvidenceGrade.
Proof. solve_decision. Defined.

Definition grade_to_string (g : EvidenceGrade) : str :=
  match g with
  | Verified => lit "E1" | Measured => lit "E2" | Observed => lit "E3" | Inferred => lit "E4" | Speculated => lit "E5"
  end.
Definition grade_from_string (s : str) : EvidenceGrade :=
  if bool_decide (s = lit "E1") then Verified
  else if bool_decide (s = lit "E2") then Measured
  else if bool_decide (s = lit "E3") then Observed
  else if bool_decide (s = lit "E4") then Inferred
  else Speculated.
(** [static_cast<int>] *)
Definition grade_rank (g : EvidenceGrade) : nat :=
  match g with Verified => 0 | Measured => 1 | Observed => 2 | Inferred => 3 | Speculated => 4 end.

Record Evidence (J : Type) : Type := mkEvidence {
  source_file : str; source_line : option Z; evidence_type : str; grade : EvidenceGrade; content : str;
  ev_timestamp : str; verification_cmd : option str; metadata : J;
}.
Arguments mkEvidence {J}. Arguments source_file {J}. Arguments source_line {J}. Arguments evidence_type {J}.
Arguments grade {J}. Arguments content {J}. Arguments ev_timestamp {J}. Arguments verification_cmd {J}. Arguments metadata {J}.

Record Claim (J : Type) : Type := mkClaim { statement : str; supporting_evidence : list (Evidence J); confidence : double }.
Arguments mkClaim {J}. Arguments statement {J}. Arguments supporting_evidence {J}. Arguments confidence {J}.

(** Twelve hexadecimal digits, the highest first. *)
Definition hex12 (h : Z) : str :=
  (fun i => hex_digit (Z.land (Z.shiftr h (4 * (11 - Z.of_nat i))) 15)) <$> seq 0 12.

Section evidence.
(** [std_hash] is [std::hash<std::string>]. *)
Context `{JsonText} (std_hash : str -> Z).

Definition hash_text (e : Evidence jv) : str := source_file e ++ ":"%char :: content e ++ ":"%char :: ev_timestamp e.
Definition hash (e : Evidence jv) : str := hex12 (Z.land (std_hash (hash_text e)) 0xFFFFFFFFFFFF).

Definition to_json (e : Evidence jv) : jv :=
  object (always "source_file" (jstr (source_file e)) ++ always "evidence_type" (jstr (evidence_type e))
    ++ always "grade" (jstr (grade_to_string (grade e))) ++ always "content" (jstr (content e))
    ++ always "timestamp" (jstr (ev_timestamp e)) ++ always "metadata" (metadata e) ++ always "hash" (jstr (hash e))
    ++ opt_member "source_line" jint (source_line e) ++ opt_member "verification_cmd" jstr (verification_cmd e)).

Definition from_json (j : jv) : option (Evidence jv) :=
  source_file ← value get_string j "source_file" [];
  source_line ← present get_int j "source_line";
  evidence_type ← value get_string j "evidence_type" [];
  g ← value get_string j "grade" (lit "E5");
  content ← value get_string j "content" [];
  timestamp ← value get_string j "timestamp" [];
  verification_cmd ← present get_string j "verification_cmd";
  metadata ← value Some j "metadata" (object []);
  Some (mkEvidence source_file source_line evidence_type (grade_from_string g) content timestamp verification_cmd metadata).

Definition highest_grade (c : Claim jv) : option EvidenceGrade :=
  match supporting_evidence c with
  | [] => None
  | e0 :: _ =>
      Some (foldl (fun best e => if (grade_rank (grade e) <? grade_rank best)%nat then grade e else best) (grade e0)
              (supporting_evidence c))
  end.

(** The evidence file is [None] while it does not exist; [opened] tells
    whether it can be opened.  The result is [None] when [dump] throws. *)
Definition store_evidence (opened : bool) (db : option str) (e : Evidence jv) : option (str * option str) :=
  line ← json_dump (to_json e);
  Some (hash e, if opened then Some (default [] db ++ line ++ [eol]) else db).

(** An exception inside the loop goes on with the next line. *)
Definition read_if (evidence_hash line : str) : option (Evidence jv) :=
  j ← json_parse line;
  h ← value get_string j "hash" [];
  if bool_decide (h = evidence_hash) then from_json j else None.

Definition load_evidence (db : option str) (evidence_hash : str) : option (Evidence jv) :=
  head (omap (read_if evidence_hash) (text_lines db)).

Definition load_all_evidence (db : option str) : list (Evidence jv) :=
  omap (fun line => j ← json_parse line; from_json j) (text_lines db).

Definition kDecayDays (g : EvidenceGrade) : option Z :=
  match g with Verified => Some 1 | Measured => Some 1 | Observed => Some 7 | Inferred => Some 30 | Speculated => None end%Z.

(** [evidence_time] is what [get_time] and [mktime] make of the timestamp, in
    seconds; [now] is in nanoseconds. *)
Definition check_decay (now : Z) (evidence_time : option Z) (e : Evidence jv) : bool :=
  match grade e, kDecayDays (grade e), evidence_time with
  | Speculated, _, _ => true
  | _, Some days, Some t => (days <? Z.quot (Z.quot (now - t * 10 ^ 9) (3600 * 10 ^ 9)) 24)%Z
  | _, _, _ => true
  end.

Definition verify_claim (c : Claim jv) : bool :=
  match supporting_evidence c, highest_grade c with
  | [], _ => false
  | _, None => false
  | _, Some g => if (grade_rank Observed <? grade_rank g)%nat then false else d_le (d_lit 1 2) (confidence c)
  end.

(** *** Properties *)

Context `{!JsonOk} `{!JsonTextOk}.

Lemma grade_decodes g : grade_from_string (grade_to_string g) = g.
Proof. by destruct g. Qed.

Definition evidence_ok (e : Evidence jv) : Prop :=
  (forall n, source_line e = Some n -> int32 n) /\ json_exact (metadata e).

Lemma read_optional {A} (get : jv -> option A) (f : A -> jv) kvs k o :
  assoc (lit k) kvs = f <$> o -> (forall a, o = Some a -> get (f a) = Some a /\ is_null (f a) = false) ->
  present get (object kvs) k = Some o.
Proof.
  intros E Ho. unfold present. rewrite key_member, E. destruct o as [a|]; [|done]. cbn [fmap option_fmap option_map].
  destruct (Ho a eq_refl) as [Hg Hn]. by rewrite Hn, Hg.
Qed.

Lemma assoc_opt {A} k k' (f : A -> jv) o :
  assoc (lit k) (opt_member k' f o) = if key_eqb (lit k') (lit k) then f <$> o else None.
Proof. destruct o; cbn; by destruct (key_eqb (lit k') (lit k)). Qed.

Lemma value_text kvs k d s : assoc (lit k) kvs = Some (jstr s) -> value get_string (object kvs) k d = Some s.
Proof. intros E. by rewrite value_object, lookup_assoc, E, get_string_str. Qed.

Lemma evidence_roundtrip e : evidence_ok e -> from_json (to_json e) = Some e.
Proof.
  intros He. unfold from_json, to_json.
  rewrite (value_text _ "source_file" _ (source_file e)) by find_member.
  rewrite (read_optional get_int jint _ "source_line" (source_line e)).
  2:{ unfold always. rewrite !assoc_app, !assoc_when, !assoc_opt. cbn. by destruct (source_line e). }
  2:{ intros n Hn. split; [apply get_int_int, (proj1 He n Hn)|apply int_not_null]. }
  rewrite (value_text _ "evidence_type" _ (evidence_type e)) by find_member.
  rewrite (value_text _ "grade" _ (grade_to_string (grade e))) by find_member.
  rewrite (value_text _ "content" _ (content e)) by find_member.
  rewrite (value_text _ "timestamp" _ (ev_timestamp e)) by find_member.
  rewrite (read_optional get_string jstr _ "verification_cmd" (verification_cmd e)).
  2:{ unfold always. rewrite !assoc_app, !assoc_when, !assoc_opt. cbn. by destruct (source_line e), (verification_cmd e). }
  2:{ intros s _. split; [apply get_string_str|apply str_not_null]. }
  rewrite (value_member Some _ "metadata" (metadata e)) by find_member. cbn [mbind option_bind].
  rewrite grade_decodes. by destruct e.
Qed.

Lemma evidence_exact e : evidence_ok e -> json_exact (to_json e).
Proof.
  intros [Hl Hm]. unfold to_json, always. exact_json; first [done|apply exact_opt].
  - intros n Hn. apply exact_int, int32_json. by apply Hl.
  - intros s _. apply exact_str.
Qed.

Lemma hash_member e : value get_string (to_json e) "hash" [] = Some (hash e).
Proof. unfold to_json. apply value_text. find_member. Qed.

(** Store a list of records, one after the other. *)
Fixpoint store_all (db : option str) (es : list (Evidence jv)) : option (option str) :=
  match es with [] => Some db | e :: es => r ← store_evidence true db e; store_all r.2 es end.

Lemma store_all_lines es : forall db db', store_all db es = Some db' ->
  exists lines, mapM (fun e => json_dump (to_json e)) es = Some lines /\
    default [] db' = default [] db ++ flat_map (fun l => l ++ [eol]) lines.
Proof.
  induction es as [|e es IH]; intros db db'.
  - intros [= <-]. exists []. split; [done|]. by rewrite app_nil_r.
  - cbn [store_all]. unfold store_evidence. destruct (json_dump (to_json e)) as [line|] eqn:El; [|done].
    cbn [mbind option_bind snd]. intros Hs. destruct (IH _ _ Hs) as (lines & Hl & Hd).
    exists (line :: lines). cbn [mapM mbind option_bind]. rewrite El. cbn [mbind option_bind]. rewrite Hl.
    cbn [mbind option_bind]. split; [done|].
    rewrite Hd. unfold default, id. cbn [from_option flat_map]. by rewrite <- !app_assoc.
Qed.

Lemma stored_text es db : store_all None es = Some db ->
  Forall2 (fun e l => json_dump (to_json e) = Some l) es (text_lines db).
Proof.
  intros Hs. destruct (store_all_lines es None db Hs) as (lines & Hl%mapM_Some & Hd).
  assert (text_lines db = lines) as ->; [|done]. apply text_lines_render; [|done].
  apply Forall_forall. intros l (i & Hi)%list_elem_of_lookup. destruct (Forall2_lookup_r _ _ _ _ _ Hl Hi) as (e & _ & He).
  by eapply dump_one_line.
Qed.

Lemma omap_cons {A B} (f : A -> option B) a l :
  omap f (a :: l) = match f a with Some b => b :: omap f l | None => omap f l end.
Proof. done. Qed.

Lemma omap_head {A} (h : str) (l : list A) (key : A -> str) :
  head (omap (fun a => if bool_decide (key a = h) then Some a else None) l) = List.find (fun a => bool_decide (key a = h)) l.
Proof. induction l as [|a l IH]; [done|]. cbn. by case_bool_decide. Qed.

(** What was stored is found again: all records are read back in their order,
    and a hash leads to the first record that has it. *)
Theorem evidence_store_loads es db h : Forall evidence_ok es -> store_all None es = Some db ->
  load_all_evidence db = es /\ load_evidence db h = List.find (fun e => bool_decide (hash e = h)) es.
Proof.
  intros Hok Hl%stored_text. unfold load_all_evidence, load_evidence. set (lines := text_lines db) in *. clearbody lines.
  rewrite <- (omap_head h es hash).
  assert (omap (fun line => j ← json_parse line; from_json j) lines = es /\
          omap (read_if h) lines = omap (fun a => if bool_decide (hash a = h) then Some a else None) es) as [-> ->]; [|done].
  revert Hok. induction Hl as [|e l es lines He Hl IH]; intros Hok; [done|]. apply Forall_cons in Hok as [Hoe Hok].
  destruct (IH Hok) as [IH1 IH2]. rewrite !omap_cons, IH1, IH2. unfold read_if. rewrite (parse_dump _ _ (evidence_exact e Hoe) He). cbn [mbind option_bind].
  rewrite evidence_roundtrip, hash_member by done. cbn [mbind option_bind]. by case_bool_decide.
Qed.

(** A claim is accepted exactly when one of its records has grade E1, E2 or E3
    and its confidence is at least one half. *)
Lemma verify_claim_exact c :
  verify_claim c = true <->
  (exists e, e ∈ supporting_evidence c /\ grade e ∈ [Verified; Measured; Observed]) /\ d_le (d_lit 1 2) (confidence c) = true.
Proof.
  assert (forall (es : list (Evidence jv)) g, grade_rank (foldl (fun best e => if (grade_rank (grade e) <? grade_rank best)%nat then grade e else best) g es) <= 2 <->
    grade_rank g <= 2 \/ exists e, e ∈ es /\ grade_rank (grade e) <= 2) as Hfold.
  { induction es as [|e es IH]; intros g; cbn [foldl].
    - split; [by left|]. intros [?|(e & He & _)]; [done|]. by apply not_elem_of_nil in He.
    - rewrite IH. setoid_rewrite elem_of_cons. destruct (Nat.ltb_spec (grade_rank (grade e)) (grade_rank g)); split.
      all: intros [Hg|(x & Hx & Hr)]; try (right; exists x; naive_solver); try (left; lia); try naive_solver.
      destruct Hx as [->|Hx]; [|naive_solver]. left. lia. }
  assert (forall g, g ∈ [Verified; Measured; Observed] <-> grade_rank g <= 2) as Hg.
  { intros g. rewrite !elem_of_cons, elem_of_nil. destruct g; cbn; split; intros; try lia; naive_solver. }
  unfold verify_claim, highest_grade. destruct (supporting_evidence c) as [|e0 es] eqn:Es.
  - split; [done|]. intros [(e & He & _) _]. by apply not_elem_of_nil in He.
  - set (g := foldl _ _ _). pose proof (Hfold (e0 :: es) (grade e0)) as Hf. fold g in Hf.
    destruct (Nat.ltb_spec (grade_rank Observed) (grade_rank g)) as [Hlt|Hle]; cbn [grade_rank] in *.
    + split; [done|]. intros [(e & He & Hin%Hg) _]. assert (grade_rank g <= 2); [|lia]. apply Hf. right. eauto.
    + split; [intros Hd; split; [|done]|by intros [_ Hd]]. apply Hf in Hle as [Hle|(e & He & Hr)].
      * exists e0. split; [by apply elem_of_cons; left|]. by apply Hg.
      * exists e. split; [done|]. by apply Hg.
Qed.

(** The hashed text does not separate its parts, so different records have one
    hash whatever [std::hash] is, and loading returns the older of them. *)
Lemma evidence_hash_collides t g time m :
  let e s c := mkEvidence s None t g c time None m in
  hash (e (lit "a:b") (lit "c")) = hash (e (lit "a") (lit "b:c")) /\
  e (lit "a:b") (lit "c") <> e (lit "a") (lit "b:c").
Proof. split; [reflexivity|]. intros [=]. Qed.
End evidence.
End EvidenceStore.
