(* ===== verification/MetricsReport.v ===== *)
(** * The performance collector and analyzer of [libs/metrics]

    [performance_collector.cpp] writes one JSON line per event and one per
    finished session; [analyzer.cpp] reads both files back and makes the
    statistics of agents, delegations and tools.  The collector is a state that
    its operations thread, and an operation that ends in an exception ([dump] on
    text that is not UTF-8, or a cast out of range) has no result but keeps what
    it did before. *)

From Stdlib Require Import ZArith Ascii String Lia SpecFloat.
From stdpp Require Import base list gmap strings sorting.
From S2P Require Import Prelude CxxString Clock Lines Doubles Json JsonObjects JsonText Paths AuditLog.

(** ** Directories and times *)

(** [getenv] gives [None] for a variable that is not set. *)
Definition default_metrics_dir (euxis_home home : option str) : path :=
  match euxis_home with
  | Some h => path_append (path_append h (lit "data/runtime")) (lit "metrics")
  | None => path_append (path_append (path_append (default (lit "/tmp") home) (lit ".euxis")) (lit "data/runtime")) (lit "metrics")
  end.

(** A reading of the system clock is a number of nanoseconds. *)
Definition now_epoch (ns : Z) : double := d_div (d_of_Z ns) (d_of_Z (10 ^ 9)).

(** [%Y-%m-%dT%H:%M:%S+00:00] *)
Definition now_iso (ns : Z) : str :=
  let t := iso8601 (ns / 10 ^ 9) in take (length t - 1) t ++ lit "+00:00".

(** [metrics-%012lx] of the low 48 bits of a random word *)
Definition generate_correlation_id (val : Z) : str :=
  lit "metrics-" ++ ((fun i => hex_digit (Z.land (Z.shiftr (Z.land val 0xFFFFFFFFFFFF) (4 * (11 - Z.of_nat i))) 15)) <$> seq 0 12).

(** [static_cast<int>] of a [double], undefined out of range *)
Definition to_int (d : double) : option Z := z ← d_trunc d; if decide (int32 z) then Some z else None.

Record TaskStartContext : Type := mkStart {
  ts_task_type : str; ts_priority : str; task_complexity : option str; parent_session : option str;
}.
Record TaskCompletionContext : Type := mkCompletion {
  tc_status : str; artifacts_created : Z; cortex_operations : Z; tool_calls_count : Z; handoff_required : bool;
  delegation_count : Z;
}.
Record TaskFailureContext : Type := mkFailure {
  failure_reason : str; error_category : str; partial_completion : double; reflexion_generated_ : bool;
}.
Record DelegationContext : Type := mkDelegation {
  target_agent : str; total_duration_ms : Z; handoff_successful : bool; quality_score : option double;
}.
Record ToolExecutionContext : Type := mkToolExecution {
  execution_duration_ms : Z; success : bool; retries : Z; tx_correlation_id : option str;
}.
Record SessionData : Type := mkSession {
  sd_agent_id : str; start_time : double; sd_correlation_id : str; sd_task_type : str; sd_priority : str;
}.

Record Collector : Type := mkCollector {
  events_file : option str; sessions_file : option str; active_sessions : gmap str SessionData;
}.

(** ** The collector *)

(** An operation: its result, [None] after an exception, and the state. *)
Definition M (A : Type) : Type := Collector -> option A * Collector.
Definition ret {A} (a : A) : M A := fun c => (Some a, c).
Definition throw {A} : M A := fun c => (None, c).
Definition bind {A B} (m : M A) (f : A -> M B) : M B :=
  fun c => match m c with (Some a, c) => f a c | (None, c) => (None, c) end.
Definition lift {A} (o : option A) : M A := match o with Some a => ret a | None => throw end.
Notation "'do!' x <- m ; k" := (bind m (fun x => k)) (at level 200, x name, m at level 100, k at level 200) : euxis_scope.

Section collector.
Context `{JsonText}.

(** [f << text << '\n'] on a file opened for appending, if it opens *)
Definition append_line (opened : bool) (file : option str) (line : str) : option str :=
  if opened then Some (default [] file ++ line ++ [eol]) else file.

(** What an operation is given by the system: the readings of the clock, a
    random word, and whether the two files open. *)
Record World : Type := mkWorld { w_now : Z; w_random : Z; w_events : bool; w_sessions : bool }.

Definition emit_event (w : World) (event_type : str) (properties : jv) : M unit :=
  fun c =>
    let event := object [(lit "event_type", jstr event_type); (lit "timestamp", jstr (now_iso (w_now w)));
                         (lit "properties", properties)] in
    match json_dump event with
    | None => (None, c)
    | Some line =>
        (Some tt, mkCollector (append_line (w_events w) (events_file c) line) (sessions_file c) (active_sessions c))
    end.

Definition write_session (w : World) (summary : jv) : M unit :=
  fun c =>
    match json_dump summary with
    | None => (None, c)
    | Some line =>
        (Some tt, mkCollector (events_file c) (append_line (w_sessions w) (sessions_file c) line) (active_sessions c))
    end.

Definition insert_session (session_id : str) (s : SessionData) : M unit :=
  fun c => (Some tt, mkCollector (events_file c) (sessions_file c) (<[session_id := s]> (active_sessions c))).

(** Look up a session and erase it. *)
Definition take_session (session_id : str) : M (option SessionData) :=
  fun c =>
    match active_sessions c !! session_id with
    | None => (Some None, c)
    | Some s => (Some (Some s), mkCollector (events_file c) (sessions_file c) (delete session_id (active_sessions c)))
    end.

Definition duration_ms (w : World) (s : SessionData) : option Z :=
  to_int (d_mul (d_sub (now_epoch (w_now w)) (start_time s)) (d_of_Z 1000)).

Definition task_started (w : World) (agent_id session_id : str) (ctx : TaskStartContext) : M str :=
  let cid := generate_correlation_id (w_random w) in
  do! _ <- insert_session session_id (mkSession agent_id (now_epoch (w_now w)) cid (ts_task_type ctx) (ts_priority ctx));
  do! _ <- emit_event w (lit "Agent:TaskStarted")
    (object ([(lit "correlation_id", jstr cid); (lit "agent_id", jstr agent_id); (lit "session_id", jstr session_id);
              (lit "task_type", jstr (ts_task_type ctx)); (lit "priority", jstr (ts_priority ctx))]
             ++ opt_member "task_complexity" jstr (task_complexity ctx)
             ++ opt_member "parent_session" jstr (parent_session ctx)));
  ret cid.

Definition completed_props (s : SessionData) (session_id : str) (ms : Z) (ctx : TaskCompletionContext) : jv :=
  object [(lit "correlation_id", jstr (sd_correlation_id s)); (lit "agent_id", jstr (sd_agent_id s));
          (lit "session_id", jstr session_id); (lit "duration_ms", jint ms); (lit "status", jstr (tc_status ctx));
          (lit "artifacts_created", jint (artifacts_created ctx)); (lit "cortex_operations", jint (cortex_operations ctx));
          (lit "tool_calls_count", jint (tool_calls_count ctx)); (lit "handoff_required", jbool (handoff_required ctx));
          (lit "delegation_count", jint (delegation_count ctx))].

Definition session_summary (w : World) (s : SessionData) (session_id : str) (ms : Z) (status : str) : jv :=
  object [(lit "session_id", jstr session_id); (lit "agent_id", jstr (sd_agent_id s)); (lit "duration_ms", jint ms);
          (lit "status", jstr status); (lit "task_type", jstr (sd_task_type s)); (lit "priority", jstr (sd_priority s));
          (lit "completed_at", jstr (now_iso (w_now w)))].

Definition task_completed (w : World) (session_id : str) (ctx : TaskCompletionContext) : M unit :=
  do! found <- take_session session_id;
  match found with
  | None => ret tt
  | Some s =>
      do! ms <- lift (duration_ms w s);
      do! _ <- emit_event w (lit "Agent:TaskCompleted") (completed_props s session_id ms ctx);
      write_session w (session_summary w s session_id ms (tc_status ctx))
  end.

Definition task_failed (w : World) (session_id : str) (ctx : TaskFailureContext) : M unit :=
  do! found <- take_session session_id;
  match found with
  | None => ret tt
  | Some s =>
      do! ms <- lift (duration_ms w s);
      emit_event w (lit "Agent:TaskFailed")
        (object [(lit "correlation_id", jstr (sd_correlation_id s)); (lit "agent_id", jstr (sd_agent_id s));
                 (lit "session_id", jstr session_id); (lit "duration_ms", jint ms);
                 (lit "failure_reason", jstr (failure_reason ctx)); (lit "error_category", jstr (error_category ctx));
                 (lit "partial_completion", jdouble (partial_completion ctx));
                 (lit "reflexion_generated", jbool (reflexion_generated_ ctx))])
  end.

Definition delegation_started (w : World) (delegating_agent target_agent reason priority : str) : M str :=
  let cid := generate_correlation_id (w_random w) in
  do! _ <- emit_event w (lit "Agent:DelegationStarted")
    (object [(lit "correlation_id", jstr cid); (lit "delegating_agent", jstr delegating_agent);
             (lit "target_agent", jstr target_agent); (lit "delegation_reason", jstr reason); (lit "priority", jstr priority)]);
  ret cid.

Definition delegation_completed (w : World) (correlation_id delegating_agent : str) (ctx : DelegationContext) : M unit :=
  emit_event w (lit "Agent:DelegationCompleted")
    (object ([(lit "correlation_id", jstr correlation_id); (lit "delegating_agent", jstr delegating_agent);
              (lit "target_agent", jstr (target_agent ctx)); (lit "total_duration_ms", jint (total_duration_ms ctx));
              (lit "handoff_successful", jbool (handoff_successful ctx))]
             ++ opt_member "quality_score" jdouble (quality_score ctx))).

Definition tool_execution (w : World) (agent_id tool_name : str) (ctx : ToolExecutionContext) : M unit :=
  let cid := default (generate_correlation_id (w_random w)) (tx_correlation_id ctx) in
  emit_event w (lit "Agent:ToolExecution")
    (object ([(lit "correlation_id", jstr cid); (lit "agent_id", jstr agent_id); (lit "tool_name", jstr tool_name);
              (lit "execution_duration_ms", jint (execution_duration_ms ctx)); (lit "success", jbool (success ctx))]
             ++ when (0 <? retries ctx)%Z "retries" (jint (retries ctx)))).

(** The correlation id of a caller, or a fresh one *)
Definition correlation (w : World) (cid : str) : str :=
  if bool_decide (cid = []) then generate_correlation_id (w_random w) else cid.

Definition memory_operation (w : World) (agent_id operation memory_type : str) (ms : Z) (cid : str) : M unit :=
  emit_event w (lit "Agent:MemoryOperation")
    (object [(lit "correlation_id", jstr (correlation w cid)); (lit "agent_id", jstr agent_id);
             (lit "operation", jstr operation); (lit "memory_type", jstr memory_type);
             (lit "operation_duration_ms", jint ms)]).

Definition reflexion_generated (w : World) (agent_id failure_category : str) (stored : bool) (cid : str) : M unit :=
  emit_event w (lit "Agent:ReflexionGenerated")
    (object [(lit "correlation_id", jstr (correlation w cid)); (lit "agent_id", jstr agent_id);
             (lit "failure_category", jstr failure_category); (lit "contraindication_stored", jbool stored)]).

Fixpoint fail_all (w : World) (stale : list str) : M unit :=
  match stale with
  | [] => ret tt
  | sid :: stale =>
      do! _ <- task_failed w sid (mkFailure (lit "Session timeout") (lit "timeout") d_zero false);
      fail_all w stale
  end.

Definition is_stale (now : double) (timeout_seconds : Z) (s : SessionData) : bool :=
  d_lt (d_of_Z timeout_seconds) (d_sub now (start_time s)).

Definition stale_sessions (w : World) (timeout_seconds : Z) (active : gmap str SessionData) : list str :=
  fst <$> List.filter (fun kv => is_stale (now_epoch (w_now w)) timeout_seconds kv.2) (sorted_items active).

Definition cleanup_stale_sessions (w : World) (timeout_seconds : Z) : M Z :=
  fun c =>
    let stale := stale_sessions w timeout_seconds (active_sessions c) in
    (do! _ <- fail_all w stale; ret (Z.of_nat (length stale))) c.
End collector.

(** ** The analyzer *)

Definition mean (v : list double) : double :=
  match v with [] => d_zero | _ => d_div (foldl d_add d_zero v) (d_of_Z (Z.of_nat (length v))) end.

Definition median (v : list double) : option double :=
  match v with
  | [] => Some d_zero
  | _ =>
      let s := sort_doubles v in
      let n := length s in
      if (n mod 2 =? 0)%nat
      then a ← s !! (n / 2 - 1)%nat; b ← s !! (n / 2)%nat; Some (d_div (d_add a b) (d_of_Z 2))
      else s !! (n / 2)%nat
  end.

(** [None] is an index outside the vector. *)
Definition calculate_percentile (values : list double) (percentile : Z) : option double :=
  match values with
  | [] => Some d_zero
  | _ =>
      let s := sort_doubles values in
      let index := d_mul (d_div (d_of_Z percentile) (d_of_Z 100)) (d_of_Z (Z.of_nat (length s) - 1)) in
      lower ← d_floor index; upper ← d_ceil index;
      if decide (0 <= lower)%Z then
        a ← s !! Z.to_nat lower;
        if (lower =? upper)%Z then Some a
        else
          b ← s !! Z.to_nat upper;
          let weight := d_sub index (d_of_Z lower) in
          Some (d_add (d_mul a (d_sub (d_of_Z 1) weight)) (d_mul b weight))
      else None
  end.

(** The first smallest and the first largest element *)
Fixpoint min_element (m : double) (v : list double) : double :=
  match v with [] => m | x :: v => min_element (if d_lt x m then x else m) v end.
Fixpoint max_element (m : double) (v : list double) : double :=
  match v with [] => m | x :: v => max_element (if d_lt m x then x else m) v end.

Section analyzer.
Context `{JsonText}.

(** [load_events] and [load_sessions]: lines that do not parse are left out,
    and so is the argument [hours_back]. *)
Definition load_lines (file : option str) : list jv :=
  omap json_parse (text_lines file).

Definition ratio (a b : Z) : double := d_div (d_of_Z a) (d_of_Z b).

(** *** Agents *)

Record AgentMetrics : Type := mkAgent {
  am_total : Z; am_successful : Z; am_failed : Z; am_warning : Z; am_durations : list double;
}.
Definition no_agent : AgentMetrics := mkAgent 0 0 0 0 [].

(** What is read of one session; [None] is an exception of [value]. *)
Definition read_session (s : jv) : option (str * double * str) :=
  agent ← value get_string s "agent_id" (lit "unknown");
  duration ← value get_double s "duration_ms" d_zero;
  status ← value get_string s "status" [];
  Some (agent, duration, status).

Definition add_session (m : AgentMetrics) (duration : double) (status : str) : AgentMetrics :=
  let one (s : string) : Z := if bool_decide (status = lit s) then 1%Z else 0%Z in
  mkAgent (am_total m + 1) (am_successful m + one "SUCCESS") (am_failed m + one "FAILURE") (am_warning m + one "WARNING")
    (am_durations m ++ [duration]).

Fixpoint agent_loop (sessions : list jv) (agent_map : gmap str AgentMetrics) : option (gmap str AgentMetrics) :=
  match sessions with
  | [] => Some agent_map
  | s :: sessions =>
      r ← read_session s;
      let '(agent, duration, status) := r in
      agent_loop sessions (<[agent := add_session (default no_agent (agent_map !! agent)) duration status]> agent_map)
  end.

Definition agent_json (m : AgentMetrics) : option jv :=
  med ← median (am_durations m); p95 ← calculate_percentile (am_durations m) 95;
  p99 ← calculate_percentile (am_durations m) 99; d0 ← head (am_durations m);
  Some (object [(lit "total_tasks", jint (am_total m)); (lit "success_rate", jdouble (ratio (am_successful m) (am_total m)));
                (lit "failure_rate", jdouble (ratio (am_failed m) (am_total m)));
                (lit "avg_duration_ms", jdouble (mean (am_durations m))); (lit "median_duration_ms", jdouble med);
                (lit "p95_duration_ms", jdouble p95); (lit "p99_duration_ms", jdouble p99);
                (lit "min_duration_ms", jdouble (min_element d0 (am_durations m)));
                (lit "max_duration_ms", jdouble (max_element d0 (am_durations m)))]).

(** The object with a member for every entry of a map; null when it is empty. *)
Definition report_of {A} (f : A -> option jv) (m : gmap str A) : option jv :=
  entries ← mapM (fun kv => v ← f kv.2; Some (kv.1, v)) (map_to_list m);
  Some (match entries with [] => jnull | _ => object entries end).

Definition analyze_agent_performance (sessions_file : option str) : option jv :=
  match load_lines sessions_file with
  | [] => Some jnull
  | sessions => m ← agent_loop sessions ∅; report_of agent_json m
  end.

(** *** Delegations *)

Record PairData : Type := mkPair { pd_count : Z; pd_durations : list double; pd_success : Z; pd_total : Z }.

(** [e["properties"]] of a constant value without that member is undefined. *)
Definition event_is (event_type : string) (e : jv) : option bool :=
  t ← value get_string e "event_type" []; Some (bool_decide (t = lit event_type)).

Definition read_delegation (e : jv) : option (option (str * double * bool)) :=
  hit ← event_is "Agent:DelegationCompleted" e;
  if negb hit then Some None
  else
    props ← at_key e "properties";
    from ← value get_string props "delegating_agent" []; to ← value get_string props "target_agent" [];
    duration ← value get_double props "total_duration_ms" d_zero;
    ok ← value get_bool props "handoff_successful" true;
    Some (Some (from ++ lit "->" ++ to, duration, ok)).

Definition add_delegation (p : PairData) (duration : double) (ok : bool) : PairData :=
  mkPair (pd_count p + 1) (pd_durations p ++ [duration]) (if ok then pd_success p + 1 else pd_success p)%Z (pd_total p + 1).

Fixpoint delegation_loop (events : list jv) (pairs : gmap str PairData) : option (gmap str PairData) :=
  match events with
  | [] => Some pairs
  | e :: events =>
      r ← read_delegation e;
      match r with
      | None => delegation_loop events pairs
      | Some (key, duration, ok) =>
          delegation_loop events (<[key := add_delegation (default (mkPair 0 [] 0 0) (pairs !! key)) duration ok]> pairs)
      end
  end.

Definition pair_json (p : PairData) : option jv :=
  p95 ← calculate_percentile (pd_durations p) 95;
  Some (object [(lit "delegation_frequency", jint (pd_count p));
                (lit "handoff_success_rate", jdouble (ratio (pd_success p) (pd_total p)));
                (lit "avg_delegation_duration_ms", jdouble (mean (pd_durations p)));
                (lit "p95_delegation_duration_ms", jdouble p95)]).

Definition analyze_delegation_patterns (events_file : option str) : option jv :=
  match load_lines events_file with
  | [] => Some jnull
  | events => m ← delegation_loop events ∅; report_of pair_json m
  end.

(** *** Tools *)

Record ToolData : Type := mkTool { td_total : Z; td_successful : Z; td_durations : list double; td_retry : Z }.

Definition read_tool (e : jv) : option (option (str * double * bool * bool)) :=
  hit ← event_is "Agent:ToolExecution" e;
  if negb hit then Some None
  else
    props ← at_key e "properties";
    tool ← value get_string props "tool_name" (lit "unknown");
    duration ← value get_double props "execution_duration_ms" d_zero;
    ok ← value get_bool props "success" true; retries ← value get_int props "retries" 0%Z;
    Some (Some (tool, duration, ok, (0 <? retries)%Z)).

Definition add_execution (t : ToolData) (duration : double) (ok retried : bool) : ToolData :=
  mkTool (td_total t + 1) (if ok then td_successful t + 1 else td_successful t)%Z (td_durations t ++ [duration])
    (if retried then td_retry t + 1 else td_retry t)%Z.

Fixpoint tool_loop (events : list jv) (tools : gmap str ToolData) : option (gmap str ToolData) :=
  match events with
  | [] => Some tools
  | e :: events =>
      r ← read_tool e;
      match r with
      | None => tool_loop events tools
      | Some (tool, duration, ok, retried) =>
          tool_loop events (<[tool := add_execution (default (mkTool 0 0 [] 0) (tools !! tool)) duration ok retried]> tools)
      end
  end.

Definition tool_json (t : ToolData) : option jv :=
  p95 ← calculate_percentile (td_durations t) 95;
  Some (object [(lit "total_executions", jint (td_total t));
                (lit "success_rate", jdouble (ratio (td_successful t) (td_total t)));
                (lit "avg_duration_ms", jdouble (mean (td_durations t))); (lit "p95_duration_ms", jdouble p95);
                (lit "retry_frequency", jdouble (ratio (td_retry t) (td_total t)))]).

Definition analyze_tool_usage_patterns (events_file : option str) : option jv :=
  match load_lines events_file with
  | [] => Some jnull
  | events => m ← tool_loop events ∅; report_of tool_json m
  end.

(** *** The report and the rankings *)

Record FleetTotals : Type := mkFleet {
  ft_tasks : Z; ft_successful : double; ft_active : str; ft_most : Z; ft_fastest : str; ft_lowest : double;
}.

Definition fleet_step (t : FleetTotals) (agent : str) (metrics : jv) : option FleetTotals :=
  tasks ← value get_int metrics "total_tasks" 0%Z;
  rate ← value get_double metrics "success_rate" d_zero;
  avg ← value get_double metrics "avg_duration_ms" (d_of_Z (10 ^ 18));
  Some (mkFleet (ft_tasks t + tasks) (d_add (ft_successful t) (d_mul (d_of_Z tasks) rate))
          (if (ft_most t <? tasks)%Z then agent else ft_active t) (if (ft_most t <? tasks)%Z then tasks else ft_most t)
          (if d_lt avg (ft_lowest t) then agent else ft_fastest t) (if d_lt avg (ft_lowest t) then avg else ft_lowest t)).

Fixpoint fleet_loop (entries : list (str * jv)) (t : FleetTotals) : option FleetTotals :=
  match entries with [] => Some t | (agent, m) :: entries => t ← fleet_step t agent m; fleet_loop entries t end.

Definition fleet_metrics (agents : gmap str jv) : option jv :=
  t ← fleet_loop (sorted_items agents) (mkFleet 0 d_zero [] 0 [] (d_of_Z (10 ^ 18)));
  Some (object [(lit "total_tasks", jint (ft_tasks t));
                (lit "fleet_success_rate", jdouble (if (0 <? ft_tasks t)%Z then d_div (ft_successful t) (d_of_Z (ft_tasks t)) else d_zero));
                (lit "active_agents", jint (Z.of_nat (size agents))); (lit "most_active_agent", jstr (ft_active t));
                (lit "fastest_agent", jstr (ft_fastest t))]).

Definition generate_performance_report (now hours_back : Z) (events_file sessions_file : option str) : option jv :=
  agent_perf ← analyze_agent_performance sessions_file;
  delegations ← analyze_delegation_patterns events_file;
  tools ← analyze_tool_usage_patterns events_file;
  let report := [(lit "report_timestamp", jstr (now_iso now)); (lit "analysis_period_hours", jint hours_back);
                 (lit "agent_performance", agent_perf); (lit "delegation_patterns", delegations);
                 (lit "tool_usage_patterns", tools)] in
  match members agent_perf with
  | None => Some (object report)
  | Some agents => f ← fleet_metrics agents; Some (object (report ++ [(lit "fleet_metrics", f)]))
  end.

(** [sort] orders by the second part, descending; equal values in any order. *)
Definition get_agent_rankings (sort : list (str * double) -> list (str * double)) (sessions_file : option str) (metric : str) :
    option (list (str * double)) :=
  perf ← analyze_agent_performance sessions_file;
  match members perf with
  | None => Some []
  | Some agents =>
      rankings ← mapM (fun kv => v ← snd kv; d ← get_double v; Some (kv.1, d))
        (List.filter (fun kv => match kv.2 with Some _ => true | None => false end)
           ((fun kv => (kv.1, m ← members kv.2; m !! metric)) <$> sorted_items agents));
      Some (sort rankings)
  end.
End analyzer.

(** ** Properties *)

Abbreviation Row := (str * double * str)%type.

Section analysis.
Context `{JsonText}.

Definition mine (agent : str) (rows : list Row) : list Row := List.filter (fun r => bool_decide (r.1.1 = agent)) rows.
Definition count (status : string) (rows : list Row) : Z :=
  Z.of_nat (length (List.filter (fun r => bool_decide (r.2 = lit status)) rows)).

(** The statistics of a list of sessions *)
Definition stats (rows : list Row) : AgentMetrics :=
  mkAgent (Z.of_nat (length rows)) (count "SUCCESS" rows) (count "FAILURE" rows) (count "WARNING" rows)
    ((fun r => r.1.2) <$> rows).

Definition agents_of (rows : list Row) : gset str := list_to_set ((fun r => r.1.1) <$> rows).
Definition by_agent (rows : list Row) : gmap str AgentMetrics :=
  set_to_map (fun a => (a, stats (mine a rows))) (agents_of rows).

Lemma lookup_by_agent rows a :
  by_agent rows !! a = if decide (a ∈ agents_of rows) then Some (stats (mine a rows)) else None.
Proof.
  unfold by_agent. apply option_eq. intros m. rewrite lookup_set_to_map by naive_solver. destruct (decide _); naive_solver.
Qed.

Lemma mine_snoc a rows r : mine a (rows ++ [r]) = mine a rows ++ (if bool_decide (r.1.1 = a) then [r] else []).
Proof. unfold mine. rewrite List.filter_app. cbn. by case_bool_decide. Qed.

Lemma count_snoc s rows r : count s (rows ++ [r]) = (count s rows + (if bool_decide (r.2 = lit s) then 1 else 0))%Z.
Proof. unfold count. rewrite List.filter_app, length_app. cbn. case_bool_decide; cbn; lia. Qed.

Lemma stats_snoc rows r : stats (rows ++ [r]) = add_session (stats rows) r.1.2 r.2.
Proof.
  unfold stats, add_session. cbn [am_total am_successful am_failed am_warning am_durations].
  rewrite !count_snoc, length_app, fmap_app. cbn [length fmap list_fmap]. f_equal. lia.
Qed.

Lemma agents_snoc rows r : agents_of (rows ++ [r]) = agents_of rows ∪ {[r.1.1]}.
Proof. unfold agents_of. rewrite fmap_app, list_to_set_app_L. cbn. set_solver. Qed.

Lemma mine_none a rows : a ∉ agents_of rows -> mine a rows = [].
Proof.
  unfold agents_of. rewrite elem_of_list_to_set, list_elem_of_fmap. intros Hno. unfold mine.
  induction rows as [|r rows IH]; [done|]. cbn [List.filter]. case_bool_decide as E.
  - exfalso. apply Hno. exists r. split; [done|]. by apply elem_of_cons; left.
  - apply IH. intros (x & Hx & Hin). apply Hno. exists x. split; [done|]. by apply elem_of_cons; right.
Qed.

Lemma by_agent_snoc rows r :
  by_agent (rows ++ [r]) =
  <[r.1.1 := add_session (default no_agent (by_agent rows !! r.1.1)) r.1.2 r.2]> (by_agent rows).
Proof.
  apply map_eq. intros a. rewrite lookup_by_agent, agents_snoc. destruct (decide (a = r.1.1)) as [->|Hne].
  - rewrite lookup_insert_eq, decide_True by set_solver. rewrite mine_snoc, bool_decide_true, stats_snoc by done.
    do 2 f_equal. rewrite lookup_by_agent. destruct (decide _) as [|Hno]; [done|]. by rewrite mine_none.
  - rewrite lookup_insert_ne, lookup_by_agent by done. rewrite mine_snoc, bool_decide_false, app_nil_r by congruence.
    destruct (decide (a ∈ agents_of rows)), (decide (a ∈ agents_of rows ∪ {[r.1.1]})); set_solver.
Qed.

Lemma agent_loop_spec sessions : forall rows,
  agent_loop sessions (by_agent rows) = (rs ← mapM read_session sessions; Some (by_agent (rows ++ rs))).
Proof.
  induction sessions as [|s sessions IH]; intros rows; [cbn; by rewrite app_nil_r|]. cbn [agent_loop mapM].
  destruct (read_session s) as [[[a d] st]|]; [|done]. cbn [mbind option_bind].
  pose proof (by_agent_snoc rows (a, d, st)) as E. cbn [fst snd] in E. rewrite <- E, IH.
  destruct (mapM read_session sessions) as [rs|]; [|done]. cbn [mbind option_bind mret option_ret]. by rewrite <- app_assoc.
Qed.

(** The report on agents is the reference one: every agent that has a session
    gets the statistics of exactly its own sessions, in their order. *)
Theorem agent_analysis_exact file :
  analyze_agent_performance file =
  match load_lines file with
  | [] => Some jnull
  | sessions => rows ← mapM read_session sessions; report_of agent_json (by_agent rows)
  end.
Proof.
  unfold analyze_agent_performance. destruct (load_lines file) as [|s sessions]; [done|].
  change (∅ : gmap str AgentMetrics) with (by_agent []). rewrite agent_loop_spec. by destruct (mapM read_session _).
Qed.
End analysis.

(** *** From the collector to the report *)

Inductive MetricsOp : Type :=
| TaskStarted (w : World) (agent_id session_id : str) (ctx : TaskStartContext)
| TaskCompleted (w : World) (session_id : str) (ctx : TaskCompletionContext)
| TaskFailed (w : World) (session_id : str) (ctx : TaskFailureContext)
| DelegationStarted (w : World) (delegating_agent target_agent reason priority : str)
| DelegationCompleted (w : World) (correlation_id delegating_agent : str) (ctx : DelegationContext)
| ToolExecution (w : World) (agent_id tool_name : str) (ctx : ToolExecutionContext)
| MemoryOperation (w : World) (agent_id operation memory_type : str) (ms : Z) (cid : str)
| ReflexionGenerated (w : World) (agent_id failure_category : str) (stored : bool) (cid : str)
| Cleanup (w : World) (timeout_seconds : Z).

(** The sessions an operation leaves active, and the session it completes:
    failures and time-outs only end one. *)
Definition finish (active : gmap str SessionData) (op : MetricsOp) : gmap str SessionData * list Row :=
  match op with
  | TaskStarted w agent sid ctx =>
      (<[sid := mkSession agent (now_epoch (w_now w)) (generate_correlation_id (w_random w)) (ts_task_type ctx)
                  (ts_priority ctx)]> active, [])
  | TaskCompleted w sid ctx =>
      (delete sid active,
       match s ← active !! sid; ms ← duration_ms w s; Some (sd_agent_id s, d_of_Z ms, tc_status ctx) with
       | Some r => [r] | None => [] end)
  | TaskFailed w sid ctx => (delete sid active, [])
  | Cleanup w timeout => (filter (fun kv => is_stale (now_epoch (w_now w)) timeout kv.2 = false) active, [])
  | _ => (active, [])
  end.

Fixpoint completions (active : gmap str SessionData) (ops : list MetricsOp) : list Row :=
  match ops with [] => [] | op :: ops => (finish active op).2 ++ completions (finish active op).1 ops end.

(** Every session file this operation writes to opens. *)
Definition sessions_open (op : MetricsOp) : Prop :=
  match op with TaskCompleted w _ _ => w_sessions w = true | _ => True end.

Section pipeline.
Context `{JsonTextOk} `{!JsonOk}.

Definition perform (op : MetricsOp) : M unit :=
  match op with
  | TaskStarted w agent sid ctx => do! _ <- task_started w agent sid ctx; ret tt
  | TaskCompleted w sid ctx => task_completed w sid ctx
  | TaskFailed w sid ctx => task_failed w sid ctx
  | DelegationStarted w a t r p => do! _ <- delegation_started w a t r p; ret tt
  | DelegationCompleted w cid a ctx => delegation_completed w cid a ctx
  | ToolExecution w a t ctx => tool_execution w a t ctx
  | MemoryOperation w a o t ms cid => memory_operation w a o t ms cid
  | ReflexionGenerated w a f b cid => reflexion_generated w a f b cid
  | Cleanup w timeout => do! _ <- cleanup_stale_sessions w timeout; ret tt
  end.

Fixpoint run_ops (ops : list MetricsOp) : M unit :=
  match ops with [] => ret tt | op :: ops => do! _ <- perform op; run_ops ops end.

Lemma bind_Some {A B} (m : M A) (f : A -> M B) c b c' :
  bind m f c = (Some b, c') -> exists a c1, m c = (Some a, c1) /\ f a c1 = (Some b, c').
Proof. unfold bind. destruct (m c) as [[a|] c1]; [|done]. eauto. Qed.

(** An event changes the event file only. *)
Lemma emit_event_frame w t p c u c' : emit_event w t p c = (Some u, c') ->
  sessions_file c' = sessions_file c /\ active_sessions c' = active_sessions c.
Proof. unfold emit_event. destruct (json_dump _); [|done]. by intros [= <- <-]. Qed.

Lemma take_session_frame sid c s c' : take_session sid c = (Some s, c') ->
  s = active_sessions c !! sid /\ sessions_file c' = sessions_file c /\ active_sessions c' = delete sid (active_sessions c).
Proof.
  unfold take_session. destruct (active_sessions c !! sid) eqn:E; intros [= <- <-]; cbn; [done|].
  rewrite delete_id by done. done.
Qed.

Lemma task_failed_frame w sid ctx c u c' : task_failed w sid ctx c = (Some u, c') ->
  sessions_file c' = sessions_file c /\ active_sessions c' = delete sid (active_sessions c).
Proof.
  unfold task_failed. intros (s & c1 & (Hs & Hf & Ha)%take_session_frame & Hk)%bind_Some.
  destruct s as [s|]; [|by injection Hk as _ <-]. apply bind_Some in Hk as (ms & c2 & Hms & He).
  destruct (duration_ms w s); [|done]. injection Hms as <- <-. apply emit_event_frame in He as [-> ->]. done.
Qed.

Lemma fail_all_frame w stale : forall c u c', fail_all w stale c = (Some u, c') ->
  sessions_file c' = sessions_file c /\
  forall k, active_sessions c' !! k = if decide (k ∈ stale) then None else active_sessions c !! k.
Proof.
  induction stale as [|sid stale IH]; intros c u c'.
  - intros [= <- <-]. split; [done|]. intros k. rewrite decide_False; [done|apply not_elem_of_nil].
  - intros (v & c1 & [Hf Ha]%task_failed_frame & Hk)%bind_Some. destruct (IH _ _ _ Hk) as [Hf' Ha'].
    split; [congruence|]. intros k. rewrite Ha', Ha. destruct (decide (k = sid)) as [->|Hne].
    + rewrite lookup_delete_eq. rewrite (decide_True (P := sid ∈ sid :: stale)) by (by apply elem_of_cons; left).
      by destruct (decide _).
    + rewrite lookup_delete_ne by done. apply decide_ext. rewrite elem_of_cons. naive_solver.
Qed.

Lemma elem_of_stale w timeout active k :
  k ∈ stale_sessions w timeout active <-> exists s, active !! k = Some s /\ is_stale (now_epoch (w_now w)) timeout s = true.
Proof.
  unfold stale_sessions. rewrite list_elem_of_fmap. split.
  - intros ([k' s] & -> & Hin%list_elem_of_In%filter_In). destruct Hin as [Hin%list_elem_of_In Hs].
    apply elem_of_sorted_items in Hin. eauto.
  - intros (s & Hk & Hs). exists (k, s). split; [done|]. apply list_elem_of_In, filter_In. split; [|done].
    by apply list_elem_of_In, elem_of_sorted_items.
Qed.

Lemma cleanup_frame w timeout c n c' : cleanup_stale_sessions w timeout c = (Some n, c') ->
  sessions_file c' = sessions_file c /\
  active_sessions c' = filter (fun kv => is_stale (now_epoch (w_now w)) timeout kv.2 = false) (active_sessions c).
Proof.
  unfold cleanup_stale_sessions. intros (u & c1 & [Hf Ha]%fail_all_frame & [= _ <-])%bind_Some. split; [done|].
  apply map_eq. intros k. rewrite Ha. apply option_eq. intros s. rewrite map_lookup_filter_Some. cbn [snd].
  destruct (decide _) as [(s' & Hk & Hst)%elem_of_stale|Hno].
  - split; [done|]. intros [Hk' Hns]. congruence.
  - split; [|by intros [? _]]. intros Hk. split; [done|]. apply not_true_iff_false. intros Hst. apply Hno.
    apply elem_of_stale. eauto.
Qed.

Lemma duration_range w s ms : duration_ms w s = Some ms -> int32 ms.
Proof.
  unfold duration_ms, to_int. destruct (d_trunc _) as [z|]; [|done]. cbn [mbind option_bind].
  destruct (decide (int32 z)); [|done]. by intros [= <-].
Qed.

(** The analyzer reads from a summary the agent, the duration and the status. *)
Lemma read_summary w s sid ms status : int32 ms ->
  read_session (session_summary w s sid ms status) = Some (sd_agent_id s, d_of_Z ms, status).
Proof.
  intros Hms. unfold read_session, session_summary. rewrite !(value_object _ _ "agent_id"), !(value_object _ _ "duration_ms"),
    !(value_object _ _ "status"), !lookup_assoc.
  cbn [assoc key_eqb fst snd lit list_ascii_of_string Ascii.eqb Bool.eqb andb].
  rewrite !get_string_str, get_double_int by done. done.
Qed.

(** The line an operation adds, if it completes a session *)
Definition line_of (r : Row) (line : str) : Prop := exists j, json_exact j /\ json_dump j = Some line /\ read_session j = Some r.

Lemma perform_spec op c u c' : perform op c = (Some u, c') -> sessions_open op ->
  active_sessions c' = (finish (active_sessions c) op).1 /\
  exists lines, default [] (sessions_file c') = default [] (sessions_file c) ++ flat_map (fun l => l ++ [eol]) lines /\
    Forall2 line_of (finish (active_sessions c) op).2 lines.
Proof.
  assert (forall (f f' : option str), f' = f -> exists lines, default [] f' = default [] f ++ flat_map (fun l => l ++ [eol]) lines /\
    Forall2 line_of [] lines) as Hsame.
  { intros f f' ->. exists []. cbn. by rewrite app_nil_r. }
  destruct op; cbn [perform finish fst snd sessions_open]; intros Hop Hopen;
    try (apply emit_event_frame in Hop as [Hf ->]; auto).
  - unfold task_started in Hop. apply bind_Some in Hop as (cid & c1 & Hs & [= _ <-]).
    apply bind_Some in Hs as (? & c2 & [= _ <-] & Hs). apply bind_Some in Hs as (? & c3 & [Hf Ha]%emit_event_frame & [= _ <-]).
    cbn in Hf, Ha. rewrite Ha. auto.
  - unfold task_completed in Hop. apply bind_Some in Hop as (s & c1 & (-> & Hf & Ha)%take_session_frame & Hk).
    destruct (active_sessions c !! session_id) as [s|] eqn:E; [|injection Hk as _ <-; cbn; auto].
    apply bind_Some in Hk as (ms & c2 & Hms & Hk). destruct (duration_ms w s) as [ms'|] eqn:Ed; [|done].
    injection Hms as <- <-. apply bind_Some in Hk as (v & c3 & [Hf3 Ha3]%emit_event_frame & Hw).
    unfold write_session in Hw. destruct (json_dump _) as [line|] eqn:El; [|done]. injection Hw as _ <-.
    cbn [active_sessions sessions_file]. rewrite Ha3, Ha, Hf3, Hf, Hopen. split; [done|]. exists [line].
    split; [cbn; by rewrite app_nil_r|]. cbn. rewrite Ed. cbn. constructor; [|constructor].
    pose proof (duration_range _ _ _ Ed) as Hms. eexists. split; [|split; [exact El|by apply read_summary]].
    unfold session_summary. exact_json.
  - apply task_failed_frame in Hop as [Hf ->]. auto.
  - unfold delegation_started in Hop. apply bind_Some in Hop as (cid & c1 & Hs & [= _ <-]).
    apply bind_Some in Hs as (v & c2 & [Hf Ha]%emit_event_frame & [= _ <-]). auto.
  - apply bind_Some in Hop as (n & c1 & [Hf Ha]%cleanup_frame & [= _ <-]). auto.
Qed.

Lemma run_ops_spec ops : forall c u c', run_ops ops c = (Some u, c') -> Forall sessions_open ops ->
  exists lines, default [] (sessions_file c') = default [] (sessions_file c) ++ flat_map (fun l => l ++ [eol]) lines /\
    Forall2 line_of (completions (active_sessions c) ops) lines.
Proof.
  induction ops as [|op ops IH]; intros c u c'.
  - intros [= _ <-] _. exists []. cbn. by rewrite app_nil_r.
  - intros (v & c1 & Hop & Hrun)%bind_Some [Hopen Hopens]%Forall_cons.
    destruct (perform_spec op c v c1 Hop Hopen) as (Ha & l1 & Hf1 & Hl1).
    destruct (IH c1 u c' Hrun Hopens) as (l2 & Hf2 & Hl2). exists (l1 ++ l2). cbn [completions]. rewrite <- Ha. split.
    + by rewrite Hf2, Hf1, flat_map_app, app_assoc.
    + by apply Forall2_app.
Qed.

Lemma load_lines_of file lines rows : default [] file = flat_map (fun l => l ++ [eol]) lines ->
  Forall2 line_of rows lines ->
  (load_lines file = [] <-> rows = []) /\ mapM read_session (load_lines file) = Some rows.
Proof.
  intros Hd Hl. unfold load_lines. rewrite (text_lines_render file lines); [| |done].
  2:{ apply Forall_forall. intros l (i & Hi)%list_elem_of_lookup.
      destruct (Forall2_lookup_r _ _ _ _ _ Hl Hi) as (r & _ & j & _ & Hj & _). by eapply dump_one_line. }
  clear Hd. induction Hl as [|r l rows lines (j & Hex & Hj & Hr) Hl IH]; [done|]. destruct IH as [_ IH].
  assert (omap json_parse (l :: lines) = j :: omap json_parse lines) as ->.
  { cbn. by rewrite (parse_dump _ _ Hex Hj). }
  split; [done|]. cbn [mapM]. by rewrite Hr, IH.
Qed.

(** What the analyzer reports on agents after any history of a new collector:
    the statistics of the completed sessions, each under the agent that
    started it.  Sessions that failed or timed out count nowhere. *)
Lemma collected_sessions_analyzed ops c :
  run_ops ops (mkCollector None None ∅) = (Some tt, c) -> Forall sessions_open ops ->
  analyze_agent_performance (sessions_file c) =
  match completions ∅ ops with [] => Some jnull | rows => report_of agent_json (by_agent rows) end.
Proof.
  intros Hrun Hopen. destruct (run_ops_spec ops _ _ _ Hrun Hopen) as (lines & Hf & Hl). cbn [sessions_file active_sessions] in *.
  destruct (load_lines_of _ _ _ Hf Hl) as [Hnil Hread]. unfold analyze_agent_performance.
  destruct (load_lines (sessions_file c)) as [|s ss] eqn:El.
  - by rewrite (proj1 Hnil eq_refl).
  - pose proof (agent_loop_spec (s :: ss) []) as E. change (by_agent []) with (∅ : gmap str AgentMetrics) in E.
    rewrite E, Hread. cbn [mbind option_bind app].
    destruct (completions ∅ ops); [|done]. by rewrite (proj2 Hnil) in El.
Qed.

(** A history in which every task fails leaves no report at all. *)
Lemma failures_never_counted w agent sid start fail c :
  run_ops [TaskStarted w agent sid start; TaskFailed w sid fail] (mkCollector None None ∅) = (Some tt, c) ->
  analyze_agent_performance (sessions_file c) = Some jnull.
Proof.
  intros Hrun. destruct (run_ops_spec _ _ _ _ Hrun) as (lines & Hf & Hl); [by repeat constructor|].
  destruct (load_lines_of _ _ _ Hf Hl) as [Hnil _]. unfold analyze_agent_performance. by rewrite (proj2 Hnil).
Qed.

(** The status a completed task has by default is not the one the analyzer
    counts as a success. *)
Lemma default_status_not_success rows : (forall r, r ∈ rows -> r.2 = lit "success") -> count "SUCCESS" rows = 0%Z.
Proof.
  intros Hr. unfold count. assert (List.filter (fun r : Row => bool_decide (r.2 = lit "SUCCESS")) rows = []) as ->; [|done].
  induction rows as [|r rows IH]; [done|]. cbn [List.filter]. rewrite bool_decide_false.
  - apply IH. intros x Hx. apply Hr. by apply elem_of_cons; right.
  - rewrite Hr by (by apply elem_of_cons; left). apply (bool_decide_unpack _). by vm_compute.
Qed.
End pipeline.

Section rankings.
Context `{JsonOk} `{!JsonText}.

Lemma report_members {A} (f : A -> option jv) m perf agents a v :
  report_of f m = Some perf -> members perf = Some agents -> agents !! a = Some v -> exists x, f x = Some v.
Proof.
  unfold report_of. destruct (mapM _ (map_to_list m)) as [entries|] eqn:E; [|done]. cbn [mbind option_bind].
  intros [= <-]. destruct entries as [|kv entries]; [by rewrite members_null|]. unfold object. rewrite members_obj.
  intros [= <-] Hin. apply (elem_of_list_to_map_2 (kv :: entries)) in Hin. apply mapM_Some in E.
  apply list_elem_of_lookup in Hin as (i & Hi). destruct (Forall2_lookup_r _ _ _ _ _ E Hi) as ([k x] & _ & Hx).
  cbn [fst snd] in Hx. destruct (f x) as [y|] eqn:Ef; [|done]. injection Hx as _ <-. eauto.
Qed.

Lemma no_quality_score x v : agent_json x = Some v -> (m ← members v; m !! lit "quality_score") = None.
Proof.
  unfold agent_json. destruct (median _); [|done]. destruct (calculate_percentile _ 95); [|done].
  destruct (calculate_percentile _ 99); [|done]. destruct (head _); [|done]. cbn [mbind option_bind]. intros [= <-].
  unfold object. rewrite members_obj. cbn [mbind option_bind]. rewrite lookup_assoc.
  by cbn [assoc key_eqb fst snd lit list_ascii_of_string Ascii.eqb Bool.eqb andb].
Qed.

(** The ranking by the default metric lists nobody: no report has it. *)
Lemma default_ranking_empty sort file perf : sort [] = [] -> analyze_agent_performance file = Some perf ->
  get_agent_rankings sort file (lit "quality_score") = Some [].
Proof.
  intros Hs Hp. unfold get_agent_rankings. rewrite Hp. cbn [mbind option_bind].
  destruct (members perf) as [agents|] eqn:Em; [|done].
  assert (List.filter (fun kv : str * option jv => match kv.2 with Some _ => true | None => false end)
    ((fun kv => (kv.1, m ← members kv.2; m !! lit "quality_score")) <$> sorted_items agents) = []) as ->; [|cbn; by rewrite Hs].
  assert (forall kv, kv ∈ sorted_items agents -> (m ← members kv.2; m !! lit "quality_score") = None) as Hno.
  { intros [k v] Hin%elem_of_sorted_items. cbn [snd]. rewrite agent_analysis_exact in Hp.
    destruct (load_lines file) as [|s ss]; [injection Hp as <-; by rewrite members_null in Em|].
    destruct (mapM read_session (s :: ss)) as [rows|]; [|done]. cbn [mbind option_bind] in Hp.
    destruct (report_members _ _ _ _ _ _ Hp Em Hin) as [x Hx]. by eapply no_quality_score. }
  induction (sorted_items agents) as [|kv l IH]; [done|]. cbn [fmap list_fmap List.filter snd].
  rewrite Hno by (by apply elem_of_cons; left). apply IH. intros x Hx. apply Hno. by apply elem_of_cons; right.
Qed.
End rankings.

(** ** Examples and witness *)

Lemma percentile_examples :
  let v := d_of_Z <$> [30; 10; 20]%Z in
  median v = Some (d_of_Z 20) /\ calculate_percentile v 95 = Some (d_lit 29 1) /\ calculate_percentile v 100 = Some (d_of_Z 30).
Proof. by vm_compute. Qed.

Definition sample_world : World := mkWorld (10 ^ 9) 7 true true.
Definition sample_history : list MetricsOp :=
  [TaskStarted sample_world (lit "scout") (lit "s1") (mkStart (lit "general") (lit "medium") None None);
   TaskStarted sample_world (lit "scout") (lit "s2") (mkStart (lit "general") (lit "medium") None None);
   TaskFailed sample_world (lit "s2") (mkFailure (lit "x") (lit "y") d_zero false);
   TaskCompleted sample_world (lit "s1") (mkCompletion (lit "SUCCESS") 0 0 0 false 0)].

Lemma collected_sessions_analyzed_witness :
  exists c, @run_ops TreeJson.json TreeJson.text sample_history (mkCollector None None ∅) = (Some tt, c) /\
    @analyze_agent_performance TreeJson.json TreeJson.text (sessions_file c) =
    report_of (@agent_json TreeJson.json) (by_agent [(lit "scout", d_of_Z 0, lit "SUCCESS")]).
Proof.
  eexists. split; [reflexivity|].
  apply (@collected_sessions_analyzed TreeJson.json TreeJson.text TreeJson.text_ok TreeJson.tree_json_ok sample_history);
    [reflexivity|by repeat constructor].
Defined.
