(* ===== verification/ReportCheck.v ===== *)
(** * Validation of reports: [libs/metrics/src/validation_pipeline.cpp]

    Quantitative claims are found by six regular expressions, each claim needs a
    citation near it, and some words are forbidden.  The patterns are the
    sources' own text, matched without regard to case. *)

From Stdlib Require Import ZArith Ascii String Lia.
From stdpp Require Import base list strings.
From S2P Require Import Prelude CxxString Regex Doubles Numbers.

(** [std::regex::icase] *)
Fixpoint icase (r : re) : re :=
  match r with
  | RSet f => RSet (fun c => f c || f (tolower c) || f (toupper c))
  | RSeq a b => RSeq (icase a) (icase b)
  | RAlt a b => RAlt (icase a) (icase b)
  | RStar a => RStar (icase a)
  | r => r
  end.

(** A match: the position where it starts and its text *)
Definition first_match (r : re) (p : option ascii) (s : str) : option (nat * str * str) :=
  match search_from r p s with
  | Some (pre, rest) => Some (length pre, take (length s - length pre - length rest) (drop (length pre) s), rest)
  | None => None
  end.

(** [std::sregex_iterator] for an expression whose matches are not empty: each
    search goes on behind the last match, which it can look back at. *)
Fixpoint all_matches (fuel : nat) (r : re) (p : option ascii) (pos : nat) (s : str) : list (nat * str) :=
  match fuel with
  | O => []
  | S fuel =>
      match first_match r p s with
      | Some (n, m, rest) =>
          (pos + n, m)%nat :: all_matches fuel r (after p (take (length s - length rest) s)) (pos + n + length m)%nat rest
      | None => []
      end
  end.

Definition quantitative_patterns : list string :=
  ["\b\d+\.?\d*%";
   "\b\d+\.?\d*\s*(?:ms|milliseconds?|seconds?|minutes?|hours?)\b";
   "\b\d+\.?\d*\s*(?:MB|GB|KB|bytes?)\b";
   "\b\d+\.?\d*x\s+(?:faster|slower|more|less|better|worse)\b";
   "\b(?:average|median|mean|max|min|total|sum)\s*[:\-]?\s*\d+\.?\d*\b";
   "\b(?:success|failure|error)\s+rate\s*[:\-]?\s*\d+\.?\d*%?\b"]%string.
Definition citation_patterns : list string :=
  ["\[E[1-4]: .+\]"; "(?:Observed|Measured|Verified|Inferred) (?:at|in|by) .+"]%string.
Definition forbidden_terms : list str :=
  lit <$> ["approximately"; "roughly"; "around"; "seems"; "appears"; "likely"; "probably"; "I think"; "maybe"; "perhaps"]%string.

Record ExtractedClaim : Type := mkClaim {
  matched_text : str; position_start : Z; position_end : Z; context : str; value : option double; unit_ : option str;
}.
Record CitationCheckResult : Type := mkCitations {
  cc_total : Z; cited_claims : Z; uncited_claims : list str; forbidden_terms_found : list str;
}.
Record ValidationResult : Type := mkValidation {
  passed : bool; total_claims : Z; verified_claims : Z; pass_rate : double; citation_check : CitationCheckResult;
  issues : list str;
}.

(** [None] is the exception of [stod] for a number out of range. *)
Definition make_claim (text : str) (pos : nat) (m : str) : option ExtractedClaim :=
  let start := Z.of_nat pos in
  let stop := (start + Z.of_nat (length m))%Z in
  let ctx_start := Z.max 0 (start - 100) in
  let ctx_end := Z.min (Z.of_nat (length text)) (stop + 100) in
  v ← match first_match (regex "\d+\.?\d*") None m with
      | Some (_, num, _) => d ← stod num; Some (Some d)
      | None => Some None
      end;
  let u := match first_match (regex "[a-zA-Z%]+") None m with Some (_, w, _) => Some w | None => None end in
  Some (mkClaim m start stop (substr text (Z.to_nat ctx_start) (Z.to_nat (ctx_end - ctx_start))) v u).

Definition claims_of (text : str) (pattern : string) : option (list ExtractedClaim) :=
  mapM (fun pm => make_claim text pm.1 pm.2) (all_matches (S (length text)) (icase (regex pattern)) None 0 text).

Definition extract_quantitative_claims (text : str) : option (list ExtractedClaim) :=
  css ← mapM (claims_of text) quantitative_patterns; Some (List.concat css).

Definition is_cited (c : ExtractedClaim) : bool :=
  existsb (fun pattern => regex_search (icase (regex pattern)) (context c)) citation_patterns.

Definition check_forbidden_terms (text : str) : list str :=
  List.filter (fun term => contains_sub (lower term) (lower text)) forbidden_terms.

Definition check_citations (text : str) (claims : list ExtractedClaim) : CitationCheckResult :=
  mkCitations (Z.of_nat (length claims)) (Z.of_nat (length (List.filter is_cited claims)))
    (matched_text <$> List.filter (fun c => negb (is_cited c)) claims) (check_forbidden_terms text).

Definition validate_report (pass_threshold : double) (text : str) : option ValidationResult :=
  claims ← extract_quantitative_claims text;
  let total := Z.of_nat (length claims) in
  let check := check_citations text claims in
  let rate := if (0 <? total)%Z then d_div (d_of_Z (cited_claims check)) (d_of_Z total) else d_zero in
  Some (mkValidation
          (d_le pass_threshold rate && match forbidden_terms_found check with [] => true | _ => false end)
          total (cited_claims check) rate check
          (((fun t => lit "Forbidden term: " ++ t) <$> forbidden_terms_found check)
             ++ ((fun t => lit "Uncited claim: " ++ t) <$> uncited_claims check))).

(** ** Properties *)

Lemma first_match_Some r p s n m rest : first_match r p s = Some (n, m, rest) ->
  exists pre, s = pre ++ m ++ rest /\ length pre = n /\ Matches r (after p pre) m rest /\
    forall a b, s = a ++ b -> (length a < n)%nat -> ~ starts r (after p a) b.
Proof.
  unfold first_match. destruct (search_from r p s) as [[pre rest']|] eqn:E; [|done]. intros [= <- <- <-].
  apply search_from_Some in E as (m' & -> & Hm & Hfirst). exists pre.
  rewrite drop_app_length, !length_app. replace (length pre + (length m' + length rest') - length pre - length rest') with (length m') by lia.
  rewrite take_app_length. auto.
Qed.

(** A match in a text: it is there, and the expression accepts it in place. *)
Definition match_at (r : re) (text : str) (pm : nat * str) : Prop :=
  exists pre rest, text = pre ++ pm.2 ++ rest /\ length pre = pm.1 /\ Matches r (after None pre) pm.2 rest.

Lemma all_matches_sound fuel r : forall p pos s pre, p = after None pre -> length pre = pos ->
  Forall (match_at r (pre ++ s)) (all_matches fuel r p pos s).
Proof.
  induction fuel as [|fuel IH]; intros p pos s pre Hp Hpos; [by constructor|]. cbn [all_matches].
  destruct (first_match r p s) as [[[n m] rest]|] eqn:E; [|by constructor].
  apply first_match_Some in E as (a & -> & Hn & Hm & _). apply Forall_cons. split.
  - exists (pre ++ a), rest. cbn [fst snd]. rewrite length_app. split; [by rewrite <- app_assoc|]. split; [lia|].
    rewrite <- after_app, <- Hp. done.
  - replace (pre ++ a ++ m ++ rest) with ((pre ++ a ++ m) ++ rest) by (by rewrite <- !app_assoc). apply IH.
    + rewrite !length_app. replace (length a + (length m + length rest) - length rest) with (length (a ++ m)) by (rewrite length_app; lia).
      rewrite app_assoc, take_app_length, Hp. by rewrite after_app.
    + rewrite !length_app. lia.
Qed.

(** No match is missed: whatever starts at a place that is not inside or behind
    the matches found, the iterator has already reported. *)
Lemma all_matches_none fuel r p pos s : all_matches (S fuel) r p pos s = [] ->
  forall a b, s = a ++ b -> ~ starts r (after p a) b.
Proof.
  cbn [all_matches]. unfold first_match. destruct (search_from r p s) as [[pre rest]|] eqn:E; [done|].
  intros _. by apply search_from_None.
Qed.

(** What a claim of the text is *)
Record claim_of (text : str) (pattern : string) (c : ExtractedClaim) : Prop := {
  co_place : exists pre rest, text = pre ++ matched_text c ++ rest /\ position_start c = Z.of_nat (length pre) /\
    Matches (icase (regex pattern)) (after None pre) (matched_text c) rest;
  co_end : position_end c = (position_start c + Z.of_nat (length (matched_text c)))%Z;
  co_context : exists before behind, context c = before ++ matched_text c ++ behind /\
    (length before <= 100)%nat /\ (length behind <= 100)%nat /\ exists l r, text = l ++ context c ++ r;
}.

Lemma make_claim_spec text pattern pm c :
  match_at (icase (regex pattern)) text pm -> make_claim text pm.1 pm.2 = Some c -> claim_of text pattern c.
Proof.
  destruct pm as [pos m]. intros (pre & rest & -> & Hl & Hm). cbn [fst snd] in *. unfold make_claim.
  destruct (match first_match (regex "\d+\.?\d*") None m with Some _ => _ | None => _ end) as [v|]; [|done].
  cbn [mbind option_bind]. intros [= <-]. split; cbn [matched_text position_start position_end context].
  - exists pre, rest. subst pos. auto.
  - done.
  - set (i := Z.to_nat (Z.max 0 (Z.of_nat pos - 100))).
    set (n := Z.to_nat (Z.min (Z.of_nat (length (pre ++ m ++ rest))) (Z.of_nat pos + Z.of_nat (length m) + 100) - Z.max 0 (Z.of_nat pos - 100))).
    assert (i <= length pre) as Hi by lia.
    assert (length pre - i + length m <= n) as Hn by (unfold n; rewrite !length_app; lia).
    exists (drop i pre), (take (n - (length pre - i) - length m) rest). unfold substr. split; [|split; [|split]].
    + rewrite drop_app_le by done. rewrite take_app_ge by (rewrite length_drop; lia). rewrite length_drop. f_equal.
      rewrite take_app_ge by lia. done.
    + rewrite length_drop. lia.
    + rewrite length_take. unfold n. rewrite !length_app. lia.
    + exists (take i (pre ++ m ++ rest)), (drop n (drop i (pre ++ m ++ rest))). by rewrite !take_drop.
Qed.

(** Every extracted claim is in the text where it says it is, is what its
    pattern describes, and its context is the text around it, at most a hundred
    bytes on each side. *)
Theorem claims_located text claims c : extract_quantitative_claims text = Some claims -> c ∈ claims ->
  exists pattern, pattern ∈ quantitative_patterns /\ claim_of text pattern c.
Proof.
  unfold extract_quantitative_claims. destruct (mapM (claims_of text) _) as [css|] eqn:E; [|done]. cbn [mbind option_bind].
  intros [= <-] (cs & Hcs & Hc)%list_elem_of_In%in_concat. apply mapM_Some in E.
  apply list_elem_of_In, list_elem_of_lookup in Hcs as (i & Hi). apply list_elem_of_In in Hc.
  destruct (Forall2_lookup_r _ _ _ _ _ E Hi) as (pattern & Hp & Hclaims). exists pattern. split; [by eapply list_elem_of_lookup_2|].
  unfold claims_of in Hclaims. apply mapM_Some in Hclaims. apply list_elem_of_lookup in Hc as (k & Hk).
  destruct (Forall2_lookup_r _ _ _ _ _ Hclaims Hk) as (pm & Hpm & Hmake). eapply make_claim_spec; [|exact Hmake].
  pose proof (all_matches_sound (S (length text)) (icase (regex pattern)) None 0 text [] eq_refl eq_refl) as Hall.
  by eapply Forall_lookup_1 in Hall.
Qed.

(** A text without a quantitative claim has the pass rate zero, so under any
    positive threshold it fails, however well it is written. *)
Lemma report_without_claims_fails threshold text r : extract_quantitative_claims text = Some [] ->
  validate_report threshold text = Some r -> d_le threshold d_zero = false -> passed r = false /\ issues r =
    (fun t => lit "Forbidden term: " ++ t) <$> check_forbidden_terms text.
Proof.
  intros He. unfold validate_report. rewrite He. cbn [mbind option_bind length Z.of_nat Z.ltb Z.compare].
  intros [= <-] Ht. cbn [passed issues]. rewrite Ht. split; [done|]. cbn. by rewrite app_nil_r.
Qed.

(** A report passes exactly when enough of its claims are cited and none of the
    forbidden words occurs in it, in any case; the issues name every forbidden
    word and every claim without a citation. *)
Theorem validate_report_exact threshold text :
  validate_report threshold text =
  (claims ← extract_quantitative_claims text;
   let cited := List.filter is_cited claims in
   let found := List.filter (fun t => contains_sub (lower t) (lower text)) forbidden_terms in
   let rate := match claims with [] => d_zero | _ => d_div (d_of_Z (Z.of_nat (length cited))) (d_of_Z (Z.of_nat (length claims))) end in
   Some (mkValidation (d_le threshold rate && bool_decide (found = [])) (Z.of_nat (length claims)) (Z.of_nat (length cited)) rate
           (mkCitations (Z.of_nat (length claims)) (Z.of_nat (length cited))
              (matched_text <$> List.filter (fun c => negb (is_cited c)) claims) found)
           (((fun t => lit "Forbidden term: " ++ t) <$> found)
              ++ ((fun c => lit "Uncited claim: " ++ matched_text c) <$> List.filter (fun c => negb (is_cited c)) claims)))).
Proof.
  unfold validate_report. destruct (extract_quantitative_claims text) as [claims|]; [|done]. cbn [mbind option_bind].
  unfold check_citations, check_forbidden_terms. cbn [cited_claims forbidden_terms_found uncited_claims].
  rewrite <- list_fmap_compose. do 2 f_equal.
  - f_equal; [by destruct claims|]. by destruct (List.filter _ forbidden_terms).
  - by destruct claims.
Qed.

(** Words are found inside others. *)
Lemma workaround_is_forbidden : check_forbidden_terms (lit "A workaround is unlikely.") = [lit "around"; lit "likely"].
Proof. by vm_compute. Qed.

Lemma claim_examples :
  option_map (map (fun c => (matched_text c, position_start c, is_cited c)))
    (extract_quantitative_claims (lit "Response time is 42MS. [e1: bench] Error rate: 5%")) =
  Some [(lit "5%", 47%Z, true); (lit "42MS", 17%Z, true); (lit "Error rate: 5", 35%Z, true)].
Proof. by vm_compute. Qed.
