(* ===== verification/Crypto.v ===== *)
(** * Encryption and keys: [libs/crypto]

    The wrappers of [aes_gcm.cpp] and [key_derivation.cpp] over libsodium, which
    is outside the sources: AES-256-GCM ([AesGcm]) and the key-derivation
    functions are parameters.  A failed assertion is [None]; random bytes are
    arguments. *)

From Stdlib Require Import ZArith Ascii String Lia.
From stdpp Require Import base list strings.
From S2P Require Import Prelude CxxString.

Inductive CryptoError : Type :=
| InvalidKeySize | InvalidIVSize | EncryptionFailed | DecryptionFailed | AuthenticationFailed | InvalidSignature
| KeyGenerationFailed | KeyDerivationFailed | InvalidInput.

Definition error_text (e : CryptoError) : str :=
  match e with
  | InvalidKeySize => lit "Invalid key size"
  | InvalidIVSize => lit "Invalid IV size"
  | EncryptionFailed => lit "Encryption failed"
  | DecryptionFailed => lit "Decryption failed"
  | AuthenticationFailed => lit "Authentication failed"
  | InvalidSignature => lit "Invalid signature"
  | KeyGenerationFailed => lit "Key generation failed"
  | KeyDerivationFailed => lit "Key derivation failed"
  | InvalidInput => lit "Invalid input"
  end.

(** [crypto_aead_aes256gcm_encrypt] and [_decrypt] of key, nonce, associated
    data and text, [None] when they do not return zero, and the variants with a
    prepared key.  Decryption accepts exactly what encryption makes; the tag
    has 16 bytes. *)
Definition kTagBytes : nat := 16.
Class AesGcm : Type := {
  gcm_encrypt : str -> str -> str -> str -> option str;
  gcm_decrypt : str -> str -> str -> str -> option str;
  gcm_state : Type;
  gcm_beforenm : str -> option gcm_state;
  gcm_encrypt_afternm : gcm_state -> str -> str -> str -> option str;
  gcm_decrypt_afternm : gcm_state -> str -> str -> str -> option str;
}.
Class AesGcmOk `{AesGcm} : Prop := {
  gcm_inverse k iv aad pt ct : gcm_decrypt k iv aad ct = Some pt <-> gcm_encrypt k iv aad pt = Some ct;
  gcm_tag k iv aad pt ct : gcm_encrypt k iv aad pt = Some ct -> length ct = length pt + kTagBytes;
  gcm_prepared k st : gcm_beforenm k = Some st ->
    (forall iv aad pt, gcm_encrypt_afternm st iv aad pt = gcm_encrypt k iv aad pt) /\
    (forall iv aad ct, gcm_decrypt_afternm st iv aad ct = gcm_decrypt k iv aad ct);
}.

(** [sodium_bin2base64] and [sodium_base642bin] *)
Class Base64 : Type := { bin2base64 : str -> str; base642bin : str -> option str; base64_inverse b : base642bin (bin2base64 b) = Some b }.

Record EncryptionResult : Type := mkEncryption { er_ciphertext : str; er_iv : str; er_algorithm : str }.
Record DecryptionResult : Type := mkDecryption { dr_plaintext : str; dr_algorithm : str }.

Definition to_base64 `{Base64} (r : EncryptionResult) : str := bin2base64 (er_iv r ++ er_ciphertext r).

Definition kMaxPlaintextSize : Z := 64 * 1024 * 1024.
(** [sodium_is_zero] *)
Definition is_zero (s : str) : bool := forallb (char_is "000") s.
Definition assert_ {A} (b : bool) (k : option A) : option A := if b then k else None.
Definition algorithm_ : str := lit "AES-256-GCM".

Section aes_gcm.
Context `{AesGcm}.

Definition encrypted (iv : str) (rc : option str) : expected EncryptionResult CryptoError :=
  match rc with Some ct => Ok (mkEncryption ct iv algorithm_) | None => Unexpected EncryptionFailed end.
(** The answer of a decryption, refused before it is tried when there is no tag *)
Definition decrypted (ciphertext : str) (rc : option str) : expected DecryptionResult CryptoError :=
  if (length ciphertext <? kTagBytes)%nat then Unexpected DecryptionFailed
  else match rc with Some pt => Ok (mkDecryption pt algorithm_) | None => Unexpected AuthenticationFailed end.

Definition fits (data : str) : bool := (Z.of_nat (length data) <=? kMaxPlaintextSize)%Z.

Definition encrypt_aad (iv data key aad : str) : option (expected EncryptionResult CryptoError) :=
  assert_ (fits data) (assert_ (negb (is_zero key)) (Some (encrypted iv (gcm_encrypt key iv aad data)))).
Definition encrypt (iv data key : str) : option (expected EncryptionResult CryptoError) :=
  assert_ (fits data) (assert_ (negb (is_zero key)) (Some (encrypted iv (gcm_encrypt key iv [] data)))).
Definition decrypt_aad (ciphertext key iv aad : str) : option (expected DecryptionResult CryptoError) :=
  assert_ (negb (is_zero key)) (assert_ (negb (is_zero iv)) (Some (decrypted ciphertext (gcm_decrypt key iv aad ciphertext)))).
Definition decrypt (ciphertext key iv : str) : option (expected DecryptionResult CryptoError) :=
  assert_ (negb (is_zero key)) (assert_ (negb (is_zero iv)) (Some (decrypted ciphertext (gcm_decrypt key iv [] ciphertext)))).

(** ** The context with a prepared key *)

Definition create (key : str) : expected gcm_state CryptoError :=
  if is_zero key then Unexpected EncryptionFailed
  else match gcm_beforenm key with Some st => Ok st | None => Unexpected EncryptionFailed end.
Definition ctx_encrypt_aad (st : gcm_state) (iv data aad : str) : option (expected EncryptionResult CryptoError) :=
  assert_ (fits data) (Some (encrypted iv (gcm_encrypt_afternm st iv aad data))).
Definition ctx_encrypt (st : gcm_state) (iv data : str) : option (expected EncryptionResult CryptoError) :=
  assert_ (fits data) (Some (encrypted iv (gcm_encrypt_afternm st iv [] data))).
Definition ctx_decrypt_aad (st : gcm_state) (ciphertext iv aad : str) : expected DecryptionResult CryptoError :=
  decrypted ciphertext (gcm_decrypt_afternm st iv aad ciphertext).
Definition ctx_decrypt (st : gcm_state) (ciphertext iv : str) : expected DecryptionResult CryptoError :=
  decrypted ciphertext (gcm_decrypt_afternm st iv [] ciphertext).

Context `{!AesGcmOk}.

(** A context gives what the one-off functions give under its key, apart from
    their assertion on the nonce. *)
Lemma context_agrees key st iv data aad ct : create key = Ok st ->
  ctx_encrypt_aad st iv data aad = encrypt_aad iv data key aad /\ ctx_encrypt st iv data = encrypt iv data key /\
  (is_zero iv = false -> decrypt_aad ct key iv aad = Some (ctx_decrypt_aad st ct iv aad) /\
                         decrypt ct key iv = Some (ctx_decrypt st ct iv)).
Proof.
  unfold create. destruct (is_zero key) eqn:Hz; [done|]. destruct (gcm_beforenm key) as [st'|] eqn:Hb; [|done].
  intros [= ->]. destruct (gcm_prepared key st Hb) as [He Hd].
  unfold ctx_encrypt_aad, ctx_encrypt, encrypt_aad, encrypt, decrypt_aad, decrypt, ctx_decrypt_aad, ctx_decrypt.
  rewrite !He, !Hd, Hz. split; [done|]. split; [done|]. intros Hiv. by rewrite Hiv.
Qed.

(** What was encrypted decrypts under the same key, nonce and associated data. *)
Lemma decrypt_encrypted iv data key aad r : is_zero iv = false ->
  encrypt_aad iv data key aad = Some (Ok r) ->
  er_iv r = iv /\ decrypt_aad (er_ciphertext r) key iv aad = Some (Ok (mkDecryption data algorithm_)).
Proof.
  unfold encrypt_aad, decrypt_aad, assert_. intros ->. destruct (fits data); [|done]. destruct (is_zero key); [done|].
  cbn [negb]. unfold encrypted. destruct (gcm_encrypt key iv aad data) as [ct|] eqn:E; [|done]. intros [= <-].
  cbn [er_iv er_ciphertext]. split; [done|]. unfold decrypted. rewrite (gcm_tag _ _ _ _ _ E).
  rewrite (proj2 (Nat.ltb_ge _ _)) by lia. by rewrite (proj2 (gcm_inverse _ _ _ _ _) E).
Qed.
End aes_gcm.

(** ** Key derivation *)

Record DerivedKey : Type := mkDerived { dk_key : str; dk_salt : str }.

Definition kMaxKeySize : Z := 1024.
(** Constants of [sodium.h] *)
Definition generichash_min : Z := 16.
Definition generichash_max : Z := 64.
Definition pwhash_salt : nat := 16.
Definition pwhash_min : Z := 16.
Definition pwhash_max : Z := 4294967295.
Inductive Limit : Type := Interactive | Moderate | Sensitive.

Definition opslimit (iterations : Z) : Limit :=
  if (100000 <=? iterations)%Z then Sensitive else if (10000 <=? iterations)%Z then Moderate else Interactive.
Definition memlimit (ops : Limit) : Limit := match ops with Interactive => Interactive | _ => Moderate end.

(** [generichash] is keyed BLAKE2b, [pwhash] is Argon2id; both answer [None]
    when they do not return zero. *)
Definition derive_key (generichash : Z -> str -> str -> option str) (pwhash : Z -> str -> str -> Limit -> Limit -> option str)
    (password salt : str) (iterations key_size : Z) : expected DerivedKey CryptoError :=
  if (key_size =? 0)%Z || (kMaxKeySize <? key_size)%Z then Unexpected KeyDerivationFailed
  else
    let made rc := match rc with Some k => Ok (mkDerived k salt) | None => Unexpected KeyDerivationFailed end in
    if (iterations =? 0)%Z then
      if (key_size <? generichash_min)%Z || (generichash_max <? key_size)%Z then Unexpected KeyDerivationFailed
      else made (generichash key_size password salt)
    else if negb (length salt =? pwhash_salt)%nat then Unexpected KeyDerivationFailed
    else if (key_size <? pwhash_min)%Z || (pwhash_max <? key_size)%Z then Unexpected KeyDerivationFailed
    else made (pwhash key_size password salt (opslimit iterations) (memlimit (opslimit iterations))).

(** The sizes that can succeed, and the only error there is. *)
Lemma derive_key_bounds gh pw password salt iterations key_size :
  match derive_key gh pw password salt iterations key_size with
  | Ok k => (16 <= key_size <= (if (iterations =? 0)%Z then 64 else 1024))%Z /\ dk_salt k = salt /\
            (iterations <> 0%Z -> length salt = 16%nat)
  | Unexpected e => e = KeyDerivationFailed
  end.
Proof.
  unfold derive_key, kMaxKeySize, generichash_min, generichash_max, pwhash_min, pwhash_max, pwhash_salt.
  destruct (Z.eqb_spec key_size 0); [done|]. destruct (Z.ltb_spec 1024 key_size); [done|]. cbn [orb].
  destruct (Z.eqb_spec iterations 0).
  - destruct (Z.ltb_spec key_size 16); [done|]. destruct (Z.ltb_spec 64 key_size); [done|]. cbn [orb].
    destruct (gh key_size password salt); [|done]. cbn. repeat split; [lia|lia|done].
  - destruct (Nat.eqb_spec (length salt) 16); [|done]. cbn [negb]. destruct (Z.ltb_spec key_size 16); [done|].
    destruct (Z.ltb_spec 4294967295 key_size); [lia|]. cbn [orb]. destruct (pw _ _ _ _ _); [|done].
    cbn. repeat split; try done; lia.
Qed.
