(* ===== verification/Memory.v ===== *)
(** * Encrypted agent memory: [libs/memory]

    Entries are encrypted under the agent's key and appended to a file of JSON
    lines; the store keeps what it read in a cache and extends it as it writes.
    The specification is the same store without a cache, which reads the file
    every time ([SpecStep]); [memory_cache_transparent] says the two answer
    alike. *)

From Stdlib Require Import ZArith Ascii String Lia.
From stdpp Require Import base list gmap strings.
From S2P Require Import Prelude CxxString Clock Lines Json JsonObjects JsonText AuditLog A2aTask Crypto.

Inductive MemoryTier : Type := Hot | Relevant | CrossAgent.
#[export] Instance MemoryTier_eq_dec : EqDecision MemoryTier.
Proof. solve_decision. Defined.

Definition tier_label (t : MemoryTier) : str :=
  match t with Hot => lit "hot" | Relevant => lit "relevant" | CrossAgent => lit "cross_agent" end.
Definition tier_from_label (label : str) : option MemoryTier :=
  if bool_decide (label = lit "hot") then Some Hot
  else if bool_decide (label = lit "relevant") then Some Relevant
  else if bool_decide (label = lit "cross_agent") then Some CrossAgent
  else None.

Record EncryptedMemoryEntry : Type := mkEntry {
  entry_id : str; tier : MemoryTier; ciphertext_b64 : str; created_at : str; agent_did : str;
}.

Record EncryptedMemoryStore : Type := mkStore {
  agent_key_ : str; agent_did_ : str; file_ : option str; cache_ : list EncryptedMemoryEntry;
  cache_index_ : gmap str nat; cache_valid_ : bool;
}.

(** What the system gives one call: a nonce, random bytes for an identifier,
    the milliseconds of the clock, and whether the file opens. *)
Record Given : Type := mkGiven { g_iv : str; g_random : str; g_now_ms : Z; g_opened : bool }.

(** [%Y-%m-%dT%H:%M:%S] and the milliseconds *)
Definition utc_now_iso8601 (ms : Z) : str :=
  let t := iso8601 (ms / 1000) in
  take (length t - 1) t ++ "."%char :: dec_digit (ms mod 1000 / 100) :: pad2 (ms mod 1000 mod 100) ++ lit "Z".

Section entry.
Context `{JsonText}.

Definition entry_to_json (e : EncryptedMemoryEntry) : jv :=
  object [(lit "entry_id", jstr (entry_id e)); (lit "tier", jstr (tier_label (tier e)));
          (lit "ciphertext", jstr (ciphertext_b64 e)); (lit "created_at", jstr (created_at e));
          (lit "agent_did", jstr (agent_did e))].

Definition entry_from_json (j : jv) : option EncryptedMemoryEntry :=
  id ← at_get get_string j "entry_id"; label ← at_get get_string j "tier"; t ← tier_from_label label;
  text ← at_get get_string j "ciphertext"; created ← at_get get_string j "created_at";
  did ← at_get get_string j "agent_did"; Some (mkEntry id t text created did).

Definition kMaxEntries : nat := Z.to_nat 100000.

(** The lines are read up to [kMaxEntries] entries; lines that do not parse
    are skipped. *)
Fixpoint load_loop (lines : list str) (count : nat) : list EncryptedMemoryEntry :=
  match lines with
  | [] => []
  | line :: lines =>
      if (count <? kMaxEntries)%nat then
        if bool_decide (line = []) then load_loop lines count
        else match j ← json_parse line; entry_from_json j with
             | Some e => e :: load_loop lines (S count)
             | None => load_loop lines count
             end
      else []
  end.
Definition load_entries_from_disk (file : option str) : list EncryptedMemoryEntry :=
  match file with None => [] | Some text => load_loop (getlines text) 0 end.

(** [cache_index_[cache_[i].entry_id] = i] for every position *)
Definition index_of (es : list EncryptedMemoryEntry) : gmap str nat :=
  foldl (fun m ie => <[entry_id ie.2 := ie.1]> m) ∅ (zip (seq 0 (length es)) es).

(** [entries()] fills the cache. *)
Definition fill (s : EncryptedMemoryStore) : EncryptedMemoryStore :=
  if cache_valid_ s then s
  else let es := load_entries_from_disk (file_ s) in
       mkStore (agent_key_ s) (agent_did_ s) (file_ s) es (index_of es) true.

(** [None] is the exception of [dump]. *)
Definition save_entry (opened : bool) (s : EncryptedMemoryStore) (e : EncryptedMemoryEntry) : option EncryptedMemoryStore :=
  if negb opened then Some s
  else
    line ← json_dump (entry_to_json e);
    let file := Some (default [] (file_ s) ++ line ++ [eol]) in
    Some (if cache_valid_ s
          then mkStore (agent_key_ s) (agent_did_ s) file (cache_ s ++ [e]) (<[entry_id e := length (cache_ s)]> (cache_index_ s)) true
          else mkStore (agent_key_ s) (agent_did_ s) file (cache_ s) (cache_index_ s) false).
End entry.

(** ** Operations *)

Section store.
Context `{JsonText} `{AesGcm} `{!Base64} `{!Bin2Hex} `{!Sha256}.

(** The constructor: the key is all zero when it cannot be derived. *)
Definition derive_agent_key (pwhash : Z -> str -> str -> Limit -> Limit -> option str) (generichash : Z -> str -> str -> option str)
    (master_key agent_did : str) : str :=
  match derive_key generichash pwhash master_key (take 16 (sha256 agent_did)) 100000 32 with
  | Ok d => dk_key d | Unexpected _ => replicate 32 "000"%char
  end.
Definition store_file_name (agent_did : str) : str := bin2hex (sha256 agent_did) ++ lit "/encrypted_memory.jsonl".
Definition new_store (key agent_did : str) (file : option str) : EncryptedMemoryStore := mkStore key agent_did file [] ∅ false.

(** The outer [None] is a failed assertion or an exception. *)
Definition store (g : Given) (s : EncryptedMemoryStore) (content : str) (t : MemoryTier) :
    option (expected EncryptedMemoryEntry str * EncryptedMemoryStore) :=
  assert_ (negb (bool_decide (content = []))) (assert_ (negb (bool_decide (agent_did_ s = [])))
    (if is_zero (agent_key_ s) then Some (Unexpected (lit "Agent keys have been destroyed"), s)
     else
       r ← encrypt_aad (g_iv g) content (agent_key_ s) (tier_label t);
       match r with
       | Unexpected e => Some (Unexpected (lit "Encryption failed: " ++ error_text e), s)
       | Ok enc =>
           let e := mkEntry (bin2hex (g_random g)) t (bin2base64 (er_iv enc ++ er_ciphertext enc))
                      (utc_now_iso8601 (g_now_ms g)) (agent_did_ s) in
           s ← save_entry (g_opened g) s e; Some (Ok e, s)
       end)).

(** The text of an entry: its first twelve bytes are the nonce. *)
Definition open_entry (key : str) (e : EncryptedMemoryEntry) : option (expected str str) :=
  let raw := default [] (base642bin (ciphertext_b64 e)) in
  if (length raw <? 12)%nat then Some (Unexpected (lit "Invalid ciphertext: too short"))
  else
    r ← decrypt_aad (drop 12 raw) key (take 12 raw) (tier_label (tier e));
    Some (match r with
          | Ok d => Ok (dr_plaintext d)
          | Unexpected err => Unexpected (lit "Decryption failed: " ++ error_text err)
          end).

Definition retrieve (s : EncryptedMemoryStore) (id : str) : option (expected str str * EncryptedMemoryStore) :=
  assert_ (negb (bool_decide (id = []))) (assert_ (negb (bool_decide (agent_did_ s = [])))
    (if is_zero (agent_key_ s) then Some (Unexpected (lit "Agent keys have been destroyed"), s)
     else
       let s := fill s in
       match cache_index_ s !! id with
       | None => Some (Unexpected (lit "Entry not found: " ++ id), s)
       | Some i => e ← cache_ s !! i; r ← open_entry (agent_key_ s) e; Some (r, s)
       end)).

(** The loop stops at the limit and leaves out what does not decrypt. *)
Fixpoint tier_loop (key : str) (t : MemoryTier) (limit : nat) (es : list EncryptedMemoryEntry) : option (list str) :=
  match es, limit with
  | [], _ | _, O => Some []
  | e :: es, S n =>
      if negb (bool_decide (tier e = t)) then tier_loop key t (S n) es
      else
        r ← open_entry key e;
        match r with
        | Ok text => rest ← tier_loop key t n es; Some (text :: rest)
        | Unexpected _ => tier_loop key t (S n) es
        end
  end.
Definition retrieve_tier (s : EncryptedMemoryStore) (t : MemoryTier) (limit : nat) : option (list str * EncryptedMemoryStore) :=
  if is_zero (agent_key_ s) then Some ([], s)
  else let s := fill s in texts ← tier_loop (agent_key_ s) t limit (cache_ s); Some (texts, s).

Definition destroy_agent_keys (s : EncryptedMemoryStore) : EncryptedMemoryStore :=
  mkStore (replicate (length (agent_key_ s)) "000"%char) (agent_did_ s) (file_ s) (cache_ s) (cache_index_ s) (cache_valid_ s).

Definition export_tier_encrypted (s : EncryptedMemoryStore) (t : MemoryTier) : list EncryptedMemoryEntry * EncryptedMemoryStore :=
  let s := fill s in (List.filter (fun e => bool_decide (tier e = t)) (cache_ s), s).
End store.

(** ** Histories, with the cache and without *)

Inductive MemoryOp : Type :=
| Store (g : Given) (content : str) (t : MemoryTier)
| Retrieve (id : str)
| RetrieveTier (t : MemoryTier) (limit : nat)
| ExportTier (t : MemoryTier)
| DestroyKeys.

Inductive Answer : Type :=
| Stored (r : expected EncryptedMemoryEntry str) | Retrieved (r : expected str str) | Texts (ts : list str)
| Exported (es : list EncryptedMemoryEntry) | Done.

Section histories.
Context `{JsonText} `{AesGcm} `{!Base64} `{!Bin2Hex} `{!Sha256}.

Definition memory_step (s : EncryptedMemoryStore) (op : MemoryOp) : option (Answer * EncryptedMemoryStore) :=
  match op with
  | Store g content t => r ← store g s content t; Some (Stored r.1, r.2)
  | Retrieve id => r ← retrieve s id; Some (Retrieved r.1, r.2)
  | RetrieveTier t limit => r ← retrieve_tier s t limit; Some (Texts r.1, r.2)
  | ExportTier t => let r := export_tier_encrypted s t in Some (Exported r.1, r.2)
  | DestroyKeys => Some (Done, destroy_agent_keys s)
  end.

(** Forget the cache: the next operation reads the file again. *)
Definition forget (s : EncryptedMemoryStore) : EncryptedMemoryStore :=
  mkStore (agent_key_ s) (agent_did_ s) (file_ s) [] ∅ false.
Definition uncached_step (s : EncryptedMemoryStore) (op : MemoryOp) : option (Answer * EncryptedMemoryStore) :=
  r ← memory_step (forget s) op; Some (r.1, forget r.2).

Fixpoint run_memory (step : EncryptedMemoryStore -> MemoryOp -> option (Answer * EncryptedMemoryStore))
    (s : EncryptedMemoryStore) (ops : list MemoryOp) : option (list Answer) :=
  match ops with [] => Some [] | op :: ops => r ← step s op; rest ← run_memory step r.2 ops; Some (r.1 :: rest) end.
End histories.

(** ** Properties *)

Section coherence.
Context `{JsonTextOk} `{!JsonOk} `{AesGcmOk} `{!Base64} `{!Bin2Hex} `{!Sha256}.

Lemma tier_decodes t : tier_from_label (tier_label t) = Some t.
Proof. by destruct t. Qed.

Lemma entry_roundtrip e : entry_from_json (entry_to_json e) = Some e.
Proof.
  unfold entry_from_json, entry_to_json. read_fields. rewrite tier_decodes. by destruct e.
Qed.

Lemma entry_exact e : json_exact (entry_to_json e).
Proof. unfold entry_to_json. exact_json. Qed.

Definition parse_entry (line : str) : option EncryptedMemoryEntry :=
  if bool_decide (line = []) then None else j ← json_parse line; entry_from_json j.

Lemma load_loop_take lines : forall count, load_loop lines count = take (kMaxEntries - count) (omap parse_entry lines).
Proof.
  induction lines as [|line lines IH]; intros count; [symmetry; apply (take_nil (kMaxEntries - count))|]. cbn [load_loop].
  change (omap parse_entry (line :: lines)) with
    (match parse_entry line with Some e => e :: omap parse_entry lines | None => omap parse_entry lines end).
  destruct (Nat.ltb_spec count kMaxEntries) as [Hlt|Hge].
  - unfold parse_entry at 1. case_bool_decide; [apply IH|]. destruct (j ← json_parse line; entry_from_json j) as [e|]; [|apply IH].
    replace (kMaxEntries - count) with (S (kMaxEntries - S count)) by lia. cbn [firstn]. by rewrite IH.
  - by replace (kMaxEntries - count) with 0 by lia.
Qed.

(** The file consists of whole lines. *)
Definition whole_lines (file : option str) : Prop :=
  exists ls, Forall (free_of eol) ls /\ default [] file = flat_map (fun l => l ++ [eol]) ls.

Lemma load_whole file ls : Forall (free_of eol) ls -> default [] file = flat_map (fun l => l ++ [eol]) ls ->
  load_entries_from_disk file = take kMaxEntries (omap parse_entry ls).
Proof.
  intros Hfree Hd. unfold load_entries_from_disk. unfold default, id in Hd. destruct file as [text|]; cbn [from_option] in Hd.
  - subst text. unfold getlines. rewrite fields_render by done. by rewrite load_loop_take, Nat.sub_0_r.
  - destruct ls as [|l ls]; [symmetry; apply (take_nil kMaxEntries)|]. cbn in Hd. by destruct l.
Qed.

Lemma load_append file line e : whole_lines file -> json_dump (entry_to_json e) = Some line ->
  whole_lines (Some (default [] file ++ line ++ [eol])) /\
  load_entries_from_disk (Some (default [] file ++ line ++ [eol])) =
    (if decide (length (load_entries_from_disk file) < kMaxEntries) then load_entries_from_disk file ++ [e]
     else load_entries_from_disk file).
Proof.
  intros (ls & Hfree & Hd) Hline. destruct (dump_one_line _ _ Hline) as [Hne Hf].
  assert (Forall (free_of eol) (ls ++ [line])) as Hfree' by (apply Forall_app; split; [done|by apply Forall_singleton]).
  assert (default [] (Some (default [] file ++ line ++ [eol])) = flat_map (fun l => l ++ [eol]) (ls ++ [line])) as Hd'.
  { rewrite flat_map_app, <- Hd. cbn. by rewrite app_nil_r. }
  split; [by exists (ls ++ [line])|]. rewrite (load_whole _ _ Hfree' Hd'), (load_whole _ _ Hfree Hd), omap_app.
  assert (omap parse_entry [line] = [e]) as ->.
  { cbn. unfold parse_entry. rewrite bool_decide_false by done. rewrite (parse_dump _ _ (entry_exact e) Hline). cbn [mbind option_bind].
    by rewrite entry_roundtrip. }
  rewrite length_take. set (es := omap parse_entry ls). clearbody es. destruct (decide _) as [Hlt|Hge].
  - rewrite !(take_ge es) by lia. rewrite take_ge; [done|]. rewrite length_app. cbn. lia.
  - by rewrite take_app_le by lia.
Qed.

Lemma index_of_snoc es e : index_of (es ++ [e]) = <[entry_id e := length es]> (index_of es).
Proof.
  unfold index_of. rewrite length_app. cbn [length]. rewrite seq_app, zip_with_app by (by rewrite length_seq).
  by rewrite foldl_app.
Qed.

(** The cache, when there is one, is what the file would give. *)
Record coherent (s : EncryptedMemoryStore) : Prop := {
  co_lines : whole_lines (file_ s);
  co_cache : cache_valid_ s = true ->
    cache_ s = load_entries_from_disk (file_ s) /\ cache_index_ s = index_of (cache_ s);
}.

Lemma fill_spec s : coherent s ->
  fill s = mkStore (agent_key_ s) (agent_did_ s) (file_ s) (load_entries_from_disk (file_ s))
             (index_of (load_entries_from_disk (file_ s))) true.
Proof.
  intros [_ Hc]. unfold fill. destruct s as [key did file cache index valid]. cbn in *. destruct valid; [|done].
  destruct (Hc eq_refl) as [-> ->]. done.
Qed.

Lemma forget_coherent s : coherent s -> coherent (forget s).
Proof. intros [Hl _]. by split. Qed.

Lemma fill_coherent s : coherent s -> coherent (fill s) /\ forget (fill s) = forget s /\ fill (forget s) = fill s.
Proof.
  intros Hs. rewrite (fill_spec s Hs), (fill_spec (forget s) (forget_coherent s Hs)). destruct Hs. by repeat split.
Qed.

(** There is room for one more entry. *)
Definition room (s : EncryptedMemoryStore) : Prop := length (load_entries_from_disk (file_ s)) < kMaxEntries.

Lemma save_entry_spec opened s e s' : coherent s -> (opened = true -> room s) -> save_entry opened s e = Some s' ->
  coherent s' /\ save_entry opened (forget s) e = Some (forget s') /\ agent_key_ s' = agent_key_ s /\
  load_entries_from_disk (file_ s') = load_entries_from_disk (file_ s) ++ (if opened then [e] else []).
Proof.
  intros Hs Hroom. unfold save_entry. destruct opened; cbn [negb].
  - destruct (json_dump (entry_to_json e)) as [line|] eqn:El; [|done]. cbn [mbind option_bind]. intros [= <-].
    destruct (load_append (file_ s) line e (co_lines s Hs) El) as [Hw Hl].
    rewrite decide_True in Hl by (by apply Hroom). cbn [forget file_ cache_valid_].
    assert (file_ (if cache_valid_ s then
        mkStore (agent_key_ s) (agent_did_ s) (Some (default [] (file_ s) ++ line ++ [eol])) (cache_ s ++ [e])
          (<[entry_id e := length (cache_ s)]> (cache_index_ s)) true
      else mkStore (agent_key_ s) (agent_did_ s) (Some (default [] (file_ s) ++ line ++ [eol])) (cache_ s) (cache_index_ s) false)
      = Some (default [] (file_ s) ++ line ++ [eol])) as Hfile by (by destruct (cache_valid_ s)).
    split; [|split; [|split]].
    + split; [by rewrite Hfile|]. rewrite Hfile, Hl. destruct (cache_valid_ s) eqn:Ev; [|done]. cbn [cache_ cache_index_].
      intros _. destruct (co_cache s Hs Ev) as [Hc Hi]. by rewrite index_of_snoc, Hi, Hc.
    + unfold forget. by destruct (cache_valid_ s).
    + by destruct (cache_valid_ s).
    + by rewrite Hfile.
  - intros [= <-]. by rewrite app_nil_r.
Qed.

Definition needs_room (s : EncryptedMemoryStore) (op : MemoryOp) : Prop :=
  match op with Store g _ _ => g_opened g = true -> room s | _ => True end.

Lemma step_transparent s op : coherent s -> needs_room s op ->
  match memory_step s op with
  | Some (a, s') =>
      uncached_step (forget s) op = Some (a, forget s') /\ coherent s' /\
      length (load_entries_from_disk (file_ s')) <= length (load_entries_from_disk (file_ s)) + (match op with Store _ _ _ => 1 | _ => 0 end)
  | None => uncached_step (forget s) op = None
  end.
Proof.
  intros Hs Hroom. unfold uncached_step. change (forget (forget s)) with (forget s).
  destruct (fill_coherent s Hs) as (Hf & Hff & Hfs).
  assert (file_ (fill s) = file_ s) as Hfile by (by rewrite fill_spec).
  destruct op as [g content t|id|t limit|t|]; cbn [memory_step needs_room] in *.
  - unfold store, assert_. change (agent_did_ (forget s)) with (agent_did_ s). change (agent_key_ (forget s)) with (agent_key_ s).
    destruct (negb (bool_decide (content = []))); [|done]. destruct (negb (bool_decide (agent_did_ s = []))); [|done].
    destruct (is_zero (agent_key_ s)); [cbn; split; [done|]; split; [done|lia]|].
    destruct (encrypt_aad (g_iv g) content (agent_key_ s) (tier_label t)) as [[enc|err]|]; [|cbn; split; [done|]; split; [done|lia]|done].
    cbn [mbind option_bind]. set (e := mkEntry _ _ _ _ _).
    destruct (save_entry (g_opened g) s e) as [s'|] eqn:Es; cbn [mbind option_bind fst snd].
    + destruct (save_entry_spec _ _ _ _ Hs Hroom Es) as (Hc & He & Hk & Hl). rewrite He. cbn [mbind option_bind fst snd].
      split; [done|]. split; [done|]. rewrite Hl, length_app. destruct (g_opened g); cbn; lia.
    + unfold save_entry in *. destruct (negb (g_opened g)); [done|]. by destruct (json_dump _).
  - unfold retrieve, assert_. change (agent_did_ (forget s)) with (agent_did_ s). change (agent_key_ (forget s)) with (agent_key_ s).
    destruct (negb (bool_decide (id = []))); [|done]. destruct (negb (bool_decide (agent_did_ s = []))); [|done].
    destruct (is_zero (agent_key_ s)); [cbn; split; [done|]; split; [done|lia]|]. rewrite Hfs.
    destruct (cache_index_ (fill s) !! id) as [i|].
    + destruct (cache_ (fill s) !! i) as [e|]; [|done]. cbn [mbind option_bind].
      destruct (open_entry _ e) as [r|]; [|done]. cbn [mbind option_bind fst snd]. rewrite Hff, Hfile. split; [done|]. split; [done|lia].
    + cbn [mbind option_bind fst snd]. rewrite Hff, Hfile. split; [done|]. split; [done|lia].
  - unfold retrieve_tier. change (agent_key_ (forget s)) with (agent_key_ s).
    destruct (is_zero (agent_key_ s)); [cbn; split; [done|]; split; [done|lia]|]. rewrite Hfs.
    destruct (tier_loop _ t limit (cache_ (fill s))); [|done]. cbn [mbind option_bind fst snd]. rewrite Hff, Hfile.
    split; [done|]. split; [done|lia].
  - unfold export_tier_encrypted. rewrite Hfs. cbn [mbind option_bind fst snd]. rewrite Hff, Hfile. split; [done|]. split; [done|lia].
  - cbn [mbind option_bind fst snd]. split; [done|]. split; [|cbn; lia]. destruct Hs as [Hl Hc]. by split.
Qed.

Definition stores (ops : list MemoryOp) : nat :=
  length (List.filter (fun op => match op with Store _ _ _ => true | _ => false end) ops).

(** The cache cannot be observed: as long as the file has room for what is
    stored, every history of operations gets the answers of a store that reads
    its file at every call, and the two end in an exception or a failed
    assertion together. *)
Lemma memory_cache_transparent s ops : coherent s ->
  length (load_entries_from_disk (file_ s)) + stores ops <= kMaxEntries ->
  run_memory memory_step s ops = run_memory uncached_step (forget s) ops.
Proof.
  revert s. induction ops as [|op ops IH]; intros s Hs Hroom; [done|]. cbn [run_memory].
  assert (stores (op :: ops) = (match op with Store _ _ _ => 1 | _ => 0 end) + stores ops) as Est by (by destruct op).
  assert (needs_room s op) as Hn. { destruct op; cbn; try done. intros _. unfold room. lia. }
  pose proof (step_transparent s op Hs Hn) as Hstep. destruct (memory_step s op) as [[a s']|].
  - destruct Hstep as (-> & Hs' & Hl). cbn [mbind option_bind fst snd]. rewrite IH; [done|done|lia].
  - by rewrite Hstep.
Qed.

(** *** What is stored comes back *)

Lemma index_last es e : index_of (es ++ [e]) !! entry_id e = Some (length es).
Proof. rewrite index_of_snoc. apply lookup_insert_eq. Qed.

Lemma open_stored iv key t content enc did eid time : length iv = 12 -> is_zero iv = false ->
  encrypt_aad iv content key (tier_label t) = Some (Ok enc) ->
  open_entry key (mkEntry eid t (bin2base64 (er_iv enc ++ er_ciphertext enc)) time did) = Some (Ok content).
Proof.
  intros Hl Hz He. destruct (decrypt_encrypted iv content key (tier_label t) enc Hz He) as [Hiv Hdec].
  unfold open_entry. cbn [ciphertext_b64 tier]. rewrite base64_inverse. unfold default, id. cbn [from_option].
  rewrite Hiv. rewrite length_app, Hl. rewrite (proj2 (Nat.ltb_ge _ _)) by lia.
  rewrite <- Hl at 1 2. rewrite drop_app_length, take_app_length, Hdec. done.
Qed.

(** A memory that was stored is retrieved by its identifier, from the store that
    wrote it and from a new one opened on its file. *)
Lemma stored_memory_retrieved g s content t e s' : coherent s -> room s ->
  length (g_iv g) = 12 -> is_zero (g_iv g) = false -> g_random g <> [] -> g_opened g = true ->
  store g s content t = Some (Ok e, s') ->
  (exists s1, retrieve s' (entry_id e) = Some (Ok content, s1)) /\
  (exists s1, retrieve (new_store (agent_key_ s) (agent_did_ s) (file_ s')) (entry_id e) = Some (Ok content, s1)).
Proof.
  intros Hs Hroom Hiv Hz Hr Hopen. unfold store, assert_.
  destruct (negb (bool_decide (content = []))); [|done]. destruct (negb (bool_decide (agent_did_ s = []))) eqn:Hdid; [|done].
  destruct (is_zero (agent_key_ s)) eqn:Hk; [done|].
  destruct (encrypt_aad (g_iv g) content (agent_key_ s) (tier_label t)) as [[enc|err]|] eqn:He; [|done..].
  cbn [mbind option_bind]. set (e0 := mkEntry _ _ _ _ _). rewrite Hopen.
  destruct (save_entry true s e0) as [s2|] eqn:Es; [|done]. cbn [mbind option_bind]. intros [= <- <-].
  destruct (save_entry_spec true s e0 s2 Hs (fun _ => Hroom) Es) as (Hc & _ & Hkey & Hl).
  assert (agent_did_ s2 = agent_did_ s) as Hdid2.
  { unfold save_entry in Es. cbn [negb] in Es. destruct (json_dump _); [|done]. injection Es as <-. by destruct (cache_valid_ s). }
  assert (negb (bool_decide (entry_id e0 = [])) = true) as Hid.
  { rewrite bool_decide_false; [done|]. intros Hnil. apply (f_equal length) in Hnil. cbn in Hnil.
    rewrite bin2hex_length in Hnil. destruct (g_random g); [done|]. cbn in Hnil. lia. }
  assert (forall s3, agent_key_ s3 = agent_key_ s -> agent_did_ s3 = agent_did_ s -> file_ s3 = file_ s2 -> coherent s3 ->
    exists s1, retrieve s3 (entry_id e0) = Some (Ok content, s1)) as Hget.
  { intros s3 H3k H3d H3f H3c. eexists. unfold retrieve, assert_. rewrite Hid, H3d, Hdid, H3k, Hk, (fill_spec s3 H3c).
    cbn [cache_index_ cache_ agent_key_]. rewrite H3f, Hl, index_last.
    rewrite lookup_app_r, Nat.sub_diag by done. cbn [lookup list_lookup mbind option_bind].
    rewrite H3k. unfold e0. rewrite (open_stored (g_iv g) (agent_key_ s) t content enc) by done. done. }
  split; [by apply Hget|]. apply Hget; try done. destruct Hc as [Hc _]. by split.
Qed.

(** A store that cannot open its file still answers with the entry, which is
    nowhere. *)
Lemma unopened_store_loses g s content t e s' : g_opened g = false -> store g s content t = Some (Ok e, s') -> s' = s.
Proof.
  intros Ho. unfold store, assert_. rewrite Ho. destruct (negb _); [|done]. destruct (negb _); [|done].
  destruct (is_zero _); [done|]. destruct (encrypt_aad _ _ _ _) as [[enc|err]|]; [|done..]. cbn. by intros [= _ <-].
Qed.

(** Once the file has as many entries as are read, what is stored is written
    and never read again by a new store. *)
Lemma full_store_forgets s e s' : whole_lines (file_ s) -> ~ room s -> save_entry true s e = Some s' ->
  load_entries_from_disk (file_ s') = load_entries_from_disk (file_ s).
Proof.
  intros Hw Hfull. unfold save_entry. cbn [negb]. destruct (json_dump (entry_to_json e)) as [line|] eqn:El; [|done].
  cbn [mbind option_bind]. intros [= <-]. destruct (load_append (file_ s) line e Hw El) as [_ Hl].
  rewrite decide_False in Hl by done. by destruct (cache_valid_ s).
Qed.

(** With the keys destroyed nothing is stored or read. *)
Lemma destroyed_store_refuses s g content t id limit :
  let s' := destroy_agent_keys s in
  content <> [] -> id <> [] -> agent_did_ s <> [] ->
  store g s' content t = Some (Unexpected (lit "Agent keys have been destroyed"), s') /\
  retrieve s' id = Some (Unexpected (lit "Agent keys have been destroyed"), s') /\
  retrieve_tier s' t limit = Some ([], s').
Proof.
  intros s' Hc Hi Hd.
  assert (is_zero (agent_key_ s') = true) as Hz.
  { cbn. unfold is_zero. induction (length (agent_key_ s)); [done|]. cbn. done. }
  unfold store, retrieve, retrieve_tier, assert_. change (agent_did_ s') with (agent_did_ s). rewrite Hz.
  by rewrite !bool_decide_false.
Qed.
End coherence.

(** ** Witnesses *)

(** A cipher that adds a constant tag *)
Module PlainGcm.
Definition tag : str := replicate 16 "t"%char.
Definition encrypt (k iv aad pt : str) : option str := Some (pt ++ tag).
Definition decrypt (k iv aad ct : str) : option str :=
  let n := length ct - 16 in if decide (ct = take n ct ++ tag) then Some (take n ct) else None.
Definition gcm : AesGcm :=
  {| gcm_encrypt := encrypt; gcm_decrypt := decrypt; gcm_state := str; gcm_beforenm k := Some k;
     gcm_encrypt_afternm := encrypt; gcm_decrypt_afternm := decrypt |}.
Lemma gcm_ok : @AesGcmOk gcm.
Proof.
  split; cbn.
  - intros k iv aad pt ct. unfold encrypt, decrypt. split.
    + destruct (decide _) as [E|]; [|done]. intros [= <-]. by rewrite <- E.
    + intros [= <-]. rewrite length_app. change (length tag) with 16. rewrite Nat.add_sub, take_app_length.
      by rewrite decide_True.
  - intros k iv aad pt ct [= <-]. by rewrite length_app.
  - intros k st [= ->]. done.
Qed.
Definition base64 : Base64 := {| bin2base64 b := b; base642bin s := Some s; base64_inverse b := eq_refl |}.
Definition bin2hex_ : Bin2Hex :=
  {| bin2hex := hex_encode; bin2hex_length := hex_encode_length; bin2hex_inj := hex_encode_inj |}.
Definition digest (s : str) : str := take 32 (s ++ replicate 32 "0"%char).
Lemma digest_length s : length (digest s) = 32.
Proof. unfold digest. rewrite length_take, length_app, length_replicate. lia. Qed.
Definition sha : Sha256 := {| sha256 := digest; sha256_length := digest_length |}.
End PlainGcm.

Definition sample_given : Given := mkGiven (lit "0123456789ab") (lit "rand") 1700000000123 true.
Definition sample_store : EncryptedMemoryStore := new_store (lit "0123456789abcdef0123456789abcdef") (lit "did:euxis:a") None.

Lemma sample_coherent : @coherent TreeJson.json TreeJson.text sample_store.
Proof. split; [|done]. by exists []. Qed.

Lemma memory_cache_transparent_witness :
  let ops := [Store sample_given (lit "note") Hot; RetrieveTier Hot 5] in
  @run_memory (@memory_step TreeJson.json TreeJson.text PlainGcm.gcm PlainGcm.base64 PlainGcm.bin2hex_) sample_store ops =
  @run_memory (@uncached_step TreeJson.json TreeJson.text PlainGcm.gcm PlainGcm.base64 PlainGcm.bin2hex_) (forget sample_store) ops.
Proof.
  intros ops. apply (@memory_cache_transparent TreeJson.json TreeJson.text TreeJson.text_ok TreeJson.tree_json_ok
    PlainGcm.gcm PlainGcm.base64 PlainGcm.bin2hex_ sample_store ops sample_coherent).
  unfold kMaxEntries. cbn [ops stores List.filter length sample_store new_store file_ load_entries_from_disk]. lia.
Defined.

Lemma stored_memory_retrieved_witness :
  exists e s' s1, @store TreeJson.json TreeJson.text PlainGcm.gcm PlainGcm.base64 PlainGcm.bin2hex_ sample_given sample_store (lit "note") Hot
      = Some (Ok e, s') /\
    @retrieve TreeJson.json TreeJson.text PlainGcm.gcm PlainGcm.base64
      (new_store (agent_key_ sample_store) (agent_did_ sample_store) (file_ s')) (entry_id e) = Some (Ok (lit "note"), s1).
Proof.
  assert (exists e s', @store TreeJson.json TreeJson.text PlainGcm.gcm PlainGcm.base64 PlainGcm.bin2hex_ sample_given sample_store (lit "note") Hot
      = Some (Ok e, s')) as (e & s' & Hs) by (do 2 eexists; reflexivity).
  destruct (@stored_memory_retrieved TreeJson.json TreeJson.text TreeJson.text_ok TreeJson.tree_json_ok PlainGcm.gcm
    PlainGcm.gcm_ok PlainGcm.base64 PlainGcm.bin2hex_ sample_given sample_store (lit "note") Hot e s' sample_coherent) as [_ [s1 Hr]].
  - unfold room, kMaxEntries. cbn [sample_store new_store file_ load_entries_from_disk length]. lia.
  - reflexivity.
  - reflexivity.
  - discriminate.
  - reflexivity.
  - exact Hs.
  - exists e, s', s1. split; [exact Hs|exact Hr].
Defined.
