(* ===== verification/Cache.v ===== *)
(** * Hashes and keys of [libs/cache]: [hash.cpp] and [key.cpp]

    BLAKE2b is a parameter.  SQLite, which the two caches use, is outside the
    sources: a table is a map from its primary key to the row, and a statement
    does what SQL says or fails with the message that is passed in ([Sql]). *)

From Stdlib Require Import ZArith Ascii String Lia.
From stdpp Require Import base list gmap fin_maps strings.
From S2P Require Import Prelude CxxString Lines Json JsonText AuditLog Attest.

(** ** Hashes and keys *)

(** [crypto_generichash] with 32 bytes, at once and in pieces *)
Class Blake2b : Type := {
  generichash : str -> str;
  gh_state : Type;
  gh_init : gh_state;
  gh_update : gh_state -> str -> gh_state;
  gh_final : gh_state -> str;
  generichash_length s : length (generichash s) = 32;
  gh_pieces pieces : gh_final (foldl gh_update gh_init pieces) = generichash (mjoin pieces);
}.

Section hashes.
Context `{Blake2b}.

Definition hash_string (s : str) : str := hex_encode (generichash s).

(** [Hasher::update] leaves out empty pieces. *)
Definition hasher_update (st : gh_state) (s : str) : gh_state := match s with [] => st | _ => gh_update st s end.
Definition hasher (pieces : list str) : str := hex_encode (gh_final (foldl hasher_update gh_init pieces)).

Definition hash_buffer : nat := Z.to_nat (64 * 1024).
(** [None] is a file that does not open; [bad] is a read that fails. *)
Definition hash_file (bad : bool) (content : option str) : expected str str :=
  match content with
  | None => Unexpected (lit "Cannot open file")
  | Some text =>
      let st := foldl gh_update gh_init (read_chunks (S (length text)) hash_buffer text) in
      if bad then Unexpected (lit "I/O error while hashing file") else Ok (hex_encode (gh_final st))
  end.

Definition is_valid_digest (s : str) : bool := (length s =? 64)%nat && forallb isxdigit s.

Record KeyInputs : Type := mkKey { ki_file : str; ki_content_hash : str; ki_ruleset_hash : str; ki_tool_version : str }.

Definition compose_key (k : KeyInputs) : str :=
  let nul : str := ["000"%char] in
  hasher [ki_file k; nul; ki_content_hash k; nul; ki_ruleset_hash k; nul; ki_tool_version k].

Definition not_empty (p : str) : bool := match p with [] => false | _ => true end.

Lemma join_not_empty pieces : mjoin (List.filter not_empty pieces) = mjoin pieces.
Proof.
  induction pieces as [|[|c p] pieces IH]; [done|exact IH|].
  change ((c :: p) ++ mjoin (List.filter not_empty pieces) = (c :: p) ++ mjoin pieces). by rewrite IH.
Qed.

Lemma hasher_whole pieces : hasher pieces = hash_string (mjoin pieces).
Proof.
  unfold hasher, hash_string. rewrite <- join_not_empty, <- gh_pieces. do 2 f_equal. generalize gh_init.
  induction pieces as [|[|c p] pieces IH]; intros st; cbn; [done|apply IH|apply IH].
Qed.

(** A file has the hash of its contents, however it is read. *)
Lemma hash_file_whole text : hash_file false (Some text) = Ok (hash_string text).
Proof.
  unfold hash_file, hash_string. rewrite gh_pieces, read_chunks_join; [done| |lia]. unfold hash_buffer. lia.
Qed.

Lemma digest_valid s : is_valid_digest (hash_string s) = true.
Proof.
  unfold is_valid_digest, hash_string. rewrite hex_encode_length, generichash_length. cbn [Nat.mul Nat.add Nat.eqb andb].
  induction (generichash s) as [|c t IH]; [done|]. change (hex_encode (c :: t)) with (hex_byte c ++ hex_encode t).
  rewrite forallb_app, IH, andb_true_r. revert c. apply byte_case. by vm_compute.
Qed.

Lemma hash_string_collision s t : hash_string s = hash_string t -> s = t \/ (s <> t /\ generichash s = generichash t).
Proof. intros E%hex_encode_inj. destruct (decide (s = t)); [by left|by right]. Qed.

(** The parts of a key before the version cannot contain the separator, so
    different inputs have different keys, up to collisions. *)
Lemma compose_key_inj a b :
  (forall k, k = a \/ k = b -> free_of "000" (ki_file k) /\ free_of "000" (ki_content_hash k) /\ free_of "000" (ki_ruleset_hash k)) ->
  compose_key a = compose_key b -> a = b \/ exists s t, s <> t /\ generichash s = generichash t.
Proof.
  intros Hfree. unfold compose_key. rewrite !hasher_whole. intros [E|Hc]%hash_string_collision; [|right; eauto]. left.
  destruct (Hfree a (or_introl eq_refl)) as (Ha1 & Ha2 & Ha3), (Hfree b (or_intror eq_refl)) as (Hb1 & Hb2 & Hb3).
  destruct a as [a1 a2 a3 a4], b as [b1 b2 b3 b4]. cbn [ki_file ki_content_hash ki_ruleset_hash ki_tool_version] in *.
  cbn [mjoin list_join] in E. rewrite ?app_nil_r in E. cbn [app] in E.
  apply (f_equal (split_on "000")) in E. rewrite !split_on_app in E by done. injection E as -> -> -> E.
  apply (f_equal (join_with "000")) in E. rewrite !join_split in E. by rewrite E.
Qed.
End hashes.

(** How a statement ends: as SQL says, or with a message and a code *)
Inductive Sql : Type := SqlDone | SqlError (message : str) (code : Z).
