(* ===== verification/ScanCache.v ===== *)
(** * Scan results by key: [libs/cache/src/store.cpp]

    The table [scan_cache] and the five statements on it. *)

From Stdlib Require Import ZArith Ascii String Lia.
From stdpp Require Import base list gmap fin_maps strings.
From S2P Require Import Prelude CxxString Lines Json JsonText AuditLog Cache.

Record StoreError : Type := mkStoreError { se_message : str; sqlite_code : Z }.
Record CacheEntry : Type := mkCacheEntry { findings_json : str; created_at_unix : Z; ce_size_bytes : Z }.
Record Row : Type := mkRow {
  file_path : str; content_hash : str; ruleset_hash : str; tool_version : str; row_findings : str; row_created_at : Z;
  row_size_bytes : Z;
}.
Record CacheStats : Type := mkStats { entry_count : Z; total_size_bytes : Z; oldest_entry_unix : Z; newest_entry_unix : Z }.

(** The table by [cache_key]; [None] before [open]. *)
Abbreviation Table := (option (gmap str Row)).

Definition not_open {A} : expected A StoreError := Unexpected (mkStoreError (lit "ScanCache not open") 0).
(** The errors of [prepare] and of [step] differ in their first word. *)
Definition sql_error {A} (ctx : string) (message : str) (code : Z) : expected A StoreError :=
  Unexpected (mkStoreError (lit ctx ++ lit ": " ++ message) code).

Definition get (db : Table) (rc : Sql) (cache_key : str) : expected (option CacheEntry) StoreError :=
  match db, rc with
  | None, _ => not_open
  | _, SqlError m c => sql_error "step get" m c
  | Some t, SqlDone =>
      Ok ((fun r => mkCacheEntry (row_findings r) (row_created_at r) (row_size_bytes r)) <$> (t !! cache_key))
  end.

Definition put `{Blake2b} (db : Table) (rc : Sql) (now : Z) (inputs : KeyInputs) (entry : CacheEntry) :
    expected unit StoreError * Table :=
  match db, rc with
  | None, _ => (not_open, db)
  | _, SqlError m c => (sql_error "step put" m c, db)
  | Some t, SqlDone =>
      let created := if (0 <? created_at_unix entry)%Z then created_at_unix entry else now in
      let size := if (0 <? ce_size_bytes entry)%Z then ce_size_bytes entry else Z.of_nat (length (findings_json entry)) in
      (Ok tt, Some (<[compose_key inputs := mkRow (ki_file inputs) (ki_content_hash inputs) (ki_ruleset_hash inputs)
                        (ki_tool_version inputs) (findings_json entry) created size]> t))
  end.

Definition purge (db : Table) (rc : Sql) : expected Z StoreError * Table :=
  match db, rc with
  | None, _ => (not_open, db)
  | _, SqlError m c => (Unexpected (mkStoreError (lit "purge: " ++ m) c), db)
  | Some t, SqlDone => (Ok (Z.of_nat (size t)), Some ∅)
  end.

Definition is_old (limit : Z) (kv : str * Row) : Prop := (row_created_at kv.2 < limit)%Z.
#[export] Instance is_old_dec limit kv : Decision (is_old limit kv).
Proof. unfold is_old. apply _. Defined.

Definition purge_older_than (db : Table) (rc : Sql) (ttl_seconds now_unix : Z) : expected Z StoreError * Table :=
  match db, rc with
  | None, _ => (not_open, db)
  | _, SqlError m c => (sql_error "step purge_older" m c, db)
  | Some t, SqlDone =>
      (Ok (Z.of_nat (size (filter (is_old (now_unix - ttl_seconds)) t))), Some (filter (fun kv => ~ is_old (now_unix - ttl_seconds) kv) t))
  end.

(** The aggregates of SQL; a sum out of range fails the statement, whose
    failure is not reported. *)
Definition rows (t : gmap str Row) : list Row := snd <$> map_to_list t.
Definition sum_sizes (t : gmap str Row) : Z := foldr Z.add 0%Z (row_size_bytes <$> rows t).
Definition extreme (better : Z -> Z -> Z) (zs : list Z) : Z := match zs with [] => 0%Z | z :: zs => foldl better z zs end.
Definition stats (db : Table) (rc : Sql) : expected CacheStats StoreError :=
  match db, rc with
  | None, _ => not_open
  | _, SqlError _ _ => Ok (mkStats 0 0 0 0)
  | Some t, SqlDone =>
      if decide (int64 (sum_sizes t)) then
        Ok (mkStats (Z.of_nat (size t)) (sum_sizes t) (extreme Z.min (row_created_at <$> rows t)) (extreme Z.max (row_created_at <$> rows t)))
      else Ok (mkStats 0 0 0 0)
  end.

(** An entry that was put is found by its key until something that is older
    than it is asked for is purged; other keys keep their entries. *)
Lemma put_get `{Blake2b} t now inputs entry t' : put (Some t) SqlDone now inputs entry = (Ok tt, t') ->
  (exists e, get t' SqlDone (compose_key inputs) = Ok (Some e) /\ findings_json e = findings_json entry /\
     (0 < created_at_unix entry -> created_at_unix e = created_at_unix entry)%Z) /\
  (forall k, k <> compose_key inputs -> get t' SqlDone k = get (Some t) SqlDone k).
Proof.
  cbn. intros [= <-]. split.
  - eexists. cbn. rewrite lookup_insert_eq. split; [done|]. split; [done|]. cbn. intros H1.
    by rewrite (proj2 (Z.ltb_lt _ _) H1).
  - intros k Hk. cbn. by rewrite lookup_insert_ne.
Qed.

(** A purge by age removes exactly the rows created before the limit, and
    reports their number. *)
Lemma purge_older_exact t ttl now n t' : purge_older_than (Some t) SqlDone ttl now = (Ok n, Some t') ->
  n = Z.of_nat (size t - size t') /\
  forall k r, t' !! k = Some r <-> t !! k = Some r /\ (now - ttl <= row_created_at r)%Z.
Proof.
  cbn. intros [= <- <-]. split.
  - f_equal. rewrite <- (map_filter_union_complement (is_old (now - ttl)) t) at 2.
    rewrite map_size_disj_union by apply map_disjoint_filter_complement. lia.
  - intros k r. rewrite map_lookup_filter_Some. unfold is_old. cbn [snd]. rewrite Z.nlt_ge. done.
Qed.
