(* ===== verification/JsonCache.v ===== *)
(** * Parsed documents by file: [libs/cache/src/json_cache.cpp]

    A document is stored under the hash of its file and served while the file
    still has that hash. *)

From Stdlib Require Import ZArith Ascii String Lia.
From stdpp Require Import base list gmap fin_maps strings.
From S2P Require Import Prelude CxxString Lines Json JsonText AuditLog Cache.

Record JsonCacheStats : Type := mkJsonStats { hits : Z; misses : Z; bytes_stored : Z; entries : Z }.
(** The table by [file_path]: the content hash and the MessagePack blob *)
Record JsonCache : Type := mkJsonCache { table : option (gmap str (str * str)); st : JsonCacheStats }.

Definition no_stats : JsonCacheStats := mkJsonStats 0 0 0 0.
Definition hit (s : JsonCacheStats) : JsonCacheStats := mkJsonStats (u64 (hits s + 1)) (misses s) (bytes_stored s) (entries s).
Definition miss (s : JsonCacheStats) : JsonCacheStats := mkJsonStats (hits s) (u64 (misses s + 1)) (bytes_stored s) (entries s).

Section json_cache.
Context `{JsonText} `{!MsgPack} `{Blake2b}.
(** The text of a parse error *)
Context (what : str -> str).

Definition not_open {A} : expected A str := Unexpected (lit "JsonCache not open").
Definition prefixed {A} (p : string) (message : str) : expected A str := Unexpected (lit p ++ message).

(** The stored document, if its hash is the current one and it can be decoded *)
Definition stored_document (row : option (str * str)) (current_hash : str) : option jv :=
  match row with
  | Some (h, blob) =>
      if bool_decide (h = current_hash) then match blob with [] => None | _ => from_msgpack blob end else None
  | None => None
  end.

(** [content] is the file at that moment, [None] when it does not exist. *)
Definition get (c : JsonCache) (rc : Sql) (file : str) (content : option str) : expected (option jv) str * JsonCache :=
  match table c with
  | None => (not_open, c)
  | Some t =>
      match content with
      | None => (Ok None, c)
      | Some _ =>
          match hash_file false content with
          | Unexpected e => (prefixed "hash_file: " e, c)
          | Ok current_hash =>
              match rc with
              | SqlError m _ => (prefixed "step get: " m, c)
              | SqlDone =>
                  match stored_document (t !! file) current_hash with
                  | Some j => (Ok (Some j), mkJsonCache (table c) (hit (st c)))
                  | None => (Ok None, mkJsonCache (table c) (miss (st c)))
                  end
              end
          end
      end
  end.

Definition put (c : JsonCache) (rc : Sql) (file : str) (content : option str) (parsed : jv) : expected unit str * JsonCache :=
  match table c with
  | None => (not_open, c)
  | Some t =>
      match hash_file false content with
      | Unexpected e => (prefixed "hash_file: " e, c)
      | Ok current_hash =>
          let blob := to_msgpack parsed in
          match rc with
          | SqlError m _ => (prefixed "step put: " m, c)
          | SqlDone =>
              (Ok tt, mkJsonCache (Some (<[file := (current_hash, blob)]> t))
                        (mkJsonStats (hits (st c)) (misses (st c)) (u64 (bytes_stored (st c) + Z.of_nat (length blob)))
                           (u64 (entries (st c) + 1))))
          end
      end
  end.

(** [looked], [read] and [hashed] are the file when it is looked up, parsed and
    stored. *)
Definition get_or_load (c : JsonCache) (rc_get rc_put : Sql) (file : str) (looked read hashed : option str) :
    expected jv str * JsonCache :=
  match get c rc_get file looked with
  | (Unexpected e, c) => (Unexpected e, c)
  | (Ok (Some j), c) => (Ok j, c)
  | (Ok None, c) =>
      match read with
      | None => (prefixed "cannot open file: " file, c)
      | Some text =>
          match json_parse text with
          | None => (prefixed "parse: " (what text), c)
          | Some parsed =>
              match put c rc_put file hashed parsed with
              | (Unexpected e, c) => (Unexpected e, c)
              | (Ok _, c) => (Ok parsed, c)
              end
          end
      end
  end.

Definition purge (c : JsonCache) (rc : Sql) : expected Z str * JsonCache :=
  match table c, rc with
  | None, _ => (not_open, c)
  | _, SqlError m _ => (prefixed "purge: " m, c)
  | Some t, SqlDone => (Ok (Z.of_nat (size t)), mkJsonCache (Some ∅) no_stats)
  end.

(** ** The cache cannot be observed *)

(** Loading without a cache *)
Definition direct_load (file : str) (content : option str) : expected jv str :=
  match content with
  | None => prefixed "cannot open file: " file
  | Some text => match json_parse text with Some j => Ok j | None => prefixed "parse: " (what text) end
  end.

(** What happens to a file while a load runs, after the lookup and before the
    parse: nothing, or another process writes or removes it. *)
Inductive Change : Type := Unchanged | Rewritten (text : str) | Removed.

(** The outcomes of the SQL statements are part of the operations. *)
Inductive CacheOp : Type :=
| WriteFile (file text : str)
| RemoveFile (file : str)
| Load (file : str) (during : Change) (rc_get rc_put : Sql)
| Purge (rc : Sql).

Definition change (during : Change) (f : str) (fs : gmap str str) : gmap str str :=
  match during with Unchanged => fs | Rewritten text => <[f := text]> fs | Removed => delete f fs end.

Definition cache_step (fs : gmap str str) (c : JsonCache) (op : CacheOp) :
    gmap str str * JsonCache * list (expected jv str) :=
  match op with
  | WriteFile f text => (<[f := text]> fs, c, [])
  | RemoveFile f => (delete f fs, c, [])
  | Load f during rc_get rc_put =>
      let fs' := change during f fs in
      let '(r, c) := get_or_load c rc_get rc_put f (fs !! f) (fs' !! f) (fs' !! f) in (fs', c, [r])
  | Purge rc => (fs, (purge c rc).2, [])
  end.

Fixpoint cached_answers (fs : gmap str str) (c : JsonCache) (ops : list CacheOp) : list (expected jv str) :=
  match ops with
  | [] => []
  | op :: ops => let '(fs, c, answers) := cache_step fs c op in answers ++ cached_answers fs c ops
  end.

(** What a load may answer: what reading the file gives, as it was before or
    is after the change, or the failure of one of the two statements. *)
Inductive load_answer (file : str) (before after : option str) (rc_get rc_put : Sql) : expected jv str -> Prop :=
| answer_before j : direct_load file before = Ok j -> load_answer file before after rc_get rc_put (Ok j)
| answer_after : load_answer file before after rc_get rc_put (direct_load file after)
| answer_get m code : rc_get = SqlError m code -> load_answer file before after rc_get rc_put (prefixed "step get: " m)
| answer_put m code : rc_put = SqlError m code -> load_answer file before after rc_get rc_put (prefixed "step put: " m).

(** One answer for each load. *)
Fixpoint transparent (fs : gmap str str) (ops : list CacheOp) (answers : list (expected jv str)) : Prop :=
  match ops with
  | [] => answers = []
  | WriteFile f text :: ops => transparent (<[f := text]> fs) ops answers
  | RemoveFile f :: ops => transparent (delete f fs) ops answers
  | Load f during rc_get rc_put :: ops =>
      match answers with
      | r :: answers =>
          load_answer f (fs !! f) (change during f fs !! f) rc_get rc_put r /\ transparent (change during f fs) ops answers
      | [] => False
      end
  | Purge _ :: ops => transparent fs ops answers
  end.

Context `{!MsgPackOk}.

(** Every row holds the document some text with its hash parses to. *)
Definition rows_ok (c : JsonCache) : Prop :=
  exists t, table c = Some t /\
  forall f h blob, t !! f = Some (h, blob) -> exists text j, h = hash_string text /\ json_parse text = Some j /\ blob = to_msgpack j.

Definition collision : Prop := exists s t : str, s <> t /\ generichash s = generichash t.

Lemma rows_stats c s : rows_ok c -> rows_ok (mkJsonCache (table c) s).
Proof. by intros (t & Ht & Hr); exists t. Qed.

(** A lookup leaves the rows alone, and finds what the file parses to. *)
Lemma get_spec c rc file content r c' : rows_ok c -> get c rc file content = (r, c') ->
  rows_ok c' /\
  (match r with
   | Ok (Some j) => direct_load file content = Ok j
   | Ok None => True
   | Unexpected e => exists m code, rc = SqlError m code /\ Unexpected e = @prefixed jv "step get: " m
   end \/ collision).
Proof.
  intros Hc. pose proof Hc as (t & Ht & Hrows). unfold get. rewrite Ht. destruct content as [text|]; [|intros [= <- <-]; auto].
  rewrite hash_file_whole. destruct rc as [|m code]; [|intros [= <- <-]; split; [done|left; by exists m, code]].
  destruct (stored_document (t !! file) (hash_string text)) as [j|] eqn:Es; intros [= <- <-];
    rewrite <- Ht; (split; [by apply rows_stats|]); [|by left].
  unfold stored_document in Es. destruct (t !! file) as [[h blob]|] eqn:Ef; [|done]. case_bool_decide as Eh; [|done].
  destruct (Hrows _ _ _ Ef) as (text' & j' & Hh & Hp & ->). destruct (to_msgpack j') as [|b bs] eqn:Eb; [done|].
  rewrite <- Eb, from_to_msgpack in Es. injection Es as ->. rewrite Hh in Eh.
  destruct (hash_string_collision _ _ Eh) as [->|[Hne Hg]]; [left; cbn; by rewrite Hp|right; by exists text', text].
Qed.

(** Storing the document of the text that is hashed keeps the rows right. *)
Lemma put_spec c rc file text j r c' : rows_ok c -> json_parse text = Some j ->
  put c rc file (Some text) j = (r, c') ->
  rows_ok c' /\ (r = Ok tt \/ exists m code, rc = SqlError m code /\ r = prefixed "step put: " m).
Proof.
  intros Hc Hp. pose proof Hc as (t & Ht & Hrows). unfold put. rewrite Ht, hash_file_whole.
  destruct rc as [|m code]; intros [= <- <-]; [|by eauto 6].
  split; [|by left]. eexists. split; [done|]. intros f h blob. rewrite lookup_insert_Some.
  intros [[<- [= <- <-]]|[_ Hf]]; [by exists text, j|by eapply Hrows].
Qed.

Lemma cached_load_spec c rc_get rc_put file before after r c' : rows_ok c ->
  get_or_load c rc_get rc_put file before after after = (r, c') ->
  rows_ok c' /\ (load_answer file before after rc_get rc_put r \/ collision).
Proof.
  intros Hc. unfold get_or_load. destruct (get c rc_get file before) as [r1 c1] eqn:Eg.
  destruct (get_spec _ _ _ _ _ _ Hc Eg) as [Hc1 Hr1]. destruct r1 as [[j|]|e].
  - intros [= <- <-]. split; [done|]. destruct Hr1 as [Hr1|]; [left; by apply answer_before|by right].
  - destruct after as [text|]; [|intros [= <- <-]; split; [done|left; apply answer_after]].
    pose proof (answer_after file before (Some text) rc_get rc_put) as Ha. unfold direct_load in Ha.
    destruct (json_parse text) as [j|] eqn:Ep; [|intros [= <- <-]; split; [done|by left]].
    destruct (put c1 rc_put file (Some text) j) as [r2 c2] eqn:Es.
    destruct (put_spec _ _ _ _ _ _ _ Hc1 Ep Es) as [Hc2 [->|(m & code & Hm & ->)]]; intros [= <- <-]; (split; [done|]); left; [done|].
    by eapply answer_put.
  - intros [= <- <-]. split; [done|]. destruct Hr1 as [(m & code & Hm & ->)|]; [left; by eapply answer_get|by right].
Qed.

(** C32: whatever files are written, removed and loaded, whichever of the SQL
    statements fail and whenever the cache is purged, a load answers as if the
    file were read and parsed, or reports the failure of its own lookup or
    insertion: a stale document is never served, unless BLAKE2b collides.  The
    file may change between the lookup of a load and the parse, and the answer
    is then that of before or after; it does not change between the parse and
    the hash that is stored with the document ([changed_while_loading] is what
    happens otherwise), and a statement that fails leaves the table alone. *)
Theorem json_cache_transparent fs c ops : rows_ok c ->
  transparent fs ops (cached_answers fs c ops) \/ collision.
Proof.
  revert fs c. induction ops as [|op ops IH]; intros fs c Hc; [by left|].
  destruct op as [f text|f|f during rc_get rc_put|rc]; cbn [cached_answers cache_step transparent app]; try by apply IH.
  - destruct (get_or_load _ _ _ _ _ _ _) as [r c'] eqn:E. cbn [app].
    destruct (cached_load_spec _ _ _ _ _ _ _ _ Hc E) as [Hc' [Hr|Hcol]]; [|by right].
    destruct (IH (change during f fs) c' Hc') as [Ht|Hcol]; [by left|by right].
  - apply IH. pose proof Hc as (t & Ht & _). unfold purge. rewrite Ht. destruct rc; [|done].
    exists ∅. split; [done|]. intros f h blob Hf. by rewrite lookup_empty in Hf.
Qed.

(** A file that changes while it is being parsed is stored under the hash of
    its new contents: the old document is then served for the new text. *)
Lemma changed_while_loading c t file old new j_old : table c = Some t ->
  stored_document (t !! file) (hash_string old) = None -> json_parse old = Some j_old -> to_msgpack j_old <> [] ->
  exists c1, get_or_load c SqlDone SqlDone file (Some old) (Some old) (Some new) = (Ok j_old, c1) /\
    (get_or_load c1 SqlDone SqlDone file (Some new) (Some new) (Some new)).1 = Ok j_old.
Proof.
  intros Ht Hs Hp Hne. unfold get_or_load, get, put. rewrite Ht, !hash_file_whole, Hs, Hp. cbn [table]. eexists.
  split; [done|]. cbn [table]. rewrite lookup_insert_eq. cbn [stored_document]. rewrite bool_decide_true by done.
  destruct (to_msgpack j_old) as [|b bs] eqn:Eb; [done|]. rewrite <- Eb, from_to_msgpack. done.
Qed.

(** A row that cannot be written fails the load of a good document. *)
Lemma unwritable_cache_fails_load c t file text j m code : table c = Some t ->
  stored_document (t !! file) (hash_string text) = None -> json_parse text = Some j ->
  (get_or_load c SqlDone (SqlError m code) file (Some text) (Some text) (Some text)).1 = prefixed "step put: " m.
Proof.
  intros Ht Hs Hp. unfold get_or_load, get, put. rewrite Ht, !hash_file_whole, Hs, Hp. cbn [table].
  done.
Qed.
End json_cache.

(** ** Witness *)

Definition digest (s : str) : str := take 32 (s ++ replicate 32 "0"%char).
Lemma hash_length s : length (digest s) = 32.
Proof. unfold digest. rewrite length_take, length_app, length_replicate. lia. Qed.
Lemma foldl_join (pieces : list str) : forall s, foldl app s pieces = s ++ mjoin pieces.
Proof.
  induction pieces as [|p pieces IH]; intros s; [symmetry; apply app_nil_r|].
  cbn [foldl]. rewrite IH. change (mjoin (p :: pieces)) with (p ++ mjoin pieces). by rewrite app_assoc.
Qed.
Definition padded : Blake2b :=
  {| generichash := digest; gh_state := str; gh_init := []; gh_update := app; gh_final := digest;
     generichash_length := hash_length; gh_pieces p := f_equal digest (foldl_join p []) |}.

(** A hit, a load whose file is rewritten after the lookup, and one that cannot
    be stored. *)
Lemma json_cache_transparent_witness :
  let J := TreeJson.json in
  let a := lit "a.json" in
  let ops := [WriteFile a (lit "1"); Load a Unchanged SqlDone SqlDone; Load a Unchanged SqlDone SqlDone;
    WriteFile a (lit "2"); Load a (Rewritten (lit "3")) SqlDone SqlDone; WriteFile a (lit "4");
    Load a Unchanged SqlDone (SqlError (lit "full") 13)] in
  @transparent J TreeJson.text (fun _ => []) ∅ ops
    (@cached_answers J TreeJson.text TreeJson.msgpack padded (fun _ => []) ∅ (mkJsonCache (Some ∅) no_stats) ops) \/
  @collision padded.
Proof.
  intros J a ops. apply (@json_cache_transparent J TreeJson.text TreeJson.msgpack padded (fun _ => []) TreeJson.msgpack_ok).
  exists ∅. split; [reflexivity|]. intros f h blob Hf. by rewrite lookup_empty in Hf.
Defined.
