(* ===== verification/ProviderRouter.v ===== *)
(** * Provider routing of the command line: [apps/cli/src/provider_router.cpp]

    Tiers, task classes, the strategy and its fallbacks, and reloading of the
    two configuration files, over the cost router of [Router].  The environment,
    the programs on the path and the files are a [World] that is an argument.
    A loader stops at the first exception; what it did before stays. *)

From Stdlib Require Import ZArith Ascii String Lia.
From stdpp Require Import base list gmap strings.
From S2P Require Import Prelude CxxString Doubles Json JsonObjects JsonText Router.

(** ** Tiers *)

Inductive Tier : Type := Routine | Data | Code | Reason.
Definition tier_rank (t : Tier) : nat := match t with Routine => 0 | Data => 1 | Code => 2 | Reason => 3 end.
(** [std::max] *)
Definition tier_max (a b : Tier) : Tier := if (tier_rank a <? tier_rank b)%nat then b else a.

Definition tier_label (t : Tier) : str :=
  match t with Routine => lit "routine" | Data => lit "data" | Code => lit "code" | Reason => lit "reason" end.
Definition parse_tier (s : str) : Tier :=
  if bool_decide (s = lit "routine") then Routine
  else if bool_decide (s = lit "data") then Data
  else if bool_decide (s = lit "reason") || bool_decide (s = lit "core") then Reason
  else Code.

Record ModelSelection : Type := mkSelection {
  ms_provider : str; ms_model : str; ms_tier : Tier; estimated_cost_per_1m : double; route_reason : str; ms_task_class : str;
}.
Record RouteOptions : Type := mkOptions { provider_override : str; local_only : bool; verbose : bool }.
Record TaskClassRoute : Type := mkRoute { r_primary : str; r_fallback : list str }.
Record TierModels : Type := mkModels { m_routine : str; m_data : str; m_code : str; m_reason : str }.
Record ModeOverride : Type := mkOverride { o_provider : str; o_model : str; o_cost : double }.

Definition contains_any (keywords : list string) (text : str) : bool := existsb (fun k => contains_sub (lit k) text) keywords.
Definition reason_keywords : list string :=
  ["architect"; "design"; "plan"; "strategy"; "complex"; "critical"; "security"; "audit"; "review"]%string.
Definition code_keywords : list string :=
  ["code"; "implement"; "refactor"; "debug"; "test"; "build"; "fix"; "optimize"; "develop"]%string.
Definition data_keywords : list string :=
  ["data"; "analyze"; "summarize"; "report"; "aggregate"; "query"; "extract"; "parse"; "transform"]%string.

Definition analyze_task_tier (task : str) : Tier :=
  let text := lower task in
  if contains_any reason_keywords text then Reason
  else if contains_any code_keywords text then Code
  else if contains_any data_keywords text then Data
  else Routine.

(** The environment, the programs found on the path, and the two files with
    their times. *)
Record World : Type := mkWorld {
  getenv : str -> option str; process_available : str -> bool; router_file : option (Z * str); strategy_file : option (Z * str);
}.
Definition env (w : World) (name : string) : option str := getenv w (lit name).
Definition env_set (w : World) (name : string) : bool := match env w name with Some _ => true | None => false end.

Definition detect_provider (w : World) : str :=
  match env w "EUXIS_DEFAULT_PROVIDER" with
  | Some p => p
  | None =>
      if env_set w "ANTHROPIC_API_KEY" then lit "claude"
      else if env_set w "OPENAI_API_KEY" then lit "openai"
      else if env_set w "GEMINI_API_KEY" || env_set w "GOOGLE_API_KEY" then lit "gemini"
      else lit "claude"
  end.

(** [EUXIS_LOCAL_ONLY] *)
Definition local_mode (w : World) : bool :=
  match env w "EUXIS_LOCAL_ONLY" with
  | Some v => bool_decide (v = lit "true") || bool_decide (v = lit "1") | None => false end.

(** ** Configuration *)

Section config.
Context `{JsonText}.

Record RouterConfig : Type := mkConfig {
  models : TierModels; flash_overrides : gmap str ModeOverride; standard_overrides : gmap str ModeOverride;
  forensic_overrides : gmap str ModeOverride;
}.
Record StrategyConfig : Type := mkStrategy {
  strategy_defaults : gmap str TaskClassRoute; agent_class_hints : gmap str str; classification_keywords : gmap str (list str);
}.

Definition read_model (m : jv) (k : string) (set : str -> TierModels -> TierModels) : Step TierModels :=
  if_member m k (fun v => with_value (get_string v) set).
Definition read_models (m : jv) : Step TierModels :=
  seq_step (read_model m "routine" (fun s t => mkModels s (m_data t) (m_code t) (m_reason t)))
  (seq_step (read_model m "data" (fun s t => mkModels (m_routine t) s (m_code t) (m_reason t)))
  (seq_step (read_model m "code" (fun s t => mkModels (m_routine t) (m_data t) s (m_reason t)))
            (read_model m "reason" (fun s t => mkModels (m_routine t) (m_data t) (m_code t) s)))).

Definition read_override (default_model : string) (default_cost : double) (ovr : jv) : option ModeOverride :=
  p ← value get_string ovr "provider" (lit "claude"); m ← value get_string ovr "model" (lit default_model);
  c ← value get_double ovr "cost" default_cost; Some (mkOverride p m c).
Definition read_overrides (default_model : string) (default_cost : double) (j : jv) : Step (gmap str ModeOverride) :=
  for_each (fun kv => with_value (read_override default_model default_cost kv.2) (fun o => <[kv.1 := o]>)) (entries_of j).

(** Steps on one part of the configuration *)
Definition on_models (f : Step TierModels) : Step RouterConfig :=
  fun c => let '(ok, x) := f (models c) in (ok, mkConfig x (flash_overrides c) (standard_overrides c) (forensic_overrides c)).
Definition on_flash (f : Step (gmap str ModeOverride)) : Step RouterConfig :=
  fun c => let '(ok, x) := f (flash_overrides c) in (ok, mkConfig (models c) x (standard_overrides c) (forensic_overrides c)).
Definition on_standard (f : Step (gmap str ModeOverride)) : Step RouterConfig :=
  fun c => let '(ok, x) := f (standard_overrides c) in (ok, mkConfig (models c) (flash_overrides c) x (forensic_overrides c)).
Definition on_forensic (f : Step (gmap str ModeOverride)) : Step RouterConfig :=
  fun c => let '(ok, x) := f (forensic_overrides c) in (ok, mkConfig (models c) (flash_overrides c) (standard_overrides c) x).

Definition read_router_json (j : jv) : Step RouterConfig :=
  seq_step (if_member j "models" (fun m => on_models (read_models m)))
  (seq_step (if_member j "flash_overrides" (fun v => on_flash (read_overrides "claude-haiku-4-5" (d_of_Z 1) v)))
  (seq_step (if_member j "standard_overrides" (fun v => on_standard (read_overrides "claude-sonnet-4-6" (d_of_Z 3) v)))
            (if_member j "forensic_overrides" (fun v => on_forensic (read_overrides "claude-opus-4-6" (d_of_Z 15) v))))).

Definition read_route (route : jv) : option TaskClassRoute :=
  p ← value get_string route "primary" (lit "claude");
  f ← match at_key route "fallback" with Some l => mapM get_string (items l) | None => Some [] end;
  Some (mkRoute p f).
Definition on_defaults (f : Step (gmap str TaskClassRoute)) : Step StrategyConfig :=
  fun c => let '(ok, x) := f (strategy_defaults c) in (ok, mkStrategy x (agent_class_hints c) (classification_keywords c)).
Definition on_hints (f : Step (gmap str str)) : Step StrategyConfig :=
  fun c => let '(ok, x) := f (agent_class_hints c) in (ok, mkStrategy (strategy_defaults c) x (classification_keywords c)).
Definition on_keywords (f : Step (gmap str (list str))) : Step StrategyConfig :=
  fun c => let '(ok, x) := f (classification_keywords c) in (ok, mkStrategy (strategy_defaults c) (agent_class_hints c) x).

Definition read_strategy_json (j : jv) : Step StrategyConfig :=
  seq_step (if_member j "defaults" (fun v =>
              on_defaults (for_each (fun kv => with_value (read_route kv.2) (fun r => <[kv.1 := r]>)) (entries_of v))))
  (seq_step (if_member j "agent_class_hints" (fun v =>
              on_hints (for_each (fun kv => with_value (get_string kv.2) (fun s => <[kv.1 := s]>)) (entries_of v))))
            (if_member j "classification_keywords" (fun v =>
              on_keywords (for_each (fun kv => with_value (mapM get_string (items kv.2)) (fun l => <[kv.1 := l]>)) (entries_of v))))).

Record ProviderRouter : Type := mkPRouter {
  config_ : jv; strategy_config_ : jv; strategy_loaded_ : bool; rc : RouterConfig; sc : StrategyConfig;
  fin_router : FinOpsRouter; router_last_modified_ : Z; strategy_last_modified_ : Z; s_tool_cache : gmap str bool;
}.

Definition default_models : TierModels :=
  mkModels (lit "claude-haiku-4-5") (lit "claude-haiku-4-5") (lit "claude-sonnet-4-6") (lit "claude-opus-4-6").
(** What [reload_config] starts from *)
Definition reload_models : TierModels :=
  mkModels (lit "gemini-2.5-flash-lite") (lit "gemini-2.5-flash") (lit "claude-sonnet-4-6") (lit "claude-opus-4-6").
Definition empty_strategy : StrategyConfig := mkStrategy ∅ ∅ ∅.

(** A parsed file and what was read of it: nothing when the file is missing or
    does not parse. *)
Definition load_config (file : option (Z * str)) (j : jv) (c : RouterConfig) : jv * RouterConfig :=
  match file with
  | None => (j, c)
  | Some (_, text) => match json_parse text with None => (j, c) | Some cfg => (cfg, (read_router_json cfg c).2) end
  end.
Definition load_strategy_config (file : option (Z * str)) (j : jv) (c : StrategyConfig) : jv * bool * StrategyConfig :=
  match file with
  | None => (j, false, c)
  | Some (_, text) =>
      match json_parse text with
      | None => (j, false, c)
      | Some cfg => let '(ok, c) := read_strategy_json cfg c in (cfg, ok, c)
      end
  end.

(** Times are numbers; a file that was never seen has the time of a new object. *)
Definition mtime (file : option (Z * str)) (old : Z) : Z := match file with Some (t, _) => t | None => old end.

(** The tool cache is shared by all routers. *)
Definition new_provider_router (w : World) (cache : gmap str bool) : ProviderRouter :=
  let '(j, c) := load_config (router_file w) jnull (mkConfig default_models ∅ ∅ ∅) in
  let '(sj, loaded, s) := load_strategy_config (strategy_file w) jnull empty_strategy in
  mkPRouter j sj loaded c s (new_router (d_of_Z 100)) (mtime (router_file w) 0) (mtime (strategy_file w) 0) cache.

(** ** Reloading *)

(** The two files read into new values: [None] is an exception. *)
Definition fresh_router (file : option (Z * str)) : option (jv * RouterConfig) :=
  let start := mkConfig reload_models ∅ ∅ ∅ in
  match file with
  | None => Some (jnull, start)
  | Some (_, text) => j ← json_parse text; let '(ok, c) := read_router_json j start in if ok : bool then Some (j, c) else None
  end.
Definition fresh_strategy (file : option (Z * str)) : option (jv * bool * StrategyConfig) :=
  match file with
  | None => Some (jnull, false, empty_strategy)
  | Some (_, text) => j ← json_parse text; let '(ok, c) := read_strategy_json j empty_strategy in if ok : bool then Some (j, true, c) else None
  end.

(** [json_neq] is [operator!=] of two values. *)
Definition reload_config (json_neq : jv -> jv -> bool) (w : World) (r : ProviderRouter) : bool * ProviderRouter :=
  match fresh_router (router_file w) with
  | None => (false, r)
  | Some (j, c) =>
      match fresh_strategy (strategy_file w) with
      | None => (false, r)
      | Some (sj, loaded, s) =>
          let changed := json_neq j (config_ r) || json_neq sj (strategy_config_ r) in
          (changed, mkPRouter j sj loaded c s (fin_router r) (mtime (router_file w) (router_last_modified_ r))
                      (mtime (strategy_file w) (strategy_last_modified_ r)) (if changed then ∅ else s_tool_cache r))
      end
  end.

Definition is_newer (file : option (Z * str)) (seen : Z) : bool :=
  match file with Some (t, _) => negb (t =? seen)%Z | None => false end.
Definition check_and_reload (json_neq : jv -> jv -> bool) (w : World) (r : ProviderRouter) : ProviderRouter :=
  if is_newer (router_file w) (router_last_modified_ r) || is_newer (strategy_file w) (strategy_last_modified_ r)
  then (reload_config json_neq w r).2 else r.
End config.

(** ** Routing *)

Section routing.
Context `{JsonText} (json_neq : jv -> jv -> bool).

Definition select_model (w : World) (r : ProviderRouter) (t : Tier) : ModelSelection :=
  match env w "EUXIS_MODEL_OVERRIDE" with
  | Some ovr => mkSelection (detect_provider w) ovr t d_zero (lit "explicit model override") []
  | None =>
      if local_mode w then
        mkSelection (lit "ollama") (default (lit "qwen2.5-coder:7b") (env w "EUXIS_LOCAL_MODEL")) t d_zero
          (lit "local-only mode") (lit "private_coding")
      else
        let m := models (rc r) in
        let '(model, cost) :=
          match t with
          | Routine => (m_routine m, d_lit 10 100) | Data => (m_data m, d_lit 25 100)
          | Code => (m_code m, d_of_Z 3) | Reason => (m_reason m, d_of_Z 15)
          end in
        mkSelection (detect_provider w) model t cost (lit "tier-based: " ++ tier_label t) []
  end.

(** The model of a provider for a tier *)
Definition route_model (m : TierModels) (provider : str) (t : Tier) : str :=
  if bool_decide (provider = lit "claude") then
    match t with Routine => lit "claude-haiku-4-5" | Data | Code => m_code m | Reason => m_reason m end
  else if bool_decide (provider = lit "gemini") then
    match t with Routine => m_routine m | Data | Code => lit "gemini-2.5-flash" | Reason => lit "gemini-2.5-pro" end
  else if bool_decide (provider = lit "ollama") then lit "qwen2.5-coder:7b"
  else provider ++ lit "-default".

Definition set_fin (r : ProviderRouter) (f : FinOpsRouter) : ProviderRouter :=
  mkPRouter (config_ r) (strategy_config_ r) (strategy_loaded_ r) (rc r) (sc r) f (router_last_modified_ r)
    (strategy_last_modified_ r) (s_tool_cache r).

Definition route (w : World) (r : ProviderRouter) (agent_tier task priority : str) : ModelSelection * ProviderRouter :=
  let r := check_and_reload json_neq w r in
  let effective := tier_max (parse_tier agent_tier) (analyze_task_tier task) in
  let '(provider, f) := select_provider (fin_router r) (tier_label effective) priority in
  (mkSelection provider (route_model (models (rc r)) provider effective) effective d_zero
     (lit "tier-based: " ++ tier_label effective) [], set_fin r f).

(** The three modes differ in their table of overrides and in the tier they report. *)
Definition route_mode (table : gmap str ModeOverride) (t : Tier) (label : string) (w : World) (r : ProviderRouter)
    (agent_id agent_tier prompt : str) : ModelSelection * ProviderRouter :=
  match table !! agent_id with
  | Some o => (mkSelection (o_provider o) (o_model o) t (o_cost o) (lit label ++ agent_id) [], r)
  | None => route w r agent_tier prompt (lit "swarm")
  end.
Definition route_flash (w : World) (r : ProviderRouter) := route_mode (flash_overrides (rc r)) Code "flash override for " w r.
Definition route_standard (w : World) (r : ProviderRouter) := route_mode (standard_overrides (rc r)) Code "standard override for " w r.
Definition route_forensic (w : World) (r : ProviderRouter) := route_mode (forensic_overrides (rc r)) Reason "forensic override for " w r.

(** *** Strategy *)

Definition api_provider_usable (w : World) (p : str) : bool :=
  if bool_decide (p = lit "claude") || bool_decide (p = lit "anthropic") then env_set w "ANTHROPIC_API_KEY"
  else if bool_decide (p = lit "openai") || bool_decide (p = lit "codex") then env_set w "OPENAI_API_KEY"
  else if bool_decide (p = lit "gemini") then env_set w "GEMINI_API_KEY" || env_set w "GOOGLE_API_KEY"
  else if bool_decide (p = lit "ollama") then process_available w (lit "ollama")
  else false.

Definition pillar_class (pillar : str) : option str :=
  if bool_decide (pillar = lit "security") || bool_decide (pillar = lit "supply-chain") then Some (lit "security")
  else if bool_decide (pillar = lit "docs") || bool_decide (pillar = lit "documentation") then Some (lit "research")
  else if bool_decide (pillar = lit "architecture") || bool_decide (pillar = lit "design") then Some (lit "architecture")
  else if bool_decide (pillar = lit "testing") || bool_decide (pillar = lit "execution") then Some (lit "coding")
  else if bool_decide (pillar = lit "review") || bool_decide (pillar = lit "audit") then Some (lit "audit")
  else None.

Definition class_priority : list str :=
  lit <$> ["surgical_edit"; "terminal_automation"; "private_coding"; "multilingual_analysis"; "policy_synthesis";
           "security"; "deep_research"; "architecture"; "audit"; "research"; "coding"]%string.

Definition keyword_class (keywords : gmap str (list str)) (text : str) : option str :=
  List.find (fun cls => existsb (fun kw => contains_sub kw text) (default [] (keywords !! cls))) class_priority.

Definition tier_class (t : Tier) : str :=
  match t with Reason => lit "architecture" | Code => lit "coding" | Data => lit "research" | Routine => lit "coding" end.

Definition classify_task_class (w : World) (r : ProviderRouter) (task agent_id pillar : str) : str :=
  if local_mode w then lit "private_coding"
  else
    match (if bool_decide (agent_id = []) then None else agent_class_hints (sc r) !! agent_id) with
    | Some cls => cls
    | None =>
        match pillar_class pillar with
        | Some cls => cls
        | None =>
            match keyword_class (classification_keywords (sc r)) (lower task) with
            | Some cls => cls
            | None => tier_class (analyze_task_tier task)
            end
        end
    end.

(** [None] is the exception of a model that is not text. *)
Definition strategy_model (r : ProviderRouter) (provider task_class : str) : option str :=
  match at_key (strategy_config_ r) "models" with
  | None => Some []
  | Some ms =>
      match (m ← members ms; m !! provider) with
      | None => Some []
      | Some pm =>
          match (m ← members pm; m !! task_class) with
          | Some v => get_string v
          | None => match at_key pm "default" with Some v => get_string v | None => Some [] end
          end
      end
  end.

Definition class_env (task_class : str) : option string :=
  if existsb (fun c => bool_decide (task_class = lit c)) ["research"; "multilingual_analysis"; "policy_synthesis"; "deep_research"]%string
  then Some "EUXIS_DEFAULT_RESEARCH_PROVIDER"%string
  else if existsb (fun c => bool_decide (task_class = lit c))
    ["coding"; "architecture"; "audit"; "private_coding"; "surgical_edit"; "terminal_automation"]%string
  then Some "EUXIS_DEFAULT_CODING_PROVIDER"%string
  else if bool_decide (task_class = lit "security") then Some "EUXIS_DEFAULT_SECURITY_PROVIDER"%string
  else None.
Definition env_provider_for_class (w : World) (task_class : str) : str :=
  match class_env task_class with Some v => default [] (env w v) | None => [] end.

Definition is_tool (p : str) : bool :=
  bool_decide (p = lit "aider") || bool_decide (p = lit "kiro") || bool_decide (p = lit "shellgpt").

Definition set_tools (r : ProviderRouter) (c : gmap str bool) : ProviderRouter :=
  mkPRouter (config_ r) (strategy_config_ r) (strategy_loaded_ r) (rc r) (sc r) (fin_router r) (router_last_modified_ r)
    (strategy_last_modified_ r) c.
Definition tool_available (w : World) (r : ProviderRouter) (tool : str) : bool * ProviderRouter :=
  match s_tool_cache r !! tool with
  | Some b => (b, r)
  | None => let b := process_available w tool in (b, set_tools r (<[tool := b]> (s_tool_cache r)))
  end.
(** Tools are looked for on the path, the others need credentials. *)
Definition usable (w : World) (r : ProviderRouter) (p : str) : bool * ProviderRouter :=
  if is_tool p then tool_available w r p else (api_provider_usable w p, r).

Definition or_model (model fallback : str) : str := if bool_decide (model = []) then fallback else model.

Definition primary_model (m : TierModels) (primary : str) (t : Tier) : str :=
  if bool_decide (primary = lit "claude") then
    match t with Routine => lit "claude-haiku-4-5" | Data | Code => m_code m | Reason => m_reason m end
  else if bool_decide (primary = lit "openai") then lit "gpt-5.4"
  else if bool_decide (primary = lit "gemini") then lit "gemini-2.5-pro"
  else if bool_decide (primary = lit "ollama") then lit "llama4:maverick"
  else primary ++ lit "-default".
Definition fallback_model (m : TierModels) (fb : str) : str :=
  if bool_decide (fb = lit "claude") then m_code m
  else if bool_decide (fb = lit "openai") then lit "gpt-5.4"
  else if bool_decide (fb = lit "gemini") then lit "gemini-2.5-pro"
  else if bool_decide (fb = lit "ollama") then lit "llama4:maverick"
  else fb.

(** The first fallback that can be used; [None] inside is none of them. *)
Fixpoint fallback_loop (w : World) (r : ProviderRouter) (task_class primary : str) (t : Tier) (fbs : list str) :
    option (option ModelSelection * ProviderRouter) :=
  match fbs with
  | [] => Some (None, r)
  | fb :: fbs =>
      let '(ok, r) := usable w r fb in
      if negb ok then fallback_loop w r task_class primary t fbs
      else
        model ← strategy_model r fb task_class;
        Some (Some (mkSelection fb (or_model model (fallback_model (models (rc r)) fb)) t d_zero
                      (task_class ++ lit " task; " ++ fb ++ lit " (fallback, " ++ primary ++ lit " unavailable)") task_class), r)
  end.

Definition route_by_strategy (w : World) (r : ProviderRouter) (task_class agent_tier prompt : str) (opts : RouteOptions) :
    option (ModelSelection * ProviderRouter) :=
  let t := tier_max (parse_tier agent_tier) (analyze_task_tier prompt) in
  let env_provider := env_provider_for_class w task_class in
  if negb (bool_decide (provider_override opts = [])) then
    let p := provider_override opts in
    model ← strategy_model r p task_class;
    Some (mkSelection p (or_model model (p ++ lit "-default")) t d_zero (lit "explicit --provider override: " ++ p) task_class, r)
  else if local_only opts then
    model ← strategy_model r (lit "ollama") task_class;
    Some (mkSelection (lit "ollama") (default (or_model model (lit "llama4:maverick")) (env w "EUXIS_LOCAL_MODEL"))
            (parse_tier agent_tier) d_zero (lit "local-only mode; all routes forced to Ollama") (lit "private_coding"), r)
  else if negb (bool_decide (env_provider = [])) then
    model ← strategy_model r env_provider task_class;
    Some (mkSelection env_provider (or_model model (env_provider ++ lit "-default")) (parse_tier agent_tier) d_zero
            (lit "env override for " ++ task_class ++ lit ": " ++ env_provider) task_class, r)
  else
    let last r :=
      let '(sel, r) := route w r agent_tier prompt [] in
      Some (mkSelection (ms_provider sel) (ms_model sel) (ms_tier sel) (estimated_cost_per_1m sel)
              (lit "tier fallback (no strategy match for class '" ++ task_class ++ lit "')") task_class, r) in
    match strategy_defaults (sc r) !! task_class with
    | None => last r
    | Some rt =>
        let primary := r_primary rt in
        let '(ok, r) := usable w r primary in
        if ok then
          model ← strategy_model r primary task_class;
          Some (if is_tool primary
                then mkSelection primary (or_model model primary) (parse_tier agent_tier) d_zero
                       (task_class ++ lit " task; " ++ primary ++ lit " preferred (tool available)") task_class
                else mkSelection primary (or_model model (primary_model (models (rc r)) primary t)) t d_zero
                       (task_class ++ lit " task; " ++ primary ++ lit " preferred for " ++ task_class) task_class, r)
        else
          found ← fallback_loop w r task_class primary t (r_fallback rt);
          match found with (Some sel, r) => Some (sel, r) | (None, r) => last r end
    end.

Definition route_with_policy (w : World) (r : ProviderRouter) (task agent_id agent_tier pillar : str) (opts : RouteOptions) :
    option (ModelSelection * ProviderRouter) :=
  route_by_strategy w r (classify_task_class w r task agent_id pillar) agent_tier task opts.

Definition available_providers (w : World) : list str :=
  List.filter (process_available w)
    (lit <$> ["claude"; "gemini"; "openai"; "ollama"; "opencode"; "aider"; "sgpt"; "kiro"]%string).

(** *** Fallback chains *)

Definition chain_entry (p m : string) (cost : Z) : ModelSelection := mkSelection (lit p) (lit m) Code (d_of_Z cost) [] [].
Definition claude_step := chain_entry "claude" "claude-sonnet-4-6" 3.
Definition openai_step := chain_entry "openai" "gpt-5.4" 5.
Definition ollama_step := chain_entry "ollama" "qwen2.5-coder:7b" 0.

Definition built_in_chain (model : str) : list ModelSelection :=
  if contains_any ["claude"; "anthropic"]%string model then [openai_step; ollama_step]
  else if contains_any ["gpt"; "openai"]%string model then [claude_step; ollama_step]
  else [claude_step; openai_step; ollama_step].

Definition model_fallback_chain (r : ProviderRouter) (model : str) : option (list ModelSelection) :=
  match (f ← at_key (config_ r) "model_fallback"; m ← members f; m !! model) with
  | Some entries =>
      mapM (fun e => p ← value get_string e "provider" []; m ← value get_string e "model" [];
                     Some (mkSelection p m Code d_zero [] [])) (items entries)
  | None => Some (built_in_chain model)
  end.
End routing.


(** ** What routing chooses *)

Section choice.
Context `{JsonText} (json_neq : jv -> jv -> bool).

(** Whether a provider can be used, without the cache. *)
Definition usable_now (w : World) (p : str) : bool :=
  if is_tool p then process_available w p else api_provider_usable w p.
(** What the cache remembers is still so. *)
Definition tools_seen (w : World) (c : gmap str bool) : Prop := forall t b, c !! t = Some b -> b = process_available w t.
(** All models of the strategy file are text, or there is none. *)
Definition models_are_text (r : ProviderRouter) (cls : str) : Prop := forall p, is_Some (strategy_model r p cls).

(** The order of resolution: the option, the local flag, the environment, the
    class's route, and then the choice of the cost router. *)
Definition strategy_provider (w : World) (r : ProviderRouter) (cls last : str) (opts : RouteOptions) : str :=
  if negb (bool_decide (provider_override opts = [])) then provider_override opts
  else if local_only opts then lit "ollama"
  else if negb (bool_decide (env_provider_for_class w cls = [])) then env_provider_for_class w cls
  else
    match strategy_defaults (sc r) !! cls with
    | Some rt => default last (List.find (usable_now w) (r_primary rt :: r_fallback rt))
    | None => last
    end.
Definition last_choice (r : ProviderRouter) (agent_tier prompt : str) : str :=
  (select_provider (fin_router r) (tier_label (tier_max (parse_tier agent_tier) (analyze_task_tier prompt))) []).1.

Lemma usable_spec w r p :
  tools_seen w (s_tool_cache r) ->
  exists c, usable w r p = (usable_now w p, set_tools r c) /\ tools_seen w c.
Proof.
  intros Hs. assert (set_tools r (s_tool_cache r) = r) as Hid by by destruct r.
  unfold usable, usable_now, tool_available. case_match; [|exists (s_tool_cache r); by rewrite Hid].
  destruct (s_tool_cache r !! p) as [b|] eqn:E.
  - exists (s_tool_cache r). rewrite Hid. by rewrite <-(Hs _ _ E).
  - eexists. split; [done|]. intros t b. rewrite lookup_insert. case_decide as Ht; [|apply Hs].
    intros [= <-]. by rewrite Ht.
Qed.

Lemma check_and_reload_keeps w r :
  fin_router (check_and_reload json_neq w r) = fin_router r /\
  (s_tool_cache (check_and_reload json_neq w r) = s_tool_cache r \/ s_tool_cache (check_and_reload json_neq w r) = ∅).
Proof.
  unfold check_and_reload. case_match; [|auto]. unfold reload_config.
  destruct (fresh_router _) as [[j c]|]; [|auto]. destruct (fresh_strategy _) as [[[sj l] s]|]; [|auto].
  cbn. split; [done|]. case_match; auto.
Qed.

Lemma route_choice w r agent_tier prompt :
  tools_seen w (s_tool_cache r) ->
  ms_provider (route json_neq w r agent_tier prompt []).1 = last_choice r agent_tier prompt /\
  tools_seen w (s_tool_cache (route json_neq w r agent_tier prompt []).2).
Proof.
  intros Hs. destruct (check_and_reload_keeps w r) as [E Hc]. unfold route, last_choice. rewrite E.
  destruct (select_provider _ _ _) as [p f]. cbn. split; [done|]. destruct Hc as [-> | ->]; [done|].
  intros t b Ht. by rewrite lookup_empty in Ht.
Qed.

Lemma fallback_loop_spec w cls primary t fbs r :
  tools_seen w (s_tool_cache r) -> models_are_text r cls ->
  exists sel c, fallback_loop w r cls primary t fbs = Some (sel, set_tools r c) /\ tools_seen w c /\
    ms_provider <$> sel = List.find (usable_now w) fbs.
Proof.
  revert r. induction fbs as [|fb fbs IH]; intros r Hs Ht; cbn [fallback_loop List.find].
  { exists None, (s_tool_cache r). by destruct r. }
  destruct (usable_spec w r fb Hs) as (c & -> & Hc). destruct (usable_now w fb); cbn [negb].
  - destruct (Ht fb) as [m Hm]. change (strategy_model (set_tools r c) fb cls) with (strategy_model r fb cls).
    rewrite Hm. by eexists (Some _), c.
  - by apply (IH (set_tools r c)).
Qed.

(** C33: when the model of the class is a string at every provider that names
    one, and the tools remembered by the router are those on the path now, a
    request is sent to what the order of resolution of the code names: always to
    some provider, to the first of the class's route that can be used now if
    nothing overrides it, and to the choice of the cost router if none can.  In
    that order a provider for the class in the environment comes before what
    EUXIS_LOCAL_ONLY asks for, contrary to the guides
    ([local_environment_overridden]). *)
Theorem strategy_provider_exact w r cls agent_tier prompt opts :
  tools_seen w (s_tool_cache r) -> models_are_text r cls ->
  exists sel r', route_by_strategy json_neq w r cls agent_tier prompt opts = Some (sel, r') /\
    ms_provider sel = strategy_provider w r cls (last_choice r agent_tier prompt) opts /\
    tools_seen w (s_tool_cache r').
Proof.
  intros Hs Ht. unfold route_by_strategy, strategy_provider.
  case_bool_decide; cbn [negb].
  2: { destruct (Ht (provider_override opts)) as [m ->]. by eexists _, r. }
  destruct (local_only opts); [destruct (Ht (lit "ollama")) as [m ->]; by eexists _, r|].
  case_bool_decide; cbn [negb].
  2: { destruct (Ht (env_provider_for_class w cls)) as [m ->]. by eexists _, r. }
  destruct (strategy_defaults (sc r) !! cls) as [rt|].
  2: { destruct (route_choice w r agent_tier prompt Hs). destruct (route _ _ _ _ _ _) as [sel r']. by eexists _, r'. }
  destruct (usable_spec w r (r_primary rt) Hs) as (c & -> & Hc). cbn [List.find].
  destruct (usable_now w (r_primary rt)).
  - destruct (Ht (r_primary rt)) as [m Hm].
    change (strategy_model (set_tools r c) (r_primary rt) cls) with (strategy_model r (r_primary rt) cls). rewrite Hm.
    eexists _, (set_tools r c). split; [done|]. by case_match.
  - destruct (fallback_loop_spec w cls (r_primary rt) (tier_max (parse_tier agent_tier) (analyze_task_tier prompt))
      (r_fallback rt) (set_tools r c) Hc Ht) as (sel & c' & -> & Hc' & <-).
    destruct sel as [sel|]; [by eexists _, _|].
    destruct (route_choice w (set_tools (set_tools r c) c') agent_tier prompt Hc') as [E Hr]. cbn.
    destruct (route _ _ _ _ _ _) as [sel r']. by eexists _, r'.
Qed.

(** ** Reloading *)

Definition names_all_models (j : jv) : Prop :=
  exists m, at_key j "models" = Some m /\
    contains m "routine" = true /\ contains m "data" = true /\ contains m "code" = true /\ contains m "reason" = true.

Lemma read_models_all m t t' :
  contains m "routine" = true -> contains m "data" = true -> contains m "code" = true -> contains m "reason" = true ->
  (read_models m t).1 = true -> read_models m t = read_models m t'.
Proof.
  unfold contains, read_models, read_model, if_member, seq_step, with_value.
  destruct (at_key m "routine") as [a|], (at_key m "data") as [b|], (at_key m "code") as [c|], (at_key m "reason") as [d|];
    try done.
  intros _ _ _ _. by destruct (get_string a), (get_string b), (get_string c), (get_string d).
Qed.

Lemma read_router_models j c t :
  names_all_models j -> (read_router_json j c).1 = true ->
  read_router_json j c =
  read_router_json j (mkConfig t (flash_overrides c) (standard_overrides c) (forensic_overrides c)).
Proof.
  intros (m & Em & H1 & H2 & H3 & H4). unfold read_router_json, if_member at 1 5 9. rewrite Em.
  unfold seq_step at 1 4 7, on_models. cbn [models flash_overrides standard_overrides forensic_overrides].
  intros Hok. assert ((read_models m (models c)).1 = true) as Hm.
  { revert Hok. by destruct (read_models m (models c)) as [[] x]. }
  by rewrite (read_models_all m (models c) t H1 H2 H3 H4 Hm).
Qed.

(** What the two files determine *)
Definition configuration (r : ProviderRouter) : jv * jv * bool * RouterConfig * StrategyConfig :=
  (config_ r, strategy_config_ r, strategy_loaded_ r, rc r, sc r).

(** A reload changes nothing when one of the files cannot be read; otherwise the
    router has the configuration of one that was just built, whatever it had
    before, provided the router file names the models of all four tiers. *)
Lemma reload_matches_construction w r cache t text j :
  router_file w = Some (t, text) -> json_parse text = Some j -> names_all_models j ->
  let r' := (reload_config json_neq w r).2 in
  r' = r \/ configuration r' = configuration (new_provider_router w cache) /\ fin_router r' = fin_router r.
Proof.
  intros Ef Ej Hall r'. unfold r', reload_config, fresh_router, new_provider_router, load_config. rewrite Ef, Ej.
  cbn [mbind option_bind].
  pose proof (read_router_models j (mkConfig reload_models ∅ ∅ ∅) default_models Hall) as Hm. cbn in Hm.
  destruct (read_router_json j (mkConfig reload_models ∅ ∅ ∅)) as [[] c]; [|by left]. rewrite <-Hm by done.
  unfold fresh_strategy, load_strategy_config. destruct (strategy_file w) as [[t' text']|]; [|by right].
  destruct (json_parse text') as [sj|]; [|by left]. cbn [mbind option_bind].
  destruct (read_strategy_json sj empty_strategy) as [[] s]; [by right|by left].
Qed.

(** Without a router file the first reload changes the model of the routine
    tier from Claude's to Gemini's. *)
Lemma reload_switches_to_gemini w cache :
  router_file w = None -> strategy_file w = None ->
  let r := new_provider_router w cache in
  m_routine (models (rc r)) = lit "claude-haiku-4-5" /\
  m_routine (models (rc (reload_config json_neq w r).2)) = lit "gemini-2.5-flash-lite".
Proof. intros E1 E2. unfold reload_config, fresh_router, fresh_strategy, new_provider_router. rewrite E1, E2. done. Qed.
End choice.

(** ** Requests *)

Section requests.
Context `{JsonText} (json_neq : jv -> jv -> bool).

(** With the local flag and no other option the provider is [ollama]. *)
Lemma local_only_is_local w r cls agent_tier prompt opts sel r' :
  local_only opts = true -> provider_override opts = [] ->
  route_by_strategy json_neq w r cls agent_tier prompt opts = Some (sel, r') ->
  ms_provider sel = lit "ollama" /\ r' = r.
Proof.
  intros El Ep. unfold route_by_strategy. rewrite El, Ep. cbn [bool_decide negb].
  destruct (strategy_model r (lit "ollama") cls); [|done]. by intros [= <- <-].
Qed.

(** [EUXIS_LOCAL_ONLY] is not an option of a request: the provider the
    environment names for coding still gets it. *)
Lemma local_environment_overridden w r task agent_id agent_tier pillar p m :
  local_mode w = true -> env w "EUXIS_DEFAULT_CODING_PROVIDER" = Some p -> p <> [] ->
  strategy_model r p (lit "private_coding") = Some m ->
  exists sel, route_with_policy json_neq w r task agent_id agent_tier pillar (mkOptions [] false false) = Some (sel, r) /\
    ms_provider sel = p.
Proof.
  intros Hl He Hp Hm. unfold route_with_policy, classify_task_class. rewrite Hl. unfold route_by_strategy.
  assert (env_provider_for_class w (lit "private_coding") = p) as ->.
  { unfold env_provider_for_class. change (class_env (lit "private_coding")) with (Some "EUXIS_DEFAULT_CODING_PROVIDER"%string).
    cbn. by rewrite He. }
  cbn [provider_override local_only]. rewrite !bool_decide_true, (bool_decide_false (p = [])) by done. cbn [negb].
  rewrite Hm. by eexists.
Qed.

(** The tier router reads the files and nothing of the environment. *)
Lemma route_reads_files_only w w' r agent_tier task priority :
  router_file w = router_file w' -> strategy_file w = strategy_file w' ->
  route json_neq w r agent_tier task priority = route json_neq w' r agent_tier task priority.
Proof. intros E1 E2. unfold route, check_and_reload, reload_config. by rewrite E1, E2. Qed.

(** A keyword with a capital letter is compared with lowered text: it never
    classifies a task. *)
Lemma tolower_not_upper c : isupper (tolower c) = false.
Proof. by destruct c as [[] [] [] [] [] [] [] []]. Qed.
Lemma capital_keyword_never_found kw c task :
  c ∈ kw -> isupper c = true -> contains_sub kw (lower task) = false.
Proof.
  intros Hc Hu. apply not_true_iff_false. intros (a & b & E)%contains_sub_spec.
  assert (c ∈ lower task) as Hin by (rewrite E; set_solver).
  unfold lower in Hin. apply list_elem_of_fmap in Hin as (d & -> & _). by rewrite tolower_not_upper in Hu.
Qed.
End requests.

(** ** Concrete runs *)

Definition desk : World :=
  mkWorld (fun v => if bool_decide (v = lit "OPENAI_API_KEY") then Some (lit "key") else None) (fun _ => false) None None.
Definition desk_router `{Json} : ProviderRouter :=
  mkPRouter jnull jnull true (mkConfig default_models ∅ ∅ ∅)
    (mkStrategy {[ lit "audit" := mkRoute (lit "claude") [lit "kiro"; lit "openai"] ]} ∅ ∅) (new_router (d_of_Z 100)) 0 0 ∅.

Lemma strategy_provider_exact_witness :
  let r := @desk_router TreeJson.json in
  exists sel r', @route_by_strategy TreeJson.json TreeJson.text (fun _ _ => false) desk r (lit "audit") (lit "code") (lit "fix it")
    (mkOptions [] false false) = Some (sel, r') /\ ms_provider sel = lit "openai".
Proof.
  intros r. destruct (@strategy_provider_exact TreeJson.json TreeJson.text (fun _ _ => false) desk r (lit "audit") (lit "code")
    (lit "fix it") (mkOptions [] false false)) as (sel & r' & E & Hp & _).
  - intros t b Ht. cbn in Ht. by rewrite lookup_empty in Ht.
  - intros p. by eexists.
  - exists sel, r'. split; [exact E|]. rewrite Hp. vm_compute. reflexivity.
Defined.

Definition four_models `{Json} : jv :=
  object [(lit "models", object [(lit "routine", jstr (lit "a")); (lit "data", jstr (lit "b")); (lit "code", jstr (lit "c"));
                                 (lit "reason", jstr (lit "d"))])].
Definition office : World :=
  mkWorld (fun _ => None) (fun _ => false) (Some (5%Z, TreeJson.write (@four_models TreeJson.json))) None.

Lemma reload_matches_construction_witness :
  let r := @desk_router TreeJson.json in
  let r' := (@reload_config TreeJson.json TreeJson.text (fun _ _ => false) office r).2 in
  r' = r \/ configuration r' = configuration (@new_provider_router TreeJson.json TreeJson.text office ∅) /\ fin_router r' = fin_router r.
Proof.
  intros r. apply (@reload_matches_construction TreeJson.json TreeJson.text (fun _ _ => false) office r ∅ 5%Z
    (TreeJson.write (@four_models TreeJson.json)) (@four_models TreeJson.json)); [reflexivity|apply TreeJson.read_write|].
  eexists. split; [vm_compute; reflexivity|]. repeat split.
Defined.
