(* ===== verification/AuthProfiles.v ===== *)
(** * Credentials of the command line: [apps/cli/src/auth_profile_store.cpp]

    Profiles, their choice with pins, cooldowns and fallback chains, imports and
    the store file.  The file is its text, [None] when it does not exist; the
    readings of the clock within one call are taken as equal.  [None] as the
    result of an operation is a signed overflow. *)

From Stdlib Require Import ZArith Ascii String Lia.
From stdpp Require Import base list gmap strings.
From S2P Require Import Prelude CxxString Doubles Json JsonObjects JsonText.

Inductive ProfileType : Type := ApiKey | OAuth.
Inductive CooldownReason : Type := RateLimit | AuthError | BillingError | UnsupportedMethod.
#[export] Instance profile_type_eq_dec : EqDecision ProfileType.
Proof. solve_decision. Defined.
#[export] Instance cooldown_reason_eq_dec : EqDecision CooldownReason.
Proof. solve_decision. Defined.

Record AuthProfile : Type := mkProfile {
  ap_id : str; ap_provider : str; ap_type : ProfileType; ap_label : str; api_key : str; access_token : str; refresh_token : str;
  ap_email : str; expires_at : Z; ap_source : str; last_used_at : Z;
}.
Record ResolvedAuth : Type := mkResolved { profile_id : str; ra_provider : str; token : str; is_oauth : bool }.
Record CooldownEntry : Type := mkCooldown { until_ms : Z; consecutive : Z; cd_reason : CooldownReason }.
Record AuthProfileStore : Type := mkAuthStore {
  profiles_ : list AuthProfile; fallback_chains_ : gmap str (list str); cooldowns_ : gmap str CooldownEntry; session_pin_ : str;
}.

Definition set_profiles (s : AuthProfileStore) (ps : list AuthProfile) : AuthProfileStore :=
  mkAuthStore ps (fallback_chains_ s) (cooldowns_ s) (session_pin_ s).
Definition set_chains (s : AuthProfileStore) (c : gmap str (list str)) : AuthProfileStore :=
  mkAuthStore (profiles_ s) c (cooldowns_ s) (session_pin_ s).
Definition set_cooldowns (s : AuthProfileStore) (c : gmap str CooldownEntry) : AuthProfileStore :=
  mkAuthStore (profiles_ s) (fallback_chains_ s) c (session_pin_ s).
Definition set_pin (s : AuthProfileStore) (id : str) : AuthProfileStore :=
  mkAuthStore (profiles_ s) (fallback_chains_ s) (cooldowns_ s) id.

Definition chain (p : string) (fallbacks : list string) : str * list str := (lit p, lit <$> fallbacks).
Definition kDefaultFallbacks : gmap str (list str) := list_to_map [
  chain "claude" ["openai"; "gemini"; "ollama"]; chain "anthropic" ["openai"; "gemini"; "ollama"];
  chain "openai" ["claude"; "gemini"; "ollama"]; chain "gemini" ["claude"; "openai"; "ollama"];
  chain "ollama" ["claude"; "openai"; "gemini"]]%string.

(** ** Profiles *)

(** [find_if] and an update through the iterator: the first element only *)
Fixpoint update_first {A} (p : A -> bool) (f : A -> A) (l : list A) : list A :=
  match l with [] => [] | a :: l => if p a then f a :: l else a :: update_first p f l end.
Definition has_id (id : str) (p : AuthProfile) : bool := bool_decide (ap_id p = id).
Definition or_text (s : str) (fallback : string) : str := if bool_decide (s = []) then lit fallback else s.

Definition put_profile (s : AuthProfileStore) (id : str) (f : AuthProfile -> AuthProfile) (new : AuthProfile) : AuthProfileStore :=
  set_profiles s (if existsb (has_id id) (profiles_ s) then update_first (has_id id) f (profiles_ s) else profiles_ s ++ [new]).

Definition add_api_key (s : AuthProfileStore) (provider key label : str) : AuthProfileStore :=
  let id := provider ++ lit ":" ++ or_text label "api_key" in
  put_profile s id
    (fun p => mkProfile (ap_id p) (ap_provider p) (ap_type p) label key (access_token p) (refresh_token p) (ap_email p) (expires_at p)
                (ap_source p) (last_used_at p))
    (mkProfile id provider ApiKey (or_text label "API Key") key [] [] [] 0 (lit "manual") 0).

Definition add_oauth (s : AuthProfileStore) (provider access refresh : str) (expires : Z) (email : str) : AuthProfileStore :=
  let id := provider ++ lit ":" ++ or_text email "oauth" in
  put_profile s id
    (fun p => mkProfile (ap_id p) (ap_provider p) (ap_type p) (ap_label p) (api_key p) access refresh email expires
                (ap_source p) (last_used_at p))
    (mkProfile id provider OAuth (or_text email "OAuth") [] access refresh email expires (lit "browser_oauth") 0).

Definition remove_profile (s : AuthProfileStore) (id : str) : AuthProfileStore :=
  mkAuthStore (List.filter (fun p => negb (has_id id p)) (profiles_ s)) (fallback_chains_ s) (delete id (cooldowns_ s))
    (if bool_decide (session_pin_ s = id) then [] else session_pin_ s).
Definition profiles_for (s : AuthProfileStore) (provider : str) : list AuthProfile :=
  List.filter (fun p => bool_decide (ap_provider p = provider)) (profiles_ s).

(** ** Cooldowns *)


(** [for (i = 1; i < consecutive; ++i) ms *= factor] *)
Fixpoint grow (n : nat) (factor ms : Z) : option Z :=
  match n with O => Some ms | S n => ms ← int64_range (ms * factor); grow n factor ms end.
Definition compute_cooldown_ms (reason : CooldownReason) (consecutive : Z) : option Z :=
  let n := Z.to_nat (consecutive - 1) in
  match reason with
  | BillingError => ms ← grow n 2 (5 * 3600 * 1000); Some (Z.min ms (24 * 3600 * 1000))
  | UnsupportedMethod => Some (24 * 3600 * 1000)
  | RateLimit | AuthError => ms ← grow n 5 (60 * 1000); Some (Z.min ms (60 * 60 * 1000))
  end%Z.

Definition no_cooldown : CooldownEntry := mkCooldown 0 0 RateLimit.
Definition report_failure (now : Z) (s : AuthProfileStore) (id : str) (reason : CooldownReason) : option AuthProfileStore :=
  let entry := default no_cooldown (cooldowns_ s !! id) in
  n ← (if bool_decide (int32 (consecutive entry + 1)) then Some (consecutive entry + 1)%Z else None);
  ms ← compute_cooldown_ms reason n; until ← int64_range (now + ms);
  Some (set_cooldowns s (<[id := mkCooldown until n reason]> (cooldowns_ s))).
Definition report_success (now : Z) (s : AuthProfileStore) (id : str) : AuthProfileStore :=
  set_profiles (set_cooldowns s (delete id (cooldowns_ s)))
    (update_first (has_id id)
       (fun p => mkProfile (ap_id p) (ap_provider p) (ap_type p) (ap_label p) (api_key p) (access_token p) (refresh_token p) (ap_email p)
                   (expires_at p) (ap_source p) now) (profiles_ s)).

Definition is_cooled_down (now : Z) (s : AuthProfileStore) (id : str) : bool :=
  match cooldowns_ s !! id with None => false | Some e => (now <? until_ms e)%Z end.
Definition cooldown_remaining_ms (now : Z) (s : AuthProfileStore) (id : str) : option Z :=
  match cooldowns_ s !! id with
  | None => Some 0%Z
  | Some e => remaining ← int64_range (until_ms e - now); Some (if (0 <? remaining)%Z then remaining else 0%Z)
  end.

Definition fallback_chain (s : AuthProfileStore) (provider : str) : list str := default [] (fallback_chains_ s !! provider).
Definition set_fallback_chain (s : AuthProfileStore) (provider : str) (c : list str) : AuthProfileStore :=
  set_chains s (<[provider := c]> (fallback_chains_ s)).

(** ** Resolution *)

Definition oauth (p : AuthProfile) : bool := bool_decide (ap_type p = OAuth).
Definition source_is (name : string) (p : AuthProfile) : bool := bool_decide (ap_source p = lit name).
Definition cli_import (p : AuthProfile) : bool := source_is "claude_code_import" p || source_is "gemini_import" p.

Definition eligible (now : Z) (s : AuthProfileStore) (provider : str) (p : AuthProfile) : bool :=
  bool_decide (ap_provider p = provider) && negb (is_cooled_down now s (ap_id p))
  && negb (oauth p && (0 <? expires_at p)%Z && (expires_at p <=? now)%Z).

(** The comparison of [stable_sort]: imports, then OAuth, then the least
    recently used. *)
Definition before (a b : AuthProfile) : bool :=
  if negb (Bool.eqb (cli_import a) (cli_import b)) then cli_import a
  else if negb (Bool.eqb (oauth a) (oauth b)) then oauth a
  else (last_used_at a <? last_used_at b)%Z.
Fixpoint insert_sorted (p : AuthProfile) (l : list AuthProfile) : list AuthProfile :=
  match l with [] => [p] | q :: l' => if before q p then q :: insert_sorted p l' else p :: l end.
Definition stable_sort (l : list AuthProfile) : list AuthProfile := foldr insert_sorted [] l.

Definition auth_of (p : AuthProfile) : ResolvedAuth :=
  mkResolved (ap_id p) (ap_provider p) (if oauth p then access_token p else api_key p) (oauth p).

(** An import hides the keys of the environment. *)
Definition candidates (now : Z) (s : AuthProfileStore) (provider : str) : list AuthProfile :=
  let found := List.filter (eligible now s provider) (profiles_ s) in
  if existsb cli_import found then List.filter (fun p => negb (source_is "env" p)) found else found.
Definition pinned (s : AuthProfileStore) (p : AuthProfile) : bool := negb (bool_decide (session_pin_ s = [])) && has_id (session_pin_ s) p.

(** [candidates.front()] of an empty list cannot happen: hiding keeps an import. *)
Definition pick_best (now : Z) (s : AuthProfileStore) (provider : str) : option ResolvedAuth :=
  match List.find (pinned s) (candidates now s provider) with
  | Some p => Some (auth_of p)
  | None => auth_of <$> head (stable_sort (candidates now s provider))
  end.
Definition resolve := pick_best.

Fixpoint first_resolved (now : Z) (s : AuthProfileStore) (providers : list str) : option ResolvedAuth :=
  match providers with
  | [] => None
  | p :: providers => match pick_best now s p with Some a => Some a | None => first_resolved now s providers end
  end.
Definition resolve_with_fallback (now : Z) (s : AuthProfileStore) (provider : str) : option ResolvedAuth :=
  match pick_best now s provider with
  | Some a => Some a
  | None => match fallback_chains_ s !! provider with Some c => first_resolved now s c | None => None end
  end.

Definition pin_session (s : AuthProfileStore) (id : str) : AuthProfileStore := set_pin s id.
Definition clear_session_pin (s : AuthProfileStore) : AuthProfileStore := set_pin s [].

(** ** Imports *)

Section files.
Context `{JsonText}.

Definition text_member (j : jv) (k : string) : option str :=
  match at_key j k with Some v => get_string v | None => Some [] end.

(** Added unless there is one from that source for that provider *)
Definition add_import (s : AuthProfileStore) (source provider : string) (p : AuthProfile) : AuthProfileStore :=
  if existsb (fun q => source_is source q && bool_decide (ap_provider q = lit provider)) (profiles_ s) then s
  else set_profiles s (profiles_ s ++ [p]).

(** An exception leaves the store as it is. *)
Definition claude_profile (text : str) : option (option AuthProfile) :=
  creds ← json_parse text;
  match at_key creds "claudeAiOauth" with
  | None => Some None
  | Some o =>
      access ← text_member o "accessToken"; refresh ← text_member o "refreshToken";
      expires ← match at_key o "expiresAt" with Some v => get_int64 v | None => Some 0%Z end;
      Some (if bool_decide (access = []) then None
            else Some (mkProfile (lit "claude:claude_code") (lit "claude") OAuth (lit "Claude Code") [] access refresh [] expires
                         (lit "claude_code_import") 0))
  end.
Definition auto_import_claude_oauth (file : option str) (s : AuthProfileStore) : AuthProfileStore :=
  match file ≫= claude_profile with Some (Some p) => add_import s "claude_code_import" "claude" p | _ => s end.

(** The expiry in milliseconds, or in seconds with a fraction.  The outer
    [None] is a conversion out of range. *)
Definition gemini_expiry (creds : jv) : option (option Z) :=
  match at_key creds "expiry_date" with
  | Some v => Some (if is_number v then get_int64 v else Some 0%Z)
  | None =>
      match at_key creds "expires_at" with
      | Some v =>
          if is_number v then
            match get_double v with
            | Some d => ms ← d_trunc (d_mul d (d_of_Z 1000)); ms ← int64_range ms; Some (Some ms)
            | None => Some None
            end
          else Some (Some 0%Z)
      | None => Some (Some 0%Z)
      end
  end.
Definition gemini_profile (access refresh email : str) (expires : Z) : AuthProfile :=
  mkProfile (lit "gemini:" ++ or_text email "google_oauth") (lit "gemini") OAuth (or_text email "Gemini CLI") [] access refresh email expires
    (lit "gemini_import") 0.
Definition auto_import_gemini_oauth (file : option str) (s : AuthProfileStore) : option AuthProfileStore :=
  match file ≫= json_parse with
  | None => Some s
  | Some creds =>
      match text_member creds "access_token", text_member creds "refresh_token" with
      | Some access, Some refresh =>
          expires ← gemini_expiry creds;
          Some (match expires, text_member creds "email" with
                | Some expires, Some email =>
                    if bool_decide (access = []) then s
                    else add_import s "gemini_import" "gemini" (gemini_profile access refresh email expires)
                | _, _ => s
                end)
      | _, _ => Some s
      end
  end.

Definition import_key (getenv : str -> option str) (name provider : string) (s : AuthProfileStore) : AuthProfileStore :=
  match getenv (lit name) with
  | None | Some [] => s
  | Some v => add_import s "env" provider (mkProfile (lit provider ++ lit ":env") (lit provider) ApiKey (lit name) v [] [] [] 0 (lit "env") 0)
  end.
Definition import_env_vars (getenv : str -> option str) (s : AuthProfileStore) : AuthProfileStore :=
  import_key getenv "GOOGLE_API_KEY" "gemini" (import_key getenv "GEMINI_API_KEY" "gemini"
    (import_key getenv "OPENAI_API_KEY" "openai" (import_key getenv "ANTHROPIC_API_KEY" "claude" s))).

(** ** The store file *)

Definition reason_text (r : CooldownReason) : str :=
  match r with
  | AuthError => lit "auth" | BillingError => lit "billing" | UnsupportedMethod => lit "unsupported_method" | RateLimit => lit "rate_limit"
  end.
Definition reason_of (s : str) : CooldownReason :=
  if bool_decide (s = lit "auth") then AuthError
  else if bool_decide (s = lit "billing") then BillingError
  else if bool_decide (s = lit "unsupported_method") then UnsupportedMethod
  else RateLimit.

Definition profile_to_json (p : AuthProfile) : jv :=
  object (always "id" (jstr (ap_id p)) ++ always "provider" (jstr (ap_provider p))
          ++ always "type" (jstr (if oauth p then lit "oauth" else lit "api_key")) ++ always "label" (jstr (ap_label p))
          ++ when_text "api_key" (api_key p) ++ when_text "access_token" (access_token p) ++ when_text "refresh_token" (refresh_token p)
          ++ when_text "email" (ap_email p) ++ when (0 <? expires_at p)%Z "expires_at" (jint (expires_at p))
          ++ always "source" (jstr (ap_source p)) ++ always "last_used_at" (jint (last_used_at p))).
Definition cooldown_to_json (e : CooldownEntry) : jv :=
  object [(lit "until_ms", jint (until_ms e)); (lit "consecutive", jint (consecutive e)); (lit "reason", jstr (reason_text (cd_reason e)))].
Definition store_to_json (s : AuthProfileStore) : jv :=
  object [(lit "version", jint 1);
          (lit "profiles", jarr (profile_to_json <$> List.filter (fun p => negb (source_is "env" p)) (profiles_ s)));
          (lit "fallback_chains", jobj (jstrs <$> fallback_chains_ s)); (lit "cooldowns", jobj (cooldown_to_json <$> cooldowns_ s))].

Definition profile_from_json (j : jv) : option AuthProfile :=
  id ← value get_string j "id" []; provider ← value get_string j "provider" []; type ← value get_string j "type" [];
  label ← value get_string j "label" []; key ← value get_string j "api_key" []; access ← value get_string j "access_token" [];
  refresh ← value get_string j "refresh_token" []; email ← value get_string j "email" []; expires ← value get_int64 j "expires_at" 0%Z;
  source ← value get_string j "source" []; used ← value get_int64 j "last_used_at" 0%Z;
  Some (mkProfile id provider (if bool_decide (type = lit "oauth") then OAuth else ApiKey) label key access refresh email expires source used).
Definition cooldown_from_json (j : jv) : option CooldownEntry :=
  until ← value get_int64 j "until_ms" 0%Z; n ← value get_int j "consecutive" 0%Z; reason ← value get_string j "reason" (lit "rate_limit");
  Some (mkCooldown until n (reason_of reason)).

(** The old profiles go before the first new one is read. *)
Definition load_profiles (j : jv) : Step AuthProfileStore :=
  seq_step (fun s => (true, set_profiles s []))
           (for_each (fun pj => with_value (profile_from_json pj) (fun p s => set_profiles s (profiles_ s ++ [p]))) (items j)).
Definition on_chains (f : Step (gmap str (list str))) : Step AuthProfileStore :=
  fun s => let '(ok, c) := f (fallback_chains_ s) in (ok, set_chains s c).
Definition on_cooldowns (f : Step (gmap str CooldownEntry)) : Step AuthProfileStore :=
  fun s => let '(ok, c) := f (cooldowns_ s) in (ok, set_cooldowns s c).
Definition load_from_json (j : jv) : Step AuthProfileStore :=
  seq_step (if_member j "profiles" load_profiles)
  (seq_step (if_member j "fallback_chains" (fun v => on_chains (read_entries get_strings (entries_of v))))
            (if_member j "cooldowns" (fun v => on_cooldowns (read_entries cooldown_from_json (entries_of v))))).

Definition reload (file : option str) (s : AuthProfileStore) : AuthProfileStore :=
  match file ≫= json_parse with None => s | Some j => (load_from_json j s).2 end.
Definition new_auth_store (file : option str) : AuthProfileStore := reload file (mkAuthStore [] kDefaultFallbacks ∅ []).

(** The file after [save]: opened, and so emptied, before the text is made.
    [dump2] is [dump(2)], [opened] whether the file could be opened. *)
Definition save (dump2 : jv -> option str) (opened : bool) (file : option str) (s : AuthProfileStore) : option str :=
  if opened then Some (default [] (dump2 (store_to_json s))) else file.
End files.

(** ** Cooldowns are exact and bounded *)

Lemma grow_exact n factor ms : (0 <= ms)%Z -> (1 <= factor)%Z ->
  grow n factor ms = if decide (n = 0%nat \/ int64 (ms * factor ^ Z.of_nat n)) then Some (ms * factor ^ Z.of_nat n)%Z else None.
Proof.
  revert ms. induction n as [|n IH]; intros ms Hm Hf; cbn [grow].
  { rewrite decide_True by (by left). f_equal. change (factor ^ Z.of_nat 0)%Z with 1%Z. lia. }
  rewrite Nat2Z.inj_succ, Z.pow_succ_r by lia. pose proof (Z.pow_pos_nonneg factor (Z.of_nat n) ltac:(lia) ltac:(lia)) as Hp.
  assert (ms * factor <= ms * (factor * factor ^ Z.of_nat n))%Z as Hle by nia. unfold int64_range. case_bool_decide as Hi; cbn [mbind option_bind].
  - rewrite IH by lia. rewrite Z.mul_assoc. destruct n as [|n].
    + change (factor ^ Z.of_nat 0)%Z with 1%Z. rewrite Z.mul_1_r, !decide_True; [done|by right|by left].
    + repeat case_decide; naive_solver lia.
  - rewrite decide_False; [done|]. intros [?|Hi']; [done|]. apply Hi. unfold int64 in *. nia.
Qed.

(** A cooldown grows by its factor with each failure up to its cap: an hour for
    rate limits and failed authentication, a day for billing.  The product
    overflows before the cap is applied at the twenty-second failure, or the
    fortieth for billing. *)
Theorem cooldown_exact reason n : (1 <= n)%Z ->
  compute_cooldown_ms reason n =
  match reason with
  | BillingError => if (n <=? 39)%Z then Some (Z.min (18000000 * 2 ^ (n - 1)) 86400000)%Z else None
  | UnsupportedMethod => Some 86400000%Z
  | RateLimit | AuthError => if (n <=? 21)%Z then Some (Z.min (60000 * 5 ^ (n - 1)) 3600000)%Z else None
  end.
Proof.
  intros Hn. assert (forall f b m, (0 < b)%Z -> (1 < f)%Z -> int64 (b * f ^ m) -> ~ int64 (b * f ^ (m + 1)) -> (0 <= m)%Z ->
    grow (Z.to_nat (n - 1)) f b = if (n <=? m + 1)%Z then Some (b * f ^ (n - 1))%Z else None) as Hg.
  { intros f b m Hb Hf Hi Ho Hm. rewrite grow_exact, Z2Nat.id by lia. destruct (Z.leb_spec n (m + 1)) as [Hle|Hlt].
    - rewrite decide_True; [done|]. right. pose proof (Z.pow_le_mono_r f (n - 1) m ltac:(lia) ltac:(lia)).
      pose proof (Z.pow_nonneg f (n - 1) ltac:(lia)). unfold int64 in *. nia.
    - rewrite decide_False; [done|]. intros [?|Hi']; [lia|]. apply Ho.
      pose proof (Z.pow_le_mono_r f (m + 1) (n - 1) ltac:(lia) ltac:(lia)).
      pose proof (Z.pow_nonneg f (m + 1) ltac:(lia)). unfold int64 in *. nia. }
  unfold compute_cooldown_ms. change (60 * 1000)%Z with 60000%Z. change (60 * 60 * 1000)%Z with 3600000%Z.
  change (5 * 3600 * 1000)%Z with 18000000%Z. change (24 * 3600 * 1000)%Z with 86400000%Z. destruct reason; [| | |reflexivity].
  1, 2: rewrite (Hg 5%Z _ 20%Z); [change (20 + 1)%Z with 21%Z; destruct (n <=? 21)%Z; reflexivity|lia|lia|unfold int64; lia|unfold int64; lia|lia].
  rewrite (Hg 2%Z _ 38%Z); [change (38 + 1)%Z with 39%Z; destruct (n <=? 39)%Z; reflexivity|lia|lia|unfold int64; lia|unfold int64; lia|lia].
Qed.

(** ** The choice *)

Lemma before_asym a b : before a b = true -> before b a = false.
Proof.
  unfold before. destruct (cli_import a), (cli_import b); cbn; try done; destruct (oauth a), (oauth b); cbn; try done; lia.
Qed.
Lemma before_neg_trans a b c : before a b = false -> before b c = false -> before a c = false.
Proof.
  unfold before. destruct (cli_import a), (cli_import b), (cli_import c); cbn; try done;
    destruct (oauth a), (oauth b), (oauth c); cbn; try done; lia.
Qed.

Lemma insert_sorted_perm p l : insert_sorted p l ≡ₚ p :: l.
Proof.
  induction l as [|q l IH]; [done|]. cbn [insert_sorted]. destruct (before q p); [|reflexivity]. rewrite IH. apply perm_swap.
Qed.
Lemma stable_sort_perm l : stable_sort l ≡ₚ l.
Proof. induction l as [|p l IH]; [reflexivity|]. cbn [stable_sort foldr]. by rewrite insert_sorted_perm, IH. Qed.

(** The front of a sorted list: nothing comes before it. *)
Lemma stable_sort_head l p : head (stable_sort l) = Some p -> forall q, q ∈ l -> before q p = false.
Proof.
  revert p. induction l as [|a l IH]; intros p; [done|]. cbn [stable_sort foldr]. change (foldr insert_sorted [] l) with (stable_sort l).
  pose proof (stable_sort_perm l) as Hp. destruct (stable_sort l) as [|b l'] eqn:E.
  - intros [= <-] q Hq. apply Permutation_nil in Hp; subst l. apply list_elem_of_singleton in Hq as ->.
    destruct (before a a) eqn:Ea; [|done]. by rewrite (before_asym _ _ Ea) in Ea.
  - cbn [insert_sorted]. destruct (before b a) eqn:Eb; intros [= <-] q [->|Hq]%elem_of_cons.
    + by apply before_asym.
    + by apply IH.
    + destruct (before a a) eqn:Ea; [|done]. by rewrite (before_asym _ _ Ea) in Ea.
    + apply (before_neg_trans q b a); [by apply IH|done].
Qed.

(** A profile the store may hand out: eligible, and not a key of the
    environment next to an eligible import. *)
Definition usable (now : Z) (s : AuthProfileStore) (provider : str) (p : AuthProfile) : Prop :=
  p ∈ profiles_ s /\ eligible now s provider p = true /\
  (source_is "env" p = true -> forall q, q ∈ profiles_ s -> eligible now s provider q = true -> cli_import q = false).

Lemma elem_of_filter_bool {A} (f : A -> bool) l a : a ∈ List.filter f l <-> a ∈ l /\ f a = true.
Proof. by rewrite !list_elem_of_In, filter_In. Qed.

Lemma elem_of_candidates now s provider p : p ∈ candidates now s provider <-> usable now s provider p.
Proof.
  unfold candidates, usable. set (found := List.filter _ _).
  assert (forall q, q ∈ found <-> q ∈ profiles_ s /\ eligible now s provider q = true) as Hf by (intros; apply elem_of_filter_bool).
  destruct (existsb cli_import found) eqn:E.
  - apply existsb_exists in E as (c & Hc & Hcli). apply list_elem_of_In, Hf in Hc as [Hc1 Hc2].
    rewrite elem_of_filter_bool, Hf, negb_true_iff. split.
    + intros [[H1 H2] H3]. split_and!; [done|done|]. by rewrite H3.
    + intros (H1 & H2 & H3). split; [done|]. destruct (source_is "env" p); [|done]. by rewrite (H3 eq_refl c) in Hcli.
  - rewrite Hf. split; [|naive_solver]. intros [H1 H2]. split_and!; [done|done|]. intros _ q Hq1 Hq2.
    destruct (cli_import q) eqn:Eq; [|done]. assert (existsb cli_import found = true) as Hx; [|congruence].
    apply existsb_exists. exists q. split; [|done]. by apply list_elem_of_In, Hf.
Qed.

(** Hiding keys leaves something: [front] is never read of an empty list. *)
Lemma some_candidate now s provider p : p ∈ profiles_ s -> eligible now s provider p = true -> exists q, usable now s provider q.
Proof.
  intros Hp He. destruct (source_is "env" p) eqn:Ee.
  - destruct (existsb cli_import (List.filter (eligible now s provider) (profiles_ s))) eqn:E.
    + apply existsb_exists in E as (c & [Hc1 Hc2]%filter_In & Hcli). exists c. apply list_elem_of_In in Hc1. split_and!; [done|done|].
      unfold cli_import, source_is in *. intros Hs%bool_decide_eq_true. by rewrite Hs in Hcli.
    + exists p. split_and!; [done|done|]. intros _ q Hq1 Hq2. destruct (cli_import q) eqn:Eq; [|done].
      assert (existsb cli_import (List.filter (eligible now s provider) (profiles_ s)) = true) as Hx; [|congruence].
      apply existsb_exists. exists q. split; [|done]. apply filter_In. by rewrite <-list_elem_of_In.
  - exists p. split_and!; [done|done|]. by rewrite Ee.
Qed.

(** What a provider gives: a usable profile, the pinned one if it is usable and
    otherwise one that no usable profile comes before. *)
Definition chosen (now : Z) (s : AuthProfileStore) (provider : str) (p : AuthProfile) : Prop :=
  usable now s provider p /\
  (pinned s p = true \/ forall q, usable now s provider q -> pinned s q = false /\ before q p = false).

Lemma pick_best_spec now s provider :
  match pick_best now s provider with
  | Some a => exists p, chosen now s provider p /\ a = auth_of p
  | None => forall p, p ∈ profiles_ s -> eligible now s provider p = false
  end.
Proof.
  unfold pick_best. destruct (List.find _ _) as [p|] eqn:Ef.
  - apply find_some in Ef as [Hin Hp]. apply list_elem_of_In, elem_of_candidates in Hin. exists p. split; [|done]. split; [done|by left].
  - pose proof (find_none _ _ Ef) as Hnone. destruct (head (stable_sort _)) as [p|] eqn:Eh; cbn [fmap option_fmap option_map].
    + exists p. split; [|done]. split.
      * apply elem_of_candidates. rewrite <-stable_sort_perm. destruct (stable_sort _); [done|]. injection Eh as ->. by left.
      * right. intros q Hq%elem_of_candidates. split; [apply Hnone; by apply list_elem_of_In|]. by eapply stable_sort_head.
    + intros p Hp. destruct (eligible now s provider p) eqn:Ee; [|done].
      destruct (some_candidate now s provider p Hp Ee) as [q Hq%elem_of_candidates].
      rewrite <-stable_sort_perm in Hq. destruct (stable_sort _); [by apply not_elem_of_nil in Hq|done].
Qed.

Lemma first_resolved_spec now s provs :
  match first_resolved now s provs with
  | Some a => exists pre prov post p, provs = pre ++ prov :: post /\
      (forall q, q ∈ profiles_ s -> ap_provider q ∈ pre -> eligible now s (ap_provider q) q = false) /\
      chosen now s prov p /\ a = auth_of p
  | None => forall q, q ∈ profiles_ s -> ap_provider q ∈ provs -> eligible now s (ap_provider q) q = false
  end.
Proof.
  induction provs as [|p0 provs IH]; cbn [first_resolved].
  { intros q _ Hq. by apply not_elem_of_nil in Hq. }
  pose proof (pick_best_spec now s p0) as Hp. destruct (pick_best now s p0) as [a|].
  - destruct Hp as (p & Hc & ->). exists [], p0, provs, p. split; [done|]. split; [|done]. intros q _ Hq. by apply not_elem_of_nil in Hq.
  - destruct (first_resolved now s provs) as [a|].
    + destruct IH as (pre & prov & post & p & -> & Hpre & Hc). exists (p0 :: pre), prov, post, p. split; [done|]. split; [|done].
      intros q Hq [->|Hin]%elem_of_cons; [by apply Hp|by apply Hpre].
    + intros q Hq [->|Hin]%elem_of_cons; [by apply Hp|by apply IH].
Qed.

Lemma resolve_chain now s provider : resolve_with_fallback now s provider = first_resolved now s (provider :: fallback_chain s provider).
Proof.
  unfold resolve_with_fallback, fallback_chain. cbn [first_resolved]. destruct (pick_best _ _ _); [done|].
  by destruct (fallback_chains_ s !! provider).
Qed.

(** C37: resolution goes through the provider and its fallbacks in order: it gives
    the choice of the first that has an eligible profile, and nothing only if
    none has. *)
Theorem resolution_exact now s provider :
  match resolve_with_fallback now s provider with
  | Some a => exists pre prov post p, provider :: fallback_chain s provider = pre ++ prov :: post /\
      (forall q, q ∈ profiles_ s -> ap_provider q ∈ pre -> eligible now s (ap_provider q) q = false) /\
      chosen now s prov p /\ a = auth_of p
  | None => forall q, q ∈ profiles_ s -> ap_provider q ∈ provider :: fallback_chain s provider -> eligible now s (ap_provider q) q = false
  end.
Proof. rewrite resolve_chain. apply first_resolved_spec. Qed.

(** After a failure the profile is not handed out until its cooldown is over. *)
Theorem failed_profile_rests now s id reason s' t provider a :
  report_failure now s id reason = Some s' -> resolve_with_fallback t s' provider = Some a -> profile_id a = id ->
  exists ms, compute_cooldown_ms reason (default 0%Z (consecutive <$> cooldowns_ s !! id) + 1) = Some ms /\ (now + ms <= t)%Z.
Proof.
  intros Hf Hr Hid. rewrite resolve_chain in Hr. pose proof (first_resolved_spec t s' (provider :: fallback_chain s' provider)) as He. rewrite Hr in He.
  destruct He as (pre & prov & post & p & _ & _ & [(_ & Hel & _) _] & ->). cbn in Hid. subst id.
  unfold eligible in Hel. rewrite !andb_true_iff, !negb_true_iff in Hel. destruct Hel as [[_ Hc] _].
  unfold report_failure in Hf. destruct (if bool_decide _ then _ else _) as [n|] eqn:En; [|done]. cbn [mbind option_bind] in Hf.
  destruct (compute_cooldown_ms reason n) as [ms|] eqn:Em; [|done]. cbn [mbind option_bind] in Hf. unfold int64_range in Hf.
  case_bool_decide; [|done]. cbn [mbind option_bind] in Hf. injection Hf as <-.
  exists ms. split.
  - rewrite <-Em. case_bool_decide; [|done]. injection En as <-. by destruct (cooldowns_ s !! ap_id p).
  - unfold is_cooled_down in Hc. cbn [cooldowns_ set_cooldowns] in Hc. rewrite lookup_insert_eq in Hc. cbn in Hc. lia.
Qed.

(** ** The store file *)

Section roundtrip.
Context `{JsonText} {J : JsonOk} {T : JsonTextOk}.

Definition profile_ok (p : AuthProfile) : Prop := int64 (expires_at p) /\ int64 (last_used_at p).
Definition cooldown_ok (e : CooldownEntry) : Prop := int64 (until_ms e) /\ int32 (consecutive e).
(** An expiry that is not positive is not written. *)
Definition normalise (p : AuthProfile) : AuthProfile :=
  mkProfile (ap_id p) (ap_provider p) (ap_type p) (ap_label p) (api_key p) (access_token p) (refresh_token p) (ap_email p)
    (Z.max 0 (expires_at p)) (ap_source p) (last_used_at p).
(** What survives: all but the keys of the environment and the pin. *)
Definition persisted (s : AuthProfileStore) : AuthProfileStore :=
  mkAuthStore (normalise <$> List.filter (fun p => negb (source_is "env" p)) (profiles_ s)) (fallback_chains_ s) (cooldowns_ s) [].

Lemma profile_reads p : profile_ok p -> profile_from_json (profile_to_json p) = Some (normalise p).
Proof.
  intros [He Hu]. unfold profile_from_json, profile_to_json, normalise.
  erewrite (value_member get_string _ "id"), get_string_str by (find_member; done). cbn [mbind option_bind].
  erewrite (value_member get_string _ "provider"), get_string_str by (find_member; done). cbn [mbind option_bind].
  erewrite (value_member get_string _ "type"), get_string_str by (find_member; done). cbn [mbind option_bind].
  erewrite (value_member get_string _ "label"), get_string_str by (find_member; done). cbn [mbind option_bind].
  rewrite (read_text _ "api_key" (api_key p)) by (find_member; done). cbn [mbind option_bind].
  rewrite (read_text _ "access_token" (access_token p)) by (find_member; done). cbn [mbind option_bind].
  rewrite (read_text _ "refresh_token" (refresh_token p)) by (find_member; done). cbn [mbind option_bind].
  rewrite (read_text _ "email" (ap_email p)) by (find_member; done). cbn [mbind option_bind].
  match goal with |- context [value get_int64 ?o "expires_at" 0%Z] =>
    assert (value get_int64 o "expires_at" 0%Z = Some (Z.max 0 (expires_at p))) as -> end.
  { rewrite value_object, lookup_assoc. destruct (Z.ltb_spec 0 (expires_at p)) as [Hlt|Hge].
    - find_member. rewrite get_int64_int by done. f_equal. lia.
    - find_member. f_equal. lia. }
  cbn [mbind option_bind].
  erewrite (value_member get_string _ "source"), get_string_str by (find_member; done). cbn [mbind option_bind].
  rewrite (value_member get_int64 _ "last_used_at" (jint (last_used_at p))) by (find_member; done). rewrite get_int64_int by done. cbn [mbind option_bind].
  unfold oauth. by destruct (ap_type p).
Qed.

Lemma cooldown_reads e : cooldown_ok e -> cooldown_from_json (cooldown_to_json e) = Some e.
Proof.
  intros [Hu Hc]. unfold cooldown_from_json, cooldown_to_json.
  rewrite (value_member get_int64 _ "until_ms" (jint (until_ms e))), get_int64_int by done. cbn [mbind option_bind].
  rewrite (value_member get_int _ "consecutive" (jint (consecutive e))), get_int_int by done. cbn [mbind option_bind].
  rewrite (value_member get_string _ "reason" (jstr (reason_text (cd_reason e)))), get_string_str by done. cbn [mbind option_bind].
  destruct e as [u n r]. by destruct r.
Qed.

Lemma profiles_load ps s : Forall profile_ok ps ->
  for_each (fun pj => with_value (profile_from_json pj) (fun p s => set_profiles s (profiles_ s ++ [p]))) (profile_to_json <$> ps) s =
  (true, set_profiles s (profiles_ s ++ (normalise <$> ps))).
Proof.
  intros Hp. revert s. induction Hp as [|p ps Hp _ IH]; intros s.
  { cbn. rewrite app_nil_r. by destruct s. }
  cbn [fmap list_fmap for_each]. unfold seq_step, with_value at 1. rewrite (profile_reads p Hp), IH.
  cbn [profiles_ set_profiles fallback_chains_ cooldowns_ session_pin_]. by rewrite <-app_assoc.
Qed.

Context (dump2 : jv -> option str) (Hdump : forall j text, json_exact j -> dump2 j = Some text -> json_parse text = Some j).

Lemma entries_of_obj (m : gmap str jv) : entries_of (jobj m) = sorted_items m.
Proof. unfold entries_of. by rewrite members_obj. Qed.

Lemma store_exact s : Forall profile_ok (profiles_ s) -> (forall id e, cooldowns_ s !! id = Some e -> cooldown_ok e) ->
  json_exact (store_to_json s).
Proof.
  intros Hp Hc. unfold store_to_json. exact_json.
  - apply exact_list. intros p Hin. apply elem_of_filter_bool in Hin as [Hin _]. rewrite Forall_forall in Hp.
    destruct (Hp p Hin) as [He Hu]. unfold profile_to_json, when_text, always. exact_json.
  - apply exact_obj. intros k v Hk. apply lookup_fmap_Some in Hk as (c & <- & _). apply exact_jstrs.
  - apply exact_obj. intros k v Hk. apply lookup_fmap_Some in Hk as (e & <- & He). destruct (Hc _ _ He) as [Hu Hn].
    unfold cooldown_to_json. exact_json.
Qed.

(** A new store reads from the file what a store has saved: the profiles in
    their order without the keys of the environment, the chains and the
    cooldowns. *)
Theorem saved_store_reloads s file text :
  Forall profile_ok (profiles_ s) -> (forall id e, cooldowns_ s !! id = Some e -> cooldown_ok e) ->
  (forall k, is_Some (kDefaultFallbacks !! k) -> is_Some (fallback_chains_ s !! k)) ->
  dump2 (store_to_json s) = Some text -> new_auth_store (save dump2 true file s) = persisted s.
Proof.
  intros Hp Hc Hd Ht. unfold save, new_auth_store, reload. rewrite Ht. cbn [default from_option mbind option_bind]. unfold id.
  rewrite (Hdump _ _ (store_exact s Hp Hc) Ht). unfold load_from_json, store_to_json, if_member.
  rewrite !key_member. cbn [assoc fst snd].
  repeat match goal with |- context [key_eqb (lit ?a) (lit ?b)] =>
    let r := eval vm_compute in (key_eqb (lit a) (lit b)) in change (key_eqb (lit a) (lit b)) with r end. cbn match beta.
  unfold seq_step at 1, load_profiles at 1, seq_step at 1. rewrite items_arr, profiles_load.
  2: { apply Forall_forall. intros p Hin. rewrite Forall_forall in Hp. apply Hp. by apply elem_of_filter_bool in Hin as [? _]. }
  unfold seq_step at 1, on_chains. rewrite !entries_of_obj.
  destruct (read_map_back jstrs get_strings id (fallback_chains_ s) kDefaultFallbacks) as (m1 & E1 & Hm1).
  { intros k l _. apply get_strings_jstrs. }
  cbn [fallback_chains_ set_profiles]. rewrite E1. unfold on_cooldowns.
  destruct (read_map_back cooldown_to_json cooldown_from_json id (cooldowns_ s) ∅) as (m2 & E2 & Hm2).
  { intros k e He. apply cooldown_reads. by eapply Hc. }
  cbn [cooldowns_ set_chains set_profiles]. rewrite E2. unfold persisted. cbn.
  rewrite map_fmap_id in Hm1. rewrite map_fmap_id, map_union_empty in Hm2. subst m2.
  assert (m1 = fallback_chains_ s) as ->; [|done].
  rewrite Hm1. apply map_eq. intros k. rewrite lookup_union. specialize (Hd k).
  destruct (fallback_chains_ s !! k) as [c|], (kDefaultFallbacks !! k) as [c'|]; cbn; try done.
  by destruct (Hd (ex_intro _ c' eq_refl)).
Qed.
End roundtrip.

(** *** Where the file is lost *)

(** The file is emptied when its text cannot be made. *)
Lemma save_truncates `{JsonText} dump2 file s : dump2 (store_to_json s) = None -> save dump2 true file s = Some [].
Proof. intros E. unfold save. by rewrite E. Qed.

(** A profile in the file that does not read drops the ones after it, and the
    ones the store had. *)
Lemma malformed_profile_drops_rest `{JsonText} (bad : jv) (rest : list jv) text s :
  JsonOk -> json_parse text = Some (object [(lit "profiles", jarr (bad :: rest))]) -> profile_from_json bad = None ->
  profiles_ (reload (Some text) s) = [].
Proof.
  intros J Et Hb. unfold reload. cbn [mbind option_bind]. rewrite Et. unfold load_from_json, if_member. rewrite key_member. cbn [assoc fst snd].
  change (key_eqb (lit "profiles") (lit "profiles")) with true. cbn match. unfold seq_step at 1, load_profiles, seq_step at 1.
  rewrite items_arr. cbn [for_each]. unfold seq_step at 1, with_value at 1. by rewrite Hb.
Qed.

(** Replacing the key of a profile without a label erases its label. *)
Lemma default_label_erased s provider k1 k2 : profiles_ s = [] ->
  let s1 := add_api_key s provider k1 [] in
  ap_label <$> profiles_ s1 = [lit "API Key"] /\ ap_label <$> profiles_ (add_api_key s1 provider k2 []) = [[]].
Proof.
  intros E. unfold add_api_key, put_profile, set_profiles. rewrite E. cbn [existsb profiles_ app]. split; [done|].
  unfold has_id at 1. cbn [existsb ap_id]. unfold has_id. cbn [ap_id]. rewrite bool_decide_true by done. cbn [orb update_first ap_id].
  by rewrite bool_decide_true.
Qed.

(** A key with the label an account was stored under goes into the profile of
    the account, which stays an account: the key is never used. *)
Lemma key_lost_in_account now s : profiles_ s = [] -> session_pin_ s = [] -> cooldowns_ s = ∅ ->
  let s1 := add_api_key (add_oauth s (lit "openai") (lit "token") [] 0 (lit "me")) (lit "openai") (lit "sk-key") (lit "me") in
  token <$> resolve now s1 (lit "openai") = Some (lit "token").
Proof.
  destruct s as [ps ch cds pin]. cbn [profiles_ session_pin_ cooldowns_]. intros -> -> ->. reflexivity.
Qed.

(** ** Concrete runs *)

Definition key_profile : AuthProfile := mkProfile (lit "openai:api_key") (lit "openai") ApiKey (lit "API Key") (lit "sk") [] [] [] 0 (lit "manual") 0.
Definition sample_store : AuthProfileStore := mkAuthStore [key_profile] kDefaultFallbacks ∅ [].

Lemma cooldown_exact_witness : compute_cooldown_ms RateLimit 22 = None /\ compute_cooldown_ms RateLimit 3 = Some 1500000%Z.
Proof. split; rewrite cooldown_exact by lia; reflexivity. Defined.

Lemma failed_profile_rests_witness : exists s' ms,
  report_failure 1000 sample_store (lit "openai:api_key") RateLimit = Some s' /\
  compute_cooldown_ms RateLimit 1 = Some ms /\ (1000 + ms <= 61000)%Z.
Proof.
  destruct (report_failure 1000 sample_store (lit "openai:api_key") RateLimit) as [s'|] eqn:E; [|discriminate]. exists s'.
  assert (resolve_with_fallback 61000 s' (lit "openai") = Some (auth_of key_profile)) as Hr by (injection E as <-; reflexivity).
  destruct (failed_profile_rests _ _ _ _ _ _ _ _ E Hr eq_refl) as (ms & Hms & Hle). exists ms. split; [reflexivity|]. split; [exact Hms|exact Hle].
Defined.

Lemma saved_store_reloads_witness :
  @new_auth_store TreeJson.json TreeJson.text (@save TreeJson.json (@json_dump _ TreeJson.text) true None sample_store) = persisted sample_store.
Proof.
  apply (@saved_store_reloads TreeJson.json TreeJson.text TreeJson.tree_json_ok TreeJson.text_ok (@json_dump _ TreeJson.text)
    (fun j text => @parse_dump _ _ TreeJson.text_ok j text) sample_store None (TreeJson.write (@store_to_json TreeJson.json sample_store))).
  - repeat constructor; vm_compute; discriminate || reflexivity.
  - intros id e He. cbn [sample_store cooldowns_] in He. by rewrite (lookup_empty (M := gmap str)) in He.
  - intros k Hk. exact Hk.
  - reflexivity.
Defined.
