(* ===== verification/CertGates.v ===== *)
(** * The gates of the readiness assessment: [apps/cli/src/certification.cpp]

    Each gate looks at the files of the target and at what programs answer.
    Both are a [World], an argument of every gate, since building or testing
    may change the files.  A recursive listing is the entries that were
    delivered before its end or an exception.  [fs::exists] always answers here;
    the exception it raises on a path it may not look at is not modelled.  [None] is a signed overflow or a
    conversion out of range. *)

From Stdlib Require Import ZArith Ascii String Lia.
From stdpp Require Import base list gmap strings.
From S2P Require Import Prelude CxxString Lines Numbers Doubles DoubleBounds Paths Json.

Record ProcessResult : Type := mkResult { exit_code : Z; stdout_output : str; stderr_output : str }.
Definition success (r : ProcessResult) : bool := (exit_code r =? 0)%Z.

Record Entry : Type := mkEntry { e_path : path; is_regular_file : bool }.
Record World : Type := mkWorld {
  fs_exists : path -> bool; contents : path -> str; access_x : path -> bool; recursive : path -> list Entry;
  run : str -> list str -> ProcessResult; shell : str -> ProcessResult; available : str -> bool;
}.

Definition check_file (w : World) (root : path) (p : string) : bool := fs_exists w (path_append root (lit p)).
Definition full_path (root : path) (p : string) : str := path_append root (lit p).
Definition read_file_content (w : World) (p : path) : str := contents w p.

Definition d_to_int (d : double) : option Z := z ← d_trunc d; int_range z.

Section gates.
Context `{Json}.

Record GateResult : Type := mkGate { gr_name : str; gr_status : str; gr_detail : str; blocking : bool; gr_data : jv }.

(** ** Commit signing *)

Definition git_args (target : path) (window : Z) (since_ref : str) : list str :=
  [lit "-C"; target; lit "log"] ++ (if bool_decide (since_ref = []) then [] else [since_ref ++ lit "..HEAD"])
  ++ [lit "--format=%H %G?"; lit "-n"; to_string_Z window].

Definition count_signature (st : nat * nat) (line : str) : nat * nat :=
  if (length line <? 3)%nat then st
  else if back_is "G" line || back_is "U" line then (S st.1, st.2) else (st.1, S st.2).

Definition gate_commit_signing (w : World) (target : path) (window : Z) (since_ref : str) (strict : bool) : GateResult :=
  let proc := run w (lit "git") (git_args target window since_ref) in
  let gate status detail signed unsigned data_status :=
    mkGate (lit "commit_signing") status detail strict
      (object [(lit "window", jint window); (lit "signed", jint signed); (lit "unsigned", jint unsigned);
               (lit "status", jstr data_status)]) in
  if negb (success proc) then gate (lit "fail") (lit "Could not read git log") 0%Z 0%Z (lit "error")
  else
    let '(signed_count, unsigned_count) := foldl count_signature (0, 0)%nat (getlines (stdout_output proc)) in
    let total := (signed_count + unsigned_count)%nat in
    let ratio := to_string_nat signed_count ++ lit "/" ++ to_string_nat total ++ lit " signed" in
    let '(status, detail) :=
      if (total =? 0)%nat then (lit "partial", lit "No commits in scope")
      else if (unsigned_count =? 0)%nat then (lit "pass", ratio)
      else if (0 <? signed_count)%nat then (lit "partial", ratio)
      else (lit "fail", lit "0/" ++ to_string_nat total ++ lit " signed") in
    gate status detail (Z.of_nat signed_count) (Z.of_nat unsigned_count) status.

(** ** Unit tests *)

Record TestPlan : Type := mkPlan { test_framework : str; test_cmd : str; test_args : list str }.

Definition preferred_names : list string := ["euxis-cli-cpp_tests"; "tests"; "unit_tests"; "all_tests"]%string.
(** [fs::exists(candidate) && access(candidate, X_OK) == 0] *)
Definition runnable (w : World) (p : path) : bool := fs_exists w p && access_x w p.
Definition preferred_candidates (target : path) (build_dir : string) : list path :=
  flat_map (fun pref => [foldl path_append target [lit build_dir; lit "cmd"; lit "cli"; lit pref];
                         foldl path_append target [lit build_dir; lit pref]]) preferred_names.
Definition test_like (w : World) (e : Entry) : bool :=
  is_regular_file e && contains_sub (lit "test") (path_filename (e_path e)) && access_x w (e_path e).
Definition cmake_test_in (w : World) (target : path) (build_dir : string) : option path :=
  if negb (check_file w target build_dir) then None
  else
    match List.find (runnable w) (preferred_candidates target build_dir) with
    | Some p => Some p
    | None => e_path <$> List.find (test_like w) (recursive w (path_append target (lit build_dir)))
    end.
Definition cmake_test (w : World) (target : path) : option TestPlan :=
  if negb (check_file w target "CMakeLists.txt") then None
  else
    p ← match cmake_test_in w target "cmake-build" with Some p => Some p | None => cmake_test_in w target "build" end;
    Some (mkPlan (lit "cmake/gtest") p []).

Definition detect_tests (w : World) (target : path) : option TestPlan :=
  match cmake_test w target with
  | Some p => Some p
  | None =>
      if check_file w target "Cargo.toml"
      then Some (mkPlan (lit "cargo") (lit "cargo") [lit "test"; lit "--manifest-path"; full_path target "Cargo.toml"])
      else if check_file w target "package.json" && (check_file w target "node_modules/.bin/jest" || check_file w target "node_modules/.bin/vitest")
      then let f := if check_file w target "node_modules/.bin/jest" then lit "jest" else lit "vitest" in Some (mkPlan f (lit "npx") [f])
      else if check_file w target "go.mod" then Some (mkPlan (lit "go") (lit "go") [lit "test"; lit "./..."])
      else if check_file w target "pytest.ini" || check_file w target "pyproject.toml" then Some (mkPlan (lit "pytest") (lit "pytest") [])
      else None
  end.

(** The number after the first closing bracket, kept if it does not read. *)
Definition read_count (mark : string) (line : str) (old : Z) : Z :=
  if contains_sub (lit mark) line then
    match find_char "]" line with Some pos => default old (stoi (drop (S pos) line)) | None => old end
  else old.
Definition count_line (st : Z * Z) (line : str) : Z * Z :=
  (read_count "[  PASSED  ]" line st.1, read_count "[  FAILED  ]" line st.2).

(** What the output of the tests reports: passed and failed. *)
Definition test_counts (proc : ProcessResult) : Z * Z :=
  foldl count_line (0, 0)%Z (getlines (if bool_decide (stdout_output proc = []) then stderr_output proc else stdout_output proc)).

Definition tests_gate (status detail : str) (data : list (str * jv)) : GateResult :=
  mkGate (lit "unit_test_health") status detail true (object data).

Definition gate_unit_test_health (w : World) (target : path) : option GateResult :=
  match detect_tests w target with
  | None =>
      Some (tests_gate (lit "fail") (lit "No test framework detected")
        [(lit "passed", jint 0); (lit "failed", jint 0); (lit "pass_rate", jdouble d_zero); (lit "threshold", jdouble (d_lit 95 100));
         (lit "status", jstr (lit "no_tests"))])
  | Some plan =>
      let proc := run w (test_cmd plan) (test_args plan) in
      let '(passed, failed) := test_counts proc in
      '(passed, failed, status, detail) ←
        (if (passed =? 0)%Z && (failed =? 0)%Z then
           if success proc
           then Some (1%Z, failed, lit "partial", lit "Tests passed (count unknown) — " ++ test_framework plan)
           else Some (passed, 1%Z, lit "fail", lit "Tests failed — " ++ test_framework plan)
         else
           total ← int_range (passed + failed)%Z;
           let rate := if (0 <? total)%Z then d_div (d_of_Z passed) (d_of_Z total) else d_zero in
           percent ← d_to_int (d_mul rate (d_of_Z 100));
           Some (passed, failed, (if d_le (d_lit 95 100) rate then lit "pass" else lit "fail"),
                 to_string_Z passed ++ lit "/" ++ to_string_Z total ++ lit " passed (" ++ to_string_Z percent ++ lit "%, threshold 95%)"));
      let pass_rate := if (0 <? passed + failed)%Z then d_div (d_of_Z passed) (d_of_Z (passed + failed)) else d_zero in
      Some (tests_gate status detail
        [(lit "passed", jint passed); (lit "failed", jint failed); (lit "pass_rate", jdouble pass_rate);
         (lit "threshold", jdouble (d_lit 95 100)); (lit "framework", jstr (test_framework plan)); (lit "status", jstr status)])
  end.

(** ** Build *)

Definition chomp (s : str) : str := rev (skip (fun c => char_is "010" c || char_is "013" c) (rev s)).

Definition build_command (w : World) (target : path) : option (str * list str) :=
  if check_file w target "CMakeLists.txt" then
    let build_dir := if check_file w target "cmake-build" then "cmake-build"%string else "build"%string in
    let nproc := shell w (lit "nproc 2>/dev/null || echo 4") in
    let cores := if success nproc then chomp (stdout_output nproc) else lit "4" in
    Some (lit "cmake", [lit "--build"; full_path target build_dir; lit "-j" ++ cores])
  else if check_file w target "Cargo.toml" then
    Some (lit "cargo", [lit "build"; lit "--manifest-path"; full_path target "Cargo.toml"])
  else if check_file w target "package.json" then Some (lit "npm", [lit "run"; lit "build"; lit "--prefix"; target])
  else if check_file w target "go.mod" then Some (lit "go", [lit "build"; lit "./..."])
  else None.

Definition gate_build_integrity (w : World) (target : path) : GateResult :=
  let gate status detail data := mkGate (lit "build_integrity") status detail true (object data) in
  match build_command w target with
  | None => gate (lit "partial") (lit "No recognized build system") [(lit "status", jstr (lit "no_build_system")); (lit "command", jstr [])]
  | Some (cmd, args) =>
      let ok := success (run w cmd args) in
      let status := if ok then lit "pass" else lit "fail" in
      gate status (cmd ++ (if ok then lit " build OK" else lit " build failed"))
        [(lit "status", jstr status); (lit "command", jstr (cmd ++ lit " " ++ default [] (head args)))]
  end.

(** ** Documentation *)

Definition strip_punctuation (token : str) : str := rev (skip (fun c => negb (isalnum c)) (rev token)).
Definition stale_reference (known : list str) (token : str) : bool :=
  match token with
  | [] => false
  | c :: _ => negb (char_is "-" c) && negb (char_is "<" c) && negb (bool_decide (token ∈ known)) && (1 <? length token)%nat
  end.
(** The state is whether the word before was the program's name. *)
Definition stale_step (known : list str) (st : bool * nat) (token : str) : bool * nat :=
  let '(after_euxis, n) := st in
  let token := if after_euxis then strip_punctuation token else token in
  (bool_decide (token = lit "euxis") || bool_decide (token = lit "`euxis"),
   if after_euxis && stale_reference known token then S n else n).
Definition check_stale (w : World) (known : list str) (doc : path) (n : nat) : nat :=
  if negb (fs_exists w doc) then n
  else (foldl (stale_step known) (false, n) (words (read_file_content w doc))).2.

Definition gate_docs_accuracy (w : World) (target : path) (known_commands : list str) : GateResult :=
  let gate status detail data := mkGate (lit "documentation_accuracy") status detail false (object data) in
  if negb (check_file w target "README.md" || check_file w target "readme.md") then
    gate (lit "fail") (lit "No README.md found")
      [(lit "status", jstr (lit "no_readme")); (lit "checked_surfaces", jarr []); (lit "stale_examples", jint 0)]
  else
    let readme_content :=
      read_file_content w (path_append target (if check_file w target "README.md" then lit "README.md" else lit "readme.md")) in
    let checked_surfaces := List.filter (fun cmd => contains_sub cmd readme_content) known_commands in
    let stale := check_stale w known_commands (path_append target (lit "README.md")) 0 in
    let stale_count :=
      if check_file w target "docs" then
        foldl (fun n e => if is_regular_file e && bool_decide (path_extension (e_path e) = lit ".md")
                          then check_stale w known_commands (e_path e) n else n)
          stale (recursive w (path_append target (lit "docs")))
      else stale in
    let '(status, detail) :=
      if (stale_count =? 0)%nat && negb (bool_decide (checked_surfaces = [])) then
        (lit "pass", lit "README present, " ++ to_string_nat (length checked_surfaces) ++ lit " commands documented, no stale refs")
      else if (0 <? stale_count)%nat then (lit "partial", to_string_nat stale_count ++ lit " potentially stale command references")
      else (lit "partial", lit "README present but no command references found") in
    gate status detail
      [(lit "status", jstr status); (lit "checked_surfaces", jstrs checked_surfaces); (lit "stale_examples", jint (Z.of_nat stale_count))].

(** ** Security *)

Definition secrets_exposed (w : World) (target : path) : bool :=
  let has_env := check_file w target ".env" || check_file w target ".env.local" in
  let env_gitignored :=
    check_file w target ".gitignore" && contains_sub (lit ".env") (read_file_content w (path_append target (lit ".gitignore"))) in
  has_env && negb env_gitignored.

Definition verdict (r : ProcessResult) : str := if success r then lit "pass" else lit "fail".

(** The three audits in turn: the status so far, [None] when none has run. *)
Definition npm_audit (w : World) (target : path) : option str :=
  if check_file w target "package-lock.json" && available w (lit "npm")
  then Some (verdict (run w (lit "npm") [lit "audit"; lit "--json"])) else None.
Definition cargo_audit (w : World) (target : path) (so_far : option str) : option str :=
  if check_file w target "Cargo.lock" && available w (lit "cargo") && success (shell w (lit "cargo audit --version 2>/dev/null"))
  then Some (verdict (run w (lit "cargo") [lit "audit"; lit "--quiet"])) else so_far.
Definition cmake_audit (w : World) (target : path) (so_far : option str) : option str :=
  match so_far with
  | Some s => Some s
  | None =>
      if check_file w target "CMakeLists.txt"
         && (contains_sub (lit "FetchContent") (read_file_content w (path_append target (lit "CMakeLists.txt")))
             || check_file w target "vcpkg.json" || check_file w target "conanfile.txt" || check_file w target "conanfile.py")
      then Some (lit "pass") else None
  end.
Definition dep_audit_status (w : World) (target : path) : str :=
  default (lit "unavailable") (cmake_audit w target (cargo_audit w target (npm_audit w target))).

Definition build_flags_status (w : World) (target : path) : str :=
  if check_file w target "CMakeLists.txt" then
    let content := read_file_content w (path_append target (lit "CMakeLists.txt")) in
    if contains_sub (lit "-DNDEBUG") content && negb (contains_sub (lit "Release") content) then lit "fail" else lit "pass"
  else lit "not_checked".

Definition gate_security_critical (w : World) (target : path) : GateResult :=
  let secrets_found := secrets_exposed w target in
  let dep := dep_audit_status w target in
  let '(status, detail, blocks) :=
    if secrets_found then (lit "fail", lit "Exposed secrets detected (.env not gitignored)", true)
    else if bool_decide (dep = lit "fail") then (lit "fail", lit "Dependency audit found vulnerabilities", true)
    else if bool_decide (dep = lit "unavailable") then (lit "partial", lit "Dependency audit unavailable", false)
    else (lit "pass", lit "No secrets exposed, dependencies managed", true) in
  mkGate (lit "security_critical") status detail blocks
    (object [(lit "secret_scan", jstr (if secrets_found then lit "fail" else lit "pass")); (lit "dependency_audit", jstr dep);
             (lit "build_flags", jstr (build_flags_status w target)); (lit "status", jstr status)]).

(** ** Quality *)

Record QualityRisk : Type := mkRisk { qr_status : str; high_complexity_files : list str; hotspots : list str; qr_data : jv }.

Definition source_extensions : list string := [".cpp"; ".hpp"; ".c"; ".h"; ".py"; ".js"; ".ts"; ".go"; ".rs"; ".java"]%string.
Definition skipped_parts : list string := [".git"; "node_modules"; "vendor"; "cmake-build"; "build/"]%string.
Definition is_source (e : Entry) : bool :=
  is_regular_file e && negb (existsb (fun part => contains_sub (lit part) (e_path e)) skipped_parts)
  && existsb (fun ext => bool_decide (path_extension (e_path e) = lit ext)) source_extensions.

(** Every other entry is passed over; the loop ends after 500 sources. *)
Fixpoint scan_sources (w : World) (target : path) (entries : list Entry) (found : list str) (scanned : nat) : list str * nat :=
  match entries with
  | [] => (found, scanned)
  | e :: entries =>
      if negb (is_source e) then scan_sources w target entries found scanned
      else
        let line_count := length (getlines (contents w (e_path e))) in
        let found := if (1000 <? line_count)%nat
                     then found ++ [lexically_relative (e_path e) target ++ lit " (" ++ to_string_nat line_count ++ lit " lines)"]
                     else found in
        if (500 <=? S scanned)%nat then (found, S scanned) else scan_sources w target entries found (S scanned)
  end.

Definition analyze_quality_risk (w : World) (target : path) : QualityRisk :=
  let '(found, scanned) := scan_sources w target (recursive w target) [] 0 in
  let status := if bool_decide (found = []) then lit "pass" else lit "gaps" in
  mkRisk status found [] (object [(lit "status", jstr status); (lit "high_complexity_files", jstrs found); (lit "hotspots", jstrs []);
                                  (lit "files_scanned", jint (Z.of_nat scanned))]).

(** *** The gates return *)

Lemma d_to_int_le k d : (0 <= k <= 30)%Z -> pos_le k d -> exists z, d_to_int d = Some z /\ (0 <= z <= 2 ^ k)%Z.
Proof.
  intros Hk Hd. destruct (trunc_le k d ltac:(lia) Hd) as (z & Ez & Hz). exists z. split; [|lia].
  unfold d_to_int, int_range. rewrite Ez. cbn [mbind option_bind].
  rewrite bool_decide_true; [done|]. unfold int32. pose proof (Z.pow_le_mono_r 2 k 30 ltac:(lia) ltac:(lia)). lia.
Qed.

(** A million tests are counted without overflow. *)
Lemma unit_tests_return w target :
  (forall plan, detect_tests w target = Some plan ->
     let '(passed, failed) := test_counts (run w (test_cmd plan) (test_args plan)) in
     (0 <= passed <= 2 ^ 20 /\ 0 <= failed <= 2 ^ 20)%Z) ->
  is_Some (gate_unit_test_health w target).
Proof.
  intros Hc. unfold gate_unit_test_health. destruct (detect_tests w target) as [plan|]; [|by eexists].
  specialize (Hc plan eq_refl). destruct (test_counts _) as [p f]. destruct Hc as [Hp Hf].
  destruct ((p =? 0)%Z && (f =? 0)%Z) eqn:E0; [case_match; by eexists|].
  assert (p <> 0 \/ f <> 0)%Z as Hne by lia. unfold int_range at 1. rewrite bool_decide_true by (unfold int32; lia). cbn [mbind option_bind].
  rewrite (proj2 (Z.ltb_lt 0 (p + f))) by lia.
  assert (pos_le 20 (d_div (d_of_Z p) (d_of_Z (p + f)))) as Hr by (apply ratio_le; unfold small; lia).
  assert (pos_le 7 (d_of_Z 100)) as H100 by (apply of_Z_le; unfold small; lia).
  destruct (d_to_int_le 27 (d_mul (d_div (d_of_Z p) (d_of_Z (p + f))) (d_of_Z 100)) ltac:(lia)) as (z & -> & _); [|by eexists].
  apply (mul_le 20 7); [unfold small; lia|done|done].
Qed.
End gates.
