(* ===== verification/Certification.v ===== *)
(** * The readiness assessment: [apps/cli/src/certification.cpp]

    Evidence, the eighteen domains, the final status and the report, over the
    gates of [CertGates].  The gates run one after the other, each on the world
    it finds. *)

From Stdlib Require Import ZArith Ascii String Lia.
From stdpp Require Import base list gmap strings sorting.
From S2P Require Import Prelude CxxString Clock Doubles DoubleBounds Paths Json JsonText CertGates.

(** ** Domains and frameworks *)

Inductive Framework : Type := General | SOC2 | ISO27001.
#[export] Instance framework_eq_dec : EqDecision Framework.
Proof. solve_decision. Defined.

Definition framework_name (f : Framework) : str :=
  match f with General => lit "general" | SOC2 => lit "soc2" | ISO27001 => lit "iso27001" end.
Definition parse_framework (s : str) : option Framework :=
  if bool_decide (s = lit "general") then Some General
  else if bool_decide (s = lit "soc2") then Some SOC2
  else if bool_decide (s = lit "iso27001") then Some ISO27001
  else None.

Record DomainDefinition : Type := mkDomain {
  dd_name : str; required_signals : list str; optional_signals : list str; dd_critical : bool;
}.
Definition domain (name : string) (required optional : list string) (critical : bool) : DomainDefinition :=
  mkDomain (lit name) (lit <$> required) (lit <$> optional) critical.

Definition default_domains : list DomainDefinition := [
  domain "Governance & Organizational Controls" ["contributing"; "code review"] ["CODEOWNERS"; "governance docs"] false;
  domain "Legal & Regulatory Compliance" ["LICENSE"] ["NOTICE"; "privacy policy"] false;
  domain "Secure Software Development Lifecycle" [".gitignore"; "CI"; "SECURITY"] ["branch protection"] false;
  domain "Identity & Access Management" ["secrets excluded"] ["SSO"; "2FA"] false;
  domain "Data Security & Privacy" [] ["PII filter"; "encryption"] false;
  domain "Infrastructure & Cloud Security" [] ["Dockerfile"; "cloud config"] false;
  domain "Application Security" ["security gate"] ["dependency audit"; "build flags"] true;
  domain "Vulnerability & Patch Management" ["lockfile"] ["CVE scanning"; "dependency versions"] false;
  domain "Logging, Monitoring & Detection" [] ["audit log"; "metrics"] false;
  domain "Incident Response" [] ["security policy"; "incident playbook"] false;
  domain "Business Continuity & Disaster Recovery" [] ["backup"; "recovery"] false;
  domain "Performance & Reliability" [] ["SLA"; "benchmark"; "timeout"] false;
  domain "Software Quality Assurance" ["test gate"; "build gate"] ["coverage"; "CI"] true;
  domain "Change Management" ["commit signing"; "CHANGELOG"] ["git history"] false;
  domain "Supply Chain & Third-Party Security" ["lockfile"] ["SBOM"; "dependency audit"] false;
  domain "Documentation & Audit Evidence" ["README"] ["docs/"; "architecture docs"] true;
  domain "User Protection & Safety" [] ["PII filter"; "input validation"] false;
  domain "Training & Awareness" [] ["training"; "onboarding"; "security guidelines"] false]%string.

Definition always_critical : list string :=
  ["Secure Software Development Lifecycle"; "Application Security"; "Software Quality Assurance"; "Documentation & Audit Evidence"]%string.
Definition critical_names (f : Framework) : list string :=
  match f with
  | General => always_critical
  | SOC2 => app always_critical ["Governance & Organizational Controls"; "Identity & Access Management"; "Logging, Monitoring & Detection";
                                "Change Management"; "Supply Chain & Third-Party Security"]
  | ISO27001 => app always_critical ["Governance & Organizational Controls"; "Vulnerability & Patch Management"; "Incident Response";
                                    "Business Continuity & Disaster Recovery"; "Supply Chain & Third-Party Security"]
  end%string.
Definition apply_framework_overlay (f : Framework) (domains : list DomainDefinition) : list DomainDefinition :=
  (fun d => if existsb (fun n => bool_decide (dd_name d = lit n)) (critical_names f)
            then mkDomain (dd_name d) (required_signals d) (optional_signals d) true else d) <$> domains.

(** ** Evidence *)

Record Evidence : Type := mkEvidence {
  ev_id : str; ev_domain : str; ev_source : str; ev_status : str; execution_backed : bool; summary : str;
}.
(** Evidence before it is numbered *)
Definition Item : Type := str -> Evidence.
Definition item (domain source : string) (status : str) (backed : bool) (summary : str) : Item :=
  fun id => mkEvidence id (lit domain) (lit source) status backed summary.
Definition file_item (domain source summary : string) : Item := item domain source (lit "pass") false (lit summary).

Section evidence.
Context `{Json}.

Definition check_and_add (w : World) (target : path) (file domain summary : string) : list Item :=
  if check_file w target file then [file_item domain "file" summary] else [].
Definition add_if (b : bool) (i : Item) : list Item := if b then [i] else [].
(** The gates of that name, reported to a domain *)
Definition add_gate (gates : list GateResult) (name domain source label : string) : list Item :=
  flat_map (fun g => add_if (bool_decide (gr_name g = lit name)) (item domain source (gr_status g) true (lit label ++ gr_detail g))) gates.

Definition evidence_items (w : World) (target : path) (gates : list GateResult) (qr : QualityRisk) : list Item :=
  let add := check_and_add w target in
  let has := check_file w target in
  let ignored part := contains_sub (lit part) (read_file_content w (path_append target (lit ".gitignore"))) in
  add "CONTRIBUTING.md" "Governance & Organizational Controls" "CONTRIBUTING.md present"
  ++ add_if (has ".github/CODEOWNERS" || has "CODEOWNERS")
       (file_item "Governance & Organizational Controls" "file" "CODEOWNERS defined")
  ++ add "LICENSE" "Legal & Regulatory Compliance" "LICENSE file present"
  ++ add "LICENSE.md" "Legal & Regulatory Compliance" "LICENSE file present"
  ++ add "NOTICE" "Legal & Regulatory Compliance" "NOTICE file present"
  ++ add ".gitignore" "Secure Software Development Lifecycle" ".gitignore configured"
  ++ add ".github/workflows" "Secure Software Development Lifecycle" "CI workflows present"
  ++ add ".gitlab-ci.yml" "Secure Software Development Lifecycle" "GitLab CI present"
  ++ add "SECURITY.md" "Secure Software Development Lifecycle" "Security policy defined"
  ++ add_if (has ".gitignore" && (ignored ".env" || ignored "credentials"))%string
       (file_item "Identity & Access Management" "file" "Secrets excluded via .gitignore")
  ++ add "Dockerfile" "Infrastructure & Cloud Security" "Dockerfile present"
  ++ add "docker-compose.yml" "Infrastructure & Cloud Security" "Docker Compose present"
  ++ add "docker-compose.yaml" "Infrastructure & Cloud Security" "Docker Compose present"
  ++ add_gate gates "security_critical" "Application Security" "builtin" "Security gate: "
  ++ add "package-lock.json" "Vulnerability & Patch Management" "Package lockfile present"
  ++ add "Cargo.lock" "Vulnerability & Patch Management" "Cargo lockfile present"
  ++ add "go.sum" "Vulnerability & Patch Management" "Go sum file present"
  ++ add "poetry.lock" "Vulnerability & Patch Management" "Poetry lockfile present"
  ++ add_if (has "data/runtime/metrics" || has "metrics") (file_item "Logging, Monitoring & Detection" "file" "Metrics directory present")
  ++ add_if (has "data/gateway/audit") (file_item "Logging, Monitoring & Detection" "file" "Audit log directory present")
  ++ add "SECURITY.md" "Incident Response" "Security policy with contact info"
  ++ add_if (has "data/config/targets.json") (file_item "Performance & Reliability" "artifact" "SLA targets defined")
  ++ flat_map (fun g =>
       add_gate [g] "unit_test_health" "Software Quality Assurance" "builtin" "Test gate: "
       ++ add_gate [g] "build_integrity" "Software Quality Assurance" "builtin" "Build gate: ") gates
  ++ add_if (negb (bool_decide (high_complexity_files qr = [])))
       (item "Software Quality Assurance" "builtin" (lit "partial") false
          (to_string_nat (length (high_complexity_files qr)) ++ lit " high-complexity files detected"))
  ++ add_gate gates "commit_signing" "Change Management" "git" "Commit signing: "
  ++ add "CHANGELOG.md" "Change Management" "CHANGELOG present"
  ++ add "CHANGELOG" "Change Management" "CHANGELOG present"
  ++ add "vcpkg.json" "Supply Chain & Third-Party Security" "vcpkg manifest present"
  ++ add "package-lock.json" "Supply Chain & Third-Party Security" "npm lockfile present"
  ++ add "Cargo.lock" "Supply Chain & Third-Party Security" "Cargo lockfile present"
  ++ add "README.md" "Documentation & Audit Evidence" "README present"
  ++ add_if (has "docs") (file_item "Documentation & Audit Evidence" "file" "docs/ directory present")
  ++ add_gate gates "documentation_accuracy" "Documentation & Audit Evidence" "builtin" "Docs gate: "
  ++ add_if (has "src/pii_filter.cpp" || has "apps/cli/src/pii_filter.cpp") (file_item "User Protection & Safety" "file" "PII filter present")
  ++ add "docs/guides" "Training & Awareness" "Guides directory present"
  ++ add "ONBOARDING.md" "Training & Awareness" "Onboarding docs present"
  ++ add_if (has "data/runtime/sessions/latest_verdict.json")
       (item "Software Quality Assurance" "artifact" (lit "pass") true (lit "Recent Euxis verdict artifact present"))
  ++ add_if (has "data/config/router.json") (file_item "Performance & Reliability" "artifact" "Model routing configuration present")
  ++ add "BACKUP.md" "Business Continuity & Disaster Recovery" "Backup documentation present"
  ++ add "docs/disaster-recovery.md" "Business Continuity & Disaster Recovery" "DR docs present"
  ++ add "PRIVACY.md" "Data Security & Privacy" "Privacy policy present".

(** [next_id] counts as the evidence is added. *)
Definition collect_evidence (w : World) (target : path) (gates : list GateResult) (qr : QualityRisk) : list Evidence :=
  imap (fun i it => it (lit "ev-" ++ to_string_nat (S i))) (evidence_items w target gates qr).

(** ** Evaluation of the domains *)

Record DomainResult : Type := mkDomainResult {
  dr_name : str; dr_status : str; coverage : double; evidence_count : nat; dr_critical : bool; findings : list str; missing_controls : list str;
}.

Definition counts (e : Evidence) : bool := bool_decide (ev_status e = lit "pass") || bool_decide (ev_status e = lit "partial").
Definition matches (name sig : str) (e : Evidence) : bool :=
  bool_decide (ev_domain e = name) && (contains_sub sig (summary e) || contains_sub sig (ev_id e)) && counts e.
Definition matches_loosely (name sig : str) (e : Evidence) : bool :=
  bool_decide (ev_domain e = name) && counts e && contains_sub (lower sig) (lower (summary e)).
Definition signal_found (evidence : list Evidence) (name : str) (ev_count : nat) (sig : str) : bool :=
  existsb (matches name sig) evidence || ((0 <? ev_count)%nat && existsb (matches_loosely name sig) evidence).

Definition evaluate_domain (evidence : list Evidence) (def : DomainDefinition) : DomainResult :=
  let ev_count := length (List.filter (fun e => bool_decide (ev_domain e = dd_name def)) evidence) in
  let found := signal_found evidence (dd_name def) ev_count in
  let met := List.filter found (required_signals def) in
  let cov := match required_signals def with
             | [] => if (0 <? ev_count)%nat then d_of_Z 1 else d_zero
             | sigs => d_div (d_of_Z (Z.of_nat (length met))) (d_of_Z (Z.of_nat (length sigs)))
             end in
  let status :=
    if d_le (d_of_Z 1) cov then lit "verified"
    else if d_le (d_lit 5 10) cov then lit "gaps"
    else if d_eqb cov d_zero && dd_critical def then lit "blocked"
    else lit "inconclusive" in
  mkDomainResult (dd_name def) status cov ev_count (dd_critical def) ((fun sig => sig ++ lit ": covered") <$> met)
    (List.filter (fun sig => negb (found sig)) (required_signals def)).

Definition evaluate_domains (definitions : list DomainDefinition) (evidence : list Evidence) : list DomainResult :=
  evaluate_domain evidence <$> definitions.

(** ** The final status *)

Inductive Readiness : Type := READY | READY_WITH_GAPS | BLOCKED | INCONCLUSIVE.
Definition readiness_text (s : Readiness) : str :=
  match s with
  | READY => lit "READY" | READY_WITH_GAPS => lit "READY WITH GAPS" | BLOCKED => lit "BLOCKED" | INCONCLUSIVE => lit "INCONCLUSIVE"
  end.

Definition has_status (s : string) (d : DomainResult) : bool := bool_decide (dr_status d = lit s).
Definition gate_is (s : string) (g : GateResult) : bool := bool_decide (gr_status g = lit s).
Definition gate_blocks (g : GateResult) : bool := gate_is "fail" g && blocking g.
Definition domain_blocks (d : DomainResult) : bool := dr_critical d && has_status "blocked" d.
Definition count {A} (p : A -> bool) (l : list A) : nat := length (List.filter p l).

(** [std::sort] and [std::unique] *)
Fixpoint unique (l : list str) : list str :=
  match l with
  | a :: (b :: _) as l' => if bool_decide (a = b) then unique l' else a :: unique l'
  | l => l
  end.

Definition recommended (control : str) : option str :=
  let names part := contains_sub (lit part) control in
  if names "CONTRIBUTING" then Some (lit "Add CONTRIBUTING.md for governance coverage")
  else if names "SECURITY" then Some (lit "Create SECURITY.md with vulnerability disclosure process")
  else if names "training" || names "onboarding" then Some (lit "Add training/onboarding documentation")
  else if names "LICENSE" then Some (lit "Add LICENSE file")
  else None.

Record RunOptions : Type := mkRunOptions {
  framework : Framework; strict : bool; run_build : bool; run_tests : bool; run_security : bool; commit_window : Z; since_ref : str;
}.
Record RunResult : Type := mkRun {
  rr_framework : Framework; rr_target : str; rr_strict : bool; gates : list GateResult; domains : list DomainResult;
  rr_evidence : list Evidence; quality_risk : QualityRisk; blocking_issues : list str; major_gaps : list str;
  recommended_actions : list str; skipped_gates : list str; rr_status : Readiness; confidence : Z; rr_exit_code : Z; readiness_summary : str;
}.

Definition ratio (a b : nat) : double := d_div (d_of_Z (Z.of_nat a)) (d_of_Z (Z.of_nat b)).
Definition average (l : list double) : double := d_div (foldl d_add d_zero l) (d_of_Z (Z.of_nat (length l))).

Definition final_status (gs : list GateResult) (ds : list DomainResult) (ev : list Evidence) (gaps : list str) (avg_coverage : double) :
    Readiness :=
  if existsb gate_blocks gs || existsb domain_blocks ds then BLOCKED
  else if (2 <? count (gate_is "skipped") gs)%nat || (length ev <? 5)%nat
          || (length ds / 2 <? count (has_status "inconclusive") ds)%nat then INCONCLUSIVE
  else if d_lt (d_lit 75 100) avg_coverage && (length gaps <=? 3)%nat then READY
  else READY_WITH_GAPS.

Definition confidence_of (gs : list GateResult) (ds : list DomainResult) (ev : list Evidence) (avg_coverage : double) : option Z :=
  let counted := List.filter (fun g => negb (gate_is "skipped" g)) gs in
  let gate_score := match counted with [] => d_zero | _ => d_mul (ratio (count (gate_is "pass") counted) (length counted)) (d_of_Z 40) end in
  let exec_ratio := match ev with [] => d_zero | _ => ratio (count execution_backed ev) (length ev) end in
  let critical := coverage <$> List.filter dr_critical ds in
  let critical_score := match critical with [] => d_of_Z 10 | _ => d_mul (average critical) (d_of_Z 10) end in
  c ← d_to_int (d_add (d_add (d_add gate_score (d_mul avg_coverage (d_of_Z 30))) (d_mul exec_ratio (d_of_Z 20))) critical_score);
  Some (Z.min c 100).

Definition summary_text (status : Readiness) (ds : list DomainResult) (skipped : list str) : str :=
  let n s := to_string_nat (count (has_status s) ds) in
  let known d := has_status "verified" d || has_status "gaps" d || has_status "blocked" d in
  readiness_text status ++ lit " — " ++ n "verified" ++ lit " verified, " ++ n "gaps" ++ lit " with gaps, " ++ n "blocked"
  ++ lit " blocked, " ++ to_string_nat (count (fun d => negb (known d)) ds) ++ lit " inconclusive"
  ++ (if bool_decide (skipped = []) then []
      else lit " (readiness reduced: " ++ to_string_nat (length skipped) ++ lit " gate(s) skipped)").

Definition finalize_result (opts : RunOptions) (target : str) (gs : list GateResult) (ds : list DomainResult) (ev : list Evidence)
    (qr : QualityRisk) : option RunResult :=
  let gaps := flat_map (fun d => (fun mc => dr_name d ++ lit ": missing " ++ mc) <$> missing_controls d)
                (List.filter (has_status "gaps") ds) in
  let blocking :=
    ((fun g => lit "Gate '" ++ gr_name g ++ lit "' failed: " ++ gr_detail g) <$> List.filter gate_blocks gs)
    ++ ((fun d => lit "Critical domain '" ++ dr_name d ++ lit "' blocked") <$> List.filter domain_blocks ds) in
  let avg_coverage := match ds with [] => d_zero | _ => average (coverage <$> ds) end in
  let status := final_status gs ds ev gaps avg_coverage in
  let skipped := gr_name <$> List.filter (gate_is "skipped") gs in
  let actions := unique (merge_sort str_le (omap recommended (flat_map missing_controls ds))) in
  c ← confidence_of gs ds ev avg_coverage;
  Some (mkRun (framework opts) target (strict opts) gs ds ev qr blocking gaps actions skipped status c
          (match status with READY | READY_WITH_GAPS => 0 | _ => 1 end)%Z (summary_text status ds skipped)).

(** ** The run *)

(** What each step finds *)
Record Worlds : Type := mkWorlds {
  at_signing : World; at_tests : World; at_build : World; at_docs : World; at_security : World; at_quality : World; at_evidence : World;
}.

Definition known_commands : list str :=
  lit <$> ["check"; "triage"; "review"; "compare"; "stats"; "policy"; "certify-readiness"; "install"; "update"; "upgrade"; "uninstall";
           "self"; "doctor"; "health"; "verify"; "agent"; "playbook"]%string.

Definition skipped_gate (name detail : string) : GateResult :=
  mkGate (lit name) (lit "skipped") (lit detail) false (object [(lit "status", jstr (lit "skipped"))]).
Definition set_blocking (g : GateResult) : GateResult := mkGate (gr_name g) (gr_status g) (gr_detail g) true (gr_data g).

Definition run_gates (ws : Worlds) (target : path) (opts : RunOptions) : option (list GateResult) :=
  tests ← (if run_tests opts then gate_unit_test_health (at_tests ws) target
           else Some (skipped_gate "unit_test_health" "Skipped (--no-tests)"));
  let docs := gate_docs_accuracy (at_docs ws) target known_commands in
  Some [gate_commit_signing (at_signing ws) target (commit_window opts) (since_ref opts) (strict opts); tests;
        (if run_build opts then gate_build_integrity (at_build ws) target else skipped_gate "build_integrity" "Skipped (--no-build)");
        (if strict opts then set_blocking docs else docs);
        (if run_security opts then gate_security_critical (at_security ws) target
         else skipped_gate "security_critical" "Skipped (--no-security)")].

Definition run_certification (ws : Worlds) (target : path) (opts : RunOptions) : option RunResult :=
  gs ← run_gates ws target opts;
  let qr := analyze_quality_risk (at_quality ws) target in
  let ev := collect_evidence (at_evidence ws) target gs qr in
  finalize_result opts target gs (evaluate_domains (apply_framework_overlay (framework opts) default_domains) ev) ev qr.

(** ** The report *)

(** Assignments to the members of an object, in their order *)
Definition assign (kvs : list (str * jv)) (m : gmap str jv) : gmap str jv := foldl (fun m kv => <[kv.1 := kv.2]> m) m kvs.

Definition disclaimer : str :=
  lit "This artifact is an internal readiness assessment and not proof of external certification or legal compliance.".

Definition run_to_json (now : Z) (r : RunResult) : jv :=
  let gate_json g := object [(lit "name", jstr (gr_name g)); (lit "status", jstr (gr_status g)); (lit "blocking", jbool (blocking g));
                             (lit "detail", jstr (gr_detail g)); (lit "data", gr_data g)] in
  let domain_json d := object [(lit "name", jstr (dr_name d)); (lit "status", jstr (dr_status d)); (lit "coverage", jdouble (coverage d));
                               (lit "evidence_count", jint (Z.of_nat (evidence_count d))); (lit "critical", jbool (dr_critical d));
                               (lit "findings", jstrs (findings d)); (lit "missing_controls", jstrs (missing_controls d))] in
  let backed := count execution_backed (rr_evidence r) in
  jobj (assign (
    [(lit "schema", jstr (lit "euxis.certification")); (lit "schema_version", jstr (lit "1.0.0"));
     (lit "assessment_type", jstr (lit "internal_readiness")); (lit "official_certification", jbool false);
     (lit "disclaimer", jstr disclaimer); (lit "timestamp", jstr (iso8601 now)); (lit "framework", jstr (framework_name (rr_framework r)));
     (lit "target", jstr (rr_target r)); (lit "strict", jbool (rr_strict r)); (lit "status", jstr (readiness_text (rr_status r)));
     (lit "confidence", jint (confidence r)); (lit "readiness_summary", jstr (readiness_summary r));
     (lit "gates", jarr (gate_json <$> gates r)); (lit "domains", jarr (domain_json <$> domains r));
     (lit "evidence_summary",
        object [(lit "total", jint (Z.of_nat (length (rr_evidence r)))); (lit "execution_backed", jint (Z.of_nat backed));
                (lit "inferred", jint (Z.of_nat (length (rr_evidence r) - backed)))]);
     (lit "quality_risk", qr_data (quality_risk r))]
    ++ ((fun g => (gr_name g, gr_data g)) <$> gates r)
    ++ [(lit "blocking_issues", jstrs (blocking_issues r)); (lit "major_gaps", jstrs (major_gaps r));
        (lit "recommended_actions", jstrs (recommended_actions r)); (lit "skipped_gates", jstrs (skipped_gates r));
        (lit "exit_code", jint (rr_exit_code r))]) ∅).

(** ** Which evidence there is *)

Lemma add_gate_Forall (P : Item -> Prop) gates name domain source label :
  (forall g, g ∈ gates -> gr_name g = lit name -> P (item domain source (gr_status g) true (lit label ++ gr_detail g))) ->
  Forall P (add_gate gates name domain source label).
Proof.
  intros HP. apply Forall_forall. intros it Hin. unfold add_gate in Hin. apply elem_of_flat_map in Hin as (g & Hg & Hin).
  unfold add_if in Hin. case_bool_decide; [|by apply not_elem_of_nil in Hin].
  apply list_elem_of_singleton in Hin as ->. by apply HP.
Qed.

Lemma Forall_add_if (P : Item -> Prop) b it : P it -> Forall P (add_if b it).
Proof. intros HP. destruct b; repeat constructor; done. Qed.

Lemma Forall_check_and_add (P : Item -> Prop) w target file domain summary :
  P (file_item domain "file" summary) -> Forall P (check_and_add w target file domain summary).
Proof. intros HP. unfold check_and_add. case_match; repeat constructor; done. Qed.

(** What holds of every item that can be added holds of the evidence. *)
Lemma evidence_of_domain (D : string) (P : Evidence -> Prop) w target gates qr :
  (Forall (fun it : Item => forall id, ev_domain (it id) = lit D -> P (it id)) (evidence_items w target gates qr)) ->
  forall e, e ∈ collect_evidence w target gates qr -> ev_domain e = lit D -> P e.
Proof.
  intros HP e Hin He. unfold collect_evidence in Hin. apply list_elem_of_lookup in Hin as (i & Hi).
  rewrite list_lookup_imap in Hi. apply fmap_Some in Hi as (it & E & ->). rewrite Forall_lookup in HP. by apply (HP i it E).
Qed.

(** Goes through the items; the gates of the last case are any of the list. *)
Ltac each_item :=
  unfold evidence_items; match goal with |- Forall ?P0 _ => let P := fresh "P" in set (P := P0);
  repeat (apply Forall_app; split);
  first [apply Forall_check_and_add | apply Forall_add_if | apply add_gate_Forall; intros ? ? ?
        | apply Forall_forall; let it := fresh "it" in let Hit := fresh "Hit" in
          intros it Hit; apply elem_of_flat_map in Hit as (? & ? & Hit); revert it Hit; apply Forall_forall;
          apply Forall_app; split; apply add_gate_Forall; intros ? ->%list_elem_of_singleton ?];
  unfold P; cbn beta end.

Lemma evidence_id w target gates qr e : e ∈ collect_evidence w target gates qr -> exists n, ev_id e = lit "ev-" ++ to_string_nat n.
Proof.
  intros Hin. assert (Forall (fun it : Item => forall id, ev_id (it id) = id) (evidence_items w target gates qr)) as HP.
  { each_item; done. }
  unfold collect_evidence in Hin. apply list_elem_of_lookup in Hin as (i & Hi).
  rewrite list_lookup_imap in Hi. apply fmap_Some in Hi as (it & E & ->).
  exists (S i). rewrite Forall_lookup in HP. by apply (HP i it E).
Qed.

Lemma evidence_length w target gates qr : length gates <= 5 -> length (collect_evidence w target gates qr) <= 128.
Proof.
  intros Hg. unfold collect_evidence. rewrite length_imap.
  assert (forall b it, length (add_if b it) <= 1) as Hif by (intros []; simpl; lia).
  assert (forall f d s, length (check_and_add w target f d s) <= 1) as Hadd
    by (intros; unfold check_and_add; case_match; simpl; lia).
  assert (forall gs n d s l, length (add_gate gs n d s l) <= length gs) as Hgate.
  { intros gs n d s l. unfold add_gate. induction gs as [|g gs IH]; [simpl; lia|]. cbn [flat_map]. rewrite length_app.
    specialize (Hif (bool_decide (gr_name g = lit n)) (item d s (gr_status g) true (lit l ++ gr_detail g))). simpl. lia. }
  assert (forall f : GateResult -> list Item, (forall g, length (f g) <= 2) -> length (flat_map f gates) <= 2 * length gates) as Hflat.
  { intros f Hf. clear Hg. induction gates as [|g gs IH]; [simpl; lia|]. cbn [flat_map]. rewrite length_app. specialize (Hf g). simpl. lia. }
  unfold evidence_items. rewrite !length_app.
  repeat match goal with
  | |- context [length (check_and_add w target ?f ?d ?s)] => let HP := fresh in pose proof (Hadd f d s) as HP; revert HP; generalize (length (check_and_add w target f d s)); intros ? ?
  | |- context [length (add_if ?b ?i)] => let HP := fresh in pose proof (Hif b i) as HP; revert HP; generalize (length (add_if b i)); intros ? ?
  | |- context [length (add_gate gates ?n ?d ?s ?l)] => let HP := fresh in pose proof (Hgate gates n d s l) as HP; revert HP; generalize (length (add_gate gates n d s l)); intros ? ?
  end.
  match goal with |- context [length (flat_map ?f gates)] => pose proof (Hflat f) as Hf end.
  assert (length (flat_map (fun g => add_gate [g] "unit_test_health" "Software Quality Assurance" "builtin" "Test gate: "
    ++ add_gate [g] "build_integrity" "Software Quality Assurance" "builtin" "Build gate: ") gates) <= 2 * length gates).
  { apply Hf. intros g. rewrite length_app. pose proof (Hgate [g] "unit_test_health" "Software Quality Assurance" "builtin" "Test gate: ")%string.
    pose proof (Hgate [g] "build_integrity" "Software Quality Assurance" "builtin" "Build gate: ")%string. simpl in *. lia. }
  lia.
Qed.

(** ** Coverage of a domain *)

Definition speaks_of (name sig : str) (e : Evidence) : Prop :=
  ev_domain e = name /\ counts e = true /\ contains_sub (lower sig) (lower (summary e)) = true.
(** Some required signal of the domain is covered, or there is any evidence
    for a domain that requires none. *)
Definition covered (ev : list Evidence) (d : DomainDefinition) : Prop :=
  match required_signals d with
  | [] => Exists (fun e => ev_domain e = dd_name d) ev
  | sigs => Exists (fun sig => Exists (speaks_of (dd_name d) sig) ev) sigs
  end.
#[export] Instance covered_dec ev d : Decision (covered ev d).
Proof. unfold covered, speaks_of. destruct (required_signals d); apply _. Defined.

(** A signal that cannot be part of an evidence identifier *)
Definition distinctive (sig : str) : bool := existsb (fun c => negb (isdigit c) && negb (bool_decide (c ∈ lit "ev-"))) sig.
Definition plain_domain (d : DomainDefinition) : Prop :=
  length (required_signals d) <= 3 /\ forallb distinctive (required_signals d) = true.

Lemma default_plain f d : d ∈ apply_framework_overlay f default_domains -> plain_domain d.
Proof.
  intros (d' & -> & Hd)%list_elem_of_fmap.
  assert (Forall plain_domain default_domains) as HP by (repeat constructor; cbn; lia).
  rewrite Forall_forall in HP. specialize (HP d' Hd). by case_match.
Qed.

Lemma not_in_id sig n : distinctive sig = true -> contains_sub sig (lit "ev-" ++ to_string_nat n) = false.
Proof.
  intros Hs. apply not_true_iff_false. intros (a & b & E)%contains_sub_spec.
  unfold distinctive in Hs. apply existsb_exists in Hs as (c & Hin & Hc). apply andb_true_iff in Hc as [Hd Hv].
  rewrite negb_true_iff in Hd, Hv. apply bool_decide_eq_false in Hv.
  assert (c ∈ lit "ev-" ++ to_string_nat n) as Hc. { rewrite E, !elem_of_app. right. left. by apply list_elem_of_In. }
  apply elem_of_app in Hc as [?|Hc]; [done|]. by apply (to_string_nat_free c n).
Qed.

Lemma contains_lower sig s : contains_sub sig s = true -> contains_sub (lower sig) (lower s) = true.
Proof. intros (a & b & ->)%contains_sub_spec. apply contains_sub_spec. exists (lower a), (lower b). by rewrite !lower_app. Qed.

Section signals.
Context (ev : list Evidence) (Hids : forall e, e ∈ ev -> exists n, ev_id e = lit "ev-" ++ to_string_nat n).

Lemma signal_found_spec name sig : distinctive sig = true ->
  signal_found ev name (length (List.filter (fun e => bool_decide (ev_domain e = name)) ev)) sig = true <->
  exists e, e ∈ ev /\ speaks_of name sig e.
Proof.
  intros Hd. unfold signal_found. rewrite orb_true_iff, andb_true_iff, !existsb_exists. split.
  - intros [(e & Hin & He)|(_ & e & Hin & He)]; exists e; (split; [by apply list_elem_of_In|]); apply list_elem_of_In in Hin;
      apply andb_true_iff in He as [He1 He2]; apply andb_true_iff in He1 as [He1 He3]; apply bool_decide_eq_true in He1.
    + split; [done|]. split; [done|]. destruct (Hids e Hin) as [n Hn]. rewrite Hn, (not_in_id sig n Hd), orb_false_r in He3.
      by apply contains_lower.
    + by split.
  - intros (e & Hin & Hn & Hc & Hs). right. split.
    + apply Nat.ltb_lt. assert (e ∈ List.filter (fun e => bool_decide (ev_domain e = name)) ev) as Hf.
      { apply list_elem_of_In, filter_In. split; [by apply list_elem_of_In|by apply bool_decide_eq_true]. }
      destruct (List.filter _ _); [by apply not_elem_of_nil in Hf|simpl; lia].
    + exists e. split; [by apply list_elem_of_In|]. unfold matches_loosely. by rewrite bool_decide_true, Hc, Hs.
Qed.

Lemma filter_nonempty {A} (p : A -> bool) l : List.filter p l = [] <-> forall a, a ∈ l -> p a = false.
Proof.
  split.
  - intros E a Ha. destruct (p a) eqn:Ep; [|done]. assert (a ∈ List.filter p l) as Hin; [|by rewrite E in Hin; apply not_elem_of_nil in Hin].
    apply list_elem_of_In, filter_In. by rewrite <-list_elem_of_In.
  - intros Hall. destruct (List.filter p l) as [|a l'] eqn:E; [done|]. assert (a ∈ List.filter p l) as Hin by (rewrite E; left).
    apply list_elem_of_In, filter_In in Hin as [Hin Hp]. apply list_elem_of_In in Hin. by rewrite (Hall a Hin) in Hp.
Qed.

Lemma found_none d : plain_domain d -> required_signals d <> [] ->
  List.filter (signal_found ev (dd_name d) (length (List.filter (fun e => bool_decide (ev_domain e = dd_name d)) ev))) (required_signals d) = []
  <-> ~ covered ev d.
Proof.
  intros [_ Hd] Hne. rewrite filter_nonempty. unfold covered. destruct (required_signals d) as [|sig0 sigs]; [done|].
  rewrite forallb_forall in Hd. split.
  - intros Hall (sig & Hs & (e & He & Hsp)%Exists_exists)%Exists_exists. specialize (Hall sig Hs). apply not_true_iff_false in Hall. apply Hall.
    apply signal_found_spec; [|by exists e]. apply Hd. by apply list_elem_of_In.
  - intros Hn sig Hs. apply not_true_iff_false. intros (e & He & Hsp)%signal_found_spec; [|by apply Hd, list_elem_of_In].
    apply Hn, Exists_exists. exists sig. split; [done|]. apply Exists_exists. by exists e.
Qed.

(** A critical domain blocks exactly when nothing it requires is covered. *)
Lemma domain_blocks_spec d : plain_domain d ->
  domain_blocks (evaluate_domain ev d) = true <-> dd_critical d = true /\ ~ covered ev d.
Proof.
  intros Hp. unfold domain_blocks, has_status, evaluate_domain. cbn [dr_critical dr_status].
  destruct (dd_critical d); [|naive_solver]. rewrite andb_true_l, andb_true_r, bool_decide_eq_true.
  destruct (required_signals d) as [|sig0 sigs] eqn:Er.
  - unfold covered. rewrite Er, Exists_exists.
    assert ((0 <? length (List.filter (fun e => bool_decide (ev_domain e = dd_name d)) ev)) = true <-> exists e, e ∈ ev /\ ev_domain e = dd_name d) as Hx.
    { rewrite Nat.ltb_lt. split.
      - destruct (List.filter _ ev) as [|e l] eqn:E; [simpl; lia|]. intros _. exists e.
        assert (e ∈ List.filter (fun e => bool_decide (ev_domain e = dd_name d)) ev) as Hin by (rewrite E; left).
        apply list_elem_of_In, filter_In in Hin as [Hin He]. by apply list_elem_of_In in Hin; apply bool_decide_eq_true in He.
      - intros (e & Hin & He). destruct (List.filter _ ev) eqn:E; [|simpl; lia]. apply filter_nonempty with (a := e) in E; [|done].
        by rewrite bool_decide_true in E. }
    destruct (0 <? length _) eqn:E; cbn; [|naive_solver]. split; [done|]. intros [_ []]. by apply Hx.
  - rewrite <-Er in *. assert (required_signals d <> []) as Hne by (by rewrite Er).
    rewrite <-(found_none d Hp Hne). set (found := List.filter (signal_found _ _ _) _).
    assert (length found <= length (required_signals d)) as Hl by apply List.filter_length_le.
    destruct Hp as [Hlen _]. destruct (required_signals d) as [|x [|y [|z [|? ?]]]]; try done; cbn [length] in *; [..|lia];
      destruct found as [|? [|? [|? [|? ?]]]]; cbn [length] in *; try lia; vm_compute; naive_solver.
Qed.
End signals.

(** ** What an assessment says *)

Lemma run_parts ws target opts r : run_certification ws target opts = Some r ->
  run_gates ws target opts = Some (gates r) /\
  rr_evidence r = collect_evidence (at_evidence ws) target (gates r) (analyze_quality_risk (at_quality ws) target) /\
  domains r = evaluate_domains (apply_framework_overlay (framework opts) default_domains) (rr_evidence r) /\
  exists gaps avg, rr_status r = final_status (gates r) (domains r) (rr_evidence r) gaps avg /\
    rr_exit_code r = (match rr_status r with READY | READY_WITH_GAPS => 0 | _ => 1 end)%Z.
Proof.
  unfold run_certification, finalize_result. destruct (run_gates ws target opts) as [gs|]; [|done]. cbn [mbind option_bind].
  destruct (confidence_of _ _ _ _) as [c|]; [|done]. cbn [mbind option_bind].
  intros Er. apply (inj Some) in Er as <-. cbn [gates rr_evidence domains rr_status rr_exit_code].
  split; [reflexivity|]. split; [reflexivity|]. split; [reflexivity|]. eexists _, _. split; reflexivity.
Qed.

Lemma existsb_false {A} (p : A -> bool) l : existsb p l = false <-> forall a, a ∈ l -> p a = false.
Proof.
  rewrite <-not_true_iff_false, existsb_exists. setoid_rewrite <-list_elem_of_In.
  split; [intros Hn a Ha; apply not_true_iff_false; naive_solver|intros Ha (a & Hin & Hp); by rewrite Ha in Hp].
Qed.

(** The condition of [readiness_exact], shared with what follows from it. *)
Lemma readiness_spec ws target opts r : run_certification ws target opts = Some r ->
  rr_exit_code r = 0%Z <->
  (forall g, g ∈ gates r -> gr_status g = lit "fail" -> blocking g = false) /\
  (forall d, d ∈ apply_framework_overlay (framework opts) default_domains -> dd_critical d = true -> covered (rr_evidence r) d) /\
  count (gate_is "skipped") (gates r) <= 2 /\ 5 <= length (rr_evidence r) /\ count (has_status "inconclusive") (domains r) <= 9.
Proof.
  intros (_ & Eev & Ed & gaps & avg & Es & Ex)%run_parts.
  assert (forall e, e ∈ rr_evidence r -> exists n, ev_id e = lit "ev-" ++ to_string_nat n) as Hids
    by (rewrite Eev; apply evidence_id).
  assert (length (domains r) = 18) as Hlen
    by (rewrite Ed; unfold evaluate_domains, apply_framework_overlay; by rewrite !length_fmap).
  assert (existsb gate_blocks (gates r) = false <-> forall g, g ∈ gates r -> gr_status g = lit "fail" -> blocking g = false) as Hg.
  { rewrite existsb_false. unfold gate_blocks, gate_is. split; intros Hb g Hin; specialize (Hb g Hin).
    - intros Hf. by rewrite bool_decide_true in Hb.
    - case_bool_decide; [by apply Hb|done]. }
  assert (existsb domain_blocks (domains r) = false <->
    forall d, d ∈ apply_framework_overlay (framework opts) default_domains -> dd_critical d = true -> covered (rr_evidence r) d) as Hd.
  { rewrite existsb_false, Ed. unfold evaluate_domains. split.
    - intros Hb d Hin Hc. destruct (decide (covered (rr_evidence r) d)) as [|Hn]; [done|].
      assert (domain_blocks (evaluate_domain (rr_evidence r) d) = false) as Hf by (apply Hb, list_elem_of_fmap; by eexists).
      by rewrite (proj2 (domain_blocks_spec _ Hids d (default_plain _ _ Hin))) in Hf.
    - intros Hb ? (d & -> & Hin)%list_elem_of_fmap. apply not_true_iff_false.
      intros [Hc Hn]%domain_blocks_spec; [by apply Hn, (Hb d)|done|by eapply default_plain]. }
  rewrite Ex, Es. unfold final_status. rewrite Hlen. change (18 / 2) with 9. rewrite <-Hg, <-Hd.
  clear Hg Hd Es Ex Ed Eev Hids Hlen.
  destruct (existsb gate_blocks _), (existsb domain_blocks _); cbn [orb]; try (split; [done|by intros (? & ? & _)]).
  destruct (Nat.ltb_spec 2 (count (gate_is "skipped") (gates r))); cbn [orb]; [split; [done|lia]|].
  destruct (Nat.ltb_spec (length (rr_evidence r)) 5); cbn [orb]; [split; [done|lia]|].
  destruct (Nat.ltb_spec 9 (count (has_status "inconclusive") (domains r))); [split; [done|lia]|].
  split; [intros _; by split_and!|]. intros _. by destruct (d_lt _ _ && _).
Qed.

(** C35: an assessment succeeds exactly when no blocking gate failed, every critical
    domain has something it requires, enough gates ran, there are five pieces of
    evidence, and at most half of the eighteen domains are undecided. *)
Theorem readiness_exact ws target opts r : run_certification ws target opts = Some r ->
  rr_exit_code r = 0%Z <->
  (forall g, g ∈ gates r -> gr_status g = lit "fail" -> blocking g = false) /\
  (forall d, d ∈ apply_framework_overlay (framework opts) default_domains -> dd_critical d = true -> covered (rr_evidence r) d) /\
  count (gate_is "skipped") (gates r) <= 2 /\ 5 <= length (rr_evidence r) /\ count (has_status "inconclusive") (domains r) <= 9.
Proof. apply readiness_spec. Qed.

(** *** What a success rests on *)

Lemma signing_name w target n since strict : gr_name (gate_commit_signing w target n since strict) = lit "commit_signing".
Proof.
  unfold gate_commit_signing. case_match; [done|]. destruct (foldl _ _ _) as [a b]. by repeat case_match.
Qed.
Lemma tests_name w target g : gate_unit_test_health w target = Some g -> gr_name g = lit "unit_test_health" /\ blocking g = true.
Proof.
  unfold gate_unit_test_health. destruct (detect_tests w target) as [plan|]; [|by intros [= <-]].
  destruct (test_counts _) as [p f]. destruct (if (p =? 0)%Z && _ then _ else _) as [[[[? ?] ?] ?]|]; [|done]. by intros [= <-].
Qed.
Lemma build_name w target : gr_name (gate_build_integrity w target) = lit "build_integrity" /\ blocking (gate_build_integrity w target) = true.
Proof. unfold gate_build_integrity. by repeat case_match. Qed.
Lemma docs_name w target known : gr_name (gate_docs_accuracy w target known) = lit "documentation_accuracy".
Proof. unfold gate_docs_accuracy. case_match; [done|]. by case_match. Qed.
Lemma security_spec w target : gr_name (gate_security_critical w target) = lit "security_critical" /\
  (gr_status (gate_security_critical w target) = lit "fail" <-> secrets_exposed w target = true \/ dep_audit_status w target = lit "fail").
Proof.
  unfold gate_security_critical. destruct (secrets_exposed w target); [naive_solver|].
  case_bool_decide; [naive_solver|]. case_bool_decide; (split; [done|]); cbn; naive_solver.
Qed.

Lemma run_gates_spec ws target opts gs : run_gates ws target opts = Some gs ->
  exists signing tests docs build security, gs = [signing; tests; build; docs; security] /\
    gr_name signing = lit "commit_signing" /\ gr_name docs = lit "documentation_accuracy" /\
    gr_name tests = lit "unit_test_health" /\ gr_name build = lit "build_integrity" /\ gr_name security = lit "security_critical" /\
    (if run_tests opts then gate_unit_test_health (at_tests ws) target = Some tests /\ blocking tests = true
     else gr_status tests = lit "skipped") /\
    (if run_build opts then build = gate_build_integrity (at_build ws) target /\ blocking build = true
     else gr_status build = lit "skipped") /\
    (if run_security opts then security = gate_security_critical (at_security ws) target else gr_status security = lit "skipped").
Proof.
  unfold run_gates. destruct (if run_tests opts then _ else _) as [tests|] eqn:Et; [|done]. cbn [mbind option_bind].
  intros Er. apply (inj Some) in Er as <-. eexists _, _, _, _, _. split; [reflexivity|].
  split; [apply signing_name|]. split; [destruct (strict opts); apply docs_name|].
  split; [destruct (run_tests opts); [by eapply tests_name|by injection Et as <-]|].
  split; [destruct (run_build opts); [apply build_name|done]|].
  split; [destruct (run_security opts); [apply security_spec|done]|].
  split; [destruct (run_tests opts); [split; [done|by eapply tests_name]|by injection Et as <-]|].
  split; [destruct (run_build opts); [split; [done|apply build_name]|done]|]. by destruct (run_security opts).
Qed.

Definition from_gate (name : string) (gates : list GateResult) (e : Evidence) : Prop :=
  exists g, g ∈ gates /\ gr_name g = lit name /\ ev_status e = gr_status g.

Lemma security_evidence w target gates qr e : e ∈ collect_evidence w target gates qr -> ev_domain e = lit "Application Security" ->
  from_gate "security_critical" gates e.
Proof. intros Hin He. revert e Hin He. apply evidence_of_domain. each_item; intros id Hd; try discriminate. by exists g. Qed.

Lemma no_letter_a n : contains_sub (lit "a") (lower (to_string_nat n ++ lit " high-complexity files detected")) = false.
Proof.
  rewrite lower_app. apply not_true_iff_false. intros (a & b & E)%contains_sub_spec.
  assert ("a"%char ∈ lower (to_string_nat n) ++ lower (lit " high-complexity files detected")) as Hin by (rewrite E; set_solver).
  apply elem_of_app in Hin as [Hin|Hin].
  - unfold lower in Hin. apply list_elem_of_fmap in Hin as (c & Hc & Hin). pose proof (to_string_nat_digits n) as Hd.
    rewrite Forall_forall in Hd. specialize (Hd c Hin). destruct c as [[] [] [] [] [] [] [] []]; done.
  - revert Hin. apply (bool_decide_unpack _). by vm_compute.
Qed.

Lemma contains_part p q s : contains_sub p q = true -> contains_sub q s = true -> contains_sub p s = true.
Proof.
  intros (a & b & ->)%contains_sub_spec (c & d & ->)%contains_sub_spec. apply contains_sub_spec.
  exists (c ++ a), (b ++ d). by rewrite <-!app_assoc.
Qed.

Lemma quality_evidence w target gates qr e : e ∈ collect_evidence w target gates qr -> ev_domain e = lit "Software Quality Assurance" ->
  (from_gate "unit_test_health" gates e \/ from_gate "build_integrity" gates e) \/
  contains_sub (lit "test gate") (lower (summary e)) = false /\ contains_sub (lit "build gate") (lower (summary e)) = false.
Proof.
  intros Hin He. revert e Hin He. apply evidence_of_domain. each_item; intros id Hd; try discriminate.
  - left. left. by eexists.
  - left. right. by eexists.
  - right. pose proof (no_letter_a (length (high_complexity_files qr))) as Ha.
    split; apply not_true_iff_false; intros Hc; apply not_true_iff_false in Ha; apply Ha;
      revert Hc; by apply contains_part.
  - right. split; by vm_compute.
Qed.

Lemma counted_status e : counts e = true -> ev_status e = lit "pass" \/ ev_status e = lit "partial".
Proof. unfold counts. rewrite orb_true_iff, !bool_decide_eq_true. done. Qed.

Definition security_domain := domain "Application Security" ["security gate"]%string ["dependency audit"; "build flags"]%string true.
Definition quality_domain := domain "Software Quality Assurance" ["test gate"; "build gate"]%string ["coverage"; "CI"]%string true.
Lemma always_in f : security_domain ∈ apply_framework_overlay f default_domains /\ quality_domain ∈ apply_framework_overlay f default_domains.
Proof.
  split; apply list_elem_of_fmap; [exists security_domain|exists quality_domain]; (split; [by destruct f|]);
    apply list_elem_of_lookup; [exists 6|exists 12]; reflexivity.
Qed.

(** The gate of that name counted. *)
Definition gate_counted (g : GateResult) : Prop := gr_status g = lit "pass" \/ gr_status g = lit "partial".
Lemma from_gate_counted name g gs e : from_gate name gs e -> counts e = true ->
  Forall (fun g' => gr_name g' = lit name -> g' = g) gs -> gate_counted g.
Proof.
  intros (g' & Hin & Hn & He) Hc Hu. rewrite Forall_forall in Hu. unfold gate_counted.
  rewrite <-(Hu g' Hin Hn), <-He. by apply counted_status.
Qed.
Lemma gate_counted_ran g : gate_counted g -> gr_status g <> lit "fail" /\ gr_status g <> lit "skipped".
Proof. intros [E|E]; rewrite E; done. Qed.

Ltac unique_gate :=
  repeat (apply Forall_cons; split;
    [match goal with N : gr_name ?g = lit _ |- gr_name ?g = lit _ -> _ => first [intros _; reflexivity | rewrite N; discriminate] end|]);
  by apply Forall_nil.

(** *** What a successful assessment rests on *)

(** The tests were run: a plan was found, and its program either reported no
    counts and succeeded, or reported a pass rate of at least 95%. *)
Definition tests_succeed (w : CertGates.World) (target : path) : Prop :=
  exists plan, detect_tests w target = Some plan /\
    let proc := CertGates.run w (test_cmd plan) (test_args plan) in
    let '(passed, failed) := test_counts proc in
    if (passed =? 0)%Z && (failed =? 0)%Z then success proc = true
    else (0 < passed + failed)%Z /\ d_le (d_lit 95 100) (d_div (d_of_Z passed) (d_of_Z (passed + failed))) = true.

(** The build command, if a build system is recognised, succeeded. *)
Definition build_succeeds (w : CertGates.World) (target : path) : Prop :=
  forall cmd args, build_command w target = Some (cmd, args) -> success (CertGates.run w cmd args) = true.

(** The last audit that ran, if any did, succeeded: cargo's, or else npm's. *)
Definition last_audit_succeeds (w : CertGates.World) (target : path) : Prop :=
  cargo_audit w target None <> Some (lit "fail") /\
  (cargo_audit w target None = None -> npm_audit w target <> Some (lit "fail")).

Lemma audit_not_failed w target : dep_audit_status w target <> lit "fail" -> last_audit_succeeds w target.
Proof.
  unfold dep_audit_status, last_audit_succeeds, cargo_audit. intros Hd. case_match.
  - cbn in Hd. split; [by intros [= E]|done].
  - split; [done|]. intros _ E. by rewrite E in Hd.
Qed.

Lemma test_gate_succeeds w target g :
  gate_unit_test_health w target = Some g -> gr_status g <> lit "fail" -> tests_succeed w target.
Proof.
  unfold gate_unit_test_health, tests_succeed. destruct (detect_tests w target) as [plan|]; [|by intros [= <-]].
  intros Hg Hs. exists plan. split; [done|]. destruct (test_counts _) as [p f].
  destruct ((p =? 0)%Z && (f =? 0)%Z).
  - destruct (success _); [done|]. cbn [mbind option_bind] in Hg. injection Hg as <-. by destruct Hs.
  - unfold int_range at 1 in Hg. case_bool_decide; cbn [mbind option_bind] in Hg; [|done].
    destruct (d_to_int _); cbn [mbind option_bind] in Hg; [|done]. injection Hg as <-. cbn [gr_status tests_gate] in Hs.
    destruct (Z.ltb_spec 0 (p + f)); [|by destruct Hs]. split; [done|]. destruct (d_le _ _); [done|by destruct Hs].
Qed.

Lemma build_gate_succeeds w target : gr_status (gate_build_integrity w target) <> lit "fail" -> build_succeeds w target.
Proof. unfold gate_build_integrity, build_succeeds. intros Hs cmd args E. rewrite E in Hs. by destruct (success _). Qed.

(** C34: what a successful assessment rests on.  The security gate was run: no
    secrets are exposed and the last dependency audit that ran, if one did,
    succeeded (a failed npm audit is forgotten when a cargo audit follows).  The
    tests or the build were asked for.  If the tests were, a framework was found
    and its program ran and passed; if the build was, it succeeded wherever a
    build system is recognised.  With the tests skipped and no build system
    nothing need have run ([nothing_run_is_ready]). *)
Theorem ready_is_backed ws target opts r : run_certification ws target opts = Some r -> rr_exit_code r = 0%Z ->
  run_security opts = true /\ secrets_exposed (at_security ws) target = false /\
  last_audit_succeeds (at_security ws) target /\
  run_tests opts || run_build opts = true /\
  (run_tests opts = true -> tests_succeed (at_tests ws) target) /\
  (run_build opts = true -> build_succeeds (at_build ws) target).
Proof.
  intros Hr Hx. pose proof Hr as (Hg & Eev & _)%run_parts. apply (readiness_spec _ _ _ _ Hr) in Hx as (Hfail & Hcov & _).
  destruct (run_gates_spec _ _ _ _ Hg) as (gsig & gt & gd & gb & gs & Egs & N1 & N2 & N3 & N4 & N5 & Ht & Hb & Hs).
  rewrite Egs in *. destruct (always_in (framework opts)) as [Hsec Hqua].
  apply Hcov in Hsec; [|done]. apply Hcov in Hqua; [|done]. rewrite Eev in Hsec, Hqua.
  assert (gate_counted gs) as Hsettled.
  { apply Exists_cons in Hsec as [Hsec|Hsec]; [|by apply Exists_nil in Hsec]. apply Exists_exists in Hsec as (e & Hin & He & Hc & _).
    eapply from_gate_counted; [by eapply security_evidence|done|]. unique_gate. }
  assert (gate_counted gt \/ gate_counted gb) as Hran.
  { apply Exists_exists in Hqua as (sig & Hsig & (e & Hin & He & Hc & Hsum)%Exists_exists).
    destruct (quality_evidence _ _ _ _ _ Hin He) as [[Hf|Hf]|[Hno1 Hno2]].
    - left. eapply from_gate_counted; [exact Hf|done|]. unique_gate.
    - right. eapply from_gate_counted; [exact Hf|done|]. unique_gate.
    - cbn in Hsig. apply elem_of_cons in Hsig as [->|Hsig]; [exfalso; change (contains_sub (lit "test gate") (lower (summary e)) = true) in Hsum; congruence|].
      apply list_elem_of_singleton in Hsig as ->. change (contains_sub (lit "build gate") (lower (summary e)) = true) in Hsum. congruence. }
  destruct (gate_counted_ran _ Hsettled) as [Hs1 Hs2].
  assert (run_security opts = true) as Hrs by (destruct (run_security opts); [done|congruence]). rewrite Hrs in Hs. subst gs.
  clear Hr Hg Eev Hcov Hsec Hqua Egs Hsettled.
  split; [done|]. destruct (security_spec (at_security ws) target) as [_ Hsp]. rewrite Hsp in Hs1. clear Hsp.
  split; [destruct (secrets_exposed _ _); [by destruct Hs1; left|done]|].
  split; [apply audit_not_failed; intros Hf; apply Hs1; by right|].
  split; [|split].
  - destruct (run_tests opts), (run_build opts); try done. by destruct Hran as [Hran|Hran]; apply gate_counted_ran in Hran as [_ Hran].
  - intros E. rewrite E in Ht. destruct Ht as [Ht Hbl]. apply (test_gate_succeeds _ _ gt Ht). intros Hf.
    rewrite (Hfail gt) in Hbl; [done|right; by left|done].
  - intros E. rewrite E in Hb. destruct Hb as [-> Hbl]. apply build_gate_succeeds. intros Hf. rewrite Hfail in Hbl; [done|right; right; by left|done].
Qed.

(** *** The assessment returns *)

Lemma met_le ev d : plain_domain d -> pos_le 2 (coverage (evaluate_domain ev d)).
Proof.
  intros [Hl _]. unfold evaluate_domain. cbn [coverage]. destruct (required_signals d) as [|s l] eqn:Er; [by case_match|].
  rewrite <-Er. apply ratio_le; [unfold small; lia|lia| |rewrite Er; simpl; simpl in Hl; lia].
  rewrite <-Er in Hl. pose proof (List.filter_length_le (signal_found ev (dd_name d)
    (length (List.filter (fun e => bool_decide (ev_domain e = dd_name d)) ev))) (required_signals d)). lia.
Qed.

Lemma average_le n l : (0 < length l <= n)%nat -> (n <= 18)%nat -> Forall (pos_le 2) l -> pos_le (2 + Z.of_nat n) (average l).
Proof.
  intros Hn H18 Hl. apply div_le; [unfold small; lia| |apply of_Z_ge_one; lia].
  apply sum_le; [unfold small; lia..|lia|done|done].
Qed.

Lemma count_le {A} (p : A -> bool) l : count p l <= length l.
Proof. apply List.filter_length_le. Qed.

Lemma confidence_returns gs ds ev avg : length gs <= 8 -> length ds <= 18 -> length ev <= 128 ->
  Forall (fun d => pos_le 2 (coverage d)) ds -> pos_le 20 avg ->
  exists c, confidence_of gs ds ev avg = Some c /\ (0 <= c <= 100)%Z.
Proof.
  intros Hg Hd He Hc Ha. unfold confidence_of. set (counted := List.filter _ gs).
  assert (length counted <= 8) as Hcl by (pose proof (List.filter_length_le (fun g => negb (gate_is "skipped" g)) gs); unfold counted; lia).
  set (gate_score := match counted with [] => _ | _ => _ end).
  assert (pos_le 9 gate_score) as H1.
  { unfold gate_score. destruct counted as [|g l] eqn:E; [done|]. rewrite <-E in *. clear gate_score. apply (mul_le 3 6); [unfold small; lia| |].
    - pose proof (count_le (gate_is "pass") counted). apply ratio_le; [unfold small; lia|lia|lia|]. rewrite E in *. simpl in *. lia.
    - apply of_Z_le; [unfold small; lia|lia|lia]. }
  set (exec := match ev with [] => _ | _ => _ end).
  assert (pos_le 7 exec) as H2.
  { unfold exec. destruct ev as [|e l] eqn:E; [done|]. rewrite <-E in *. pose proof (count_le execution_backed ev).
    apply ratio_le; [unfold small; lia|lia|lia|]. rewrite E in *. simpl in *. lia. }
  set (crit := match coverage <$> _ with [] => _ | _ => _ end).
  assert (pos_le 24 crit) as H3.
  { unfold crit. destruct (coverage <$> List.filter dr_critical ds) as [|c l] eqn:E.
    { apply (pos_le_weaken 4); [lia|]. apply of_Z_le; [unfold small; lia|lia|lia]. }
    rewrite <-E. apply (mul_le 20 4); [unfold small; lia| |apply of_Z_le; [unfold small; lia|lia|lia]].
    apply (average_le 18); [|lia|].
    - split; [rewrite E; simpl; lia|]. rewrite length_fmap. pose proof (List.filter_length_le dr_critical ds). lia.
    - apply Forall_fmap, Forall_forall. intros d Hin. rewrite Forall_forall in Hc. apply Hc.
      apply list_elem_of_In, filter_In in Hin as [Hin _]. by apply list_elem_of_In. }
  destruct (d_to_int_le 28 (d_add (d_add (d_add gate_score (d_mul avg (d_of_Z 30))) (d_mul exec (d_of_Z 20))) crit) ltac:(lia))
    as (z & -> & Hz).
  { apply (add_le 27); [unfold small; lia| |by apply (pos_le_weaken 24); [lia|]].
    apply (add_le 26); [unfold small; lia| |].
    - apply (add_le 25); [unfold small; lia|by apply (pos_le_weaken 9); [lia|]|].
      apply (mul_le 20 5); [unfold small; lia|done|apply of_Z_le; [unfold small; lia|lia|lia]].
    - apply (pos_le_weaken (7 + 5)); [lia|]. apply mul_le; [unfold small; lia|done|apply of_Z_le; [unfold small; lia|lia|lia]]. }
  exists (Z.min z 100). split; [done|lia].
Qed.

(** The assessment always gives a result, with a confidence from 0 to 100, when
    the tests report at most a million results. *)
Lemma assessment_returns ws target opts :
  (forall plan, run_tests opts = true -> detect_tests (at_tests ws) target = Some plan ->
     let '(passed, failed) := test_counts (run (at_tests ws) (test_cmd plan) (test_args plan)) in
     (0 <= passed <= 2 ^ 20 /\ 0 <= failed <= 2 ^ 20)%Z) ->
  exists r, run_certification ws target opts = Some r /\ (0 <= confidence r <= 100)%Z.
Proof.
  intros Ht. unfold run_certification.
  assert (exists gs, run_gates ws target opts = Some gs) as [gs Eg].
  { unfold run_gates. destruct (run_tests opts); [|by eexists].
    destruct (unit_tests_return (at_tests ws) target) as [g ->]; [naive_solver|]. by eexists. }
  rewrite Eg. cbn [mbind option_bind]. set (ev := collect_evidence _ _ _ _). set (defs := apply_framework_overlay _ _).
  assert (length gs = 5) as Hgs by (by destruct (run_gates_spec _ _ _ _ Eg) as (? & ? & ? & ? & ? & -> & _)).
  assert (length (evaluate_domains defs ev) = 18) as Hds
    by (unfold defs, evaluate_domains, apply_framework_overlay; by rewrite !length_fmap).
  assert (Forall (fun d => pos_le 2 (coverage d)) (evaluate_domains defs ev)) as Hcov.
  { apply Forall_fmap, Forall_forall. intros d Hin. apply met_le. by eapply default_plain. }
  unfold finalize_result. set (avg := match evaluate_domains defs ev with [] => _ | _ => _ end).
  assert (pos_le 20 avg) as Havg.
  { unfold avg. destruct (evaluate_domains defs ev) as [|d ds] eqn:E; [done|]. rewrite <-E in *.
    apply (average_le 18); [rewrite length_fmap, Hds; lia|lia|]. by apply Forall_fmap. }
  destruct (confidence_returns gs (evaluate_domains defs ev) ev avg) as (c & -> & Hc); [lia|lia|by apply evidence_length; lia|done|done|].
  eexists. split; [reflexivity|]. exact Hc.
Qed.

(** *** Where the rules cannot be met *)

(** The code review that governance requires is never found. *)
Lemma governance_never_verified ws target opts r d : run_certification ws target opts = Some r ->
  d ∈ domains r -> dr_name d = lit "Governance & Organizational Controls" -> lit "code review" ∈ missing_controls d.
Proof.
  intros (_ & Eev & Ed & _)%run_parts Hd Hn. rewrite Ed in Hd. apply list_elem_of_fmap in Hd as (def & -> & Hin).
  assert (required_signals def = [lit "contributing"; lit "code review"]) as Er.
  { cbn [evaluate_domain dr_name] in Hn. clear Ed. apply list_elem_of_fmap in Hin as (d0 & -> & Hin).
    assert (Forall (fun d => bool_decide (dd_name d = lit "Governance & Organizational Controls") = true ->
      required_signals d = [lit "contributing"; lit "code review"]) default_domains) as HP by (repeat constructor; vm_compute; done).
    rewrite Forall_forall in HP. specialize (HP d0 Hin). case_match; apply HP; by apply bool_decide_eq_true. }
  unfold evaluate_domain. cbn [missing_controls]. apply list_elem_of_In, filter_In. rewrite Er.
  split; [right; by left|]. apply negb_true_iff, not_true_iff_false. rewrite Eev. intros (e & He & Hde & _ & Hs)%signal_found_spec;
    [|intros e; apply evidence_id|done].
  cbn [evaluate_domain dr_name] in Hn. rewrite Hn in Hde. clear Er Eev Hin.
  assert (contains_sub (lower (lit "code review")) (lower (summary e)) = false) as Hf; [clear Hs|congruence].
  revert e He Hde. apply (evidence_of_domain "Governance & Organizational Controls").
  each_item; intros id Hd; try discriminate; by vm_compute.
Qed.

(** A failed check of the build flags changes neither the status nor the detail. *)
Lemma build_flags_ignored : exists w w' target, build_flags_status w target = lit "fail" /\ build_flags_status w' target = lit "pass" /\
  gr_status (gate_security_critical w target) = gr_status (gate_security_critical w' target).
Proof.
  pose (world text := mkWorld (fun p => bool_decide (p = lit "t/CMakeLists.txt")) (fun _ => lit text) (fun _ => false) (fun _ => [])
    (fun _ _ => mkResult 0 [] []) (fun _ => mkResult 1 [] []) (fun _ => false)).
  exists (world "FetchContent -DNDEBUG"%string), (world "FetchContent"%string), (lit "t"). split; [by vm_compute|]. split; by vm_compute.
Qed.

(** When both package managers are there, the second audit replaces the first. *)
Lemma npm_failure_forgotten w target :
  check_file w target "Cargo.lock" = true -> available w (lit "cargo") = true ->
  success (shell w (lit "cargo audit --version 2>/dev/null")) = true -> success (run w (lit "cargo") [lit "audit"; lit "--quiet"]) = true ->
  dep_audit_status w target = lit "pass".
Proof. intros H1 H2 H3 H4. unfold dep_audit_status, cargo_audit, verdict. by rewrite H1, H2, H3, H4. Qed.

(** The controls a domain can miss never ask for the contribution guide or for
    training: two of the four recommendations are never made. *)
Lemma recommendations_made ws target opts r a : run_certification ws target opts = Some r -> a ∈ omap recommended (flat_map missing_controls (domains r)) ->
  a = lit "Create SECURITY.md with vulnerability disclosure process" \/ a = lit "Add LICENSE file".
Proof.
  intros (_ & _ & Ed & _)%run_parts. rewrite Ed. intros (mc & (d & Hd & Hin)%elem_of_flat_map & Ha)%list_elem_of_omap.
  apply list_elem_of_fmap in Hd as (def & -> & Hdef). unfold evaluate_domain in Hin. cbn [missing_controls] in Hin.
  apply list_elem_of_In, filter_In in Hin as [Hin _]. apply list_elem_of_In in Hin. clear Ed.
  apply list_elem_of_fmap in Hdef as (d0 & -> & Hd0).
  assert (forallb (forallb (fun sig => match recommended sig with
      | Some a => bool_decide (a = lit "Create SECURITY.md with vulnerability disclosure process") || bool_decide (a = lit "Add LICENSE file")
      | None => true end)) (required_signals <$> default_domains) = true) as HP by (vm_compute; reflexivity).
  rewrite forallb_forall in HP. specialize (HP (required_signals d0)). rewrite forallb_forall in HP.
  assert (mc ∈ required_signals d0) as Hmc by (by case_match). specialize (HP ltac:(by apply list_elem_of_In, list_elem_of_fmap; eexists) mc
    ltac:(by apply list_elem_of_In)). rewrite Ha, orb_true_iff, !bool_decide_eq_true in HP. done.
Qed.
End evidence.

(** ** A concrete assessment *)

Module Sample.
(** Every file is there, the programs answer well. *)
Definition w : World :=
  mkWorld (fun _ => true) (fun _ => lit "euxis check .env") (fun _ => true) (fun _ => [])
    (fun _ _ => mkResult 0 (lit "[  PASSED  ] 10 tests.") []) (fun _ => mkResult 0 (lit "8") []) (fun _ => false).
Definition ws : Worlds := mkWorlds w w w w w w w.
Definition opts : RunOptions := mkRunOptions General false true true true 20 [].
End Sample.

Lemma sample_ready : rr_exit_code <$> @run_certification TreeJson.json Sample.ws (lit "p") Sample.opts = Some 0%Z.
Proof. reflexivity. Qed.
Lemma sample_run : exists r, @run_certification TreeJson.json Sample.ws (lit "p") Sample.opts = Some r /\ rr_exit_code r = 0%Z.
Proof.
  destruct (fmap_Some_1 rr_exit_code (@run_certification TreeJson.json Sample.ws (lit "p") Sample.opts) 0%Z sample_ready) as (r & E & Hx).
  exists r. split; [exact E|exact (eq_sym Hx)].
Qed.

Lemma readiness_exact_witness : exists r, @run_certification TreeJson.json Sample.ws (lit "p") Sample.opts = Some r /\
  5 <= length (rr_evidence r) /\ count (has_status "inconclusive") (domains r) <= 9.
Proof.
  destruct sample_run as (r & E & Hx). exists r. split; [exact E|].
  apply (readiness_exact Sample.ws (lit "p") Sample.opts r E) in Hx as (_ & _ & _ & H5 & H9). split; [exact H5|exact H9].
Defined.

Lemma ready_is_backed_witness : exists r, @run_certification TreeJson.json Sample.ws (lit "p") Sample.opts = Some r /\ rr_exit_code r = 0%Z /\
  secrets_exposed Sample.w (lit "p") = false /\ tests_succeed Sample.w (lit "p") /\ build_succeeds Sample.w (lit "p").
Proof.
  destruct sample_run as (r & E & Hx). exists r. split; [exact E|]. split; [exact Hx|].
  destruct (ready_is_backed Sample.ws (lit "p") Sample.opts r E Hx) as (_ & Hs & _ & _ & Ht & Hb).
  split; [exact Hs|]. split; [exact (Ht eq_refl)|exact (Hb eq_refl)].
Defined.

(** Documents, but nothing a build system would recognise: with the tests
    skipped no test, build or audit program runs, and the assessment succeeds. *)
Module Unbuilt.
Definition w : World :=
  mkWorld (fun p => negb (existsb (fun f => contains_sub (lit f) p) ["CMakeLists.txt"; "Cargo.toml"; "package.json"; "go.mod"]%string))
    (contents Sample.w) (access_x Sample.w) (recursive Sample.w) (CertGates.run Sample.w) (shell Sample.w) (available Sample.w).
Definition ws : Worlds := mkWorlds w w w w w w w.
Definition opts : RunOptions := mkRunOptions General false true false true 20 [].
End Unbuilt.

Lemma nothing_run_is_ready :
  run_tests Unbuilt.opts = false /\ build_command Unbuilt.w (lit "p") = None /\
  dep_audit_status Unbuilt.w (lit "p") = lit "unavailable" /\
  rr_exit_code <$> @run_certification TreeJson.json Unbuilt.ws (lit "p") Unbuilt.opts = Some 0%Z.
Proof. by vm_compute. Qed.

Lemma assessment_returns_witness : exists r, @run_certification TreeJson.json Sample.ws (lit "p") Sample.opts = Some r /\ (0 <= confidence r <= 100)%Z.
Proof.
  apply assessment_returns. intros plan _ Hp. assert (test_counts (run Sample.w (test_cmd plan) (test_args plan)) = (10, 0)%Z) as Hc by reflexivity.
  cbn [at_tests Sample.ws]. rewrite Hc. lia.
Defined.
