(* ===== verification/Verdict.v ===== *)
(** * Verdicts: [apps/cli/include/euxis/cli/verdict.hpp] and [src/cmd/playbook_verify.cpp]

    The guard of [verdict.hpp] over its enumerations (Module [Guard]), and the
    rules R1 to R5 over the evidence of a run, with the drift of its agents
    against the recorded runs.  The rules agree with the guard
    ([consistency_guard]). *)

From Stdlib Require Import ZArith Ascii String Lia.
From stdpp Require Import base list gmap strings.
From S2P Require Import Prelude CxxString Lines Doubles Json JsonText.

(** ** The guard *)

Module Guard.
Inductive State : Type := Inconclusive | Blocked | Caution | TrustedGaps | Trusted.
Inductive AgentState : Type := Pass | Partial | Timeout | Failed | Degraded | Contradicted.
#[global] Instance state_eq_dec : EqDecision State.
Proof. solve_decision. Defined.
#[global] Instance agent_state_eq_dec : EqDecision AgentState.
Proof. solve_decision. Defined.

Definition state_text (s : State) : str :=
  match s with
  | Inconclusive => lit "INCONCLUSIVE" | Blocked => lit "BLOCKED" | Caution => lit "CAUTION"
  | TrustedGaps => lit "TRUSTED WITH GAPS" | Trusted => lit "TRUSTED"
  end.
Definition agent_text (s : AgentState) : str :=
  match s with
  | Pass => lit "PASS" | Partial => lit "PARTIAL" | Timeout => lit "TIMEOUT" | Failed => lit "FAILED"
  | Degraded => lit "DEGRADED" | Contradicted => lit "CONTRADICTED"
  end.

Definition classify_agent (raw : str) (timed_out degraded : bool) : AgentState :=
  if timed_out then Timeout
  else if degraded then Degraded
  else if bool_decide (raw = lit "PASS") then Pass
  else if bool_decide (raw = lit "FAIL") then Failed
  else Partial.
Definition is_decisive_negative (state : AgentState) (raw_verdict : str) : bool :=
  bool_decide (state = Failed) || (bool_decide (state = Timeout) && bool_decide (raw_verdict = lit "FAIL")).

Definition rank (s : State) : Z :=
  match s with Inconclusive => 0 | Blocked => 1 | Caution => 2 | TrustedGaps => 3 | Trusted => 4 end.
Definition exit_code (s : State) : Z :=
  match s with Trusted | TrustedGaps => 0 | Blocked | Inconclusive | Caution => 1 end.
Definition apply_escalation_cap (current capped_at : State) : State :=
  if (rank capped_at <? rank current)%Z then capped_at else current.

Definition is_valid_verdict (verdict : State) (effective_fails timeout_count : Z) (has_contradiction : bool)
    (confidence total_agents : Z) : bool :=
  match verdict with
  | Trusted => negb has_contradiction && (effective_fails <=? 0)%Z && (timeout_count <=? 0)%Z && (80 <=? confidence)%Z
  | Blocked => negb (effective_fails =? 0)%Z
  | Inconclusive => has_contradiction
  | TrustedGaps => negb ((0 <? total_agents)%Z && (Z.quot total_agents 2 <? effective_fails)%Z)
  | Caution => true
  end.
End Guard.

(** ** The rules *)

Record PlaybookEvidence : Type := mkPlaybookEvidence {
  pe_name : str; pe_id : str; pe_verdict : str; pe_raw : str; pe_duration : double;
}.
Record VerdictViolation : Type := mkViolation { v_rule : str; v_detail : str }.

Definition verdict_is (v : string) (e : PlaybookEvidence) : bool := bool_decide (pe_verdict e = lit v).
Definition fail_before_timeout (e : PlaybookEvidence) : bool := verdict_is "TIMEOUT" e && bool_decide (pe_raw e = lit "FAIL").
Definition count {A} (p : A -> bool) (l : list A) : Z := Z.of_nat (length (List.filter p l)).

Definition fails_of (evidence : list PlaybookEvidence) : Z :=
  (count (verdict_is "FAILED") evidence + count fail_before_timeout evidence)%Z.
Definition violation (b : bool) (rule detail : string) : list VerdictViolation :=
  if b then [mkViolation (lit rule) (lit detail)] else [].

Definition verify_verdict_consistency (verdict : str) (evidence : list PlaybookEvidence) (confidence contradiction_count : Z) :
    list VerdictViolation :=
  let effective_fails := fails_of evidence in
  let timeout_count := count (verdict_is "TIMEOUT") evidence in
  let passes := count (verdict_is "PASS") evidence in
  let has_contradiction := (0 <? contradiction_count)%Z in
  let size := Z.of_nat (length evidence) in
  let named v := bool_decide (verdict = lit v) in
  (if named "TRUSTED"%string then
     violation has_contradiction "R1" "TRUSTED with contradictions"
     ++ violation (0 <? effective_fails)%Z "R1" "TRUSTED with effective_fails > 0"
     ++ violation (0 <? timeout_count)%Z "R1" "TRUSTED with timeouts"
     ++ violation (confidence <? 80)%Z "R1" "TRUSTED with confidence < 80"
   else [])
  ++ violation (named "BLOCKED"%string && ((effective_fails =? 0)%Z || (0 <? passes)%Z)) "R2" "BLOCKED without unanimous failure"
  ++ violation (named "INCONCLUSIVE"%string && negb has_contradiction) "R3" "INCONCLUSIVE without contradictions"
  ++ violation (named "TRUSTED"%string && (timeout_count =? size)%Z && (0 <? size)%Z) "R4" "TRUSTED with all agents timed out"
  ++ violation ((0 <? size)%Z && (Z.quot size 2 <? effective_fails)%Z && (named "TRUSTED"%string || named "TRUSTED WITH GAPS"%string))
       "R5" "Positive verdict with majority decisive negatives".

(** ** Drift *)

Record DriftAlert : Type := mkAlert {
  da_agent : str; da_metric : str; baseline_value : double; current_value : double; deviation_pct : double; da_severity : str;
}.

Section drift.
Context `{JsonText}.

(** [j.contains(k)] and [j[k]] of a computed key *)
Definition member (j : jv) (k : str) : option jv := m ← members j; m !! k.
Definition last_n {A} (n : nat) (l : list A) : list A := drop (length l - n) l.

(** The lines that are documents; the others are skipped. *)
Definition read_lines (file : option str) : list jv := omap json_parse (text_lines file).

(** What the runs recorded of an agent *)
Definition recorded (name : str) (history : list jv) : list jv :=
  omap (fun h => status ← at_key h "agent_status"; member status name) history.
Definition latencies (runs : list jv) : option (list double) :=
  mapM get_double (omap (fun a => at_key a "duration_ms") runs).
Definition timed_out (a : jv) : bool := bool_decide ((at_key a "status" ≫= get_string) = Some (lit "TIMEOUT")).

Definition d_sum (l : list double) : double := foldl d_add d_zero l.
Definition d_size {A} (l : list A) : double := d_of_Z (Z.of_nat (length l)).

Definition latency_alert (ev : PlaybookEvidence) (hist_latencies : list double) : list DriftAlert :=
  let mean := d_div (d_sum hist_latencies) (d_size hist_latencies) in
  let var_sum := d_sum ((fun l => d_mul (d_sub l mean) (d_sub l mean)) <$> hist_latencies) in
  let stddev := d_sqrt (d_div var_sum (d_size hist_latencies)) in
  let off := d_sub (pe_duration ev) mean in
  if d_lt d_zero stddev && d_lt (d_mul (d_of_Z 2) stddev) (d_abs off) then
    let deviation := d_mul (d_div off mean) (d_of_Z 100) in
    [mkAlert (pe_id ev) (lit "latency") mean (pe_duration ev) deviation
       (if d_lt (d_of_Z 100) (d_abs deviation) then lit "alert" else lit "warning")]
  else [].
Definition timeout_alert (ev : PlaybookEvidence) (runs : list jv) : list DriftAlert :=
  match runs with
  | [] => []
  | _ =>
      let rate := d_div (d_of_Z (count timed_out runs)) (d_size runs) in
      let percent := d_mul rate (d_of_Z 100) in
      if verdict_is "TIMEOUT" ev && d_lt rate (d_lit 3 10) then
        [mkAlert (pe_id ev) (lit "verdict_distribution") percent (d_of_Z 100) (d_sub (d_of_Z 100) percent) (lit "warning")]
      else []
  end.

(** [None] where a recorded duration is not a number: the library throws. *)
Definition drift_of (history : list jv) (ev : PlaybookEvidence) : option (list DriftAlert) :=
  let runs := recorded (pe_name ev) history in
  ls ← latencies runs;
  Some (if (length ls <? 3)%nat then [] else latency_alert ev ls ++ timeout_alert ev runs).
Definition detect_agent_drift (file : option str) (current : list PlaybookEvidence) : option (list DriftAlert) :=
  let history := read_lines file in
  if (length history <? 3)%nat then Some [] else (fun l => List.concat l) <$> mapM (drift_of (last_n 10 history)) current.
End drift.

(** ** The rules and the guard *)

Lemma state_text_inj s t : Guard.state_text s = Guard.state_text t -> s = t.
Proof. destruct s, t; reflexivity || discriminate. Qed.

Lemma is_state s t : bool_decide (Guard.state_text s = Guard.state_text t) = bool_decide (s = t).
Proof. apply bool_decide_ext. split; [apply state_text_inj|by intros ->]. Qed.

Lemma violation_nil b rule detail : violation b rule detail = [] <-> b = false.
Proof. by destruct b. Qed.

Lemma count_nonneg {A} (p : A -> bool) l : (0 <= count p l)%Z.
Proof. unfold count. lia. Qed.

(** Every agent that passed, failed or timed out is one agent. *)
Lemma count_app {A} (p : A -> bool) l l' : count p (l ++ l') = (count p l + count p l')%Z.
Proof. unfold count. rewrite List.filter_app, length_app. lia. Qed.
Lemma count_le_length {A} (p : A -> bool) l : (count p l <= Z.of_nat (length l))%Z.
Proof. unfold count. pose proof (List.filter_length_le p l). lia. Qed.
Lemma fails_le evidence : (0 <= fails_of evidence <= Z.of_nat (length evidence))%Z.
Proof.
  unfold fails_of. split; [pose proof (count_nonneg (verdict_is "FAILED") evidence);
    pose proof (count_nonneg fail_before_timeout evidence); lia|].
  induction evidence as [|e l IH]; [done|]. change (e :: l) with ([e] ++ l). rewrite !count_app, length_app.
  assert (count (verdict_is "FAILED") [e] + count fail_before_timeout [e] <= 1)%Z; [|cbn [length]; lia].
  unfold count, fail_before_timeout, verdict_is. cbn [List.filter].
  destruct (bool_decide_reflect (pe_verdict e = lit "FAILED")) as [->|]; [done|].
  by destruct (bool_decide (pe_verdict e = lit "TIMEOUT") && bool_decide (pe_raw e = lit "FAIL")).
Qed.

(** The rules find nothing exactly when the guard accepts the verdict and,
    for BLOCKED, no agent passed: the guard only asks for one failure. *)
Theorem consistency_guard s evidence confidence contradictions :
  verify_verdict_consistency (Guard.state_text s) evidence confidence contradictions = [] <->
  Guard.is_valid_verdict s (fails_of evidence) (count (verdict_is "TIMEOUT") evidence) (0 <? contradictions)%Z confidence
    (Z.of_nat (length evidence)) = true /\
  (s = Guard.Blocked -> count (verdict_is "PASS") evidence = 0%Z).
Proof.
  pose proof (fails_le evidence) as Hf. pose proof (count_nonneg (verdict_is "TIMEOUT") evidence) as Ht.
  pose proof (count_nonneg (verdict_is "PASS") evidence) as Hp. unfold verify_verdict_consistency. cbn zeta.
  change (lit "TRUSTED") with (Guard.state_text Guard.Trusted). change (lit "BLOCKED") with (Guard.state_text Guard.Blocked).
  change (lit "INCONCLUSIVE") with (Guard.state_text Guard.Inconclusive).
  change (lit "TRUSTED WITH GAPS") with (Guard.state_text Guard.TrustedGaps). rewrite !is_state.
  set (f := fails_of evidence) in *. set (t := count (verdict_is "TIMEOUT") evidence) in *.
  set (p := count (verdict_is "PASS") evidence) in *. set (n := Z.of_nat (length evidence)) in *.
  destruct s; repeat match goal with |- context [bool_decide (?x = ?y)] =>
    first [rewrite (bool_decide_true (x = y)) by done|rewrite (bool_decide_false (x = y)) by discriminate] end;
    cbn [andb orb app negb]; rewrite ?andb_false_r, ?orb_false_r, ?andb_true_r; cbn [violation app];
    rewrite ?app_nil_r, ?app_nil, ?violation_nil; unfold Guard.is_valid_verdict.
  - destruct (0 <? contradictions)%Z; naive_solver.
  - rewrite orb_false_iff, negb_true_iff, Z.ltb_ge. split; [intros [? ?]; split; [done|intros _; lia]|intros [? E]; split; [done|by rewrite E]].
  - naive_solver.
  - rewrite negb_true_iff. naive_solver.
  - rewrite !andb_true_iff, negb_true_iff, !Z.leb_le, !andb_false_iff, !Z.ltb_ge, !Z.eqb_neq.
    pose proof (Z.quot_pos n 2 ltac:(lia) ltac:(lia)). split; [naive_solver|]. intros [(((Hc & ?) & ?) & ?) _].
    repeat split; try done; lia.
Qed.

(** A history of fewer than three runs raises no alert; no part of the
    program writes the file the history is read from. *)
Lemma no_history_no_drift `{JsonText} current : detect_agent_drift None current = Some [].
Proof. reflexivity. Qed.
