(* ===== verification/Evidence.v ===== *)
(** * Evidence of a playbook run: the readers of [apps/cli/src/cmd/fleet.cpp]

    What the verdict engine reads in the output of an agent: its raw verdict,
    its status, how its claims are backed and its findings; and the findings
    agents share, [apps/cli/src/agent_mcp_context.cpp]. *)

From Stdlib Require Import ZArith Ascii String Lia.
From stdpp Require Import base list gmap strings.
From S2P Require Import Prelude CxxString Lines Doubles Json Verdict.

Record AgentEvidence : Type := mkEvidence {
  agent_name : str; agent_id : str; ev_verdict : str; ev_pillar : str; ev_duration_ms : double;
  execution_backed : Z; inferred : Z; total_claims : Z; key_findings : list str; degraded : bool; raw_verdict : str;
}.

(** ** Modes *)

Record ModeSLA : Type := mkSLA { target_ms : double; soft_cap_ms : double; budget_ms : double; agent_timeout_s : Z }.
Definition sla (target soft budget timeout : Z) : ModeSLA := mkSLA (d_of_Z target) (d_of_Z soft) (d_of_Z budget) timeout.
Definition get_mode_sla (mode : str) : ModeSLA :=
  if bool_decide (mode = lit "flash") then sla 45000 60000 75000 45
  else if bool_decide (mode = lit "standard") then sla 180000 300000 600000 120
  else sla 600000 900000 1200000 300.

Definition classify_agent_status (raw : str) (timed_out is_degraded : bool) (duration_ms budget_ms : double) : str :=
  if timed_out || d_lt budget_ms duration_ms then lit "TIMEOUT"
  else if bool_decide (raw = lit "PASS") then if is_degraded then lit "DEGRADED" else lit "PASS"
  else if bool_decide (raw = lit "FAIL") then lit "FAILED"
  else lit "PARTIAL".

Definition critical_pillars : list str := lit <$> ["security"; "testing"; "build"; "architecture"]%string.
Definition one_of (s : str) (l : list string) : bool := existsb (fun k => bool_decide (s = lit k)) l.
Definition canonicalize_pillar (raw : str) : str :=
  if one_of raw ["structure"; "structural"; "design"] then lit "architecture"
  else if one_of raw ["test"; "tests"; "verification"; "quality"] then lit "testing"
  else if one_of raw ["compilation"; "ci"; "infra"] then lit "build"
  else if one_of raw ["vuln"; "vulnerability"; "safety"; "audit"] then lit "security"
  else raw.

Definition verdict_rank (v : str) : Z :=
  if bool_decide (v = lit "TRUSTED") then 5
  else if bool_decide (v = lit "TRUSTED WITH GAPS") then 4
  else if bool_decide (v = lit "CAUTION") then 3
  else if bool_decide (v = lit "BLOCKED") then 2
  else if bool_decide (v = lit "INCONCLUSIVE") then 1
  else 0.

(** ** The output of an agent *)

Definition mentions (marks : list string) (text : str) : bool := existsb (fun m => contains_sub (lit m) text) marks.

Definition exec_markers : list string :=
  ["test"; "passed"; "failed"; "built"; "compiled"; "error:"; "warning:"; "exit code"; "output:"; "stdout"; "stderr"; "ran "; "executed"].
Definition infer_markers : list string :=
  ["appears"; "likely"; "seems"; "suggest"; "could"; "might"; "probably"; "looks like"; "assume"; "infer"; "based on naming"; "convention"].

(** The claims counted so far, backed by execution and inferred *)
Definition count_claim (st : Z * Z) (line : str) : Z * Z :=
  if (length line <? 5)%nat then st
  else if mentions exec_markers (lower line) then (st.1 + 1, st.2)%Z
  else if mentions infer_markers (lower line) then (st.1, st.2 + 1)%Z
  else st.
Definition parse_evidence_depth (output : str) : Z * Z * Z :=
  let '(exec_backed, inferred) := foldl count_claim (0, 0)%Z (getlines output) in
  if (exec_backed + inferred =? 0)%Z then (0, 1, 1)%Z else (exec_backed, inferred, exec_backed + inferred)%Z.

Definition prompt_noise : list string :=
  ["you must end with"; "you must respond"; "keep response under"; "budget:"; "mode:"; "focus on your assigned"; "skip exhaustive";
   "prioritize decisive"; "be thorough but concise"; "be direct"; "skip: architecture"; "do not recap"; "answer only:";
   "you are a decision"; "you are a docs drift"; "focus only on:"; "do not read or summarize"; "spot-check specific";
   "maximum 3 findings"].
Definition finding_marks : list string := ["finding:"; "issue:"; "critical:"; "recommendation:"].
Definition bullet (c : ascii) : bool := char_is " " c || char_is "-" c || char_is "*" c || char_is "#" c.
Definition trailing (c : ascii) : bool := char_is " " c || char_is eol c.
Definition trim_finding (line : str) : str := rev (skip trailing (rev (skip bullet line))).
Definition finding_in (line : str) : option str :=
  if mentions prompt_noise (lower line) then None
  else if mentions finding_marks (lower line) then
    let trimmed := trim_finding line in
    if (10 <? length trimmed)%nat && (length trimmed <? 300)%nat then Some trimmed else None
  else None.
(** The first of equal elements *)
Fixpoint unique_from (seen : list str) (l : list str) : list str :=
  match l with
  | [] => []
  | a :: l => if bool_decide (a ∈ seen) then unique_from seen l else a :: unique_from (a :: seen) l
  end.
Definition extract_findings (output : str) : list str := unique_from [] (omap finding_in (getlines output)).

(** The verdict an output mentions, the first that applies *)
Definition raw_verdict_of (output : str) : str :=
  let out_upper := upper output in
  if mentions ["VERDICT: PASS"] out_upper then lit "PASS"
  else if mentions ["VERDICT: FAIL"] out_upper then lit "FAIL"
  else if mentions ["VERDICT:PASS"; "FINAL VERDICT: PASS"; "**VERDICT: PASS**"; "VERDICT — PASS"] out_upper then lit "PASS"
  else if mentions ["VERDICT:FAIL"; "FINAL VERDICT: FAIL"; "**VERDICT: FAIL**"; "VERDICT — FAIL"] out_upper then lit "FAIL"
  else lit "WARN".

(** Counts the verdicts on either side; the others are neutral. *)
Definition positive (v : str) : bool := one_of v ["PASS"; "DEGRADED"].
Definition negative (v : str) : bool := one_of v ["FAILED"].
Definition verdict_converged (verdicts : gmap str str) (min_agents : Z) : bool :=
  let vs := snd <$> map_to_list verdicts in
  if (Z.of_nat (size verdicts) <? min_agents)%Z then false
  else if (count positive vs =? 0)%Z && (count negative vs =? 0)%Z then false
  else ((0 <? count positive vs) && (count negative vs =? 0) || (0 <? count negative vs) && (count positive vs =? 0))%Z.

(** ** Shared findings *)

Section context.
Context `{Json}.

Record AgentMcpContext : Type := mkContext { agent_findings_ : gmap str jv; agent_order_ : list str }.
Definition empty_context : AgentMcpContext := mkContext ∅ [].

Definition publish_agent_findings (c : AgentMcpContext) (agent_id verdict : str) (findings : list str) (duration_ms : double) :
    AgentMcpContext :=
  let entry := object [(lit "agent_id", jstr agent_id); (lit "verdict", jstr verdict); (lit "findings", jstrs findings);
                       (lit "duration_ms", jdouble duration_ms)] in
  mkContext (<[agent_id := entry]> (agent_findings_ c))
    (if bool_decide (is_Some (agent_findings_ c !! agent_id)) then agent_order_ c else agent_order_ c ++ [agent_id]).
Definition query_agent (c : AgentMcpContext) (agent_id : str) : option jv := agent_findings_ c !! agent_id.
Definition available_agents (c : AgentMcpContext) : list str := agent_order_ c.
Definition has_agent (c : AgentMcpContext) (agent_id : str) : bool := bool_decide (is_Some (agent_findings_ c !! agent_id)).
Definition agent_count (c : AgentMcpContext) : nat := size (agent_findings_ c).

Definition line_of (s : str) : str := lit "- " ++ s ++ [eol].
Definition summary_of (c : AgentMcpContext) (id : str) : option str :=
  match agent_findings_ c !! id with
  | None => Some []
  | Some entry =>
      verdict ← value get_string entry "verdict" (lit "?");
      findings ← match at_key entry "findings" with
                 | Some v => if is_array v then mapM get_string (items v) else Some []
                 | None => Some []
                 end;
      Some (lit "### " ++ id ++ lit " (" ++ verdict ++ lit ")" ++ [eol] ++ flat_map line_of findings ++ [eol])
  end.
Definition build_context_summary (c : AgentMcpContext) : option str :=
  if bool_decide (agent_findings_ c = ∅) then Some []
  else parts ← mapM (summary_of c) (agent_order_ c); Some (lit "## Prior Agent Findings" ++ [eol; eol] ++ List.concat parts).
End context.

(** ** What the readers guarantee *)

Lemma unique_from_spec seen l : NoDup (unique_from seen l) /\
  forall a, a ∈ unique_from seen l <-> a ∈ l /\ a ∉ seen.
Proof.
  revert seen. induction l as [|b l IH]; intros seen; cbn [unique_from].
  { split; [constructor|]. intros a. rewrite !elem_of_nil. tauto. }
  case_bool_decide as Hb.
  - destruct (IH seen) as [Hn He]. split; [done|]. intros a. rewrite He, elem_of_cons. split; [naive_solver|].
    intros [[->|Ha] Hs]; done.
  - destruct (IH (b :: seen)) as [Hn He]. split.
    + constructor; [|done]. rewrite He. intros [_ Hc]. apply Hc. by left.
    + intros a. rewrite !elem_of_cons, He, elem_of_cons. destruct (decide (a = b)); naive_solver.
Qed.

(** The findings of an output are its finding lines, each once. *)
Theorem extract_findings_exact output :
  NoDup (extract_findings output) /\
  forall f, f ∈ extract_findings output <-> exists line, line ∈ getlines output /\ finding_in line = Some f.
Proof.
  destruct (unique_from_spec [] (omap finding_in (getlines output))) as [Hn He]. split; [exact Hn|].
  intros f. unfold extract_findings. rewrite He, list_elem_of_omap. split; [naive_solver|]. intros Hf. split; [exact Hf|apply not_elem_of_nil].
Qed.

Lemma count_claim_sum st line : (0 <= st.1 -> 0 <= st.2 -> 0 <= (count_claim st line).1 /\ 0 <= (count_claim st line).2)%Z.
Proof. unfold count_claim. repeat case_match; cbn; lia. Qed.

(** There is at least one claim, and every claim is backed or inferred. *)
Lemma evidence_depth_total output : forall e i t, parse_evidence_depth output = (e, i, t) ->
  (0 <= e /\ 0 <= i /\ e + i = t /\ 1 <= t)%Z.
Proof.
  intros e i t. unfold parse_evidence_depth.
  assert (forall ls st, (0 <= st.1 -> 0 <= st.2 -> 0 <= (foldl count_claim st ls).1 /\ 0 <= (foldl count_claim st ls).2)%Z) as Hs.
  { induction ls as [|l ls IH]; intros st H1 H2; [done|]. cbn [foldl]. destruct (count_claim_sum st l H1 H2). by apply IH. }
  specialize (Hs (getlines output) (0, 0)%Z). cbn [fst snd] in Hs.
  destruct (foldl count_claim (0, 0)%Z (getlines output)) as [a b]. cbn [fst snd] in Hs.
  destruct (Z.eqb_spec (a + b) 0); intros [= <- <- <-]; lia.
Qed.

(** The claims of a piece of evidence: those that are backed and those that
    are inferred are among them. *)
Definition backed (ev : AgentEvidence) : Prop := (0 <= execution_backed ev /\ 0 <= inferred ev /\ execution_backed ev + inferred ev <= total_claims ev)%Z.

(** The prompt asks for the verdict on the last line; the reader takes a PASS
    anywhere, even before a failing last line. *)
Lemma quoted_pass_wins : raw_verdict_of (lit "I cannot say VERDICT: PASS here" ++ [eol] ++ lit "VERDICT: FAIL") = lit "PASS".
Proof. reflexivity. Qed.

Section shared.
Context `{Json}.

(** Contexts that were built by publishing *)
Definition context_ok (c : AgentMcpContext) : Prop :=
  NoDup (agent_order_ c) /\ (forall id, id ∈ agent_order_ c <-> is_Some (agent_findings_ c !! id)).

Lemma publish_ok c id v fs d : context_ok c -> context_ok (publish_agent_findings c id v fs d).
Proof.
  intros [Hn Ho]. unfold publish_agent_findings. split; cbn [agent_order_ agent_findings_].
  - case_bool_decide as E; [done|]. apply NoDup_app. split; [done|]. split; [|apply NoDup_singleton].
    intros x Hx ->%list_elem_of_singleton. by apply Ho in Hx.
  - intros id'. destruct (decide (id = id')) as [<-|Hne].
    + rewrite lookup_insert_eq. split; [by eexists|]. intros _. case_bool_decide as E; [by apply Ho|].
      apply elem_of_app. right. by left.
    + rewrite lookup_insert_ne by done. case_bool_decide; [apply Ho|]. rewrite elem_of_app, Ho, list_elem_of_singleton. naive_solver.
Qed.
End shared.
