(* ===== verification/PlaybookPolicy.v ===== *)
(** * Policies and the history of verdicts: [apps/cli/src/cmd/fleet.cpp]

    The policy a verdict is held to, the file of past verdicts, and the trend
    of a new one against it.  A file is its text, [None] when it is not there
    or cannot be opened; [None] as a result is an exception of the JSON library
    or a signed overflow. *)

From Stdlib Require Import ZArith Ascii String Lia SpecFloat.
From stdpp Require Import base list gmap strings.
From S2P Require Import Prelude CxxString Lines Doubles Numbers Json JsonObjects JsonText CertGates Verdict Evidence.

Section policy.
Context `{JsonText}.

(** ** Policies *)

Record Policy : Type := mkPolicy {
  min_verdict : str; min_confidence : Z; min_critical_coverage : double; fail_on_regression : bool; max_drift : Z;
  fail_on_escalation : bool; fail_on_budget_exceeded : bool;
}.
Record PolicyViolation : Type := mkPolicyViolation { pv_gate : str; pv_detail : str }.
Definition default_policy : Policy := mkPolicy (lit "CAUTION") 0 (d_of_Z 1) false 100 false false.

Definition read_policy (j : jv) : option Policy :=
  let p := default_policy in
  v ← value get_string j "min_verdict" (min_verdict p); c ← value get_int j "min_confidence" (min_confidence p);
  cov ← value get_double j "min_critical_coverage" (min_critical_coverage p);
  reg ← value get_bool j "fail_on_regression" (fail_on_regression p); drift ← value get_int j "max_drift" (max_drift p);
  esc ← value get_bool j "fail_on_escalation" (fail_on_escalation p);
  bud ← value get_bool j "fail_on_budget_exceeded" (fail_on_budget_exceeded p);
  Some (mkPolicy v c cov reg drift esc bud).

(** The file named, or the default one; one that does not parse counts as absent. *)
Definition load_policy (config_file : option str) (explicit_path : str) (explicit_file : option str) : option (option Policy) :=
  let file := if bool_decide (explicit_path = []) then config_file else explicit_file in
  match file ≫= json_parse with
  | None => Some None
  | Some j => p ← read_policy j; Some (Some p)
  end.

Definition gate_violation (b : bool) (gate : string) (detail : str) : list PolicyViolation :=
  if b then [mkPolicyViolation (lit gate) detail] else [].

(** [artifact.contains(k) && f(artifact[k])] *)
Definition if_present (j : jv) (k : string) (f : jv -> option (list PolicyViolation)) : option (list PolicyViolation) :=
  match at_key j k with Some v => f v | None => Some [] end.

Definition check_coverage (p : Policy) (artifact : jv) : option (list PolicyViolation) :=
  if_present artifact "benchmark" (fun b => if_present b "critical_coverage" (fun c =>
    cov ← get_double c;
    Some (gate_violation (d_lt cov (min_critical_coverage p)) "min_critical_coverage"
            (lit "Coverage " ++ to_fixed 2 cov ++ lit " is below minimum " ++ to_fixed 2 (min_critical_coverage p))))).
Definition check_regression (p : Policy) (artifact : jv) : option (list PolicyViolation) :=
  if fail_on_regression p then
    if_present artifact "trend" (fun t =>
      r ← value get_bool t "regression" false;
      if r : bool then prev ← value get_string t "previous_verdict" (lit "unknown");
             Some (gate_violation true "fail_on_regression" (lit "Verdict regression detected from " ++ prev))
      else Some [])
  else Some [].
Definition check_drift (p : Policy) (artifact : jv) : option (list PolicyViolation) :=
  if_present artifact "compare" (fun c =>
    drift ← value get_int c "confidence_drift" 0%Z; size ← int_range (Z.abs drift);
    Some (gate_violation (max_drift p <? size)%Z "max_drift"
            (lit "Confidence drift " ++ to_string_Z drift ++ lit " exceeds maximum " ++ to_string_Z (max_drift p)))).

Definition evaluate_policy (artifact : jv) (policy : Policy) : option (list PolicyViolation) :=
  actual_verdict ← value get_string artifact "verdict" [];
  let v1 := gate_violation (verdict_rank actual_verdict <? verdict_rank (min_verdict policy))%Z "min_verdict"
              (lit "Verdict " ++ actual_verdict ++ lit " is below minimum " ++ min_verdict policy) in
  actual_conf ← value get_int artifact "confidence" 0%Z;
  let v2 := gate_violation (actual_conf <? min_confidence policy)%Z "min_confidence"
              (lit "Confidence " ++ to_string_Z actual_conf ++ lit " is below minimum " ++ to_string_Z (min_confidence policy)) in
  v3 ← check_coverage policy artifact;
  v4 ← check_regression policy artifact;
  v5 ← check_drift policy artifact;
  v6 ← (if fail_on_escalation policy then
          e ← value get_bool artifact "escalated" false;
          Some (gate_violation e "fail_on_escalation" (lit "Flash→Standard escalation occurred"))
        else Some []);
  v7 ← (if fail_on_budget_exceeded policy then
          if_present artifact "sla" (fun s =>
            met ← value get_bool s "met" true; Some (gate_violation (negb met) "fail_on_budget_exceeded" (lit "SLA budget was not met")))
        else Some []);
  Some (v1 ++ v2 ++ v3 ++ v4 ++ v5 ++ v6 ++ v7).

(** ** History *)

Record VerdictHistoryEntry : Type := mkHistory {
  h_timestamp : str; h_verdict : str; h_confidence : Z; h_mode : str; h_latency : double; h_median : double; h_p95 : double;
  h_executed : Z; h_skipped : Z; h_timeouts : Z; h_density : double; h_early : bool; h_escalated : bool; h_exceeded : bool;
}.

Definition entry_to_json (e : VerdictHistoryEntry) : jv :=
  object [(lit "timestamp", jstr (h_timestamp e)); (lit "verdict", jstr (h_verdict e)); (lit "confidence", jint (h_confidence e));
          (lit "mode", jstr (h_mode e)); (lit "latency_ms", jdouble (h_latency e));
          (lit "median_agent_latency_ms", jdouble (h_median e)); (lit "p95_agent_latency_ms", jdouble (h_p95 e));
          (lit "agents_executed", jint (h_executed e)); (lit "agents_skipped", jint (h_skipped e));
          (lit "timeout_count", jint (h_timeouts e)); (lit "evidence_density", jdouble (h_density e));
          (lit "early_stopped", jbool (h_early e)); (lit "escalated", jbool (h_escalated e));
          (lit "budget_exceeded", jbool (h_exceeded e))].
Definition entry_from_json (j : jv) : option VerdictHistoryEntry :=
  ts ← value get_string j "timestamp" []; v ← value get_string j "verdict" []; c ← value get_int j "confidence" 0%Z;
  m ← value get_string j "mode" []; lat ← value get_double j "latency_ms" d_zero;
  med ← value get_double j "median_agent_latency_ms" d_zero; p95 ← value get_double j "p95_agent_latency_ms" d_zero;
  ex ← value get_int j "agents_executed" 0%Z; sk ← value get_int j "agents_skipped" 0%Z; t ← value get_int j "timeout_count" 0%Z;
  d ← value get_double j "evidence_density" d_zero; early ← value get_bool j "early_stopped" false;
  esc ← value get_bool j "escalated" false; bud ← value get_bool j "budget_exceeded" false;
  Some (mkHistory ts v c m lat med p95 ex sk t d early esc bud).

(** Lines that do not read are skipped; the last [max_entries] are kept. *)
Definition read_entry (line : str) : option VerdictHistoryEntry := j ← json_parse line; entry_from_json j.
Definition load_verdict_history (file : option str) (max_entries : nat) : list VerdictHistoryEntry :=
  last_n max_entries (omap read_entry (text_lines file)).
(** [None] is a text that is not UTF-8; a file that does not open stays as it is. *)
Definition append_verdict_history (opened : bool) (file : option str) (entry : VerdictHistoryEntry) : option (option str) :=
  line ← json_dump (entry_to_json entry);
  Some (if opened then Some (default [] file ++ line ++ [eol]) else file).

(** ** Trend *)

Record VerdictTrend : Type := mkTrend {
  direction : str; confidence_delta : Z; run_count : Z; regression : bool; previous_verdict : str; streak : Z;
}.

(** From the most recent backwards, while the verdict is the current one *)
Fixpoint same_verdict (v : str) (recent : list VerdictHistoryEntry) : Z :=
  match recent with [] => 0 | e :: recent => if bool_decide (h_verdict e = v) then 1 + same_verdict v recent else 0 end.
(** The changes between neighbours: how many went up and down *)
Fixpoint changes (up : bool) (l : list Z) : Z :=
  match l with
  | a :: (b :: _) as t => (if (if up then a <? b else b <? a)%Z then 1 else 0) + changes up t
  | _ => 0
  end.
Definition direction_of (improving declining : Z) : str :=
  if (declining * 2 <? improving)%Z then lit "improving"
  else if (improving * 2 <? declining)%Z then lit "declining"
  else if ((0 <? improving) && (0 <? declining))%Z then lit "volatile"
  else lit "stable".

Definition compute_verdict_trend (history : list VerdictHistoryEntry) (current_verdict : str) (current_confidence : Z) : option VerdictTrend :=
  let run_count := Z.of_nat (length history) in
  match last history with
  | None => Some (mkTrend (lit "new") 0 run_count false [] 0)
  | Some prev =>
      delta ← int_range (current_confidence - h_confidence prev);
      let prev_rank := verdict_rank (h_verdict prev) in
      let recent := (h_confidence <$> last_n 5 history) ++ [current_confidence] in
      Some (mkTrend
        (if (3 <=? run_count)%Z then direction_of (changes true recent) (changes false recent)
         else if (5 <? delta)%Z then lit "improving" else if (delta <? -5)%Z then lit "declining" else lit "stable")
        delta run_count
        ((4 <=? prev_rank) && (verdict_rank current_verdict <? prev_rank))%Z
        (h_verdict prev) (1 + same_verdict current_verdict (rev history)))
  end.
End policy.

(** ** What the history keeps *)

Section history.
Context `{JsonText, !JsonOk, !JsonTextOk}.

Definition entry_ok (e : VerdictHistoryEntry) : Prop :=
  int32 (h_confidence e) /\ int32 (h_executed e) /\ int32 (h_skipped e) /\ int32 (h_timeouts e) /\
  Forall (fun d => finite_double d = true) [h_latency e; h_median e; h_p95 e; h_density e].

Lemma history_entry_exact e : entry_ok e -> json_exact (entry_to_json e).
Proof.
  intros (Hc & Hx & Hs & Ht & Hd). repeat apply Forall_cons in Hd as [? Hd]. unfold entry_to_json. exact_json.
Qed.

Lemma history_entry_reads e : entry_ok e -> entry_from_json (entry_to_json e) = Some e.
Proof.
  intros (Hc & Hx & Hs & Ht & _). unfold entry_from_json, entry_to_json.
  repeat (rewrite ?value_object, ?lookup_assoc; cbn [assoc key_eqb fst snd lit list_ascii_of_string Ascii.eqb Bool.eqb andb];
    rewrite ?get_string_str, ?get_bool_bool, ?get_double_double, ?get_int_int by done; cbn [mbind option_bind]).
  by destruct e.
Qed.

(** A file every line of which was completed *)
Definition whole_lines (file : option str) : Prop := exists ls, Forall (free_of eol) ls /\ default [] file = flat_map (fun l => l ++ [eol]) ls.

Lemma text_lines_whole file ls : Forall (free_of eol) ls -> default [] file = flat_map (fun l => l ++ [eol]) ls ->
  text_lines file = List.filter (fun l => negb (bool_decide (l = []))) ls.
Proof.
  intros Hls Hd. destruct file as [text|]; cbn [default from_option id text_lines] in *.
  - unfold default, id in Hd. cbn [from_option] in Hd. rewrite Hd. unfold getlines. by rewrite fields_render.
  - destruct ls as [|l ls]; [done|]. symmetry in Hd. cbn in Hd. apply app_eq_nil in Hd as [Hd _]. by apply app_eq_nil in Hd as [_ ?].
Qed.

(** C38: when the history file has only whole lines (or does not exist), the write
    succeeds and the numbers of the entry are finite, what is appended is read
    back after what was there, and the file stays one of whole lines.  A number
    that is not finite is written as null, and its entry is not read back
    ([infinite_entry_dropped]). *)
Theorem verdict_history_reloads file e file' n :
  whole_lines file -> entry_ok e -> append_verdict_history true file e = Some file' ->
  load_verdict_history file' n = last_n n (omap read_entry (text_lines file) ++ [e]) /\ whole_lines file'.
Proof.
  intros (ls & Hls & Hd) He Ha. unfold append_verdict_history in Ha. apply bind_Some in Ha as (line & Hl & Ha).
  apply (inj Some) in Ha as <-. destruct (dump_one_line _ _ Hl) as [Hne Hfree].
  assert (Forall (free_of eol) (ls ++ [line])) as Hls' by (apply Forall_app; split; [done|by constructor]).
  assert (default [] file ++ line ++ [eol] = flat_map (fun l => l ++ [eol]) (ls ++ [line])) as Hd'
    by (by rewrite flat_map_app, Hd; cbn [flat_map]; rewrite app_nil_r).
  split; [|by exists (ls ++ [line])]. unfold load_verdict_history. f_equal.
  rewrite (text_lines_whole _ (ls ++ [line])), (text_lines_whole file ls) by done.
  rewrite List.filter_app, omap_app. f_equal. cbn [List.filter]. rewrite bool_decide_false by done. cbn.
  unfold read_entry. rewrite (parse_dump _ _ (history_entry_exact e He) Hl). cbn [mbind option_bind]. by rewrite history_entry_reads.
Qed.
End history.

(** A policy that was asked for and cannot be read is no policy at all. *)
Lemma unreadable_policy_ignored `{JsonText} config path : path <> [] -> load_policy config path None = Some None.
Proof. intros Hp. unfold load_policy. by rewrite bool_decide_false. Qed.

(** A first run is recorded in a file that holds a line of something else. *)
Definition first_run : VerdictHistoryEntry :=
  mkHistory (lit "2026-01-01T00:00:00Z") (lit "TRUSTED") 90 (lit "standard") d_zero d_zero d_zero 3 0 0 d_zero false false false.
Definition other_file : option str := Some (lit "not json" ++ [eol]).
Abbreviation recorded_file := (@append_verdict_history TreeJson.json TreeJson.text true other_file first_run).

Lemma verdict_history_reloads_witness :
  match recorded_file with
  | Some file => @load_verdict_history TreeJson.json TreeJson.text file 500 = [first_run]
  | None => False
  end.
Proof.
  destruct recorded_file as [file|] eqn:E; [|vm_compute in E; discriminate E].
  refine (proj1 (@verdict_history_reloads TreeJson.json TreeJson.text TreeJson.tree_json_ok TreeJson.text_ok other_file first_run file 500 _ _ E)).
  - exists [lit "not json"]. split; [|reflexivity]. constructor; [|constructor]. vm_compute. intros Hin.
    repeat (apply elem_of_cons in Hin as [Hin|Hin]; [discriminate Hin|]). by apply elem_of_nil in Hin.
  - do 4 (split; [apply (bool_decide_unpack _); vm_compute; exact I|]). repeat constructor.
Defined.

(** An entry with a latency that is not a number is lost. *)
Definition nan_run : VerdictHistoryEntry :=
  mkHistory (lit "2026-01-01T00:00:00Z") (lit "TRUSTED") 90 (lit "standard") S754_nan d_zero d_zero 3 0 0 d_zero false false false.

Lemma infinite_entry_dropped :
  match @append_verdict_history TreeJson.json TreeJson.text true None nan_run with
  | Some file => @load_verdict_history TreeJson.json TreeJson.text file 500 = []
  | None => False
  end.
Proof. by vm_compute. Qed.
