(* ===== verification/PlaybookPlan.v ===== *)
(** * Playbooks: their schema and the plan of a run

    [apps/cli/src/playbook_schema.cpp], and the part of
    [apps/cli/src/cmd/fleet.cpp] before the agents start: the steps of a
    manifest, those a mode selects, and the task, dependencies and model of
    each.  [None] is an exception of the JSON library, or a member that is read
    through a constant reference and is not there. *)

From Stdlib Require Import ZArith Ascii String Lia.
From stdpp Require Import base list gmap strings.
From S2P Require Import Prelude CxxString Lines Doubles Regex Json JsonObjects JsonText Router ProviderRouter Evidence.

Section schema.
Context `{Json}.

(** ** The schema *)

Record PlaybookValidationResult : Type := mkValidation { valid : bool; errors : list str; warnings : list str }.
Definition add_error (e : str) (r : PlaybookValidationResult) : PlaybookValidationResult := mkValidation false (errors r ++ [e]) (warnings r).
Definition add_warning (w : str) (r : PlaybookValidationResult) : PlaybookValidationResult := mkValidation (valid r) (errors r) (warnings r ++ [w]).
Definition warn_if (b : bool) (w : str) (r : PlaybookValidationResult) : PlaybookValidationResult := if b then add_warning w r else r.

Definition is_compatible_version (version : str) : bool :=
  bool_decide (version = lit "1.0") || bool_decide (version = lit "1.0.0") || starts_with (lit "1.") version.
Definition id_pattern : re := regex "[a-z0-9][a-z0-9-]*[a-z0-9]|[a-z0-9]".
Definition is_object (j : jv) : bool := match members j with Some _ => true | None => false end.
Definition array_at (j : jv) (k : string) : option jv := match at_key j k with Some a => if is_array a then Some a else None | None => None end.

(** A loop over an array with the names it has seen, by index *)
Fixpoint each {A} (f : nat -> jv -> A -> option A) (i : nat) (l : list jv) (s : A) : option A :=
  match l with [] => Some s | j :: l => s ← f i j s; each f (S i) l s end.
Definition nth (what : string) (i : nat) (rest : string) : str := lit what ++ to_string_nat i ++ lit rest.

(** A text member whose values are to differ *)
Definition note_name (j : jv) (k : string) (what : string) (st : list str * PlaybookValidationResult) :
    option (list str * PlaybookValidationResult) :=
  match at_key j k with
  | None => Some st
  | Some v => name ← get_string v; Some (name :: st.1, warn_if (bool_decide (name ∈ st.1)) (lit what ++ name) st.2)
  end.

Definition check_step (i : nat) (step : jv) (st : list str * PlaybookValidationResult) : option (list str * PlaybookValidationResult) :=
  if negb (is_object step) then Some (st.1, add_error (nth "step " i " is not an object") st.2)
  else
    note_name step "name" "duplicate step name: "
      (st.1, warn_if (negb (contains step "agent") && negb (contains step "task") && negb (contains step "task_template"))
               (nth "step " i " has no 'agent' or 'task'") st.2).

Definition check_delegate (i d : nat) (delegate : jv) (r : PlaybookValidationResult) : PlaybookValidationResult :=
  let at_d rest := nth "phase " i " delegate " ++ nth "" d rest in
  warn_if (negb (contains delegate "task_template") && negb (contains delegate "task")) (at_d " has no 'task_template'"%string)
    (warn_if (negb (contains delegate "agent")) (at_d " has no 'agent'"%string) r).
Definition check_sequence (i : nat) (phase : jv) (prev : Z) (r : PlaybookValidationResult) : option (Z * PlaybookValidationResult) :=
  match (if contains phase "sequence" then at_key phase "sequence" else at_key phase "phase") with
  | None => Some (prev, r)
  | Some v => seq ← get_int v; Some (seq, warn_if (seq <=? prev)%Z (nth "phase " i " has non-sequential number") r)
  end.
Definition check_phase (i : nat) (phase : jv) (st : Z * (list str * PlaybookValidationResult)) :
    option (Z * (list str * PlaybookValidationResult)) :=
  let '(prev, (gates, r)) := st in
  if negb (is_object phase) then Some (prev, (gates, add_error (nth "phase " i " is not an object") r))
  else
    '(prev, r) ← check_sequence i phase prev r;
    let r := match array_at phase "delegates" with
             | Some a => foldl (fun r '(d, delegate) => check_delegate i d delegate r) r (imap pair (items a))
             | None => r
             end in
    st ← note_name phase "gate" "duplicate gate: " (gates, r);
    Some (prev, st).

Definition check_head (playbook : jv) (has_entries : bool) : option PlaybookValidationResult :=
  let r := mkValidation true [] [] in
  let r := if has_entries then r else add_error (lit "playbook must contain 'steps' or 'phases' array") r in
  let r := warn_if (negb (contains playbook "name") && negb (contains playbook "id")) (lit "playbook should have a 'name' or 'id' field") r in
  r ← match at_key playbook "id" with
      | None => Some r
      | Some v => id ← get_string v; Some (warn_if (negb (regex_match id_pattern id)) (lit "playbook id should match pattern [a-z0-9-]+") r)
      end;
  match at_key playbook "schema_version" with
  | None => Some r
  | Some v =>
      ver ← get_string v;
      Some (if is_compatible_version ver then r else add_error (lit "incompatible schema_version: " ++ ver) r)
  end.
Definition is_empty (a : jv) : bool := match items a with [] => true | _ => false end.
Definition validate_playbook (playbook : jv) : option PlaybookValidationResult :=
  let steps := array_at playbook "steps" in
  let phases := array_at playbook "phases" in
  r ← check_head playbook (bool_decide (is_Some steps) || bool_decide (is_Some phases));
  r ← match steps with
      | None => Some r
      | Some a => snd <$> each check_step 0 (items a) ([], warn_if (is_empty a) (lit "steps array is empty") r)
      end;
  match phases with
  | None => Some r
  | Some a => (fun st => st.2.2) <$> each check_phase 0 (items a) ((-1)%Z, ([], warn_if (is_empty a) (lit "phases array is empty") r))
  end.

(** ** The steps of a manifest *)

(** A delegate as a step of its phase *)
Definition delegate_step (phase d : jv) : option jv :=
  m ← members d; gate ← value get_string phase "gate" (lit "execution");
  name ← value get_string phase "name" (lit "Phase"); agent ← value get_string d "agent" [];
  Some (jobj (<[lit "name" := jstr (name ++ lit " / " ++ agent)]> (<[lit "pillar" := jstr gate]> m))).
Definition all_steps (manifest : jv) : option jv :=
  match at_key manifest "steps" with
  | Some s => Some s
  | None =>
      match at_key manifest "phases" with
      | None => Some (jarr [])
      | Some phases => steps ← mapM (fun p => ds ← at_key p "delegates"; mapM (delegate_step p) (items ds)) (items phases);
                       Some (jarr (List.concat steps))
      end
  end.

(** [if (i < size) push_back(all[i])]: indexing what is not an array throws *)
Definition steps_at (all : jv) (ixs : list nat) : option (list jv) :=
  mapM (fun i => if is_array all then items all !! i else None) (List.filter (fun i => i <? length (items all))%nat ixs).
Definition active_steps (mode : str) (all : jv) : option (list jv) :=
  if bool_decide (mode = lit "flash") then steps_at all [0; 10]%nat
  else if bool_decide (mode = lit "standard") then steps_at all [0; 3; 4; 8; 10]%nat
  else Some (items all).
End schema.

(** ** The plan of a step *)

Record StepPlan : Type := mkPlan {
  sp_name : str; sp_agent : str; sp_task : str; sp_pillar : str; sp_depends : list str; sp_model : ModelSelection;
}.

(** Lines of text, each after a line break *)
Definition lines (l : list string) : str := flat_map (fun s => eol :: lit s) l.
Definition verdict_instruction : str := lines
  [""; "VERDICT RULES:";
   "Your LAST line must be exactly one of: VERDICT: PASS / VERDICT: FAIL / VERDICT: WARN";
   "Decision guide: PASS = no blockers found. FAIL = blocking issues found. WARN = minor issues, not blocking.";
   "If findings are mixed, choose the verdict matching the most serious finding.";
   "Do not quote, bold, or wrap the verdict line. Just write: VERDICT: PASS"]%string.
Definition role_text (agent_id : str) : str :=
  let named a := bool_decide (agent_id = lit a) in
  if named "reviewer"%string then lines
    [""; "ROLE: Decision summarizer."; "Maximum 3 findings. Do not recap other agents' work.";
     "Answer: (1) Is this a merge blocker? (2) What is the top unresolved gap? (3) Your confidence level.";
     "Keep response under 400 words."]%string
  else if named "architect"%string then lines
    [""; "ROLE: Structural integrity checker.";
     "Check: (1) separation of concerns (2) concurrency safety (3) abstraction leaks.";
     "Skip: code style, naming, documentation, exhaustive module-by-module review."; "Keep response under 500 words."]%string
  else if named "sentinel"%string then lines
    [""; "ROLE: Runtime safety gate."; "Check: (1) input validation at boundaries (2) secret exposure (3) dependency risk.";
     "Skip: UI/UX assessment, accessibility review, exhaustive file enumeration."; "Keep response under 500 words."]%string
  else if named "librarian"%string then lines
    [""; "ROLE: Documentation truth verifier.";
     "Return at most 3 concrete mismatches between docs and actual CLI behavior.";
     "Focus ONLY on: README getting-started, CLI command examples, install steps.";
     "Skip: prose quality, formatting, completeness, internal docs, changelogs.";
     "If commands in README match actual behavior, emit VERDICT: PASS."; "Keep response under 400 words."]%string
  else if named "optimizer"%string then lines
    [""; "ROLE: Performance and build quality checker.";
     "Check: (1) build succeeds (2) test suite runs (3) no obvious performance anti-patterns.";
     "Skip: micro-optimization, style preferences, exhaustive profiling."; "Keep response under 500 words."]%string
  else [].
Definition mode_text (mode agent_id : str) : str :=
  if bool_decide (mode = lit "flash") then
    lines [""; "MODE: Triage (quick screening)"; "Budget: 20 seconds of reasoning. Be direct.";
           "Focus: Critical blockers, safety issues, clear PASS/FAIL signals.";
           "Skip: Architecture depth, style, exhaustive analysis."; "Keep response under 300 words."]%string ++ verdict_instruction
  else if bool_decide (mode = lit "standard") then
    lines [""; "MODE: Standard (balanced)"; "Budget: 60 seconds of reasoning. Be thorough but concise.";
           "Focus on your assigned pillar only. Return your top 3-5 findings with evidence.";
           "Format each finding as: Finding: <description>";
           "Skip exhaustive repo-wide prose — prioritize decisive signals over narrative.";
           "Keep response under 800 words."]%string ++ verdict_instruction ++ role_text agent_id
  else
    lines [""; "MODE: Forensic (deep analysis)"; "Examine every detail. Provide exhaustive evidence.";
           "Include execution output, line references, and supporting data for every claim."]%string ++ verdict_instruction.

(** Every placeholder of the text, not those of what was put in *)
Definition placeholder : str := lit "${goal}".
Fixpoint replace_goal (fuel : nat) (goal text : str) : str :=
  match fuel with
  | O => text
  | S fuel =>
      match find_sub placeholder text with
      | None => text
      | Some i => take i text ++ goal ++ replace_goal fuel goal (drop (i + length placeholder) text)
      end
  end.
Definition substitute_goal (goal text : str) : str := replace_goal (S (length text)) goal text.

Section plan.
Context `{JsonText}.
Context (tier_of : str -> option str) (json_neq : jv -> jv -> bool) (w : World).

Definition route_step (mode : str) (r : ProviderRouter) (agent_id tier task : str) : ModelSelection * ProviderRouter :=
  if bool_decide (mode = lit "flash") then route_flash json_neq w r agent_id tier task
  else if bool_decide (mode = lit "standard") then route_standard json_neq w r agent_id tier task
  else if bool_decide (mode = lit "forensic") then route_forensic json_neq w r agent_id tier task
  else route json_neq w r tier task (lit "swarm").

Definition build_step_plan (step : jv) (mode goal : str) (r : ProviderRouter) : option (StepPlan * ProviderRouter) :=
  name ← value get_string step "name" (lit "step"); agent_id ← value get_string step "agent" (lit "code-agent");
  pillar ← value get_string step "pillar" (lit "execution");
  task ← value get_string step "task" []; step_task ← value get_string step "task_template" task;
  depends ← match array_at step "depends" with Some a => mapM get_string (items a) | None => Some [] end;
  let tier := default (lit "code") (tier_of agent_id) in
  let '(model, r) := route_step mode r agent_id tier step_task in
  Some (mkPlan name agent_id (substitute_goal goal step_task ++ mode_text mode agent_id) (canonicalize_pillar pillar) depends model, r).

Fixpoint build_plans (steps : list jv) (mode goal : str) (r : ProviderRouter) : option (list StepPlan * ProviderRouter) :=
  match steps with
  | [] => Some ([], r)
  | s :: steps => '(p, r) ← build_step_plan s mode goal r; '(ps, r) ← build_plans steps mode goal r; Some (p :: ps, r)
  end.
End plan.

(** ** What the schema accepts *)

Section accept.
Context `{Json}.

(** A check that leaves the verdict [b] on the object it looked at *)
Definition judged (b : bool) (r r' : PlaybookValidationResult) : Prop :=
  valid r' = valid r && b /\ (valid r = bool_decide (errors r = []) -> valid r' = bool_decide (errors r' = [])).

Lemma judged_refl r : judged true r r.
Proof. split; [by rewrite andb_true_r|done]. Qed.
Lemma judged_trans b b' r1 r2 r3 : judged b r1 r2 -> judged b' r2 r3 -> judged (b && b') r1 r3.
Proof. intros [E1 H1] [E2 H2]. split; [by rewrite E2, E1, andb_assoc|auto]. Qed.
Lemma judged_warn b w r : judged true r (warn_if b w r).
Proof. destruct b; [|apply judged_refl]. split; [by rewrite andb_true_r|done]. Qed.
Lemma judged_error e r : judged false r (add_error e r).
Proof. split; [by rewrite andb_false_r|]. intros _. cbn. rewrite bool_decide_false; [done|]. intros [_ ?]%app_nil. done. Qed.
Lemma judged_keep b r1 r2 r3 : judged b r1 r2 -> judged true r2 r3 -> judged b r1 r3.
Proof. intros E1 E2. rewrite <-(andb_true_r b). by eapply judged_trans. Qed.

Lemma note_name_judged j k what st st' : note_name j k what st = Some st' -> judged true st.2 st'.2.
Proof.
  unfold note_name. destruct (at_key j k); [|intros [= <-]; apply judged_refl].
  intros (n & _ & [= <-])%bind_Some. apply judged_warn.
Qed.

Lemma check_step_judged i step st st' : check_step i step st = Some st' -> judged (is_object step) st.2 st'.2.
Proof.
  unfold check_step. destruct (is_object step); cbn [negb]; [|intros [= <-]; apply judged_error].
  intros E%note_name_judged. eapply judged_trans with (b := true); [apply judged_warn|exact E].
Qed.

Lemma check_delegates_judged i l r : judged true r (foldl (fun r '(d, delegate) => check_delegate i d delegate r) r l).
Proof.
  revert r. induction l as [|[d j] l IH]; intros r; [apply judged_refl|]. cbn [foldl].
  apply (judged_keep true _ _ _ (judged_keep true _ _ _ (judged_warn _ _ _) (judged_warn _ _ _)) (IH _)).
Qed.

Lemma check_phase_judged i phase st st' : check_phase i phase st = Some st' -> judged (is_object phase) st.2.2 st'.2.2.
Proof.
  destruct st as [prev [gates r]]. unfold check_phase. destruct (is_object phase); cbn [negb]; [|intros [= <-]; apply judged_error].
  intros ([prev' r'] & Hs & ([gates' r''] & Hn & [= <-])%bind_Some)%bind_Some. cbn [snd]. apply note_name_judged in Hn. cbn [snd] in Hn.
  eapply (judged_trans true true); [|exact Hn]. unfold check_sequence in Hs.
  assert (judged true r r') as Hr.
  { destruct (if contains phase "sequence" then _ else _); [|injection Hs as <- <-; apply judged_refl].
    apply bind_Some in Hs as (q & _ & [= <- <-]). apply judged_warn. }
  destruct (array_at phase "delegates"); [|exact Hr]. apply (judged_keep _ _ _ _ Hr). apply check_delegates_judged.
Qed.

Lemma each_judged {A} (f : nat -> jv -> A -> option A) (out : A -> PlaybookValidationResult) i l s s' :
  (forall i j s s', f i j s = Some s' -> judged (is_object j) (out s) (out s')) ->
  each f i l s = Some s' -> judged (forallb is_object l) (out s) (out s').
Proof.
  intros Hf. revert i s. induction l as [|j l IH]; intros i s; cbn [each forallb]; [intros [= <-]; apply judged_refl|].
  intros (s1 & E1%Hf & E2%IH)%bind_Some. by eapply judged_trans.
Qed.

Definition entries_are_objects (j : jv) (k : string) : bool := match array_at j k with Some a => forallb is_object (items a) | None => true end.
Definition version_ok (j : jv) : bool :=
  match at_key j "schema_version" ≫= get_string with Some v => is_compatible_version v | None => true end.

Lemma check_head_judged pb has r : check_head pb has = Some r -> judged (has && version_ok pb) (mkValidation true [] []) r.
Proof.
  unfold check_head, version_ok. intros (r1 & H1 & H2)%bind_Some.
  assert (judged has (mkValidation true [] []) r1) as Hj.
  { assert (forall r0, judged has (mkValidation true [] []) r0 ->
      judged has (mkValidation true [] []) (warn_if (negb (contains pb "name") && negb (contains pb "id")) (lit "playbook should have a 'name' or 'id' field") r0)) as Hw
      by (intros r0 Hr0; apply (judged_keep _ _ _ _ Hr0), judged_warn).
    assert (judged has (mkValidation true [] []) (if has then mkValidation true [] [] else add_error (lit "playbook must contain 'steps' or 'phases' array") (mkValidation true [] []))) as H0
      by (destruct has; [apply judged_refl|apply judged_error]).
    apply Hw in H0. destruct (at_key pb "id"); [|by injection H1 as <-].
    apply bind_Some in H1 as (id & _ & [= <-]). apply (judged_keep _ _ _ _ H0), judged_warn. }
  apply (judged_trans _ _ _ _ _ Hj). destruct (at_key pb "schema_version"); cbn [mbind option_bind]; [|injection H2 as <-; apply judged_refl].
  apply bind_Some in H2 as (ver & -> & [= <-]). destruct (is_compatible_version ver); [apply judged_refl|apply judged_error].
Qed.

(** A playbook is valid exactly when it has an array of steps or of phases, its
    version is compatible and every entry is an object; an invalid one says why. *)
Theorem schema_exact pb r : validate_playbook pb = Some r ->
  (valid r = true <->
     (is_Some (array_at pb "steps") \/ is_Some (array_at pb "phases")) /\ version_ok pb = true /\
     entries_are_objects pb "steps" = true /\ entries_are_objects pb "phases" = true) /\
  (valid r = true <-> errors r = []).
Proof.
  unfold validate_playbook, entries_are_objects. intros (r0 & Hh%check_head_judged & H1)%bind_Some.
  apply bind_Some in H1 as (r1 & H1 & H2).
  assert (judged (match array_at pb "steps" with Some a => forallb is_object (items a) | None => true end) r0 r1) as J1.
  { destruct (array_at pb "steps"); [|injection H1 as <-; apply judged_refl]. apply fmap_Some in H1 as (st & Hst & ->).
    apply (each_judged _ snd) in Hst; [|apply check_step_judged]. cbn [snd] in Hst.
    apply (judged_trans true _ _ _ _ (judged_warn _ _ _) Hst). }
  assert (judged (match array_at pb "phases" with Some a => forallb is_object (items a) | None => true end) r1 r) as J2.
  { destruct (array_at pb "phases"); [|injection H2 as <-; apply judged_refl]. apply fmap_Some in H2 as (st & Hst & ->).
    apply (each_judged _ (fun st => st.2.2)) in Hst; [|apply check_phase_judged]. cbn [snd] in Hst.
    apply (judged_trans true _ _ _ _ (judged_warn _ _ _) Hst). }
  destruct (judged_trans _ _ _ _ _ Hh (judged_trans _ _ _ _ _ J1 J2)) as [Hv He]. cbn [valid errors] in Hv, He.
  rewrite bool_decide_true in He by done. specialize (He eq_refl). split; [|by rewrite He, bool_decide_eq_true].
  rewrite Hv, !andb_true_iff, orb_true_iff, !bool_decide_eq_true. tauto.
Qed.
End accept.

(** Nothing of what is put in for the goal is read as a placeholder. *)
Lemma goal_not_expanded : substitute_goal (lit "${goal}") (lit "a ${goal} b") = lit "a ${goal} b".
Proof. reflexivity. Qed.

(** The flash mode keeps two steps at most, the standard mode five. *)
Lemma active_steps_bound `{Json} mode all steps : active_steps mode all = Some steps ->
  (mode = lit "flash" -> length steps <= 2)%nat /\ (mode = lit "standard" -> length steps <= 5)%nat.
Proof.
  unfold active_steps, steps_at. intros E. split; intros ->.
  - rewrite bool_decide_true in E by done. apply length_mapM in E. rewrite <-E. apply List.filter_length_le.
  - rewrite bool_decide_false, bool_decide_true in E by done. apply length_mapM in E. rewrite <-E. apply List.filter_length_le.
Qed.
