(* ===== verification/McpBridge.v ===== *)
(** * Tools of external servers: [apps/cli/src/mcp_provider.cpp]

    The bridge starts the configured command, writes the framed requests to it
    and reads framed replies from all it printed.  Running the command is an
    argument.  [None] is an exception, or a loop that does not end in time. *)

From Stdlib Require Import ZArith Ascii String Lia.
From stdpp Require Import base list gmap strings.
From S2P Require Import Prelude CxxString Lines Doubles Numbers Json JsonObjects JsonText CertGates AuthProfiles Ensemble.

Record ProviderResponse : Type := mkResponse {
  pr_success : bool; pr_output : str; pr_error : str; pr_exit : Z; pr_duration : double; failure_reason : option CooldownReason;
}.
Definition refused (error : str) (exit_code : Z) : ProviderResponse := mkResponse false [] error exit_code d_zero None.
Definition answered (content : str) : ProviderResponse := mkResponse true content [] 0 d_zero None.

Record McpServerConfig : Type := mkServer { sv_name : str; sv_command : str; sv_args : list str; sv_env : list str; sv_timeout : Z }.

(** [std::stoull] *)
Definition stoull (s : str) : option Z :=
  let '(neg, s) := read_sign (skip_space s) in
  match s with
  | c :: _ =>
      if isdigit c then let v := read_digits s 0 in if (v <? 2 ^ 64)%Z then Some (if neg : bool then u64 (- v) else v) else None
      else None
  | [] => None
  end.

Definition cr : ascii := "013"%char.
Definition blank_line : str := [cr; eol; cr; eol].
Definition length_header : str := lit "Content-Length: ".
Definition frame (body : str) : str := length_header ++ to_string_nat (length body) ++ blank_line ++ body.

(** [s.find(p, pos)] *)
Definition find_at (p : str) (pos : Z) (s : str) : option Z := (fun i => pos + Z.of_nat i)%Z <$> find_sub p (drop (Z.to_nat pos) s).

Section bridge.
Context `{JsonText}.

(** ** Configuration *)

Definition strings_at (j : jv) (k : string) : option (list str) :=
  match at_key j k with Some a => if is_array a then mapM get_string (items a) else Some [] | None => Some [] end.
Definition read_server (name : str) (server : jv) : option McpServerConfig :=
  c ← value get_string server "command" []; a ← strings_at server "args"; e ← strings_at server "env";
  t ← value get_int server "timeout" 30%Z; Some (mkServer name c a e t).
Definition read_servers (config : jv) : Step (gmap str McpServerConfig) :=
  match at_key config "mcp_servers" ≫= members with
  | None => fun m => (true, m)
  | Some m => for_each (fun kv => with_value (read_server kv.1 kv.2) (fun s => <[kv.1 := s]>)) (sorted_items m)
  end.
(** What was read before an exception stays. *)
Definition load_servers (file : option str) : gmap str McpServerConfig :=
  match file ≫= json_parse with Some j => (read_servers j ∅).2 | None => ∅ end.

Definition has_server (servers : gmap str McpServerConfig) (name : str) : bool := bool_decide (is_Some (servers !! name)).

(** ** A call *)

Definition key_char (c : ascii) : bool := isalnum c || char_is "_" c.
Definition unsafe_value_char (c : ascii) : bool :=
  char_is "`" c || char_is "$" c || char_is ";" c || char_is "|" c || char_is eol c || char_is cr c || char_is "000" c.
Definition add_env (env_map : gmap str str) (e : str) : gmap str str :=
  match find_char "=" e with
  | None => env_map
  | Some eq =>
      let key := take eq e in let val := drop (S eq) e in
      if forallb key_char key && negb (existsb unsafe_value_char val) then <[key := val]> env_map else env_map
  end.

Definition request (tool_name : str) (arguments : jv) : jv :=
  object [(lit "jsonrpc", jstr (lit "2.0")); (lit "id", jint 1); (lit "method", jstr (lit "tools/call"));
          (lit "params", object [(lit "name", jstr tool_name); (lit "arguments", arguments)])].
Definition init_request : jv :=
  object [(lit "jsonrpc", jstr (lit "2.0")); (lit "id", jint 0); (lit "method", jstr (lit "initialize"));
          (lit "params", object [(lit "protocolVersion", jstr (lit "2024-11-05")); (lit "capabilities", jnull);
             (lit "clientInfo", object [(lit "name", jstr (lit "euxis")); (lit "version", jstr (lit "0.1.3"))])])].
Definition init_ack : jv := object [(lit "jsonrpc", jstr (lit "2.0")); (lit "method", jstr (lit "notifications/initialized"))].

(** The frames of the output from a position on; the sizes are 64-bit words. *)
Fixpoint read_frames (fuel : nat) (output : str) (pos : Z) (last_response : jv) : option jv :=
  match fuel with
  | O => None
  | S fuel =>
      if (Z.of_nat (length output) <=? pos)%Z then Some last_response
      else
        match find_at blank_line pos output, find_at length_header pos output with
        | Some header_end, Some cl_pos =>
            if (header_end <? cl_pos)%Z then Some last_response
            else
              match stoull (drop (Z.to_nat cl_pos + 16) output) with
              | None => Some last_response
              | Some cl_val =>
                  let body_start := (header_end + 4)%Z in
                  let next := u64 (body_start + cl_val) in
                  if (Z.of_nat (length output) <? next)%Z then Some last_response
                  else read_frames fuel output next
                         (default last_response (json_parse (take (Z.to_nat cl_val) (drop (Z.to_nat body_start) output))))
              end
        | _, _ => Some last_response
        end
  end.

Definition text_of (c : jv) : option str := match at_key c "text" with Some t => get_string t | None => Some [] end.
Definition reply_content (last_response : jv) : option ProviderResponse :=
  match at_key last_response "error" with
  | Some e => d ← json_dump e; Some (refused (lit "MCP error: " ++ d) 1)
  | None =>
      match at_key last_response "result" with
      | None => d ← json_dump last_response; Some (answered d)
      | Some r =>
          match at_key r "content" with
          | Some c => if is_array c then ts ← mapM text_of (items c); Some (answered (List.concat ts)) else d ← json_dump r; Some (answered d)
          | None => d ← json_dump r; Some (answered d)
          end
      end
  end.

Context (run_with_input : str -> list str -> str -> Z -> gmap str str -> ProcessResult).

Definition mcp_execute (fuel : nat) (servers : gmap str McpServerConfig) (server_name tool_name : str) (arguments : jv) (timeout : Z) :
    option ProviderResponse :=
  match servers !! server_name with
  | None => Some (refused (lit "unknown MCP server: " ++ server_name) 1)
  | Some cfg =>
      if bool_decide (sv_command cfg = []) then Some (refused (lit "MCP server has no command: " ++ server_name) 1)
      else
        body ← json_dump (request tool_name arguments); init_body ← json_dump init_request; ack_body ← json_dump init_ack;
        let result := run_with_input (sv_command cfg) (sv_args cfg) (frame init_body ++ frame ack_body ++ frame body)
                        (if (0 <? timeout)%Z then timeout else sv_timeout cfg) (foldl add_env ∅ (sv_env cfg)) in
        if negb (exit_code result =? 0)%Z && bool_decide (stdout_output result = [])
        then Some (refused (lit "MCP server failed: " ++ stderr_output result) (exit_code result))
        else
          last_response ← read_frames fuel (stdout_output result) 0 jnull;
          if is_null last_response
          then Some (mkResponse false (stdout_output result) (lit "failed to parse MCP response") 1 d_zero None)
          else reply_content last_response
  end.
End bridge.

(** ** Reading frames *)

Section frames.
Context `{JsonText}.

Lemma frame_length body : Z.of_nat (length (frame body)) = (20 + Z.of_nat (length (to_string_nat (length body))) + Z.of_nat (length body))%Z.
Proof. unfold frame. rewrite !length_app. cbn [length length_header lit list_ascii_of_string blank_line]. lia. Qed.

Lemma find_blank body rest : find_sub blank_line (frame body ++ rest) = Some (16 + length (to_string_nat (length body)))%nat.
Proof.
  unfold frame. rewrite <-!(app_assoc _ _ rest), app_assoc. change blank_line with (cr :: [eol; cr; eol]).
  rewrite find_sub_first; [by rewrite length_app|].
  unfold free_of. rewrite elem_of_app. intros [Hin|Hin]; revert Hin; [|by apply to_string_nat_free].
  change (free_of cr length_header). apply free_of_Forall. repeat constructor.
Qed.

Lemma to_string_nat_ne n : to_string_nat n <> [].
Proof.
  intros E. pose proof (read_to_string n cr [] eq_refl) as Hr. rewrite E in Hr. change (0%Z = Z.of_nat n) in Hr.
  assert (n = 0%nat) as -> by lia. discriminate E.
Qed.

Lemma stoull_length body rest : (Z.of_nat (length body) < 2 ^ 64)%Z ->
  stoull (drop 16 (frame body ++ rest)) = Some (Z.of_nat (length body)).
Proof.
  intros Hb. unfold frame. rewrite <-!(app_assoc _ _ rest).
  change (drop 16 (length_header ++ ?x)) with x. unfold stoull. set (d := to_string_nat (length body)).
  pose proof (to_string_nat_digits (length body)) as Hd. fold d in Hd.
  assert (read_digits (d ++ blank_line ++ body ++ rest) 0 = Z.of_nat (length body)) as Hr by (by apply (read_to_string _ cr)).
  pose proof (to_string_nat_ne (length body)) as Hne. fold d in Hne. clearbody d. destruct d as [|c d']; [done|].
  apply Forall_cons in Hd as [Hc _]. cbn [app skip_space]. cbn [app] in Hr.
  assert (isspace c = false /\ forall u, read_sign (c :: u) = (false, c :: u)) as [Hs Hn].
  { revert Hc. clear. intros Hc. split.
    - unfold isspace, isdigit, between in *. change (code "0"%char) with 48%Z in Hc. change (code "9"%char) with 57%Z in Hc.
      destruct (code c =? 32)%Z eqn:E1; [lia|]. destruct (9 <=? code c)%Z eqn:E2, (code c <=? 13)%Z eqn:E3; cbn; try done; lia.
    - intros u. destruct c as [[] [] [] [] [] [] [] []]; cbn in Hc |- *; try reflexivity; discriminate. }
  rewrite Hs, Hn, Hc, Hr. apply Z.ltb_lt in Hb. by rewrite Hb.
Qed.

(** One complete frame is consumed and its body is the last reply if it parses. *)
Lemma read_frames_step fuel output pos body rest acc :
  (0 <= pos)%Z -> (Z.of_nat (length output) < 2 ^ 64)%Z -> drop (Z.to_nat pos) output = frame body ++ rest ->
  read_frames (S fuel) output pos acc =
  read_frames fuel output (pos + Z.of_nat (length (frame body))) (default acc (json_parse body)).
Proof.
  intros Hp Hlen Hd. assert (Z.of_nat (length output) = pos + Z.of_nat (length (frame body)) + Z.of_nat (length rest))%Z as Hl.
  { assert (length (drop (Z.to_nat pos) output) = length (frame body ++ rest)) as E by (by rewrite Hd). rewrite length_drop, length_app in E.
    pose proof (frame_length body). lia. }
  pose proof (frame_length body) as Hfl. cbn [read_frames]. rewrite (proj2 (Z.leb_gt _ _)) by lia.
  unfold find_at. rewrite Hd, find_blank. assert (find_sub length_header (frame body ++ rest) = Some 0%nat) as -> by reflexivity.
  cbn [fmap option_fmap option_map]. rewrite (proj2 (Z.ltb_ge _ _)) by lia.
  replace (Z.to_nat (pos + Z.of_nat 0) + 16)%nat with (Z.to_nat pos + 16)%nat by lia.
  rewrite <-drop_drop, Hd, stoull_length by lia. set (n := length (to_string_nat (length body))) in *.
  replace (pos + Z.of_nat (16 + n) + 4)%Z with (pos + 20 + Z.of_nat n)%Z by lia.
  rewrite u64_small by lia. rewrite (proj2 (Z.ltb_ge _ _)) by lia.
  replace (pos + 20 + Z.of_nat n + Z.of_nat (length body))%Z with (pos + Z.of_nat (length (frame body)))%Z by lia. do 2 f_equal. f_equal.
  replace (Z.to_nat (pos + 20 + Z.of_nat n)) with (Z.to_nat pos + (20 + n))%nat by lia. rewrite <-drop_drop, Hd, Nat2Z.id.
  unfold frame. rewrite <-!(app_assoc _ _ rest), !app_assoc, <-(app_assoc _ body).
  rewrite drop_app_length' by (rewrite !length_app; cbn [length length_header lit list_ascii_of_string blank_line]; unfold n; lia).
  by rewrite take_app_length.
Qed.

Definition last_parsed (acc : jv) (bodies : list str) : jv := foldl (fun acc b => default acc (json_parse b)) acc bodies.
Definition frames (bodies : list str) : str := flat_map frame bodies.

(** C39: what a server wrote is read frame by frame: the answer is the last body
    that parses, whatever the bodies contain. *)
Theorem frames_read fuel bodies acc :
  (length bodies < fuel)%nat -> (Z.of_nat (length (frames bodies)) < 2 ^ 64)%Z ->
  read_frames fuel (frames bodies) 0 acc = Some (last_parsed acc bodies).
Proof.
  intros Hf Hl. assert (forall done todo fuel acc, (length todo < fuel)%nat -> frames bodies = frames done ++ frames todo ->
    read_frames fuel (frames bodies) (Z.of_nat (length (frames done))) acc = Some (last_parsed acc todo)) as Hg.
  2: by apply (Hg [] bodies).
  clear fuel acc Hf. intros dn todo. revert dn. induction todo as [|b todo IH]; intros dn fuel acc Hf E; (destruct fuel as [|fuel]; [lia|]).
  - cbn [read_frames]. rewrite E. cbn [frames flat_map]. rewrite app_nil_r. by rewrite (proj2 (Z.leb_le _ _)) by lia.
  - rewrite (read_frames_step fuel _ _ b (frames todo)); [|lia|done|].
    + cbn [last_parsed foldl]. rewrite <-Nat2Z.inj_add, <-length_app.
      assert (frames dn ++ frame b = frames (dn ++ [b])) as Ed by (unfold frames; rewrite flat_map_app; cbn [flat_map]; by rewrite app_nil_r).
      rewrite Ed. apply IH; [cbn in Hf; lia|]. by rewrite <-Ed, E, <-app_assoc.
    + rewrite E, Nat2Z.id. apply drop_app_length.
Qed.

(** A server that answers with a negative length is read forever. *)
Theorem negative_length_never_ends fuel acc : read_frames fuel (length_header ++ lit "-23" ++ blank_line) 0 acc = None.
Proof.
  revert acc. induction fuel as [|fuel IH]; intros acc; [done|].
  change (read_frames (S fuel) (length_header ++ lit "-23" ++ blank_line) 0 acc)
    with (read_frames fuel (length_header ++ lit "-23" ++ blank_line) 0
            (default acc (json_parse (take (Z.to_nat (2 ^ 64 - 23)) (drop 23 (length_header ++ lit "-23" ++ blank_line)))))).
  apply IH.
Qed.
End frames.

Definition sample_bodies : list str := [lit "Content-Length: 99"; lit "not json"; default [] (@json_dump _ TreeJson.text (@jint TreeJson.json 7))].

Lemma frames_read_witness :
  @read_frames TreeJson.json TreeJson.text 4 (frames sample_bodies) 0 (@jnull TreeJson.json) =
    Some (@last_parsed TreeJson.json TreeJson.text (@jnull TreeJson.json) sample_bodies) /\
  @last_parsed TreeJson.json TreeJson.text (@jnull TreeJson.json) sample_bodies = @jint TreeJson.json 7.
Proof.
  split.
  - apply (@frames_read TreeJson.json TreeJson.text); [cbn; lia|vm_compute; reflexivity].
  - vm_compute. reflexivity.
Defined.
