(* ===== verification/ProviderExec.v ===== *)
(** * Running a provider: [apps/cli/src/provider_executor.cpp]

    One request to a model: the checks before it, the choice between a command
    line tool and the API, the reading of the answer, and what the circuit
    breaker and the credentials learn from it.  The environment, the programs
    and the clock are a [Host].  Streaming callbacks are left out.  [None] is
    an exception, an overflow, or a reply loop that does not end in time. *)

From Stdlib Require Import ZArith Ascii String Lia.
From stdpp Require Import base list gmap strings.
From S2P Require Import Prelude CxxString Lines Doubles Numbers Json JsonObjects JsonText Network ProviderRouter AuthProfiles.
From S2P Require Import CertGates McpBridge.

Record Host : Type := mkHost {
  host_env : string -> option str;
  host_run : str -> list str -> Z -> gmap str str -> ProcessResult;
  host_run_with_input : str -> list str -> str -> Z -> gmap str str -> ProcessResult;
  host_available : string -> bool;
  router_json : option str; claude_credentials : option str;
  host_steady : Z; host_now : Z; host_elapsed_ms : double;
}.
Record ProviderExecutor : Type := mkExecutor { auth_store_ : AuthProfileStore; breakers_ : gmap str CircuitBreaker }.

Section executor.
Context `{JsonText}.

(** ** Prompts *)

Definition build_prompt (system_prompt task context : str) : str :=
  (if bool_decide (system_prompt = []) then [] else system_prompt ++ [eol; eol])
  ++ (if bool_decide (context = []) then [] else lit "## Context" ++ [eol] ++ context ++ [eol; eol])
  ++ lit "## Task" ++ [eol] ++ task.

Definition blank_start (c : ascii) : bool := char_is " " c || char_is "009" c || char_is eol c || char_is cr c.
Definition front_matter_end : str := eol :: lit "---" ++ [eol].
(** The text of a prompt file without its front matter; text that is only
    blank keeps its blanks. *)
Definition load_agent_prompt (file : option str) : str :=
  match file with
  | None => []
  | Some content =>
      let content := if starts_with (lit "---" ++ [eol]) content then
                       match find_at front_matter_end 4 content with Some e => drop (Z.to_nat e + 5) content | None => content end
                     else content in
      match skip blank_start content with [] => content | t => t end
  end.

(** ** Errors *)

Definition classify_error (http_status : Z) (body : str) : option CooldownReason :=
  if (http_status =? 429)%Z then Some RateLimit
  else if (http_status =? 401)%Z || (http_status =? 403)%Z then Some AuthError
  else if (http_status =? 402)%Z then Some BillingError
  else
    let has p := contains_sub (lit p) (lower body) in
    if has "scope_insufficient"%string || has "permission_denied"%string then Some AuthError
    else if has "billing"%string || has "credit"%string || has "insufficient_quota"%string then Some BillingError
    else if has "rate_limit"%string || has "rate limit"%string then Some RateLimit
    else None.

(** The answer of [curl -w], split at the line break before the status; a
    status that does not read is zero. *)
Definition split_status (output : str) : str * Z :=
  match rfind_char eol output with
  | Some i => (take i output, default 0%Z (stoi (drop (S i) output)))
  | None => (output, 0%Z)
  end.

(** ** The four ways to ask *)

Definition key_vars (h : Host) : gmap str str :=
  foldl (fun m k => match host_env h k with Some v => <[lit k := v]> m | None => m end) ∅
    ["OPENAI_API_KEY"; "ANTHROPIC_API_KEY"; "GEMINI_API_KEY"]%string.
Definition cli_args (provider prompt : str) : option (list str) :=
  let named p := bool_decide (provider = lit p) in
  if named "claude"%string then
    Some ((lit <$> ["--model"; "sonnet"; "--permission-mode"; "dontAsk"; "--no-session-persistence"; "-p"; "--"]%string) ++ [prompt])
  else if named "gemini"%string then Some [lit "ask"; prompt]
  else if named "opencode"%string then Some [lit "run"; prompt]
  else if named "aider"%string then Some ([lit "--message"; prompt] ++ (lit <$> ["--no-git"; "--no-auto-commits"; "--light-mode"]%string))
  else if named "sgpt"%string then Some [prompt]
  else if named "kiro"%string then Some [lit "chat"; prompt]
  else None.
Definition execute_via_cli (h : Host) (provider prompt : str) (timeout : Z) : ProviderResponse :=
  match cli_args provider prompt with
  | None => refused (lit "No CLI bridge implemented for " ++ provider) 1
  | Some args =>
      let r := host_run h provider args timeout (key_vars h) in
      mkResponse (exit_code r =? 0)%Z (stdout_output r) (stderr_output r) (exit_code r) d_zero None
  end.

Definition resolve_anthropic_token (h : Host) : str :=
  match host_env h "ANTHROPIC_API_KEY" with
  | Some (c :: k) => c :: k
  | _ =>
      match host_env h "HOME" with
      | None => []
      | Some _ => default [] (creds ← claude_credentials h ≫= json_parse; o ← at_key creds "claudeAiOauth"; value get_string o "accessToken" [])
      end
  end.
(** [auth.has_value() ? auth->token : ...] *)
Definition token_or (auth : option ResolvedAuth) (other : str) : str := match auth with Some a => token a | None => other end.
Definition user_message (prompt : str) : jv := jarr [object [(lit "role", jstr (lit "user")); (lit "content", jstr prompt)]].
Definition curl (h : Host) (args : list str) (timeout : Z) : ProcessResult := host_run h (lit "curl") args timeout ∅.
Definition status_format : str := eol :: lit "%{http_code}".
Definition json_header : list str := [lit "-H"; lit "Content-Type: application/json"].

(** [j[k]] of a value that may change: a missing member of an object, or of
    null, is null. *)
Definition member_or_null (j : jv) (k : string) : option jv :=
  match members j with Some m => Some (default jnull (m !! lit k)) | None => if is_null j then Some jnull else None end.
(** The error of an answer, as text *)
Definition error_text (j : jv) : option (option str) :=
  match at_key j "error" with None => Some None | Some e => d ← json_dump e; Some (Some d) end.

Definition claude_answer (status : Z) (output : str) : ProviderResponse :=
  let malformed := mkResponse false output (lit "JSON parse error") 1 d_zero None in
  default malformed
    (j ← json_parse output; e ← error_text j;
     match e with
     | Some d => Some (mkResponse false [] (lit "Anthropic API: " ++ d) 1 d_zero (classify_error status output))
     | None => c ← member_or_null j "content"; ts ← mapM text_of (items c); Some (answered (List.concat ts))
     end).
Definition execute_claude (h : Host) (model prompt : str) (timeout : Z) (auth : option ResolvedAuth) : option ProviderResponse :=
  let tok := token_or auth (resolve_anthropic_token h) in
  if bool_decide (tok = []) then Some (refused (lit "No Anthropic auth found.") 1)
  else
    body ← json_dump (object [(lit "model", jstr (or_text model "claude-sonnet-4-6")); (lit "max_tokens", jint 4096);
                              (lit "messages", user_message prompt)]);
    let r := curl h ([lit "-s"; lit "-S"; lit "-w"; status_format; lit "https://api.anthropic.com/v1/messages"] ++ json_header
                     ++ [lit "-H"; lit "anthropic-version: 2023-06-01"; lit "-H"; lit "x-api-key: " ++ tok; lit "-d"; body]) timeout in
    if negb (exit_code r =? 0)%Z then Some (refused (lit "curl failed") (exit_code r))
    else let '(output, status) := split_status (stdout_output r) in Some (claude_answer status output).

Definition ollama_answer (output : str) : ProviderResponse :=
  match find_char "{" output, rfind_char "}" output with
  | Some a, Some b =>
      if (b <=? a)%nat then refused (lit "ollama: malformed response (no JSON)") 1
      else
        default (refused (lit "ollama: malformed response") 1)
          (j ← json_parse (substr output a (b - a + 1));
           match at_key j "error" with
           | Some e => t ← get_string e; Some (refused (lit "Ollama API: " ++ t) 1)
           | None => t ← value get_string j "response" []; Some (answered t)
           end)
  | _, _ => refused (lit "ollama: malformed response (no JSON)") 1
  end.
Definition execute_ollama (h : Host) (model prompt : str) (timeout : Z) : option ProviderResponse :=
  if negb (host_available h "curl") then Some (refused (lit "curl not found") 127)
  else
    body ← json_dump (object [(lit "model", jstr (or_text model "qwen2.5-coder:7b")); (lit "prompt", jstr prompt); (lit "stream", jbool false)]);
    Some (ollama_answer (stdout_output (curl h ([lit "-s"; lit "-S"; lit "-w"; status_format; lit "http://localhost:11434/api/generate"]
                                              ++ json_header ++ [lit "-d"; body]) timeout))).

(** [j[0]]: the first element, null where there is none *)
Definition first_or_null (j : jv) : option jv :=
  if is_array j then Some (default jnull (head (items j))) else if is_null j then Some jnull else None.
Definition openai_text (j : jv) : option str :=
  c ← member_or_null j "choices"; c ← first_or_null c; m ← member_or_null c "message"; t ← member_or_null m "content"; get_string t.
Definition gemini_text (j : jv) : option str :=
  c ← member_or_null j "candidates"; c ← first_or_null c; m ← member_or_null c "content"; ps ← member_or_null m "parts";
  p ← first_or_null ps; t ← member_or_null p "text"; get_string t.
Definition api_answer (provider : str) (read : jv -> option str) (status : Z) (output : str) : ProviderResponse :=
  default (mkResponse false [] (provider ++ lit ": malformed response") 1 d_zero (classify_error status output))
    (j ← json_parse output; e ← error_text j;
     match e with
     | Some d => Some (mkResponse false [] (provider ++ lit " API: " ++ d) 1 d_zero (classify_error status output))
     | None => content ← read j; Some (answered content)
     end).

Record ApiRequest : Type := mkRequest { rq_url : str; rq_header : str; rq_body : jv }.
Definition openai_request (model prompt tok : str) : ApiRequest :=
  mkRequest (lit "https://api.openai.com/v1/chat/completions") (lit "Authorization: Bearer " ++ tok)
    (object [(lit "model", jstr (or_text model "gpt-4o")); (lit "messages", user_message prompt)]).
Definition gemini_request (model prompt tok : str) : ApiRequest :=
  mkRequest (lit "https://generativelanguage.googleapis.com/v1beta/models/" ++ or_text model "gemini-2.5-flash-lite" ++ lit ":generateContent")
    (lit "x-goog-api-key: " ++ tok)
    (object [(lit "contents", jarr [object [(lit "parts", jarr [object [(lit "text", jstr prompt)]])]])]).
(** The providers that come here are [openai] and [gemini]. *)
Definition execute_api (h : Host) (provider model prompt : str) (timeout : Z) (auth : option ResolvedAuth) : option ProviderResponse :=
  let is_openai := bool_decide (provider = lit "openai") in
  let tok := token_or auth (default [] (host_env h (if is_openai then "OPENAI_API_KEY" else "GEMINI_API_KEY")%string)) in
  if bool_decide (tok = []) then Some (refused (if is_openai then lit "No OpenAI auth" else lit "No Gemini auth") 1)
  else
    let q := if is_openai then openai_request model prompt tok else gemini_request model prompt tok in
    body ← json_dump (rq_body q);
    let r := curl h ([lit "-s"; lit "-S"; lit "-w"; status_format; rq_url q] ++ json_header ++ [lit "-H"; rq_header q; lit "-d"; body]) timeout in
    let '(output, status) := split_status (stdout_output r) in
    Some (api_answer provider (if is_openai then openai_text else gemini_text) status output).

(** ** A request *)

Definition breaker_of (ex : ProviderExecutor) (p : str) : CircuitBreaker := default (new_breaker 5 (d_of_Z 10)) (breakers_ ex !! p).
Definition set_breaker (ex : ProviderExecutor) (p : str) (b : CircuitBreaker) : ProviderExecutor :=
  mkExecutor (auth_store_ ex) (<[p := b]> (breakers_ ex)).
(** [record_success] or, for a failure with a reason, [record_failure] *)
Definition track (h : Host) (ex : ProviderExecutor) (p : str) (r : ProviderResponse) : ProviderExecutor :=
  if pr_success r then set_breaker ex p (record_success (breaker_of ex p))
  else match failure_reason r with Some _ => set_breaker ex p (record_failure (breaker_of ex p) (host_steady h)) | None => ex end.
Definition report (h : Host) (ex : ProviderExecutor) (auth : option ResolvedAuth) (r : ProviderResponse) : option ProviderExecutor :=
  match auth with
  | None => Some ex
  | Some a =>
      if pr_success r then Some (mkExecutor (report_success (host_now h) (auth_store_ ex) (profile_id a)) (breakers_ ex))
      else match failure_reason r with
           | Some reason => s ← report_failure (host_now h) (auth_store_ ex) (profile_id a) reason; Some (mkExecutor s (breakers_ ex))
           | None => Some ex
           end
  end.
Definition timed (h : Host) (r : ProviderResponse) : ProviderResponse :=
  mkResponse (pr_success r) (pr_output r) (pr_error r) (pr_exit r) (host_elapsed_ms h) (failure_reason r).

Definition known_providers : list str := lit <$> ["claude"; "openai"; "gemini"; "ollama"; "opencode"; "aider"; "sgpt"; "kiro"; "mcp"]%string.
Definition tool_providers : list str := lit <$> ["opencode"; "aider"; "sgpt"; "kiro"]%string.
Definition is_oauth_auth (auth : option ResolvedAuth) : bool := match auth with Some a => is_oauth a | None => false end.

Definition mock_response (h : Host) (prompt : str) : ProviderResponse :=
  match host_env h "EUXIS_TEST_MOCK_EXECUTION_FAIL" with
  | Some (c :: f) => refused (c :: f) 1
  | _ => mkResponse true (lit "mocked response for " ++ prompt) [] 0 (d_of_Z 10) None
  end.

Definition execute_cloud (h : Host) (ex : ProviderExecutor) (p model prompt : str) (timeout : Z) (auth : option ResolvedAuth) :
    option (ProviderResponse * ProviderExecutor) :=
  let auth := match auth with Some a => Some a | None => resolve_with_fallback (host_now h) (auth_store_ ex) p end in
  r ← (if is_oauth_auth auth || bool_decide (p ∈ tool_providers) then Some (execute_via_cli h p prompt timeout)
       else if bool_decide (p = lit "claude") then execute_claude h model prompt timeout auth
       else execute_api h p model prompt timeout auth);
  ex ← report h (track h ex p r) auth r;
  Some (timed h r, ex).

Definition execute (h : Host) (fuel : nat) (ex : ProviderExecutor) (selection : ModelSelection) (prompt : str) (timeout : Z)
    (auth : option ResolvedAuth) (allowed_providers : option (list str)) : option (ProviderResponse * ProviderExecutor) :=
  let p := if bool_decide (ms_provider selection = lit "anthropic") then lit "claude" else ms_provider selection in
  if match allowed_providers with Some l => negb (bool_decide (p ∈ l)) | None => false end
  then Some (refused (lit "provider not allowed by capability token") 1, ex)
  else if negb (bool_decide (p ∈ known_providers)) then Some (refused (lit "Unknown provider: " ++ p) 1, ex)
  else match host_env h "EUXIS_TEST_MOCK_EXECUTION" with
  | Some _ => Some (mock_response h prompt, ex)
  | None =>
      let ex := set_breaker ex p (breaker_of ex p) in
      if is_open (breaker_of ex p) (host_steady h) then Some (refused (lit "provider circuit open: " ++ p) 1, ex)
      else if bool_decide (p = lit "mcp") then
        r ← mcp_execute (host_run_with_input h) fuel (load_servers (router_json h)) (ms_model selection) (lit "generate")
              (object [(lit "prompt", jstr prompt)]) timeout;
        Some (timed h r, ex)
      else if bool_decide (p = lit "ollama") then
        r ← execute_ollama h (ms_model selection) prompt timeout;
        Some (timed h r, track h ex p r)
      else execute_cloud h ex p (ms_model selection) prompt timeout auth
  end.
End executor.

(** ** What the circuit breaker and the credentials learn *)

Section learn.
Context `{JsonText}.

Lemma cli_no_reason h p prompt t : failure_reason (execute_via_cli h p prompt t) = None.
Proof. unfold execute_via_cli. by destruct (cli_args p prompt). Qed.

Lemma ollama_answer_no_reason output : failure_reason (ollama_answer output) = None.
Proof.
  unfold ollama_answer. destruct (find_char "{" output) as [a|], (rfind_char "}" output) as [b|]; try done.
  destruct (b <=? a)%nat; [done|]. destruct (json_parse _) as [j|]; cbn [mbind option_bind default from_option]; [|done].
  destruct (at_key j "error") as [e|]; [by destruct (get_string e)|]. by destruct (value get_string j "response" []).
Qed.

(** A program or an answer that never gives a reason never opens the circuit. *)
Lemma track_closed h ex p q r : failure_reason r = None -> opened_at (breaker_of ex q) = None -> opened_at (breaker_of (track h ex p r) q) = None.
Proof.
  intros Hr Ho. unfold track. rewrite Hr. destruct (pr_success r); [|done]. unfold breaker_of, set_breaker. cbn [breakers_].
  destruct (decide (p = q)) as [->|]; [by rewrite lookup_insert_eq|by rewrite lookup_insert_ne].
Qed.

(** The circuit of the local engine stays closed whatever fails. *)
Theorem ollama_circuit_never_opens h fuel ex selection prompt timeout auth allowed r ex' :
  ms_provider selection = lit "ollama" -> opened_at (breaker_of ex (lit "ollama")) = None ->
  execute h fuel ex selection prompt timeout auth allowed = Some (r, ex') ->
  opened_at (breaker_of ex' (lit "ollama")) = None.
Proof.
  intros Hp Ho. unfold execute. rewrite Hp. change (bool_decide (lit "ollama" = lit "anthropic")) with false. cbn match.
  destruct (match allowed with Some l => _ | None => false end); [by intros [= _ <-]|].
  change (negb (bool_decide (lit "ollama" ∈ known_providers))) with false. cbn match.
  destruct (host_env h "EUXIS_TEST_MOCK_EXECUTION"); [by intros [= _ <-]|]. cbn zeta.
  set (ex1 := set_breaker ex _ _). assert (opened_at (breaker_of ex1 (lit "ollama")) = None) as Ho1
    by (unfold ex1, breaker_of at 1, set_breaker; cbn [breakers_]; by rewrite lookup_insert_eq).
  clearbody ex1. destruct (is_open _ _); [by intros [= _ <-]|].
  change (bool_decide (lit "ollama" = lit "mcp")) with false. change (bool_decide (lit "ollama" = lit "ollama")) with true. cbn match.
  intros (r0 & Hr & [= _ <-])%bind_Some. apply track_closed; [|done].
  unfold execute_ollama in Hr. destruct (negb (host_available h "curl")); [by injection Hr as <-|].
  apply bind_Some in Hr as (body & _ & [= <-]). apply ollama_answer_no_reason.
Qed.

(** A service that cannot be reached fails without a reason. *)
Lemma unreachable_api_not_counted h provider model prompt timeout tok r :
  (forall args t env, host_run h (lit "curl") args t env = mkResult 7 [] (lit "could not connect")) ->
  json_parse [] = None ->
  execute_api h provider model prompt timeout (Some tok) = Some r -> failure_reason r = None.
Proof.
  intros Hrun Hj. unfold execute_api. cbn [token_or]. destruct (bool_decide (token tok = [])); [by intros [= <-]|].
  intros (body & _ & E)%bind_Some. unfold curl in E. rewrite Hrun in E. cbn [stdout_output] in E.
  change (split_status []) with ([] : str, 0%Z) in E. unfold api_answer in E. rewrite Hj in E. by injection E as <-.
Qed.
End learn.

(** ** A key of another provider *)

Section leak.
Local Existing Instances TreeJson.json TreeJson.text.

Definition only_openai : AuthProfileStore :=
  mkAuthStore [mkProfile (lit "openai:api_key") (lit "openai") ApiKey (lit "API Key") (lit "sk-openai") [] [] [] 0 (lit "manual") 0]
    kDefaultFallbacks ∅ [].
(** A machine that prints what a program is started with. *)
Definition echo_host : Host :=
  mkHost (fun _ => None) (fun _ args _ _ => mkResult 0 (List.concat args ++ [eol]) []) (fun _ _ _ _ _ => mkResult 0 [] []) (fun _ => true) None None 0 1000 d_zero.
Definition ask_claude : ModelSelection := mkSelection (lit "claude") (lit "claude-opus-4-6") Reason d_zero [] [].

(** Without a key of Anthropic the fallback gives that of OpenAI, and it is
    sent to Anthropic. *)
Lemma fallback_key_sent_elsewhere :
  exists r ex, execute echo_host 10 (mkExecutor only_openai ∅) ask_claude (lit "hello") 30 None None = Some (r, ex) /\
    contains_sub (lit "https://api.anthropic.com/v1/messages") (pr_output r) = true /\
    contains_sub (lit "x-api-key: sk-openai") (pr_output r) = true.
Proof.
  destruct (execute echo_host 10 (mkExecutor only_openai ∅) ask_claude (lit "hello") 30 None None) as [[r ex]|] eqn:E.
  - exists r, ex. split; [done|]. revert E. vm_compute. intros [= <- _]. split; reflexivity.
  - revert E. vm_compute. discriminate.
Qed.
End leak.
