(* ===== verification/PlaybookRun.v ===== *)
(** * The collection of evidence: [cmd_playbook] of [apps/cli/src/cmd/fleet.cpp]

    The loop that starts agents in threads, and the threads, as steps on a
    shared state.  The body of the loop and the critical sections of a thread
    are one step each; the condition of the loop is read outside the lock and
    is a step of its own.  An event carries what the outside gives at that
    step: the readings of the clock and the answer of the model.  [exec] gives
    [None] when an event cannot happen, or when it ends in an exception or a
    conversion out of range. *)

From Stdlib Require Import ZArith Ascii String Lia.
From stdpp Require Import base list gmap strings.
From S2P Require Import Prelude CxxString Lines Doubles Json JsonObjects JsonText ProviderRouter CertGates Verdict Evidence PlaybookPlan.
From S2P Require Import McpBridge ProviderExec.

(** ** The state *)

Record Progress : Type := mkProgress {
  plans : list StepPlan; started : list bool; completed : gset str; completed_count : nat; used_slots : Z;
}.
Record Flags : Type := mkFlags {
  early_stopped : bool; agents_skipped : Z; budget_exceeded : bool; escalated : bool; escalation_suppressed : bool;
  escalation_reason : str; triage_any_decisive : bool; run_sla : ModeSLA;
}.
Section run.
Context `{JsonText}.

Record Results : Type := mkResults {
  step_outputs : gmap str str; step_verdicts : gmap str str; evidence_log : list AgentEvidence;
  agent_model_selections : list ModelSelection; agent_latencies : list double; session_failover : str; total_cost : double;
  failures : Z; agent_retried : gset str; reflexion_log : list jv; critical_gaps : list str; agent_context : AgentMcpContext;
}.

(** Where a thread is: it reads what its dependencies wrote, then the
    failover, then it asks, and then it reports. *)
Inductive Phase : Type :=
| Launched
| HasContext (context : str)
| HasModel (context : str) (m : ModelSelection) (is_degraded : bool)
| Executing (prompt : str) (m : ModelSelection) (is_degraded : bool)
| Finished.
Record Thread : Type := mkThread { th_plan : StepPlan; th_weight : Z; th_timeout : Z; th_phase : Phase }.
Inductive MainPhase : Type := Looping | Entered | Waiting | Joining | Collected.

Record Run : Type := mkRun {
  main : MainPhase; threads : list Thread; progress : Progress; flags : Flags; results : Results; run_router : ProviderRouter;
}.

Definition total_slots : Z := 8.
Definition weight_of (p : StepPlan) : Z := if one_of (ms_provider (sp_model p)) ["claude"; "gemini"] then 4 else 1.

(** What does not change during a run *)
Record Setup : Type := mkSetup {
  original_mode : str; goal : str; ci_mode : bool; all_steps_json : jv; tier_of : str -> option str; json_differ : jv -> jv -> bool; world : ProviderRouter.World;
}.
Definition is_flash (u : Setup) : bool := bool_decide (original_mode u = lit "flash").

Definition start_run (u : Setup) (ps : list StepPlan) (r : ProviderRouter) : Run :=
  mkRun Looping [] (mkProgress ps (replicate (length ps) false) ∅ 0 0)
    (mkFlags false 0 false false false [] false (get_mode_sla (original_mode u)))
    (mkResults ∅ ∅ [] [] [] [] d_zero 0 ∅ [] [] empty_context) r.

(** ** The loop *)

(** Every plan that was not started counts as completed. *)
Definition unstarted (p : Progress) : list StepPlan := snd <$> List.filter (fun q => negb q.1) (zip (started p) (plans p)).
Definition skip_rest (p : Progress) : Progress :=
  mkProgress (plans p) (replicate (length (plans p)) true) (completed p ∪ list_to_set (sp_name <$> unstarted p))
    (completed_count p + length (unstarted p)) (used_slots p).
Definition n_plans (p : Progress) : nat := length (plans p).

Definition seconds_text (ms : double) : option str := to_string_Z <$> d_to_int (d_div ms (d_of_Z 1000)).

Definition set_gaps (r : Results) (gaps : list str) : Results :=
  mkResults (step_outputs r) (step_verdicts r) (evidence_log r) (agent_model_selections r) (agent_latencies r) (session_failover r)
    (total_cost r) (failures r) (agent_retried r) (reflexion_log r) gaps (agent_context r).

(** The flash budget is exceeded: the rest is skipped. *)
Definition budget_stop (wall_ms : double) (s : Run) : option Run :=
  let p := progress s in let f := flags s in
  gaps ← mapM (fun q => secs ← seconds_text wall_ms; Some (sp_name q ++ lit ": skipped (flash budget exceeded at " ++ secs ++ lit "s)")) (unstarted p);
  Some (mkRun Joining (threads s) (skip_rest p)
    (mkFlags (early_stopped f) (agents_skipped f + Z.of_nat (length (unstarted p))) true (escalated f) (escalation_suppressed f)
       (escalation_reason f) (triage_any_decisive f) (run_sla f))
    (set_gaps (results s) (critical_gaps (results s) ++ gaps)) (run_router s)).

(** The verdicts agree: the rest is skipped. *)
Definition early_stop (s : Run) : Run :=
  let p := progress s in let f := flags s in
  mkRun Joining (threads s) (skip_rest p)
    (mkFlags true (Z.of_nat (n_plans p) - Z.of_nat (completed_count p)) (budget_exceeded f) (escalated f) (escalation_suppressed f)
       (escalation_reason f) (triage_any_decisive f) (run_sla f))
    (results s) (run_router s).

(** *** Escalation *)

Definition decisive (v : str) : bool := one_of v ["PASS"; "FAILED"; "DEGRADED"].
Definition verdicts_of (r : Results) : list str := snd <$> map_to_list (step_verdicts r).
Definition reviewer_failed (r : Results) : bool :=
  existsb (fun e => bool_decide (agent_id e = lit "reviewer") && bool_decide (raw_verdict e = lit "FAIL")) (evidence_log r).
Definition any_decisive (r : Results) : bool := existsb decisive (verdicts_of r).
(** Why to escalate: the first two triggers, and the third *)
Definition conflict (r : Results) : option str :=
  if existsb positive (verdicts_of r) && existsb negative (verdicts_of r) then Some (lit "disagreement")
  else if reviewer_failed r then Some (lit "reviewer_fail")
  else None.
Definition escalation (r : Results) : option str :=
  match conflict r with
  | Some why => Some why
  | None => if any_decisive r then None else Some (lit "no_decisive_verdict")
  end.

(** The agents of the standard mode that are not planned, without the
    dependencies that have no output. *)
Fixpoint inject (u : Setup) (outputs : gmap str str) (idxs : list nat) (ps : list StepPlan) (r : ProviderRouter) :
    option (list StepPlan * ProviderRouter) :=
  match idxs with
  | [] => Some (ps, r)
  | i :: idxs =>
      if negb (i <? length (items (all_steps_json u)))%nat then inject u outputs idxs ps r
      else
        step ← (if is_array (all_steps_json u) then items (all_steps_json u) !! i else None);
        agent ← value get_string step "agent" [];
        if existsb (fun p => bool_decide (sp_agent p = agent)) ps then inject u outputs idxs ps r
        else
          '(p, r) ← build_step_plan (tier_of u) (json_differ u) (world u) step (lit "standard") (goal u) r;
          let p := mkPlan (lit "Escalation / " ++ agent) (sp_agent p) (sp_task p) (sp_pillar p)
                     (List.filter (fun d => bool_decide (is_Some (outputs !! d))) (sp_depends p)) (sp_model p) in
          inject u outputs idxs (ps ++ [p]) r
  end.

Definition escalate (u : Setup) (s : Run) : option Run :=
  let p := progress s in let f := flags s in let r := results s in
  let why := escalation r in
  let dec := match conflict r with Some _ => triage_any_decisive f || any_decisive r | None => any_decisive r end in
  let reason := default (escalation_reason f) why in
  match why with
  | None => Some (mkRun (main s) (threads s) p
      (mkFlags (early_stopped f) (agents_skipped f) (budget_exceeded f) (escalated f) (escalation_suppressed f) reason dec (run_sla f)) r (run_router s))
  | Some _ =>
      if ci_mode u then Some (mkRun (main s) (threads s) p
        (mkFlags (early_stopped f) (agents_skipped f) (budget_exceeded f) (escalated f) true reason dec (run_sla f)) r (run_router s))
      else
        '(ps, rt) ← inject u (step_outputs r) [1; 3; 4; 8]%nat (plans p) (run_router s);
        Some (mkRun (main s) (threads s)
          (mkProgress ps (started p ++ replicate (length ps - length (plans p)) false) (completed p) (completed_count p) (used_slots p))
          (mkFlags (early_stopped f) (agents_skipped f) (budget_exceeded f) true (escalation_suppressed f) reason dec (get_mode_sla (lit "standard")))
          r rt)
  end.

(** *** Launching *)

Definition deps_met (p : Progress) (q : StepPlan) : bool := forallb (fun d => bool_decide (d ∈ completed p)) (sp_depends q).
Definition can_launch (p : Progress) (i : nat) (q : StepPlan) : bool :=
  negb (default true (started p !! i)) && deps_met p q && (used_slots p + weight_of q <=? total_slots)%Z.
Definition agent_timeout (sla : ModeSLA) (elapsed : double) : option Z :=
  t ← d_to_int (d_div (d_sub (budget_ms sla) elapsed) (d_of_Z 1000)); Some (Z.min (agent_timeout_s sla) (Z.max 1 t)).

(** The plans in order; [now] is the time each reads. *)
Fixpoint launch (sla : ModeSLA) (now : nat -> double) (i : nat) (qs : list StepPlan) (ts : list Thread) (p : Progress) :
    option (list Thread * Progress) :=
  match qs with
  | [] => Some (ts, p)
  | q :: qs =>
      if can_launch p i q then
        t ← agent_timeout sla (now i);
        launch sla now (S i) qs (ts ++ [mkThread q (weight_of q) t Launched])
          (mkProgress (plans p) (<[i := true]> (started p)) (completed p) (completed_count p) (used_slots p + weight_of q))
      else launch sla now (S i) qs ts p
  end.

Definition converged_early (u : Setup) (s : Run) : bool :=
  is_flash u && escalated (flags s) && negb (early_stopped (flags s)) && (5 <=? completed_count (progress s))%nat
  && verdict_converged (step_verdicts (results s)) 4.
Definition may_escalate (u : Setup) (s : Run) : bool :=
  is_flash u && negb (escalated (flags s)) && negb (escalation_suppressed (flags s))
  && (n_plans (progress s) <=? completed_count (progress s))%nat.

Definition iterate (u : Setup) (wall_ms : double) (now : nat -> double) (s : Run) : option Run :=
  if d_lt (budget_ms (run_sla (flags s))) wall_ms && is_flash u then budget_stop wall_ms s
  else if converged_early u s then Some (early_stop s)
  else
    s ← (if may_escalate u s then escalate u s else Some s);
    '(ts, p) ← launch (run_sla (flags s)) now 0 (plans (progress s)) [] (progress s);
    let wait := match ts with [] => (completed_count p <? n_plans p)%nat | _ => false end in
    Some (mkRun (if wait then Waiting else Looping) (threads s ++ ts) p (flags s) (results s) (run_router s)).

(** ** A thread *)

Definition set_phase (t : Thread) (ph : Phase) : Thread := mkThread (th_plan t) (th_weight t) (th_timeout t) ph.
Definition set_thread (s : Run) (i : nat) (t : Thread) : Run :=
  mkRun (main s) (<[i := t]> (threads s)) (progress s) (flags s) (results s) (run_router s).
Definition set_results (s : Run) (r : Results) : Run := mkRun (main s) (threads s) (progress s) (flags s) r (run_router s).

(** [step_outputs[d]] makes an empty output where there is none. *)
Definition read_outputs (r : Results) (deps : list str) : str * Results :=
  let outputs := foldl (fun m d => match m !! d with Some _ => m | None => <[d := []]> m end) (step_outputs r) deps in
  (flat_map (fun d => lit "## " ++ d ++ [eol] ++ default [] (outputs !! d) ++ [eol] ++ lit "---" ++ [eol]) deps,
   mkResults outputs (step_verdicts r) (evidence_log r) (agent_model_selections r) (agent_latencies r) (session_failover r)
     (total_cost r) (failures r) (agent_retried r) (reflexion_log r) (critical_gaps r) (agent_context r)).
Definition model_now (r : Results) (m : ModelSelection) : ModelSelection * bool :=
  match session_failover r with
  | [] => (m, false)
  | p => (mkSelection p (lit "qwen2.5-coder:7b") (ms_tier m) (estimated_cost_per_1m m) (route_reason m) (ms_task_class m), true)
  end.
Definition agent_prompt (r : Results) (q : StepPlan) (context : str) : option str :=
  prior ← (if bool_decide (sp_agent q = lit "reviewer") then build_context_summary (agent_context r) else Some []);
  Some (build_prompt [] (sp_task q) (if bool_decide (prior = []) then context else context ++ [eol] ++ prior)).

Definition killed (r : ProviderResponse) : bool := bool_decide (pr_exit r = 137%Z) || bool_decide (pr_exit r = 143%Z).
Definition budget_of (t : Thread) : double := d_mul (d_of_Z (th_timeout t)) (d_of_Z 1000).
Definition timed_out (t : Thread) (r : ProviderResponse) : bool :=
  bool_decide (pr_exit r = 124%Z) || killed r || d_lt (budget_of t) (pr_duration r).

Definition where_text (q : StepPlan) : str := sp_name q ++ lit " (" ++ sp_pillar q ++ lit ")".
Definition status_gap (q : StepPlan) (status raw : str) (duration : double) : option (list str) :=
  if bool_decide (status = lit "TIMEOUT") then
    secs ← seconds_text duration;
    Some [where_text q ++ lit ": timed out at " ++ secs ++ lit "s"
          ++ (if bool_decide (raw = lit "FAIL") then lit " — agent emitted FAIL before timeout" else lit " — partial evidence only")]
  else if bool_decide (status = lit "PARTIAL") then Some [where_text q ++ lit ": no clear verdict emitted — evidence ambiguous"]
  else if bool_decide (status = lit "DEGRADED") then Some [where_text q ++ lit ": ran on fallback provider — reduced reasoning quality"]
  else Some [].

(** The second attempt: allowed once for an agent, while time remains. *)
Definition wants_retry (sla : ModeSLA) (r : Results) (q : StepPlan) (status : str) (exec_backed inferred : Z) (elapsed : double) : bool :=
  (bool_decide (status = lit "TIMEOUT") || ((exec_backed =? 0) && (2 * exec_backed <? inferred))%Z)
  && negb (bool_decide (sp_agent q ∈ agent_retried r))
  && d_le (d_mul (d_of_Z (agent_timeout_s sla)) (d_of_Z 500)) (d_sub (budget_ms sla) elapsed).
Definition retry_entry (q : StepPlan) (status : str) (exec_backed : Z) (retry : ProviderResponse) : list jv :=
  if pr_success retry && negb (bool_decide (pr_output retry = [])) then
    let '(r_exec, _, _) := parse_evidence_depth (pr_output retry) in
    [object [(lit "agent_id", jstr (sp_agent q)); (lit "original_verdict", jstr status);
             (lit "retry_duration_ms", jdouble (pr_duration retry)); (lit "improved", jbool (exec_backed <? r_exec)%Z)]]
  else [].

Definition fails_now (status raw : str) : Z :=
  ((if bool_decide (status = lit "FAILED") then 1 else 0)
   + (if bool_decide (status = lit "TIMEOUT") && bool_decide (raw = lit "FAIL") then 1 else 0))%Z.

(** An answer, even of an agent that was stopped *)
Definition record_answer (sla : ModeSLA) (t : Thread) (m : ModelSelection) (is_degraded : bool) (resp retry : ProviderResponse)
    (elapsed : double) (r : Results) : option Results :=
  let q := th_plan t in
  let raw := raw_verdict_of (pr_output resp) in
  let status := classify_agent_status raw (timed_out t resp) is_degraded (pr_duration resp) (budget_of t) in
  let '(exec_backed, inferred, claims) := parse_evidence_depth (pr_output resp) in
  let findings := extract_findings (pr_output resp) in
  let again := wants_retry sla r q status exec_backed inferred elapsed in
  gaps ← status_gap q status raw (pr_duration resp);
  Some (mkResults (<[sp_name q := pr_output resp]> (step_outputs r)) (<[sp_name q := status]> (step_verdicts r))
    (evidence_log r ++ [mkEvidence (sp_name q) (sp_agent q) status (sp_pillar q) (pr_duration resp) exec_backed inferred claims findings is_degraded raw])
    (agent_model_selections r ++ [m]) (agent_latencies r ++ [pr_duration resp]) (session_failover r)
    (d_add (total_cost r) (d_mul (estimated_cost_per_1m m) (d_lit 2 1000)))
    (failures r + fails_now status raw)
    (if again then {[sp_agent q]} ∪ agent_retried r else agent_retried r)
    (reflexion_log r ++ (if again then retry_entry q status exec_backed retry else []))
    (critical_gaps r ++ gaps)
    (publish_agent_findings (agent_context r) (sp_agent q) status findings (pr_duration resp))).
(** No answer *)
Definition record_failure (t : Thread) (is_degraded : bool) (resp : ProviderResponse) (r : Results) : Results :=
  let q := th_plan t in
  mkResults (step_outputs r) (step_verdicts r)
    (evidence_log r ++ [mkEvidence (sp_name q) (sp_agent q) (lit "FAILED") (sp_pillar q) (pr_duration resp) 0 0 0 [pr_error resp] is_degraded (lit "FAIL")])
    (agent_model_selections r) (agent_latencies r) (if killed resp then lit "ollama" else session_failover r) (total_cost r)
    (failures r + 1) (agent_retried r) (reflexion_log r)
    (critical_gaps r ++ [where_text q ++ lit ": execution failed — " ++ pr_error resp]) (agent_context r).

Definition finish (t : Thread) (m : ModelSelection) (is_degraded : bool) (resp retry : ProviderResponse) (elapsed : double) (i : nat) (s : Run) :
    option Run :=
  r ← (if pr_success resp || timed_out t resp
       then record_answer (run_sla (flags s)) t m is_degraded resp retry elapsed (results s)
       else Some (record_failure t is_degraded resp (results s)));
  let p := progress s in
  Some (mkRun (main s) (<[i := set_phase t Finished]> (threads s))
    (mkProgress (plans p) (started p) ({[sp_name (th_plan t)]} ∪ completed p) (S (completed_count p)) (used_slots p - th_weight t))
    (flags s) r (run_router s)).

(** ** Steps *)

Inductive Event : Type :=
| Test | Iterate (wall_ms : double) (now : nat -> double) | Wake | Join
| Advance (i : nat)
| Answer (i : nat) (resp retry : ProviderResponse) (elapsed : double).

Definition is_finished (t : Thread) : bool := match th_phase t with Finished => true | _ => false end.
Definition all_completed (p : Progress) : bool := (n_plans p <=? completed_count p)%nat.
Definition set_main (s : Run) (m : MainPhase) : Run := mkRun m (threads s) (progress s) (flags s) (results s) (run_router s).

Definition advance (i : nat) (s : Run) : option Run :=
  t ← threads s !! i;
  match th_phase t with
  | Launched => let '(context, r) := read_outputs (results s) (sp_depends (th_plan t)) in
                Some (set_thread (set_results s r) i (set_phase t (HasContext context)))
  | HasContext context => let '(m, degraded) := model_now (results s) (sp_model (th_plan t)) in
                          Some (set_thread s i (set_phase t (HasModel context m degraded)))
  | HasModel context m degraded => prompt ← agent_prompt (results s) (th_plan t) context;
                                   Some (set_thread s i (set_phase t (Executing prompt m degraded)))
  | Executing _ _ _ | Finished => None
  end.

Definition exec (u : Setup) (e : Event) (s : Run) : option Run :=
  match e with
  | Test => match main s with Looping => Some (set_main s (if all_completed (progress s) then Joining else Entered)) | _ => None end
  | Iterate wall_ms now => match main s with Entered => iterate u wall_ms now s | _ => None end
  | Wake => match main s with
            | Waiting => if all_completed (progress s) || (used_slots (progress s) <? total_slots)%Z then Some (set_main s Looping) else None
            | _ => None end
  | Join => match main s with Joining => if forallb is_finished (threads s) then Some (set_main s Collected) else None | _ => None end
  | Advance i => advance i s
  | Answer i resp retry elapsed =>
      t ← threads s !! i;
      match th_phase t with Executing _ m degraded => finish t m degraded resp retry elapsed i s | _ => None end
  end.

Inductive run_step (u : Setup) (s s' : Run) : Prop := RunStep (e : Event) (Hexec : exec u e s = Some s').

Fixpoint exec_all (u : Setup) (es : list Event) (s : Run) : option Run :=
  match es with [] => Some s | e :: es => s' ← exec u e s; exec_all u es s' end.
End run.
