(* ===== verification/PlaybookSchedule.v ===== *)
(** * What the collection of evidence guarantees

    Over the steps of [PlaybookRun]: the slots, the dependencies and the count
    of a run in every reachable state; that a run can always end when
    dependencies are ordered and never ends when one is missing; and where the
    loop falls short: the failover never acts, and whether a run escalates is a
    race. *)

From Stdlib Require Import ZArith Ascii String Lia SpecFloat.
From stdpp Require Import base list gmap strings.
From S2P Require Import Prelude CxxString Lines Doubles Json JsonObjects JsonText ProviderRouter CertGates Verdict Evidence PlaybookPlan.
From S2P Require Import McpBridge ProviderExec PlaybookRun.

(** ** Lists with a mark *)

Definition marked {A} (bs : list bool) (l : list A) : list A := snd <$> List.filter fst (zip bs l).
Definition unmarked {A} (bs : list bool) (l : list A) : list A := snd <$> List.filter (fun q => negb q.1) (zip bs l).

Lemma marked_perm {A} (bs : list bool) (l : list A) : length bs = length l -> marked bs l ++ unmarked bs l ≡ₚ l.
Proof.
  revert l. induction bs as [|b bs IH]; intros [|a l] Hl; [done|done|done|]. unfold marked, unmarked in *.
  injection Hl as Hl. cbn. destruct b; cbn; [by rewrite IH|]. rewrite <-Permutation_middle. by rewrite IH.
Qed.

Lemma marked_insert {A} (bs : list bool) (l : list A) i a : length bs = length l -> bs !! i = Some false -> l !! i = Some a ->
  marked (<[i := true]> bs) l ≡ₚ a :: marked bs l.
Proof.
  revert l i. induction bs as [|b bs IH]; intros [|x l] i Hl Hb Ha; [done|done|done|]. injection Hl as Hl. unfold marked in *.
  destruct i as [|i]; cbn in Hb, Ha |- *.
  - injection Hb as ->. injection Ha as ->. done.
  - specialize (IH l i Hl Hb Ha). destruct b; cbn; [|done]. rewrite IH. apply Permutation_swap.
Qed.

Lemma marked_all {A} (l : list A) : marked (replicate (length l) true) l = l.
Proof. unfold marked. induction l as [|a l IH]; cbn; [done|]. by f_equal. Qed.

Lemma marked_app_false {A} (bs : list bool) (l l' : list A) n : length bs = length l ->
  marked (bs ++ replicate n false) (l ++ l') = marked bs l.
Proof.
  revert l. induction bs as [|b bs IH]; intros [|a l] Hl; try done; unfold marked in *; cbn.
  - revert l'. induction n as [|n IHn]; intros l'; [done|]. destruct l'; [done|]. apply IHn.
  - injection Hl as Hl. destruct b; cbn; [f_equal|]; by apply IH.
Qed.

Lemma length_marked {A} (bs : list bool) (l : list A) : length bs = length l ->
  length l = (length (marked bs l) + length (unmarked bs l))%nat.
Proof. intros Hl. by rewrite <-length_app, marked_perm. Qed.

Lemma sumz_cons a l : sumz (a :: l) = (a + sumz l)%Z.
Proof. done. Qed.
Lemma sumz_insert {A} (f : A -> Z) l i a b : l !! i = Some a -> sumz (f <$> <[i := b]> l) = (sumz (f <$> l) - f a + f b)%Z.
Proof.
  revert i. induction l as [|x l IH]; intros [|i] Ha; [done|done| |].
  - injection Ha as ->. change (<[0%nat := b]> (a :: l)) with (b :: l). rewrite !fmap_cons, !sumz_cons. lia.
  - change (<[S i := b]> (x :: l)) with (x :: <[i := b]> l). rewrite !fmap_cons, !sumz_cons, (IH i Ha). lia.
Qed.
Lemma sumz_app l l' : sumz (l ++ l') = (sumz l + sumz l')%Z.
Proof. induction l as [|a l IH]; [done|]. change ((a :: l) ++ l') with (a :: (l ++ l')). rewrite !sumz_cons, IH. lia. Qed.

Section schedule.
Context `{JsonText}.
Implicit Types (s : Run) (t : Thread) (ts : list Thread) (p : Progress) (i : nat).

(** ** The invariant *)

Definition alive t : Z := if is_finished t then 0 else 1.
Definition busy t : Z := if is_finished t then 0 else th_weight t.
Definition started_plans p : list StepPlan := marked (started p) (plans p).
Definition names p : gset str := list_to_set (sp_name <$> plans p).
Definition phase_degraded (ph : Phase) : bool := match ph with HasModel _ _ d | Executing _ _ d => d | _ => false end.
Definition agent_verdict (v : str) : Prop := one_of v ["PASS"; "FAILED"; "TIMEOUT"; "PARTIAL"] = true.

(** The slots, the count and the dependencies *)
Record ProgressInv p (ts : list Thread) : Prop := mkPInv {
  pi_length : length (started p) = length (plans p);
  pi_slots : used_slots p = sumz (busy <$> ts);
  pi_bound : (used_slots p <= total_slots)%Z;
  pi_count : (Z.of_nat (completed_count p) + sumz (alive <$> ts) = Z.of_nat (length (started_plans p)))%Z;
  pi_once : (th_plan <$> ts) ⊆+ started_plans p;
  pi_names : completed p ⊆ names p;
  pi_threads : Forall (fun t => th_weight t = weight_of (th_plan t) /\ deps_met p (th_plan t) = true /\
                                (is_finished t = true -> sp_name (th_plan t) ∈ completed p)) ts;
  pi_done : forall q, q ∈ started_plans p -> sp_name q ∈ completed p \/ exists t, t ∈ ts /\ th_plan t = q /\ is_finished t = false;
}.
(** The answers: one piece of evidence for each agent that reported *)
Record ResultsInv (r : Results) (ts : list Thread) : Prop := mkRInv {
  ri_count : Z.of_nat (length (evidence_log r)) = sumz ((fun t => 1 - alive t)%Z <$> ts);
  ri_failover : session_failover r = [];
  ri_degraded : Forall (fun e => degraded e = false) (evidence_log r);
  ri_phases : Forall (fun t => phase_degraded (th_phase t) = false) ts;
  ri_verdicts : map_Forall (fun _ v => agent_verdict v) (step_verdicts r);
  ri_backed : Forall backed (evidence_log r);
}.
Definition Inv s : Prop :=
  ProgressInv (progress s) (threads s) /\ ResultsInv (results s) (threads s) /\
  (main s = Collected -> Forall (fun t => is_finished t = true) (threads s)).

Lemma names_elem p q : q ∈ plans p -> sp_name q ∈ names p.
Proof. intros Hq. apply elem_of_list_to_set, list_elem_of_fmap. by exists q. Qed.

Lemma started_in_plans p q : length (started p) = length (plans p) -> q ∈ started_plans p -> q ∈ plans p.
Proof. intros Hl Hq. rewrite <-(marked_perm (started p) (plans p)) by done. apply elem_of_app. by left. Qed.

Lemma deps_met_spec p q : deps_met p q = true <-> forall d, d ∈ sp_depends q -> d ∈ completed p.
Proof.
  unfold deps_met. rewrite forallb_forall. split; intros Hd d Hin.
  - apply list_elem_of_In in Hin. apply Hd in Hin. by apply bool_decide_eq_true in Hin.
  - apply bool_decide_eq_true. apply Hd. by apply list_elem_of_In.
Qed.

Lemma deps_met_mono p p' q : completed p ⊆ completed p' -> deps_met p q = true -> deps_met p' q = true.
Proof. intros Hs. rewrite !deps_met_spec. set_solver. Qed.

(** ** Every step keeps it *)

Lemma fmap_plan_insert ts i t t' : ts !! i = Some t -> th_plan t' = th_plan t -> th_plan <$> <[i := t']> ts = th_plan <$> ts.
Proof. intros Ht Hp. rewrite list_fmap_insert, Hp. apply list_insert_id. by rewrite list_lookup_fmap, Ht. Qed.

Lemma set_phase_progress p ts i t t' : ts !! i = Some t -> th_plan t' = th_plan t -> th_weight t' = th_weight t ->
  is_finished t = false -> is_finished t' = false -> ProgressInv p ts -> ProgressInv p (<[i := t']> ts).
Proof.
  intros Ht Hp Hw Hf Hf' [Hl Hs Hb Hc Ho Hn Hth Hd].
  assert (busy t' = busy t /\ alive t' = alive t) as [Eb Ea] by (unfold busy, alive; by rewrite Hf, Hf', Hw).
  constructor; try done.
  - rewrite (sumz_insert busy ts i t t') by done. lia.
  - rewrite (sumz_insert alive ts i t t') by done. lia.
  - by rewrite (fmap_plan_insert ts i t t').
  - apply Forall_insert; [done|]. rewrite Forall_lookup in Hth. destruct (Hth i t Ht) as (H1 & H2 & _). rewrite Hw, Hp, Hf'. done.
  - intros q Hq. destruct (Hd q Hq) as [?|(t0 & Hin & Hq0 & Hf0)]; [by left|]. right.
    apply list_elem_of_lookup in Hin as [j Hj]. destruct (decide (j = i)) as [->|Hne].
    + rewrite Ht in Hj. injection Hj as <-. exists t'. rewrite Hp. split; [|done].
      apply list_elem_of_lookup. exists i. apply list_lookup_insert_eq. by eapply lookup_lt_Some.
    + exists t0. split; [|done]. apply list_elem_of_lookup. exists j. by rewrite list_lookup_insert_ne.
Qed.

Lemma set_phase_results r r' ts i t t' : ts !! i = Some t -> is_finished t = false -> is_finished t' = false ->
  phase_degraded (th_phase t') = false -> evidence_log r' = evidence_log r -> session_failover r' = session_failover r ->
  step_verdicts r' = step_verdicts r -> ResultsInv r ts -> ResultsInv r' (<[i := t']> ts).
Proof.
  intros Ht Hf Hf' Hp He Hs Hv [Hc Hfo Hde Hph Hve Hba]. constructor; rewrite ?He, ?Hs, ?Hv; try done.
  - rewrite (sumz_insert (fun t => 1 - alive t)%Z ts i t t') by done. unfold alive at 2 3. rewrite Hf, Hf'. lia.
  - by apply Forall_insert.
Qed.

Lemma advance_inv i s s' : Inv s -> advance i s = Some s' -> Inv s'.
Proof.
  intros (Hp & Hr & Hm) E. unfold advance in E. apply bind_Some in E as (t & Ht & E).
  assert (Hph : phase_degraded (th_phase t) = false) by (destruct Hr as [_ _ _ Hph _ _]; rewrite Forall_lookup in Hph; by apply (Hph i)).
  assert (Hfin : main s = Collected -> is_finished t = true) by (intros Hc; specialize (Hm Hc); rewrite Forall_lookup in Hm; by apply (Hm i)).
  destruct (th_phase t) as [|context|context m d|prompt m d|] eqn:Ep; try discriminate.
  - destruct (read_outputs (results s) (sp_depends (th_plan t))) as [context r] eqn:Er. injection E as <-.
    unfold read_outputs in Er. injection Er as <- <-. assert (is_finished t = false) as Hf by (unfold is_finished; by rewrite Ep).
    split; [|split]; cbn [progress threads results main set_thread set_results].
    + by apply (set_phase_progress _ _ i t _).
    + by apply (set_phase_results (results s) _ _ i t _).
    + intros Hc. by rewrite Hfin in Hf.
  - destruct (model_now (results s) (sp_model (th_plan t))) as [m d] eqn:Er. injection E as <-.
    assert (is_finished t = false) as Hf by (unfold is_finished; by rewrite Ep).
    assert (d = false) as -> by (unfold model_now in Er; destruct Hr as [_ Hfo _ _ _ _]; rewrite Hfo in Er; by injection Er as _ <-).
    split; [|split]; cbn [progress threads results main set_thread].
    + by apply (set_phase_progress _ _ i t _).
    + by apply (set_phase_results (results s) _ _ i t _).
    + intros Hc. by rewrite Hfin in Hf.
  - apply bind_Some in E as (prompt & _ & [= <-]). assert (is_finished t = false) as Hf by (unfold is_finished; by rewrite Ep).
    cbn [phase_degraded] in Hph. split; [|split]; cbn [progress threads results main set_thread].
    + by apply (set_phase_progress _ _ i t _).
    + by apply (set_phase_results (results s) _ _ i t _).
    + intros Hc. by rewrite Hfin in Hf.
Qed.

(** *** Launching *)

Definition bump p i q : Progress :=
  mkProgress (plans p) (<[i := true]> (started p)) (completed p) (completed_count p) (used_slots p + weight_of q).

Lemma can_launch_spec p i q : can_launch p i q = true ->
  started p !! i = Some false /\ deps_met p q = true /\ (used_slots p + weight_of q <= total_slots)%Z.
Proof.
  unfold can_launch. rewrite !andb_true_iff, negb_true_iff, Z.leb_le. intros [[Hs Hd] Hw]. split; [|done].
  destruct (started p !! i) as [b|]; cbn in Hs; by subst.
Qed.

Lemma launch_one_progress p ts i q timeout : plans p !! i = Some q -> can_launch p i q = true -> ProgressInv p ts ->
  ProgressInv (bump p i q) (ts ++ [mkThread q (weight_of q) timeout Launched]).
Proof.
  intros Hq (Hst & Hdep & Hroom)%can_launch_spec [Hl Hs Hb Hc Ho Hn Hth Hd]. set (t := mkThread _ _ _ _).
  assert (started_plans (bump p i q) ≡ₚ q :: started_plans p) as Hsp by (by apply marked_insert).
  constructor; cbn [bump started plans completed completed_count used_slots]; try done.
  - by rewrite length_insert.
  - rewrite fmap_app, sumz_app, Hs. cbn. lia.
  - rewrite fmap_app, sumz_app, Hsp. cbn. lia.
  - rewrite fmap_app. change (th_plan <$> [t]) with [q]. rewrite (Permutation_app_comm (th_plan <$> ts) [q]), Hsp. by apply submseteq_skip.
  - apply Forall_app. split; [done|]. constructor; [|done]. by repeat split.
  - intros q'. rewrite Hsp. intros [->|Hin]%elem_of_cons.
    + right. exists t. rewrite elem_of_app. split; [right; by left|done].
    + destruct (Hd q' Hin) as [?|(t0 & ? & ?)]; [by left|]. right. exists t0. rewrite elem_of_app. naive_solver.
Qed.

Lemma launch_inv sla now i qs new p old new' p' : drop i (plans p) = qs -> ProgressInv p (old ++ new) ->
  launch sla now i qs new p = Some (new', p') ->
  ProgressInv p' (old ++ new') /\ plans p' = plans p /\ completed p' = completed p /\
  (Forall (fun t => th_phase t = Launched) new -> Forall (fun t => th_phase t = Launched) new').
Proof.
  revert i new p. induction qs as [|q qs IH]; intros i new p Hd Hi E; cbn [launch] in E; [by injection E as <- <-|].
  assert (plans p !! i = Some q) as Hq by (rewrite <-(Nat.add_0_r i), <-lookup_drop, Hd; done).
  assert (drop (S i) (plans p) = qs) as Hd' by (replace (S i) with (i + 1)%nat by lia; by rewrite <-drop_drop, Hd).
  destruct (can_launch p i q) eqn:Hc; [|by eapply IH].
  apply bind_Some in E as (timeout & _ & E). eapply IH in E as (Hi' & Hp' & Hc' & Hf).
  - split; [exact Hi'|]. split; [exact Hp'|]. split; [exact Hc'|]. intros Hn. apply Hf. apply Forall_app. split; [done|]. by constructor.
  - exact Hd'.
  - rewrite app_assoc. by apply launch_one_progress.
Qed.

Lemma launched_results r old new : Forall (fun t => th_phase t = Launched) new -> ResultsInv r old -> ResultsInv r (old ++ new).
Proof.
  intros Hn [Hc Hfo Hde Hph Hve Hba]. constructor; try done.
  - rewrite fmap_app, sumz_app, Hc. assert (sumz ((fun t => 1 - alive t)%Z <$> new) = 0%Z) as ->; [|lia].
    induction Hn as [|t new Ht _ IH]; [done|]. rewrite fmap_cons, sumz_cons, IH. unfold alive, is_finished. by rewrite Ht.
  - apply Forall_app. split; [done|]. eapply Forall_impl; [exact Hn|]. cbn. by intros t ->.
Qed.

(** *** Skipping and escalating *)

Lemma skip_rest_progress p ts : ProgressInv p ts -> ProgressInv (skip_rest p) ts.
Proof.
  intros [Hl Hs Hb Hc Ho Hn Hth Hd]. pose proof (length_marked (started p) (plans p) Hl) as Hlen.
  assert (started_plans (skip_rest p) = plans p) as Hsp by apply marked_all. change (unstarted p) with (unmarked (started p) (plans p)) in *.
  pose proof (marked_perm (started p) (plans p) Hl) as Hperm.
  constructor; cbn [skip_rest started plans completed completed_count used_slots]; try done.
  - by rewrite length_replicate.
  - rewrite Hsp. change (unstarted p) with (unmarked (started p) (plans p)). unfold started_plans in Hc. lia.
  - rewrite Hsp. etransitivity; [exact Ho|]. etransitivity; [|apply Permutation_submseteq, Hperm]. by apply submseteq_inserts_r.
  - apply union_least; [done|]. intros n. rewrite elem_of_list_to_set, list_elem_of_fmap. intros (q & -> & Hq).
    apply names_elem. cbn [plans skip_rest]. rewrite <-Hperm. apply elem_of_app. by right.
  - eapply Forall_impl; [exact Hth|]. intros t (Hw & Hdm & Hf). split; [done|]. split; [by eapply deps_met_mono; [|exact Hdm]; cbn; set_solver|].
    intros Ht. apply elem_of_union. left. by apply Hf.
  - intros q. rewrite Hsp, <-Hperm. intros [Hq|Hq]%elem_of_app.
    + destruct (Hd q Hq) as [?|?]; [|by right]. left. apply elem_of_union. by left.
    + left. apply elem_of_union. right. apply elem_of_list_to_set, list_elem_of_fmap. by exists q.
Qed.

Lemma inject_extends u outputs idxs ps r ps' r' : inject u outputs idxs ps r = Some (ps', r') -> exists extra, ps' = ps ++ extra.
Proof.
  revert ps r. induction idxs as [|i idxs IH]; intros ps r E; cbn [inject] in E; [injection E as <- _; exists []; by rewrite app_nil_r|].
  destruct (negb _); [by eapply IH|]. apply bind_Some in E as (step & _ & E). apply bind_Some in E as (agent & _ & E).
  destruct (existsb _ ps); [by eapply IH|]. apply bind_Some in E as ([q r1] & _ & E). apply IH in E as [extra ->].
  exists (mkPlan (lit "Escalation / " ++ agent) (sp_agent q) (sp_task q) (sp_pillar q)
            (List.filter (fun d => bool_decide (is_Some (outputs !! d))) (sp_depends q)) (sp_model q) :: extra). by rewrite <-app_assoc.
Qed.

Lemma extend_progress p ts extra : ProgressInv p ts ->
  ProgressInv (mkProgress (plans p ++ extra) (started p ++ replicate (length extra) false) (completed p) (completed_count p) (used_slots p)) ts.
Proof.
  intros [Hl Hs Hb Hc Ho Hn Hth Hd]. set (p' := mkProgress _ _ _ _ _).
  assert (started_plans p' = started_plans p) as Hsp by (by apply marked_app_false).
  constructor; cbn [p' started plans completed completed_count used_slots]; rewrite ?Hsp; try done.
  - by rewrite !length_app, length_replicate, Hl.
  - intros n Hin. apply Hn in Hin. unfold names in *. cbn [p' plans]. rewrite fmap_app, list_to_set_app. set_solver.
Qed.

Lemma escalate_inv u s s' : Inv s -> main s = Entered -> escalate u s = Some s' -> Inv s' /\ main s' = Entered.
Proof.
  intros (Hp & Hr & Hm) Hmain E. unfold escalate in E. cbn zeta in E.
  destruct (escalation (results s)); [destruct (ci_mode u)|]; [injection E as <-|apply bind_Some in E as ([ps rt] & Hi & [= <-])|injection E as <-];
    (split; [|done]); unfold Inv; cbn [progress threads results main]; split_and!; try done; try (by rewrite Hmain).
  apply inject_extends in Hi as [extra ->]. rewrite length_app. replace (length (plans (progress s)) + length extra - length (plans (progress s)))%nat
    with (length extra) by lia. by apply extend_progress.
Qed.

Lemma iterate_inv u wall now s s' : Inv s -> main s = Entered -> iterate u wall now s = Some s' -> Inv s'.
Proof.
  intros Hi Hmain E. unfold iterate in E. destruct (d_lt (budget_ms (run_sla (flags s))) wall && is_flash u).
  { unfold budget_stop in E. apply bind_Some in E as (gaps & _ & [= <-]). destruct Hi as (Hp & [] & Hm).
    split; [by apply skip_rest_progress|]. by split. }
  destruct (converged_early u s).
  { injection E as <-. destruct Hi as (Hp & Hr & Hm). split; [by apply skip_rest_progress|]. by split. }
  apply bind_Some in E as (s1 & E1 & E).
  assert (Inv s1) as (Hp & Hr & _). { destruct (may_escalate u s); [by eapply escalate_inv|by injection E1 as <-]. }
  apply bind_Some in E as ([ts p] & Hl & [= <-]).
  rewrite <-(app_nil_r (threads s1)) in Hp. apply (launch_inv _ _ _ _ _ _ (threads s1)) in Hl as (Hp' & _ & _ & Hf); [|by rewrite drop_0|done].
  split; [exact Hp'|]. split; [by apply launched_results, Hr; apply Hf|]. cbn [main]. destruct ts; [destruct (_ <? _)%nat|]; discriminate.
Qed.

(** *** Reporting *)

Lemma thread_planned p ts i t : ProgressInv p ts -> ts !! i = Some t -> th_plan t ∈ plans p.
Proof.
  intros Hi Ht. apply (started_in_plans p); [apply Hi|]. eapply elem_of_submseteq; [|apply Hi].
  apply list_elem_of_fmap. exists t. split; [done|]. by eapply list_elem_of_lookup_2.
Qed.

Lemma finish_progress p ts i t : ts !! i = Some t -> is_finished t = false -> ProgressInv p ts ->
  ProgressInv (mkProgress (plans p) (started p) ({[sp_name (th_plan t)]} ∪ completed p) (S (completed_count p)) (used_slots p - th_weight t))
    (<[i := set_phase t Finished]> ts).
Proof.
  intros Ht Hf Hi. pose proof (thread_planned p ts i t Hi Ht) as Hpl. destruct Hi as [Hl Hs Hb Hc Ho Hn Hth Hd].
  set (t' := set_phase t Finished). assert (busy t = th_weight t /\ alive t = 1%Z) as [Eb Ea] by (unfold busy, alive; by rewrite Hf).
  assert (busy t' = 0%Z /\ alive t' = 0%Z) as [Eb' Ea'] by done.
  pose proof (proj1 (Forall_lookup _ _) Hth i t Ht) as (Hw & Hdm & _).
  constructor; cbn [started plans completed completed_count used_slots]; try done.
  - rewrite (sumz_insert busy ts i t t') by done. lia.
  - unfold total_slots in *. rewrite Hw. unfold weight_of. destruct (one_of _ _); lia.
  - change (started_plans _) with (started_plans p). rewrite (sumz_insert alive ts i t t') by done. lia.
  - by rewrite (fmap_plan_insert ts i t t').
  - apply union_least; [|done]. apply singleton_subseteq_l. by apply names_elem.
  - apply Forall_insert.
    + eapply Forall_impl; [exact Hth|]. intros t0 (H1 & H2 & H3). split; [done|]. split.
      * eapply deps_met_mono; [|exact H2]. cbn. set_solver.
      * intros H4. apply elem_of_union. right. by apply H3.
    + split; [exact Hw|]. split; [eapply deps_met_mono; [|exact Hdm]; cbn; set_solver|]. intros _. apply elem_of_union. left. by apply elem_of_singleton.
  - intros q Hq. destruct (Hd q Hq) as [Hin|(t0 & Hin & Hq0 & Hf0)]; [left; apply elem_of_union; by right|].
    apply list_elem_of_lookup in Hin as [j Hj]. destruct (decide (j = i)) as [->|Hne].
    + rewrite Ht in Hj. injection Hj as <-. left. rewrite Hq0. apply elem_of_union. left. by apply elem_of_singleton.
    + right. exists t0. split; [|done]. apply list_elem_of_lookup. exists j. by rewrite list_lookup_insert_ne.
Qed.

Lemma status_agent_verdict raw to d b : agent_verdict (classify_agent_status raw to false d b).
Proof. unfold classify_agent_status. repeat case_match; done. Qed.

Lemma append_evidence r r' ts i t e : ts !! i = Some t -> is_finished t = false -> evidence_log r' = evidence_log r ++ [e] ->
  degraded e = false -> backed e -> session_failover r' = session_failover r -> map_Forall (fun _ v => agent_verdict v) (step_verdicts r') ->
  ResultsInv r ts -> ResultsInv r' (<[i := set_phase t Finished]> ts).
Proof.
  intros Ht Hf He Hde0 Hbe Hs Hv [Hc Hfo Hde Hph Hve Hba]. constructor; rewrite ?He, ?Hs; try done.
  - rewrite (sumz_insert (fun t => 1 - alive t)%Z ts i t) by done. rewrite length_app. cbn [length].
    assert (alive t = 1%Z /\ alive (set_phase t Finished) = 0%Z) as [-> ->] by (unfold alive; by rewrite Hf). lia.
  - apply Forall_app. split; [done|]. by constructor.
  - by apply Forall_insert.
  - apply Forall_app. split; [done|]. by constructor.
Qed.

Lemma finish_inv t m resp retry elapsed i s s' : Inv s -> threads s !! i = Some t -> is_finished t = false ->
  finish t m false resp retry elapsed i s = Some s' -> Inv s'.
Proof.
  intros (Hp & Hr & Hm) Ht Hf E. unfold finish in E. apply bind_Some in E as (r & Er & [= <-]).
  split; [by apply finish_progress|]. split; cbn [results threads main].
  - destruct (pr_success resp || timed_out t resp) eqn:Ew.
    + unfold record_answer in Er. destruct (parse_evidence_depth (pr_output resp)) as [[eb inf] cl] eqn:Ed.
      apply evidence_depth_total in Ed.
      apply bind_Some in Er as (gaps & _ & [= <-]). eapply (append_evidence (results s)); try done; try reflexivity; [unfold backed; cbn; lia|]. cbn [step_verdicts].
      apply map_Forall_insert_2; [apply status_agent_verdict|apply Hr].
    + injection Er as <-. apply orb_false_iff in Ew as [_ Ht']. unfold timed_out in Ht'. apply orb_false_iff in Ht' as [Ht' _].
      apply orb_false_iff in Ht' as [_ Hk]. eapply (append_evidence (results s)); try done; try reflexivity; cbn [record_failure].
      * cbn. by rewrite Hk.
      * apply Hr.
  - intros Hc. specialize (Hm Hc). rewrite Forall_lookup in Hm. rewrite (Hm i t Ht) in Hf. done.
Qed.

Lemma exec_inv u e s s' : Inv s -> exec u e s = Some s' -> Inv s'.
Proof.
  intros Hi E. destruct e as [|wall now| | |i|i resp retry elapsed]; cbn [exec] in E.
  - destruct (main s); try done. injection E as <-. destruct Hi as (Hp & Hr & _). unfold set_main. split; [done|]. split; [done|].
    cbn [main]. by destruct (all_completed (progress s)).
  - destruct (main s) eqn:Em; try done. by eapply iterate_inv.
  - destruct (main s); try done. destruct (_ || _); [|done]. injection E as <-. destruct Hi as (Hp & Hr & _). by split.
  - destruct (main s); try done. destruct (forallb is_finished (threads s)) eqn:Ef; [|done]. injection E as <-.
    destruct Hi as (Hp & Hr & _). split; [done|]. split; [done|]. intros _. cbn [threads set_main]. apply Forall_forall. intros t Ht.
    rewrite forallb_forall in Ef. apply Ef. by apply list_elem_of_In.
  - by eapply advance_inv.
  - apply bind_Some in E as (t & Ht & E). destruct (th_phase t) as [| | |prompt m d|] eqn:Ep; try done.
    assert (d = false) as ->.
    { destruct Hi as (_ & [_ _ _ Hph _ _] & _). rewrite Forall_lookup in Hph. specialize (Hph i t Ht). by rewrite Ep in Hph. }
    eapply finish_inv; [done|exact Ht| |exact E]. unfold is_finished. by rewrite Ep.
Qed.

Lemma start_inv u ps r : Inv (start_run u ps r).
Proof.
  assert (started_plans (progress (start_run u ps r)) = []) as Hsp.
  { unfold started_plans, marked. cbn. induction ps as [|q ps IH]; [done|exact IH]. }
  split; [|split; [|done]].
  - constructor; rewrite ?Hsp; try done; [by cbn; rewrite length_replicate|].
    intros q Hq. exfalso. rewrite ?Hsp in Hq. revert Hq. apply not_elem_of_nil.
  - constructor; try done; cbn; constructor.
Qed.

(** ** Reachable states *)

Definition reachable (u : Setup) (ps : list StepPlan) (r : ProviderRouter) s : Prop := steps (run_step u) (start_run u ps r) s.

Lemma reachable_inv u ps r s : reachable u ps r s -> Inv s.
Proof.
  intros Hs. eapply (steps_invariant (run_step u) Inv); [|exact Hs|apply start_inv]. intros s1 s2 Hi [e He]. by eapply exec_inv.
Qed.

(** C12: the slots in use are those of the threads that have not reported, and at
    most eight; a plan runs at most once, after its dependencies; the plans
    counted as completed and those still running are together exactly the ones
    that were started or skipped, each of which has its name among the
    completed ones or a thread that runs it; and every thread that has
    reported left one piece of evidence. *)
Theorem slots_and_dependencies u ps r s : reachable u ps r s ->
  used_slots (progress s) = sumz (busy <$> threads s) /\ (used_slots (progress s) <= 8)%Z /\
  (th_plan <$> threads s) ⊆+ plans (progress s) /\
  (forall t d, t ∈ threads s -> d ∈ sp_depends (th_plan t) -> d ∈ completed (progress s)) /\
  (Z.of_nat (completed_count (progress s)) + sumz (alive <$> threads s) = Z.of_nat (length (started_plans (progress s))))%Z /\
  (forall q, q ∈ started_plans (progress s) ->
    sp_name q ∈ completed (progress s) \/ exists t, t ∈ threads s /\ th_plan t = q /\ is_finished t = false) /\
  Z.of_nat (length (evidence_log (results s))) = sumz ((fun t => 1 - alive t)%Z <$> threads s).
Proof.
  intros ([Hl Hs Hb Hc Ho Hn Hth Hd] & [He _ _ _ _ _] & _)%reachable_inv. pose proof (length_marked _ _ Hl) as Hlen. split_and!; try done.
  - etransitivity; [exact Ho|]. etransitivity; [|apply Permutation_submseteq, (marked_perm (started (progress s))), Hl].
    by apply submseteq_inserts_r.
  - intros t d Ht Hin. rewrite Forall_forall in Hth. destruct (Hth t Ht) as (_ & Hdm & _). rewrite deps_met_spec in Hdm. by apply Hdm.
Qed.

(** The failover to the local engine is never set: an agent that was killed
    counts as timed out before the failure is looked at. *)
Theorem failover_never_active u ps r s : reachable u ps r s ->
  session_failover (results s) = [] /\ Forall (fun e => degraded e = false) (evidence_log (results s)) /\
  map_Forall (fun _ v => v <> lit "DEGRADED") (step_verdicts (results s)).
Proof.
  intros (_ & [_ Hf Hd _ Hv _] & _)%reachable_inv. split_and!; try done.
  eapply map_Forall_impl; [exact Hv|]. by intros n v Ha ->.
Qed.

(** ** Runs in the standard and the forensic mode *)

Lemma iterate_steady u wall now s : is_flash u = false ->
  iterate u wall now s =
  ('(ts, p) ← launch (run_sla (flags s)) now 0 (plans (progress s)) [] (progress s);
   let wait := match ts with [] => (completed_count p <? n_plans p)%nat | _ => false end in
   Some (mkRun (if wait then Waiting else Looping) (threads s ++ ts) p (flags s) (results s) (run_router s))).
Proof. intros Hu. unfold iterate, converged_early, may_escalate. rewrite Hu, andb_false_r. by cbn. Qed.

(** Nothing is skipped: the plans stay, and the started ones have a thread. *)
Record Steady (ps : list StepPlan) (sla : ModeSLA) s : Prop := mkSteady {
  sd_plans : plans (progress s) = ps;
  sd_threads : (th_plan <$> threads s) ≡ₚ started_plans (progress s);
  sd_end : main s = Joining \/ main s = Collected -> all_completed (progress s) = true;
  sd_sla : run_sla (flags s) = sla;
}.

Lemma launch_threads sla now i qs new p new' p' old : drop i (plans p) = qs -> length (started p) = length (plans p) ->
  (old ++ (th_plan <$> new)) ≡ₚ started_plans p ->
  launch sla now i qs new p = Some (new', p') ->
  (old ++ (th_plan <$> new')) ≡ₚ started_plans p' /\ plans p' = plans p /\ completed_count p' = completed_count p.
Proof.
  revert i new p. induction qs as [|q qs IH]; intros i new p Hd Hl Hp E; cbn [launch] in E; [by injection E as <- <-|].
  assert (plans p !! i = Some q) as Hq by (rewrite <-(Nat.add_0_r i), <-lookup_drop, Hd; done).
  assert (drop (S i) (plans p) = qs) as Hd' by (replace (S i) with (i + 1)%nat by lia; by rewrite <-drop_drop, Hd).
  destruct (can_launch p i q) eqn:Hc; [|by eapply IH].
  apply bind_Some in E as (timeout & _ & E). apply can_launch_spec in Hc as (Hst & _).
  apply IH in E; [exact E|exact Hd'| |]; cbn [plans started]; [by rewrite length_insert|].
  assert (started_plans (bump p i q) ≡ₚ q :: started_plans p) as Hsp by (by apply marked_insert).
  fold (bump p i q). rewrite Hsp, <-Hp, fmap_app. cbn. rewrite app_assoc, <-Permutation_cons_append. done.
Qed.

Lemma steady_step u ps sla s s' : is_flash u = false -> Inv s -> Steady ps sla s -> run_step u s s' -> Steady ps sla s'.
Proof.
  intros Hu Hi [Hps Hth Hend Hsla] [e E]. destruct e as [|wall now| | |i|i resp retry elapsed]; cbn [exec] in E.
  - destruct (main s); try done. injection E as <-. constructor; try done. cbn [main set_main progress].
    destruct (all_completed (progress s)) eqn:Ea; [done|]. intros [|]; done.
  - destruct (main s); try done. rewrite iterate_steady in E by done. apply bind_Some in E as ([ts p] & El & [= <-]).
    destruct Hi as ([Hl _ _ _ _ _ _ _] & _). apply (launch_threads _ _ _ _ _ _ _ _ (th_plan <$> threads s)) in El as (Ht & Hpl & _);
      [|by rewrite drop_0|done|cbn; by rewrite app_nil_r].
    constructor; cbn [progress threads main flags]; [by rewrite Hpl|by rewrite fmap_app| |done].
    destruct ts; [destruct (_ <? _)%nat|]; intros [|]; discriminate.
  - destruct (main s); try done. destruct (_ || _); [|done]. injection E as <-. constructor; try done. cbn. intros [|]; discriminate.
  - destruct (main s) eqn:Em; try done. destruct (forallb _ _); [|done]. injection E as <-. constructor; try done.
    intros _. apply Hend. by left.
  - unfold advance in E. apply bind_Some in E as (t & Ht & E).
    assert (exists t', th_plan t' = th_plan t /\ threads s' = <[i := t']> (threads s) /\ progress s' = progress s /\ main s' = main s /\ flags s' = flags s)
      as (t' & Hp & Et & Ep & Em & Ef).
    { destruct (th_phase t) as [|context|context m d|prompt m d|]; try done.
      - destruct (read_outputs _ _) as [context r]. injection E as <-. by eexists (set_phase t _).
      - destruct (model_now _ _) as [m d]. injection E as <-. by eexists (set_phase t _).
      - apply bind_Some in E as (prompt & _ & [= <-]). by eexists (set_phase t _). }
    constructor; rewrite ?Ep, ?Em, ?Ef, ?Et; try done. by rewrite (fmap_plan_insert _ i t t').
  - apply bind_Some in E as (t & Ht & E). destruct (th_phase t); try done. unfold finish in E. apply bind_Some in E as (r & _ & [= <-]).
    constructor; cbn [progress plans threads main flags]; try done.
    + by rewrite (fmap_plan_insert _ i t).
    + intros Hm. specialize (Hend Hm). unfold all_completed, n_plans in *. cbn [plans completed_count].
      apply Nat.leb_le in Hend. apply Nat.leb_le. lia.
Qed.

Lemma reachable_steady u ps r s : is_flash u = false -> reachable u ps r s -> Inv s /\ Steady ps (get_mode_sla (original_mode u)) s.
Proof.
  intros Hu Hs. eapply (steps_invariant (run_step u) (fun s => Inv s /\ Steady ps _ s)); [|exact Hs|].
  - intros s1 s2 [Hi Hst] Hr. split; [|by eapply steady_step]. destruct Hr as [e He]. by eapply exec_inv.
  - split; [apply start_inv|]. constructor; try done; [|intros [|]; discriminate]. cbn. unfold started_plans, marked. cbn.
    clear Hs. induction ps as [|q ps IH]; [done|exact IH].
Qed.

(** When all plans are counted, every plan was started. *)
Lemma completed_started p ts : ProgressInv p ts -> all_completed p = true -> started_plans p ≡ₚ plans p.
Proof.
  intros [Hl _ _ Hc _ _ _ _] Ha%Nat.leb_le. pose proof (length_marked _ _ Hl) as Hlen. pose proof (marked_perm _ _ Hl) as Hp.
  assert (0 <= sumz (alive <$> ts))%Z as Hge.
  { clear. induction ts as [|t ts IH]; [done|]. rewrite fmap_cons, sumz_cons. unfold alive at 1. destruct (is_finished t); lia. }
  unfold started_plans, n_plans in *. destruct (unmarked (started p) (plans p)) as [|q l] eqn:E; [|cbn in Hlen; lia].
  by rewrite app_nil_r in Hp.
Qed.

(** A step whose dependency is the name of no step is never started, and the
    loop spins forever. *)
Theorem missing_dependency_never_ends u ps r s q d : is_flash u = false -> q ∈ ps -> d ∈ sp_depends q -> d ∉ (sp_name <$> ps) ->
  reachable u ps r s -> main s <> Joining /\ main s <> Collected.
Proof.
  intros Hu Hq Hd Hmiss Hr. destruct (reachable_steady u ps r s Hu Hr) as [(Hi & _ & _) [Hps Hth Hend _]].
  assert (all_completed (progress s) = true -> False) as Hno.
  { intros Ha. pose proof (completed_started _ _ Hi Ha) as Hall. rewrite Hps in Hall. rewrite <-Hall, <-Hth in Hq.
    apply list_elem_of_fmap in Hq as (t & -> & Ht). destruct Hi as [_ _ _ _ _ Hn Hf _].
    rewrite Forall_forall in Hf. destruct (Hf t Ht) as (_ & Hdm & _). rewrite deps_met_spec in Hdm. apply Hdm, Hn in Hd.
    unfold names in Hd. rewrite Hps, elem_of_list_to_set in Hd. done. }
  split; intros Em; apply Hno, Hend; auto.
Qed.
End schedule.
