(* ===== verification/PlaybookEnds.v ===== *)
(** * A run can end, and a run can race

    From every reachable state of a run, in the flash mode or with
    dependencies that name earlier steps, there is a way to its end: no state
    is a deadlock.  And the loop looks at
    its condition outside the lock, so that the same answers lead to an
    escalation or to none. *)

From Stdlib Require Import ZArith Ascii String Lia SpecFloat.
From stdpp Require Import base list gmap strings.
From S2P Require Import Prelude CxxString Lines Doubles Json JsonObjects JsonText ProviderRouter CertGates Verdict Evidence PlaybookPlan.
From S2P Require Import McpBridge ProviderExec PlaybookRun PlaybookSchedule.

Section ends.
Context `{JsonText, !JsonOk}.
Implicit Types (s : Run) (t : Thread) (ts : list Thread) (p : Progress) (i : nat).

(** ** The shared findings can always be read *)

Definition context_good (c : AgentMcpContext) : Prop :=
  forall id e, agent_findings_ c !! id = Some e -> exists v fs d,
    e = object [(lit "agent_id", jstr id); (lit "verdict", jstr v); (lit "findings", jstrs fs); (lit "duration_ms", jdouble d)].

Lemma publish_good c id v fs d : context_good c -> context_good (publish_agent_findings c id v fs d).
Proof.
  intros Hc id' e. cbn [publish_agent_findings agent_findings_]. destruct (decide (id = id')) as [<-|Hne].
  - rewrite lookup_insert_eq. intros [= <-]. by exists v, fs, d.
  - rewrite lookup_insert_ne by done. apply Hc.
Qed.

Lemma summary_total c : context_good c -> is_Some (build_context_summary c).
Proof.
  intros Hc. unfold build_context_summary. destruct (bool_decide _); [by exists []|].
  assert (is_Some (mapM (summary_of c) (agent_order_ c))) as [parts ->]; [|cbn; by eexists].
  apply mapM_is_Some. apply Forall_forall. intros id _. change (is_Some (summary_of c id)). unfold summary_of.
  destruct (agent_findings_ c !! id) as [e|] eqn:E; [|by eexists]. destruct (Hc id e E) as (v & fs & d & ->).
  rewrite value_object, lookup_assoc. cbn [assoc key_eqb fst snd lit list_ascii_of_string Ascii.eqb Bool.eqb andb].
  rewrite get_string_str. cbn [mbind option_bind]. rewrite at_object, lookup_assoc.
  cbn [assoc key_eqb fst snd lit list_ascii_of_string Ascii.eqb Bool.eqb andb].
  unfold jstrs. rewrite array_arr, items_arr. rewrite (mapM_roundtrip jstr) by (intros; apply get_string_str). by eexists.
Qed.

Lemma prompt_total r q context : context_good (agent_context r) -> is_Some (agent_prompt r q context).
Proof.
  intros Hc. unfold agent_prompt. destruct (bool_decide _); [|by eexists]. destruct (summary_total _ Hc) as [x ->]. by eexists.
Qed.

Lemma exec_good u e s s' : context_good (agent_context (results s)) -> exec u e s = Some s' -> context_good (agent_context (results s')).
Proof.
  intros Hg E. destruct e as [|wall now| | |i|i resp retry elapsed]; cbn [exec] in E.
  - destruct (main s); try done. by injection E as <-.
  - destruct (main s); try done. unfold iterate in E. destruct (d_lt _ wall && _).
    { unfold budget_stop in E. by apply bind_Some in E as (g & _ & [= <-]). }
    destruct (converged_early u s); [by injection E as <-|]. apply bind_Some in E as (s1 & E1 & E). apply bind_Some in E as ([ts p] & _ & [= <-]).
    cbn [results]. destruct (may_escalate u s); [|by injection E1 as <-]. unfold escalate in E1. cbn zeta in E1.
    destruct (escalation (results s)); [destruct (ci_mode u); [|apply bind_Some in E1 as ([ps rt] & _ & E1)]|]; by injection E1 as <-.
  - destruct (main s); try done. destruct (_ || _); [|done]. by injection E as <-.
  - destruct (main s); try done. destruct (forallb _ _); [|done]. by injection E as <-.
  - unfold advance in E. apply bind_Some in E as (t & _ & E). destruct (th_phase t); try done.
    + unfold read_outputs in E. by injection E as <-.
    + destruct (model_now _ _). by injection E as <-.
    + by apply bind_Some in E as (pr & _ & [= <-]).
  - apply bind_Some in E as (t & _ & E). destruct (th_phase t); try done. unfold finish in E. apply bind_Some in E as (r & Er & [= <-]).
    cbn [results]. destruct (_ || _); [|by injection Er as <-]. unfold record_answer in Er.
    destruct (parse_evidence_depth _) as [[? ?] ?]. apply bind_Some in Er as (g & _ & [= <-]). by apply publish_good.
Qed.

(** ** Threads can report *)

Definition prompt_answer : ProviderResponse := mkResponse true [] [] 0 d_zero None.

Lemma gap_total q status raw : is_Some (status_gap q status raw d_zero).
Proof.
  unfold status_gap. destruct (bool_decide _); [|destruct (bool_decide _); [by eexists|destruct (bool_decide _); by eexists]].
  change (seconds_text d_zero) with (Some (to_string_Z 0)). by eexists.
Qed.

Definition stage (t : Thread) : nat := match th_phase t with Launched => 4 | HasContext _ => 3 | HasModel _ _ _ => 2 | Executing _ _ _ => 1 | Finished => 0 end.
Definition work (ts : list Thread) : nat := sum_list (stage <$> ts).

Lemma work_insert ts i t t' : ts !! i = Some t -> (work (<[i := t']> ts) + stage t = work ts + stage t')%nat.
Proof.
  unfold work. revert i. induction ts as [|x ts IH]; intros [|i] Ht; [done|done| |].
  - injection Ht as ->. change (<[0%nat := t']> (t :: ts)) with (t' :: ts). rewrite !fmap_cons. cbn. lia.
  - change (<[S i := t']> (x :: ts)) with (x :: <[i := t']> ts). rewrite !fmap_cons. cbn. specialize (IH i Ht). lia.
Qed.

(** What a thread that moves on leaves as it is *)
Definition same_course s s' : Prop :=
  main s' = main s /\ flags s' = flags s /\ plans (progress s') = plans (progress s) /\ started (progress s') = started (progress s).

Lemma thread_moves u s i t : context_good (agent_context (results s)) -> threads s !! i = Some t -> is_finished t = false ->
  exists s', run_step u s s' /\ same_course s s' /\ (work (threads s') < work (threads s))%nat.
Proof.
  intros Hg Ht Hf. assert (forall t', (stage t' < stage t)%nat -> (work (<[i := t']> (threads s)) < work (threads s))%nat) as Hw
    by (intros t' Hlt; pose proof (work_insert (threads s) i t t' Ht); lia).
  unfold is_finished in Hf. destruct (th_phase t) as [|context|context m d|prompt m d|] eqn:Ep; [| | | |done].
  - destruct (read_outputs (results s) (sp_depends (th_plan t))) as [c r] eqn:Er.
    exists (set_thread (set_results s r) i (set_phase t (HasContext c))). split; [apply (RunStep _ _ _ (Advance i)); cbn [exec]; unfold advance|].
    + rewrite Ht. cbn [mbind option_bind]. by rewrite Ep, Er.
    + split; [done|]. apply Hw. unfold stage. rewrite Ep. cbn. lia.
  - destruct (model_now (results s) (sp_model (th_plan t))) as [m d] eqn:Er.
    exists (set_thread s i (set_phase t (HasModel context m d))). split; [apply (RunStep _ _ _ (Advance i)); cbn [exec]; unfold advance|].
    + rewrite Ht. cbn [mbind option_bind]. by rewrite Ep, Er.
    + split; [done|]. apply Hw. unfold stage. rewrite Ep. cbn. lia.
  - destruct (prompt_total (results s) (th_plan t) context Hg) as [prompt Epr].
    exists (set_thread s i (set_phase t (Executing prompt m d))). split; [apply (RunStep _ _ _ (Advance i)); cbn [exec]; unfold advance|].
    + rewrite Ht. cbn [mbind option_bind]. rewrite Ep. by rewrite Epr.
    + split; [done|]. apply Hw. unfold stage. rewrite Ep. cbn. lia.
  - assert (is_Some (finish t m d prompt_answer prompt_answer d_zero i s)) as [s' Es].
    { unfold finish. cbn [pr_success prompt_answer orb]. unfold record_answer. destruct (parse_evidence_depth _) as [[eb inf] cl].
      set (status := classify_agent_status _ _ _ _ _). destruct (gap_total (th_plan t) status (raw_verdict_of (pr_output prompt_answer))) as [g Eg].
      cbn zeta. change (pr_duration prompt_answer) with d_zero in *. fold status. rewrite Eg. by eexists. }
    exists s'. split; [apply (RunStep _ _ _ (Answer i prompt_answer prompt_answer d_zero)); cbn [exec]|].
    + rewrite Ht. cbn [mbind option_bind]. by rewrite Ep.
    + unfold finish in Es. apply bind_Some in Es as (r & _ & [= <-]). split; [done|]. apply Hw. unfold stage. rewrite Ep. cbn. lia.
Qed.

Lemma alive_thread ts : (exists i t, ts !! i = Some t /\ is_finished t = false) \/ forallb is_finished ts = true.
Proof.
  induction ts as [|t ts [(i & t' & Hi & Ht)|IH]]; [by right|left; by exists (S i), t'|].
  destruct (is_finished t) eqn:E; [right; cbn; by rewrite E|left; by exists 0%nat, t].
Qed.

(** All threads can report without anything else happening. *)
Lemma drain u s : context_good (agent_context (results s)) ->
  exists s', steps (run_step u) s s' /\ same_course s s' /\ forallb is_finished (threads s') = true /\ context_good (agent_context (results s')).
Proof.
  remember (work (threads s)) as n eqn:En. revert s En. induction (lt_wf n) as [n _ IH]. intros s -> Hg.
  destruct (alive_thread (threads s)) as [(i & t & Ht & Hf)|Hall]; [|exists s; repeat split; done || constructor].
  destruct (thread_moves u s i t Hg Ht Hf) as (s1 & Hstep & Hc1 & Hlt).
  assert (context_good (agent_context (results s1))) as Hg1 by (destruct Hstep as [e He]; by eapply exec_good).
  destruct (IH _ Hlt s1 eq_refl Hg1) as (s2 & Hs & (E1 & E2 & E3 & E4) & Hf2 & Hg2). destruct Hc1 as (K1 & K2 & K3 & K4).
  exists s2. split; [by eapply steps_cons|]. split; [|done]. unfold same_course. by rewrite E1, E2, E3, E4.
Qed.

(** ** The loop moves on *)

(** Dependencies are names of earlier steps. *)
Definition ordered (ps : list StepPlan) : Prop :=
  forall i q d, ps !! i = Some q -> d ∈ sp_depends q -> exists j q', (j < i)%nat /\ ps !! j = Some q' /\ sp_name q' = d.

Lemma first_unstarted {A} (bs : list bool) (l : list A) : length bs = length l -> unmarked bs l <> [] ->
  exists i a, bs !! i = Some false /\ l !! i = Some a /\ forall j, (j < i)%nat -> bs !! j = Some true.
Proof.
  revert l. induction bs as [|b bs IH]; intros [|a l] Hl Hu; try done. injection Hl as Hl. destruct b.
  - destruct (IH l Hl) as (i & x & Hi & Hx & Hbe); [exact Hu|]. exists (S i), x. split; [done|]. split; [done|].
    intros [|j] Hj; [done|]. apply Hbe. lia.
  - exists 0%nat, a. split; [done|]. split; [done|]. intros j Hj. lia.
Qed.

Lemma marked_lookup {A} (bs : list bool) (l : list A) i a : bs !! i = Some true -> l !! i = Some a -> a ∈ marked bs l.
Proof.
  revert l i. induction bs as [|b bs IH]; intros [|x l] [|i] Hb Ha; try done.
  - injection Hb as ->. injection Ha as ->. by left.
  - unfold marked. cbn. destruct b; [right|]; by apply (IH l i).
Qed.

Definition steady_clock : nat -> double := fun _ => d_zero.

Lemma timeout_total mode : is_Some (agent_timeout (get_mode_sla mode) d_zero).
Proof. unfold get_mode_sla. destruct (bool_decide _); [|destruct (bool_decide _)]; eexists; vm_compute; reflexivity. Qed.

Lemma launch_total sla i qs ts p : is_Some (agent_timeout sla d_zero) -> exists new p', launch sla steady_clock i qs ts p = Some (ts ++ new, p').
Proof.
  intros [tm Et]. revert i ts p. induction qs as [|q qs IH]; intros i ts p; cbn [launch]; [exists [], p; by rewrite app_nil_r|].
  destruct (can_launch p i q); [|apply IH]. change (steady_clock i) with d_zero. rewrite Et. cbn [mbind option_bind].
  destruct (IH (S i) (ts ++ [mkThread q (weight_of q) tm Launched]) (bump p i q)) as (new & p' & E). unfold bump in E. rewrite E.
  exists (mkThread q (weight_of q) tm Launched :: new), p'. by rewrite <-app_assoc.
Qed.

(** The first plan that was not started is launched when its turn comes. *)
Lemma launch_first sla k i q p : is_Some (agent_timeout sla d_zero) ->
  (forall j, (k <= j < i)%nat -> started p !! j = Some true) -> (k <= i)%nat -> plans p !! i = Some q -> can_launch p i q = true ->
  exists t new p', launch sla steady_clock k (drop k (plans p)) [] p = Some (t :: new, p').
Proof.
  intros Ht. remember (i - k)%nat as n eqn:En. revert k En. induction n as [|n IH]; intros k En Hst Hk Hq Hc.
  - assert (k = i) as -> by lia. rewrite (drop_S _ q) by done. cbn [launch]. rewrite Hc. destruct Ht as [tm Et].
    change (steady_clock i) with d_zero. rewrite Et. cbn [mbind option_bind app].
    destruct (launch_total sla (S i) (drop (S i) (plans p)) [mkThread q (weight_of q) tm Launched] (bump p i q)) as (new & p' & E); [by eexists|].
    unfold bump in E. rewrite E. by eexists _, _, _.
  - assert (is_Some (plans p !! k)) as [q' Hq'] by (apply lookup_lt_is_Some; apply lookup_lt_Some in Hq; lia).
    rewrite (drop_S _ q') by done. cbn [launch]. assert (can_launch p k q' = false) as ->.
    { unfold can_launch. rewrite (Hst k) by lia. done. }
    apply IH; [lia| |lia|done|done]. intros j Hj. apply Hst. lia.
Qed.

Definition Good (u : Setup) (ps : list StepPlan) s : Prop :=
  Inv s /\ Steady ps (get_mode_sla (original_mode u)) s /\ context_good (agent_context (results s)).

Lemma good_step u ps s s' : is_flash u = false -> Good u ps s -> run_step u s s' -> Good u ps s'.
Proof.
  intros Hu (Hi & Hs & Hc) Hr. destruct Hr as [e He] eqn:Eq. split; [by eapply exec_inv|]. split; [by eapply steady_step|by eapply exec_good].
Qed.
Lemma good_steps u ps s s' : is_flash u = false -> Good u ps s -> steps (run_step u) s s' -> Good u ps s'.
Proof. intros Hu Hg Hs. revert Hg. eapply steps_invariant; [|exact Hs]. intros a b Ha Hr. by eapply good_step. Qed.

(** All threads have reported *)
Definition quiet s : Prop := forallb is_finished (threads s) = true.

Lemma quiet_slots s : Inv s -> quiet s -> used_slots (progress s) = 0%Z.
Proof.
  intros ([_ Hs _ _ _ _ _ _] & _) Hq. rewrite Hs. unfold quiet in Hq. clear Hs. induction (threads s) as [|t ts IH]; [done|].
  cbn in Hq. apply andb_true_iff in Hq as [Ht Hq]. rewrite fmap_cons, sumz_cons, (IH Hq). unfold busy. by rewrite Ht.
Qed.

Lemma quiet_completed s q : Inv s -> quiet s -> q ∈ started_plans (progress s) -> sp_name q ∈ completed (progress s).
Proof.
  intros ([_ _ _ _ _ _ _ Hd] & _) Hq Hin. destruct (Hd q Hin) as [?|(t & Ht & _ & Hf)]; [done|].
  unfold quiet in Hq. rewrite forallb_forall in Hq. rewrite Hq in Hf; [done|]. by apply list_elem_of_In.
Qed.

Lemma quiet_launchable u ps s : ordered ps -> Good u ps s -> quiet s -> all_completed (progress s) = false ->
  exists i q, plans (progress s) !! i = Some q /\ can_launch (progress s) i q = true /\ forall j, (j < i)%nat -> started (progress s) !! j = Some true.
Proof.
  intros Ho (Hi & [Hps _ _ _] & _) Hq Ha. pose proof Hi as ([Hl _ _ Hc _ _ _ _] & _).
  destruct (first_unstarted (started (progress s)) (plans (progress s)) Hl) as (i & q & Hb & Hpl & Hbefore).
  - intros E. pose proof (length_marked _ _ Hl) as Hlen. rewrite E in Hlen. unfold all_completed, n_plans in Ha. apply Nat.leb_gt in Ha.
    assert (sumz (alive <$> threads s) = 0%Z) as Hz.
    { unfold quiet in Hq. clear -Hq. induction (threads s) as [|t ts IH]; [done|]. cbn in Hq. apply andb_true_iff in Hq as [Ht Hq].
      rewrite fmap_cons, sumz_cons, (IH Hq). unfold alive. by rewrite Ht. }
    unfold started_plans in Hc. cbn in Hlen. lia.
  - exists i, q. split; [done|]. split; [|done]. unfold can_launch. rewrite Hb. cbn [default from_option id negb andb].
    apply andb_true_iff. split.
    + apply deps_met_spec. intros d Hd. rewrite Hps in Hpl. destruct (Ho i q d Hpl Hd) as (j & q' & Hj & Hq' & <-).
      apply quiet_completed; [done|done|]. eapply marked_lookup; [by apply Hbefore|by rewrite Hps].
    + rewrite (quiet_slots s Hi Hq). unfold weight_of, total_slots. by destruct (one_of _ _).
Qed.

Lemma enter_step u ps s : is_flash u = false -> ordered ps -> Good u ps s -> quiet s -> main s = Entered ->
  exists s', run_step u s s' /\
    ((main s' = Looping /\ quiet s' /\ all_completed (progress s') = true) \/
     (length (started_plans (progress s)) < length (started_plans (progress s')))%nat).
Proof.
  intros Hu Ho Hg Hq Hm. pose proof Hg as (Hi & [Hps Hth Hend Hsla] & _). pose proof Hi as ([Hl _ _ _ _ _ _ _] & _).
  assert (is_Some (agent_timeout (run_sla (flags s)) d_zero)) as Ht by (rewrite Hsla; apply timeout_total).
  destruct (launch_total (run_sla (flags s)) 0 (plans (progress s)) [] (progress s) Ht) as (new & p' & El). cbn [app] in El.
  assert ((th_plan <$> threads s) ++ (th_plan <$> ([] : list Thread)) ≡ₚ started_plans (progress s)) as Hold by (cbn; by rewrite app_nil_r).
  pose proof (launch_threads _ _ _ _ _ _ _ _ _ (drop_0 _) Hl Hold El) as (Hperm & Hpl & Hcount).
  eexists. split; [apply (RunStep _ _ _ (Iterate d_zero steady_clock)); cbn [exec]; rewrite Hm, iterate_steady by done; rewrite El; reflexivity|].
  cbn [main progress]. destruct (all_completed (progress s)) eqn:Ea.
  - left. pose proof (completed_started _ _ (proj1 Hi) Ea) as Hall. assert (new = []) as ->.
    { apply Permutation_length in Hperm. rewrite length_app, Hth, length_fmap in Hperm. apply Permutation_length in Hall.
      assert (length (started_plans p') <= length (plans p'))%nat as Hle.
      { assert (ProgressInv (progress s) (threads s ++ [])) as Hi0 by (rewrite app_nil_r; exact (proj1 Hi)).
        pose proof (launch_inv _ _ _ _ _ _ _ _ _ (drop_0 _) Hi0 El) as ([Hl' _ _ _ _ _ _ _] & _). pose proof (length_marked _ _ Hl'). unfold started_plans. lia. }
      rewrite Hpl in Hle. destruct new; [done|]. cbn in Hperm. lia. }
    unfold all_completed, n_plans in *. rewrite Hcount, Hpl. apply Nat.leb_le in Ea. rewrite (proj2 (Nat.ltb_ge _ _)) by lia.
    split; [done|]. split; [unfold quiet; cbn [threads]; by rewrite app_nil_r|]. by apply Nat.leb_le.
  - right. destruct (quiet_launchable u ps s Ho Hg Hq Ea) as (i & q & Hq1 & Hc & Hb).
    destruct (launch_first (run_sla (flags s)) 0 i q (progress s) Ht) as (t & new' & p'' & E2); [intros j Hj; apply Hb; lia|lia|done|done|].
    rewrite drop_0, El in E2. injection E2 as -> _. apply Permutation_length in Hperm. rewrite length_app, Hth in Hperm. cbn in Hperm. lia.
Qed.

(** ** The end *)

Definition ends (u : Setup) s : Prop := exists s', steps (run_step u) s s' /\ main s' = Collected.

Lemma ends_step u s s' : run_step u s s' -> ends u s' -> ends u s.
Proof. intros Hr (s2 & Hs & Hm). exists s2. split; [by eapply steps_cons|done]. Qed.

Lemma joining_ends u s : quiet s -> main s = Joining -> ends u s.
Proof.
  intros Hq Hm. exists (set_main s Collected). split; [|done]. apply steps_one. apply (RunStep _ _ _ Join). cbn [exec].
  unfold quiet in Hq. by rewrite Hm, Hq.
Qed.

Lemma completed_ends u s : quiet s -> main s = Looping -> all_completed (progress s) = true -> ends u s.
Proof.
  intros Hq Hm Ha. eapply ends_step; [apply (RunStep _ _ (set_main s Joining) Test); cbn [exec]; by rewrite Hm, Ha|]. by apply joining_ends.
Qed.

Lemma steady_can_finish u ps r s : is_flash u = false -> ordered ps -> reachable u ps r s ->
  exists s', steps (run_step u) s s' /\ main s' = Collected /\ length (evidence_log (results s')) = length ps.
Proof.
  intros Hu Ho Hr. assert (Good u ps s) as Hg.
  { destruct (reachable_steady u ps r s Hu Hr) as [Hi Hs]. split; [done|]. split; [done|].
    eapply (steps_invariant (run_step u) (fun s => context_good (agent_context (results s)))); [|exact Hr|done].
    intros a b Ha [e He]. by eapply exec_good. }
  assert (ends u s) as (s' & Hs' & Hm').
  2: { exists s'. split; [done|]. split; [done|]. destruct (good_steps u ps s s' Hu Hg Hs') as ((Hp & [Hc _ _ _ _ _] & Hf) & [Hps Hth Hend _] & _).
    specialize (Hf Hm'). pose proof (completed_started _ _ Hp (Hend (or_intror Hm'))) as Hall. rewrite Hps in Hall.
    apply Permutation_length in Hall. apply Permutation_length in Hth. rewrite length_fmap in Hth.
    assert (sumz ((fun t => 1 - alive t)%Z <$> threads s') = Z.of_nat (length (threads s'))) as Hz.
    { clear -Hf. induction Hf as [|t ts Ht _ IH]; [done|]. rewrite fmap_cons, sumz_cons, IH. unfold alive. rewrite Ht. cbn [length]. lia. }
    lia. }
  clear Hr. remember (length ps - length (started_plans (progress s)))%nat as n eqn:En. revert s En Hg.
  induction (lt_wf n) as [n _ IH]. intros s -> Hg. destruct (drain u s (proj2 (proj2 Hg))) as (s1 & Hs1 & (E1 & E2 & E3 & E4) & Hq & _).
  pose proof (good_steps u ps s s1 Hu Hg Hs1) as Hg1.
  assert (length (started_plans (progress s1)) = length (started_plans (progress s))) as Hsame by (unfold started_plans; by rewrite E3, E4).
  assert (ends u s1 -> ends u s) as Hback by (intros (s2 & ? & ?); exists s2; split; [by eapply steps_app|done]). apply Hback.
  assert (forall s2, steps (run_step u) s1 s2 -> started_plans (progress s2) = started_plans (progress s1) -> quiet s2 -> main s2 = Entered -> ends u s2) as Henter.
  { intros s2 H12 Hsp Hq2 Hm2. pose proof (good_steps u ps s1 s2 Hu Hg1 H12) as Hg2.
    destruct (enter_step u ps s2 Hu Ho Hg2 Hq2 Hm2) as (s3 & H23 & [(Hm3 & Hq3 & Ha3)|Hlt]); (eapply ends_step; [exact H23|]).
    - by apply completed_ends.
    - pose proof (good_step u ps s2 s3 Hu Hg2 H23) as Hg3. eapply IH; [|reflexivity|exact Hg3].
      assert (length (started_plans (progress s3)) <= length ps)%nat.
      { destruct Hg3 as (([Hl _ _ _ _ _ _ _] & _) & [Hps _ _ _] & _). pose proof (length_marked _ _ Hl). rewrite Hps in *. unfold started_plans. rewrite Hps. lia. }
      rewrite Hsp, Hsame in Hlt. lia. }
  assert (forall s2, steps (run_step u) s1 s2 -> started_plans (progress s2) = started_plans (progress s1) -> quiet s2 -> main s2 = Looping -> ends u s2) as Hloop.
  { intros s2 H12 Hsp Hq2 Hm2. destruct (all_completed (progress s2)) eqn:Ea; [by apply completed_ends|].
    assert (run_step u s2 (set_main s2 Entered)) as Hst by (apply (RunStep _ _ _ Test); cbn [exec]; by rewrite Hm2, Ea).
    eapply ends_step; [exact Hst|]. apply Henter; [by eapply steps_snoc|exact Hsp|exact Hq2|done]. }
  destruct (main s1) eqn:Em.
  - apply Hloop; [constructor|done..].
  - apply Henter; [constructor|done..].
  - assert (run_step u s1 (set_main s1 Looping)) as Hst.
    { apply (RunStep _ _ _ Wake). cbn [exec]. rewrite Em, (quiet_slots s1 (proj1 Hg1) Hq). by rewrite orb_true_r. }
    eapply ends_step; [exact Hst|]. apply Hloop; [by apply steps_one|done|exact Hq|done].
  - by apply joining_ends.
  - exists s1. split; [constructor|done].
Qed.

(** *** The flash mode: the budget ends the run *)

Definition all_started s : Prop := main s = Joining \/ main s = Collected -> started_plans (progress s) ≡ₚ plans (progress s).
Definition known_sla s : Prop := exists mode, run_sla (flags s) = get_mode_sla mode.

Lemma iterate_started u wall now s s' : iterate u wall now s = Some s' -> all_started s'.
Proof.
  intros E. unfold iterate in E. destruct (d_lt _ wall && _).
  { unfold budget_stop in E. apply bind_Some in E as (g & _ & [= <-]). intros _. cbn [progress]. by rewrite (marked_all (plans (progress s)) : started_plans (skip_rest (progress s)) = _). }
  destruct (converged_early u s).
  { injection E as <-. intros _. cbn [progress early_stop]. by rewrite (marked_all (plans (progress s)) : started_plans (skip_rest (progress s)) = _). }
  apply bind_Some in E as (s1 & _ & E). apply bind_Some in E as ([ts p] & _ & [= <-]). intros Hm. cbn [main] in Hm.
  destruct ts; [destruct (_ <? _)%nat|]; destruct Hm; discriminate.
Qed.

Lemma escalate_sla u s s' : known_sla s -> escalate u s = Some s' -> known_sla s'.
Proof.
  intros Hk E. unfold escalate in E. cbn zeta in E.
  destruct (escalation (results s)); [destruct (ci_mode u); [|apply bind_Some in E as ([ps rt] & _ & E)]|]; injection E as <-; [done| |done].
  by eexists.
Qed.

Lemma exec_started u e s s' : Inv s -> all_started s /\ known_sla s -> exec u e s = Some s' -> all_started s' /\ known_sla s'.
Proof.
  intros Hi [Ha Hk] E. destruct e as [|wall now| | |i|i resp retry elapsed]; cbn [exec] in E.
  - destruct (main s); try done. injection E as <-. split; [|exact Hk]. intros Hm. cbn [main set_main progress] in *.
    destruct (all_completed (progress s)) eqn:Ec; [by eapply completed_started; [apply Hi|]|by destruct Hm].
  - destruct (main s); try done. split; [by eapply iterate_started|]. unfold iterate in E. destruct (d_lt _ wall && _).
    { unfold budget_stop in E. by apply bind_Some in E as (g & _ & [= <-]). }
    destruct (converged_early u s); [by injection E as <-|]. apply bind_Some in E as (s1 & E1 & E). apply bind_Some in E as ([ts p] & _ & [= <-]).
    destruct (may_escalate u s); [by eapply escalate_sla in E1|by injection E1 as <-].
  - destruct (main s); try done. destruct (_ || _); [|done]. injection E as <-. split; [|exact Hk]. by intros [|].
  - destruct (main s) eqn:Em; try done. destruct (forallb _ _); [|done]. injection E as <-. split; [|exact Hk]. intros _. apply Ha. by left.
  - unfold advance in E. apply bind_Some in E as (t & _ & E). destruct (th_phase t); try done.
    + unfold read_outputs in E. by injection E as <-.
    + destruct (model_now _ _). by injection E as <-.
    + by apply bind_Some in E as (pr & _ & [= <-]).
  - apply bind_Some in E as (t & _ & E). destruct (th_phase t); try done. unfold finish in E. by apply bind_Some in E as (r & _ & [= <-]).
Qed.

Definition Ready s : Prop := Inv s /\ (all_started s /\ known_sla s) /\ context_good (agent_context (results s)).

Lemma ready_steps u s s' : steps (run_step u) s s' -> Ready s -> Ready s'.
Proof.
  intros Hs. eapply (steps_invariant (run_step u) Ready); [|exact Hs]. intros a b (Hi & Ha & Hg) [e He].
  split; [by eapply exec_inv|]. split; [by eapply exec_started|by eapply exec_good].
Qed.
Lemma reachable_ready u ps r s : reachable u ps r s -> Ready s.
Proof.
  intros Hr. eapply ready_steps; [exact Hr|]. split; [apply start_inv|]. split; [|done]. split; [by intros [|]|by eexists].
Qed.

(** A reading of the clock beyond every budget *)
Definition late : double := d_of_Z 2000000.
Lemma late_exceeds s : known_sla s -> d_lt (budget_ms (run_sla (flags s))) late = true.
Proof. intros [mode ->]. unfold get_mode_sla. destruct (bool_decide _); [|destruct (bool_decide _)]; vm_compute; reflexivity. Qed.
Lemma budget_stop_total s : exists s', budget_stop late s = Some s' /\ main s' = Joining /\ threads s' = threads s.
Proof.
  unfold budget_stop. assert (seconds_text late = Some (to_string_Z 2000)) as E by (vm_compute; reflexivity). rewrite E.
  cbn [mbind option_bind]. set (f := fun q : StepPlan => Some _).
  assert (is_Some (mapM f (unstarted (progress s)))) as [gaps Eg] by (apply mapM_is_Some, Forall_forall; intros q _; by eexists).
  rewrite Eg. by eexists.
Qed.

Lemma flash_can_finish u s : is_flash u = true -> Ready s -> ends u s.
Proof.
  intros Hu Hr. destruct (drain u s (proj2 (proj2 Hr))) as (s1 & Hs1 & _ & Hq & _). pose proof (ready_steps _ _ _ Hs1 Hr) as Hr1.
  assert (ends u s1 -> ends u s) as Hback by (intros (s2 & ? & ?); exists s2; split; [by eapply steps_app|done]). apply Hback.
  assert (forall s2, Ready s2 -> quiet s2 -> main s2 = Entered -> ends u s2) as Henter.
  { intros s2 (_ & (_ & Hk) & _) Hq2 Hm2. destruct (budget_stop_total s2) as (s3 & E3 & Hm3 & Ht3).
    eapply ends_step; [apply (RunStep _ _ s3 (Iterate late steady_clock)); cbn [exec]; rewrite Hm2; unfold iterate; by rewrite late_exceeds, Hu by done|].
    apply joining_ends; [unfold quiet; by rewrite Ht3|done]. }
  assert (forall s2, Ready s2 -> quiet s2 -> main s2 = Looping -> ends u s2) as Hloop.
  { intros s2 Hr2 Hq2 Hm2. destruct (all_completed (progress s2)) eqn:Ea; [by apply completed_ends|].
    assert (run_step u s2 (set_main s2 Entered)) as Hst by (apply (RunStep _ _ _ Test); cbn [exec]; by rewrite Hm2, Ea).
    eapply ends_step; [exact Hst|]. apply Henter; [|exact Hq2|done]. eapply ready_steps; [by apply steps_one|done]. }
  destruct (main s1) eqn:Em.
  - by apply Hloop.
  - by apply Henter.
  - assert (run_step u s1 (set_main s1 Looping)) as Hst.
    { apply (RunStep _ _ _ Wake). cbn [exec]. rewrite Em, (quiet_slots s1 (proj1 Hr1) Hq). by rewrite orb_true_r. }
    eapply ends_step; [exact Hst|]. apply Hloop; [|exact Hq|done]. eapply ready_steps; [by apply steps_one|done].
  - by apply joining_ends.
  - exists s1. split; [constructor|done].
Qed.

Lemma collected_all s : Ready s -> main s = Collected -> all_completed (progress s) = true.
Proof.
  intros (([Hl _ _ Hc _ _ _ _] & _ & Hf) & (Ha & _) & _) Hm. specialize (Ha (or_intror Hm)). apply Permutation_length in Ha.
  assert (sumz (alive <$> threads s) = 0%Z) as Hz.
  { specialize (Hf Hm). clear -Hf. induction Hf as [|t ts Ht _ IH]; [done|]. rewrite fmap_cons, sumz_cons, IH. unfold alive. by rewrite Ht. }
  unfold all_completed, n_plans. apply Nat.leb_le. lia.
Qed.

(** C13: no state is a deadlock: in the flash mode, and in the other modes when
    dependencies name earlier steps, there is from every reachable state a way
    to the end, where every step has reported or was skipped; outside the
    flash mode none is skipped, and every step of the playbook has left its
    evidence. *)
Theorem run_can_finish u ps r s : is_flash u = true \/ ordered ps -> reachable u ps r s ->
  exists s', steps (run_step u) s s' /\ main s' = Collected /\ all_completed (progress s') = true /\
    (is_flash u = false -> length (evidence_log (results s')) = length ps).
Proof.
  intros Ho Hr. pose proof (reachable_ready u ps r s Hr) as Hg. destruct (is_flash u) eqn:Hu.
  - destruct (flash_can_finish u s Hu Hg) as (s' & Hs & Hm). exists s'. split; [done|]. split; [done|]. split; [|done].
    apply collected_all; [by eapply ready_steps|done].
  - destruct Ho as [|Ho]; [done|]. destruct (steady_can_finish u ps r s Hu Ho Hr) as (s' & Hs & Hm & Hl). exists s'.
    split; [done|]. split; [done|]. split; [|done]. apply collected_all; [by eapply ready_steps|done].
Qed.
End ends.

Lemma exec_all_steps `{JsonText} u es s s' : exec_all u es s = Some s' -> steps (run_step u) s s'.
Proof.
  revert s. induction es as [|e es IH]; intros s E; cbn [exec_all] in E; [injection E as <-; constructor|].
  apply bind_Some in E as (s1 & E1 & E). eapply steps_cons; [by apply (RunStep u _ _ e)|by apply IH].
Qed.

Lemma exec_all_reaches `{JsonText} u es s : bool_decide (is_Some (exec_all u es s)) = true -> steps (run_step u) s (default s (exec_all u es s)).
Proof.
  intros Hok. apply bool_decide_eq_true in Hok as [s' E]. rewrite E. by apply (exec_all_steps u es).
Qed.

(** ** The race *)

Section race.
Local Existing Instances TreeJson.json TreeJson.text.

(** The steps of a manifest, as the flash mode sees them *)
Definition sample_agents : list string :=
  ["librarian"; "writer"; "planner"; "architect"; "optimizer"; "tester"; "auditor"; "analyst"; "sentinel"; "release"; "reviewer"]%string.
Definition sample_steps : jv := jarr ((fun a => object [(lit "name", jstr (lit a)); (lit "agent", jstr (lit a))]) <$> sample_agents).
Definition sample_setup (mode : string) : Setup := mkSetup (lit mode) (lit "goal") false sample_steps (fun _ => None) (fun _ _ => false) desk.
Definition sample_plans (mode : string) : list StepPlan :=
  default [] (fst <$> (st ← active_steps (lit mode) sample_steps;
    build_plans (fun _ => None) (fun _ _ => false) desk st (lit mode) (lit "goal") desk_router)).
Definition says (text : string) : ProviderResponse := mkResponse true (lit text) [] 0 d_zero None.
Definition triage_start : Run := start_run (sample_setup "flash") (sample_plans "flash") desk_router.

(** Both agents run and the first has answered; the loop is about to look at
    its condition. *)
Definition triage_events : list Event :=
  [Test; Iterate d_zero steady_clock; Advance 0; Advance 0; Advance 0; Advance 1; Advance 1; Advance 1; Test; Iterate d_zero steady_clock;
   Answer 0 (says "VERDICT: PASS") (says "") d_zero; Wake]%nat.
Definition last_answer : Event := Answer 1%nat (says "VERDICT: FAIL") (says "") d_zero.
Definition half_way : Run := default triage_start (exec_all (sample_setup "flash") triage_events triage_start).

(** The second agent contradicts the first.  If it reports before the loop
    looks at the condition the run ends; if it reports after that and before
    the loop takes the lock, the run escalates to the standard mode. *)
Theorem escalation_is_a_race :
  reachable (sample_setup "flash") (sample_plans "flash") desk_router half_way /\
  (fun s => (main s, escalated (flags s), length (plans (progress s)))) <$>
    exec_all (sample_setup "flash") [last_answer; Test; Join] half_way = Some (Collected, false, 2%nat) /\
  (fun s => (escalated (flags s), length (plans (progress s)))) <$>
    exec_all (sample_setup "flash") [Test; last_answer; Iterate d_zero steady_clock] half_way = Some (true, 6%nat).
Proof.
  split; [|split; vm_compute; reflexivity]. apply (exec_all_reaches (sample_setup "flash") triage_events triage_start). vm_compute. reflexivity.
Qed.
End race.
