(* ===== verification/PillarChecks.v ===== *)
(** * The project's own evidence: the checks of [apps/cli/src/cmd/fleet.cpp]

    Beside the agents a playbook run asks the project itself: the verifiers of
    the claims, and the built-in checks of the testing and security pillars.
    They read the files and run programs, a [Project], an argument of every
    check. *)

From Stdlib Require Import ZArith Ascii String Lia.
From stdpp Require Import base list gmap strings.
From S2P Require Import Prelude CxxString Lines Doubles Paths Json RuntimeConfig CertGates Evidence.

(** A program runs under a timeout in seconds and takes a time in
    milliseconds. *)
Record Project : Type := mkProject {
  host : World; run_for : str -> list str -> Z -> ProcessResult * double; last_write_time : path -> Z;
}.
Definition has (pr : Project) (root : path) (p : string) : bool := check_file (host pr) root p.
Definition has_any (pr : Project) (root : path) (l : list string) : bool := existsb (has pr root) l.

(** ** The verifiers of the claims *)

Definition Verifier : Type := str * list str.
Definition verifier (name : string) (cmd : list string) : Verifier := (lit name, lit <$> cmd).
Definition listed (b : bool) (l : list Verifier) : list Verifier := if b then l else [].

Definition node_verifier (pr : Project) (root : path) : Verifier :=
  if has pr root "node_modules/.bin/jest" then verifier "jest" ["npx"; "jest"; "--passWithNoTests"; "--silent"]
  else if has pr root "node_modules/.bin/vitest" then verifier "vitest" ["npx"; "vitest"; "run"; "--reporter=verbose"]
  else verifier "npm-test" ["npm"; "test"; "--if-present"].
Definition cmake_verifier (pr : Project) (root : path) : Verifier :=
  verifier "cmake-build" ["cmake"; "--build"; if has pr root "cmake-build/Makefile" then "cmake-build" else "build"; "--target"; "all"].
Definition detected_verifiers (pr : Project) (root : path) : list Verifier :=
  let verifiers :=
    listed (has pr root "Cargo.toml")
      [verifier "cargo-check" ["cargo"; "check"; "--quiet"]; verifier "cargo-test" ["cargo"; "test"; "--quiet"; "--no-fail-fast"]] ++
    listed (has pr root "package.json") [node_verifier pr root] ++
    listed (has pr root "go.mod")
      [verifier "go-vet" ["go"; "vet"; "./..."]; verifier "go-test" ["go"; "test"; "-count=1"; "-short"; "./..."]] ++
    listed (has_any pr root ["pyproject.toml"; "setup.py"; "requirements.txt"] && has_any pr root ["pytest.ini"; "pyproject.toml"])
      [verifier "pytest" ["python"; "-m"; "pytest"; "-q"; "--tb=no"]] ++
    listed (has pr root "CMakeLists.txt" && has_any pr root ["build/Makefile"; "cmake-build/Makefile"]) [cmake_verifier pr root] in
  match verifiers with
  | [] => listed (has pr root "Makefile") [verifier "make-check" ["make"; "check"]]
  | _ => verifiers
  end.

(** [config]: the configuration of the project, [None] if it does not load. *)
Definition detect_project_verifiers (pr : Project) (config : option RuntimeConfig) (root : path) : list Verifier :=
  match verify_commands <$> config with
  | Some (v :: l) => (fun c => (v_name c, v_command c)) <$> (v :: l)
  | _ => detected_verifiers pr root
  end.

Record VerificationResult : Type := mkVerification {
  check_name : str; vr_command : str; vr_success : bool; vr_duration_ms : double; claims_upgraded : Z; output_summary : str;
}.
Definition summary (text : str) : str :=
  flat_map (fun l => l ++ lit " ") (take 3 (List.filter (fun l => negb (bool_decide (l = []))) (getlines text))).
Definition run_verifier (pr : Project) (timeout : Z) (v : Verifier) : option VerificationResult :=
  match v.2 with
  | [] => None
  | cmd :: args =>
      let '(proc, dur) := run_for pr cmd args timeout in
      Some (mkVerification v.1 (cmd ++ lit " " ++ default [] (head args)) (success proc) dur (if success proc then 3 else 0)
              (summary (if success proc then stdout_output proc else stderr_output proc)))
  end.
Definition run_claim_verifiers (pr : Project) (verifiers : list Verifier) (timeout : Z) : list VerificationResult :=
  omap (run_verifier pr timeout) verifiers.

(** ** The testing pillar *)

Record PillarCheckResult : Type := mkCheck {
  pc_name : str; pc_status : str; pc_detail : str; pc_duration_ms : double; claims : Z; pc_execution_backed : Z;
}.
Definition check (name status : string) (detail : str) (claims backed : Z) : PillarCheckResult :=
  mkCheck (lit name) (lit status) detail d_zero claims backed.

Definition cmake_tests (pr : Project) (root : path) : bool :=
  has pr root "CMakeLists.txt" && has_any pr root ["cmake-build"; "build"] &&
  existsb (test_like (host pr))
    (recursive (host pr) (full_path root (if has pr root "cmake-build" then "cmake-build" else "build"))).
Definition pillar_framework (pr : Project) (root : path) : option str :=
  if cmake_tests pr root then Some (lit "cmake/gtest")
  else if has pr root "Cargo.toml" then Some (lit "cargo")
  else if has pr root "package.json" && has_any pr root ["node_modules/.bin/jest"; "node_modules/.bin/vitest"]
  then Some (if has pr root "node_modules/.bin/jest" then lit "jest" else lit "vitest")
  else if has pr root "go.mod" then Some (lit "go")
  else if has_any pr root ["pytest.ini"; "pyproject.toml"] then Some (lit "pytest")
  else None.

Definition passed_over (p : path) : bool :=
  (contains_sub (lit "build") p && negb (contains_sub (lit "cmake-build") p)) || mentions ["node_modules"; "vendor"; ".git"] p.
Definition is_test_file (p : path) : bool :=
  let fname := path_filename p in
  (starts_with (lit "test_") fname || mentions ["test."; "_test."; ".test."; "spec."; "_spec."] fname) &&
  one_of (path_extension p) [".cpp"; ".py"; ".js"; ".ts"; ".go"; ".rs"; ".java"].
Fixpoint count_test_files (entries : list Entry) (n : nat) : nat :=
  match entries with
  | [] => n
  | e :: entries =>
      if negb (is_regular_file e) || passed_over (e_path e) then count_test_files entries n
      else let n := if is_test_file (e_path e) then S n else n in
           if (200 <=? n)%nat then n else count_test_files entries n
  end.

Definition run_testing_pillar_checks (pr : Project) (root : path) : list PillarCheckResult :=
  match pillar_framework pr root with
  | None => [check "test-infrastructure" "missing" (lit "No test framework detected") 1 0]
  | Some framework =>
      let n := count_test_files (recursive (host pr) (if bool_decide (root = []) then lit "." else root)) 0 in
      [check "test-infrastructure" "detected" (lit "Test framework: " ++ framework) 1 1;
       check "test-file-count" (if (0 <? n)%nat then "detected" else "missing") (to_string_nat n ++ lit " test files found") 1
         (if (0 <? n)%nat then 1 else 0)]
  end.

(** ** The security pillar *)

Definition secret_scan (pr : Project) (root : path) : PillarCheckResult :=
  let has_env_file := has_any pr root [".env"; ".env.local"] in
  let env_in_gitignore :=
    has pr root ".gitignore" && existsb (contains_sub (lit ".env")) (getlines (contents (host pr) (full_path root ".gitignore"))) in
  if has_env_file && negb env_in_gitignore then check "secret-scan" "failing" (lit ".env file exists but not in .gitignore") 1 1
  else if has_env_file && env_in_gitignore then check "secret-scan" "passing" (lit ".env file properly gitignored") 1 1
  else check "secret-scan" "passing" (lit "No exposed .env files") 1 1.

Definition audit (pr : Project) (name : string) (cmd : string) (args : list string) : PillarCheckResult :=
  let '(proc, dur) := run_for pr (lit cmd) (lit <$> args) 30 in
  mkCheck (lit name) (if success proc then lit "passing" else lit "failing")
    (if success proc then lit "No known vulnerabilities" else lit "Vulnerabilities found") dur 2 2.
Definition audits (pr : Project) (root : path) : list PillarCheckResult :=
  (if has pr root "package-lock.json" && available (host pr) (lit "npm") then [audit pr "npm-audit" "npm" ["audit"; "--json"]] else []) ++
  (if has pr root "Cargo.lock" && available (host pr) (lit "cargo") && success (shell (host pr) (lit "cargo audit --version 2>/dev/null"))
   then [audit pr "cargo-audit" "cargo" ["audit"; "--quiet"]] else []) ++
  (if has_any pr root ["requirements.txt"; "pyproject.toml"] && available (host pr) (lit "pip-audit")
   then [audit pr "pip-audit" "pip-audit" []] else []).
Definition cmake_deps (pr : Project) (root : path) : bool * PillarCheckResult :=
  let has_vcpkg := has pr root "vcpkg.json" in
  let has_conan := has_any pr root ["conanfile.txt"; "conanfile.py"] in
  let has_fetch := contains_sub (lit "FetchContent") (contents (host pr) (full_path root "CMakeLists.txt")) in
  let managed := has_fetch || has_vcpkg || has_conan in
  (managed,
   check "cmake-deps" (if managed then "passing" else "missing")
     (if has_vcpkg then lit "vcpkg.json present — use 'vcpkg x-ci-verify-versions' for audit"
      else if has_conan then lit "Conan manifest present — use 'conan audit' for vulnerability scan"
      else if has_fetch then lit "CMake FetchContent manages dependencies — pinned versions in CMakeLists.txt"
      else lit "CMake project — dependencies managed at build time") 1 (if managed then 1 else 0)).
Definition audit_hint (pr : Project) (root : path) : str :=
  if has pr root "package.json" then lit "Install npm and run 'npm audit'"
  else if has pr root "Cargo.toml" then lit "Install cargo-audit: 'cargo install cargo-audit'"
  else if has_any pr root ["requirements.txt"; "pyproject.toml"] then lit "Install pip-audit: 'pip install pip-audit'"
  else lit "No recognized package manifest found".
Definition dependency_checks (pr : Project) (root : path) : list PillarCheckResult :=
  let ran := audits pr root in
  let '(audit_ran, deps) :=
    match ran with
    | [] => if has pr root "CMakeLists.txt" then let '(m, c) := cmake_deps pr root in (m, [c]) else (false, [])
    | _ => (true, [])
    end in
  ran ++ deps ++ (if audit_ran then [] else [check "dependency-audit" "missing" (audit_hint pr root) 1 0]).

Definition older (pr : Project) (root : path) (manifest lock : string) : bool :=
  has pr root manifest && has pr root lock && (last_write_time pr (full_path root lock) <? last_write_time pr (full_path root manifest))%Z.
Definition lockfile_check (pr : Project) (root : path) : list PillarCheckResult :=
  if older pr root "package.json" "package-lock.json" || older pr root "Cargo.toml" "Cargo.lock"
  then [check "lockfile-freshness" "failing" (lit "Lockfile older than manifest — dependencies may be out of sync") 1 1]
  else if has_any pr root ["package-lock.json"; "Cargo.lock"; "go.sum"; "poetry.lock"]
  then [check "lockfile-freshness" "passing" (lit "Lockfile up to date") 1 1] else [].

Definition build_flags_check (pr : Project) (root : path) : list PillarCheckResult :=
  if has pr root "CMakeLists.txt" then
    let content := contents (host pr) (full_path root "CMakeLists.txt") in
    let has_unsafe := contains_sub (lit "-DNDEBUG") content && negb (contains_sub (lit "Release") content) in
    [check "build-flags" (if has_unsafe then "failing" else "passing")
       (if has_unsafe then lit "NDEBUG set outside Release mode" else lit "No unsafe build flags detected") 1 1]
  else [].

Definition run_security_pillar_checks (pr : Project) (root : path) : list PillarCheckResult :=
  secret_scan pr root :: dependency_checks pr root ++ lockfile_check pr root ++ build_flags_check pr root.

(** ** What the checks say *)

Definition failing (c : PillarCheckResult) : bool := bool_decide (pc_status c = lit "failing").

Lemma contains_join c p w rest : p <> [] -> free_of c p ->
  contains_sub p (w ++ c :: rest) = contains_sub p w || contains_sub p rest.
Proof.
  intros Hne Hf. apply eq_true_iff_eq. rewrite orb_true_iff, !contains_sub_spec. split.
  - intros (a & b & E). apply app_eq_app in E as (l & [[-> E]|[-> E]]).
    + apply app_eq_app in E as (k & [[-> E]|[-> E]]).
      * destruct k as [|d k]; [left; exists a, []; by rewrite !app_nil_r|]. injection E as <- _. destruct Hf. set_solver.
      * left. by exists a, k.
    + destruct l as [|d l]; [destruct p; [done|]; injection E as -> _; destruct Hf; by left|]. injection E as _ ->. right. by exists l, b.
  - intros [(a & b & ->)|(a & b & ->)].
    + exists a, (b ++ c :: rest). by rewrite <-!app_assoc.
    + exists (w ++ c :: a), b. by rewrite <-!app_assoc.
Qed.

(** A line that is looked for is found in the text exactly when it is found in
    one of its lines. *)
Lemma contains_lines p s : p <> [] -> free_of eol p -> existsb (contains_sub p) (getlines s) = contains_sub p s.
Proof.
  intros Hne Hf. assert (contains_sub p [] = false) as H0.
  { apply not_true_is_false. intros (a & b & E)%contains_sub_spec. symmetry in E. apply app_eq_nil in E as [_ E]. by apply app_eq_nil in E as [-> _]. }
  assert (forall ws, existsb (contains_sub p) ws = contains_sub p (join_with eol ws)) as Hj.
  { intros ws. induction ws as [|w [|w' ws] IH]; [symmetry; exact H0|by cbn; rewrite orb_false_r|].
    rewrite join_with_cons2, contains_join, <-IH by done. done. }
  rewrite <-(join_split eol s) at 2. rewrite <-Hj. unfold getlines, fields. destruct (bool_decide _) eqn:E; [|done].
  apply bool_decide_eq_true, last_Some in E as [ws E]. rewrite E, removelast_last, existsb_app. cbn. by rewrite H0, !orb_false_r.
Qed.

(** The scan of a playbook run and the gate of the readiness assessment agree
    on which projects expose their environment files. *)
Theorem secret_scan_agrees_with_gate pr root :
  failing (secret_scan pr root) = secrets_exposed (host pr) root.
Proof.
  unfold secret_scan, secrets_exposed. rewrite contains_lines by (vm_compute; set_solver).
  unfold has_any, has, full_path, read_file_content. cbn [existsb]. rewrite orb_false_r.
  match goal with |- context [if ?e && negb ?g then check _ _ _ _ _ else _] => destruct e, g end; vm_compute; reflexivity.
Qed.

(** A project whose path contains "vendor" or "node_modules" has no test
    files: the scan looks for them in the whole path. *)
Lemma tests_hidden_by_path entries part : part ∈ ["node_modules"; "vendor"; ".git"]%string ->
  Forall (fun e => contains_sub (lit part) (e_path e) = true) entries -> count_test_files entries 0 = 0%nat.
Proof.
  intros Hp. induction 1 as [|e entries He _ IH]; [done|]. cbn [count_test_files].
  assert (passed_over (e_path e) = true) as ->; [|by rewrite orb_true_r].
  unfold passed_over. apply orb_true_iff. right. unfold mentions. apply existsb_exists. exists part. split; [by apply list_elem_of_In|done].
Qed.

(** What a check of the security pillar reports *)
Definition judged (c : PillarCheckResult) : Prop :=
  one_of (pc_status c) ["passing"; "failing"; "missing"] = true /\ (0 <= pc_execution_backed c <= claims c)%Z /\ (1 <= claims c)%Z.

Lemma check_judged n s d k : one_of (lit s) ["passing"; "failing"; "missing"] = true -> (k = 0 \/ k = 1)%Z -> judged (check n s d 1 k).
Proof. intros Hs Hk. split; [done|]. cbn. lia. Qed.
Lemma audit_judged pr n cmd args : judged (audit pr n cmd args).
Proof.
  unfold audit. destruct (run_for _ _ _ _) as [proc d]. split; [|cbn; lia]. cbn [pc_status]. by destruct (success proc).
Qed.

Ltac judge := repeat case_match; first [apply audit_judged | apply check_judged; [reflexivity|auto]].
Ltac judge_list :=
  repeat match goal with
  | |- Forall _ (_ ++ _) => apply Forall_app; split
  | |- Forall _ (if ?b then _ else _) => destruct b
  | |- Forall _ [] => constructor
  | |- Forall _ (_ :: _) => constructor; [judge|]
  end.

(** Every check of the security pillar judges something and backs at most
    what it claims. *)
Lemma security_checks_judge pr root : Forall judged (run_security_pillar_checks pr root).
Proof.
  unfold run_security_pillar_checks. constructor; [unfold secret_scan; judge|].
  apply Forall_app. split; [|unfold lockfile_check, build_flags_check; judge_list].
  unfold dependency_checks. assert (Forall judged (audits pr root)) as Hr by (unfold audits; judge_list).
  destruct (audits pr root) as [|c l]; [|cbn [app]; by rewrite app_nil_r].
  unfold cmake_deps. destruct (has pr root "CMakeLists.txt"); cbn [app]; [|judge_list].
  destruct (_ || _); judge_list.
Qed.
