(* ===== verification/VerdictMath.v ===== *)
(** * From evidence to a verdict: [apps/cli/src/cmd/fleet.cpp]

    What [cmd_playbook] does once its agents have reported: it upgrades their
    claims by the project's own verifiers, adds the built-in checks, counts the
    verdicts, and computes the confidence, the verdict and the exit code.
    Numbers of agents are counted in [Z]; the sums over their claims and the
    confidence are of type [int], and [None] is an overflow, or the conversion
    of a double out of the range of [int]. *)

From Stdlib Require Import ZArith Ascii String Lia SpecFloat.
From stdpp Require Import base list gmap strings.
From S2P Require Import Prelude CxxString Lines Doubles DoubleBounds Paths Json RuntimeConfig CertGates Verdict Evidence PillarChecks.

(** ** Claims *)

Definition upgrade (n : Z) (ev : AgentEvidence) : AgentEvidence :=
  let u := Z.min n (inferred ev) in
  mkEvidence (agent_name ev) (agent_id ev) (ev_verdict ev) (ev_pillar ev) (ev_duration_ms ev) (execution_backed ev + u) (inferred ev - u)
    (total_claims ev) (key_findings ev) (degraded ev) (raw_verdict ev).
Definition upgraded (vs : list VerificationResult) : Z := sumz ((fun v => if vr_success v then claims_upgraded v else 0%Z) <$> vs).
Definition upgrade_claims (n : Z) (log : list AgentEvidence) : list AgentEvidence :=
  if (0 <? n)%Z then upgrade (Z.max 1 (Z.quot n (Z.of_nat (length log)))) <$> log else log.

Definition verifier_pillar (name : str) : option str :=
  if mentions ["build"; "cmake"; "cargo-check"; "go-vet"; "make"] name then Some (lit "build")
  else if mentions ["test"; "jest"; "vitest"; "pytest"] name then Some (lit "testing")
  else None.
Definition verifier_evidence (v : VerificationResult) : option AgentEvidence :=
  pillar ← verifier_pillar (check_name v);
  let status := if vr_success v then lit "PASS" else lit "FAILED" in
  Some (mkEvidence (lit "claim-verifier/" ++ check_name v) (lit "claim-verifier") status pillar (vr_duration_ms v)
          (if vr_success v then claims_upgraded v else 0) 0 (Z.max 1 (claims_upgraded v)) [] false status).

(** The verifiers run when there is evidence to back. *)
Definition verify_claims (pr : Project) (verifiers : list Verifier) (timeout : Z) (log : list AgentEvidence) :
    list VerificationResult * list AgentEvidence :=
  match log with
  | [] => ([], [])
  | _ => let vs := run_claim_verifiers pr verifiers timeout in (vs, upgrade_claims (upgraded vs) log ++ omap verifier_evidence vs)
  end.

(** *** Built-in checks *)

Definition is_agent (ev : AgentEvidence) : bool := negb (mentions ["builtin-"; "claim-verifier"] (agent_id ev)).
Definition check_evidence (id pillar : string) (passing : list string) (c : PillarCheckResult) : AgentEvidence :=
  let verdict := if one_of (pc_status c) passing then lit "PASS" else if failing c then lit "FAILED" else lit "PARTIAL" in
  mkEvidence (lit "builtin/" ++ pc_name c) (lit id) verdict (lit pillar) (pc_duration_ms c) (pc_execution_backed c)
    (claims c - pc_execution_backed c) (claims c) [pc_detail c] false verdict.
Definition add_checks (pr : Project) (root : path) (log : list AgentEvidence) : list AgentEvidence :=
  if existsb is_agent log then
    log ++ (check_evidence "builtin-testing" "testing" ["passing"; "detected"] <$> run_testing_pillar_checks pr root)
        ++ (check_evidence "builtin-security" "security" ["passing"] <$> run_security_pillar_checks pr root)
  else log.

(** ** Counting *)

Record Tally : Type := mkTally {
  passes : Z; fails : Z; partial_count : Z; timeout_count : Z; raw_fail_count : Z; decisive_negatives : Z; builtin_fails : Z;
  build_verification_failed : bool;
}.
Definition has_status (v : string) (ev : AgentEvidence) : bool := bool_decide (ev_verdict ev = lit v).
Definition said_fail (ev : AgentEvidence) : bool := bool_decide (raw_verdict ev = lit "FAIL").
Definition decisive_negative (ev : AgentEvidence) : bool := said_fail ev && negb (has_status "FAILED" ev).
Definition is_infra (ev : AgentEvidence) : bool :=
  starts_with (lit "builtin-") (agent_id ev) || starts_with (lit "claim-verifier") (agent_id ev).
Definition infra_failed (ev : AgentEvidence) : bool := is_infra ev && has_status "FAILED" ev.
Definition is_timeout (v : str) : bool := one_of v ["TIMEOUT"].
Definition unclear (v : str) : bool := negb (positive v) && negb (negative v) && negb (is_timeout v).

Definition tally (verdicts : list str) (log : list AgentEvidence) : Tally :=
  mkTally (count positive verdicts) (count negative verdicts) (count unclear verdicts) (count is_timeout verdicts)
    (count said_fail log + count infra_failed log) (count decisive_negative log) (count infra_failed log)
    (existsb (fun ev => infra_failed ev && bool_decide (ev_pillar ev = lit "build")) log).
Definition effective_fails (t : Tally) : Z := fails t + decisive_negatives t + builtin_fails t.
Definition total_agents (t : Tally) : Z := passes t + fails t + partial_count t + timeout_count t.
Definition directional_agents (t : Tally) : Z := passes t + effective_fails t.
Definition has_contradiction (t : Tally) : bool := ((0 <? passes t) && (0 <? effective_fails t))%Z.

(** ** Ratios *)

Definition one : double := d_of_Z 1.
Definition share (a b : Z) (without : double) : double := if (0 <? b)%Z then d_div (d_of_Z a) (d_of_Z b) else without.
Definition covers (log : list AgentEvidence) (pillar : str) : bool := existsb (fun ev => bool_decide (ev_pillar ev = pillar)) log.

Record Scores : Type := mkScores {
  total_exec : Z; total_inferred : Z; critical_covered : Z; degraded_agents : Z;
  agreement_ratio : double; evidence_density : double; critical_coverage : double; degradation_ratio : double;
}.
(** [for (...) total += z] *)
Fixpoint int_sum (total : Z) (l : list Z) : option Z :=
  match l with [] => Some total | z :: l => total ← int_range (total + z); int_sum total l end.
Definition scores (t : Tally) (log : list AgentEvidence) : option Scores :=
  exec ← int_sum 0 (execution_backed <$> log);
  inferences ← int_sum 0 (inferred <$> log);
  claims ← int_sum 0 (total_claims <$> log);
  let covered := count (covers log) critical_pillars in
  let degraded := count degraded log in
  Some (mkScores exec inferences covered degraded
    (share (Z.max (passes t) (fails t)) (directional_agents t) one)
    (share exec claims d_zero)
    (d_div (d_of_Z covered) (d_of_Z (Z.of_nat (length critical_pillars))))
    (share degraded (total_agents t) d_zero)).

(** ** Confidence *)

Definition penalty (ratio : double) (weight : Z) : option Z := d_to_int (d_mul ratio (d_of_Z weight)).
Definition factor (b : bool) (text : str) : list str := if b then [text] else [].
(** What collection left behind: an early stop with skipped agents, the budget *)
Record Shortfall : Type := mkShortfall { stopped_early : bool; skipped : Z; over_budget : bool }.
Definition some_skipped (x : Shortfall) : bool := stopped_early x && (0 <? skipped x)%Z.

Definition agreement_penalty (t : Tally) (s : Scores) : option Z :=
  p ← penalty (d_sub one (agreement_ratio s)) 30; Some (if has_contradiction t then Z.max p 25 else p).
Definition agreement_factor (t : Tally) (s : Scores) (p : Z) : option (list str) :=
  if (0 <? p)%Z then
    percent ← d_to_int (d_mul (agreement_ratio s) (d_of_Z 100));
    Some [lit "Agreement: -" ++ to_string_Z p ++ lit " (" ++ to_string_Z percent ++ lit "% of " ++ to_string_Z (directional_agents t)
          ++ lit " decisive agents agree)"]
  else Some [].
Definition incomplete_text (t : Tally) : str :=
  (if (0 <? timeout_count t)%Z then to_string_Z (timeout_count t) ++ lit " timed out" else [])
  ++ (if (0 <? partial_count t)%Z
      then (if (0 <? timeout_count t)%Z then lit ", " else []) ++ to_string_Z (partial_count t) ++ lit " ambiguous" else []).
Definition builtin_penalty (t : Tally) : Z :=
  if (0 <? builtin_fails t)%Z then if build_verification_failed t then 20 else builtin_fails t * 15 else 0.

(** So much for each one, where there are any *)
Definition each (n weight : Z) : Z := if (0 <? n)%Z then n * weight else 0.

Definition compute_confidence (x : Shortfall) (t : Tally) (s : Scores) : option (Z * list str) :=
  agreement ← agreement_penalty t s; agreed ← agreement_factor t s agreement;
  density ← penalty (d_sub one (evidence_density s)) 25;
  coverage ← penalty (d_sub one (critical_coverage s)) 25;
  degradation ← penalty (degradation_ratio s) 15;
  let incomplete := (timeout_count t + partial_count t)%Z in
  total ← int_range (100 - agreement - density - coverage - degradation - (if some_skipped x then 5 else 0) - each incomplete 5
                - each (decisive_negatives t) 10 - builtin_penalty t - (if over_budget x then 10 else 0))%Z;
  Some (Z.max 0 (Z.min 100 total),
    agreed
    ++ factor (5 <? density)%Z (lit "Evidence depth: -" ++ to_string_Z density ++ lit " (" ++ to_string_Z (total_exec s) ++ lit " exec / "
                                ++ to_string_Z (total_inferred s) ++ lit " inferred)")
    ++ factor (0 <? coverage)%Z (lit "Coverage: -" ++ to_string_Z coverage ++ lit " (" ++ to_string_Z (critical_covered s) ++ lit "/"
                                 ++ to_string_nat (length critical_pillars) ++ lit " critical pillars)")
    ++ factor (0 <? degradation)%Z (lit "Degraded: -" ++ to_string_Z degradation ++ lit " (" ++ to_string_Z (degraded_agents s)
                                    ++ lit " agents on fallback)")
    ++ factor (some_skipped x) (lit "Early-stop: -5 (" ++ to_string_Z (skipped x) ++ lit " agents skipped)")
    ++ factor (0 <? incomplete)%Z (lit "Incomplete: -" ++ to_string_Z (incomplete * 5) ++ lit " (" ++ incomplete_text t ++ lit ")")
    ++ factor (0 <? decisive_negatives t)%Z (lit "Decisive negatives: -" ++ to_string_Z (decisive_negatives t * 10) ++ lit " ("
                                             ++ to_string_Z (decisive_negatives t) ++ lit " agents emitted FAIL before timeout)")
    ++ factor (0 <? builtin_fails t)%Z (lit "Builtin failures: -" ++ to_string_Z (builtin_penalty t) ++ lit " ("
                                        ++ to_string_Z (builtin_fails t) ++ lit " builtin check(s) failed"
                                        ++ (if build_verification_failed t then lit ", build verification failed" else []) ++ lit ")")
    ++ factor (over_budget x) (lit "Budget miss: -10 (flash SLA exceeded)")).

(** ** The verdict *)

Definition verdict_of (t : Tally) (confidence : Z) : str :=
  if has_contradiction t then lit "INCONCLUSIVE"
  else if ((0 <? effective_fails t) && (passes t =? 0))%Z then lit "BLOCKED"
  else if ((80 <=? confidence) && (effective_fails t =? 0) && (timeout_count t =? 0))%Z then lit "TRUSTED"
  else if ((60 <=? confidence) && (effective_fails t =? 0))%Z then lit "TRUSTED WITH GAPS"
  else lit "CAUTION".
(** An escalation that was suppressed leaves its question open. *)
Definition capped (suppressed : bool) (verdict : str) : bool := suppressed && one_of verdict ["TRUSTED"; "TRUSTED WITH GAPS"].
Definition cap_suppressed (suppressed : bool) (verdict : str) : str := if capped suppressed verdict then lit "CAUTION" else verdict.

(** ** The exit code *)

Definition doubtful (t : Tally) (verdict : str) : bool :=
  (0 <? effective_fails t)%Z || has_contradiction t || one_of verdict ["CAUTION"; "BLOCKED"; "INCONCLUSIVE"].
Definition ci_exit_code (log : list AgentEvidence) (t : Tally) (verdict : str) (violated : bool) : Z :=
  let exit_code := (match log with [] => 2 | _ => if doubtful t verdict then 1 else 0 end)%Z in
  if violated && (exit_code =? 0)%Z then 1 else exit_code.
Definition exit_code_of (log : list AgentEvidence) (t : Tally) (verdict : str) (violated : bool) : Z :=
  match log with
  | [] => 2
  | _ => if (0 <? effective_fails t)%Z || has_contradiction t then 1
         else if one_of verdict ["CAUTION"; "BLOCKED"; "INCONCLUSIVE"] then 1
         else if violated then 1 else 0
  end.

(** ** The verdict and the guard *)

Lemma count_zero_iff {A} (p : A -> bool) l : count p l = 0%Z <-> forall a, a ∈ l -> p a = false.
Proof.
  induction l as [|a l IH]; [split; [intros _ b Hb; by apply not_elem_of_nil in Hb|done]|].
  change (a :: l) with ([a] ++ l). rewrite count_app. pose proof (count_nonneg p l). unfold count at 1. cbn [List.filter].
  destruct (p a) eqn:E; cbn [length].
  - split; [lia|]. intros Hf. rewrite Hf in E by (by left). done.
  - rewrite Z.add_0_l, IH. split; intros Hf b Hb; [|by apply Hf; right]. cbn in Hb. apply elem_of_cons in Hb as [->|Hb]; [done|by apply Hf].
Qed.

Lemma effective_fails_zero verdicts log : effective_fails (tally verdicts log) = 0%Z <->
  (forall v, v ∈ verdicts -> negative v = false) /\ (forall e, e ∈ log -> decisive_negative e = false /\ infra_failed e = false).
Proof.
  unfold effective_fails, tally. cbn [fails decisive_negatives builtin_fails].
  pose proof (count_nonneg negative verdicts). pose proof (count_nonneg decisive_negative log). pose proof (count_nonneg infra_failed log).
  rewrite <-(count_zero_iff negative). split.
  - intros E. split; [lia|]. intros e He. split; [apply (proj1 (count_zero_iff decisive_negative log))|apply (proj1 (count_zero_iff infra_failed log))]; done || lia.
  - intros [-> Hl]. rewrite (proj2 (count_zero_iff decisive_negative log)), (proj2 (count_zero_iff infra_failed log)); [done|..];
      intros e He; by apply Hl.
Qed.

Lemma tally_nonneg verdicts log :
  let t := tally verdicts log in
  (0 <= passes t /\ 0 <= fails t <= effective_fails t /\ 0 <= partial_count t /\ 0 <= timeout_count t /\ 0 <= decisive_negatives t /\ 0 <= builtin_fails t)%Z.
Proof.
  unfold tally, effective_fails. cbn. pose proof (count_nonneg positive verdicts). pose proof (count_nonneg negative verdicts).
  pose proof (count_nonneg unclear verdicts). pose proof (count_nonneg is_timeout verdicts).
  pose proof (count_nonneg decisive_negative log). pose proof (count_nonneg infra_failed log). lia.
Qed.


(** In CI mode and on a terminal the exit codes are the same. *)
Lemma exit_codes_agree log t verdict violated : ci_exit_code log t verdict violated = exit_code_of log t verdict violated.
Proof.
  unfold ci_exit_code, exit_code_of, doubtful. destruct log as [|e l]; [by destruct violated|].
  destruct (_ || has_contradiction t); [by destruct violated|]. cbn [orb]. by destruct (one_of _ _), violated.
Qed.

(** When a run succeeds: exactly when there is evidence, no agent that
    answered failed, no built-in check or verifier failed, the confidence is
    at least 60, no escalation was suppressed and no gate of the policy was
    violated. *)
Theorem success_exact verdicts log confidence suppressed violated :
  let t := tally verdicts log in
  exit_code_of log t (cap_suppressed suppressed (verdict_of t confidence)) violated = 0%Z <->
  log <> [] /\ (forall v, v ∈ verdicts -> negative v = false) /\
  (forall e, e ∈ log -> decisive_negative e = false /\ infra_failed e = false) /\
  (60 <= confidence)%Z /\ suppressed = false /\ violated = false.
Proof.
  intros t. pose proof (effective_fails_zero verdicts log) as Hz. change (tally verdicts log) with t in Hz.
  pose proof (tally_nonneg verdicts log) as Hn. change (tally verdicts log) with t in Hn. cbn zeta in Hn. clearbody t.
  assert (exit_code_of log t (cap_suppressed suppressed (verdict_of t confidence)) violated = 0%Z <->
    log <> [] /\ effective_fails t = 0%Z /\ (60 <= confidence)%Z /\ suppressed = false /\ violated = false) as ->; [|rewrite Hz; tauto].
  unfold exit_code_of. destruct log as [|e l]; [naive_solver lia|].
  destruct (0 <? effective_fails t)%Z eqn:He; cbn [orb]; [split; [done|lia]|].
  assert (has_contradiction t = false) as Hc by (unfold has_contradiction; by rewrite He, andb_false_r).
  rewrite Hc. unfold cap_suppressed, capped, verdict_of. rewrite Hc, He. cbn [andb].
  rewrite (proj2 (Z.eqb_eq (effective_fails t) 0)) by lia. rewrite !andb_true_r.
  destruct (60 <=? confidence)%Z eqn:E6.
  - destruct ((80 <=? confidence) && (timeout_count t =? 0))%Z; destruct suppressed, violated; split; intros E; try done; repeat split; try done; lia.
  - rewrite (proj2 (Z.leb_gt 80 confidence)) by lia. cbn [andb]. destruct suppressed, violated; split; intros E; try done; lia.
Qed.

(** ** The confidence is a percentage *)

Lemma upgrade_backed n ev : (0 <= n)%Z -> backed ev -> backed (upgrade n ev).
Proof. unfold backed, upgrade. cbn. lia. Qed.
Lemma upgrade_claims_backed n log : Forall backed log -> Forall backed (upgrade_claims n log).
Proof.
  intros Hl. unfold upgrade_claims. destruct (0 <? n)%Z; [|done]. apply Forall_fmap. eapply Forall_impl; [exact Hl|].
  intros ev He. apply upgrade_backed; [lia|done].
Qed.
Lemma run_verifier_upgrades pr timeout v r : run_verifier pr timeout v = Some r -> (0 <= claims_upgraded r <= 3)%Z.
Proof.
  unfold run_verifier. destruct v.2 as [|cmd args]; [done|]. destruct (run_for _ _ _ _) as [proc dur]. intros E. injection E as <-.
  cbn. destruct (success proc); lia.
Qed.
Lemma verifier_backed v e : (0 <= claims_upgraded v)%Z -> verifier_evidence v = Some e -> backed e.
Proof.
  intros Hv E. unfold verifier_evidence in E. apply bind_Some in E as (p & _ & E). injection E as <-. unfold backed. cbn.
  destruct (vr_success v); lia.
Qed.
Lemma verify_claims_backed pr vs timeout log : Forall backed log -> Forall backed (verify_claims pr vs timeout log).2.
Proof.
  intros Hl. unfold verify_claims. destruct log as [|e l] eqn:El; [done|]. rewrite <-El in *. cbn [snd]. apply Forall_app. split.
  - by apply upgrade_claims_backed.
  - apply Forall_forall. intros ev Hev. apply list_elem_of_omap in Hev as (r & Hr & Er).
    apply list_elem_of_omap in Hr as (v & _ & Ev). eapply verifier_backed; [|exact Er]. by apply run_verifier_upgrades in Ev as [? _].
Qed.

Lemma check_backed id pillar passing c : (0 <= pc_execution_backed c <= claims c)%Z -> backed (check_evidence id pillar passing c).
Proof. unfold backed, check_evidence. cbn. lia. Qed.
Lemma testing_checks_claim pr root : Forall (fun c => 0 <= pc_execution_backed c <= claims c)%Z (run_testing_pillar_checks pr root).
Proof.
  unfold run_testing_pillar_checks. destruct (pillar_framework pr root); [|by repeat constructor].
  constructor; [cbn; lia|]. constructor; [cbn; case_match; lia|constructor].
Qed.
Lemma add_checks_backed pr root log : Forall backed log -> Forall backed (add_checks pr root log).
Proof.
  intros Hl. unfold add_checks. destruct (existsb is_agent log); [|done]. rewrite !Forall_app, !Forall_fmap. split; [done|split].
  - eapply Forall_impl; [apply testing_checks_claim|]. intros c Hc. by apply check_backed.
  - eapply Forall_impl; [apply security_checks_judge|]. intros c (_ & Hc & _). by apply check_backed.
Qed.

Lemma sumz_backed log : Forall backed log -> (0 <= sumz (execution_backed <$> log) <= sumz (total_claims <$> log))%Z.
Proof.
  induction 1 as [|e l (H1 & H2 & H3) _ IH]; [done|]. cbn [fmap list_fmap]. unfold sumz in *. cbn [foldr]. lia.
Qed.

Lemma penalty_total k r w : (0 <= k <= 25)%Z -> (0 <= w <= 32)%Z -> pos_le k r -> exists p, penalty r w = Some p /\ (0 <= p <= 2 ^ (k + 5))%Z.
Proof.
  intros Hk Hw Hr. apply (d_to_int_le (k + 5)); [lia|]. apply mul_le; [unfold small; lia|done|].
  apply of_Z_le; [unfold small; lia|lia|]. split; [lia|]. change (2 ^ 5)%Z with 32%Z. lia.
Qed.

Lemma share_unit a b d : (0 <= a <= b)%Z -> (b < 2 ^ 53)%Z -> pos_le 0 d -> pos_le 0 (share a b d).
Proof. intros Ha Hb Hd. unfold share. destruct (0 <? b)%Z eqn:E; [|done]. apply share_le; lia. Qed.
Lemma one_unit : pos_le 0 one.
Proof. vm_compute. split; congruence. Qed.

(** A sum of numbers that are not negative, as the code makes it *)
Lemma int_sum_exact l : forall total, Forall (fun z => 0 <= z)%Z l -> int32 total -> (0 <= total)%Z ->
  int_sum total l = int_range (total + sumz l).
Proof.
  induction l as [|z l IH]; intros total Hl Ht H0; unfold sumz; cbn [foldr int_sum].
  { unfold int_range. rewrite Z.add_0_r. by rewrite bool_decide_true. }
  inversion_clear Hl as [|? ? Hz Hl']. fold (sumz l). assert (0 <= sumz l)%Z as Hs.
  { clear -Hl'. induction Hl' as [|y l Hy _ IH]; [done|]. unfold sumz in *. cbn. lia. }
  unfold int_range at 1. case_bool_decide as Hi; cbn [mbind option_bind].
  - rewrite IH by (done || lia). f_equal. lia.
  - unfold int_range. rewrite bool_decide_false; [done|]. unfold int32 in *. lia.
Qed.

Lemma backed_parts log : Forall backed log ->
  Forall (fun z => 0 <= z)%Z (execution_backed <$> log) /\ Forall (fun z => 0 <= z)%Z (inferred <$> log) /\
  Forall (fun z => 0 <= z)%Z (total_claims <$> log).
Proof. intros Hb. rewrite !Forall_fmap. split_and!; (eapply Forall_impl; [exact Hb|]); unfold backed; cbn; intros ev ?; lia. Qed.

Lemma inferred_sum log : Forall backed log -> (0 <= sumz (inferred <$> log) <= sumz (total_claims <$> log))%Z.
Proof. induction 1 as [|e l (H1 & H2 & H3) _ IH]; [done|]. cbn [fmap list_fmap]. unfold sumz in *. cbn [foldr]. lia. Qed.

(** The sums can be made exactly when the claims can be counted. *)
Lemma scores_defined t log : Forall backed log ->
  match scores t log with
  | Some s => (sumz (total_claims <$> log) < 2 ^ 31)%Z /\ evidence_density s = share (sumz (execution_backed <$> log)) (sumz (total_claims <$> log)) d_zero
  | None => (2 ^ 31 <= sumz (total_claims <$> log))%Z
  end.
Proof.
  intros Hb. destruct (backed_parts log Hb) as (H1 & H2 & H3). pose proof (sumz_backed log Hb). pose proof (inferred_sum log Hb).
  assert (int32 0) as H32 by (unfold int32; lia). unfold scores.
  rewrite !int_sum_exact, !Z.add_0_l by done. unfold int_range.
  destruct (decide (sumz (total_claims <$> log) < 2 ^ 31)%Z) as [Hlt|Hge].
  - rewrite !bool_decide_true by (unfold int32; lia). cbn [mbind option_bind]. done.
  - rewrite (bool_decide_false (int32 (sumz (total_claims <$> log)))) by (unfold int32; lia).
    repeat (destruct (bool_decide _); cbn [mbind option_bind]); lia.
Qed.

(** The ratios are shares, except that agents whose evidence is degraded need
    not be among those with a verdict. *)
Lemma scores_bounded verdicts log (t := tally verdicts log) s :
  Forall backed log -> scores t log = Some s ->
  (Z.of_nat (length verdicts) <= 2 ^ 20)%Z -> (Z.of_nat (length log) <= 2 ^ 20)%Z ->
  pos_le 0 (agreement_ratio s) /\ pos_le 0 (evidence_density s) /\ pos_le 0 (critical_coverage s) /\ pos_le 20 (degradation_ratio s).
Proof.
  intros Hb Es Hv Hl.
  pose proof (tally_nonneg verdicts log) as Hn. change (tally verdicts log) with t in Hn. cbn zeta in Hn.
  assert (passes t <= 2 ^ 20 /\ effective_fails t <= 2 ^ 22)%Z as [Hp He].
  { unfold t, tally, effective_fails. cbn [passes fails decisive_negatives builtin_fails].
    pose proof (count_le_length positive verdicts). pose proof (count_le_length negative verdicts).
    pose proof (count_le_length decisive_negative log). pose proof (count_le_length infra_failed log). lia. }
  pose proof (scores_defined t log Hb) as Hd. rewrite Es in Hd. destruct Hd as [Hsum Hd].
  unfold scores in Es. do 3 (apply bind_Some in Es as (? & _ & Es)). apply (inj Some) in Es as <-. cbn [evidence_density] in Hd.
  cbn [agreement_ratio evidence_density critical_coverage degradation_ratio]. split_and!.
  - apply share_unit; [unfold directional_agents; lia|unfold directional_agents; lia|apply one_unit].
  - rewrite Hd. apply share_unit; [by apply sumz_backed|lia|done].
  - apply share_le; [|cbn; lia]. split; [apply count_nonneg|apply count_le_length].
  - unfold share. destruct (0 <? total_agents t)%Z eqn:Et; [|done].
    pose proof (count_nonneg degraded log). pose proof (count_le_length degraded log).
    apply ratio_le; [unfold small; lia|lia|lia|]. split; [lia|]. unfold total_agents, t, tally.
    cbn [passes fails partial_count timeout_count]. pose proof (count_le_length positive verdicts). pose proof (count_le_length negative verdicts).
    pose proof (count_le_length unclear verdicts). pose proof (count_le_length is_timeout verdicts). lia.
Qed.

Lemma tally_small verdicts log (t := tally verdicts log) :
  (Z.of_nat (length verdicts) <= 2 ^ 20)%Z -> (Z.of_nat (length log) <= 2 ^ 20)%Z ->
  (0 <= each (timeout_count t + partial_count t) 5 <= 10 * 2 ^ 20 /\ 0 <= each (decisive_negatives t) 10 <= 10 * 2 ^ 20 /\
   0 <= builtin_penalty t <= 15 * 2 ^ 20)%Z.
Proof.
  intros Hv Hl. pose proof (tally_nonneg verdicts log) as Hn. change (tally verdicts log) with t in Hn. cbn zeta in Hn.
  assert (timeout_count t <= 2 ^ 20 /\ partial_count t <= 2 ^ 20 /\ decisive_negatives t <= 2 ^ 20 /\ builtin_fails t <= 2 ^ 20)%Z as Hc.
  { unfold t, tally. cbn. pose proof (count_le_length is_timeout verdicts). pose proof (count_le_length unclear verdicts).
    pose proof (count_le_length decisive_negative log). pose proof (count_le_length infra_failed log). lia. }
  clearbody t. unfold each, builtin_penalty. repeat case_match; lia.
Qed.

(** C36: for up to a million agents whose evidence names no more backed and
    inferred claims than claims, the sums over the claims overflow exactly
    when there are [2 ^ 31] claims or more; otherwise the confidence is
    computed without leaving the range of [int], and it is a percentage. *)
Theorem confidence_is_percentage x verdicts log :
  Forall backed log -> (Z.of_nat (length verdicts) <= 2 ^ 20)%Z -> (Z.of_nat (length log) <= 2 ^ 20)%Z ->
  let t := tally verdicts log in
  match scores t log with
  | None => (2 ^ 31 <= sumz (total_claims <$> log))%Z
  | Some s => (sumz (total_claims <$> log) < 2 ^ 31)%Z /\
      exists c factors, compute_confidence x t s = Some (c, factors) /\ (0 <= c <= 100)%Z
  end.
Proof.
  intros Hb Hv Hl t. pose proof (scores_defined t log Hb) as Hdef. destruct (scores t log) as [s|] eqn:Es; [|done].
  destruct Hdef as [Hsum _]. split; [done|]. destruct (scores_bounded verdicts log s Hb Es Hv Hl) as (Ha & Hd & Hc & Hg).
  pose proof (tally_small verdicts log Hv Hl) as Hsmall. change (tally verdicts log) with t in Hsmall. cbn zeta in Hsmall. clearbody t. clear Es.
  unfold compute_confidence, agreement_penalty.
  destruct (penalty_total 0 (d_sub one (agreement_ratio s)) 30) as (p1 & -> & H1); [lia..|by apply one_minus_le|]. cbn [mbind option_bind].
  assert (is_Some (agreement_factor t s (if has_contradiction t then Z.max p1 25 else p1))) as [agreed ->].
  { unfold agreement_factor. destruct (0 <? _)%Z; [|by eexists].
    destruct (d_to_int_le 7 (d_mul (agreement_ratio s) (d_of_Z 100))) as (z & -> & _); [lia| |by eexists].
    apply (mul_le 0 7); [unfold small; lia|done|]. apply of_Z_le; [unfold small; lia|lia|lia]. }
  cbn [mbind option_bind].
  destruct (penalty_total 0 (d_sub one (evidence_density s)) 25) as (p2 & -> & H2); [lia..|by apply one_minus_le|]. cbn [mbind option_bind].
  destruct (penalty_total 0 (d_sub one (critical_coverage s)) 25) as (p3 & -> & H3); [lia..|by apply one_minus_le|]. cbn [mbind option_bind].
  destruct (penalty_total 20 (degradation_ratio s) 15) as (p4 & -> & H4); [lia..|done|]. cbn [mbind option_bind].
  unfold int_range. rewrite bool_decide_true by (unfold int32; repeat case_match; lia). cbn [mbind option_bind].
  eexists _, _. split; [reflexivity|]. lia.
Qed.
