(* ===== verification/VerdictEngine.v ===== *)
(** * The end of a playbook run: [apps/cli/src/cmd/fleet.cpp]

    From the state in which the agents were collected to the verdict, the exit
    code, the artifact and the history: the contradictions, the scores of the
    pillars, the policy, the consistency rules and the human gate.  [set_order]
    is the order in which the set of pillars is iterated.  [None] is an
    exception, or a conversion of a double out of the range of [int]. *)

From Stdlib Require Import ZArith Ascii String Lia SpecFloat.
From stdpp Require Import base list gmap strings.
From S2P Require Import Prelude CxxString Lines Numbers Doubles DoubleBounds Paths Json JsonObjects JsonText RuntimeConfig.
From S2P Require Import CertGates ProviderRouter Verdict Evidence PlaybookPolicy PlaybookPlan McpBridge ProviderExec PlaybookRun PillarChecks VerdictMath.

(** ** Contradictions *)

Record ContradictionEntry : Type := mkContradiction {
  ce_pillar : str; agent_a : str; verdict_a : str; agent_b : str; verdict_b : str; ce_detail : str;
}.
Definition silent (ev : AgentEvidence) : bool := one_of (ev_verdict ev) ["PARTIAL"; "TIMEOUT"].
Definition opposed (a b : AgentEvidence) : bool :=
  bool_decide (ev_pillar a = ev_pillar b) && negb (bool_decide (ev_verdict a = ev_verdict b)) && negb (silent a) && negb (silent b).
Definition conflict_of (a b : AgentEvidence) : ContradictionEntry :=
  mkContradiction (ev_pillar a) (agent_name a) (ev_verdict a) (agent_name b) (ev_verdict b) (lit "Conflicting verdicts on " ++ ev_pillar a).
Fixpoint pillar_conflicts (log : list AgentEvidence) : list ContradictionEntry :=
  match log with [] => [] | a :: log => (conflict_of a <$> List.filter (opposed a) log) ++ pillar_conflicts log end.
Definition first_named (v : string) (log : list AgentEvidence) : str :=
  default [] (agent_name <$> List.find (fun ev => has_status v ev && negb (bool_decide (agent_name ev = []))) log).
Definition contradictions (t : Tally) (log : list AgentEvidence) : list ContradictionEntry :=
  if has_contradiction t then
    match pillar_conflicts log with
    | [] => [mkContradiction (lit "cross-pillar") (first_named "PASS" log) (lit "PASS") (first_named "FAILED" log) (lit "FAILED")
               (lit "Agents reached opposing conclusions across different evidence pillars")]
    | l => l
    end
  else [].

(** ** Pillars *)

Record PillarScore : Type := mkScore { ps_name : str; ps_coverage : Z; ps_agreement : Z; ps_density : Z; ps_status : str }.
Definition percent (a b : Z) : option Z := d_to_int (d_mul (d_div (d_of_Z a) (d_of_Z b)) (d_of_Z 100)).
Definition pillar_score (log : list AgentEvidence) (name : str) : option PillarScore :=
  match List.filter (fun ev => bool_decide (ev_pillar ev = name)) log with
  | [] => Some (mkScore name 0 0 0 (lit "Missing"))
  | agents =>
      let n := Z.of_nat (length agents) in
      let p := count (fun ev => positive (ev_verdict ev)) agents in
      let f := count (fun ev => negative (ev_verdict ev)) agents in
      let incomplete := (n - p - f)%Z in
      let pcl := sumz (total_claims <$> agents) in
      agreement ← percent (Z.max p (Z.max f incomplete)) n;
      density ← (if (0 <? pcl)%Z then percent (sumz (execution_backed <$> agents)) pcl else Some 0%Z);
      Some (mkScore name (Z.min 100 (n * 50)) agreement density
              (if (0 <? p) && (0 <? f) then lit "Conflict" else if 0 <? f then lit "Issue"
               else if 0 <? incomplete then lit "Gaps" else lit "Verified")%Z)
  end.
Definition pillars_of (log : list AgentEvidence) : gset str := list_to_set (ev_pillar <$> log) ∪ list_to_set critical_pillars.

Definition inferred_area (ev : AgentEvidence) : option str :=
  if ((execution_backed ev =? 0) && (0 <? total_claims ev))%Z
  then Some (agent_name ev ++ lit " (" ++ ev_pillar ev ++ lit "): all " ++ to_string_Z (total_claims ev)
             ++ lit " claims inferred, none execution-backed") else None.
Definition unsupported_claims (ps : list PillarScore) : list str :=
  (fun p => ps_name p ++ lit ": no agent covered this critical pillar") <$> List.filter (fun p => bool_decide (ps_status p = lit "Missing")) ps.
Definition all_findings (log : list AgentEvidence) : list str :=
  flat_map (fun ev => (fun f => lit "[" ++ agent_name ev ++ lit "] " ++ f) <$> key_findings ev) log.

(** Median and 95th percentile *)
Definition latency_stats (ls : list double) : option (double * double) :=
  match ls with
  | [] => Some (d_zero, d_zero)
  | _ =>
      let s := sort_doubles ls in
      median ← s !! (length s / 2)%nat;
      i ← d_trunc (d_mul (d_of_Z (Z.of_nat (length s))) (d_lit 95 100));
      p95 ← s !! Nat.min (length s - 1) (Z.to_nat i);
      Some (median, p95)
  end.

(** ** Advice *)

Definition remark (b : bool) (text : str) : str := if b then text else [].
Definition recommended_action (x : Shortfall) (t : Tally) (unsupported : list str) (verdict : str) : str :=
  if bool_decide (verdict = lit "TRUSTED") then lit "Safe to merge. Evidence is strong."
  else if bool_decide (verdict = lit "TRUSTED WITH GAPS") then
    lit "Merge with caution."
    ++ remark (0 <? timeout_count t)%Z (lit " Re-run with --mode standard to complete timed-out analyses.")
    ++ remark (negb (bool_decide (unsupported = []))) (lit " Run targeted checks for uncovered pillars.")
  else if bool_decide (verdict = lit "CAUTION") then
    lit "Do not merge without review."
    ++ (if build_verification_failed t then lit " Build verification failed — fix build before merging."
        else remark (0 <? builtin_fails t)%Z (lit " " ++ to_string_Z (builtin_fails t) ++ lit " builtin check(s) failed."))
    ++ remark (over_budget x) (lit " Flash SLA was missed — consider --mode standard for reliable coverage.")
    ++ remark (0 <? timeout_count t)%Z (lit " " ++ to_string_Z (timeout_count t) ++ lit " agent(s) timed out.")
    ++ remark (0 <? partial_count t)%Z (lit " " ++ to_string_Z (partial_count t) ++ lit " agent(s) gave ambiguous results.")
  else if bool_decide (verdict = lit "BLOCKED") then
    lit "Fix blocking issues before merge."
    ++ (if build_verification_failed t then lit " Build verification failed." else lit " All agents agree on failure.")
  else lit "Human review required. Agents contradict — resolve disagreements before proceeding.".

(** ** The artifact *)

Section artifact.
Context `{JsonText}.

Definition score_json (p : PillarScore) : jv :=
  object [(lit "name", jstr (ps_name p)); (lit "status", jstr (ps_status p)); (lit "coverage", jint (ps_coverage p));
          (lit "agreement", jint (ps_agreement p)); (lit "evidence_density", jint (ps_density p))].
Definition contradiction_json (c : ContradictionEntry) : jv :=
  object [(lit "pillar", jstr (ce_pillar c)); (lit "agent_a", jstr (agent_a c)); (lit "verdict_a", jstr (verdict_a c));
          (lit "agent_b", jstr (agent_b c)); (lit "verdict_b", jstr (verdict_b c)); (lit "detail", jstr (ce_detail c))].
Definition evidence_json (ev : AgentEvidence) : jv :=
  object ([(lit "status", jstr (ev_verdict ev)); (lit "pillar", jstr (ev_pillar ev)); (lit "duration_ms", jdouble (ev_duration_ms ev));
           (lit "execution_backed", jint (execution_backed ev)); (lit "inferred", jint (inferred ev));
           (lit "total_claims", jint (total_claims ev)); (lit "degraded", jbool (degraded ev)); (lit "findings", jstrs (key_findings ev))]
          ++ when_text "raw_verdict" (raw_verdict ev)).
Definition is_builtin (ev : AgentEvidence) : bool :=
  starts_with (lit "builtin-") (agent_id ev) || bool_decide (agent_id ev = lit "claim-verifier").
(** Of two entries with one name the later one stays. *)
Definition status_json (log : list AgentEvidence) : jv := object (rev ((fun ev => (agent_name ev, evidence_json ev)) <$> log)).
Definition verification_json (v : VerificationResult) : jv :=
  object [(lit "check", jstr (check_name v)); (lit "command", jstr (vr_command v)); (lit "verified", jbool (vr_success v));
          (lit "duration_ms", jdouble (vr_duration_ms v)); (lit "claims_upgraded", jint (claims_upgraded v))].
Definition text_or_null (s : str) : jv := match s with [] => jnull | _ => jstr s end.

(** What the conclusion is drawn from, and what is drawn *)
Record Findings : Type := mkFindings {
  f_log : list AgentEvidence; f_verifications : list VerificationResult; f_tally : Tally; f_scores : Scores; f_shortfall : Shortfall;
  f_confidence : Z; f_factors : list str; f_verdict : str; f_contradictions : list ContradictionEntry; f_pillars : list PillarScore;
  f_latency : double * double; f_total_ms : double; f_trend : VerdictTrend; f_timestamp : str;
}.
Definition unsupported (x : Findings) : list str := unsupported_claims (f_pillars x).
Definition sla_met (u : PlaybookRun.Flags) (x : Findings) : bool := d_le (f_total_ms x) (d_add (target_ms (run_sla u)) (d_of_Z 500)).

Definition sla_json (f : PlaybookRun.Flags) (x : Findings) : jv :=
  object [(lit "target_ms", jdouble (target_ms (run_sla f))); (lit "actual_ms", jdouble (f_total_ms x)); (lit "met", jbool (sla_met f x));
          (lit "budget_exceeded", jbool (budget_exceeded f))].
Definition benchmark_json (s : Run) (x : Findings) : jv :=
  object [(lit "total_latency_ms", jdouble (f_total_ms x)); (lit "median_agent_latency_ms", jdouble (f_latency x).1);
          (lit "p95_agent_latency_ms", jdouble (f_latency x).2); (lit "estimated_cost_usd", jdouble (total_cost (results s)));
          (lit "agents_executed", jint (Z.of_nat (length (f_log x)))); (lit "agents_skipped", jint (agents_skipped (flags s)));
          (lit "timeouts", jint (timeout_count (f_tally x))); (lit "critical_coverage", jdouble (critical_coverage (f_scores x)));
          (lit "critical_checks", jstr (to_string_Z (critical_covered (f_scores x)) ++ lit "/" ++ to_string_nat (length critical_pillars)));
          (lit "escalated", jbool (escalated (flags s)))].
Definition trend_json (tr : VerdictTrend) : jv :=
  object [(lit "direction", jstr (direction tr)); (lit "confidence_delta", jint (confidence_delta tr));
          (lit "run_count", jint (run_count tr + 1)); (lit "regression", jbool (regression tr));
          (lit "previous_verdict", jstr (previous_verdict tr)); (lit "streak", jint (streak tr))].

Definition judgement_members (x : Findings) : list (str * jv) :=
  [(lit "schema", jstr (lit "euxis.verdict")); (lit "schema_version", jstr (lit "1.0.0")); (lit "verdict", jstr (f_verdict x));
   (lit "confidence", jint (f_confidence x));
   (lit "confidence_rationale",
    object [(lit "factors", jstrs (f_factors x)); (lit "agreement_ratio", jdouble (agreement_ratio (f_scores x)));
            (lit "evidence_density", jdouble (evidence_density (f_scores x))); (lit "critical_coverage", jdouble (critical_coverage (f_scores x)));
            (lit "degradation_ratio", jdouble (degradation_ratio (f_scores x))); (lit "raw_fail_count", jint (raw_fail_count (f_tally x)));
            (lit "decisive_negatives", jint (decisive_negatives (f_tally x)))]);
   (lit "pillar_scores", jarr (score_json <$> f_pillars x)); (lit "key_findings", jstrs (all_findings (f_log x)));
   (lit "recommended_action", jstr (recommended_action (f_shortfall x) (f_tally x) (unsupported x) (f_verdict x)));
   (lit "contradictions", jarr (contradiction_json <$> f_contradictions x)); (lit "inferred_areas", jstrs (omap inferred_area (f_log x)));
   (lit "unsupported_claims", jstrs (unsupported x))].
Definition run_members (u : Setup) (s : Run) (x : Findings) : list (str * jv) :=
  let f := flags s in
  [(lit "mode", jstr (original_mode u)); (lit "degraded_mode", jbool (negb (bool_decide (session_failover (results s) = []))));
   (lit "early_stopped", jbool (early_stopped f))]
  ++ when (early_stopped f) "agents_skipped" (jint (agents_skipped f)) ++
  [(lit "sla", sla_json f x);
   (lit "agent_status", status_json (List.filter (fun ev => negb (is_builtin ev)) (f_log x)));
   (lit "builtin_checks", status_json (List.filter is_builtin (f_log x))); (lit "critical_gaps", jstrs (critical_gaps (results s)));
   (lit "benchmark", benchmark_json s x)]
  ++ match f_verifications x with
     | [] => []
     | vs => [(lit "claim_verification", jarr (verification_json <$> vs)); (lit "claims_upgraded", jint (upgraded vs))]
     end.
Definition trend_members (u : Setup) (s : Run) (x : Findings) : list (str * jv) :=
  let f := flags s in
  [(lit "trend", trend_json (f_trend x));
   (lit "timestamp", jstr (f_timestamp x)); (lit "escalated", jbool (escalated f));
   (lit "escalation_reason", text_or_null (escalation_reason f))]
  ++ when (is_flash u) "triage"
       (object [(lit "completed", jbool true); (lit "agents", jint 2); (lit "decisive", jbool (triage_any_decisive f));
                (lit "outcome", jstr (if escalated f then lit "escalated" else if escalation_suppressed f then lit "suppressed" else lit "converged"));
                (lit "escalation_reason", text_or_null (escalation_reason f)); (lit "suppressed_in_ci", jbool (escalation_suppressed f))]).
(** What the policy is evaluated on *)
Definition core_members (u : Setup) (s : Run) (x : Findings) : list (str * jv) :=
  judgement_members x ++ run_members u s x ++ trend_members u s x.

Definition policy_json (p : Policy) : jv :=
  object [(lit "min_verdict", jstr (min_verdict p)); (lit "min_confidence", jint (min_confidence p));
          (lit "min_critical_coverage", jdouble (min_critical_coverage p)); (lit "fail_on_regression", jbool (fail_on_regression p));
          (lit "max_drift", jint (max_drift p)); (lit "fail_on_escalation", jbool (fail_on_escalation p));
          (lit "fail_on_budget_exceeded", jbool (fail_on_budget_exceeded p))].
Definition policy_members (active : option Policy) (violations : list PolicyViolation) : list (str * jv) :=
  (lit "policy_applied", jbool (bool_decide (is_Some active))) ::
  match active with
  | None => []
  | Some p =>
      [(lit "policy", policy_json p);
       (lit "policy_violations",
        jarr ((fun v => object [(lit "gate", jstr (pv_gate v)); (lit "detail", jstr (pv_detail v))]) <$> violations));
       (lit "policy_passed", jbool (bool_decide (violations = [])))]
  end.

(** *** Bill of materials and provenance *)

Record Platform : Type := mkPlatform { compiler : str; cpp_standard : str; os : str }.
Definition tier_str (t : Tier) : str :=
  match t with Routine => lit "routine" | Data => lit "data" | Code => lit "code" | Reason => lit "reason" end.
Definition model_json (q : AgentEvidence * ModelSelection) : jv :=
  object [(lit "provider", jstr (ms_provider q.2)); (lit "model", jstr (ms_model q.2)); (lit "tier", jstr (tier_str (ms_tier q.2)));
          (lit "agent_id", jstr (agent_id q.1))].
Definition tools_used (ms : list ModelSelection) : list str :=
  unique_from [] (List.filter (fun p => one_of p ["aider"; "sgpt"; "kiro"; "opencode"]) (ms_provider <$> ms)).
Definition aibom (b : Platform) (log : list AgentEvidence) (ms : list ModelSelection) : jv :=
  object [(lit "schema", jstr (lit "euxis.aibom")); (lit "version", jstr (lit "1.0.0")); (lit "models_used", jarr (model_json <$> zip log ms));
          (lit "tools_used", jstrs (tools_used ms));
          (lit "runtime", object [(lit "compiler", jstr (compiler b)); (lit "cpp_standard", jstr (cpp_standard b)); (lit "platform", jstr (os b))])].
(** [target_hash]: of the file or directory the goal names, [None] if there is none. *)
Definition provenance (mode playbook goal timestamp : str) (target_hash : option str) : jv :=
  let materials :=
    match goal, target_hash with
    | _ :: _, Some (_ :: _ as h) => [object [(lit "uri", jstr goal); (lit "digest", object [(lit "sha256", jstr h)])]]
    | _, _ => []
    end in
  object [(lit "builder", object [(lit "id", jstr (lit "euxis-cli/v0.1.3"))]); (lit "build_type", jstr (lit "https://slsa.dev/provenance/v1"));
          (lit "invocation", object [(lit "parameters", object [(lit "mode", jstr mode); (lit "playbook", jstr playbook); (lit "goal", jstr goal)])]);
          (lit "materials", jarr materials);
          (lit "metadata", object [(lit "build_started_on", jstr timestamp); (lit "build_finished_on", jstr timestamp);
             (lit "completeness", object [(lit "parameters", jbool true); (lit "environment", jbool false);
                                          (lit "materials", jbool (negb (bool_decide (materials = []))))])])].

(** *** The consistency rules and drift *)

Definition to_playbook_evidence (log : list AgentEvidence) : list PlaybookEvidence :=
  (fun ev => mkPlaybookEvidence (agent_name ev) (agent_id ev) (ev_verdict ev) (raw_verdict ev) (ev_duration_ms ev)) <$> log.
Definition violations_of (x : Findings) : list VerdictViolation :=
  verify_verdict_consistency (f_verdict x) (to_playbook_evidence (f_log x)) (f_confidence x) (Z.of_nat (length (f_contradictions x))).
Definition is_capped (x : Findings) : bool :=
  match violations_of x with [] => false | _ => bool_decide (f_verdict x = lit "TRUSTED") end.
Definition final_verdict (x : Findings) : str := if is_capped x then lit "TRUSTED WITH GAPS" else f_verdict x.
Definition violation_members (x : Findings) : list (str * jv) :=
  when_list "verdict_violations" (fun v => object [(lit "rule", jstr (v_rule v)); (lit "detail", jstr (v_detail v))]) (violations_of x)
  ++ when (is_capped x) "verdict_capped" (jbool true).
Definition alert_json (a : DriftAlert) : jv :=
  object [(lit "agent_id", jstr (da_agent a)); (lit "metric", jstr (da_metric a)); (lit "baseline", jdouble (baseline_value a));
          (lit "current", jdouble (current_value a)); (lit "deviation_pct", jdouble (deviation_pct a)); (lit "severity", jstr (da_severity a))].

(** ** The end of a run *)

(** What the end of a run reads: the project, its configuration and files,
    the clock, and the answer of a reviewer, [None] where the input is not a
    terminal. *)
Record Ending : Type := mkEnding {
  project : Project; config : option RuntimeConfig; repo_root : path; total_ms : double; history_file : option str; history_opens : bool;
  drift_file : option str; timestamp : str; active_policy : option Policy; manifest_name : str; platform : Platform;
  target_hash : option str; human_approve : bool; response : option str;
}.
Record Outcome : Type := mkOutcome {
  out_verdict : str; out_confidence : Z; out_exit : Z; out_artifact : list (str * jv); out_history : option str;
}.

Definition shortfall_of (f : PlaybookRun.Flags) : Shortfall := mkShortfall (early_stopped f) (agents_skipped f) (budget_exceeded f).
Definition history_entry (u : Setup) (s : Run) (x : Findings) : VerdictHistoryEntry :=
  let f := flags s in
  mkHistory (f_timestamp x) (f_verdict x) (f_confidence x) (original_mode u) (f_total_ms x) (f_latency x).1 (f_latency x).2
    (Z.of_nat (length (f_log x))) (agents_skipped f) (timeout_count (f_tally x)) (evidence_density (f_scores x)) (early_stopped f) (escalated f)
    (budget_exceeded f).

(** All the evidence: of the agents, the verifiers and the checks *)
Definition all_evidence (e : Ending) (s : Run) : list VerificationResult * list AgentEvidence :=
  let '(vs, log) := verify_claims (project e) (detect_project_verifiers (project e) (config e) (repo_root e))
                      (agent_timeout_s (run_sla (flags s))) (evidence_log (results s)) in
  (vs, add_checks (project e) (repo_root e) log).

Definition conclude (set_order : gset str -> list str) (e : Ending) (s : Run) : option Findings :=
  let '(vs, log) := all_evidence e s in
  let t := tally (verdicts_of (results s)) log in
  sc ← scores t log;
  let x := shortfall_of (flags s) in
  '(confidence, factors) ← compute_confidence x t sc;
  let suppressed := escalation_suppressed (flags s) in
  let verdict := verdict_of t confidence in
  let factors := factors ++ factor (capped suppressed verdict)
    (lit "Suppressed escalation: capped at CAUTION (reason: " ++ escalation_reason (flags s) ++ lit ")") in
  let verdict := cap_suppressed suppressed verdict in
  pillars ← mapM (pillar_score log) (set_order (pillars_of log));
  lat ← latency_stats (agent_latencies (results s));
  trend ← compute_verdict_trend (load_verdict_history (history_file e) 50) verdict confidence;
  Some (mkFindings log vs t sc x confidence factors verdict (contradictions t log) pillars lat (total_ms e) trend (timestamp e)).

(** The gate for a human: the exit code that ends the command, if any, and
    whether the verdict was approved *)
Definition human_gate (e : Ending) : option Z * list (str * jv) :=
  if human_approve e then
    match response e with
    | None => (Some 2, [(lit "human_approved", jbool false)])
    | Some r =>
        let approved := match r with c :: _ => char_is "y" c || char_is "Y" c | [] => false end in
        (if approved then None else Some 1, [(lit "human_approved", jbool approved)])
    end%Z
  else (None, []).

Definition finish_run (set_order : gset str -> list str) (u : Setup) (e : Ending) (s : Run) : option Outcome :=
  x ← conclude set_order e s;
  history ← append_verdict_history (history_opens e) (history_file e) (history_entry u s x);
  let core := core_members u s x in
  violations ← match active_policy e with Some p => evaluate_policy (object core) p | None => Some [] end;
  alerts ← detect_agent_drift (drift_file e) (to_playbook_evidence (f_log x));
  let violated := bool_decide (is_Some (active_policy e)) && negb (bool_decide (violations = [])) in
  let '(gate, approval) := human_gate e in
  let code := if ci_mode u then ci_exit_code (f_log x) (f_tally x) (final_verdict x) violated
              else exit_code_of (f_log x) (f_tally x) (final_verdict x) violated in
  let artifact :=
    (lit "verdict", jstr (final_verdict x)) :: core ++ policy_members (active_policy e) violations
    ++ [(lit "aibom", aibom (platform e) (f_log x) (agent_model_selections (results s)));
        (lit "provenance", provenance (original_mode u) (manifest_name e) (goal u) (timestamp e) (target_hash e))]
    ++ violation_members x ++ when_list "reflexion" id (reflexion_log (results s)) ++ when_list "drift_alerts" alert_json alerts ++ approval in
  Some (mkOutcome (final_verdict x) (f_confidence x) (default code gate)
    (artifact ++ match gate with
                 | None => if ci_mode u then [(lit "exit_code", jint code); (lit "ci", jbool true)] else []
                 | Some _ => []
                 end) history).

(** ** What the outcome means *)

Lemma exit_code_final log t x violated : exit_code_of log t (final_verdict x) violated = exit_code_of log t (f_verdict x) violated.
Proof.
  unfold final_verdict, is_capped. destruct (violations_of x); [done|]. destruct (bool_decide_reflect (f_verdict x = lit "TRUSTED")) as [->|]; [|done].
  unfold exit_code_of. destruct log; [done|]. by destruct (_ || _).
Qed.

Lemma conclude_parts set_order e s x : conclude set_order e s = Some x ->
  let t := tally (verdicts_of (results s)) (f_log x) in
  f_log x = (all_evidence e s).2 /\ f_tally x = t /\ f_contradictions x = contradictions t (f_log x) /\
  f_verdict x = cap_suppressed (escalation_suppressed (flags s)) (verdict_of t (f_confidence x)) /\ (0 <= f_confidence x <= 100)%Z.
Proof.
  intros E. unfold conclude in E. destruct (all_evidence e s) as [vs log]. apply bind_Some in E as (sc & _ & E).
  apply bind_Some in E as ([c fs] & Ec & E).
  apply bind_Some in E as (ps & _ & E). apply bind_Some in E as (lat & _ & E). apply bind_Some in E as (tr & _ & E). apply (inj Some) in E as <-.
  cbn. repeat split; try done.
  all: unfold compute_confidence in Ec; repeat (apply bind_Some in Ec as (? & _ & Ec)); injection Ec as <- _; lia.
Qed.


Context `{!JsonOk}.





Lemma finish_parts set_order u e s o : finish_run set_order u e s = Some o ->
  exists x vs, conclude set_order e s = Some x /\ out_verdict o = final_verdict x /\ out_confidence o = f_confidence x /\
    (forall p, active_policy e = Some p -> evaluate_policy (object (core_members u s x)) p = Some vs) /\
    out_exit o = default (exit_code_of (f_log x) (f_tally x) (f_verdict x)
      (bool_decide (is_Some (active_policy e)) && negb (bool_decide (vs = [])))) (human_gate e).1.
Proof.
  intros E. unfold finish_run in E. apply bind_Some in E as (x & Ex & E). apply bind_Some in E as (h & _ & E).
  apply bind_Some in E as (vs & Ev & E). apply bind_Some in E as (al & _ & E). exists x, vs. destruct (human_gate e) as [gate approval].
  apply (inj Some) in E as <-. cbn [out_verdict out_confidence out_exit fst]. split; [done|]. split; [done|]. split; [done|]. split.
  - intros p Hp. by rewrite Hp in Ev.
  - rewrite exit_codes_agree, exit_code_final. by destruct (ci_mode u).
Qed.





Lemma count_fmap {A B} (f : A -> B) (p : B -> bool) l : count p (f <$> l) = count (fun a => p (f a)) l.
Proof. unfold count. f_equal. induction l as [|a l IH]; [done|]. cbn. destruct (p (f a)); cbn; by rewrite IH. Qed.

Lemma trusted_consistent log confidence n :
  verify_verdict_consistency (lit "TRUSTED") (to_playbook_evidence log) confidence n = [] ->
  Forall (fun ev => ev_verdict ev <> lit "FAILED" /\ ev_verdict ev <> lit "TIMEOUT") log /\ (80 <= confidence)%Z /\ (n <= 0)%Z.
Proof.
  intros E. unfold verify_verdict_consistency in E. rewrite !bool_decide_true in E by done. cbn [andb app] in E.
  repeat (apply app_nil in E as [? E]). rewrite !violation_nil in *. unfold fails_of in *.
  repeat match goal with H : _ ++ _ = [] |- _ => apply app_nil in H as [? H] end. rewrite !violation_nil in *.
  unfold to_playbook_evidence in *. rewrite !count_fmap in *.
  set (failed := fun a => verdict_is "FAILED" _) in *. set (late := fun a => verdict_is "TIMEOUT" _) in *. set (said := fun a => fail_before_timeout _) in *.
  pose proof (count_nonneg failed log). pose proof (count_nonneg late log). pose proof (count_nonneg said log).
  split; [|lia]. apply Forall_forall. intros ev Hev. split; intros Eq.
  - assert (count failed log = 0)%Z as Hz by lia. rewrite count_zero_iff in Hz. specialize (Hz ev Hev).
    apply bool_decide_eq_false in Hz. by rewrite Eq in Hz.
  - assert (count late log = 0)%Z as Hz by lia. rewrite count_zero_iff in Hz. specialize (Hz ev Hev).
    apply bool_decide_eq_false in Hz. by rewrite Eq in Hz.
Qed.

(** C15: the verdict TRUSTED is only given when none of the evidence that was
    recorded, by the agents that were started, by the verifiers and by the
    built-in checks, says FAILED or TIMEOUT, and the confidence is at least 80.
    Agents that were skipped leave no evidence and do not keep a run from being
    trusted. *)
Theorem trusted_is_unanimous set_order u e s o : finish_run set_order u e s = Some o -> out_verdict o = lit "TRUSTED" ->
  Forall (fun ev => ev_verdict ev <> lit "FAILED" /\ ev_verdict ev <> lit "TIMEOUT") (all_evidence e s).2 /\ (80 <= out_confidence o)%Z.
Proof.
  intros E Hv. destruct (finish_parts _ _ _ _ _ E) as (x & vs & Ex & Eo & Ec & _). destruct (conclude_parts _ _ _ _ Ex) as (<- & _).
  rewrite Eo in Hv. rewrite Ec. unfold final_verdict, is_capped in Hv. destruct (violations_of x) as [|v l] eqn:Ev.
  - unfold violations_of in Ev. rewrite Hv in Ev. by apply trusted_consistent in Ev as (? & ? & _).
  - destruct (bool_decide_reflect (f_verdict x = lit "TRUSTED")); [discriminate Hv|done].
Qed.
End artifact.
