(* ===== verification/PlaybookExamples.v ===== *)
(** * Playbook runs, step by step

    Concrete runs: one that succeeds although no agent could be reached, and
    the witnesses of the theorems about runs and their outcomes. *)

From Stdlib Require Import ZArith Ascii String Lia.
From stdpp Require Import base list gmap strings.
From S2P Require Import Prelude CxxString Lines Doubles DoubleBounds Paths Json JsonObjects JsonText RuntimeConfig CertGates ProviderRouter.
From S2P Require Import Verdict Evidence PlaybookPolicy PlaybookPlan McpBridge ProviderExec PlaybookRun PlaybookSchedule PlaybookEnds PillarChecks VerdictMath VerdictEngine.

Section examples.
Local Existing Instances TreeJson.json TreeJson.text TreeJson.tree_json_ok.

(** ** A project whose own checks pass *)

Definition cargo_files : list string := ["/repo/Cargo.toml"; "/repo/Cargo.lock"]%string.
Definition cargo_world : CertGates.World :=
  CertGates.mkWorld (fun p => one_of p cargo_files) (fun _ => []) (fun _ => false) (fun _ => [mkEntry (lit "/repo/src/test_a.rs") true])
    (fun _ _ => mkResult 0 [] []) (fun _ => mkResult 0 [] []) (fun _ => true).
Definition cargo_project : Project := mkProject cargo_world (fun _ _ _ => (mkResult 0 [] [], d_zero)) (fun _ => 0%Z).
(** The strictest policy *)
Definition strict_policy : Policy := mkPolicy (lit "TRUSTED") 100 (d_of_Z 1) true 0 true true.
Definition cargo_ending : Ending :=
  mkEnding cargo_project None (lit "/repo") d_zero None true None (lit "2026-01-01T00:00:00Z") (Some strict_policy) (lit "verify")
    (mkPlatform [] [] []) None false None.

(** ** The run *)

Definition by_claude : ModelSelection := mkSelection (lit "claude") (lit "claude-opus-4-6") Reason d_zero [] [].
Definition two_plans : list StepPlan :=
  [mkPlan (lit "structure") (lit "architect") [] (lit "architecture") [] by_claude;
   mkPlan (lit "review") (lit "reviewer") [] (lit "build") [] by_claude].
Definition two_setup : Setup := sample_setup "standard".
Definition two_start : Run := start_run two_setup two_plans desk_router.
Definition two_events (a b : ProviderResponse) : list Event :=
  [Test; Iterate d_zero steady_clock; Advance 0; Advance 0; Advance 0; Advance 1; Advance 1; Advance 1;
   Answer 0 a a d_zero; Answer 1 b b d_zero; Test; Join]%nat.
Definition two_run (a b : ProviderResponse) : Run := default two_start (exec_all two_setup (two_events a b) two_start).
Definition unreachable : ProviderResponse := refused (lit "curl failed") 7.

Definition summary_of_outcome (o : Outcome) : Z * str * Z * option str :=
  (out_exit o, out_verdict o, out_confidence o, at_get get_string (object (out_artifact o)) "recommended_action").
Definition outcome (a b : ProviderResponse) : option Outcome := finish_run elements two_setup cargo_ending (two_run a b).

Lemma two_run_reachable a b : bool_decide (is_Some (exec_all two_setup (two_events a b) two_start)) = true ->
  reachable two_setup two_plans desk_router (two_run a b).
Proof. exact (exec_all_reaches two_setup (two_events a b) two_start). Qed.

(** A run of which no agent could be reached exits with 0 under a policy that
    demands the verdict TRUSTED and full confidence: agents that do not answer
    are not counted, and the verdict is only lowered after the policy has been
    evaluated.  The advice stays the one for TRUSTED. *)
Theorem crashed_agents_pass :
  reachable two_setup two_plans desk_router (two_run unreachable unreachable) /\
  ev_verdict <$> evidence_log (results (two_run unreachable unreachable)) = [lit "FAILED"; lit "FAILED"] /\
  summary_of_outcome <$> outcome unreachable unreachable =
    Some (0%Z, lit "TRUSTED WITH GAPS", 100%Z, Some (lit "Safe to merge. Evidence is strong.")).
Proof. split; [apply two_run_reachable; vm_compute; reflexivity|]. split; vm_compute; reflexivity. Qed.

(** ** Witnesses *)

Definition passes_review : ProviderResponse := says "ran 3 tests: all passed
VERDICT: PASS".
Abbreviation good_outcome := (finish_run elements two_setup cargo_ending (two_run passes_review passes_review)).


Lemma trusted_is_unanimous_witness :
  match good_outcome with Some o => out_verdict o = lit "TRUSTED" /\ (80 <= out_confidence o)%Z | None => False end.
Proof.
  assert (out_verdict <$> good_outcome = Some (lit "TRUSTED")) as H0 by (vm_compute; reflexivity).
  destruct good_outcome as [o|] eqn:E; [|discriminate H0]. injection H0 as H0. split; [exact H0|].
  exact (proj2 (trusted_is_unanimous _ _ _ _ _ E H0)).
Defined.

Definition good_log : list AgentEvidence := evidence_log (results (two_run passes_review passes_review)).
Lemma confidence_is_percentage_witness :
  exists s c factors, scores (tally [lit "PASS"; lit "PASS"] good_log) good_log = Some s /\ total_exec s = 2%Z /\
    compute_confidence (mkShortfall false 0 false) (tally [lit "PASS"; lit "PASS"] good_log) s = Some (c, factors) /\ (0 <= c <= 100)%Z.
Proof.
  assert (total_exec <$> scores (tally [lit "PASS"; lit "PASS"] good_log) good_log = Some 2%Z) as E by (vm_compute; reflexivity).
  assert (Forall backed good_log) as Hb by (vm_compute; repeat constructor; discriminate).
  assert (Z.of_nat (length good_log) <= 2 ^ 20)%Z as Hl by (vm_compute; discriminate).
  generalize dependent good_log. intros log E Hb Hl.
  pose proof (confidence_is_percentage (mkShortfall false 0 false) [lit "PASS"; lit "PASS"] log Hb ltac:(vm_compute; discriminate) Hl) as H.
  cbn zeta in H. destruct (scores (tally [lit "PASS"; lit "PASS"] log) log) as [s|]; [|discriminate E]. injection E as E.
  destruct H as (_ & c & factors & Hc & Hr). exists s, c, factors. split; [reflexivity|]. split; [exact E|]. split; [exact Hc|exact Hr].
Defined.

(** *** Collection *)

Definition launched : Run := default two_start (exec_all two_setup [Test; Iterate d_zero steady_clock] two_start).
Lemma slots_and_dependencies_witness :
  used_slots (progress launched) = 8%Z /\ (used_slots (progress launched) <= 8)%Z /\ (th_plan <$> threads launched) ⊆+ plans (progress launched).
Proof.
  assert (reachable two_setup two_plans desk_router launched) as Hr by (apply exec_all_reaches; vm_compute; reflexivity).
  destruct (slots_and_dependencies two_setup two_plans desk_router launched Hr) as (_ & Hb & Hs & _).
  split; [vm_compute; reflexivity|]. split; [exact Hb|exact Hs].
Defined.

(** The second plan waits for the first. *)
Definition chain_plans : list StepPlan :=
  [mkPlan (lit "structure") (lit "architect") [] (lit "architecture") [] by_claude;
   mkPlan (lit "review") (lit "reviewer") [] (lit "build") [lit "structure"] by_claude].
Lemma chain_ordered : ordered chain_plans.
Proof.
  intros i q d Hq Hd. destruct i as [|[|i]]; [| |done]; injection Hq as <-; cbn in Hd.
  - by apply elem_of_nil in Hd.
  - apply list_elem_of_singleton in Hd as ->. exists 0%nat, (mkPlan (lit "structure") (lit "architect") [] (lit "architecture") [] by_claude).
    split; [lia|done].
Qed.
(** In the flash mode even a step that waits for nothing that exists does not
    keep the run from its end. *)
Definition flash_setup : Setup := sample_setup "flash".
Definition orphan_plans : list StepPlan := [mkPlan (lit "review") (lit "reviewer") [] (lit "build") [lit "missing"] by_claude].
Lemma run_can_finish_witness :
  (exists s', steps (run_step two_setup) (start_run two_setup chain_plans desk_router) s' /\ main s' = Collected /\
    length (evidence_log (results s')) = 2%nat) /\
  (exists s', steps (run_step flash_setup) (start_run flash_setup orphan_plans desk_router) s' /\ main s' = Collected).
Proof.
  split.
  - destruct (run_can_finish two_setup chain_plans desk_router (start_run two_setup chain_plans desk_router)) as (s' & Hs & Hm & _ & Hl).
    + right. exact chain_ordered.
    + constructor.
    + exists s'. split; [exact Hs|]. split; [exact Hm|]. apply Hl. reflexivity.
  - destruct (run_can_finish flash_setup orphan_plans desk_router (start_run flash_setup orphan_plans desk_router)) as (s' & Hs & Hm & _).
    + left. reflexivity.
    + constructor.
    + exists s'. split; [exact Hs|exact Hm].
Defined.

(** One of two agents is skipped because the budget of the flash mode is used
    up: the run is TRUSTED. *)
Definition skip_events : list Event :=
  [Test; Iterate d_zero steady_clock; Advance 0; Advance 0; Advance 0; Answer 0 passes_review passes_review d_zero;
   Test; Iterate late steady_clock; Join]%nat.
Definition skip_run : Run := default two_start (exec_all flash_setup skip_events (start_run flash_setup chain_plans desk_router)).
Definition lenient_ending : Ending :=
  mkEnding cargo_project None (lit "/repo") d_zero None true None (lit "2026-01-01T00:00:00Z") None (lit "verify")
    (mkPlatform [] [] []) None false None.
Lemma skipped_agents_trusted :
  agents_skipped (flags skip_run) = 1%Z /\
  (fun o => (out_exit o, out_verdict o, out_confidence o)) <$> finish_run elements flash_setup lenient_ending skip_run =
    Some (0%Z, lit "TRUSTED", 90%Z).
Proof. split; vm_compute; reflexivity. Qed.
End examples.
