(* ===== verification/PlaybookCommand.v ===== *)
(** * The commands [playbook] and [ci]: [apps/cli/src/cmd/fleet.cpp]

    How their arguments are read, the comparison of two modes, and the
    statistics over the history of verdicts.  [None] is an exception, or a
    conversion of a double out of the range of [int]. *)

From Stdlib Require Import ZArith Ascii String Lia.
From stdpp Require Import base list gmap strings.
From S2P Require Import Prelude CxxString Lines Numbers Doubles Json JsonObjects JsonText CertGates Verdict Evidence PlaybookPolicy.

(** ** Arguments *)

Definition is_option (a : str) : bool := starts_with (lit "--") a.

Record PlaybookOptions : Type := mkOptions {
  po_mode : str; po_goal : str; po_ci : bool; po_human : bool; po_policy : bool; po_policy_path : str;
}.
Definition default_options : PlaybookOptions := mkOptions (lit "flash") (lit "Audit and improve the codebase") false false false [].
Definition set_mode (m : str) (o : PlaybookOptions) : PlaybookOptions := mkOptions m (po_goal o) (po_ci o) (po_human o) (po_policy o) (po_policy_path o).
Definition set_goal (g : str) (o : PlaybookOptions) : PlaybookOptions := mkOptions (po_mode o) g (po_ci o) (po_human o) (po_policy o) (po_policy_path o).
Definition set_ci (o : PlaybookOptions) : PlaybookOptions := mkOptions (po_mode o) (po_goal o) true (po_human o) (po_policy o) (po_policy_path o).
Definition set_human (o : PlaybookOptions) : PlaybookOptions := mkOptions (po_mode o) (po_goal o) (po_ci o) true (po_policy o) (po_policy_path o).
Definition set_policy (path : option str) (o : PlaybookOptions) : PlaybookOptions :=
  mkOptions (po_mode o) (po_goal o) (po_ci o) (po_human o) true (default (po_policy_path o) path).

(** The arguments after the manifest *)
Fixpoint parse_options (args : list str) (o : PlaybookOptions) : PlaybookOptions :=
  match args with
  | [] => o
  | a :: rest =>
      if bool_decide (a = lit "--mode") then match rest with m :: rest' => parse_options rest' (set_mode m o) | [] => o end
      else if bool_decide (a = lit "--ci") then parse_options rest (set_ci o)
      else if bool_decide (a = lit "--human-approve") then parse_options rest (set_human o)
      else if bool_decide (a = lit "--policy") then
        match rest with
        | p :: rest' => if is_option p then parse_options rest (set_policy None o) else parse_options rest' (set_policy (Some p) o)
        | [] => set_policy None o
        end
      else parse_options rest (if is_option a then o else set_goal a o)
  end.
(** The environment of a build server counts as [--ci]. *)
Definition playbook_options (on_server : bool) (args : list str) : PlaybookOptions :=
  let o := parse_options args default_options in if on_server then set_ci o else o.

(** [euxis ci]: the manifest and the arguments that are passed on *)
Fixpoint split_ci (args : list str) (manifest : option str) : option str * list str :=
  match args with
  | [] => (manifest, [])
  | a :: rest =>
      if bool_decide (a = lit "--policy") then
        match rest with
        | p :: rest' =>
            if is_option p then let '(m, l) := split_ci rest manifest in (m, a :: l)
            else let '(m, l) := split_ci rest' manifest in (m, a :: p :: l)
        | [] => (manifest, [a])
        end
      else if negb (is_option a) && bool_decide (manifest = None) then split_ci rest (Some a)
      else let '(m, l) := split_ci rest manifest in (m, a :: l)
  end.
Definition ci_args (args : list str) : list str :=
  let '(m, l) := split_ci args None in default (lit "verify-everything") m :: l ++ [lit "--ci"].

(** ** Comparing two modes *)

(** The arguments both runs get, and the first that can be a manifest *)
Fixpoint base_args (args : list str) (manifest : str) : list str * str :=
  match args with
  | [] => ([], manifest)
  | a :: rest =>
      if bool_decide (a = lit "--compare") then base_args rest manifest
      else if bool_decide (a = lit "--mode") && negb (bool_decide (rest = [])) then
        match rest with _ :: rest' => base_args rest' manifest | [] => ([], manifest) end
      else if bool_decide (a = lit "--ci") then let '(l, m) := base_args rest manifest in (a :: l, m)
      else if bool_decide (a = lit "--policy") then
        match rest with
        | p :: rest' => let '(l, m) := base_args rest' manifest in (a :: p :: l, m)
        | [] => ([a], manifest)
        end
      else
        let manifest := if negb (is_option a) && bool_decide (manifest = []) then a else manifest in
        let '(l, m) := base_args rest manifest in (a :: l, m)
  end.

Inductive CompareCheck : Type := Stale | WrongModes | Fresh (flash standard : VerdictHistoryEntry).
(** The two entries the runs have added to the history *)
Definition check_history (pre post : list VerdictHistoryEntry) : CompareCheck :=
  if (length post <? length pre + 2)%nat then Stale
  else match rev post with
  | standard :: flash :: _ =>
      if negb (bool_decide (h_mode flash = lit "flash")) || negb (bool_decide (h_mode standard = lit "standard")) then WrongModes
      else Fresh flash standard
  | _ => Stale
  end.

Inductive Drift : Type := Agreement | Semantic | Mechanical | Within | Mixed.
Definition classify_drift (flash standard : VerdictHistoryEntry) : option Drift :=
  conf_drift ← int_range (h_confidence standard - h_confidence flash);
  size ← int_range (Z.abs conf_drift);
  Some (if bool_decide (h_verdict flash = h_verdict standard) && (size <=? 10)%Z then Agreement
        else if ((h_executed flash <? h_executed standard) && (conf_drift <? 0) && (h_timeouts standard <=? 1))%Z then Semantic
        else if (2 <? h_timeouts standard)%Z then Mechanical
        else if (size <=? 10)%Z then Within
        else Mixed).
Definition compare_exit (flash_rc standard_rc : Z) (check : CompareCheck) : Z :=
  if (flash_rc =? 2)%Z || (standard_rc =? 2)%Z then 2
  else match check with
       | Stale | WrongModes => 1
       | Fresh _ _ => if (flash_rc =? 0)%Z && (standard_rc =? 0)%Z then 0 else 1
       end.

(** ** Statistics *)

Definition select_runs (since : str) (last : Z) (all : list VerdictHistoryEntry) : list VerdictHistoryEntry :=
  let h := if bool_decide (since = []) then all else List.filter (fun e => negb (str_ltb (h_timestamp e) since)) all in
  if ((0 <? last) && (last <? Z.of_nat (length h)))%Z then last_n (Z.to_nat last) h else h.
Definition of_mode (m : string) (e : VerdictHistoryEntry) : bool := bool_decide (h_mode e = lit m).

(** [vals[vals.size() / 2]] after sorting, zero where there are none *)
Definition compute_median (vals : list double) : double := default d_zero (sort_doubles vals !! (length vals / 2)%nat).
(** [(int)(100.0 * n / size)] *)
Definition rate (n size : Z) : option Z := d_to_int (d_div (d_mul (d_of_Z 100) (d_of_Z n)) (d_of_Z size)).

Section stats.
Context `{JsonText}.

Definition target (targets : jv) (k : string) (d : Z) : option Z := value get_int targets k d.

(** The targets of the flash mode: the SLA, the latency, the confidence *)
Definition flash_checks (targets : jv) (runs : list VerdictHistoryEntry) : option (list bool) :=
  let p95s := List.filter (d_lt d_zero) (h_p95 <$> runs) in
  sla_rate ← rate (count (fun e => d_le (h_latency e) (d_of_Z 45500)) runs) (Z.of_nat (length runs));
  sla_target ← target targets "flash_sla_hit_rate" 90;
  p95 ← match p95s with
        | [] => Some []
        | _ => t ← value get_double targets "flash_p95_latency_ms" (d_of_Z 75000); Some [d_le (compute_median p95s) t]
        end;
  median_conf ← d_to_int (compute_median ((fun e => d_of_Z (h_confidence e)) <$> runs));
  conf_target ← target targets "min_flash_confidence" 70;
  Some ((sla_target <=? sla_rate)%Z :: p95 ++ [(conf_target <=? median_conf)%Z]).
Definition escalation_check (targets : jv) (runs : list VerdictHistoryEntry) : option (list bool) :=
  r ← rate (count h_escalated runs) (Z.of_nat (length runs));
  t ← target targets "max_escalation_rate" 20;
  Some [(r <=? t)%Z].
Definition drift_check (targets : jv) (flash standard : list VerdictHistoryEntry) : option (list bool) :=
  if ((length flash <? 3) || (length standard <? 3))%nat then Some []
  else
    let median l := compute_median ((fun e => d_of_Z (h_confidence e)) <$> l) in
    t ← target targets "max_confidence_drift" 10;
    drift ← d_to_int (d_sub (median standard) (median flash));
    size ← int_range (Z.abs drift);
    Some [(size <=? t)%Z].
Definition timeout_check (targets : jv) (history : list VerdictHistoryEntry) : option (list bool) :=
  let agents := sumz (h_executed <$> history) in
  r ← (if (0 <? agents)%Z then rate (sumz (h_timeouts <$> history)) agents else Some 0%Z);
  t ← target targets "max_timeout_rate" 15;
  Some [(r <=? t)%Z].

(** The policy on what the history recorded of a run: the evidence density
    stands for the coverage. *)
Definition recorded_artifact (h : VerdictHistoryEntry) : jv :=
  object [(lit "verdict", jstr (h_verdict h)); (lit "confidence", jint (h_confidence h)); (lit "escalated", jbool (h_escalated h));
          (lit "sla", object [(lit "met", jbool (negb (h_exceeded h)))]); (lit "trend", object [(lit "regression", jbool false)]);
          (lit "benchmark", object [(lit "critical_coverage", jdouble (h_density h))])].
Definition compliance (p : option Policy) (history : list VerdictHistoryEntry) : option (option Z) :=
  match p with
  | None => Some None
  | Some p =>
      vs ← mapM (fun h => evaluate_policy (recorded_artifact h) p) history;
      r ← rate (count (fun v => bool_decide (v = [])) vs) (Z.of_nat (length history));
      Some (Some r)
  end.
(** The bar of a run has [confidence / 5] signs; a negative number of them throws. *)
Definition bars (history : list VerdictHistoryEntry) : option (list nat) :=
  mapM (fun h => let n := Z.quot (h_confidence h) 5 in if (0 <=? n)%Z then Some (Z.to_nat n) else None) (last_n 10 history).

(** Whether all targets are met *)
Definition print_playbook_stats (targets : jv) (policy : option Policy) (since : str) (last : Z) (all : list VerdictHistoryEntry) : option bool :=
  match select_runs since last all with
  | [] => Some false
  | history =>
      let flash := List.filter (of_mode "flash") history in
      let standard := List.filter (of_mode "standard") history in
      c1 ← match flash with [] => Some [] | _ => flash_checks targets flash end;
      _ ← match flash with [] => Some 0%Z | _ => target targets "early_stop_rate" 60 end;
      c3 ← match flash with [] => Some [] | _ => escalation_check targets flash end;
      c4 ← match flash, standard with [], _ | _, [] => Some [] | _, _ => drift_check targets flash standard end;
      c5 ← timeout_check targets history;
      _ ← compliance policy history;
      _ ← bars history;
      Some (forallb id (c1 ++ c3 ++ c4 ++ c5))
  end.
Definition stats_exit (check_baseline all_met : bool) : Z := if check_baseline && negb all_met then 1 else 0.
End stats.

(** ** Arguments: what they mean *)

(** Whether the last argument is a [--mode] that takes the next one *)
Fixpoint dangling (args : list str) : bool :=
  match args with
  | [] => false
  | a :: rest =>
      if bool_decide (a = lit "--mode") then match rest with _ :: rest' => dangling rest' | [] => true end
      else if bool_decide (a = lit "--policy") then match rest with p :: rest' => if is_option p then dangling rest else dangling rest' | [] => false end
      else dangling rest
  end.

Lemma list_two_ind {A} (P : list A -> Prop) : P [] -> (forall a, P [a]) -> (forall a b l, P l -> P (b :: l) -> P (a :: b :: l)) -> forall l, P l.
Proof.
  intros H0 H1 H2. assert (forall l, P l /\ forall a, P (a :: l)) as Hl; [|intros l; apply Hl].
  induction l as [|b l [IH IH']]; [by split|]. split; [apply IH'|]. intros a. apply H2; [done|apply IH'].
Qed.

Lemma parse_cons a rest o : parse_options (a :: rest) o =
  if bool_decide (a = lit "--mode") then match rest with m :: rest' => parse_options rest' (set_mode m o) | [] => o end
  else if bool_decide (a = lit "--ci") then parse_options rest (set_ci o)
  else if bool_decide (a = lit "--human-approve") then parse_options rest (set_human o)
  else if bool_decide (a = lit "--policy") then
    match rest with
    | p :: rest' => if is_option p then parse_options rest (set_policy None o) else parse_options rest' (set_policy (Some p) o)
    | [] => set_policy None o
    end
  else parse_options rest (if is_option a then o else set_goal a o).
Proof. by destruct rest. Qed.
Lemma dangling_cons a rest : dangling (a :: rest) =
  if bool_decide (a = lit "--mode") then match rest with _ :: rest' => dangling rest' | [] => true end
  else if bool_decide (a = lit "--policy") then match rest with p :: rest' => if is_option p then dangling rest else dangling rest' | [] => false end
  else dangling rest.
Proof. by destruct rest. Qed.
Lemma split_ci_cons a rest m : split_ci (a :: rest) m =
  if bool_decide (a = lit "--policy") then
    match rest with
    | p :: rest' =>
        if is_option p then let '(m, l) := split_ci rest m in (m, a :: l) else let '(m, l) := split_ci rest' m in (m, a :: p :: l)
    | [] => (m, [a])
    end
  else if negb (is_option a) && bool_decide (m = None) then split_ci rest (Some a)
  else let '(m, l) := split_ci rest m in (m, a :: l).
Proof. by destruct rest. Qed.

Lemma parse_ci_last args o : parse_options (args ++ [lit "--ci"]) o =
  if dangling args then set_mode (lit "--ci") (parse_options args o) else set_ci (parse_options args o).
Proof.
  revert o. induction args as [|a|a b l IH IH'] using list_two_ind; intros o; [done| |].
  - destruct (decide (a = lit "--mode")) as [->|]; [done|]. destruct (decide (a = lit "--ci")) as [->|]; [done|].
    destruct (decide (a = lit "--human-approve")) as [->|]; [done|]. destruct (decide (a = lit "--policy")) as [->|]; [done|].
    cbn [app parse_options dangling]. rewrite !(bool_decide_false (a = _)) by done. done.
  - change ((a :: b :: l) ++ [lit "--ci"]) with (a :: (b :: l) ++ [lit "--ci"]).
    change ((b :: l) ++ [lit "--ci"]) with (b :: l ++ [lit "--ci"]) in *.
    rewrite (parse_cons a), (parse_cons a (b :: l)), (dangling_cons a). destruct (bool_decide (a = lit "--mode")); [apply IH|].
    destruct (bool_decide_reflect (a = lit "--ci")) as [->|].
    { rewrite bool_decide_false by done. apply (IH' (set_ci o)). }
    destruct (bool_decide_reflect (a = lit "--human-approve")) as [->|].
    { rewrite bool_decide_false by done. apply (IH' (set_human o)). }
    destruct (bool_decide (a = lit "--policy")); [|apply IH'].
    destruct (is_option b); [apply IH'|apply IH].
Qed.

Lemma split_ci_rest args m : split_ci args (Some m) = (Some m, args).
Proof.
  induction args as [|a|a b l IH IH'] using list_two_ind; [done| |].
  - rewrite split_ci_cons. destruct (bool_decide (a = lit "--policy")); [done|]. by rewrite bool_decide_false, andb_false_r by done.
  - rewrite split_ci_cons. destruct (bool_decide (a = lit "--policy")).
    + destruct (is_option b); [by rewrite IH'|by rewrite IH].
    + rewrite bool_decide_false, andb_false_r by done. by rewrite IH'.
Qed.

(** C40: with the manifest first, [euxis ci] is [euxis playbook] in CI mode, unless
    the arguments end in a [--mode], which takes the [--ci] for its value. *)
Theorem ci_is_playbook_in_ci_mode manifest args : is_option manifest = false ->
  exists rest, ci_args (manifest :: args) = manifest :: rest /\
    parse_options rest default_options =
    (if dangling args then set_mode (lit "--ci") else set_ci) (parse_options args default_options).
Proof.
  intros Hm. unfold ci_args. cbn [split_ci]. rewrite bool_decide_false by (intros ->; discriminate Hm).
  rewrite Hm, bool_decide_true by done. cbn [negb andb]. rewrite split_ci_rest. cbn [default from_option id]. eexists. split; [done|].
  rewrite parse_ci_last. by destruct (dangling args).
Qed.

(** Without a manifest, the value of [--mode] is taken for it, and [--mode]
    then takes the [--ci]: the run is not in CI mode. *)
Lemma ci_mode_misread mode : is_option mode = false ->
  ci_args [lit "--mode"; mode] = [mode; lit "--mode"; lit "--ci"] /\
  parse_options [lit "--mode"; lit "--ci"] default_options = set_mode (lit "--ci") default_options.
Proof.
  intros Hm. split; [|done]. unfold ci_args. cbn [split_ci]. rewrite bool_decide_false by done. cbn [is_option negb andb].
  change (is_option (lit "--mode")) with true. cbn [negb andb]. rewrite bool_decide_false by (intros ->; discriminate Hm). by rewrite Hm.
Qed.

(** *** The comparison *)

(** The comparison finds the two new entries as long as the history has at
    most 498 entries; with more it always fails, since only 500 are read. *)
Theorem compare_exact all flash standard :
  check_history (last_n 500 all) (last_n 500 (all ++ [flash; standard])) =
  if (length all <=? 498)%nat
  then if bool_decide (h_mode flash = lit "flash") && bool_decide (h_mode standard = lit "standard") then Fresh flash standard else WrongModes
  else Stale.
Proof.
  assert (forall A n (l : list A), length (last_n n l) = Nat.min n (length l)) as Hlen by (intros A n l; unfold last_n; rewrite length_drop; lia).
  unfold check_history. rewrite !Hlen, length_app. cbn [length].
  destruct (length all <=? 498)%nat eqn:E.
  - apply Nat.leb_le in E. rewrite (proj2 (Nat.ltb_ge _ _)) by lia.
    assert (last_n 500 (all ++ [flash; standard]) = all ++ [flash; standard]) as ->.
    { unfold last_n. rewrite length_app. cbn [length]. by replace (length all + 2 - 500)%nat with 0%nat by lia. }
    rewrite rev_app_distr. cbn [rev app]. by destruct (bool_decide (h_mode flash = _)), (bool_decide (h_mode standard = _)).
  - apply Nat.leb_gt in E. by rewrite (proj2 (Nat.ltb_lt _ _)) by lia.
Qed.

(** *** The statistics *)

Section compliance.
Context `{JsonText, !JsonOk}.

Lemma no_violation b gate detail : gate_violation b gate detail = [] <-> b = false.
Proof. by destruct b. Qed.

(** What a recorded run is judged by: the density of its evidence in the place
    of its coverage; a regression is not seen. *)
Lemma recorded_run_judged h p : int32 (h_confidence h) ->
  exists vs, evaluate_policy (recorded_artifact h) p = Some vs /\
    (vs = [] <-> (verdict_rank (min_verdict p) <= verdict_rank (h_verdict h))%Z /\ (min_confidence p <= h_confidence h)%Z /\
      d_lt (h_density h) (min_critical_coverage p) = false /\ (fail_on_escalation p = true -> h_escalated h = false) /\
      (fail_on_budget_exceeded p = true -> h_exceeded h = false)).
Proof.
  intros Hc. unfold evaluate_policy, check_coverage, check_regression, check_drift, if_present, recorded_artifact.
  rewrite (value_member get_string _ "verdict" (jstr (h_verdict h))), (value_member get_int _ "confidence" (jint (h_confidence h))),
    (value_member get_bool _ "escalated" (jbool (h_escalated h))), get_string_str, get_int_int, get_bool_bool by done.
  rewrite !key_member. change (assoc (lit "compare") _) with (@None jv).
  change (assoc (lit "benchmark") _) with (Some (object [(lit "critical_coverage", jdouble (h_density h))])).
  change (assoc (lit "trend") _) with (Some (object [(lit "regression", jbool false)])).
  change (assoc (lit "sla") _) with (Some (object [(lit "met", jbool (negb (h_exceeded h)))])). cbn [mbind option_bind].
  rewrite key_member. change (assoc (lit "critical_coverage") _) with (Some (jdouble (h_density h))). cbn [mbind option_bind]. rewrite get_double_double.
  rewrite (value_member get_bool _ "regression" (jbool false)), (value_member get_bool _ "met" (jbool (negb (h_exceeded h)))), !get_bool_bool by done.
  cbn [mbind option_bind].
  destruct (fail_on_regression p), (fail_on_escalation p), (fail_on_budget_exceeded p); cbn [mbind option_bind];
    (eexists; split; [reflexivity|]); rewrite ?app_nil, ?no_violation, ?Z.ltb_ge, ?negb_false_iff; destruct (h_exceeded h); cbn [negb]; intuition congruence.
Qed.
End compliance.

Lemma ci_is_playbook_in_ci_mode_witness :
  is_option (lit "fleet.json") = false /\
  exists rest, ci_args [lit "fleet.json"; lit "--mode"; lit "flash"] = lit "fleet.json" :: rest /\
    parse_options rest default_options = set_ci (set_mode (lit "flash") default_options).
Proof.
  split; [reflexivity|]. exact (ci_is_playbook_in_ci_mode (lit "fleet.json") [lit "--mode"; lit "flash"] eq_refl).
Defined.
